(* ===== verification/_CoqProject ===== *)
-Q . S2P
Prelude.v
Exceptions.v
Name.v
Merkle.v
Timestamp.v
Asset.v
Action.v
ChainConfig.v
TxFee.v
Usage.v
Database.v
ResourceLimits.v
Authority.v
AuthorityChecker.v
Permissions.v
Authorization.v
EosioContract.v
BlockHeader.v
BlockHeaderState.v
ForkDatabase.v
ProtocolFeatures.v
FeatureActivation.v
ContractTables.v
TableRefinement.v
UnappliedQueue.v
Producer.v
ForkSwitch.v
BlockLog.v
TransactionContext.v
ActionExecution.v
Deferred.v
TransactionPush.v
AbiSerializer.v
NetPlugin.v
Snapshot.v
ChainSnapshot.v
ForkFile.v
Startup.v
