(* ===== verification/Prelude.v ===== *)
(** * Verification of the EOSForce chain library

    EOSForce is a blockchain node in C++ derived from EOSIO.  This development models the
    consensus and execution core of the node, [libraries/chain], as Rocq functions that are
    translated from the source and can be run, and proves what makes them correct.

    ** The program and the files that model it

    A node receives signed blocks and transactions.  The controller checks the header of a
    block against the state of its parent, keeps the blocks that are not yet final in the
    fork database, switches to the best branch, and applies the transactions of a block.  A
    transaction is authorised against the permissions of its accounts, pays fees, is metered
    by the resource limits, and runs native actions or contracts, which change tables of the
    state database.  Paths below are relative to [src/libraries/chain], headers being in
    [include/eosio/chain].

    - Values.  [Exceptions.v]: the exception classes ([exceptions.hpp]); [Name.v]: account
      names ([name.hpp], [name.cpp]); [Asset.v]: symbols and assets ([symbol.hpp],
      [asset.hpp], [asset.cpp]); [Timestamp.v]: block times ([block_timestamp.hpp]);
      [Merkle.v]: hash trees ([merkle.cpp], [incremental_merkle.hpp]); [Action.v]: actions
      and permission levels ([action.hpp]); [ChainConfig.v]: the configuration and the
      switches of the chain ([chain_config.hpp], [config_on_chain.cpp]).
    - State database.  [Database.v]: what the models use of chainbase tables.
    - Consensus.  [BlockHeader.v]: headers and producer schedules ([block_header.cpp],
      [producer_schedule.hpp]); [BlockHeaderState.v]: the DPoS state of a block
      ([block_header_state.cpp]); [ForkDatabase.v]: the tree of reversible blocks
      ([fork_database.cpp]); [ProtocolFeatures.v]: recognised and activated features
      ([protocol_feature_manager.cpp]); [FeatureActivation.v]: what [controller.cpp] does
      with them, and the whitelist of intrinsics ([whitelisted_intrinsics.cpp]);
      [ForkSwitch.v]: how [controller.cpp] pushes, applies and pops blocks, switches forks
      and logs irreversible blocks; [BlockLog.v]: the log of irreversible blocks and its
      index, their repair and trimming ([block_log.cpp], [programs/eosio-blocklog/main.cpp]
      of [src]).
    - Production.  [UnappliedQueue.v]: the transactions to apply again
      ([unapplied_transaction_queue.hpp]); [Producer.v]: when and on what a node produces
      ([plugins/producer_plugin/producer_plugin.cpp] of [src]).
    - Peers.  [NetPlugin.v]: how a node catches up with its peers, serves them, and passes
      on blocks and transactions ([plugins/net_plugin/net_plugin.cpp] and [protocol.hpp] of
      [src]): the synchronisation manager, the dispatch manager, the handlers of messages
      and the write queues, as steps of a node with all its connections.
    - Authorization.  [Authority.v] ([authority.hpp]); [AuthorityChecker.v]
      ([authority_checker.hpp]); [Permissions.v]: the permission tables
      ([permission_object.hpp], [authorization_manager.cpp]); [Authorization.v]: the checks
      of a transaction ([authorization_manager.cpp]).
    - Resources.  [Usage.v]: moving averages and elastic limits
      ([resource_limits_private.hpp]); [ResourceLimits.v]: the manager
      ([resource_limits.cpp]); [TxFee.v]: fees ([txfee_manager.cpp] and their part of
      [transaction_context.cpp]); [TransactionContext.v]: the limits, the timer and the bill
      of a transaction ([transaction_context.cpp], [platform_timer_posix.cpp]).
    - Execution.  [EosioContract.v]: the native actions ([eosio_contract.cpp]);
      [ContractTables.v]: tables, indices and iterators of contracts ([apply_context.hpp],
      [apply_context.cpp]); [TableRefinement.v]: those tables as sorted maps;
      [ActionExecution.v]: actions on their receivers, notifications, inline and fee actions
      ([apply_context.cpp], [transaction_context.cpp]); [Deferred.v]: the table of deferred
      transactions ([apply_context.cpp], [generated_transaction_object.hpp]);
      [TransactionPush.v]: how [controller.cpp] pushes input, implicit and deferred
      transactions, and the receipts of a block; [AbiSerializer.v]: descriptions of the
      types of a contract and the conversion of values by them ([abi_def.hpp],
      [abi_serializer.cpp]).
    - Snapshots.  [Snapshot.v]: the writers and readers of snapshots, as binary files, as
      variants and as a hash ([snapshot.hpp], [snapshot.cpp]); [ChainSnapshot.v]: what a
      chain writes into one and how it reads it back ([controller.cpp],
      [authorization_manager.cpp], [protocol_state_object.cpp],
      [global_property_object.hpp]).

    ** How the models correspond to the code

    An integer of [w] bits is a [Z] with its wrap-around written out ([u8] to [u128],
    [s64]); a struct is a record and an enum an inductive type with the names of the source.
    A function that throws returns a [result], [Ok] or [Throw] with the exception class; a
    function that changes an object takes and returns it.  Where an exception leaves the
    changes made so far (objects outside a database session), the model returns the object
    with the exception; where the session undoes them, it returns the exception alone.  A
    table of the state database is a finite map by its unique key, or a list of its rows.
    [None], or [Undefined] in [ContractTables.v] and [BlockLog.v], is undefined behaviour: a
    null pointer, an index out of range, a pointer to a removed object.  The files of the
    block log are lists of bytes, its index a list of words.

    A contract is a [program] of [ActionExecution.v]: the calls it makes of its host, in any
    order and depending on what they return.  [ActionExecution.Components] and
    [TransactionPush.Engine] are what these files use of the others: operations that the
    files named there model, with the few laws the theorems need; samples instantiate them.
    [Snapshot.SnapshotFormat] is what a chain relies on in a snapshot, whatever its format:
    a section that was written is found and its rows are read back; the binary files and the
    variants are its instances, and [ChainSnapshot.v] is proved against it.

    Code of other libraries is a parameter: hashes, keys, signatures and serialisation of fc,
    the order of softfloat numbers, [std::hash].  What the theorems need of it is a named
    hypothesis (a class such as [PublicKey], or a premise such as injectivity of a hash),
    which a witness instantiates.  The undo sessions of chainbase are the class
    [ForkSwitch.UndoDatabase], with a list of states as an instance.

    ** What is proved

    - Blocks: a block becomes proposed irreversible only after confirmations of more than
      two thirds of the producers, by producers that do not confirm twice
      ([proposed_needs_supermajority]); irreversibility is monotone under a schedule and
      computed as the two-thirds rank; headers that a producer builds are accepted; the fork
      database keeps its tree, its head and its order through every operation, and its
      branches, removals and advances of the root are exact.
    - Forks: through any run of pushed, produced and aborted blocks the state database is
      the replay of the best chain the node knows, in step with the undo stack, the
      reversible blocks and the log ([controller_follows_best_chain]); a push always ends
      ([push_block_ends]) and one that fails changes none of them ([failed_push_restores]).
    - Block log: any run of appends, restarts and repairs of a log cut short refines a list
      of blocks ([block_log_refines_list]); trimming keeps the blocks it should
      ([trim_blocklog_front_keeps]) unless a position straddles two chunks, where it writes
      outside its buffer ([trim_blocklog_front_overruns]).
    - Transactions: pushing is atomic ([push_transaction_atomic]), which it was not for the
      fees of the early chain ([early_fee_kept]); a deferred transaction is retired once or
      nothing changes ([scheduled_retired_once]), and its memory is billed exactly
      ([deferred_memory_billed]); an applied block gives the node exactly the receipts in it
      ([block_receipts_reproduced]); every scheduled action runs exactly once, in numbered order
      ([every_action_runs]), after its fee ([every_action_pays]), and execution ends
      ([exec_terminates]); a transaction is billed what its accounts can pay
      ([transaction_bill]) for the time its timer ran ([billing_timer_exact]).
    - Production: a node never signs two blocks of a producer at the same height or time
      ([no_double_production]) nor confirms twice ([confirmations_not_double]); the next
      slot of a producer is the earliest it is scheduled for; the queue of unapplied
      transactions refines three lanes ([queue_refines_lanes]).
    - Features: the recognised set has acyclic, resolved dependencies
      ([recognized_features_wf]); the manager with its linked list refines a stack of
      activations ([manager_refines_stack]) that follows the chain through blocks, aborts
      and pops ([features_follow_chain]); the whitelist of intrinsics refines a set.
    - Authorization: the checker decides the recursive meaning of authorities
      ([satisfied_exact]); an accepted transaction is authorised
      ([check_authorization_sound]); accounts keep their owner and active permissions
      ([accounts_keep_permissions]).
    - Resources: totals are sums, averages and elastic limits stay in their bounds and
      recover, fees are exact, code is kept while it is referenced, the memory of
      tables is billed exactly ([storage_billed]).
    - Contract tables: database calls follow valid pointers with one exception, and primary
      tables refine sorted maps ([calls_follow_valid_pointers], [primary_tables_refine]).
    - Peers: whatever messages arrive, the requests for blocks that a node sends are
      non-empty, within the configured span and what was announced
      ([sync_requests_bounded]); if the peers it asks serve their requests, a node that
      learns of a later irreversible block receives every block up to it, once and in
      order, and is in sync after finitely many requests ([catchup_completes]).
    - Snapshots: a binary snapshot that is written validates and gives back the rows of
      each of its sections ([binary_snapshot_reads]); a chain read from the snapshot of
      another has its contents, with permissions numbered anew ([snapshot_restores_chain]).
    - Encodings: merkle roots, names, symbols, headers; an accepted abi is well formed
      ([abi_validated]) and what is packed by it is read back ([packed_value_unpacks]).

    ** Bounds and fuel

    Loops that are not structural have fuel.  [Merkle.merkle_loop] has a step per node;
    the walks of [ForkDatabase] have a step per block number or per block of the index;
    [Permissions.walk_parents] a step per permission identifier; [ProtocolFeatures]'s
    [pop_builtins] a step per builtin feature; [ResourceLimits.process_updates_loop] a step
    per pending row; the walks over type names and bases in [AbiSerializer] a step per
    definition, its recursion a step per scope, which the code itself limits to 32;
    [BlockLog]'s loops a step per block or per byte of the file; the search for a section
    in [Snapshot] a step per byte, the reading of rows in [ChainSnapshot] a step per row;
    [ActionExecution.exec] a step per account that can be notified and one per level of
    inline actions, of which a 16-bit limit allows fewer than 65536.  In each case a lemma shows that states
    which satisfy the invariant never run out, and the theorems state results, not only conditional ones.

    ** Not modelled

    The rest of the controller (start-up, replay, queries), web assembly and its intrinsics (engines are submodules), the time limit and error texts of the abi
    serializer, the sockets, timers and message encoding of the
    network plugin, the other plugins and
    programs (HTTP, wallets, command lines), genesis data, signals, the console and
    the trace of a failed action.  They are listed in the manifest with what is
    planned of them.  The database undo stack is modelled where a component depends on it. *)

From stdpp Require Export base tactics numbers option list gmap strings sorting.
From Stdlib Require Export Lia.

(** ** Results: code that may throw *)

(** A C++ call that returns a value or throws.  [E] is the type of exceptions. *)
Inductive result (E A : Type) : Type :=
| Ok (a : A)
| Throw (e : E).
Arguments Ok {E A} a.
Arguments Throw {E A} e.

#[global] Instance result_ret {E} : MRet (result E) := @Ok E.
#[global] Instance result_bind {E} : MBind (result E) := λ A B f m,
  match m with Ok a => f a | Throw e => Throw e end.
#[global] Instance result_fmap {E} : FMap (result E) := λ A B f m,
  match m with Ok a => Ok (f a) | Throw e => Throw e end.

(** [EOS_ASSERT( b, e, ... )] *)
Definition assert_that {E} (b : bool) (e : E) : result E unit :=
  if b then Ok tt else Throw e.

(** [r] does not throw. *)
Definition is_ok {E A} (r : result E A) : Prop := ∃ a, r = Ok a.

#[global] Instance is_ok_dec {E A} (r : result E A) : Decision (is_ok r).
Proof. destruct r as [a|e]; [left; by exists a | right; by intros [? ?]]. Defined.

Lemma bind_Ok {E A B} (m : result E A) (f : A → result E B) b :
  (m ≫= f) = Ok b ↔ ∃ a, m = Ok a ∧ f a = Ok b.
Proof.
  destruct m as [a|e]; unfold mbind, result_bind; split.
  - by exists a.
  - by intros (? & [= ->] & ?).
  - done.
  - by intros (? & ? & ?).
Qed.

Lemma bind_Throw {E A B} (m : result E A) (f : A → result E B) e :
  (m ≫= f) = Throw e ↔ m = Throw e ∨ ∃ a, m = Ok a ∧ f a = Throw e.
Proof.
  destruct m as [a|e']; unfold mbind, result_bind; split.
  - intros ?. right. by exists a.
  - by intros [?|(? & [= ->] & ?)].
  - intros [= ->]. by left.
  - by intros [[= ->]|(? & ? & ?)].
Qed.

Lemma assert_that_Ok {E} (b : bool) (e : E) u : assert_that b e = Ok u ↔ b = true.
Proof. destruct b, u; unfold assert_that; split; congruence. Qed.

Lemma assert_that_Throw {E} (b : bool) (e e' : E) :
  assert_that b e = Throw e' ↔ b = false ∧ e = e'.
Proof. destruct b; unfold assert_that; intuition congruence. Qed.

(** [mapM] over a result, left to right, stopping at the first exception. *)
Fixpoint foldM {E A S} (f : S → A → result E S) (s : S) (l : list A) : result E S :=
  match l with
  | [] => Ok s
  | a :: l' => s' ← f s a; foldM f s' l'
  end.

(** Invert a successful computation into the facts each step established. *)
Ltac inv_ok :=
  repeat match goal with
  | H : mbind _ _ = Ok _ |- _ => apply bind_Ok in H as (? & ? & ?)
  | H : assert_that _ _ = Ok _ |- _ => apply assert_that_Ok in H
  | H : Ok _ = Ok _ |- _ => injection H as H; subst
  | H : Throw _ = Ok _ |- _ => discriminate H
  | H : Ok _ = Throw _ |- _ => discriminate H
  | H : mret _ = Ok _ |- _ => injection H as H; subst
  end.

(** An invariant of [foldM]. *)
Lemma foldM_ind {E A S} (P : S → Prop) (f : S → A → result E S) s l s' :
  P s → (∀ s a s', P s → a ∈ l → f s a = Ok s' → P s') → foldM f s l = Ok s' → P s'.
Proof.
  revert s. induction l as [|a l IH]; simpl; intros s Hs Hf Hr.
  - congruence.
  - apply bind_Ok in Hr as (s1 & H1 & H2). eapply IH; [| |exact H2].
    + eapply Hf; [exact Hs | apply elem_of_cons; by left | exact H1].
    + intros s0 b s2 Hs0 Hb. apply Hf; [done | apply elem_of_cons; by right].
Qed.

(** ** Lists *)

Lemma filter_ext_in {A} (P Q : A → Prop) `{∀ x, Decision (P x), ∀ x, Decision (Q x)} (l : list A) :
  (∀ x, x ∈ l → P x ↔ Q x) → filter P l = filter Q l.
Proof.
  induction l as [|x l IH]; [done|]. intros Hl. rewrite !filter_cons.
  assert (P x ↔ Q x) as HPQ by (apply Hl; by left).
  rewrite IH by (intros y Hy; apply Hl; by right).
  destruct (decide (P x)), (decide (Q x)); tauto.
Qed.

Lemma filter_none {A} (P : A → Prop) `{∀ x, Decision (P x)} (l : list A) :
  (∀ x, x ∈ l → ¬ P x) → filter P l = [].
Proof.
  induction l as [|x l IH]; intros Hl; [done|]. rewrite filter_cons_False by (apply Hl; by left).
  apply IH. intros y Hy. apply Hl. by right.
Qed.

Lemma filter_all {A} (P : A → Prop) `{∀ x, Decision (P x)} (l : list A) :
  (∀ x, x ∈ l → P x) → filter P l = l.
Proof.
  induction l as [|x l IH]; intros Hl; [done|]. rewrite filter_cons_True by (apply Hl; by left).
  f_equal. apply IH. intros y Hy. apply Hl. by right.
Qed.

Lemma filter_sorted {A} (R : A → A → Prop) (P : A → Prop) `{∀ x, Decision (P x)} (l : list A) :
  StronglySorted R l → StronglySorted R (filter P l).
Proof.
  induction 1 as [|x l Hl IH Hx]; [constructor|]. rewrite filter_cons. destruct (decide (P x)); [|done].
  constructor; [done|]. rewrite Forall_forall in *. intros y [_ Hy]%list_elem_of_filter. by apply Hx.
Qed.

Lemma filter_fmap {A B} (f : A → B) (P : B → Prop) `{∀ x, Decision (P x)} (l : list A) :
  filter P (f <$> l) = f <$> filter (λ x, P (f x)) l.
Proof. induction l as [|x l IH]; [done|]. rewrite fmap_cons, !filter_cons, IH. by destruct (decide (P (f x))). Qed.

Lemma filter_comm {A} (P Q : A → Prop) `{∀ x, Decision (P x), ∀ x, Decision (Q x)} (l : list A) :
  filter P (filter Q l) = filter Q (filter P l).
Proof.
  induction l as [|x l IH]; [done|]. rewrite !filter_cons.
  destruct (decide (P x)) eqn:EP, (decide (Q x)) eqn:EQ; rewrite ?filter_cons, ?EP, ?EQ, ?IH; done.
Qed.

(** The first element that satisfies a predicate *)
Lemma head_filter_Some {A} (P : A → Prop) `{∀ x, Decision (P x)} (l : list A) x :
  head (filter P l) = Some x → x ∈ l ∧ P x.
Proof.
  intros Hx. assert (x ∈ filter P l) as [? ?]%list_elem_of_filter; [|done].
  destruct (filter P l); [done|]. injection Hx as ->. by left.
Qed.

Lemma head_filter_None {A} (P : A → Prop) `{∀ x, Decision (P x)} (l : list A) :
  head (filter P l) = None → ∀ x, x ∈ l → ¬ P x.
Proof.
  intros Hnone x Hx HP. assert (x ∈ filter P l) as Hin by (by apply list_elem_of_filter).
  destruct (filter P l); [by apply elem_of_nil in Hin|done].
Qed.

(** ** Fixed-width integers

    A [w]-bit unsigned integer is a [Z] in [[0, 2^w)]; the conversion to it wraps. *)

Local Open Scope Z_scope.

Definition u8 (z : Z) : Z := z mod 2 ^ 8.
Definition u16 (z : Z) : Z := z mod 2 ^ 16.
Definition u32 (z : Z) : Z := z mod 2 ^ 32.
Definition u64 (z : Z) : Z := z mod 2 ^ 64.
Definition u128 (z : Z) : Z := z mod 2 ^ 128.
(** Two's complement [int64_t]. *)
Definition s64 (z : Z) : Z := (z + 2 ^ 63) mod 2 ^ 64 - 2 ^ 63.

Definition UINT32_MAX : Z := 2 ^ 32 - 1.
Definition UINT64_MAX : Z := 2 ^ 64 - 1.
Definition INT64_MAX : Z := 2 ^ 63 - 1.

Lemma u8_id z : 0 ≤ z < 2 ^ 8 → u8 z = z.
Proof. apply Z.mod_small. Qed.
Lemma u16_id z : 0 ≤ z < 2 ^ 16 → u16 z = z.
Proof. apply Z.mod_small. Qed.
Lemma u32_id z : 0 ≤ z < 2 ^ 32 → u32 z = z.
Proof. apply Z.mod_small. Qed.
Lemma u64_id z : 0 ≤ z < 2 ^ 64 → u64 z = z.
Proof. apply Z.mod_small. Qed.
Lemma u128_id z : 0 ≤ z < 2 ^ 128 → u128 z = z.
Proof. apply Z.mod_small. Qed.
Lemma s64_id z : - 2 ^ 63 ≤ z < 2 ^ 63 → s64 z = z.
Proof. unfold s64. intros. rewrite Z.mod_small; lia. Qed.

Lemma u8_range z : 0 ≤ u8 z < 2 ^ 8.
Proof. by apply Z.mod_pos_bound. Qed.
Lemma u16_range z : 0 ≤ u16 z < 2 ^ 16.
Proof. by apply Z.mod_pos_bound. Qed.
Lemma u32_range z : 0 ≤ u32 z < 2 ^ 32.
Proof. by apply Z.mod_pos_bound. Qed.
Lemma u64_range z : 0 ≤ u64 z < 2 ^ 64.
Proof. by apply Z.mod_pos_bound. Qed.
Lemma u128_range z : 0 ≤ u128 z < 2 ^ 128.
Proof. by apply Z.mod_pos_bound. Qed.
Lemma s64_range z : - 2 ^ 63 ≤ s64 z < 2 ^ 63.
Proof. unfold s64. pose proof (Z.mod_pos_bound (z + 2 ^ 63) (2 ^ 64)). lia. Qed.

Create HintDb width.
#[export] Hint Resolve u8_range u16_range u32_range u64_range u128_range s64_range : width.

(** Remove conversions whose argument is in range. *)
Ltac width_simpl :=
  repeat first
    [ rewrite u8_id in * by lia | rewrite u16_id in * by lia | rewrite u32_id in * by lia
    | rewrite u64_id in * by lia | rewrite u128_id in * by lia | rewrite s64_id in * by lia ].

Lemma lor_range a b w : 0 ≤ w → 0 ≤ a < 2 ^ w → 0 ≤ b < 2 ^ w → 0 ≤ Z.lor a b < 2 ^ w.
Proof.
  intros Hw Ha Hb.
  assert (Z.lor a b = Z.lor a b mod 2 ^ w) as ->.
  { rewrite <-Z.land_ones, Z.land_lor_distr_l, !Z.land_ones, !Z.mod_small by lia. done. }
  apply Z.mod_pos_bound, Z.pow_pos_nonneg; lia.
Qed.

(** Or-ing a value above the bits of another is addition. *)
Lemma lor_shiftl_add r a k : 0 ≤ k → 0 ≤ r < 2 ^ k → Z.lor r (Z.shiftl a k) = r + a * 2 ^ k.
Proof.
  intros Hk Hr. rewrite <-Z.shiftl_mul_pow2 by done.
  rewrite <-(Z.add_lor_land r (Z.shiftl a k)). replace (Z.land r (Z.shiftl a k)) with 0; [lia|].
  destruct (decide (r = 0)) as [->|Hr0]; [done|].
  symmetry. apply Z.bits_inj'. intros n Hn. rewrite Z.land_spec, Z.bits_0.
  destruct (decide (n < k)).
  - by rewrite Z.shiftl_spec_low, andb_false_r.
  - rewrite (Z.bits_above_log2 r n), andb_false_l; [done|lia|].
    apply Z.log2_lt_pow2; [lia|].
    apply Z.lt_le_trans with (2 ^ k); [lia|]. apply Z.pow_le_mono_r; lia.
Qed.
