(* ===== verification/Exceptions.v ===== *)
(** * Exceptions of the chain library

    Models [libraries/chain/include/eosio/chain/exceptions.hpp]: the class tree
    that [FC_DECLARE_DERIVED_EXCEPTION] declares (a constructor per class, its
    base class and its numeric code), the test a [catch] clause makes, and the
    rethrow macro [EOS_RETHROW_EXCEPTIONS].  The last three constructors stand
    for exceptions of other libraries that the modelled code lets through:
    [fc::overflow_exception], the exception of [FC_ASSERT], and the
    [std::exception]s that [chainbase] raises (lookup of a missing object,
    violation of a unique index).

    Theorem: a numeric code identifies its class, with one exception. *)

From S2P Require Import Prelude.
Local Open Scope Z_scope.

(** The exception classes, in the order of the header. *)
Inductive exn : Set :=
  | chain_exception | chain_type_exception | name_type_exception
  | public_key_type_exception | private_key_type_exception | authority_type_exception
  | action_type_exception | transaction_type_exception | abi_type_exception
  | block_id_type_exception | transaction_id_type_exception
  | packed_transaction_type_exception | asset_type_exception | chain_id_type_exception
  | fixed_key_type_exception | symbol_type_exception | config_type_exception
  | unactivated_key_type | unactivated_signature_type | fork_database_exception
  | fork_db_block_not_found | block_validate_exception | unlinkable_block_exception
  | block_tx_output_exception | block_concurrency_exception | block_lock_exception
  | block_resource_exhausted | block_too_old_exception | block_from_the_future
  | wrong_signing_key | wrong_producer | invalid_block_header_extension
  | ill_formed_protocol_feature_activation | invalid_block_extension
  | ill_formed_additional_block_signatures_extension | transaction_exception
  | tx_decompression_error | tx_no_action | tx_no_auths | cfa_irrelevant_auth
  | expired_tx_exception | tx_exp_too_far_exception | invalid_ref_block_exception
  | tx_duplicate | deferred_tx_duplicate | cfa_inside_generated_tx | tx_not_found
  | too_many_tx_at_once | tx_too_big | unknown_transaction_compression
  | invalid_transaction_extension | ill_formed_deferred_transaction_generation_context
  | disallowed_transaction_extensions_bad_block_exception | tx_too_much
  | tx_resource_exhaustion | action_validate_exception | account_name_exists_exception
  | invalid_action_args_exception | eosio_assert_message_exception
  | eosio_assert_code_exception | action_not_found_exception
  | action_data_and_struct_mismatch | unaccessible_api | abort_called
  | inline_action_too_big | unauthorized_ram_usage_increase
  | restricted_error_code_exception | database_exception | permission_query_exception
  | account_query_exception | contract_table_query_exception | contract_query_exception
  | bad_database_version_exception | guard_exception | database_guard_exception
  | reversible_guard_exception | wasm_exception | page_memory_error
  | wasm_execution_error | wasm_serialization_error | overlapping_memory_error
  | binaryen_exception | resource_exhausted_exception | ram_usage_exceeded
  | tx_net_usage_exceeded | block_net_usage_exceeded | tx_cpu_usage_exceeded
  | block_cpu_usage_exceeded | deadline_exception | greylist_net_usage_exceeded
  | greylist_cpu_usage_exceeded | leeway_deadline_exception | authorization_exception
  | tx_duplicate_sig | tx_irrelevant_sig | unsatisfied_authorization
  | missing_auth_exception | irrelevant_auth_exception | insufficient_delay_exception
  | invalid_permission | unlinkable_min_permission_action | invalid_parent_permission
  | misc_exception | rate_limiting_state_inconsistent | unknown_block_exception
  | unknown_transaction_exception | fixed_reversible_db_exception
  | extract_genesis_state_exception | subjective_block_production_exception
  | multiple_voter_info | unsupported_feature | node_management_success
  | json_parse_exception | sig_variable_size_limit_exception | plugin_exception
  | missing_chain_api_plugin_exception | missing_wallet_api_plugin_exception
  | missing_history_api_plugin_exception | missing_net_api_plugin_exception
  | missing_chain_plugin_exception | plugin_config_exception | wallet_exception
  | wallet_exist_exception | wallet_nonexistent_exception | wallet_locked_exception
  | wallet_missing_pub_key_exception | wallet_invalid_password_exception
  | wallet_not_available_exception | wallet_unlocked_exception | key_exist_exception
  | key_nonexistent_exception | unsupported_key_type_exception
  | invalid_lock_timeout_exception | secure_enclave_exception
  | whitelist_blacklist_exception | actor_whitelist_exception
  | actor_blacklist_exception | contract_whitelist_exception
  | contract_blacklist_exception | action_blacklist_exception | key_blacklist_exception
  | controller_emit_signal_exception | checkpoint_exception | abi_exception
  | abi_not_found_exception | invalid_ricardian_clause_exception
  | invalid_ricardian_action_exception | invalid_type_inside_abi
  | duplicate_abi_type_def_exception | duplicate_abi_struct_def_exception
  | duplicate_abi_action_def_exception | duplicate_abi_table_def_exception
  | duplicate_abi_err_msg_def_exception | abi_serialization_deadline_exception
  | abi_recursion_depth_exception | abi_circular_def_exception | unpack_exception
  | pack_exception | duplicate_abi_variant_def_exception
  | unsupported_abi_version_exception | contract_exception | invalid_table_payer
  | table_access_violation | invalid_table_iterator | table_not_in_cache
  | table_operation_not_permitted | invalid_contract_vm_type
  | invalid_contract_vm_version | set_exact_code | wasm_file_not_found
  | abi_file_not_found | producer_exception | producer_priv_key_not_found
  | missing_pending_block_state | producer_double_confirm | producer_schedule_exception
  | producer_not_in_schedule | snapshot_directory_not_found_exception
  | snapshot_exists_exception | snapshot_finalization_exception
  | invalid_protocol_features_to_activate | no_block_signatures
  | unsupported_multiple_block_signatures | reversible_blocks_exception
  | invalid_reversible_blocks_dir | reversible_blocks_backup_dir_exist
  | gap_in_reversible_blocks_db | block_log_exception | block_log_unsupported_version
  | block_log_append_fail | block_log_not_found | block_log_backup_dir_exist
  | block_index_not_found | http_exception | invalid_http_client_root_cert
  | invalid_http_response | resolved_to_multiple_ports | fail_to_resolve_host
  | http_request_fail | invalid_http_request | resource_limit_exception
  | mongo_db_exception | mongo_db_insert_fail | mongo_db_update_fail
  | contract_api_exception | crypto_api_exception | db_api_exception
  | arithmetic_exception | snapshot_exception | snapshot_validation_exception
  | protocol_feature_exception | protocol_feature_validation_exception
  | protocol_feature_bad_block_exception | protocol_feature_iterator_exception
  | fc_overflow_exception | fc_assert_exception | std_exception.

(** The base class; [None] for the roots ([fc::exception], [std::exception]). *)
Definition base (e : exn) : option exn :=
  match e with
  | chain_exception => None
  | chain_type_exception | fork_database_exception | block_validate_exception
  | transaction_exception | action_validate_exception | database_exception
  | wasm_exception | resource_exhausted_exception | authorization_exception
  | misc_exception | plugin_exception | wallet_exception
  | whitelist_blacklist_exception | controller_emit_signal_exception | abi_exception
  | contract_exception | producer_exception | reversible_blocks_exception
  | block_log_exception | http_exception | resource_limit_exception
  | mongo_db_exception | contract_api_exception | snapshot_exception
  | protocol_feature_exception => Some chain_exception
  | name_type_exception | public_key_type_exception | private_key_type_exception
  | authority_type_exception | action_type_exception | transaction_type_exception
  | abi_type_exception | block_id_type_exception | transaction_id_type_exception
  | packed_transaction_type_exception | asset_type_exception | chain_id_type_exception
  | fixed_key_type_exception | symbol_type_exception | config_type_exception
  | unactivated_key_type | unactivated_signature_type => Some chain_type_exception
  | fork_db_block_not_found => Some fork_database_exception
  | unlinkable_block_exception | block_tx_output_exception
  | block_concurrency_exception | block_lock_exception | block_resource_exhausted
  | block_too_old_exception | block_from_the_future | wrong_signing_key
  | wrong_producer | invalid_block_header_extension
  | ill_formed_protocol_feature_activation | invalid_block_extension
  | ill_formed_additional_block_signatures_extension => Some block_validate_exception
  | tx_decompression_error | tx_no_action | tx_no_auths | cfa_irrelevant_auth
  | expired_tx_exception | tx_exp_too_far_exception | invalid_ref_block_exception
  | tx_duplicate | deferred_tx_duplicate | cfa_inside_generated_tx | tx_not_found
  | too_many_tx_at_once | tx_too_big | unknown_transaction_compression
  | invalid_transaction_extension | ill_formed_deferred_transaction_generation_context
  | disallowed_transaction_extensions_bad_block_exception | tx_too_much
  | tx_resource_exhaustion => Some transaction_exception
  | account_name_exists_exception | invalid_action_args_exception
  | eosio_assert_message_exception | eosio_assert_code_exception
  | action_not_found_exception | action_data_and_struct_mismatch | unaccessible_api
  | abort_called | inline_action_too_big | unauthorized_ram_usage_increase
  | restricted_error_code_exception => Some action_validate_exception
  | permission_query_exception | account_query_exception
  | contract_table_query_exception | contract_query_exception
  | bad_database_version_exception | guard_exception => Some database_exception
  | database_guard_exception | reversible_guard_exception => Some guard_exception
  | page_memory_error | wasm_execution_error | wasm_serialization_error
  | overlapping_memory_error | binaryen_exception => Some wasm_exception
  | ram_usage_exceeded | tx_net_usage_exceeded | block_net_usage_exceeded
  | tx_cpu_usage_exceeded | block_cpu_usage_exceeded | deadline_exception
  | greylist_net_usage_exceeded | greylist_cpu_usage_exceeded => Some resource_exhausted_exception
  | leeway_deadline_exception => Some deadline_exception
  | tx_duplicate_sig | tx_irrelevant_sig | unsatisfied_authorization
  | missing_auth_exception | irrelevant_auth_exception | insufficient_delay_exception
  | invalid_permission | unlinkable_min_permission_action | invalid_parent_permission => Some authorization_exception
  | rate_limiting_state_inconsistent | unknown_block_exception
  | unknown_transaction_exception | fixed_reversible_db_exception
  | extract_genesis_state_exception | subjective_block_production_exception
  | multiple_voter_info | unsupported_feature | node_management_success
  | json_parse_exception | sig_variable_size_limit_exception => Some misc_exception
  | missing_chain_api_plugin_exception | missing_wallet_api_plugin_exception
  | missing_history_api_plugin_exception | missing_net_api_plugin_exception
  | missing_chain_plugin_exception | plugin_config_exception => Some plugin_exception
  | wallet_exist_exception | wallet_nonexistent_exception | wallet_locked_exception
  | wallet_missing_pub_key_exception | wallet_invalid_password_exception
  | wallet_not_available_exception | wallet_unlocked_exception | key_exist_exception
  | key_nonexistent_exception | unsupported_key_type_exception
  | invalid_lock_timeout_exception | secure_enclave_exception => Some wallet_exception
  | actor_whitelist_exception | actor_blacklist_exception
  | contract_whitelist_exception | contract_blacklist_exception
  | action_blacklist_exception | key_blacklist_exception => Some whitelist_blacklist_exception
  | checkpoint_exception => Some controller_emit_signal_exception
  | abi_not_found_exception | invalid_ricardian_clause_exception
  | invalid_ricardian_action_exception | invalid_type_inside_abi
  | duplicate_abi_type_def_exception | duplicate_abi_struct_def_exception
  | duplicate_abi_action_def_exception | duplicate_abi_table_def_exception
  | duplicate_abi_err_msg_def_exception | abi_serialization_deadline_exception
  | abi_recursion_depth_exception | abi_circular_def_exception | unpack_exception
  | pack_exception | duplicate_abi_variant_def_exception
  | unsupported_abi_version_exception => Some abi_exception
  | invalid_table_payer | table_access_violation | invalid_table_iterator
  | table_not_in_cache | table_operation_not_permitted | invalid_contract_vm_type
  | invalid_contract_vm_version | set_exact_code | wasm_file_not_found
  | abi_file_not_found => Some contract_exception
  | producer_priv_key_not_found | missing_pending_block_state | producer_double_confirm
  | producer_schedule_exception | producer_not_in_schedule
  | snapshot_directory_not_found_exception | snapshot_exists_exception
  | snapshot_finalization_exception | invalid_protocol_features_to_activate
  | no_block_signatures | unsupported_multiple_block_signatures => Some producer_exception
  | invalid_reversible_blocks_dir | reversible_blocks_backup_dir_exist
  | gap_in_reversible_blocks_db => Some reversible_blocks_exception
  | block_log_unsupported_version | block_log_append_fail | block_log_not_found
  | block_log_backup_dir_exist | block_index_not_found => Some block_log_exception
  | invalid_http_client_root_cert | invalid_http_response | resolved_to_multiple_ports
  | fail_to_resolve_host | http_request_fail | invalid_http_request => Some http_exception
  | mongo_db_insert_fail | mongo_db_update_fail => Some mongo_db_exception
  | crypto_api_exception | db_api_exception | arithmetic_exception => Some contract_api_exception
  | snapshot_validation_exception => Some snapshot_exception
  | protocol_feature_validation_exception | protocol_feature_bad_block_exception
  | protocol_feature_iterator_exception => Some protocol_feature_exception
  | fc_overflow_exception | fc_assert_exception | std_exception => None
  end.

(** [code_value] of the class. *)
Definition code (e : exn) : option Z :=
  match e with
  | chain_exception => Some 3000000 | chain_type_exception => Some 3010000
  | name_type_exception => Some 3010001 | public_key_type_exception => Some 3010002
  | private_key_type_exception => Some 3010003
  | authority_type_exception => Some 3010004 | action_type_exception => Some 3010005
  | transaction_type_exception => Some 3010006 | abi_type_exception => Some 3010007
  | block_id_type_exception => Some 3010008
  | transaction_id_type_exception => Some 3010009
  | packed_transaction_type_exception => Some 3010010
  | asset_type_exception => Some 3010011 | chain_id_type_exception => Some 3010012
  | fixed_key_type_exception => Some 3010013 | symbol_type_exception => Some 3010014
  | config_type_exception => Some 3015015 | unactivated_key_type => Some 3010015
  | unactivated_signature_type => Some 3010016
  | fork_database_exception => Some 3020000 | fork_db_block_not_found => Some 3020001
  | block_validate_exception => Some 3030000
  | unlinkable_block_exception => Some 3030001
  | block_tx_output_exception => Some 3030002
  | block_concurrency_exception => Some 3030003 | block_lock_exception => Some 3030004
  | block_resource_exhausted => Some 3030005 | block_too_old_exception => Some 3030006
  | block_from_the_future => Some 3030007 | wrong_signing_key => Some 3030008
  | wrong_producer => Some 3030009 | invalid_block_header_extension => Some 3030010
  | ill_formed_protocol_feature_activation => Some 3030011
  | invalid_block_extension => Some 3030012
  | ill_formed_additional_block_signatures_extension => Some 3030013
  | transaction_exception => Some 3040000 | tx_decompression_error => Some 3040001
  | tx_no_action => Some 3040002 | tx_no_auths => Some 3040003
  | cfa_irrelevant_auth => Some 3040004 | expired_tx_exception => Some 3040005
  | tx_exp_too_far_exception => Some 3040006
  | invalid_ref_block_exception => Some 3040007 | tx_duplicate => Some 3040008
  | deferred_tx_duplicate => Some 3040009 | cfa_inside_generated_tx => Some 3040010
  | tx_not_found => Some 3040011 | too_many_tx_at_once => Some 3040012
  | tx_too_big => Some 3040013 | unknown_transaction_compression => Some 3040014
  | invalid_transaction_extension => Some 3040015
  | ill_formed_deferred_transaction_generation_context => Some 3040016
  | disallowed_transaction_extensions_bad_block_exception => Some 3040017
  | tx_too_much => Some 3040100 | tx_resource_exhaustion => Some 3040018
  | action_validate_exception => Some 3050000
  | account_name_exists_exception => Some 3050001
  | invalid_action_args_exception => Some 3050002
  | eosio_assert_message_exception => Some 3050003
  | eosio_assert_code_exception => Some 3050004
  | action_not_found_exception => Some 3050005
  | action_data_and_struct_mismatch => Some 3050006 | unaccessible_api => Some 3050007
  | abort_called => Some 3050008 | inline_action_too_big => Some 3050009
  | unauthorized_ram_usage_increase => Some 3050010
  | restricted_error_code_exception => Some 3050011
  | database_exception => Some 3060000 | permission_query_exception => Some 3060001
  | account_query_exception => Some 3060002
  | contract_table_query_exception => Some 3060003
  | contract_query_exception => Some 3060004
  | bad_database_version_exception => Some 3060005 | guard_exception => Some 3060100
  | database_guard_exception => Some 3060101
  | reversible_guard_exception => Some 3060102 | wasm_exception => Some 3070000
  | page_memory_error => Some 3070001 | wasm_execution_error => Some 3070002
  | wasm_serialization_error => Some 3070003 | overlapping_memory_error => Some 3070004
  | binaryen_exception => Some 3070005 | resource_exhausted_exception => Some 3080000
  | ram_usage_exceeded => Some 3080001 | tx_net_usage_exceeded => Some 3080002
  | block_net_usage_exceeded => Some 3080003 | tx_cpu_usage_exceeded => Some 3080004
  | block_cpu_usage_exceeded => Some 3080005 | deadline_exception => Some 3080006
  | greylist_net_usage_exceeded => Some 3080007
  | greylist_cpu_usage_exceeded => Some 3080008
  | leeway_deadline_exception => Some 3081001 | authorization_exception => Some 3090000
  | tx_duplicate_sig => Some 3090001 | tx_irrelevant_sig => Some 3090002
  | unsatisfied_authorization => Some 3090003 | missing_auth_exception => Some 3090004
  | irrelevant_auth_exception => Some 3090005
  | insufficient_delay_exception => Some 3090006 | invalid_permission => Some 3090007
  | unlinkable_min_permission_action => Some 3090008
  | invalid_parent_permission => Some 3090009 | misc_exception => Some 3100000
  | rate_limiting_state_inconsistent => Some 3100001
  | unknown_block_exception => Some 3100002
  | unknown_transaction_exception => Some 3100003
  | fixed_reversible_db_exception => Some 3100004
  | extract_genesis_state_exception => Some 3100005
  | subjective_block_production_exception => Some 3100006
  | multiple_voter_info => Some 3100007 | unsupported_feature => Some 3100008
  | node_management_success => Some 3100009 | json_parse_exception => Some 3100010
  | sig_variable_size_limit_exception => Some 3100011
  | plugin_exception => Some 3110000
  | missing_chain_api_plugin_exception => Some 3110001
  | missing_wallet_api_plugin_exception => Some 3110002
  | missing_history_api_plugin_exception => Some 3110003
  | missing_net_api_plugin_exception => Some 3110004
  | missing_chain_plugin_exception => Some 3110005
  | plugin_config_exception => Some 3110006 | wallet_exception => Some 3120000
  | wallet_exist_exception => Some 3120001
  | wallet_nonexistent_exception => Some 3120002
  | wallet_locked_exception => Some 3120003
  | wallet_missing_pub_key_exception => Some 3120004
  | wallet_invalid_password_exception => Some 3120005
  | wallet_not_available_exception => Some 3120006
  | wallet_unlocked_exception => Some 3120007 | key_exist_exception => Some 3120008
  | key_nonexistent_exception => Some 3120009
  | unsupported_key_type_exception => Some 3120010
  | invalid_lock_timeout_exception => Some 3120011
  | secure_enclave_exception => Some 3120012
  | whitelist_blacklist_exception => Some 3130000
  | actor_whitelist_exception => Some 3130001
  | actor_blacklist_exception => Some 3130002
  | contract_whitelist_exception => Some 3130003
  | contract_blacklist_exception => Some 3130004
  | action_blacklist_exception => Some 3130005
  | key_blacklist_exception => Some 3130006
  | controller_emit_signal_exception => Some 3140000
  | checkpoint_exception => Some 3140001 | abi_exception => Some 3015000
  | abi_not_found_exception => Some 3015001
  | invalid_ricardian_clause_exception => Some 3015002
  | invalid_ricardian_action_exception => Some 3015003
  | invalid_type_inside_abi => Some 3015004
  | duplicate_abi_type_def_exception => Some 3015005
  | duplicate_abi_struct_def_exception => Some 3015006
  | duplicate_abi_action_def_exception => Some 3015007
  | duplicate_abi_table_def_exception => Some 3015008
  | duplicate_abi_err_msg_def_exception => Some 3015009
  | abi_serialization_deadline_exception => Some 3015010
  | abi_recursion_depth_exception => Some 3015011
  | abi_circular_def_exception => Some 3015012 | unpack_exception => Some 3015013
  | pack_exception => Some 3015014
  | duplicate_abi_variant_def_exception => Some 3015015
  | unsupported_abi_version_exception => Some 3015016
  | contract_exception => Some 3160000 | invalid_table_payer => Some 3160001
  | table_access_violation => Some 3160002 | invalid_table_iterator => Some 3160003
  | table_not_in_cache => Some 3160004 | table_operation_not_permitted => Some 3160005
  | invalid_contract_vm_type => Some 3160006
  | invalid_contract_vm_version => Some 3160007 | set_exact_code => Some 3160008
  | wasm_file_not_found => Some 3160009 | abi_file_not_found => Some 3160010
  | producer_exception => Some 3170000 | producer_priv_key_not_found => Some 3170001
  | missing_pending_block_state => Some 3170002
  | producer_double_confirm => Some 3170003
  | producer_schedule_exception => Some 3170004
  | producer_not_in_schedule => Some 3170006
  | snapshot_directory_not_found_exception => Some 3170007
  | snapshot_exists_exception => Some 3170008
  | snapshot_finalization_exception => Some 3170009
  | invalid_protocol_features_to_activate => Some 3170010
  | no_block_signatures => Some 3170011
  | unsupported_multiple_block_signatures => Some 3170012
  | reversible_blocks_exception => Some 3180000
  | invalid_reversible_blocks_dir => Some 3180001
  | reversible_blocks_backup_dir_exist => Some 3180002
  | gap_in_reversible_blocks_db => Some 3180003 | block_log_exception => Some 3190000
  | block_log_unsupported_version => Some 3190001
  | block_log_append_fail => Some 3190002 | block_log_not_found => Some 3190003
  | block_log_backup_dir_exist => Some 3190004 | block_index_not_found => Some 3190005
  | http_exception => Some 3200000 | invalid_http_client_root_cert => Some 3200001
  | invalid_http_response => Some 3200002 | resolved_to_multiple_ports => Some 3200003
  | fail_to_resolve_host => Some 3200004 | http_request_fail => Some 3200005
  | invalid_http_request => Some 3200006 | resource_limit_exception => Some 3210000
  | mongo_db_exception => Some 3220000 | mongo_db_insert_fail => Some 3220001
  | mongo_db_update_fail => Some 3220002 | contract_api_exception => Some 3230000
  | crypto_api_exception => Some 3230001 | db_api_exception => Some 3230002
  | arithmetic_exception => Some 3230003 | snapshot_exception => Some 3240000
  | snapshot_validation_exception => Some 3240001
  | protocol_feature_exception => Some 3250000
  | protocol_feature_validation_exception => Some 3250001
  | protocol_feature_bad_block_exception => Some 3250002
  | protocol_feature_iterator_exception => Some 3250003
  | fc_overflow_exception | fc_assert_exception | std_exception => None
  end.

(** Every class, each at the position [exn_tag] gives it. *)
Definition all_exns : list exn := [
  chain_exception; chain_type_exception; name_type_exception;
  public_key_type_exception; private_key_type_exception; authority_type_exception;
  action_type_exception; transaction_type_exception; abi_type_exception;
  block_id_type_exception; transaction_id_type_exception;
  packed_transaction_type_exception; asset_type_exception; chain_id_type_exception;
  fixed_key_type_exception; symbol_type_exception; config_type_exception;
  unactivated_key_type; unactivated_signature_type; fork_database_exception;
  fork_db_block_not_found; block_validate_exception; unlinkable_block_exception;
  block_tx_output_exception; block_concurrency_exception; block_lock_exception;
  block_resource_exhausted; block_too_old_exception; block_from_the_future;
  wrong_signing_key; wrong_producer; invalid_block_header_extension;
  ill_formed_protocol_feature_activation; invalid_block_extension;
  ill_formed_additional_block_signatures_extension; transaction_exception;
  tx_decompression_error; tx_no_action; tx_no_auths; cfa_irrelevant_auth;
  expired_tx_exception; tx_exp_too_far_exception; invalid_ref_block_exception;
  tx_duplicate; deferred_tx_duplicate; cfa_inside_generated_tx; tx_not_found;
  too_many_tx_at_once; tx_too_big; unknown_transaction_compression;
  invalid_transaction_extension; ill_formed_deferred_transaction_generation_context;
  disallowed_transaction_extensions_bad_block_exception; tx_too_much;
  tx_resource_exhaustion; action_validate_exception; account_name_exists_exception;
  invalid_action_args_exception; eosio_assert_message_exception;
  eosio_assert_code_exception; action_not_found_exception;
  action_data_and_struct_mismatch; unaccessible_api; abort_called;
  inline_action_too_big; unauthorized_ram_usage_increase;
  restricted_error_code_exception; database_exception; permission_query_exception;
  account_query_exception; contract_table_query_exception; contract_query_exception;
  bad_database_version_exception; guard_exception; database_guard_exception;
  reversible_guard_exception; wasm_exception; page_memory_error; wasm_execution_error;
  wasm_serialization_error; overlapping_memory_error; binaryen_exception;
  resource_exhausted_exception; ram_usage_exceeded; tx_net_usage_exceeded;
  block_net_usage_exceeded; tx_cpu_usage_exceeded; block_cpu_usage_exceeded;
  deadline_exception; greylist_net_usage_exceeded; greylist_cpu_usage_exceeded;
  leeway_deadline_exception; authorization_exception; tx_duplicate_sig;
  tx_irrelevant_sig; unsatisfied_authorization; missing_auth_exception;
  irrelevant_auth_exception; insufficient_delay_exception; invalid_permission;
  unlinkable_min_permission_action; invalid_parent_permission; misc_exception;
  rate_limiting_state_inconsistent; unknown_block_exception;
  unknown_transaction_exception; fixed_reversible_db_exception;
  extract_genesis_state_exception; subjective_block_production_exception;
  multiple_voter_info; unsupported_feature; node_management_success;
  json_parse_exception; sig_variable_size_limit_exception; plugin_exception;
  missing_chain_api_plugin_exception; missing_wallet_api_plugin_exception;
  missing_history_api_plugin_exception; missing_net_api_plugin_exception;
  missing_chain_plugin_exception; plugin_config_exception; wallet_exception;
  wallet_exist_exception; wallet_nonexistent_exception; wallet_locked_exception;
  wallet_missing_pub_key_exception; wallet_invalid_password_exception;
  wallet_not_available_exception; wallet_unlocked_exception; key_exist_exception;
  key_nonexistent_exception; unsupported_key_type_exception;
  invalid_lock_timeout_exception; secure_enclave_exception;
  whitelist_blacklist_exception; actor_whitelist_exception; actor_blacklist_exception;
  contract_whitelist_exception; contract_blacklist_exception;
  action_blacklist_exception; key_blacklist_exception;
  controller_emit_signal_exception; checkpoint_exception; abi_exception;
  abi_not_found_exception; invalid_ricardian_clause_exception;
  invalid_ricardian_action_exception; invalid_type_inside_abi;
  duplicate_abi_type_def_exception; duplicate_abi_struct_def_exception;
  duplicate_abi_action_def_exception; duplicate_abi_table_def_exception;
  duplicate_abi_err_msg_def_exception; abi_serialization_deadline_exception;
  abi_recursion_depth_exception; abi_circular_def_exception; unpack_exception;
  pack_exception; duplicate_abi_variant_def_exception;
  unsupported_abi_version_exception; contract_exception; invalid_table_payer;
  table_access_violation; invalid_table_iterator; table_not_in_cache;
  table_operation_not_permitted; invalid_contract_vm_type; invalid_contract_vm_version;
  set_exact_code; wasm_file_not_found; abi_file_not_found; producer_exception;
  producer_priv_key_not_found; missing_pending_block_state; producer_double_confirm;
  producer_schedule_exception; producer_not_in_schedule;
  snapshot_directory_not_found_exception; snapshot_exists_exception;
  snapshot_finalization_exception; invalid_protocol_features_to_activate;
  no_block_signatures; unsupported_multiple_block_signatures;
  reversible_blocks_exception; invalid_reversible_blocks_dir;
  reversible_blocks_backup_dir_exist; gap_in_reversible_blocks_db; block_log_exception;
  block_log_unsupported_version; block_log_append_fail; block_log_not_found;
  block_log_backup_dir_exist; block_index_not_found; http_exception;
  invalid_http_client_root_cert; invalid_http_response; resolved_to_multiple_ports;
  fail_to_resolve_host; http_request_fail; invalid_http_request;
  resource_limit_exception; mongo_db_exception; mongo_db_insert_fail;
  mongo_db_update_fail; contract_api_exception; crypto_api_exception; db_api_exception;
  arithmetic_exception; snapshot_exception; snapshot_validation_exception;
  protocol_feature_exception; protocol_feature_validation_exception;
  protocol_feature_bad_block_exception; protocol_feature_iterator_exception;
  fc_overflow_exception; fc_assert_exception; std_exception].

Definition exn_tag (e : exn) : nat :=
  match e with
  | chain_exception => 0 | chain_type_exception => 1 | name_type_exception => 2
  | public_key_type_exception => 3 | private_key_type_exception => 4
  | authority_type_exception => 5 | action_type_exception => 6
  | transaction_type_exception => 7 | abi_type_exception => 8
  | block_id_type_exception => 9 | transaction_id_type_exception => 10
  | packed_transaction_type_exception => 11 | asset_type_exception => 12
  | chain_id_type_exception => 13 | fixed_key_type_exception => 14
  | symbol_type_exception => 15 | config_type_exception => 16
  | unactivated_key_type => 17 | unactivated_signature_type => 18
  | fork_database_exception => 19 | fork_db_block_not_found => 20
  | block_validate_exception => 21 | unlinkable_block_exception => 22
  | block_tx_output_exception => 23 | block_concurrency_exception => 24
  | block_lock_exception => 25 | block_resource_exhausted => 26
  | block_too_old_exception => 27 | block_from_the_future => 28
  | wrong_signing_key => 29 | wrong_producer => 30
  | invalid_block_header_extension => 31 | ill_formed_protocol_feature_activation => 32
  | invalid_block_extension => 33
  | ill_formed_additional_block_signatures_extension => 34
  | transaction_exception => 35 | tx_decompression_error => 36 | tx_no_action => 37
  | tx_no_auths => 38 | cfa_irrelevant_auth => 39 | expired_tx_exception => 40
  | tx_exp_too_far_exception => 41 | invalid_ref_block_exception => 42
  | tx_duplicate => 43 | deferred_tx_duplicate => 44 | cfa_inside_generated_tx => 45
  | tx_not_found => 46 | too_many_tx_at_once => 47 | tx_too_big => 48
  | unknown_transaction_compression => 49 | invalid_transaction_extension => 50
  | ill_formed_deferred_transaction_generation_context => 51
  | disallowed_transaction_extensions_bad_block_exception => 52 | tx_too_much => 53
  | tx_resource_exhaustion => 54 | action_validate_exception => 55
  | account_name_exists_exception => 56 | invalid_action_args_exception => 57
  | eosio_assert_message_exception => 58 | eosio_assert_code_exception => 59
  | action_not_found_exception => 60 | action_data_and_struct_mismatch => 61
  | unaccessible_api => 62 | abort_called => 63 | inline_action_too_big => 64
  | unauthorized_ram_usage_increase => 65 | restricted_error_code_exception => 66
  | database_exception => 67 | permission_query_exception => 68
  | account_query_exception => 69 | contract_table_query_exception => 70
  | contract_query_exception => 71 | bad_database_version_exception => 72
  | guard_exception => 73 | database_guard_exception => 74
  | reversible_guard_exception => 75 | wasm_exception => 76 | page_memory_error => 77
  | wasm_execution_error => 78 | wasm_serialization_error => 79
  | overlapping_memory_error => 80 | binaryen_exception => 81
  | resource_exhausted_exception => 82 | ram_usage_exceeded => 83
  | tx_net_usage_exceeded => 84 | block_net_usage_exceeded => 85
  | tx_cpu_usage_exceeded => 86 | block_cpu_usage_exceeded => 87
  | deadline_exception => 88 | greylist_net_usage_exceeded => 89
  | greylist_cpu_usage_exceeded => 90 | leeway_deadline_exception => 91
  | authorization_exception => 92 | tx_duplicate_sig => 93 | tx_irrelevant_sig => 94
  | unsatisfied_authorization => 95 | missing_auth_exception => 96
  | irrelevant_auth_exception => 97 | insufficient_delay_exception => 98
  | invalid_permission => 99 | unlinkable_min_permission_action => 100
  | invalid_parent_permission => 101 | misc_exception => 102
  | rate_limiting_state_inconsistent => 103 | unknown_block_exception => 104
  | unknown_transaction_exception => 105 | fixed_reversible_db_exception => 106
  | extract_genesis_state_exception => 107
  | subjective_block_production_exception => 108 | multiple_voter_info => 109
  | unsupported_feature => 110 | node_management_success => 111
  | json_parse_exception => 112 | sig_variable_size_limit_exception => 113
  | plugin_exception => 114 | missing_chain_api_plugin_exception => 115
  | missing_wallet_api_plugin_exception => 116
  | missing_history_api_plugin_exception => 117
  | missing_net_api_plugin_exception => 118 | missing_chain_plugin_exception => 119
  | plugin_config_exception => 120 | wallet_exception => 121
  | wallet_exist_exception => 122 | wallet_nonexistent_exception => 123
  | wallet_locked_exception => 124 | wallet_missing_pub_key_exception => 125
  | wallet_invalid_password_exception => 126 | wallet_not_available_exception => 127
  | wallet_unlocked_exception => 128 | key_exist_exception => 129
  | key_nonexistent_exception => 130 | unsupported_key_type_exception => 131
  | invalid_lock_timeout_exception => 132 | secure_enclave_exception => 133
  | whitelist_blacklist_exception => 134 | actor_whitelist_exception => 135
  | actor_blacklist_exception => 136 | contract_whitelist_exception => 137
  | contract_blacklist_exception => 138 | action_blacklist_exception => 139
  | key_blacklist_exception => 140 | controller_emit_signal_exception => 141
  | checkpoint_exception => 142 | abi_exception => 143 | abi_not_found_exception => 144
  | invalid_ricardian_clause_exception => 145
  | invalid_ricardian_action_exception => 146 | invalid_type_inside_abi => 147
  | duplicate_abi_type_def_exception => 148 | duplicate_abi_struct_def_exception => 149
  | duplicate_abi_action_def_exception => 150
  | duplicate_abi_table_def_exception => 151
  | duplicate_abi_err_msg_def_exception => 152
  | abi_serialization_deadline_exception => 153 | abi_recursion_depth_exception => 154
  | abi_circular_def_exception => 155 | unpack_exception => 156 | pack_exception => 157
  | duplicate_abi_variant_def_exception => 158
  | unsupported_abi_version_exception => 159 | contract_exception => 160
  | invalid_table_payer => 161 | table_access_violation => 162
  | invalid_table_iterator => 163 | table_not_in_cache => 164
  | table_operation_not_permitted => 165 | invalid_contract_vm_type => 166
  | invalid_contract_vm_version => 167 | set_exact_code => 168
  | wasm_file_not_found => 169 | abi_file_not_found => 170 | producer_exception => 171
  | producer_priv_key_not_found => 172 | missing_pending_block_state => 173
  | producer_double_confirm => 174 | producer_schedule_exception => 175
  | producer_not_in_schedule => 176 | snapshot_directory_not_found_exception => 177
  | snapshot_exists_exception => 178 | snapshot_finalization_exception => 179
  | invalid_protocol_features_to_activate => 180 | no_block_signatures => 181
  | unsupported_multiple_block_signatures => 182 | reversible_blocks_exception => 183
  | invalid_reversible_blocks_dir => 184 | reversible_blocks_backup_dir_exist => 185
  | gap_in_reversible_blocks_db => 186 | block_log_exception => 187
  | block_log_unsupported_version => 188 | block_log_append_fail => 189
  | block_log_not_found => 190 | block_log_backup_dir_exist => 191
  | block_index_not_found => 192 | http_exception => 193
  | invalid_http_client_root_cert => 194 | invalid_http_response => 195
  | resolved_to_multiple_ports => 196 | fail_to_resolve_host => 197
  | http_request_fail => 198 | invalid_http_request => 199
  | resource_limit_exception => 200 | mongo_db_exception => 201
  | mongo_db_insert_fail => 202 | mongo_db_update_fail => 203
  | contract_api_exception => 204 | crypto_api_exception => 205
  | db_api_exception => 206 | arithmetic_exception => 207 | snapshot_exception => 208
  | snapshot_validation_exception => 209 | protocol_feature_exception => 210
  | protocol_feature_validation_exception => 211
  | protocol_feature_bad_block_exception => 212
  | protocol_feature_iterator_exception => 213 | fc_overflow_exception => 214
  | fc_assert_exception => 215 | std_exception => 216
  end%nat.

(** ** Decidable equality through the enumeration *)

Lemma all_exns_tag e : all_exns !! exn_tag e = Some e.
Proof. by destruct e. Qed.

#[global] Instance exn_eq_dec : EqDecision exn.
Proof.
  refine (λ a b, cast_if (decide (exn_tag a = exn_tag b))).
  - abstract (apply (inj Some); by rewrite <-(all_exns_tag a), <-(all_exns_tag b), e).
  - abstract congruence.
Defined.

Lemma elem_of_all_exns e : e ∈ all_exns.
Proof. apply list_elem_of_lookup. exists (exn_tag e). apply all_exns_tag. Qed.

(** A property of every class is checked on the enumeration. *)
Lemma exn_forallb (P : exn → bool) : forallb P all_exns = true → ∀ e, P e = true.
Proof.
  intros H e. rewrite forallb_forall in H. apply H, list_elem_of_In, elem_of_all_exns.
Qed.

(** ** Catching and rethrowing *)

(** [dynamic_cast] of an exception of class [e] to a reference to class [b]:
    the class tree is walked to the root; [depth] bounds the walk. *)
Fixpoint derives_from (depth : nat) (e b : exn) : bool :=
  bool_decide (e = b) ||
  match depth, base e with
  | S depth', Some e' => derives_from depth' e' b
  | _, _ => false
  end.

(** The tree has four levels: a class, its category, an optional subcategory and
    [chain_exception]. *)
Definition is_a (e b : exn) : bool := derives_from 3 e b.

(** [EOS_RETHROW_EXCEPTIONS( x, ... )]: a [chain_exception] passes with its class,
    any other [fc::exception] or [std::exception] becomes an [x]. *)
Definition rethrow_exceptions {A} (x : exn) (m : result exn A) : result exn A :=
  match m with
  | Ok a => Ok a
  | Throw e => if is_a e chain_exception then Throw e else Throw x
  end.

(** The walk of [is_a] is deep enough: it reaches a root from every class. *)
Lemma is_a_base e b :
  is_a e b = bool_decide (e = b) || match base e with Some e' => is_a e' b | None => false end.
Proof.
  pose (P e := forallb (λ b, Bool.eqb (is_a e b)
     (bool_decide (e = b) || match base e with Some e' => is_a e' b | None => false end)) all_exns).
  assert (P e = true) as H by (apply exn_forallb; vm_compute; reflexivity).
  unfold P in H. apply Bool.eqb_prop.
  apply (exn_forallb (λ b, Bool.eqb (is_a e b) _) H).
Qed.

(** Two classes with the same code. *)
Definition same_code (a b : exn) : bool :=
  match code a, code b with
  | Some x, Some y => x =? y
  | _, _ => false
  end.

Lemma same_code_spec a b c : code a = Some c → code b = Some c → same_code a b = true.
Proof. unfold same_code. intros -> ->. apply Z.eqb_refl. Qed.

(** The code carried by an exception, which [dynamic_rethrow_exception]
    compares to pick the class to rethrow, identifies the class; the only two
    classes that share a code are [config_type_exception] and
    [duplicate_abi_variant_def_exception] (3015015). *)
Theorem code_identifies_class a b c :
  code a = Some c → code b = Some c →
  a = b ∨
  (a = config_type_exception ∧ b = duplicate_abi_variant_def_exception) ∨
  (a = duplicate_abi_variant_def_exception ∧ b = config_type_exception).
Proof.
  intros Ha Hb. pose proof (same_code_spec _ _ _ Ha Hb) as Hs.
  pose (Q a b := negb (same_code a b) || bool_decide (a = b)
    || (bool_decide (a = config_type_exception) && bool_decide (b = duplicate_abi_variant_def_exception))
    || (bool_decide (a = duplicate_abi_variant_def_exception) && bool_decide (b = config_type_exception))).
  assert (forallb (Q a) all_exns = true) as H.
  { apply (exn_forallb (λ a, forallb (Q a) all_exns)). vm_compute. reflexivity. }
  pose proof (exn_forallb _ H b) as Hq. unfold Q in Hq. rewrite Hs in Hq. simpl in Hq.
  rewrite !orb_true_iff, !andb_true_iff, !bool_decide_eq_true in Hq. tauto.
Qed.

Lemma code_identifies_class_witness :
  config_type_exception = duplicate_abi_variant_def_exception ∨
  (config_type_exception = config_type_exception ∧
   duplicate_abi_variant_def_exception = duplicate_abi_variant_def_exception) ∨
  (config_type_exception = duplicate_abi_variant_def_exception ∧
   duplicate_abi_variant_def_exception = config_type_exception).
Proof. apply (code_identifies_class _ _ 3015015); reflexivity. Defined.
