(* ===== verification/Name.v ===== *)
(** * Account names

    Models [libraries/chain/include/eosio/chain/name.hpp] and
    [libraries/chain/name.cpp]: the base-32 packing of a string of up to thirteen
    characters into a [uint64_t], its printing, and the validating constructor
    [name::set].  A name is its 64-bit value, a [Z]; a string is a list of
    characters, read past its end as the terminating NUL. *)

From S2P Require Import Prelude Exceptions.
From Stdlib Require Import Ascii.
Local Open Scope Z_scope.

Module Name.

Definition NUL : ascii := Ascii.zero.

(** [str[i]] of a NUL-terminated string. *)
Definition char_at (str : list ascii) (i : nat) : ascii := default NUL (str !! i).

Definition char_code (c : ascii) : Z := Z.of_N (N_of_ascii c).

Definition char_to_symbol (c : ascii) : Z :=
  let c := char_code c in
  if (char_code "a" <=? c) && (c <=? char_code "z") then (c - char_code "a") + 6
  else if (char_code "1" <=? c) && (c <=? char_code "5") then (c - char_code "1") + 1
  else 0.

(** The encoding loop [for( ; str[i] && i < 12; ++i )]; [left] is [12 - i].  It
    returns [i] and [n] at its exit. *)
Fixpoint encode_chars (str : list ascii) (left : nat) (i : nat) (n : Z) : nat * Z :=
  match left with
  | O => (i, n)
  | S left' =>
      if bool_decide (char_at str i = NUL) then (i, n)
      else encode_chars str left' (S i)
             (Z.lor n (Z.shiftl (Z.land (char_to_symbol (char_at str i)) 0x1f)
                                (64 - 5 * (Z.of_nat i + 1))))
  end.

Definition string_to_uint64_t (str : list ascii) : Z :=
  let '(i, n) := encode_chars str 12 0 0 in
  if (i =? 12)%nat
  then Z.lor n (Z.land (char_to_symbol (char_at str 12)) 0x0F)
  else n.

Definition charmap : list ascii := String.list_ascii_of_string ".12345abcdefghijklmnopqrstuvwxyz".

(** [boost::algorithm::trim_right_if( str, c == '.' )] *)
Fixpoint trim_right_dots (str : list ascii) : list ascii :=
  match str with
  | [] => []
  | c :: str' =>
      match trim_right_dots str' with
      | [] => if bool_decide (c = "."%char) then [] else [c]
      | t => c :: t
      end
  end.

(** The printing loop [for( i = 0; i <= 12; ++i )]; [left] is [13 - i]. *)
Fixpoint decode_chars (left : nat) (i : nat) (tmp : Z) (str : list ascii) : list ascii :=
  match left with
  | O => str
  | S left' =>
      let c := char_at charmap (Z.to_nat (Z.land tmp (if (i =? 0)%nat then 0x0f else 0x1f))) in
      decode_chars left' (S i) (Z.shiftr tmp (if (i =? 0)%nat then 4 else 5))
        (<[(12 - i)%nat := c]> str)
  end.

Definition to_string (value : Z) : list ascii :=
  trim_right_dots (decode_chars 13 0 value (replicate 13 "."%char)).

(** [name::set], the constructor from a string. *)
Definition set (str : list ascii) : result exn Z :=
  _ ← assert_that (bool_decide (length str ≤ 13)%nat) name_type_exception;
  let value := string_to_uint64_t str in
  _ ← assert_that (bool_decide (to_string value = str)) name_type_exception;
  Ok value.

Definition empty (value : Z) : bool := 0 =? value.

(** The macro [N( X )]. *)
Definition N (X : string) : Z := string_to_uint64_t (String.list_ascii_of_string X).

Example eosio_encoded : N "eosio" = 6138663577826885632.
Proof. reflexivity. Qed.
Example eosio_decoded : to_string 6138663577826885632 = String.list_ascii_of_string "eosio".
Proof. reflexivity. Qed.

(** ** The encoding as one expression

    [symbols str k] ors the first [k] character symbols into their slots. *)

Definition symbol_at (str : list ascii) (i : nat) : Z := char_to_symbol (char_at str i).

Fixpoint symbols (str : list ascii) (k : nat) : Z :=
  match k with
  | O => 0
  | S k' => Z.lor (symbols str k')
              (Z.shiftl (Z.land (symbol_at str k') 0x1f) (64 - 5 * (Z.of_nat k' + 1)))
  end.

Definition no_nul (str : list ascii) : Prop := NUL ∉ str.

Lemma char_at_nul str i : no_nul str → char_at str i = NUL → str !! i = None.
Proof.
  unfold char_at, no_nul. intros Hn Hc. destruct (str !! i) as [c|] eqn:E; [|done].
  simpl in Hc. subst c. exfalso. apply Hn, list_elem_of_lookup. eauto.
Qed.

Lemma symbol_at_past str i j : str !! i = None → (i ≤ j)%nat → symbol_at str j = 0.
Proof.
  intros Hi Hij. unfold symbol_at, char_at.
  rewrite lookup_ge_None_2; [done|]. apply lookup_ge_None in Hi. lia.
Qed.

Lemma symbols_past str i k : str !! i = None → (i ≤ k)%nat → symbols str k = symbols str i.
Proof.
  intros Hi. induction 1 as [|k Hk IH]; [done|]. cbn -[Z.shiftl Z.land Z.sub Z.mul].
  rewrite IH, (symbol_at_past str i k Hi Hk), Z.land_0_l, Z.shiftl_0_l. apply Z.lor_0_r.
Qed.

Lemma encode_chars_spec str left i : no_nul str →
  ∃ j, encode_chars str left i (symbols str i) = (j, symbols str (i + left)) ∧
       (i ≤ j ≤ i + left)%nat ∧ ((j < i + left)%nat → str !! j = None).
Proof.
  intros Hn. revert i. induction left as [|left IH]; intros i.
  { exists i. cbn. replace (i + 0)%nat with i by lia. split; [done|]. split; lia. }
  cbn [encode_chars]. case_bool_decide as Hc.
  - exists i. apply char_at_nul in Hc; [|done].
    rewrite (symbols_past str i (i + S left)) by (done || lia). split; [done|]. split; [lia|done].
  - destruct (IH (S i)) as (j & He & Hj & Hs). exists j.
    replace (i + S left)%nat with (S i + left)%nat by lia. split; [exact He|]. split; [lia|exact Hs].
Qed.

Lemma string_to_uint64_t_symbols str : no_nul str →
  string_to_uint64_t str = Z.lor (symbols str 12) (Z.land (symbol_at str 12) 0x0F).
Proof.
  intros Hn. unfold string_to_uint64_t.
  destruct (encode_chars_spec str 12 0 Hn) as (j & He & Hj & Hs).
  cbn [symbols] in He. rewrite He. destruct (Nat.eqb_spec j 12); [done|].
  rewrite (symbol_at_past str j 12); [| apply Hs; lia | lia]. by rewrite Z.land_0_l, Z.lor_0_r.
Qed.

(** Dots at the end do not change the encoding. *)
Lemma symbol_at_trim str i : symbol_at (trim_right_dots str) i = symbol_at str i.
Proof.
  revert i. induction str as [|c str IH]; intros i; [done|]. simpl.
  destruct (trim_right_dots str) as [|d t] eqn:E.
  - case_bool_decide as Hc.
    + subst c. destruct i as [|i]; [done|]. exact (IH i).
    + destruct i as [|i]; [done|]. exact (IH i).
  - destruct i as [|i]; [done|]. exact (IH i).
Qed.

Lemma symbols_ext s1 s2 k : (∀ i, symbol_at s1 i = symbol_at s2 i) → symbols s1 k = symbols s2 k.
Proof. intros H. induction k as [|k IH]; [done|]. cbn [symbols]. by rewrite IH, H. Qed.

Lemma no_nul_trim str : no_nul str → no_nul (trim_right_dots str).
Proof.
  unfold no_nul. induction str as [|c str IH]; [done|]. rewrite not_elem_of_cons. intros [Hc Hs].
  simpl. specialize (IH Hs). destruct (trim_right_dots str) eqn:E.
  - case_bool_decide; rewrite ?not_elem_of_cons; repeat split; (done || apply not_elem_of_nil).
  - rewrite not_elem_of_cons. done.
Qed.

(** ** The printed characters *)

Definition digit_char (d : Z) : ascii := char_at charmap (Z.to_nat d).

(** Character [k] of the untrimmed print. *)
Definition print_char (value : Z) (k : nat) : ascii :=
  if (k =? 12)%nat then digit_char (Z.land value 0x0f)
  else digit_char (Z.land (Z.shiftr value (59 - 5 * Z.of_nat k)) 0x1f).

Lemma decode_chars_spec value : 0 ≤ value →
  decode_chars 13 0 value (replicate 13 "."%char) = print_char value <$> seq 0 13.
Proof.
  intros Hv. unfold print_char, digit_char. cbn -[Z.land Z.shiftr char_at Z.sub charmap].
  rewrite !Z.shiftr_shiftr by lia. reflexivity.
Qed.

Lemma digit_char_symbol d : 0 ≤ d < 32 →
  Z.land (char_to_symbol (digit_char d)) 0x1f = d ∧ digit_char d ≠ NUL.
Proof.
  intros Hd.
  assert (∀ n : nat, (n < 32)%nat →
    (Z.land (char_to_symbol (digit_char (Z.of_nat n))) 0x1f =? Z.of_nat n) = true ∧
    negb (bool_decide (digit_char (Z.of_nat n) = NUL)) = true) as H.
  { clear d Hd. intros n Hn. do 32 (destruct n as [|n]; [by vm_compute|]). lia. }
  destruct (H (Z.to_nat d)) as [H1 H2]; [lia|].
  rewrite Z2Nat.id in H1, H2 by lia. rewrite Z.eqb_eq in H1.
  rewrite negb_true_iff, bool_decide_eq_false in H2. done.
Qed.

Lemma no_nul_print value : 0 ≤ value → no_nul (print_char value <$> seq 0 13).
Proof.
  intros Hv Hin. apply list_elem_of_fmap in Hin as (k & Hk & Hin). unfold print_char in Hk.
  destruct (k =? 12)%nat; (eapply digit_char_symbol; [|symmetry; exact Hk]).
  - change 15 with (Z.ones 4). rewrite Z.land_ones by lia.
    pose proof (Z.mod_pos_bound value (2 ^ 4)). lia.
  - change 31 with (Z.ones 5). rewrite Z.land_ones by lia. by apply Z.mod_pos_bound.
Qed.

(** A slot ored below the slots above it completes the shifted value. *)
Lemma slot_lor v s : 0 ≤ s →
  Z.lor (Z.shiftl (Z.shiftr v (s + 5)) (s + 5)) (Z.shiftl (Z.land (Z.shiftr v s) 0x1f) s)
  = Z.shiftl (Z.shiftr v s) s.
Proof.
  intros Hs. change 0x1f with (Z.ones 5). apply Z.bits_inj'. intros n Hn.
  rewrite Z.lor_spec, !Z.shiftl_spec by lia.
  destruct (decide (n < s)).
  { rewrite !Z.testbit_neg_r by lia. done. }
  rewrite Z.land_spec, (Z.shiftr_spec v s) by lia.
  destruct (decide (n < s + 5)).
  - rewrite (Z.testbit_neg_r _ (n - (s + 5))), Z.ones_spec_low, andb_true_r by lia. done.
  - rewrite Z.shiftr_spec, Z.ones_spec_high, andb_false_r, orb_false_r by lia. f_equal. lia.
Qed.

Lemma char_at_print value k : (k < 13)%nat →
  char_at (print_char value <$> seq 0 13) k = print_char value k.
Proof. intros Hk. unfold char_at. by rewrite list_lookup_fmap, lookup_seq_lt. Qed.

Lemma low_slot_lor v :
  Z.lor (Z.shiftl (Z.shiftr v (64 - 5 * Z.of_nat 12)) (64 - 5 * Z.of_nat 12)) (Z.land v 15) = v.
Proof.
  change (64 - 5 * Z.of_nat 12) with 4. change 15 with (Z.ones 4).
  apply Z.bits_inj'. intros n Hn. rewrite Z.lor_spec, Z.shiftl_spec, Z.land_spec by lia.
  destruct (decide (n < 4)).
  - rewrite Z.testbit_neg_r, Z.ones_spec_low, andb_true_r by lia. done.
  - rewrite Z.shiftr_spec, Z.ones_spec_high, andb_false_r, orb_false_r by lia. f_equal. lia.
Qed.

Lemma symbols_print value k : 0 ≤ value < 2 ^ 64 → (k ≤ 12)%nat →
  symbols (print_char value <$> seq 0 13) k
  = Z.shiftl (Z.shiftr value (64 - 5 * Z.of_nat k)) (64 - 5 * Z.of_nat k).
Proof.
  intros Hv. induction k as [|k IH]; intros Hk.
  { rewrite Z.shiftr_div_pow2, Z.div_small, Z.shiftl_0_l by lia. done. }
  cbn [symbols]. rewrite IH by lia. clear IH.
  unfold symbol_at. rewrite char_at_print by lia. unfold print_char.
  destruct (Nat.eqb_spec k 12); [lia|].
  destruct (digit_char_symbol (Z.land (Z.shiftr value (59 - 5 * Z.of_nat k)) 31)) as [Hd _].
  { change 31 with (Z.ones 5). rewrite Z.land_ones by lia. by apply Z.mod_pos_bound. }
  rewrite Hd.
  rewrite <-(slot_lor value (64 - 5 * Z.of_nat (S k))) by lia.
  f_equal; repeat (f_equal; try lia).
Qed.

(** Encoding the printed form of any 64-bit value gives the value back, so
    [name::to_string] is injective. *)
Lemma string_to_uint64_t_to_string value :
  0 ≤ value < 2 ^ 64 → string_to_uint64_t (to_string value) = value.
Proof.
  intros Hv. unfold to_string. rewrite decode_chars_spec by lia.
  rewrite string_to_uint64_t_symbols by (apply no_nul_trim, no_nul_print; lia).
  rewrite symbol_at_trim.
  rewrite (symbols_ext _ (print_char value <$> seq 0 13)) by apply symbol_at_trim.
  rewrite symbols_print by lia.
  unfold symbol_at. rewrite char_at_print by lia.
  unfold print_char. cbn [Nat.eqb].
  set (d := Z.land value 15).
  assert (0 ≤ d < 16) as Hd.
  { subst d. change 15 with (Z.ones 4). rewrite Z.land_ones by lia. by apply Z.mod_pos_bound. }
  destruct (digit_char_symbol d) as [Hs _]; [lia|].
  replace (Z.land (char_to_symbol (digit_char d)) 15) with d; [apply low_slot_lor|].
  change 15 with (Z.land 31 15). by rewrite Z.land_assoc, Hs, (Z.land_ones _ 4), Z.mod_small by lia.
Qed.

(** ** Range and length of the encodings *)

Lemma char_to_symbol_range c : 0 ≤ char_to_symbol c < 32.
Proof.
  unfold char_to_symbol. repeat match goal with |- context [if ?b then _ else _] => destruct b eqn:? end;
    rewrite ?andb_true_iff, ?Z.leb_le in *;
    change (char_code "a") with 97 in *; change (char_code "z") with 122 in *;
    change (char_code "1") with 49 in *; change (char_code "5") with 53 in *; lia.
Qed.

Lemma symbols_range str k : (k ≤ 12)%nat → 0 ≤ symbols str k < 2 ^ 64.
Proof.
  induction k as [|k IH]; intros Hk; [done|]. cbn [symbols].
  apply lor_range; [lia | apply IH; lia |].
  set (e := 64 - 5 * (Z.of_nat k + 1)). change 31 with (Z.ones 5).
  rewrite Z.land_ones, Z.shiftl_mul_pow2 by lia.
  pose proof (Z.mod_pos_bound (symbol_at str k) (2 ^ 5) ltac:(lia)) as Hm.
  assert (0 < 2 ^ e) by (apply Z.pow_pos_nonneg; lia).
  replace (2 ^ 64) with (2 ^ (64 - e) * 2 ^ e) by (rewrite <-Z.pow_add_r by lia; f_equal; lia).
  assert (2 ^ 5 ≤ 2 ^ (64 - e)) by (apply Z.pow_le_mono_r; lia). nia.
Qed.

Lemma encode_chars_symbols str left i :
  ∃ j, encode_chars str left i (symbols str i) = (j, symbols str j) ∧ (i ≤ j ≤ i + left)%nat.
Proof.
  revert i. induction left as [|left IH]; intros i; cbn [encode_chars].
  - exists i. split; [done|lia].
  - case_bool_decide; [exists i; split; [done|lia]|].
    destruct (IH (S i)) as (j & He & Hj). exists j. split; [exact He|lia].
Qed.

Lemma string_to_uint64_t_range str : 0 ≤ string_to_uint64_t str < 2 ^ 64.
Proof.
  unfold string_to_uint64_t. destruct (encode_chars_symbols str 12 0) as (j & He & Hj).
  cbn [symbols] in He. rewrite He. pose proof (symbols_range str j ltac:(lia)) as Hr.
  destruct (j =? 12)%nat; [|done]. apply lor_range; [lia|done|].
  change 15 with (Z.ones 4). rewrite Z.land_ones by lia.
  pose proof (Z.mod_pos_bound (char_to_symbol (char_at str 12)) (2 ^ 4)). lia.
Qed.

Lemma trim_right_dots_length str : (length (trim_right_dots str) ≤ length str)%nat.
Proof.
  induction str as [|c str IH]; [done|]. simpl.
  destruct (trim_right_dots str); [case_bool_decide; simpl; lia | simpl in *; lia].
Qed.

Lemma to_string_length value : 0 ≤ value → (length (to_string value) ≤ 13)%nat.
Proof.
  intros Hv. unfold to_string. rewrite decode_chars_spec by done.
  etrans; [apply trim_right_dots_length|]. by rewrite length_fmap, length_seq.
Qed.

(** [name::set] accepts exactly the printed forms of 64-bit values, and stores
    the value that prints as the given string; every other string (longer than
    thirteen characters, with a character outside the alphabet, with trailing dots,
    or with a thirteenth character past 'j') throws [name_type_exception]. *)
Theorem set_spec str :
  (∀ value, set str = Ok value ↔ 0 ≤ value < 2 ^ 64 ∧ to_string value = str) ∧
  (∀ e, set str = Throw e → e = name_type_exception).
Proof.
  split.
  - intros value. unfold set. split.
    + intros H. inv_ok. rewrite bool_decide_eq_true in *. split; [apply string_to_uint64_t_range|done].
    + intros [Hv <-]. rewrite string_to_uint64_t_to_string by done.
      rewrite (bool_decide_eq_true_2 (_ ≤ _)%nat) by (apply to_string_length; lia).
      by rewrite bool_decide_eq_true_2.
  - intros e. unfold set, assert_that. repeat case_bool_decide; simpl; congruence.
Qed.

(** The thirteenth character has four bits only: 'j' is its last letter. *)
Example thirteenth_character : is_ok (set (String.list_ascii_of_string "aaaaaaaaaaaaj")).
Proof. vm_compute. eauto. Qed.
Example thirteenth_character_overflow :
  set (String.list_ascii_of_string "aaaaaaaaaaaak") = Throw name_type_exception.
Proof. reflexivity. Qed.
End Name.
