(* ===== verification/Merkle.v ===== *)
(** * Merkle trees

    Models [libraries/chain/merkle.cpp], [merkle.hpp] and [incremental_merkle.hpp]:
    the root of a vector of digests, and the incremental tree that keeps only the
    nodes later appends need.  The block header state uses the incremental tree for
    the chain's block ids and the controller uses [merkle] for transaction and action
    roots.

    The hash function [digest_type::hash] of a pair (SHA-256 of its serialisation,
    in the [fc] library) is the section variable [hash]; the theorems hold for every
    function. *)

From S2P Require Import Prelude.
Local Open Scope Z_scope.

Module Merkle.

(** [fc::sha256]: four 64-bit words, [_hash[0]] to [_hash[3]]. *)
Record digest_type := Digest { word0 : Z; word1 : Z; word2 : Z; word3 : Z }.

#[global] Instance digest_eq_dec : EqDecision digest_type.
Proof. solve_decision. Defined.
#[global] Instance digest_countable : Countable digest_type.
Proof.
  refine (inj_countable' (λ d, (word0 d, word1 d, word2 d, word3 d))
            (λ '(a, b, c, d), Digest a b c d) _). by intros [].
Defined.

(** [digest_type()] *)
Definition zero_digest : digest_type := Digest 0 0 0 0.
#[global] Instance digest_inhabited : Inhabited digest_type := populate zero_digest.

Definition make_canonical_left (val : digest_type) : digest_type :=
  Digest (Z.land (word0 val) 0xFFFFFFFFFFFFFF7F) (word1 val) (word2 val) (word3 val).

Definition make_canonical_right (val : digest_type) : digest_type :=
  Digest (Z.lor (word0 val) 0x0000000000000080) (word1 val) (word2 val) (word3 val).

Definition is_canonical_left (val : digest_type) : bool :=
  Z.land (word0 val) 0x0000000000000080 =? 0.

Definition is_canonical_right (val : digest_type) : bool :=
  negb (Z.land (word0 val) 0x0000000000000080 =? 0).

Definition make_canonical_pair (l r : digest_type) : digest_type * digest_type :=
  (make_canonical_left l, make_canonical_right r).

(** ** Bit arithmetic of the incremental tree *)

Definition next_power_of_2 (value : Z) : Z :=
  let value := u64 (value - 1) in
  let value := Z.lor value (Z.shiftr value 1) in
  let value := Z.lor value (Z.shiftr value 2) in
  let value := Z.lor value (Z.shiftr value 4) in
  let value := Z.lor value (Z.shiftr value 8) in
  let value := Z.lor value (Z.shiftr value 16) in
  let value := Z.lor value (Z.shiftr value 32) in
  u64 (value + 1).

Definition clz_power_2 (value : Z) : Z :=
  let lz := 64 in
  let lz := if negb (value =? 0) then lz - 1 else lz in
  let lz := if negb (Z.land value 0x00000000FFFFFFFF =? 0) then lz - 32 else lz in
  let lz := if negb (Z.land value 0x0000FFFF0000FFFF =? 0) then lz - 16 else lz in
  let lz := if negb (Z.land value 0x00FF00FF00FF00FF =? 0) then lz - 8 else lz in
  let lz := if negb (Z.land value 0x0F0F0F0F0F0F0F0F =? 0) then lz - 4 else lz in
  let lz := if negb (Z.land value 0x3333333333333333 =? 0) then lz - 2 else lz in
  let lz := if negb (Z.land value 0x5555555555555555 =? 0) then lz - 1 else lz in
  lz.

Definition calcluate_max_depth (node_count : Z) : Z :=
  if node_count =? 0 then 0
  else let implied_count := next_power_of_2 node_count in
       clz_power_2 implied_count + 1.

(** *** [next_power_of_2] and [clz_power_2]

    [covers c v w]: bit [j] of [w] is the or of bits [j .. j + c - 1] of [v]. *)

Definition covers (c v w : Z) : Prop :=
  ∀ j, 0 ≤ j → Z.testbit w j = true ↔ ∃ i, j ≤ i < j + c ∧ Z.testbit v i = true.

Lemma covers_1 v : covers 1 v v.
Proof.
  intros j Hj. split; [intros ?; exists j; split; [lia|done]|].
  intros (i & Hi & Hb). by replace j with i by lia.
Qed.

Lemma covers_double c v w : 0 ≤ c → covers c v w → covers (2 * c) v (Z.lor w (Z.shiftr w c)).
Proof.
  intros Hc Hw j Hj. rewrite Z.lor_spec, Z.shiftr_spec, orb_true_iff by lia.
  rewrite (Hw j), (Hw (j + c)) by lia. split.
  - intros [(i & Hi & Hb)|(i & Hi & Hb)]; exists i; (split; [lia|done]).
  - intros (i & Hi & Hb). destruct (decide (i < j + c)); [left|right]; exists i; (split; [lia|done]).
Qed.

Lemma covers_64 v w : 0 < v < 2 ^ 64 → covers 64 v w → w = Z.ones (Z.log2 v + 1).
Proof.
  intros Hv Hc. pose proof (Z.log2_nonneg v).
  assert (Z.log2 v < 64) by (apply Z.log2_lt_pow2; lia).
  apply Z.bits_inj'. intros j Hj. apply eq_iff_eq_true. rewrite (Hc j Hj). split.
  - intros (i & Hi & Hb). rewrite Z.ones_spec_low; [done|].
    destruct (decide (Z.log2 v < i)); [|lia]. rewrite Z.bits_above_log2 in Hb by lia. done.
  - intros Hb. exists (Z.log2 v). destruct (decide (j < Z.log2 v + 1)).
    + split; [lia|]. apply Z.bit_log2. lia.
    + rewrite Z.ones_spec_high in Hb by lia. done.
Qed.

(** The number of bits of [n]. *)
Definition bit_length (n : Z) : Z := if n =? 0 then 0 else Z.log2 n + 1.

Lemma bit_length_nonneg n : 0 ≤ bit_length n.
Proof. unfold bit_length. destruct (n =? 0); [done|]. pose proof (Z.log2_nonneg n). lia. Qed.

Lemma bit_length_half n : 0 < n → bit_length n = bit_length (n / 2) + 1.
Proof.
  intros Hn. unfold bit_length. destruct (Z.eqb_spec n 0); [lia|].
  destruct (Z.eqb_spec (n / 2) 0) as [He|He].
  - assert (n = 1) as -> by (pose proof (Z.div_mod n 2); pose proof (Z.mod_pos_bound n 2); lia). done.
  - pose proof (Z.log2_shiftr n 1 Hn) as Hs.
    rewrite Z.shiftr_div_pow2 in Hs by lia. change (2 ^ 1) with 2 in Hs.
    assert (1 ≤ Z.log2 n); [|lia]. apply Z.log2_le_pow2; [lia|].
    pose proof (Z.div_mod n 2). pose proof (Z.mod_pos_bound n 2). lia.
Qed.

Lemma next_power_of_2_bits n : 0 ≤ n < 2 ^ 63 → next_power_of_2 (n + 1) = 2 ^ bit_length n.
Proof.
  intros Hn. unfold next_power_of_2. replace (n + 1 - 1) with n by lia. rewrite (u64_id n) by lia.
  unfold bit_length. destruct (Z.eqb_spec n 0) as [->|Hz]; [done|].
  match goal with |- u64 (?w + 1) = _ => assert (covers 64 n w) as Hc end.
  { change 64 with (2 * 32). apply covers_double; [lia|].
    change 32 with (2 * 16). apply covers_double; [lia|].
    change 16 with (2 * 8). apply covers_double; [lia|].
    change 8 with (2 * 4). apply covers_double; [lia|].
    change 4 with (2 * 2). apply covers_double; [lia|].
    change 2 with (2 * 1) at 1. apply covers_double; [lia|]. apply covers_1. }
  apply covers_64 in Hc; [|lia]. rewrite Hc.
  assert (Z.log2 n < 63) by (apply Z.log2_lt_pow2; lia). pose proof (Z.log2_nonneg n).
  rewrite Z.ones_equiv. replace (Z.pred (2 ^ (Z.log2 n + 1)) + 1) with (2 ^ (Z.log2 n + 1)) by lia.
  apply u64_id. split; [lia|]. apply Z.pow_lt_mono_r; lia.
Qed.

Lemma clz_power_2_pow k : 0 ≤ k < 64 → clz_power_2 (2 ^ k) = k.
Proof.
  intros Hk. rewrite <-(Z2Nat.id k) by lia. assert (Z.to_nat k < 64)%nat as Hn by lia.
  revert Hn. generalize (Z.to_nat k) as n. clear. intros n Hn.
  do 64 (destruct n as [|n]; [by vm_compute|]). lia.
Qed.

Lemma max_depth_bits n : 0 ≤ n < 2 ^ 63 → calcluate_max_depth (n + 1) = bit_length n + 1.
Proof.
  intros Hn. unfold calcluate_max_depth. destruct (Z.eqb_spec (n + 1) 0); [lia|].
  rewrite next_power_of_2_bits by lia. rewrite clz_power_2_pow; [done|].
  split; [apply bit_length_nonneg|]. unfold bit_length. destruct (n =? 0); [lia|].
  destruct (decide (n = 0)) as [->|]; [done|].
  assert (Z.log2 n < 63) by (apply Z.log2_lt_pow2; lia). lia.
Qed.

(** For 1 <= v <= 2^63, [next_power_of_2 v] is the least power of two [2^k]
    not below [v], [clz_power_2] returns its exponent [k] (its number of trailing
    zeros, not the number of leading zeros its comment announces), and
    [calcluate_max_depth] is the depth [k + 1] of a balanced tree of [v] leaves. *)
Theorem power_of_2_routines v : 1 ≤ v ≤ 2 ^ 63 →
  ∃ k, 0 ≤ k < 64 ∧ next_power_of_2 v = 2 ^ k ∧ 2 ^ k / 2 < v ≤ 2 ^ k ∧
       clz_power_2 (2 ^ k) = k ∧ calcluate_max_depth v = k + 1.
Proof.
  intros Hv. exists (bit_length (v - 1)).
  assert (0 ≤ bit_length (v - 1) < 64) as Hk.
  { split; [apply bit_length_nonneg|]. unfold bit_length. destruct (Z.eqb_spec (v - 1) 0); [lia|].
    assert (Z.log2 (v - 1) < 63) by (apply Z.log2_lt_pow2; lia). lia. }
  pose proof (next_power_of_2_bits (v - 1) ltac:(lia)) as Hp.
  pose proof (max_depth_bits (v - 1) ltac:(lia)) as Hd.
  replace (v - 1 + 1) with v in Hp, Hd by lia.
  split; [done|]. split; [done|]. split; [|split; [by apply clz_power_2_pow|done]].
  unfold bit_length. destruct (Z.eqb_spec (v - 1) 0).
  { change (2 ^ 0) with 1. change (1 / 2) with 0. lia. }
  pose proof (Z.log2_spec (v - 1) ltac:(lia)) as Hs. pose proof (Z.log2_nonneg (v - 1)).
  rewrite Z.pow_add_r by lia. change (2 ^ 1) with 2. rewrite Z.div_mul by lia.
  rewrite Z.pow_succ_r in Hs by lia. lia.
Qed.

Lemma power_of_2_routines_witness :
  ∃ k, 0 ≤ k < 64 ∧ next_power_of_2 21 = 2 ^ k ∧ 2 ^ k / 2 < 21 ≤ 2 ^ k ∧
       clz_power_2 (2 ^ k) = k ∧ calcluate_max_depth 21 = k + 1.
Proof. apply (power_of_2_routines 21). lia. Defined.

Section with_hash.
Context (hash : digest_type * digest_type → digest_type).

(** ** The root of a vector *)

(** [ids[i] = hash( make_canonical_pair( ids[2i], ids[2i+1] ) )] *)
Definition pair_at (ids : list digest_type) (i : nat) : digest_type :=
  hash (make_canonical_pair (ids !!! (2 * i)%nat) (ids !!! (2 * i + 1)%nat)).

(** The body of the [while] loop: duplicate the last node of an odd row, overwrite
    the first half of the row with the parents, cut the row. *)
Definition merkle_row (ids : list digest_type) : list digest_type :=
  let ids := if (length ids mod 2 =? 0)%nat then ids else ids ++ [ids !!! (length ids - 1)%nat] in
  let ids' := foldl (λ v i, <[i := pair_at v i]> v) ids (seq 0 (length ids / 2)) in
  take (length ids / 2) ids'.

(** The [while] loop, with fuel; [None] when the fuel runs out. *)
Fixpoint merkle_loop (fuel : nat) (ids : list digest_type) : option digest_type :=
  if (1 <? length ids)%nat
  then match fuel with O => None | S fuel' => merkle_loop fuel' (merkle_row ids) end
  else Some (ids !!! 0%nat).

Definition merkle (ids : list digest_type) : option digest_type :=
  if (0 =? length ids)%nat then Some zero_digest else merkle_loop (length ids) ids.

(** ** The incremental tree *)

Record incremental_merkle := IncrementalMerkle {
  node_count : Z;
  active_nodes : list digest_type
}.

Definition empty_merkle : incremental_merkle := IncrementalMerkle 0 [].

(** The [while( current_depth > 0 )] loop of [append]; [None] is a read of
    [*active_iter] past the end.  Returns [updated_active_nodes] and [top]. *)
Fixpoint append_loop (current_depth : nat) (index : Z) (partial : bool) (top : digest_type)
    (active_iter updated : list digest_type) : option (list digest_type * digest_type) :=
  match current_depth with
  | O => Some (updated, top)
  | S current_depth' =>
      if Z.land index 0x1 =? 0 then
        append_loop current_depth' (Z.shiftr index 1) true
          (hash (make_canonical_pair top top)) active_iter
          (if partial then updated else updated ++ [top])
      else
        match active_iter with
        | [] => None
        | left_value :: active_iter' =>
            append_loop current_depth' (Z.shiftr index 1) partial
              (hash (make_canonical_pair left_value top)) active_iter'
              (if partial then updated ++ [left_value] else updated)
        end
  end.

Definition append (t : incremental_merkle) (digest : digest_type) : option incremental_merkle :=
  let max_depth := calcluate_max_depth (u64 (node_count t + 1)) in
  '(updated, top) ← append_loop (Z.to_nat (max_depth - 1)) (node_count t) false digest
                      (active_nodes t) [];
  Some (IncrementalMerkle (u64 (node_count t + 1)) (updated ++ [top])).

Definition get_root (t : incremental_merkle) : digest_type :=
  if 0 <? node_count t then default zero_digest (last (active_nodes t)) else zero_digest.

(** Append a list of digests in order. *)
Fixpoint append_all (t : incremental_merkle) (ids : list digest_type) : option incremental_merkle :=
  match ids with
  | [] => Some t
  | d :: ids' => t' ← append t d; append_all t' ids'
  end.

(** ** Rows of the tree, two nodes at a time *)

Definition node (l r : digest_type) : digest_type := hash (make_canonical_pair l r).

Fixpoint pairs (ids : list digest_type) : list digest_type :=
  match ids with
  | [] => []
  | [a] => [node a a]
  | a :: b :: ids' => node a b :: pairs ids'
  end.

(** Induction two elements at a time. *)
Lemma list_pair_ind (P : list digest_type → Prop) :
  P [] → (∀ a, P [a]) → (∀ a b l, P l → P (a :: b :: l)) → ∀ l, P l.
Proof.
  intros H0 H1 H2 l. assert (P l ∧ ∀ a, P (a :: l)) as [? _]; [|done].
  induction l as [|a l [IH IHc]]; [auto|]. split; [apply IHc|]. intros b. apply H2, IH.
Qed.

Lemma pairs_length l : length (pairs l) = ((length l + 1) / 2)%nat.
Proof.
  induction l as [|a|a b l IH] using list_pair_ind; [done..|].
  cbn [pairs length]. rewrite IH.
  replace (S (S (length l)) + 1)%nat with (length l + 1 + 1 * 2)%nat by lia.
  rewrite Nat.div_add by lia. lia.
Qed.

Lemma pairs_app l1 l2 : Nat.Even (length l1) → pairs (l1 ++ l2) = pairs l1 ++ pairs l2.
Proof.
  induction l1 as [|a|a b l IH] using list_pair_ind; [done| |].
  - intros [k Hk]. simpl in Hk. lia.
  - intros [k Hk]. simpl in Hk |- *. rewrite IH; [done|]. exists (k - 1)%nat. lia.
Qed.

(** The in-place loop writes the parents into the first half of the row. *)
Lemma merkle_row_loop ids n j : (2 * n ≤ length ids)%nat →
  foldl (λ v i, <[i := pair_at v i]> v) ids (seq 0 n) !! j =
  if (j <? n)%nat then Some (pair_at ids j) else ids !! j.
Proof.
  intros Hn. revert j. induction n as [|n IH]; intros j; [done|].
  rewrite seq_S, foldl_app. cbn [foldl Nat.add].
  set (v := foldl _ _ _) in *. specialize (IH ltac:(lia)).
  assert (length v = length ids) as Hlen.
  { subst v. clear. generalize (seq 0 n) as l. induction l as [|i l IH] using rev_ind; [done|].
    rewrite foldl_app. cbn [foldl]. by rewrite length_insert. }
  assert (pair_at v n = pair_at ids n) as ->.
  { unfold pair_at. rewrite !list_lookup_total_alt, !IH.
    by destruct (Nat.ltb_spec (2 * n) n), (Nat.ltb_spec (2 * n + 1) n); try lia. }
  destruct (decide (n = j)) as [->|Hne].
  - rewrite list_lookup_insert_eq by lia. by destruct (Nat.ltb_spec j (S j)); [|lia].
  - rewrite list_lookup_insert_ne, IH by done.
    destruct (Nat.ltb_spec j n), (Nat.ltb_spec j (S n)); try done; lia.
Qed.

Lemma pair_at_cons a b l i : pair_at (a :: b :: l) (S i) = pair_at l i.
Proof.
  unfold pair_at. rewrite !list_lookup_total_alt.
  replace (2 * S i)%nat with (S (S (2 * i))) by lia.
  by replace (S (S (2 * i)) + 1)%nat with (S (S (2 * i + 1))) by lia.
Qed.

Lemma pairs_lookup l i : Nat.Even (length l) → (i < length l / 2)%nat → pairs l !! i = Some (pair_at l i).
Proof.
  revert i. induction l as [|a|a b l IH] using list_pair_ind; intros i He Hi.
  { simpl in Hi. lia. }
  { destruct He as [k Hk]. simpl in Hk. lia. }
  destruct i as [|i]; [done|]. cbn [pairs]. rewrite pair_at_cons. simpl. apply IH.
  - destruct He as [k Hk]. exists (k - 1)%nat. simpl in Hk. lia.
  - cbn [length] in Hi. replace (S (S (length l))) with (length l + 1 * 2)%nat in Hi by lia.
    rewrite Nat.div_add in Hi by lia. lia.
Qed.

Lemma merkle_row_even l : Nat.Even (length l) →
  take (length l / 2) (foldl (λ v i, <[i := pair_at v i]> v) l (seq 0 (length l / 2))) = pairs l.
Proof.
  intros He. apply list_eq. intros j. pose proof (Nat.Div0.mul_div_le (length l) 2).
  destruct (decide (j < length l / 2)%nat) as [Hj|Hj].
  - rewrite lookup_take_lt, merkle_row_loop, pairs_lookup by (done || lia).
    by destruct (Nat.ltb_spec j (length l / 2)); [|lia].
  - rewrite lookup_take_ge by lia. symmetry. apply lookup_ge_None.
    rewrite pairs_length. destruct He as [k Hk]. rewrite Hk in *.
    rewrite (Nat.mul_comm 2 k), Nat.div_add_l in * by lia. simpl. rewrite Nat.div_mul in Hj by lia. lia.
Qed.

Lemma merkle_row_pairs l : l ≠ [] → merkle_row l = pairs l.
Proof.
  intros Hl. unfold merkle_row. destruct (Nat.eqb_spec (length l mod 2) 0) as [He|Ho].
  - apply merkle_row_even. exists (length l / 2)%nat. pose proof (Nat.div_mod (length l) 2). lia.
  - pose proof (Nat.mod_upper_bound (length l) 2). pose proof (Nat.div_mod (length l) 2).
    destruct l as [|x l _] using rev_ind; [done|].
    pose proof (length_app l [x]) as Hlen. cbn [length] in Hlen.
    assert (Nat.Even (length l)) as He by (exists (length (l ++ [x]) / 2)%nat; lia).
    rewrite merkle_row_even.
    + rewrite <-app_assoc, (pairs_app l _ He), (pairs_app l [x] He).
      replace (length (l ++ [x]) - 1)%nat with (length l) by lia.
      rewrite lookup_total_app_r by lia. by rewrite Nat.sub_diag.
    + rewrite length_app. cbn [length]. exists (length (l ++ [x]) / 2 + 1)%nat. lia.
Qed.

(** ** Roots *)

(** [is_root l r]: halving the row [l] until one node is left leaves [r]. *)
Inductive is_root : list digest_type → digest_type → Prop :=
| is_root_one x : is_root [x] x
| is_root_row l r : (1 < length l)%nat → is_root (pairs l) r → is_root l r.

Lemma is_root_nonempty l r : is_root l r → l ≠ [].
Proof. destruct 1 as [|l r Hl]; [done|]. by destruct l; [simpl in Hl; lia|]. Qed.

Lemma pairs_shorter l : (1 < length l → length (pairs l) < length l ∧ 0 < length (pairs l))%nat.
Proof.
  intros H. rewrite pairs_length.
  pose proof (Nat.div_mod (length l + 1) 2). pose proof (Nat.mod_upper_bound (length l + 1) 2). lia.
Qed.

(** Any row reaches a root, and fuel for one iteration per node is enough. *)
Lemma merkle_loop_total fuel l : l ≠ [] → (length l ≤ fuel + 1)%nat →
  ∃ r, merkle_loop fuel l = Some r ∧ is_root l r.
Proof.
  revert l. induction fuel as [|fuel IH]; intros l Hl Hf; cbn [merkle_loop];
    destruct (Nat.ltb_spec 1 (length l)) as [Hlt|Hge].
  - lia.
  - destruct l as [|x [|y l]]; simpl in Hge; [done| |lia]. exists x. by split; [|constructor].
  - rewrite merkle_row_pairs by done. destruct (pairs_shorter l Hlt).
    destruct (IH (pairs l)) as (r & Hr & Hroot); [by destruct (pairs l); simpl in *; [lia|] | lia |].
    exists r. split; [done|]. by constructor.
  - destruct l as [|x [|y l]]; simpl in Hge; [done| |lia]. exists x. by split; [|constructor].
Qed.

Lemma is_root_det l r r' : is_root l r → is_root l r' → r = r'.
Proof.
  induction 1 as [x|l r Hl Hr IH]; inversion 1; subst; simpl in *; try lia; auto.
Qed.

(** ** The nodes an append needs

    [peaks l p]: [p] lists, from the leaves up, the roots of the complete subtrees
    that end a row of [l] on a left node. *)

Inductive peaks : list digest_type → list digest_type → Prop :=
| peaks_nil : peaks [] []
| peaks_even l p : l ≠ [] → Nat.Even (length l) → peaks (pairs l) p → peaks l p
| peaks_odd l x p : Nat.Even (length l) → peaks (pairs l) p → peaks (l ++ [x]) (x :: p).

Lemma even_half l : Nat.Even (length l) → Z.of_nat (length l) = 2 * Z.of_nat (length (pairs l)).
Proof.
  intros [k Hk]. rewrite pairs_length, Hk, (Nat.mul_comm 2 k), Nat.div_add_l by lia. simpl. lia.
Qed.

Lemma odd_half l x : Nat.Even (length l) →
  Z.of_nat (length (l ++ [x])) = 2 * Z.of_nat (length (pairs l)) + 1.
Proof. intros He. rewrite length_app, Nat2Z.inj_add, <-even_half by done. done. Qed.

Lemma index_even n : Z.land (2 * n) 1 = 0 ∧ Z.shiftr (2 * n) 1 = n.
Proof.
  change 1 with (Z.ones 1) at 1. rewrite Z.land_ones, Z.shiftr_div_pow2 by lia.
  change (2 ^ 1) with 2. rewrite (Z.mul_comm 2 n), Z.mod_mul, Z.div_mul by lia. done.
Qed.

Lemma index_odd n : Z.land (2 * n + 1) 1 = 1 ∧ Z.shiftr (2 * n + 1) 1 = n.
Proof.
  change 1 with (Z.ones 1) at 2. rewrite Z.land_ones, Z.shiftr_div_pow2 by lia.
  change (2 ^ 1) with 2. rewrite (Z.mul_comm 2 n), Z.add_comm, Z.mod_add, Z.div_add by lia. done.
Qed.

(** The depth of a row, and one step of it. *)
Definition depth (l : list digest_type) : nat := Z.to_nat (bit_length (Z.of_nat (length l))).

Lemma depth_even l : l ≠ [] → Nat.Even (length l) → depth l = S (depth (pairs l)).
Proof.
  intros Hl He. unfold depth. pose proof (even_half l He).
  assert (0 < Z.of_nat (length l)) by (destruct l; simpl; [done|lia]).
  rewrite bit_length_half by done. pose proof (bit_length_nonneg (Z.of_nat (length l) / 2)).
  replace (Z.of_nat (length l) / 2) with (Z.of_nat (length (pairs l))) in *
    by (rewrite H, Z.mul_comm, Z.div_mul; lia). lia.
Qed.

Lemma depth_odd l x : Nat.Even (length l) → depth (l ++ [x]) = S (depth (pairs l)).
Proof.
  intros He. unfold depth. pose proof (even_half l He). rewrite length_app, Nat2Z.inj_add.
  rewrite bit_length_half by (cbn [length]; lia). change (Z.of_nat (length [x])) with 1.
  replace ((Z.of_nat (length l) + 1) / 2) with (Z.of_nat (length (pairs l)))
    by (apply (Z.div_unique _ _ _ 1); lia).
  pose proof (bit_length_nonneg (Z.of_nat (length (pairs l)))). lia.
Qed.

Lemma pairs_snoc_even l t : Nat.Even (length l) → pairs (l ++ [t]) = pairs l ++ [node t t].
Proof. intros He. by rewrite pairs_app. Qed.

Lemma pairs_snoc_odd l x t : Nat.Even (length l) → pairs ((l ++ [x]) ++ [t]) = pairs l ++ [node x t].
Proof. intros He. by rewrite <-app_assoc, pairs_app. Qed.

Lemma is_root_snoc l t r : l ≠ [] → is_root (pairs (l ++ [t])) r → is_root (l ++ [t]) r.
Proof.
  intros Hl Hr. apply is_root_row; [|done]. rewrite length_app. destruct l; simpl; [done|lia].
Qed.

(** Above a partial node, the loop copies the remaining peaks. *)
Lemma append_loop_partial l p t junk upd : peaks l p →
  ∃ r, append_loop (depth l) (Z.of_nat (length l)) true t (p ++ junk) upd = Some (upd ++ p, r) ∧
       is_root (l ++ [t]) r.
Proof.
  intros Hp. revert t upd. induction Hp as [|l p Hl He Hp IH|l x p He Hp IH]; intros t upd.
  - exists t. rewrite app_nil_r. split; [done|constructor].
  - rewrite depth_even, even_half by done. cbn [append_loop].
    destruct (index_even (Z.of_nat (length (pairs l)))) as [-> ->].
    destruct (IH (node t t) upd) as (r & Hr & Hroot). exists r. split; [exact Hr|].
    apply is_root_snoc; [done|]. by rewrite pairs_snoc_even.
  - rewrite depth_odd, odd_half by done. cbn [append_loop].
    destruct (index_odd (Z.of_nat (length (pairs l)))) as [-> ->]. cbn [app Z.eqb].
    destruct (IH (node x t) (upd ++ [x])) as (r & Hr & Hroot). exists r. split.
    + rewrite <-app_assoc in Hr. exact Hr.
    + apply is_root_snoc; [by destruct l|]. by rewrite pairs_snoc_odd.
Qed.

(** Below, it drops the peaks it merges, and starts the new list at the first left
    node; a tree that becomes complete keeps only its root. *)
Lemma append_loop_full l p x junk : peaks l p →
  ∃ upd q r, append_loop (depth l) (Z.of_nat (length l)) false x (p ++ junk) [] = Some (upd, r) ∧
    is_root (l ++ [x]) r ∧ peaks (l ++ [x]) q ∧ (upd = q ∨ (upd = [] ∧ q = [r])).
Proof.
  intros Hp. revert x. induction Hp as [|l p Hl He Hp IH|l y p He Hp IH]; intros x.
  - exists [], [x], x. split; [done|]. split; [constructor|]. split; [|by right].
    apply (peaks_odd [] x []); [by exists 0%nat|constructor].
  - rewrite depth_even, even_half by done. cbn [append_loop].
    destruct (index_even (Z.of_nat (length (pairs l)))) as [-> ->].
    destruct (append_loop_partial (pairs l) p (node x x) junk [x] Hp) as (r & Hr & Hroot).
    exists ([x] ++ p), (x :: p), r. split; [exact Hr|]. split; [|split; [by constructor|by left]].
    apply is_root_snoc; [done|]. by rewrite pairs_snoc_even.
  - rewrite depth_odd, odd_half by done. cbn [append_loop].
    destruct (index_odd (Z.of_nat (length (pairs l)))) as [-> ->]. cbn [app Z.eqb].
    destruct (IH (node y x)) as (upd & q & r & Hr & Hroot & Hq & Hu).
    exists upd, q, r. split; [exact Hr|]. split; [|split; [|done]].
    + apply is_root_snoc; [by destruct l|]. by rewrite pairs_snoc_odd.
    + apply peaks_even; [by destruct l| |by rewrite pairs_snoc_odd].
      rewrite !length_app. destruct He as [k Hk]. exists (k + 1)%nat. simpl. lia.
Qed.

(** ** Refinement: the incremental tree represents the list of appended leaves *)

Definition represents (t : incremental_merkle) (l : list digest_type) : Prop :=
  node_count t = Z.of_nat (length l) ∧
  (∃ p junk, peaks l p ∧ active_nodes t = p ++ junk) ∧
  (l ≠ [] → ∃ r, is_root l r ∧ last (active_nodes t) = Some r).

Lemma represents_empty : represents empty_merkle [].
Proof. split; [done|]. split; [exists [], []; by split; [constructor|]|done]. Qed.

Lemma append_represents t l x : represents t l → Z.of_nat (length l) < 2 ^ 63 →
  ∃ t', append t x = Some t' ∧ represents t' (l ++ [x]).
Proof.
  intros (Hn & (p & junk & Hp & Ha) & _) Hb.
  destruct (append_loop_full l p x junk Hp) as (upd & q & r & Hloop & Hroot & Hq & Hu).
  unfold append. rewrite Hn, Ha, u64_id, max_depth_bits by lia.
  replace (Z.to_nat _) with (depth l) by (unfold depth; lia).
  rewrite Hloop. eexists. split; [done|]. split; [|split].
  - cbn. rewrite length_app. cbn. lia.
  - destruct Hu as [->|[-> ->]]; [by exists q, [r]|by exists [r], []].
  - intros _. exists r. split; [done|]. cbn. apply last_snoc.
Qed.

Lemma append_all_represents t l ids : represents t l → Z.of_nat (length l + length ids) ≤ 2 ^ 63 →
  ∃ t', append_all t ids = Some t' ∧ represents t' (l ++ ids).
Proof.
  revert t l. induction ids as [|x ids IH]; intros t l Ht Hb; cbn [append_all length] in *.
  - exists t. by rewrite app_nil_r.
  - destruct (append_represents t l x Ht) as (t1 & Ha & Ht1); [lia|].
    destruct (IH t1 (l ++ [x]) Ht1) as (t2 & Ha2 & Ht2); [rewrite length_app; cbn; lia|].
    exists t2. rewrite Ha. split; [exact Ha2|]. by rewrite <-app_assoc in Ht2.
Qed.

(** C29: appending any digests one at a time to an empty incremental tree never
    reads past the active nodes, counts the leaves, and leaves as root the digest
    that [merkle] computes from the whole vector (for up to 2^63 leaves, where the
    64-bit power-of-two arithmetic of [calcluate_max_depth] is exact). *)
Theorem incremental_merkle_root ids : Z.of_nat (length ids) ≤ 2 ^ 63 →
  ∃ t, append_all empty_merkle ids = Some t ∧
       node_count t = Z.of_nat (length ids) ∧
       merkle ids = Some (get_root t).
Proof.
  intros Hb. destruct (append_all_represents _ [] ids represents_empty) as (t & Ha & Hn & _ & Hr); [done|].
  exists t. split; [done|]. split; [done|]. unfold merkle, get_root. rewrite Hn. cbn [app] in *.
  destruct ids as [|x ids]; [done|].
  destruct Hr as (r & Hroot & Hl); [done|]. rewrite Hl.
  destruct (Z.ltb_spec 0 (Z.of_nat (length (x :: ids)))); [|cbn in *; lia].
  destruct (merkle_loop_total (length (x :: ids)) (x :: ids)) as (r' & Hm & Hroot'); [done|lia|].
  cbn [Nat.eqb length] in *. rewrite Hm. cbn. f_equal. eapply is_root_det; eauto.
Qed.
End with_hash.

(** A concrete hash, to run the definitions. *)
Definition sum_hash (p : digest_type * digest_type) : digest_type :=
  let '(a, b) := p in
  Digest (u64 (3 * word0 a + word0 b)) (u64 (word1 a + 5 * word1 b + 1)) (word2 b) (word3 a).

Definition leaf (n : Z) : digest_type := Digest n (n + 1) 0 n.

Lemma incremental_merkle_root_witness :
  ∃ t, append_all sum_hash empty_merkle [leaf 1; leaf 2; leaf 3; leaf 4; leaf 5] = Some t ∧
       node_count t = 5 ∧
       merkle sum_hash [leaf 1; leaf 2; leaf 3; leaf 4; leaf 5] = Some (get_root t).
Proof.
  apply (incremental_merkle_root sum_hash [leaf 1; leaf 2; leaf 3; leaf 4; leaf 5]).
  cbn [length]. lia.
Defined.

(** The side bit that [make_canonical_pair] sets tells a left node from a right one. *)
Lemma canonical_sides v : is_canonical_left (make_canonical_left v) = true ∧
  is_canonical_right (make_canonical_right v) = true.
Proof.
  unfold is_canonical_left, is_canonical_right. cbn [word0 make_canonical_left make_canonical_right].
  split.
  - by rewrite <-Z.land_assoc, Z.land_0_r.
  - rewrite Z.land_lor_distr_l. change (Z.land 128 128) with 128.
    destruct (Z.eqb_spec (Z.lor (Z.land (word0 v) 128) 128) 0) as [He|]; [|done].
    by apply Z.lor_eq_0_iff in He as [_ ?].
Qed.
End Merkle.
