(* ===== verification/Timestamp.v ===== *)
(** * Block timestamps

    Models [libraries/chain/include/eosio/chain/block_timestamp.hpp] at the
    parameters of [block_timestamp_type] in [config.hpp]: a block time is a 32-bit
    number of three-second slots since the year 2000.  An [fc::time_point] is its
    count of microseconds, an [int64_t]; an [fc::time_point_sec] its count of
    seconds, a [uint32_t]. *)

From S2P Require Import Prelude Exceptions.
Local Open Scope Z_scope.

Module Timestamp.

(** [config::block_interval_ms] and [config::block_timestamp_epoch]. *)
Definition block_interval_ms : Z := 3000.
Definition block_timestamp_epoch : Z := 946684800000.

(** [block_timestamp::maximum()] *)
Definition maximum : Z := 0xffff.

(** [block_timestamp::next()] *)
Definition next (slot : Z) : result exn Z :=
  _ ← assert_that (1 <=? UINT32_MAX - slot) fc_overflow_exception;
  Ok (u32 (slot + 1)).

(** [operator fc::time_point()] *)
Definition to_time_point (slot : Z) : Z :=
  let msec := s64 (slot * block_interval_ms) in
  let msec := s64 (msec + block_timestamp_epoch) in
  s64 (msec * 1000).

(** [set_time_point( const fc::time_point& )]: the difference is taken in [uint64_t]. *)
Definition set_time_point (time_since_epoch : Z) : Z :=
  let msec_since_epoch := Z.quot time_since_epoch 1000 in
  u32 (u64 (msec_since_epoch - block_timestamp_epoch) / block_interval_ms).

(** [set_time_point( const fc::time_point_sec& )] *)
Definition set_time_point_sec (sec_since_epoch : Z) : Z :=
  u32 (u64 (u64 (sec_since_epoch * 1000) - block_timestamp_epoch) / block_interval_ms).

(** One slot in microseconds. *)
Definition slot_us : Z := block_interval_ms * 1000.

Lemma to_time_point_exact slot : 0 ≤ slot < 2 ^ 32 →
  to_time_point slot = (slot * 3000 + 946684800000) * 1000.
Proof.
  intros Hs. unfold to_time_point, block_interval_ms, block_timestamp_epoch.
  rewrite (s64_id (slot * 3000)), (s64_id (slot * 3000 + _)) by lia. apply s64_id. lia.
Qed.

(** Within the range a 32-bit slot can represent, conversion from a time point
    rounds down to the slot that contains it: the slot of [t] is [s] exactly when
    [t] is at or after the start of slot [s] and before the start of the next.  In
    particular converting a slot to a time point and back is the identity. *)
Theorem set_time_point_floor t s :
  to_time_point 0 ≤ t < to_time_point UINT32_MAX + slot_us → 0 ≤ s < 2 ^ 32 →
  set_time_point t = s ↔ to_time_point s ≤ t < to_time_point s + slot_us.
Proof.
  unfold UINT32_MAX, slot_us. intros Ht Hs.
  rewrite !to_time_point_exact in * by lia.
  unfold set_time_point, block_interval_ms, block_timestamp_epoch in *.
  rewrite Z.quot_div_nonneg by lia.
  pose proof (Z.div_mod t 1000). pose proof (Z.mod_pos_bound t 1000).
  set (m := t / 1000) in *. rewrite u64_id by lia.
  pose proof (Z.div_mod (m - 946684800000) 3000). pose proof (Z.mod_pos_bound (m - 946684800000) 3000).
  rewrite u32_id by lia. lia.
Qed.

Lemma set_time_point_floor_witness :
  set_time_point 1542000001500000 = 198438400 ↔
  to_time_point 198438400 ≤ 1542000001500000 < to_time_point 198438400 + slot_us.
Proof. apply (set_time_point_floor 1542000001500000 198438400); vm_compute; intuition discriminate. Defined.

Lemma set_time_point_to_time_point s : 0 ≤ s < 2 ^ 32 → set_time_point (to_time_point s) = s.
Proof.
  intros Hs. unfold set_time_point, block_interval_ms, block_timestamp_epoch.
  rewrite to_time_point_exact, Z.quot_mul by lia.
  rewrite u64_id, Z.add_simpl_r, Z.div_mul, u32_id by lia. done.
Qed.

End Timestamp.
