(* ===== verification/Asset.v ===== *)
(** * Symbols and assets

    Models [libraries/chain/include/eosio/chain/symbol.hpp], [asset.hpp] and the
    accessors of [asset.cpp].  A symbol is its packed [uint64_t]: the number of
    decimals in the low byte, the characters of the name in the bytes above.  An
    amount is an [int64_t].  Parsing from and printing to text ([fc::trim],
    [fc::to_int64], [fc::to_string]) is not modelled here. *)

From S2P Require Import Prelude Exceptions.
Local Open Scope Z_scope.

Module Symbol.

Definition max_precision : Z := 18.

Definition upper_case (c : Z) : bool := (65 <=? c) && (c <=? 90).

(** The loop of [string_to_symbol] from character [i] on; characters are their codes.
    The source does not bound the length: from the eighth character on its shift
    count reaches 64, which C++ leaves undefined; here those bits are dropped. *)
Fixpoint string_to_symbol_loop (i : Z) (str : list Z) (result : Z) : Prelude.result exn Z :=
  match str with
  | [] => Ok result
  | c :: str' =>
      _ ← assert_that (upper_case c) symbol_type_exception;
      string_to_symbol_loop (i + 1) str' (Z.lor result (u64 (Z.shiftl c (8 * (i + 1)))))
  end.

Definition string_to_symbol (precision : Z) (str : list Z) : result exn Z :=
  result ← string_to_symbol_loop 0 str 0;
  Ok (Z.lor result precision).

Definition decimals (m_value : Z) : Z := Z.land m_value 0xFF.

(** The loop [while( v > 0 )] of [name()]; a 64-bit value has at most 8 bytes. *)
Fixpoint name_loop (bytes_left : nat) (v : Z) : list Z :=
  match bytes_left with
  | O => []
  | S bytes_left' =>
      if 0 <? v then Z.land v 0xFF :: name_loop bytes_left' (Z.shiftr v 8) else []
  end.

Definition name (m_value : Z) : list Z := name_loop 8 (Z.shiftr m_value 8).

Definition valid_name (name : list Z) : bool := forallb upper_case name.

Definition valid (m_value : Z) : bool :=
  (decimals m_value <=? max_precision) && valid_name (name m_value).

(** [symbol( uint8_t p, const char* s )] *)
Definition symbol_of_string (p : Z) (s : list Z) : result exn Z :=
  m_value ← string_to_symbol p s;
  _ ← assert_that (valid m_value) symbol_type_exception;
  Ok m_value.

(** [symbol( uint64_t v )] *)
Definition symbol_of_value (v : Z) : result exn Z :=
  _ ← assert_that (valid v) symbol_type_exception;
  Ok v.

(** [p10 *= 10] repeated [p] times. *)
Fixpoint pow10_loop (p : nat) (p10 : Z) : Z :=
  match p with O => p10 | S p' => pow10_loop p' (u64 (p10 * 10)) end.

Definition precision (m_value : Z) : result exn Z :=
  _ ← assert_that (decimals m_value <=? max_precision) symbol_type_exception;
  Ok (pow10_loop (Z.to_nat (decimals m_value)) 1).

Definition to_symbol_code (m_value : Z) : Z := Z.shiftr m_value 8.

(** [CORE_SYMBOL]: [SY(4,EOS)] *)
Definition core_symbol : Z := 1397703940.

Example core_symbol_packed : symbol_of_string 4 [69; 79; 83] = Ok core_symbol.
Proof. reflexivity. Qed.

(** ** The packing as base-256 digits *)

Fixpoint pack (str : list Z) : Z :=
  match str with [] => 0 | c :: str' => c + 256 * pack str' end.

Lemma upper_case_spec c : upper_case c = true ↔ 65 ≤ c ≤ 90.
Proof. unfold upper_case. rewrite andb_true_iff, !Z.leb_le. done. Qed.

Lemma pack_range str : valid_name str = true → 0 ≤ pack str < 256 ^ Z.of_nat (length str).
Proof.
  induction str as [|c str IH]; [done|]. cbn [valid_name forallb pack length].
  rewrite andb_true_iff, upper_case_spec. intros [Hc Hs]. specialize (IH Hs).
  rewrite Nat2Z.inj_succ, Z.pow_succ_r by lia. lia.
Qed.

Lemma string_to_symbol_loop_spec str : ∀ i r, valid_name str = true →
  0 ≤ i → i + Z.of_nat (length str) ≤ 7 → 0 ≤ r < 2 ^ (8 * (i + 1)) →
  string_to_symbol_loop i str r = Ok (r + pack str * 2 ^ (8 * (i + 1))).
Proof.
  induction str as [|c str IH]; intros i r Hv Hi Hl Hr; cbn [string_to_symbol_loop pack].
  { f_equal. lia. }
  cbn [valid_name forallb] in Hv. apply andb_true_iff in Hv as [Hc Hv]. rewrite Hc. cbn [assert_that mbind result_bind].
  apply upper_case_spec in Hc. cbn [length] in Hl.
  assert (0 < 2 ^ (8 * (i + 1))) by (apply Z.pow_pos_nonneg; lia).
  assert (2 ^ (8 * (i + 1 + 1)) = 256 * 2 ^ (8 * (i + 1))) as Hp.
  { replace (8 * (i + 1 + 1)) with (8 + 8 * (i + 1)) by lia. by rewrite Z.pow_add_r by lia. }
  assert (2 ^ (8 * (i + 1 + 1)) ≤ 2 ^ 64) by (apply Z.pow_le_mono_r; lia).
  rewrite u64_id by (rewrite Z.shiftl_mul_pow2 by lia; nia).
  rewrite lor_shiftl_add by lia. rewrite IH; [f_equal; rewrite Hp; ring|done|lia|lia|]. rewrite Hp. nia.
Qed.

Lemma string_to_symbol_pack p str : valid_name str = true → (length str ≤ 7)%nat → 0 ≤ p < 256 →
  string_to_symbol p str = Ok (p + 256 * pack str).
Proof.
  intros Hv Hl Hp. unfold string_to_symbol.
  rewrite string_to_symbol_loop_spec by (done || lia). cbn [mbind result_bind].
  change (8 * (0 + 1)) with 8. rewrite Z.add_0_l, <-Z.shiftl_mul_pow2, Z.lor_comm by lia.
  rewrite lor_shiftl_add by lia. f_equal. lia.
Qed.

Lemma byte_split c a : 0 ≤ c < 256 → Z.land (c + 256 * a) 0xFF = c ∧ Z.shiftr (c + 256 * a) 8 = a.
Proof.
  intros Hc. change 0xFF with (Z.ones 8). rewrite Z.land_ones, Z.shiftr_div_pow2 by lia.
  change (2 ^ 8) with 256. rewrite (Z.mul_comm 256 a), Z.mod_add, Z.div_add by lia.
  rewrite Z.mod_small, Z.div_small by lia. lia.
Qed.

Lemma name_loop_pack n str : valid_name str = true → (length str ≤ n)%nat → name_loop n (pack str) = str.
Proof.
  revert n. induction str as [|c str IH]; intros n Hv Hl; [by destruct n|].
  cbn [valid_name forallb] in Hv. apply andb_true_iff in Hv as [Hc Hv].
  apply upper_case_spec in Hc. pose proof (pack_range str Hv).
  destruct n as [|n]; cbn [length] in Hl; [lia|]. cbn [name_loop pack].
  destruct (Z.ltb_spec 0 (c + 256 * pack str)); [|lia].
  destruct (byte_split c (pack str)) as [-> ->]; [lia|]. rewrite IH by (done || lia). done.
Qed.

Lemma pack_name_loop n v : 0 ≤ v < 256 ^ Z.of_nat n →
  pack (name_loop n v) = v ∧ (length (name_loop n v) ≤ n)%nat.
Proof.
  revert v. induction n as [|n IH]; intros v Hv; cbn [name_loop].
  { cbn in *. lia. }
  rewrite Nat2Z.inj_succ, Z.pow_succ_r in Hv by lia.
  destruct (Z.ltb_spec 0 v) as [H0|H0]; [|cbn; lia]. cbn [pack length].
  destruct (IH (Z.shiftr v 8)) as [IH1 IH2].
  { rewrite Z.shiftr_div_pow2 by lia. change (2 ^ 8) with 256. split; [apply Z.div_pos; lia|].
    apply Z.div_lt_upper_bound; lia. }
  split; [|lia]. rewrite IH1. change 0xFF with (Z.ones 8). rewrite Z.land_ones, Z.shiftr_div_pow2 by lia.
  change (2 ^ 8) with 256. pose proof (Z.div_mod v 256). lia.
Qed.

Lemma string_to_symbol_loop_valid str : ∀ i r v,
  string_to_symbol_loop i str r = Ok v → valid_name str = true.
Proof.
  induction str as [|c str IH]; intros i r v H; [done|]. cbn [string_to_symbol_loop] in H. inv_ok.
  cbn [valid_name forallb]. rewrite andb_true_iff. eauto.
Qed.

(** A 64-bit value is a valid symbol with [p] decimals and name [s] exactly when
    the constructor [symbol( p, s )] produces it from a name of at most seven
    characters; packing and unpacking are mutually inverse. *)
Theorem symbol_roundtrip v p s : 0 ≤ v < 2 ^ 64 → 0 ≤ p < 256 → (length s ≤ 7)%nat →
  symbol_of_string p s = Ok v ↔ valid v = true ∧ decimals v = p ∧ name v = s.
Proof.
  intros Hv Hp Hl. split.
  - unfold symbol_of_string. intros H. inv_ok. split; [done|].
    match goal with H : string_to_symbol _ _ = Ok _ |- _ => rename H into Hs end.
    assert (valid_name s = true) as Hn.
    { unfold string_to_symbol in Hs. inv_ok. eapply string_to_symbol_loop_valid. eassumption. }
    rewrite string_to_symbol_pack in Hs by done. inv_ok.
    unfold decimals, name. destruct (byte_split p (pack s)) as [-> ->]; [lia|].
    split; [done|]. apply name_loop_pack; [done|lia].
  - intros (Hval & Hd & Hn). unfold symbol_of_string.
    assert (valid_name s = true) as Hs.
    { unfold valid in Hval. apply andb_true_iff in Hval as [_ ?]. by rewrite Hn in *. }
    rewrite string_to_symbol_pack by done. cbn [mbind result_bind].
    assert (0 ≤ Z.shiftr v 8 < 2 ^ 56) as Hr.
    { rewrite Z.shiftr_div_pow2 by lia. split; [apply Z.div_pos; lia|]. apply Z.div_lt_upper_bound; lia. }
    assert (pack s = Z.shiftr v 8) as ->.
    { rewrite <-Hn. unfold name. apply pack_name_loop. cbn. lia. }
    assert (p + 256 * Z.shiftr v 8 = v) as ->.
    { rewrite <-Hd. unfold decimals. change 0xFF with (Z.ones 8).
      rewrite Z.land_ones, Z.shiftr_div_pow2 by lia. change (2 ^ 8) with 256. pose proof (Z.div_mod v 256). lia. }
    by rewrite Hval.
Qed.

Lemma symbol_roundtrip_witness :
  symbol_of_string 4 [69; 79; 83] = Ok core_symbol ↔
  valid core_symbol = true ∧ decimals core_symbol = 4 ∧ name core_symbol = [69; 79; 83].
Proof. apply (symbol_roundtrip core_symbol 4 [69; 79; 83]); unfold core_symbol; cbn; lia. Defined.
End Symbol.

(** ** Assets *)

Module Asset.

Record asset := MkAsset { amount : Z; sym : Z }.

#[global] Instance asset_eq_dec : EqDecision asset.
Proof. solve_decision. Defined.

Definition max_amount : Z := 2 ^ 62 - 1.

Definition is_amount_within_range (amount : Z) : bool :=
  (- max_amount <=? amount) && (amount <=? max_amount).

Definition is_valid (a : asset) : bool :=
  is_amount_within_range (amount a) && Symbol.valid (sym a).

(** [asset( share_type a, symbol id )] *)
Definition asset_of (a : Z) (id : Z) : result exn asset :=
  _ ← assert_that (is_amount_within_range a) asset_type_exception;
  _ ← assert_that (Symbol.valid id) asset_type_exception;
  Ok (MkAsset a id).

(** [asset( a )], with the default symbol. *)
Definition core_asset (a : Z) : asset := MkAsset a Symbol.core_symbol.

(** [operator +=] and [operator -=]: no check of the range of the result. *)
Definition add_assign (a o : asset) : result exn asset :=
  _ ← assert_that (sym a =? sym o) asset_type_exception;
  Ok (MkAsset (s64 (amount a + amount o)) (sym a)).

Definition sub_assign (a o : asset) : result exn asset :=
  _ ← assert_that (sym a =? sym o) asset_type_exception;
  Ok (MkAsset (s64 (amount a - amount o)) (sym a)).

Definition neg (a : asset) : result exn asset := asset_of (s64 (- amount a)) (sym a).

(** [operator +] and [operator -] build their result with the constructor. *)
Definition add (a b : asset) : result exn asset :=
  _ ← assert_that (sym a =? sym b) asset_type_exception;
  asset_of (s64 (amount a + amount b)) (sym a).

Definition sub (a b : asset) : result exn asset :=
  _ ← assert_that (sym a =? sym b) asset_type_exception;
  asset_of (s64 (amount a - amount b)) (sym a).

Definition eqb (a b : asset) : bool := (sym a =? sym b) && (amount a =? amount b).

(** [std::tie( a.amount, a.sym ) < std::tie( b.amount, b.sym )] *)
Definition ltb (a b : asset) : result exn bool :=
  _ ← assert_that (sym a =? sym b) asset_type_exception;
  Ok ((amount a <? amount b) || ((amount a =? amount b) && (sym a <? sym b))).

Definition leb (a b : asset) : result exn bool :=
  if eqb a b then Ok true else ltb a b.
Definition gtb (a b : asset) : result exn bool := le ← leb a b; Ok (negb le).
Definition geb (a b : asset) : result exn bool := lt ← ltb a b; Ok (negb lt).

Lemma is_valid_spec a : is_valid a = true ↔
  - max_amount ≤ amount a ≤ max_amount ∧ Symbol.valid (sym a) = true.
Proof. unfold is_valid, is_amount_within_range. rewrite !andb_true_iff, !Z.leb_le. done. Qed.

Lemma asset_of_spec a id : asset_of a id =
  if is_valid (MkAsset a id) then Ok (MkAsset a id) else Throw asset_type_exception.
Proof.
  unfold asset_of, is_valid. cbn [amount sym].
  destruct (is_amount_within_range a), (Symbol.valid id); done.
Qed.

(** On two valid assets of one symbol the four arithmetic operators never wrap
    around in [int64_t]; the result is the exact sum or difference.  [operator +] and
    [operator -] reject a result of magnitude 2^62 or more, so they return valid
    assets, while [operator +=] and [operator -=] store it.  On different symbols all
    four throw. *)
Theorem asset_arithmetic_exact a b : is_valid a = true → is_valid b = true →
  let sum := MkAsset (amount a + amount b) (sym a) in
  let diff := MkAsset (amount a - amount b) (sym a) in
  let checked c := if is_valid c then Ok c else Throw asset_type_exception in
  if sym a =? sym b
  then add a b = checked sum ∧ sub a b = checked diff ∧
       add_assign a b = Ok sum ∧ sub_assign a b = Ok diff
  else add a b = Throw asset_type_exception ∧ sub a b = Throw asset_type_exception ∧
       add_assign a b = Throw asset_type_exception ∧ sub_assign a b = Throw asset_type_exception.
Proof.
  rewrite !is_valid_spec. unfold max_amount. intros [Ha _] [Hb _]. cbv zeta.
  unfold add, sub, add_assign, sub_assign.
  destruct (sym a =? sym b); cbn [assert_that mbind result_bind]; [|done].
  rewrite !s64_id, !asset_of_spec by lia. done.
Qed.

Lemma asset_arithmetic_exact_witness :
  add (core_asset 5) (core_asset 7) = Ok (core_asset 12) ∧
  add_assign (core_asset max_amount) (core_asset 1) = Ok (core_asset (max_amount + 1)) ∧
  is_valid (core_asset (max_amount + 1)) = false.
Proof.
  split; [|split].
  - pose proof (asset_arithmetic_exact (core_asset 5) (core_asset 7) eq_refl eq_refl) as H.
    destruct H as [-> _]. reflexivity.
  - apply (asset_arithmetic_exact (core_asset max_amount) (core_asset 1) eq_refl eq_refl).
  - reflexivity.
Defined.
End Asset.
