(* ===== verification/Action.v ===== *)
(** * Actions and permission levels

    Models [action.hpp] and the authorization queries of [apply_context.cpp] on the
    action being applied. *)

From S2P Require Import Prelude.
From S2P Require Import Exceptions.

Local Open Scope Z_scope.

Module Action.

Record permission_level := MkLevel { actor : Z; permission : Z }.

#[global] Instance permission_level_eq_dec : EqDecision permission_level.
Proof. solve_decision. Defined.

#[global] Instance permission_level_countable : Countable permission_level.
Proof.
  refine (inj_countable' (λ p, (actor p, permission p)) (λ p, MkLevel p.1 p.2) _).
  by intros [].
Defined.

(** [std::tie(actor, permission) < std::tie(actor, permission)] *)
Definition permission_level_lt (lhs rhs : permission_level) : bool :=
  (actor lhs <? actor rhs) ||
  ((actor lhs =? actor rhs) && (permission lhs <? permission rhs)).

Record action := MkAction {
  account : Z;
  name : Z;
  authorization : list permission_level;
  data : list Z
}.

#[global] Instance action_eq_dec : EqDecision action.
Proof. solve_decision. Defined.

(** The loops over [act->authorization] of [apply_context]. *)
Fixpoint has_authorization (auths : list permission_level) (account : Z) : bool :=
  match auths with
  | [] => false
  | auth :: rest => if actor auth =? account then true else has_authorization rest account
  end.

Definition require_authorization (auths : list permission_level) (account : Z) : result exn unit :=
  assert_that (has_authorization auths account) missing_auth_exception.

Fixpoint has_permission (auths : list permission_level) (account perm : Z) : bool :=
  match auths with
  | [] => false
  | auth :: rest =>
      if (actor auth =? account) && (permission auth =? perm) then true
      else has_permission rest account perm
  end.

Definition require_authorization_permission (auths : list permission_level)
    (account perm : Z) : result exn unit :=
  assert_that (has_permission auths account perm) missing_auth_exception.

Lemma permission_level_lt_spec p q : permission_level_lt p q = true ↔
  actor p < actor q ∨ (actor p = actor q ∧ permission p < permission q).
Proof.
  unfold permission_level_lt.
  rewrite orb_true_iff, andb_true_iff, !Z.ltb_lt, Z.eqb_eq. done.
Qed.

Lemma has_authorization_spec auths account :
  has_authorization auths account = true ↔ ∃ p, p ∈ auths ∧ actor p = account.
Proof.
  induction auths as [|auth rest IH]; cbn.
  - split; [done|]. intros (p & Hp & _). by apply elem_of_nil in Hp.
  - destruct (Z.eqb_spec (actor auth) account) as [He|He].
    + split; [|done]. intros _. exists auth. split; [by left|done].
    + rewrite IH. split; intros (p & Hp & Ha).
      * exists p. split; [by right|done].
      * apply elem_of_cons in Hp as [->|Hp]; [done|]. by exists p.
Qed.
End Action.
