(* ===== verification/ChainConfig.v ===== *)
(** * Configuration of the chain

    Module [Config]: the compile-time constants of [config.hpp] the other files use.
    Module [ChainConfig]: the producer-voted parameters ([chain_config.hpp],
    [chain_config.cpp]), their validation and comparison.
    Module [ConfigOnChain]: the table of switches kept in the state database
    ([config_on_chain.cpp]). *)

From S2P Require Import Prelude.
From S2P Require Import Exceptions.
From S2P Require Import Name.
From S2P Require Import Asset.
From S2P Require Import Action.

Local Open Scope Z_scope.

Module Config.

Definition system_account_name : Z := Name.N "eosio".
Definition null_account_name : Z := Name.N "eosio.null".
Definition producers_account_name : Z := Name.N "eosio.prods".
Definition chain_config_name : Z := Name.N "force.config".
Definition token_account_name : Z := Name.N "eosio.token".
Definition msig_account_name : Z := Name.N "eosio.msig".

Definition active_name : Z := Name.N "active".
Definition owner_name : Z := Name.N "owner".
Definition eosio_any_name : Z := Name.N "eosio.any".
Definition eosio_code_name : Z := Name.N "eosio.code".

(** Percentages are fixed point with a denominator of 10,000. *)
Definition percent_100 : Z := 10000.
Definition percent_1 : Z := 100.

Definition EOS_PERCENT (value percentage : Z) : Z := u64 (value * percentage) / percent_100.

Definition min_net_usage_delta_between_base_and_max_for_trx : Z := 10 * 1024.
End Config.

(** ** Producer-voted parameters *)

Module ChainConfig.
Import Config.

Record chain_config := {
  max_block_net_usage : Z;
  target_block_net_usage_pct : Z;
  max_transaction_net_usage : Z;
  base_per_transaction_net_usage : Z;
  net_usage_leeway : Z;
  context_free_discount_net_usage_num : Z;
  context_free_discount_net_usage_den : Z;
  max_block_cpu_usage : Z;
  target_block_cpu_usage_pct : Z;
  max_transaction_cpu_usage : Z;
  min_transaction_cpu_usage : Z;
  max_transaction_lifetime : Z;
  deferred_trx_expiration_window : Z;
  max_transaction_delay : Z;
  max_inline_action_size : Z;
  max_inline_action_depth : Z;
  max_authority_depth : Z
}.

(** The differences are computed in [uint32_t]. *)
Definition validate (c : chain_config) : result exn unit :=
  let check b := assert_that b action_validate_exception in
  _ ← check (target_block_net_usage_pct c <=? percent_100);
  _ ← check (percent_1 / 10 <=? target_block_net_usage_pct c);
  _ ← check (target_block_cpu_usage_pct c <=? percent_100);
  _ ← check (percent_1 / 10 <=? target_block_cpu_usage_pct c);
  _ ← check (max_transaction_net_usage c <? max_block_net_usage c);
  _ ← check (max_transaction_cpu_usage c <? max_block_cpu_usage c);
  _ ← check (base_per_transaction_net_usage c <? max_transaction_net_usage c);
  _ ← check (min_net_usage_delta_between_base_and_max_for_trx <=?
             u32 (max_transaction_net_usage c - base_per_transaction_net_usage c));
  _ ← check (0 <? context_free_discount_net_usage_den c);
  _ ← check (context_free_discount_net_usage_num c <=? context_free_discount_net_usage_den c);
  _ ← check (min_transaction_cpu_usage c <=? max_transaction_cpu_usage c);
  _ ← check (max_transaction_cpu_usage c <?
             u32 (max_block_cpu_usage c - min_transaction_cpu_usage c));
  check (1 <=? max_authority_depth c).

(** [operator ==]: the tuples compared list [max_transaction_cpu_usage] twice. *)
Definition tied (c : chain_config) : list Z :=
  [ max_block_net_usage c; target_block_net_usage_pct c; max_transaction_net_usage c;
    base_per_transaction_net_usage c; net_usage_leeway c;
    context_free_discount_net_usage_num c; context_free_discount_net_usage_den c;
    max_block_cpu_usage c; target_block_cpu_usage_pct c;
    max_transaction_cpu_usage c; max_transaction_cpu_usage c;
    max_transaction_lifetime c; deferred_trx_expiration_window c; max_transaction_delay c;
    max_inline_action_size c; max_inline_action_depth c; max_authority_depth c ].

Definition eqb (lhs rhs : chain_config) : bool := bool_decide (tied lhs = tied rhs).

(** Every field is in the range of its C++ type. *)
Definition u32_fields (c : chain_config) : list Z :=
  [ target_block_net_usage_pct c; max_transaction_net_usage c;
    base_per_transaction_net_usage c; net_usage_leeway c;
    context_free_discount_net_usage_num c; context_free_discount_net_usage_den c;
    max_block_cpu_usage c; target_block_cpu_usage_pct c;
    max_transaction_cpu_usage c; min_transaction_cpu_usage c;
    max_transaction_lifetime c; deferred_trx_expiration_window c; max_transaction_delay c;
    max_inline_action_size c ].

Definition wf (c : chain_config) : Prop :=
  0 ≤ max_block_net_usage c < 2 ^ 64 ∧ Forall (λ z, 0 ≤ z < 2 ^ 32) (u32_fields c) ∧
  0 ≤ max_inline_action_depth c < 2 ^ 16 ∧ 0 ≤ max_authority_depth c < 2 ^ 16.

Lemma assert_then {E} (b : bool) (e : E) (k : result E unit) (P : Prop) :
  (b = true → k = Ok tt ↔ P) → (_ ← assert_that b e; k) = Ok tt ↔ b = true ∧ P.
Proof. destruct b; cbn; intros H; [rewrite H by done; tauto|]. split; [done|intros [? _]; done]. Qed.

(** [validate] accepts a configuration exactly when the documented relations between
    its fields hold as integers; neither of the two [uint32_t] subtractions it makes ever
    wraps around on a configuration it accepts. *)
Theorem chain_config_validate_spec c : wf c →
  validate c = Ok tt ↔
    10 ≤ target_block_net_usage_pct c ≤ 10000 ∧ 10 ≤ target_block_cpu_usage_pct c ≤ 10000 ∧
    max_transaction_net_usage c < max_block_net_usage c ∧
    base_per_transaction_net_usage c + 10240 ≤ max_transaction_net_usage c ∧
    0 < context_free_discount_net_usage_den c ∧
    context_free_discount_net_usage_num c ≤ context_free_discount_net_usage_den c ∧
    min_transaction_cpu_usage c ≤ max_transaction_cpu_usage c ∧
    max_transaction_cpu_usage c + min_transaction_cpu_usage c < max_block_cpu_usage c ∧
    1 ≤ max_authority_depth c.
Proof.
  intros (_ & Hf & _). unfold u32_fields in Hf. rewrite !Forall_cons in Hf.
  destruct_and! Hf. unfold validate.
  repeat setoid_rewrite assert_then; [|reflexivity..].
  unfold min_net_usage_delta_between_base_and_max_for_trx, percent_100.
  change (percent_1 / 10) with 10.
  rewrite assert_that_Ok, !Z.leb_le, !Z.ltb_lt. split.
  - intros. destruct_and!. width_simpl. lia.
  - intros. rewrite !u32_id by lia. lia.
Qed.

(** The parameters of the default genesis ([genesis_state.hpp]). *)
Definition default_config : chain_config := {|
  max_block_net_usage := 1024 * 1024; target_block_net_usage_pct := 1000;
  max_transaction_net_usage := 512 * 1024; base_per_transaction_net_usage := 12;
  net_usage_leeway := 500; context_free_discount_net_usage_num := 20;
  context_free_discount_net_usage_den := 100; max_block_cpu_usage := 1000000;
  target_block_cpu_usage_pct := 1000; max_transaction_cpu_usage := 500000;
  min_transaction_cpu_usage := 100; max_transaction_lifetime := 3600;
  deferred_trx_expiration_window := 600; max_transaction_delay := 45 * 24 * 3600;
  max_inline_action_size := 4096; max_inline_action_depth := 4; max_authority_depth := 6 |}.

Lemma default_config_wf : wf default_config.
Proof. repeat split; repeat constructor; cbn; lia. Qed.

Lemma chain_config_validate_spec_witness : validate default_config = Ok tt.
Proof. apply (chain_config_validate_spec default_config default_config_wf); cbn; lia. Defined.

Definition with_min_cpu (n : Z) (c : chain_config) : chain_config :=
  {| max_block_net_usage := max_block_net_usage c;
     target_block_net_usage_pct := target_block_net_usage_pct c;
     max_transaction_net_usage := max_transaction_net_usage c;
     base_per_transaction_net_usage := base_per_transaction_net_usage c;
     net_usage_leeway := net_usage_leeway c;
     context_free_discount_net_usage_num := context_free_discount_net_usage_num c;
     context_free_discount_net_usage_den := context_free_discount_net_usage_den c;
     max_block_cpu_usage := max_block_cpu_usage c;
     target_block_cpu_usage_pct := target_block_cpu_usage_pct c;
     max_transaction_cpu_usage := max_transaction_cpu_usage c;
     min_transaction_cpu_usage := n;
     max_transaction_lifetime := max_transaction_lifetime c;
     deferred_trx_expiration_window := deferred_trx_expiration_window c;
     max_transaction_delay := max_transaction_delay c;
     max_inline_action_size := max_inline_action_size c;
     max_inline_action_depth := max_inline_action_depth c;
     max_authority_depth := max_authority_depth c |}.

(** [operator ==] identifies configurations that agree on every field other than
    [min_transaction_cpu_usage], and only those: a change of that field alone is not seen
    by it. *)
Theorem eqb_ignores_min_cpu lhs rhs :
  eqb lhs rhs = true ↔ with_min_cpu (min_transaction_cpu_usage rhs) lhs = rhs.
Proof.
  unfold eqb. rewrite bool_decide_eq_true. destruct lhs, rhs; unfold tied; cbn.
  split; intros H; injection H; intros; by subst.
Qed.
End ChainConfig.

(** ** Switches in the state database *)

Module ConfigOnChain.

(** [config_data_object], without the [id] chainbase assigns and the key [typ]. *)
Record config_data_object := { num : Z; key : Z; fee : Asset.asset }.

(** The table [config_data_object_index], by its unique index [by_name]. *)
Notation config_table := (gmap Z config_data_object).

Record setconfig := { cfg_typ : Z; cfg_num : Z; cfg_key : Z; cfg_fee : Asset.asset }.

Definition get_num_config_on_chain (db : config_table) (typ default_value : Z) : Z :=
  match db !! typ with
  | None => default_value
  | Some cfg => num cfg
  end.

(** The fields a new row does not set have their C++ defaults. *)
Definition set_num_config_on_chain (db : config_table) (typ n : Z) : config_table :=
  match db !! typ with
  | None => <[typ := {| num := n; key := 0; fee := Asset.core_asset 0 |}]> db
  | Some c => <[typ := {| num := n; key := key c; fee := fee c |}]> db
  end.

Definition set_config_on_chain (db : config_table) (cfg : setconfig) : config_table :=
  match db !! cfg_typ cfg with
  | None => <[cfg_typ cfg :=
      {| num := cfg_num cfg; key := cfg_key cfg; fee := cfg_fee cfg |}]> db
  | Some _ => <[cfg_typ cfg :=
      {| num := cfg_num cfg; key := cfg_key cfg; fee := cfg_fee cfg |}]> db
  end.

(** [auths] are the authorizations of the action. *)
Definition apply_eosio_setconfig (auths : list Action.permission_level) (db : config_table)
    (cfg_data : setconfig) : result exn config_table :=
  if negb (Action.has_authorization auths Config.chain_config_name)
     && negb (Action.has_authorization auths Config.system_account_name)
     && negb (Action.has_authorization auths Config.producers_account_name)
  then Throw missing_auth_exception
  else Ok (set_config_on_chain db cfg_data).

Definition is_func_has_open (db : config_table) (head_num func_typ default_open_block : Z) : bool :=
  let open_num := get_num_config_on_chain db func_typ (-1) in
  (0 <=? head_num) &&
  (((0 <=? open_num) && (open_num <=? head_num))
   || ((open_num =? -1) && negb (default_open_block =? 0) && (default_open_block <=? head_num))).

Definition is_func_open_in_curr_block (db : config_table)
    (head_num func_typ default_open_block : Z) : bool :=
  let open_num := get_num_config_on_chain db func_typ (-1) in
  if open_num <? 0 then (0 <? default_open_block) && (head_num =? default_open_block)
  else if head_num <? 0 then false
  else head_num =? open_num.

Lemma get_set_num db t n t' d : get_num_config_on_chain (set_num_config_on_chain db t n) t' d =
  if decide (t = t') then n else get_num_config_on_chain db t' d.
Proof.
  unfold get_num_config_on_chain, set_num_config_on_chain.
  destruct (db !! t); case_decide; subst;
    rewrite ?lookup_insert_eq, ?lookup_insert_ne by done; done.
Qed.

Lemma get_set_config db cfg t d : get_num_config_on_chain (set_config_on_chain db cfg) t d =
  if decide (cfg_typ cfg = t) then cfg_num cfg else get_num_config_on_chain db t d.
Proof.
  unfold get_num_config_on_chain, set_config_on_chain.
  destruct (db !! cfg_typ cfg); case_decide; subst;
    rewrite ?lookup_insert_eq, ?lookup_insert_ne by done; done.
Qed.

(** A switch whose stored number is not below -1 opens once and stays open: it is
    open at exactly the blocks from its opening block on, and
    [is_func_open_in_curr_block] recognises exactly the first of them.  With a stored
    number below -1 the two functions disagree on the meaning of the default block: the
    second still fires there while the first reports the switch closed for ever. *)
Theorem switch_opens_once db func_typ default_open_block head_num :
  0 ≤ head_num → 0 ≤ default_open_block →
  let stored := get_num_config_on_chain db func_typ (-1) in
  let has_open h := is_func_has_open db h func_typ default_open_block in
  if -1 <=? stored
  then (∀ h, head_num ≤ h → has_open head_num = true → has_open h = true) ∧
       is_func_open_in_curr_block db head_num func_typ default_open_block =
         has_open head_num && negb (has_open (head_num - 1))
  else has_open head_num = false ∧
       is_func_open_in_curr_block db head_num func_typ default_open_block =
         (0 <? default_open_block) && (head_num =? default_open_block).
Proof.
  intros Hh Hd. cbv zeta. unfold is_func_has_open, is_func_open_in_curr_block.
  generalize (get_num_config_on_chain db func_typ (-1)) as n. intros n.
  destruct (Z.leb_spec (-1) n) as [Hn|Hn]; split.
  - intros h Hle. rewrite !andb_true_iff, !orb_true_iff, !andb_true_iff, !negb_true_iff.
    rewrite !Z.leb_le, !Z.eqb_eq, !Z.eqb_neq. lia.
  - apply eq_bool_prop_intro. destruct (Z.ltb_spec n 0).
    all: try (destruct (Z.ltb_spec head_num 0); [lia|]).
    all: rewrite !Is_true_true, !andb_true_iff, !negb_true_iff, <-not_true_iff_false,
      !andb_true_iff, !orb_true_iff, !andb_true_iff, !negb_true_iff;
      rewrite ?Z.leb_le, ?Z.ltb_lt, ?Z.eqb_eq, ?Z.eqb_neq; lia.
  - apply not_true_is_false.
    rewrite !andb_true_iff, !orb_true_iff, !andb_true_iff, !Z.leb_le, Z.eqb_eq. lia.
  - destruct (Z.ltb_spec n 0); [done|lia].
Qed.

Lemma switch_opens_once_witness :
  let db := set_num_config_on_chain ∅ (Name.N "f.onfeeact") 100 in
  is_func_open_in_curr_block db 100 (Name.N "f.onfeeact") 7 = true ∧
  is_func_has_open db 5000 (Name.N "f.onfeeact") 7 = true.
Proof.
  pose proof (switch_opens_once (set_num_config_on_chain ∅ (Name.N "f.onfeeact") 100)
    (Name.N "f.onfeeact") 7 100 ltac:(lia) ltac:(lia)) as [H1 H2].
  split; [exact H2 | apply H1; [lia | reflexivity]].
Defined.
End ConfigOnChain.
