(* ===== verification/TxFee.v ===== *)
(** * Transaction fees

    Models the fee schedule of the chain: the native fees and the lookup of
    [txfee_manager.cpp]/[txfee_manager.hpp], the fees contracts set with [setfee]
    ([apply_eosio_setfee], [eosio_contract.cpp]), and the part of
    [transaction_context.cpp] that charges the fee of each action and derives the
    resource limits it buys. *)

From S2P Require Import Prelude.
From S2P Require Import Exceptions.
From S2P Require Import Name.
From S2P Require Import Asset.
From S2P Require Import Action.
From S2P Require Import ChainConfig.

Local Open Scope Z_scope.

Module TxFee.
Import Config.

(** ** Native fees *)

Notation fee_map := (gmap (Z * Z) Asset.asset).

Definition init_native_fee (m : fee_map) (f : Z * string * Z) : fee_map :=
  let '(acc, act, fee) := f in <[(acc, Name.N act) := Asset.core_asset fee]> m.

(** The calls of the constructor [txfee_manager::txfee_manager], in its order. *)
Definition native_fees : list (Z * string * Z) :=
  [ (system_account_name, "newaccount", 1000); (system_account_name, "updateauth", 1000);
    (system_account_name, "deleteauth", 1000); (system_account_name, "transfer", 100);
    (system_account_name, "vote", 500); (system_account_name, "unfreeze", 100);
    (system_account_name, "vote4ram", 500); (system_account_name, "unfreezeram", 100);
    (system_account_name, "claim", 300); (system_account_name, "updatebp", 100 * 10000);
    (system_account_name, "setemergency", 10 * 10000);
    (token_account_name, "transfer", 100); (token_account_name, "issue", 100);
    (token_account_name, "create", 10 * 10000); (system_account_name, "removebp", 100 * 10000);
    (system_account_name, "setabi", 1000); (system_account_name, "setfee", 1000);
    (system_account_name, "setcode", 1000); (system_account_name, "setconifg", 100);
    (system_account_name, "canceldelay", 5000); (system_account_name, "linkauth", 5000);
    (system_account_name, "unlinkauth", 5000); (system_account_name, "heartbeat", 100);
    (msig_account_name, "propose", 15000); (msig_account_name, "approve", 10000);
    (msig_account_name, "unapprove", 10000); (msig_account_name, "cancel", 10000);
    (msig_account_name, "exec", 10000) ]%string.

Definition txfee_manager : fee_map := foldl init_native_fee ∅ native_fees.

Definition get_native_fee (acc act : Z) : Asset.asset :=
  match txfee_manager !! (acc, act) with
  | Some fee => fee
  | None => Asset.core_asset 0
  end.

(** ** Fees set by contracts *)

(** [action_fee_object] without its id, by the unique index [by_action_name]. *)
Record action_fee_object := {
  fee : Asset.asset;
  cpu_limit : Z;
  net_limit : Z;
  ram_limit : Z
}.

Notation fee_table := (gmap (Z * Z) action_fee_object).

Record setfee := {
  sf_account : Z;
  sf_action : Z;
  sf_fee : Asset.asset;
  sf_cpu_limit : Z;
  sf_net_limit : Z;
  sf_ram_limit : Z
}.

Definition apply_eosio_setfee (auths : list Action.permission_level) (db : fee_table)
    (act : setfee) : result exn fee_table :=
  _ ← (if (sf_cpu_limit act =? 0) && (sf_net_limit act =? 0) && (sf_ram_limit act =? 0)
       then if negb (Action.has_authorization auths (Name.N "force.test"))
            then Action.require_authorization auths (sf_account act)
            else Ok tt
       else Action.require_authorization auths (Name.N "force.test"));
  _ ← assert_that (0 <? Asset.amount (sf_fee act)) invalid_action_args_exception;
  _ ← assert_that (Asset.amount (sf_fee act) <=? 200 * 10000) invalid_action_args_exception;
  let key := (sf_account act, sf_action act) in
  match db !! key with
  | None =>
      Ok (<[key := {| fee := sf_fee act; cpu_limit := sf_cpu_limit act;
                      net_limit := sf_net_limit act; ram_limit := sf_ram_limit act |}]> db)
  | Some _ =>
      Ok (<[key := {| fee := sf_fee act; cpu_limit := sf_cpu_limit act;
                      net_limit := sf_net_limit act; ram_limit := sf_ram_limit act |}]> db)
  end.

(** ** The fee an action requires *)

(** The actions of other accounts that pay the fee of the system action of their name. *)
Definition renamed (account act : Z) : bool :=
  ((act =? Name.N "newaccount") &&
   ((account =? Name.N "eosio.bios") || (account =? Name.N "eosio.token"))) ||
  ((act =? Name.N "transfer") &&
   ((account =? Name.N "victor") || (account =? Name.N "eosvictor"))).

Definition get_required_fee (db : fee_table) (account act : Z) : result exn Asset.asset :=
  let zero := Asset.core_asset 0 in
  let native_fee := get_native_fee system_account_name act in
  if renamed account act && negb (Asset.eqb native_fee zero) then Ok native_fee else
  let native_fee := get_native_fee account act in
  let native :=
    if negb (Asset.eqb native_fee zero) then Ok native_fee
    else Throw action_validate_exception in
  match db !! (account, act) with
  | Some fee_in_db => if negb (Asset.eqb (fee fee_in_db) zero) then Ok (fee fee_in_db) else native
  | None => native
  end.

Definition get_required_fee_action (db : fee_table) (act : Action.action) :=
  get_required_fee db (Action.account act) (Action.name act).

Definition get_required_fee_transaction (db : fee_table) (actions : list Action.action) :
    result exn Asset.asset :=
  foldM (λ fee act, f ← get_required_fee_action db act; Asset.add_assign fee f)
    (Asset.core_asset 0) actions.

(** ** Charging the fee of each action *)

(** [fee_paramter], the data of a fee action. *)
Record fee_paramter := { fp_name : Z; fp_fee : Asset.asset; fp_producer : Z }.

(** The fee action [mk_fee_action] builds, its data not serialized. *)
Record fee_action := {
  fa_authorization : Action.permission_level;
  fa_account : Z;
  fa_name : Z;
  fa_data : fee_paramter
}.

(** The fields of [transaction_context] that concern fees, with the fee actions it has
    scheduled so far. *)
Record trx_fee := {
  fee_payer : Z;
  fee_costed : Asset.asset;
  max_fee_to_pay : Asset.asset;
  use_limit_by_contract : bool;
  cpu_limit_by_contract : Z;
  net_limit_by_contract : Z;
  fee_actions : list fee_action
}.

Definition set_limits (t : trx_fee) (use : bool) (cpu net : Z) : trx_fee := {|
  fee_payer := fee_payer t; fee_costed := fee_costed t; max_fee_to_pay := max_fee_to_pay t;
  use_limit_by_contract := use; cpu_limit_by_contract := cpu; net_limit_by_contract := net;
  fee_actions := fee_actions t |}.

(** [trx.actions[0]] is out of bounds, undefined, on a transaction without actions. *)
Definition make_fee_act (t : trx_fee) (actions : list Action.action) (fee_limit : Asset.asset) :
    option (result exn trx_fee) :=
  match actions with
  | [] => None
  | act :: _ => Some
      match Action.authorization act with
      | [] => Throw transaction_exception
      | auth :: _ =>
          _ ← assert_that (negb (Action.actor auth =? 0)) transaction_exception;
          Ok {| fee_payer := Action.actor auth; fee_costed := Asset.core_asset 0;
                max_fee_to_pay := fee_limit;
                use_limit_by_contract := use_limit_by_contract t;
                cpu_limit_by_contract := cpu_limit_by_contract t;
                net_limit_by_contract := net_limit_by_contract t;
                fee_actions := fee_actions t |}
      end
  end.

(** One iteration of the loop of [make_limit_by_contract]; the fee that still buys
    resources is [calc_res_fee]. *)
Definition limit_step (fees : fee_table) (st : trx_fee * Asset.asset) (act : Action.action) :
    result exn (trx_fee * Asset.asset) :=
  let '(t, calc_res_fee) := st in
  match fees !! (Action.account act, Action.name act) with
  | None => Ok (t, calc_res_fee)
  | Some info =>
      if (0 <? cpu_limit info) || (0 <? net_limit info) || (0 <? ram_limit info)
      then Ok (set_limits t true (u64 (cpu_limit_by_contract t + cpu_limit info))
                 (u64 (net_limit_by_contract t + net_limit info)), calc_res_fee)
      else
        calc_res_fee ← Asset.add_assign calc_res_fee (fee info);
        Ok (set_limits t true (cpu_limit_by_contract t) (net_limit_by_contract t), calc_res_fee)
  end.

Definition make_limit_by_contract (fees : fee_table) (cfg : gmap Z ConfigOnChain.config_data_object)
    (t : trx_fee) (actions : list Action.action) (fee_ext : Asset.asset) : result exn trx_fee :=
  '(t, calc_res_fee) ← foldM (limit_step fees) (set_limits t false 0 0, fee_ext) actions;
  positive ← Asset.gtb calc_res_fee (Asset.core_asset 0);
  if positive && use_limit_by_contract t then
    let m := Z.quot (Asset.amount calc_res_fee) 100 in
    let num typ d := ConfigOnChain.get_num_config_on_chain cfg (Name.N typ) d in
    Ok (set_limits t (use_limit_by_contract t)
          (u64 (cpu_limit_by_contract t + m * num "res.cpufee"%string 100))
          (u64 (net_limit_by_contract t + m * num "res.netfee"%string 10000)))
  else Ok t.

Definition add_limit_by_fee (fees : fee_table) (cfg : gmap Z ConfigOnChain.config_data_object)
    (t : trx_fee) (act : Action.action) : trx_fee :=
  match fees !! (Action.account act, Action.name act) with
  | None => t
  | Some info =>
      let m := Z.quot (Asset.amount (fee info)) 100 in
      let num typ d := ConfigOnChain.get_num_config_on_chain cfg (Name.N typ) d in
      let '(cpu_limit_by_act, net_limit_by_act) :=
        if (0 <? cpu_limit info) || (0 <? net_limit info)
        then (cpu_limit info, net_limit info)
        else (u64 (m * num "res.cpufee"%string 200), u64 (m * num "res.netfee"%string 512)) in
      set_limits t true (u64 (cpu_limit_by_contract t + cpu_limit_by_act))
        (u64 (net_limit_by_contract t + net_limit_by_act))
  end.

Section charge.
(** [fc::raw::unpack] of an [account_name]. *)
Context (unpack_name : list Z → result exn Z).
Context (fees : fee_table) (cfg : gmap Z ConfigOnChain.config_data_object) (head_num : Z).
(** [trx.transaction_extensions]: identifiers and packed data. *)
Context (transaction_extensions : list (Z * list Z)).

(** [transaction::voteage_fee] *)
Definition voteage_fee : Z := 2.

Fixpoint get_from_extensions (exts : list (Z * list Z)) (typ : Z) : result exn (option Z) :=
  match exts with
  | [] => Ok None
  | (id, packed) :: rest =>
      if id =? typ then res ← unpack_name packed; Ok (Some res)
      else get_from_extensions rest typ
  end.

Definition mk_fee_action (payer : Z) (fee : Asset.asset) : result exn fee_action :=
  bp ← (if ConfigOnChain.is_func_has_open cfg head_num (Name.N "f.votagen") 0
           && (0 <? Z.of_nat (length transaction_extensions))
        then get_from_extensions transaction_extensions voteage_fee
        else Ok (None : option Z));
  Ok {| fa_authorization := Action.MkLevel payer active_name;
        fa_account := system_account_name;
        fa_name := match bp with Some _ => Name.N "voteagefee" | None => Name.N "onfee" end;
        fa_data := {| fp_name := payer; fp_fee := fee; fp_producer := default 0 bp |} |}.

Definition is_need_fee_action (t : trx_fee) : bool := negb (fee_payer t =? 0).

Definition schedule_fee_action (t : trx_fee) (act : Action.action) : result exn trx_fee :=
  if is_need_fee_action t then
    fee ← get_required_fee_action fees act;
    fee_act ← mk_fee_action (fee_payer t) fee;
    _ ← assert_that (negb (ConfigOnChain.get_num_config_on_chain cfg (fee_payer t) (-1) =? 1))
          transaction_exception;
    costed ← Asset.add_assign (fee_costed t) fee;
    _ ← (if negb (Asset.eqb (max_fee_to_pay t) (Asset.core_asset 0))
         then le ← Asset.leb costed (max_fee_to_pay t); assert_that le transaction_exception
         else Ok tt);
    let t := add_limit_by_fee fees cfg
      {| fee_payer := fee_payer t; fee_costed := costed; max_fee_to_pay := max_fee_to_pay t;
         use_limit_by_contract := use_limit_by_contract t;
         cpu_limit_by_contract := cpu_limit_by_contract t;
         net_limit_by_contract := net_limit_by_contract t;
         fee_actions := fee_actions t |} act in
    fee_act ← mk_fee_action (fee_payer t) fee;
    Ok {| fee_payer := fee_payer t; fee_costed := fee_costed t;
          max_fee_to_pay := max_fee_to_pay t;
          use_limit_by_contract := use_limit_by_contract t;
          cpu_limit_by_contract := cpu_limit_by_contract t;
          net_limit_by_contract := net_limit_by_contract t;
          fee_actions := fee_actions t ++ [fee_act] |}
  else Ok t.

(** The fee actions [exec] schedules ahead of the actions of a list. *)
Definition schedule_fee_actions (t : trx_fee) (actions : list Action.action) : result exn trx_fee :=
  foldM schedule_fee_action t actions.
End charge.

(** The check [finalize] makes of the billed resources. *)
Definition check_limit_by_contract (t : trx_fee) (billed_cpu_time_us net_usage : Z) :
    result exn unit :=
  if use_limit_by_contract t then
    _ ← assert_that (billed_cpu_time_us <=? cpu_limit_by_contract t) tx_cpu_usage_exceeded;
    assert_that (net_usage <=? net_limit_by_contract t) tx_net_usage_exceeded
  else Ok tt.
(** ** The fee schedule *)

(** The tables of fees [setfee] actions build up from the empty one. *)
Inductive fee_reachable : fee_table → Prop :=
  | reach_empty : fee_reachable ∅
  | reach_setfee db auths act db' :
      fee_reachable db → apply_eosio_setfee auths db act = Ok db' → fee_reachable db'.

Lemma apply_eosio_setfee_Ok auths db act db' : apply_eosio_setfee auths db act = Ok db' →
  0 < Asset.amount (sf_fee act) ≤ 2000000 ∧
  db' = <[(sf_account act, sf_action act) :=
           {| fee := sf_fee act; cpu_limit := sf_cpu_limit act;
              net_limit := sf_net_limit act; ram_limit := sf_ram_limit act |}]> db.
Proof.
  unfold apply_eosio_setfee. intros H.
  apply bind_Ok in H as (? & _ & H). apply bind_Ok in H as (? & H1 & H).
  apply bind_Ok in H as (? & H2 & H). apply assert_that_Ok in H1, H2.
  apply Z.ltb_lt in H1. apply Z.leb_le in H2.
  split; [lia|]. destruct (db !! _); congruence.
Qed.

Lemma fee_reachable_bounds db k r : fee_reachable db → db !! k = Some r →
  0 < Asset.amount (fee r) ≤ 2000000.
Proof.
  intros Hr. revert k r. induction Hr as [|db auths act db' _ IH Hs]; intros k r Hk.
  - by rewrite lookup_empty in Hk.
  - apply apply_eosio_setfee_Ok in Hs as [Hb ->].
    apply lookup_insert_Some in Hk as [[_ <-]|[_ Hk]]; [done|eauto].
Qed.

Lemma native_fee_bounds k f : txfee_manager !! k = Some f → 0 < Asset.amount f ≤ 1000000.
Proof.
  unfold txfee_manager. assert (Forall (λ x, 0 < x.2 ≤ 1000000) native_fees) as Hall.
  { repeat (apply Forall_cons; split; [cbn; lia|]). by apply Forall_nil. }
  assert (∀ k f, (∅ : fee_map) !! k = Some f → 0 < Asset.amount f ≤ 1000000) as Hm.
  { intros k' f' H. by rewrite lookup_empty in H. }
  revert Hm. generalize (∅ : fee_map). induction Hall as [|[[acc act] n] l Hn _ IH]; cbn.
  - eauto.
  - intros m Hm. apply IH. intros k' f' H.
    apply lookup_insert_Some in H as [[_ <-]|[_ H]]; [exact Hn|eauto].
Qed.

(** Only evaluated by [vm_compute] from here on. *)
#[local] Opaque txfee_manager.

Lemma eqb_zero f : 0 < Asset.amount f → Asset.eqb f (Asset.core_asset 0) = false.
Proof.
  intros Hf. unfold Asset.eqb. cbn [Asset.core_asset Asset.amount].
  rewrite (proj2 (Z.eqb_neq (Asset.amount f) 0)) by lia. apply andb_false_r.
Qed.

(** The lookups of [get_required_fee] on a reachable table: the fee of the system action
    for a renamed one, else the fee set by a contract, else the native one. *)
Lemma get_required_fee_eq db account act : fee_reachable db →
  get_required_fee db account act =
    if renamed account act && bool_decide (is_Some (txfee_manager !! (system_account_name, act)))
    then Ok (get_native_fee system_account_name act)
    else match db !! (account, act), txfee_manager !! (account, act) with
         | Some r, _ => Ok (fee r)
         | None, Some f => Ok f
         | None, None => Throw action_validate_exception
         end.
Proof.
  intros Hr. unfold get_required_fee.
  assert (∀ acc, negb (Asset.eqb (get_native_fee acc act) (Asset.core_asset 0)) =
    bool_decide (is_Some (txfee_manager !! (acc, act)))) as Hn.
  { intros acc. unfold get_native_fee. destruct (txfee_manager !! (acc, act)) as [f|] eqn:Hf.
    - rewrite eqb_zero by (apply native_fee_bounds in Hf; lia).
      by rewrite bool_decide_true by eauto.
    - rewrite bool_decide_false; [done|]. by apply eq_None_not_Some. }
  rewrite !Hn. destruct (renamed account act && _); [done|].
  assert ((if bool_decide (is_Some (txfee_manager !! (account, act)))
      then Ok (get_native_fee account act) else Throw action_validate_exception) =
    match txfee_manager !! (account, act) with
    | Some f => Ok f | None => Throw action_validate_exception end) as ->.
  { unfold get_native_fee. by destruct (txfee_manager !! (account, act)). }
  destruct (db !! (account, act)) as [r|] eqn:Hk; [|done].
  by rewrite eqb_zero by (eapply fee_reachable_bounds in Hk; [lia|done]).
Qed.

Lemma required_fee_Ok_bounds db account act f : fee_reachable db →
  get_required_fee db account act = Ok f → 0 < Asset.amount f ≤ 2000000.
Proof.
  intros Hr. rewrite get_required_fee_eq by done.
  destruct (renamed account act && _) eqn:Hc.
  - apply andb_true_iff in Hc as [_ [f' Hf]%bool_decide_eq_true].
    unfold get_native_fee. rewrite Hf. intros [= <-]. apply native_fee_bounds in Hf. lia.
  - destruct (db !! (account, act)) eqn:Hk, (txfee_manager !! (account, act)) eqn:Hf;
      intros [= <-].
    1,2: by eapply fee_reachable_bounds.
    apply native_fee_bounds in Hf. lia.
Qed.

(** Whatever fees the [setfee] actions have set, an action either costs a positive fee
    of at most 200.0000 EOS, or is rejected; it is rejected exactly when there is neither a
    fee set for it nor a native one (not even one it inherits under another name). *)
Theorem required_fee_spec db account act : fee_reachable db →
  match get_required_fee db account act with
  | Ok f => 0 < Asset.amount f ≤ 200 * 10000
  | Throw e =>
      e = action_validate_exception ∧
      db !! (account, act) = None ∧ txfee_manager !! (account, act) = None ∧
      (renamed account act = true → txfee_manager !! (system_account_name, act) = None)
  end.
Proof.
  intros Hr. destruct (get_required_fee db account act) as [f|e] eqn:Hg.
  - by eapply required_fee_Ok_bounds.
  - rewrite get_required_fee_eq in Hg by done.
    destruct (renamed account act && _) eqn:Hc; [done|].
    destruct (db !! (account, act)), (txfee_manager !! (account, act)); try done.
    injection Hg as <-. split_and!; [done..|]. intros Hn. rewrite Hn in Hc.
    apply bool_decide_eq_false in Hc. by apply eq_None_not_Some.
Qed.

(** A user's fee for an action of its own contract. *)
Definition alice : Z := Name.N "alice".
Definition user_fee : setfee := {|
  sf_account := alice; sf_action := Name.N "play"; sf_fee := Asset.core_asset 2500;
  sf_cpu_limit := 0; sf_net_limit := 0; sf_ram_limit := 0 |}.
Definition user_fees : fee_table :=
  {[ (alice, Name.N "play") :=
     {| fee := Asset.core_asset 2500; cpu_limit := 0; net_limit := 0; ram_limit := 0 |} ]}.

Lemma user_fees_reachable : fee_reachable user_fees.
Proof.
  apply (reach_setfee ∅ [Action.MkLevel alice active_name] user_fee); [constructor|].
  vm_compute. reflexivity.
Qed.

Lemma required_fee_spec_witness :
  get_required_fee user_fees alice (Name.N "play") = Ok (Asset.core_asset 2500) ∧
  0 < Asset.amount (Asset.core_asset 2500) ≤ 200 * 10000.
Proof.
  assert (get_required_fee user_fees alice (Name.N "play") = Ok (Asset.core_asset 2500)) as Hg.
  { vm_compute. reflexivity. }
  split; [exact Hg|].
  pose proof (required_fee_spec user_fees alice (Name.N "play") user_fees_reachable) as H.
  rewrite Hg in H. exact H.
Defined.

(** A [setfee] action changes the fee of the action it names, and of no other, and
    what [get_required_fee] then answers for it is the fee it set (unless the action is
    one of those that pay the system action's fee). *)
Theorem setfee_takes_effect db auths act db' account name :
  fee_reachable db → apply_eosio_setfee auths db act = Ok db' →
  get_required_fee db' account name =
    if bool_decide (account = sf_account act ∧ name = sf_action act)
       && negb (renamed account name
                && bool_decide (is_Some (txfee_manager !! (system_account_name, name))))
    then Ok (sf_fee act) else get_required_fee db account name.
Proof.
  intros Hr Hs. assert (fee_reachable db') as Hr' by (by eapply reach_setfee).
  apply apply_eosio_setfee_Ok in Hs as [_ ->].
  rewrite !get_required_fee_eq by done.
  destruct (renamed account name && _); cbn; [by rewrite andb_false_r|].
  rewrite andb_true_r. case_bool_decide as Hk.
  - destruct Hk as [-> ->]. by rewrite lookup_insert_eq.
  - rewrite lookup_insert_ne by (intros [=]; naive_solver). done.
Qed.

Lemma setfee_takes_effect_witness :
  get_required_fee user_fees alice (Name.N "play") = Ok (Asset.core_asset 2500).
Proof.
  rewrite (setfee_takes_effect ∅ [Action.MkLevel alice active_name] user_fee user_fees
    alice (Name.N "play") reach_empty ltac:(vm_compute; reflexivity)).
  vm_compute. reflexivity.
Defined.

(** The actions of the system account with a handler in the node ([SET_APP_HANDLER],
    [controller.cpp]) that users push; [onfee] and [voteagefee] are generated. *)
Definition native_handlers : list string :=
  ["newaccount"; "setcode"; "setconfig"; "setfee"; "setabi"; "updateauth"; "deleteauth";
   "linkauth"; "unlinkauth"; "canceldelay"]%string.

(** Of the actions the node handles natively, [setconfig] alone has no native fee: the
    constructor registers the fee under the misspelt name [setconifg], so until a fee is
    set for it with [setfee] the action is rejected. *)
Theorem setconfig_has_no_native_fee :
  (∀ act, act ∈ native_handlers →
     get_required_fee ∅ system_account_name (Name.N act) = Throw action_validate_exception ↔
     act = "setconfig"%string) ∧
  get_required_fee ∅ system_account_name (Name.N "setconfig") = Throw action_validate_exception ∧
  get_required_fee ∅ system_account_name (Name.N "setconifg") = Ok (Asset.core_asset 100).
Proof.
  split; [|split; vm_compute; reflexivity].
  apply Forall_forall. unfold native_handlers.
  repeat (apply Forall_cons; split; [vm_compute; split; congruence|]).
  by apply Forall_nil.
Qed.

(** ** What a transaction is charged *)

Definition fees_of (l : list fee_action) : list Z := (λ a, Asset.amount (fp_fee (fa_data a))) <$> l.
Definition total (l : list Z) : Z := foldr Z.add 0 l.

Lemma total_app l k : total (l ++ k) = total l + total k.
Proof. unfold total. induction l as [|x l IH]; cbn; [done|]. rewrite IH. lia. Qed.

Section charged.
Context (unpack_name : list Z → result exn Z) (fees : fee_table).
Context (cfg : gmap Z ConfigOnChain.config_data_object) (head_num : Z).
Context (exts : list (Z * list Z)).
Hypothesis (Hreach : fee_reachable fees).
Let schedule := schedule_fee_action unpack_name fees cfg head_num exts.

(** A fee action: who pays, with which permission, to which account. *)
Definition pays_from (payer : Z) (a : fee_action) : Prop :=
  fa_account a = system_account_name ∧ fa_authorization a = Action.MkLevel payer active_name ∧
  fp_name (fa_data a) = payer ∧ 0 < Asset.amount (fp_fee (fa_data a)).

Lemma mk_fee_action_Ok payer f a : mk_fee_action unpack_name cfg head_num exts payer f = Ok a →
  fa_account a = system_account_name ∧ fa_authorization a = Action.MkLevel payer active_name ∧
  fp_name (fa_data a) = payer ∧ fp_fee (fa_data a) = f.
Proof. unfold mk_fee_action. intros H. apply bind_Ok in H as (? & _ & H). by injection H as <-. Qed.

Lemma add_limit_by_fee_frame t act : let t' := add_limit_by_fee fees cfg t act in
  fee_payer t' = fee_payer t ∧ fee_costed t' = fee_costed t ∧
  max_fee_to_pay t' = max_fee_to_pay t ∧ fee_actions t' = fee_actions t.
Proof.
  unfold add_limit_by_fee. destruct (fees !! _); [|done]. by destruct ((_ <? _) || _).
Qed.

(** One action: its required fee is added to the cost and the fee action appended. *)
Lemma schedule_fee_action_Ok t act t' : fee_payer t ≠ 0 → schedule t act = Ok t' →
  ∃ f a, get_required_fee_action fees act = Ok f ∧ 0 < Asset.amount f ≤ 2000000 ∧
    Asset.add_assign (fee_costed t) f = Ok (fee_costed t') ∧
    fee_payer t' = fee_payer t ∧ max_fee_to_pay t' = max_fee_to_pay t ∧
    fee_actions t' = fee_actions t ++ [a] ∧ pays_from (fee_payer t) a ∧
    fp_fee (fa_data a) = f ∧
    (max_fee_to_pay t ≠ Asset.core_asset 0 →
     Asset.amount (fee_costed t') ≤ Asset.amount (max_fee_to_pay t)).
Proof.
  intros Hp. unfold schedule, schedule_fee_action, is_need_fee_action.
  rewrite (proj2 (Z.eqb_neq _ _) Hp). cbn [negb]. intros H.
  apply bind_Ok in H as (f & Hf & H). apply bind_Ok in H as (_ & _ & H).
  apply bind_Ok in H as (_ & _ & H). apply bind_Ok in H as (c & Hc & H).
  apply bind_Ok in H as ([] & Hm & H).
  match type of H with context [add_limit_by_fee fees cfg ?t0 act] =>
    pose proof (add_limit_by_fee_frame t0 act) as (E1 & E2 & E3 & E4) end.
  cbn in E1, E2, E3, E4. rewrite E1, E2, E3, E4 in H. apply bind_Ok in H as (a & Ha & H).
  injection H as <-. cbn. apply mk_fee_action_Ok in Ha as (Ha1 & Ha2 & Ha3 & Ha4).
  pose proof (required_fee_Ok_bounds _ _ _ _ Hreach Hf) as Hb.
  exists f, a. split_and!; try done; [lia|lia|split_and!; try done; rewrite Ha4; lia|].
  intros Hmax. unfold Asset.eqb in Hm at 1.
  destruct ((_ =? _) && _) eqn:He in Hm; cbn in Hm.
  { exfalso. apply Hmax. apply andb_true_iff in He as [H1%Z.eqb_eq H2%Z.eqb_eq].
    destruct (max_fee_to_pay t). cbn in *. by rewrite H1, H2. }
  apply bind_Ok in Hm as (le & Hle & Hm). apply assert_that_Ok in Hm. subst le.
  unfold Asset.leb, Asset.eqb in Hle. destruct ((_ =? _) && _) eqn:He2 in Hle.
  { apply andb_true_iff in He2 as [_ H2%Z.eqb_eq]. lia. }
  unfold Asset.ltb in Hle. apply bind_Ok in Hle as ([] & Hs & Hle).
  apply assert_that_Ok, Z.eqb_eq in Hs. injection Hle as Hle.
  rewrite orb_true_iff, andb_true_iff, Z.ltb_lt, Z.ltb_lt in Hle. lia.
Qed.

Lemma schedule_fee_actions_Ok actions : ∀ t t', fee_payer t ≠ 0 →
  foldM schedule t actions = Ok t' →
  0 ≤ Asset.amount (fee_costed t) →
  Asset.amount (fee_costed t) + 2000000 * Z.of_nat (length actions) < 2 ^ 63 →
  ∃ new, fee_actions t' = fee_actions t ++ new ∧ length new = length actions ∧
    Forall (pays_from (fee_payer t)) new ∧
    foldM (λ fee act, f ← get_required_fee_action fees act; Asset.add_assign fee f)
      (fee_costed t) actions = Ok (fee_costed t') ∧
    Asset.amount (fee_costed t') = Asset.amount (fee_costed t) + total (fees_of new) ∧
    (actions ≠ [] → max_fee_to_pay t ≠ Asset.core_asset 0 →
     Asset.amount (fee_costed t') ≤ Asset.amount (max_fee_to_pay t)).
Proof.
  induction actions as [|act actions IH]; cbn [foldM length]; intros t t' Hp Hs H0 Hlen.
  { injection Hs as <-. exists []. rewrite app_nil_r. cbn. split_and!; done || lia. }
  apply bind_Ok in Hs as (t1 & H1 & Hs).
  apply schedule_fee_action_Ok in H1 as (f & a & Hf & Hb & Hc & E1 & E2 & E3 & Ha & Hfa & Hm);
    [|done].
  assert (Asset.amount (fee_costed t1) = Asset.amount (fee_costed t) + Asset.amount f) as Hc1.
  { unfold Asset.add_assign in Hc. apply bind_Ok in Hc as (? & _ & Hc).
    injection Hc as <-. cbn. rewrite s64_id; lia. }
  destruct (IH t1 t') as (new & F1 & F2 & F3 & F4 & F5 & F6); [by rewrite E1|done|lia|lia|].
  rewrite E1 in F3. rewrite E3 in F1. rewrite E2 in F6. exists (a :: new).
  split_and!.
  - by rewrite F1, <-app_assoc.
  - cbn. by rewrite F2.
  - by apply Forall_cons.
  - rewrite Hf. cbn. by rewrite Hc.
  - change (total (fees_of (a :: new)))
      with (Asset.amount (fp_fee (fa_data a)) + total (fees_of new)).
    rewrite Hfa. lia.
  - intros _ Hmax. destruct actions as [|act' actions].
    + cbn in Hs. injection Hs as <-. by apply Hm.
    + by apply F6.
Qed.
End charged.

(** When [exec] schedules the fee actions of a transaction set up by [make_fee_act],
    there is one fee action per action, each paid by the first authorizer of the first
    action with its active permission; what they pay in total is the transaction's cost,
    is exactly [get_required_fee] of the transaction, and does not exceed the fee limit the
    transaction declares.  (Each fee is at most 2,000,000, so no sum of less than 2^40
    of them leaves [int64_t].) *)
Theorem fees_charged_exact unpack_name fees cfg head_num exts t0 actions fee_limit t t' :
  fee_reachable fees → Z.of_nat (length actions) < 2 ^ 40 →
  make_fee_act t0 actions fee_limit = Some (Ok t) →
  schedule_fee_actions unpack_name fees cfg head_num exts t actions = Ok t' →
  ∃ new, fee_actions t' = fee_actions t0 ++ new ∧ length new = length actions ∧
    Forall (pays_from (fee_payer t)) new ∧
    Asset.amount (fee_costed t') = total (fees_of new) ∧
    get_required_fee_transaction fees actions = Ok (fee_costed t') ∧
    (fee_limit ≠ Asset.core_asset 0 →
     Asset.amount (fee_costed t') ≤ Asset.amount fee_limit).
Proof.
  intros Hr Hlen Hm Hs. unfold make_fee_act in Hm.
  destruct actions as [|act rest] eqn:Ha; [done|]. injection Hm as Hm.
  destruct (Action.authorization act) as [|auth]; [done|].
  apply bind_Ok in Hm as ([] & Hp & Hm). apply assert_that_Ok, negb_true_iff, Z.eqb_neq in Hp.
  injection Hm as <-.
  apply (schedule_fee_actions_Ok _ _ _ _ _ Hr) in Hs as (new & F1 & F2 & F3 & F4 & F5 & F6);
    [|done|cbn; lia|cbn in *; lia].
  exists new. cbn in F1, F5, F6. split_and!; try done; try lia. intros. by apply F6.
Qed.

Definition no_fees : trx_fee := {|
  fee_payer := 0; fee_costed := Asset.core_asset 0; max_fee_to_pay := Asset.core_asset 0;
  use_limit_by_contract := false; cpu_limit_by_contract := 0; net_limit_by_contract := 0;
  fee_actions := [] |}.

Definition two_actions : list Action.action :=
  [ Action.MkAction alice (Name.N "play") [Action.MkLevel alice active_name] [];
    Action.MkAction token_account_name (Name.N "transfer") [Action.MkLevel alice active_name] [] ].

Lemma fees_charged_exact_witness :
  get_required_fee_transaction user_fees two_actions = Ok (Asset.core_asset 2600).
Proof.
  destruct (make_fee_act no_fees two_actions (Asset.core_asset 3000)) as [[t|e]|] eqn:Hm.
  2,3: vm_compute in Hm; discriminate.
  destruct (schedule_fee_actions (λ _, Ok 0) user_fees ∅ 10 [] t two_actions) as [t'|e] eqn:Hs.
  - destruct (fees_charged_exact (λ _, Ok 0) user_fees ∅ 10 [] no_fees two_actions
      (Asset.core_asset 3000) t t' user_fees_reachable ltac:(vm_compute; reflexivity) Hm Hs)
      as (new & _ & _ & _ & _ & Hg & _).
    rewrite Hg. vm_compute in Hm. injection Hm as <-. vm_compute in Hs. injection Hs as <-.
    reflexivity.
  - exfalso. vm_compute in Hm. injection Hm as <-. vm_compute in Hs. discriminate.
Defined.
End TxFee.
