(* ===== verification/Usage.v ===== *)
(** * Rate limiting arithmetic

    Models the namespace [impl] of [resource_limits_private.hpp] (ratios, checked casts,
    the exponential moving average accumulator), the elastic limit parameters of
    [resource_limits.hpp] and [update_elastic_limit] of [resource_limits.cpp].

    A method that assigns fields before it can throw is modelled with the object it leaves
    behind: [add] returns the accumulator together with its outcome. *)

From S2P Require Import Prelude.
From S2P Require Import Exceptions.

Local Open Scope Z_scope.

Module Usage.

Definition rate_limiting_precision : Z := 1000 * 1000.

(** ** Ratios and casts *)

Record ratio := make_ratio { numerator : Z; denominator : Z }.

#[global] Instance ratio_eq_dec : EqDecision ratio.
Proof. solve_decision. Defined.

(** [operator*] at [uint64_t]. *)
Definition mul_ratio (value : Z) (r : ratio) : result exn Z :=
  _ ← assert_that ((numerator r =? 0) || (value <=? UINT64_MAX / numerator r))
        rate_limiting_state_inconsistent;
  Ok (u64 (value * numerator r) / denominator r).

Definition integer_divide_ceil (num den : Z) : Z :=
  num / den + (if 0 <? num mod den then 1 else 0).

(** [downgrade_cast] from an unsigned type to one whose largest value is [max]. *)
Definition downgrade_cast (max val : Z) : result exn Z :=
  _ ← assert_that ((0 <=? val) && (val <=? max)) rate_limiting_state_inconsistent;
  Ok val.

(** ** The accumulator *)

Record accumulator := MkAcc { last_ordinal : Z; value_ex : Z; consumed : Z }.

Definition empty_accumulator : accumulator := MkAcc 0 0 0.

Definition max_raw_value : Z := UINT64_MAX / rate_limiting_precision.

Definition average (a : accumulator) : Z := integer_divide_ceil (value_ex a) rate_limiting_precision.

(** The branch of [add] for a new ordinal. *)
Definition advance (a : accumulator) (ordinal window_size : Z) : accumulator * result exn unit :=
  if negb (last_ordinal a <? ordinal) then (a, Throw resource_limit_exception) else
  let finish v :=
    let a := MkAcc ordinal v (consumed a) in
    (MkAcc ordinal v (average a), Ok tt) in
  if ordinal <? u64 (last_ordinal a + window_size) then
    let delta := u32 (ordinal - last_ordinal a) in
    match mul_ratio (value_ex a) (make_ratio (u64 (window_size - delta)) window_size) with
    | Ok v => finish v
    | Throw e => (a, Throw e)
    end
  else finish 0.

Definition add (a : accumulator) (units ordinal window_size : Z) : accumulator * result exn unit :=
  if negb (units <=? max_raw_value) then (a, Throw rate_limiting_state_inconsistent) else
  if negb (units <=? UINT64_MAX - consumed a) then (a, Throw rate_limiting_state_inconsistent) else
  match downgrade_cast UINT64_MAX
          (integer_divide_ceil (u128 (units * rate_limiting_precision)) window_size) with
  | Throw e => (a, Throw e)
  | Ok value_ex_contrib =>
      if negb (value_ex_contrib <=? UINT64_MAX - value_ex a)
      then (a, Throw rate_limiting_state_inconsistent) else
      let '(a, r) := if negb (last_ordinal a =? ordinal) then advance a ordinal window_size
                     else (a, Ok tt) in
      match r with
      | Throw e => (a, Throw e)
      | Ok _ =>
          (MkAcc (last_ordinal a) (u64 (value_ex a + value_ex_contrib))
             (u64 (consumed a + units)), Ok tt)
      end
  end.

(** ** Elastic limits *)

Record elastic_limit_parameters := MkElastic {
  target : Z;
  max : Z;
  periods : Z;
  max_multiplier : Z;
  contract_rate : ratio;
  expand_rate : ratio
}.

#[global] Instance elastic_limit_parameters_eq_dec : EqDecision elastic_limit_parameters.
Proof. solve_decision. Defined.

Definition validate (p : elastic_limit_parameters) : result exn unit :=
  _ ← assert_that (0 <? periods p) resource_limit_exception;
  _ ← assert_that (0 <? denominator (contract_rate p)) resource_limit_exception;
  assert_that (0 <? denominator (expand_rate p)) resource_limit_exception.

Definition update_elastic_limit (current_limit average_usage : Z) (params : elastic_limit_parameters) :
    result exn Z :=
  result ← (if target params <? average_usage then mul_ratio current_limit (contract_rate params)
            else mul_ratio current_limit (expand_rate params));
  Ok (Z.min (Z.max result (max params)) (u64 (max params * max_multiplier params))).

(** ** Arithmetic *)

Lemma ceil_spec num den : 0 ≤ num → 0 < den →
  0 ≤ integer_divide_ceil num den ∧
  integer_divide_ceil num den * den - den < num ≤ integer_divide_ceil num den * den.
Proof.
  intros Hn Hd. unfold integer_divide_ceil. pose proof (Z.div_mod num den ltac:(lia)).
  pose proof (Z.mod_pos_bound num den Hd). pose proof (Z.div_pos num den Hn Hd).
  destruct (Z.ltb_spec 0 (num mod den)); nia.
Qed.

Lemma mul_ratio_Ok v r x : 0 ≤ v < 2 ^ 64 → 0 ≤ numerator r → 0 < denominator r →
  mul_ratio v r = Ok x → x = v * numerator r / denominator r ∧ v * numerator r < 2 ^ 64.
Proof.
  intros Hv Hn Hd. unfold mul_ratio. intros H. apply bind_Ok in H as ([] & Ha & H).
  apply assert_that_Ok, orb_true_iff in Ha. injection H as <-.
  assert (v * numerator r < 2 ^ 64) as Hb.
  { destruct Ha as [Ha%Z.eqb_eq|Ha%Z.leb_le]; [rewrite Ha; lia|].
    destruct (decide (numerator r = 0)) as [->|]; [lia|]. unfold UINT64_MAX in Ha.
    pose proof (Z.mul_div_le (2 ^ 64 - 1) (numerator r) ltac:(lia)). nia. }
  rewrite u64_id by nia. done.
Qed.

(** A value in range is scaled by a proper fraction without exceptions when the product
    fits. *)
Lemma mul_ratio_total v r : 0 ≤ v → 0 ≤ numerator r → v * numerator r < 2 ^ 64 →
  mul_ratio v r = Ok (v * numerator r / denominator r).
Proof.
  intros Hv Hn Hb. unfold mul_ratio.
  assert ((numerator r =? 0) || (v <=? UINT64_MAX / numerator r) = true) as ->.
  { apply orb_true_iff. rewrite Z.eqb_eq, Z.leb_le.
    destruct (decide (numerator r = 0)) as [|]; [by left|right].
    apply Z.div_le_lower_bound; unfold UINT64_MAX; nia. }
  cbn. rewrite u64_id by nia. done.
Qed.

(** ** The accumulator as arithmetic on integers *)

Definition wf (a : accumulator) : Prop :=
  0 ≤ last_ordinal a < 2 ^ 32 ∧ 0 ≤ value_ex a < 2 ^ 64 ∧ 0 ≤ consumed a < 2 ^ 64.

(** The stored average after [ordinal - last_ordinal] periods without input: it loses
    that fraction of the window. *)
Definition decayed (a : accumulator) (ordinal window_size : Z) : Z :=
  if ordinal <? last_ordinal a + window_size
  then value_ex a * (window_size - (ordinal - last_ordinal a)) / window_size
  else 0.

Definition contribution (units window_size : Z) : Z :=
  integer_divide_ceil (units * rate_limiting_precision) window_size.

Definition added (a : accumulator) (units ordinal window_size : Z) : accumulator :=
  let v := decayed a ordinal window_size in
  MkAcc ordinal (v + contribution units window_size)
    ((if ordinal =? last_ordinal a then consumed a
      else integer_divide_ceil v rate_limiting_precision) + units).

Definition admissible (a : accumulator) (units ordinal window_size : Z) : Prop :=
  units * rate_limiting_precision < 2 ^ 64 ∧
  consumed a + units < 2 ^ 64 ∧
  value_ex a + contribution units window_size < 2 ^ 64 ∧
  last_ordinal a ≤ ordinal ∧
  (last_ordinal a < ordinal < last_ordinal a + window_size →
   value_ex a * (window_size - (ordinal - last_ordinal a)) < 2 ^ 64).

Lemma decayed_range a ordinal w : wf a → 0 < w → last_ordinal a ≤ ordinal →
  0 ≤ decayed a ordinal w ≤ value_ex a.
Proof.
  intros (_ & Hv & _) Hw Ho. unfold decayed. destruct (Z.ltb_spec ordinal (last_ordinal a + w)); [|lia].
  split; [apply Z.div_pos; [apply Z.mul_nonneg_nonneg|]; lia|].
  apply Z.div_le_upper_bound; [done|]. rewrite (Z.mul_comm w).
  apply Z.mul_le_mono_nonneg_l; lia.
Qed.

Lemma max_raw_value_spec units : 0 ≤ units →
  units <= max_raw_value ↔ units * rate_limiting_precision < 2 ^ 64.
Proof.
  intros _. unfold max_raw_value, UINT64_MAX.
  change rate_limiting_precision with 1000000. split; intros H.
  - pose proof (Z.mul_div_le (2 ^ 64 - 1) 1000000 ltac:(lia)). lia.
  - apply Z.div_le_lower_bound; lia.
Qed.

(** The branch for a new ordinal either decays the average or changes nothing. *)
Lemma advance_spec a ordinal w : wf a → 0 ≤ ordinal < 2 ^ 32 → 0 < w < 2 ^ 32 →
  ordinal ≠ last_ordinal a →
  (∃ e, advance a ordinal w = (a, Throw e) ∧
     (ordinal < last_ordinal a ∨ (last_ordinal a < ordinal < last_ordinal a + w ∧
      2 ^ 64 ≤ value_ex a * (w - (ordinal - last_ordinal a))))) ∨
  (let v := decayed a ordinal w in last_ordinal a < ordinal ∧
   (ordinal < last_ordinal a + w → value_ex a * (w - (ordinal - last_ordinal a)) < 2 ^ 64) ∧
   advance a ordinal w = (MkAcc ordinal v (integer_divide_ceil v rate_limiting_precision), Ok tt)).
Proof.
  intros (Hl & Hv & Hc) Ho Hw Hne. unfold advance, decayed, average.
  destruct (Z.ltb_spec (last_ordinal a) ordinal) as [Hlt|Hge]; cbn [negb].
  2:{ left. eexists. split; [done|lia]. }
  rewrite (u64_id (_ + w)) by lia.
  destruct (Z.ltb_spec ordinal (last_ordinal a + w)) as [Hin|Hout].
  2:{ right. split_and!; [done|lia|done]. }
  rewrite u32_id, u64_id by lia. cbn [value_ex].
  destruct (Z.lt_ge_cases (value_ex a * (w - (ordinal - last_ordinal a))) (2 ^ 64)) as [Hf|Hf].
  - right. rewrite mul_ratio_total by (cbn; lia). cbn. split_and!; [done..|]. done.
  - left. destruct (mul_ratio _ _) as [x|e] eqn:Hm.
    + apply mul_ratio_Ok in Hm as [_ Hm]; cbn in *; lia.
    + eexists. split; [done|lia].
Qed.

Lemma contribution_range units w : 0 ≤ units → 0 < w →
  0 ≤ contribution units w ≤ units * rate_limiting_precision.
Proof.
  intros Hu Hw. unfold contribution. change rate_limiting_precision with 1000000.
  pose proof (ceil_spec (units * 1000000) w ltac:(lia) Hw). nia.
Qed.

(** The tail of [add], after the ordinal is up to date. *)
Lemma added_wf a units ordinal w : wf a → 0 ≤ units → 0 ≤ ordinal < 2 ^ 32 → 0 < w →
  admissible a units ordinal w → wf (added a units ordinal w).
Proof.
  intros Hwf Hu Ho Hw (H1 & H2 & H3 & H4 & _). pose proof Hwf as (_ & Hv & Hc).
  pose proof (decayed_range a ordinal w Hwf Hw H4) as Hd.
  pose proof (contribution_range units w Hu Hw).
  unfold added, wf; cbn [last_ordinal value_ex consumed].
  change rate_limiting_precision with 1000000 in *.
  pose proof (ceil_spec (decayed a ordinal w) 1000000 ltac:(lia) ltac:(lia)).
  destruct (ordinal =? last_ordinal a); lia.
Qed.

Lemma add_admissible a units ordinal w :
  wf a → 0 ≤ units < 2 ^ 64 → 0 ≤ ordinal < 2 ^ 32 → 0 < w < 2 ^ 32 →
  admissible a units ordinal w → add a units ordinal w = (added a units ordinal w, Ok tt).
Proof.
  intros Hwf Hu Ho Hw Hadm. pose proof Hadm as (H1 & H2 & H3 & H4 & H5).
  pose proof (added_wf a units ordinal w Hwf ltac:(lia) Ho ltac:(lia) Hadm) as (_ & Hv' & Hc').
  pose proof (contribution_range units w ltac:(lia) ltac:(lia)) as Hcr.
  unfold added in Hv', Hc'. cbn [last_ordinal value_ex consumed] in Hv', Hc'. unfold add.
  rewrite (proj2 (Z.leb_le units max_raw_value)) by (apply max_raw_value_spec; lia).
  rewrite (proj2 (Z.leb_le units (UINT64_MAX - consumed a))) by (unfold UINT64_MAX; lia).
  cbn [negb]. rewrite u128_id by (change rate_limiting_precision with 1000000 in *; lia).
  fold (contribution units w). unfold downgrade_cast.
  rewrite (proj2 (andb_true_iff _ _)) by (rewrite !Z.leb_le; unfold UINT64_MAX; lia).
  cbn [mbind result_bind assert_that].
  rewrite (proj2 (Z.leb_le _ (UINT64_MAX - value_ex a))) by (unfold UINT64_MAX; lia).
  cbn [negb]. rewrite (Z.eqb_sym (last_ordinal a)).
  destruct (Z.eqb_spec ordinal (last_ordinal a)) as [He|Hne]; cbn [negb].
  - assert (decayed a ordinal w = value_ex a) as Hd.
    { unfold decayed. rewrite (proj2 (Z.ltb_lt _ _)) by lia.
      rewrite He, Z.sub_diag, Z.sub_0_r. apply Z.div_mul. lia. }
    rewrite Hd in Hv'.
    unfold added. rewrite Hd, (proj2 (Z.eqb_eq _ _) He), <-He, !u64_id by lia. done.
  - destruct (advance_spec a ordinal w Hwf Ho Hw Hne) as [(e & _ & Ha)|(_ & _ & ->)]; [lia|].
    unfold added. cbn [last_ordinal value_ex consumed].
    rewrite (proj2 (Z.eqb_neq _ _) Hne), !u64_id by lia. done.
Qed.

Lemma add_inadmissible a units ordinal w :
  wf a → 0 ≤ units < 2 ^ 64 → 0 ≤ ordinal < 2 ^ 32 → 0 < w < 2 ^ 32 →
  ¬ admissible a units ordinal w → ∃ e, add a units ordinal w = (a, Throw e).
Proof.
  intros Hwf Hu Ho Hw Hadm. pose proof Hwf as (_ & Hv & Hc).
  pose proof (contribution_range units w ltac:(lia) ltac:(lia)) as Hcr. unfold add.
  destruct (Z.leb_spec units max_raw_value) as [H1|H1]; cbn [negb]; [|by eexists].
  apply max_raw_value_spec in H1; [|lia].
  destruct (Z.leb_spec units (UINT64_MAX - consumed a)) as [H2|H2]; cbn [negb]; [|by eexists].
  rewrite u128_id by (change rate_limiting_precision with 1000000 in *; lia).
  fold (contribution units w). unfold downgrade_cast.
  destruct ((0 <=? contribution units w) && _); cbn [mbind result_bind assert_that]; [|by eexists].
  destruct (Z.leb_spec (contribution units w) (UINT64_MAX - value_ex a)) as [H3|H3];
    cbn [negb]; [|by eexists].
  unfold UINT64_MAX in H2, H3. rewrite (Z.eqb_sym (last_ordinal a)).
  destruct (Z.eqb_spec ordinal (last_ordinal a)) as [He|Hne]; cbn [negb].
  - exfalso. apply Hadm. split_and!; lia.
  - destruct (advance_spec a ordinal w Hwf Ho Hw Hne) as [(e & -> & _)|(Ha & Hb & _)].
    + by exists e.
    + exfalso. apply Hadm. split_and!; lia.
Qed.

(** The accumulator's [add] never wraps around: it succeeds exactly when every sum and
    product it forms is representable and the ordinal does not go back, and then computes
    the decayed average plus the rounded-up contribution and the consumption as integers;
    when it throws, the object is unchanged. *)
Theorem add_spec a units ordinal window_size :
  wf a → 0 ≤ units < 2 ^ 64 → 0 ≤ ordinal < 2 ^ 32 → 0 < window_size < 2 ^ 32 →
  (admissible a units ordinal window_size ∧ wf (added a units ordinal window_size) ∧
   add a units ordinal window_size = (added a units ordinal window_size, Ok tt)) ∨
  (¬ admissible a units ordinal window_size ∧
   ∃ e, add a units ordinal window_size = (a, Throw e)).
Proof.
  intros Hwf Hu Ho Hw.
  assert (admissible a units ordinal window_size ∨ ¬ admissible a units ordinal window_size)
    as [Ha|Ha] by (unfold admissible; lia).
  - left. split_and!; [done|apply added_wf; by lia || done|by apply add_admissible].
  - right. split; [done|by apply add_inadmissible].
Qed.

Lemma add_spec_witness :
  add (MkAcc 10 1000000 7) 50 15 100 = (MkAcc 15 (950000 + 500000) (1 + 50), Ok tt).
Proof.
  destruct (add_spec (MkAcc 10 1000000 7) 50 15 100) as [(_ & _ & H)|(H & _)].
  1-4: unfold wf; cbn; lia.
  - exact H.
  - exfalso. apply H. split_and!; [done..|]. intros _. done.
Defined.

(** ** The average follows the usage *)

(** Usage recorded once per period, at increasing ordinals. *)
Fixpoint add_periods (a : accumulator) (window_size : Z) (inputs : list (Z * Z)) : option accumulator :=
  match inputs with
  | [] => Some a
  | (units, ordinal) :: rest =>
      match add a units ordinal window_size with
      | (a, Ok _) => add_periods a window_size rest
      | (_, Throw _) => None
      end
  end.

Fixpoint increasing (last : Z) (inputs : list (Z * Z)) : Prop :=
  match inputs with
  | [] => True
  | (_, ordinal) :: rest => last < ordinal ∧ increasing ordinal rest
  end.

Definition bound (U window_size : Z) : Z := U * rate_limiting_precision + window_size.

(** One period later the stored average has lost at least one part in [window_size], which
    makes room for one more contribution. *)
Lemma added_bound a units ordinal w U : wf a → 0 ≤ units ≤ U → 0 < w →
  last_ordinal a < ordinal → value_ex a ≤ bound U w →
  value_ex (added a units ordinal w) ≤ bound U w.
Proof.
  intros Hwf Hu Hw Ho Hb. unfold added. cbn [value_ex]. unfold bound in *.
  pose proof (ceil_spec (units * rate_limiting_precision) w) as Hc.
  change rate_limiting_precision with 1000000 in *. specialize (Hc ltac:(lia) Hw).
  fold (contribution units w) in Hc.
  assert (decayed a ordinal w * w ≤ (U * 1000000 + w) * (w - 1)) as Hd.
  { unfold decayed. destruct (Z.ltb_spec ordinal (last_ordinal a + w)); [|nia].
    destruct Hwf as (_ & Hv & _).
    pose proof (Z.mul_div_le (value_ex a * (w - (ordinal - last_ordinal a))) w Hw).
    assert (value_ex a * (w - (ordinal - last_ordinal a)) ≤ value_ex a * (w - 1)) by nia.
    assert (value_ex a * (w - 1) ≤ (U * 1000000 + w) * (w - 1)) by nia. lia. }
  unfold contribution in Hc. change rate_limiting_precision with 1000000 in Hc.
  unfold contribution. change rate_limiting_precision with 1000000.
  set (c := integer_divide_ceil (units * 1000000) w) in *. nia.
Qed.

(** When at most [U] units are recorded in each period, the reported average never
    exceeds [U] by more than the rounding of one unit, whatever the number of periods and
    the gaps between them. *)
Theorem average_bounded w U inputs : ∀ a a',
  0 < w ≤ rate_limiting_precision → 0 ≤ U → bound U w < 2 ^ 64 →
  wf a → value_ex a ≤ bound U w → increasing (last_ordinal a) inputs →
  Forall (λ x, 0 ≤ x.1 ≤ U ∧ x.2 < 2 ^ 32) inputs →
  add_periods a w inputs = Some a' →
  value_ex a' ≤ bound U w ∧ average a' ≤ U + 1.
Proof.
  intros a a' Hw HU HB Hwf Hv Hinc Hall. revert a Hwf Hv Hinc.
  induction Hall as [|[units ordinal] rest [Hu Ho] _ IH]; cbn [add_periods increasing fst snd] in *;
    intros a Hwf Hv Hinc Hr.
  - injection Hr as <-. split; [done|]. unfold average, bound in *.
    pose proof (ceil_spec (value_ex a) rate_limiting_precision) as Hc.
    destruct Hwf as (_ & Hv0 & _). change rate_limiting_precision with 1000000 in *. lia.
  - destruct Hinc as [Hlt Hinc]. pose proof Hwf as (Hl & _ & _).
    assert (w < 2 ^ 32) as Hw32 by (change rate_limiting_precision with 1000000 in *; lia).
    assert (admissible a units ordinal w ∨ ¬ admissible a units ordinal w) as [Ha|Ha]
      by (unfold admissible; lia).
    + assert (0 ≤ units < 2 ^ 64) as Hu64.
      { destruct Ha as [Ha _]. change rate_limiting_precision with 1000000 in *. lia. }
      rewrite add_admissible in Hr by (done || lia).
      apply (IH (added a units ordinal w)); [apply added_wf; done || lia
        |apply added_bound; done || lia|exact Hinc|exact Hr].
    + assert (0 ≤ units < 2 ^ 64) as Hu64.
      { unfold bound in HB. change rate_limiting_precision with 1000000 in *. lia. }
      destruct (add_inadmissible a units ordinal w) as [e He]; [done || lia..|].
      rewrite He in Hr. done.
Qed.

Lemma average_bounded_witness :
  add_periods empty_accumulator 20 [(1000, 1); (1000, 2); (900, 5)]
    = Some (MkAcc 5 127875000 983) ∧ 127875000 ≤ bound 1000 20.
Proof.
  assert (add_periods empty_accumulator 20 [(1000, 1); (1000, 2); (900, 5)]
    = Some (MkAcc 5 127875000 983)) as H by (vm_compute; reflexivity).
  split; [exact H|].
  destruct (average_bounded 20 1000 [(1000, 1); (1000, 2); (900, 5)] empty_accumulator
    (MkAcc 5 127875000 983)) as [Hb _]; [..|exact Hb]; try exact H.
  all: try (unfold wf, bound, rate_limiting_precision; cbn; lia).
  repeat (apply Forall_cons; split; [cbn; lia|]). by apply Forall_nil.
Defined.

(** ** Elastic limits stay within their bounds *)

(** Parameters under which the cap [max * max_multiplier] is representable and a limit
    below it can be scaled by either rate. *)
Definition elastic_wf (p : elastic_limit_parameters) : Prop :=
  0 ≤ max p ∧ 1 ≤ max_multiplier p ∧ 0 < periods p ∧
  0 ≤ numerator (contract_rate p) ≤ denominator (contract_rate p) ∧
  0 < denominator (contract_rate p) ∧
  0 < denominator (expand_rate p) ≤ numerator (expand_rate p) ∧
  max p * max_multiplier p * numerator (contract_rate p) < 2 ^ 64 ∧
  max p * max_multiplier p * numerator (expand_rate p) < 2 ^ 64.

Lemma elastic_cap p : elastic_wf p →
  0 ≤ max p ∧ max p ≤ max p * max_multiplier p < 2 ^ 64.
Proof. intros (H1 & H2 & _ & H3 & H4 & H5 & H6 & H7). nia. Qed.

Lemma update_elastic_limit_Ok p current avg : elastic_wf p →
  0 ≤ current ≤ max p * max_multiplier p →
  update_elastic_limit current avg p = Ok
    (let r := if target p <? avg then contract_rate p else expand_rate p in
     Z.min (Z.max (current * numerator r / denominator r) (max p)) (max p * max_multiplier p)).
Proof.
  intros Hp Hc. pose proof (elastic_cap p Hp). destruct Hp as (H1 & H2 & _ & H3 & H4 & H5 & H6 & H7).
  unfold update_elastic_limit. rewrite u64_id by lia.
  destruct (target p <? avg); rewrite mul_ratio_total by nia; done.
Qed.

(** The virtual limit always stays between [max] and [max * max_multiplier]; above the
    target it does not grow beyond its current value, below it does not shrink (both up to
    those bounds), and updating it never throws. *)
Theorem update_elastic_limit_spec p current avg : elastic_wf p →
  0 ≤ current ≤ max p * max_multiplier p →
  ∃ r, update_elastic_limit current avg p = Ok r ∧
    max p ≤ r ≤ max p * max_multiplier p ∧
    (target p < avg → r ≤ Z.max current (max p)) ∧
    (avg ≤ target p → current ≤ r).
Proof.
  intros Hp Hc. pose proof (elastic_cap p Hp). eexists.
  split; [by apply update_elastic_limit_Ok|]. cbv zeta.
  destruct Hp as (H1 & H2 & _ & H3 & H4 & H5 & H6 & H7).
  split; [lia|]. destruct (Z.ltb_spec (target p) avg); split; intros ?; try lia.
  - assert (current * numerator (contract_rate p) / denominator (contract_rate p) ≤ current); [|lia].
    apply Z.div_le_upper_bound; [lia|]. rewrite Z.mul_comm. apply Z.mul_le_mono_nonneg_r; lia.
  - assert (current ≤ current * numerator (expand_rate p) / denominator (expand_rate p)); [|lia].
    apply Z.div_le_lower_bound; [lia|]. rewrite Z.mul_comm. apply Z.mul_le_mono_nonneg_l; lia.
Qed.

(** The default parameters for CPU ([resource_limits_config_object]). *)
Definition default_cpu_limit_parameters : elastic_limit_parameters :=
  MkElastic 100000 1000000 20 1000 (make_ratio 99 100) (make_ratio 1000 999).

Lemma update_elastic_limit_spec_witness :
  ∃ r, update_elastic_limit 1000000 0 default_cpu_limit_parameters = Ok r ∧ 1000000 ≤ r.
Proof.
  destruct (update_elastic_limit_spec default_cpu_limit_parameters 1000000 0) as (r & Hr & Hb & _).
  - unfold elastic_wf; cbn; lia.
  - cbn; lia.
  - exists r. split; [exact Hr|]. apply Hb.
Defined.

(** [n] blocks of the same average usage. *)
Fixpoint update_limit_times (n : nat) (p : elastic_limit_parameters) (current avg : Z) :
    result exn Z :=
  match n with
  | O => Ok current
  | S n => current ← update_elastic_limit current avg p; update_limit_times n p current avg
  end.

(** A resource whose usage stays at or below the target recovers: after finitely many
    blocks its virtual limit is the full [max * max_multiplier].  Growth by the factor
    1000/999 is at least one unit per block because the limit is at least 999; this is
    where a [max] below 999 would leave the limit stuck. *)
Theorem elastic_limit_recovers p current avg : elastic_wf p → avg ≤ target p →
  expand_rate p = make_ratio 1000 999 → 999 ≤ max p →
  max p ≤ current ≤ max p * max_multiplier p →
  ∃ n, update_limit_times n p current avg = Ok (max p * max_multiplier p).
Proof.
  intros Hp Havg Hrate H999 Hc.
  remember (Z.to_nat (max p * max_multiplier p - current)) as k eqn:Hk.
  assert (max p * max_multiplier p - current ≤ Z.of_nat k) as Hd by lia. clear Hk.
  revert current Hc Hd. induction k as [|k IH]; intros current Hc Hd.
  { exists 0%nat. cbn. f_equal. lia. }
  destruct (decide (current = max p * max_multiplier p)) as [->|]; [by exists 0%nat|].
  pose proof (update_elastic_limit_Ok p current avg Hp ltac:(lia)) as Hu. cbv zeta in Hu.
  rewrite (proj2 (Z.ltb_ge _ _) Havg), Hrate in Hu. cbn [numerator denominator] in Hu.
  assert (current + 1 ≤ current * 1000 / 999) by (apply Z.div_le_lower_bound; lia).
  edestruct IH as (m & Hm); [| |exists (S m); cbn; rewrite Hu; exact Hm]; lia.
Qed.

Lemma elastic_limit_recovers_witness :
  ∃ n, update_limit_times n default_cpu_limit_parameters 1000000 0 = Ok 1000000000.
Proof.
  apply (elastic_limit_recovers default_cpu_limit_parameters 1000000 0).
  - unfold elastic_wf; cbn; lia.
  - cbn; lia.
  - reflexivity.
  - cbn; lia.
  - cbn; lia.
Defined.
End Usage.
