(* ===== verification/Database.v ===== *)
(** * Tables of the state database

    The source keeps its state in chainbase tables.  A table with a unique index is
    modelled as a finite map from that key to the rest of the row; [get] and [create] are
    the accesses that throw ([std::out_of_range] when a row is missing, [std::logic_error]
    when a unique key is taken). *)

From S2P Require Import Prelude.
From S2P Require Import Exceptions.

Local Open Scope Z_scope.

Section table.
Context {K A : Type} `{Countable K}.

Definition get (m : gmap K A) (k : K) : result exn A :=
  match m !! k with Some a => Ok a | None => Throw std_exception end.

Definition create (m : gmap K A) (k : K) (a : A) : result exn (gmap K A) :=
  match m !! k with Some _ => Throw std_exception | None => Ok (<[k := a]> m) end.

Lemma get_Ok (m : gmap K A) k a : get m k = Ok a ↔ m !! k = Some a.
Proof. unfold get. destruct (m !! k); split; congruence. Qed.

Lemma create_Ok (m : gmap K A) k a m' : create m k a = Ok m' ↔ m !! k = None ∧ m' = <[k := a]> m.
Proof.
  unfold create. destruct (m !! k); split; [done|by intros [? ?]|..].
  - intros H1. by injection H1.
  - by intros [_ ->].
Qed.

(** The sum over the rows of the positive values of a column. *)
Definition sum_pos (f : A → Z) (m : gmap K A) : Z :=
  map_fold (λ _ a acc, Z.max 0 (f a) + acc) 0 m.

Lemma sum_pos_empty f : sum_pos f ∅ = 0.
Proof. apply map_fold_empty. Qed.

Lemma sum_pos_insert_new f m k a : m !! k = None →
  sum_pos f (<[k := a]> m) = Z.max 0 (f a) + sum_pos f m.
Proof. intros Hk. unfold sum_pos. rewrite map_fold_insert_L; [done|intros; lia|done]. Qed.

Lemma sum_pos_delete f m k a : m !! k = Some a →
  sum_pos f m = Z.max 0 (f a) + sum_pos f (delete k m).
Proof. intros Hk. unfold sum_pos. rewrite (map_fold_delete_L _ _ k a m); [done|intros; lia|done]. Qed.

Lemma sum_pos_insert f m k a b : m !! k = Some a →
  sum_pos f (<[k := b]> m) = sum_pos f m - Z.max 0 (f a) + Z.max 0 (f b).
Proof.
  intros Hk. rewrite <-insert_delete_eq, sum_pos_insert_new by apply lookup_delete_eq.
  rewrite (sum_pos_delete f m k a Hk). lia.
Qed.

Lemma sum_pos_nonneg f m : 0 ≤ sum_pos f m.
Proof. unfold sum_pos. apply (map_fold_weak_ind (λ r _, 0 ≤ r)); intros; lia. Qed.

Lemma sum_pos_lookup_le f m k a : m !! k = Some a → Z.max 0 (f a) ≤ sum_pos f m.
Proof. intros Hk. rewrite (sum_pos_delete f m k a Hk). pose proof (sum_pos_nonneg f (delete k m)). lia. Qed.

Lemma sum_pos_le_size f m : (∀ a, f a ≤ 1) → sum_pos f m ≤ Z.of_nat (size m).
Proof.
  intros Hf. induction m as [|k a m Hk IH] using map_ind.
  - by rewrite sum_pos_empty.
  - rewrite sum_pos_insert_new, map_size_insert_None by done. specialize (Hf a). lia.
Qed.
End table.
