(* ===== verification/ResourceLimits.v ===== *)
(** * The resource limits manager

    Models [resource_limits_manager] ([resource_limits.cpp], [resource_limits.hpp] and the
    objects of [resource_limits_private.hpp]).  The table [resource_limits_index], whose
    unique key is the pair of [pending] and [owner], is kept as the two maps of its pending
    and its actual rows; [resource_usage_index] is a map by [owner].  The enclosing
    database session undoes what an operation did before it throws, so the operations
    return either the exception or the new tables. *)

From S2P Require Import Prelude.
From S2P Require Import Exceptions.
From S2P Require Import Name.
From S2P Require Import Asset.
From S2P Require Import ChainConfig.
From S2P Require Import Usage.
From S2P Require Import Database.

Local Open Scope Z_scope.

Module ResourceLimits.
Import Config Usage.

(** ** Objects *)

Record resource_limits_object := MkLimits { net_weight : Z; cpu_weight : Z; ram_bytes : Z }.

Record resource_usage_object := MkUsage {
  net_usage : accumulator;
  cpu_usage : accumulator;
  ram_usage : Z
}.

Record resource_limits_config_object := MkConfig {
  cpu_limit_parameters : elastic_limit_parameters;
  net_limit_parameters : elastic_limit_parameters;
  account_cpu_usage_average_window : Z;
  account_net_usage_average_window : Z
}.

Record resource_limits_state_object := MkState {
  average_block_net_usage : accumulator;
  average_block_cpu_usage : accumulator;
  pending_net_usage : Z;
  pending_cpu_usage : Z;
  total_net_weight : Z;
  total_cpu_weight : Z;
  total_ram_bytes : Z;
  virtual_net_limit : Z;
  virtual_cpu_limit : Z
}.

Record manager := MkManager {
  limits : gmap Z resource_limits_object;
  pending_limits : gmap Z resource_limits_object;
  usages : gmap Z resource_usage_object;
  config : resource_limits_config_object;
  state : resource_limits_state_object
}.

Definition set_usages (m : manager) (u : gmap Z resource_usage_object) : manager :=
  MkManager (limits m) (pending_limits m) u (config m) (state m).
Definition set_state (m : manager) (s : resource_limits_state_object) : manager :=
  MkManager (limits m) (pending_limits m) (usages m) (config m) s.

(** The outcome of [add] inside [db.modify]. *)
Definition modify_usage (r : accumulator * result exn unit) : result exn accumulator :=
  match r with (a, Ok _) => Ok a | (_, Throw e) => Throw e end.

(** ** Set-up *)

Definition default_limits : resource_limits_object := MkLimits (-1) (-1) (-1).
Definition default_usage : resource_usage_object := MkUsage empty_accumulator empty_accumulator 0.

(** The default member initializers of [resource_limits_config_object]; the windows are a
    minute and a day of three-second blocks. *)
Definition default_config : resource_limits_config_object :=
  MkConfig
    (MkElastic (EOS_PERCENT 1000000 1000) 1000000 (60000 / 3000) 1000
       (make_ratio 99 100) (make_ratio 1000 999))
    (MkElastic (EOS_PERCENT (1024 * 1024) 1000) (1024 * 1024) (60000 / 3000) 1000
       (make_ratio 99 100) (make_ratio 1000 999))
    (86400000 / 3000) (86400000 / 3000).

Definition initialize_database : manager :=
  MkManager ∅ ∅ ∅ default_config
    (MkState empty_accumulator empty_accumulator 0 0 0 0 0
       (max (net_limit_parameters default_config)) (max (cpu_limit_parameters default_config))).

Definition initialize_account (m : manager) (account : Z) : result exn manager :=
  l ← create (limits m) account default_limits;
  u ← create (usages m) account default_usage;
  Ok (MkManager l (pending_limits m) u (config m) (state m)).

Definition set_block_parameters (m : manager) (cpu net : elastic_limit_parameters) :
    result exn manager :=
  _ ← validate cpu;
  _ ← validate net;
  let c := config m in
  if bool_decide (cpu_limit_parameters c = cpu) && bool_decide (net_limit_parameters c = net)
  then Ok m
  else Ok (MkManager (limits m) (pending_limits m) (usages m)
             (MkConfig cpu net (account_cpu_usage_average_window c)
                (account_net_usage_average_window c)) (state m)).

(** ** Account limits *)

Section manager_ops.
(** The other tables the manager reads: the switches of the chain configuration and the
    rows of the system contract's table [vote4ramsum]. *)
Context (cfg : gmap Z ConfigOnChain.config_data_object) (vote4ramsum : gmap Z Asset.asset).

Definition unlimited_ram (name : Z) : bool :=
  (name =? system_account_name) || (name =? Name.N "force.ram") ||
  (name =? Name.N "force.cpu") || (name =? Name.N "force.net") ||
  (name =? Name.N "force.test") || (name =? token_account_name) ||
  (name =? msig_account_name) || (name =? Name.N "eosio.bios").

Definition get_account_ram_limit (name : Z) : Z :=
  let init_ram_size := ConfigOnChain.get_num_config_on_chain cfg (Name.N "res.freeram") (8 * 1024) in
  if unlimited_ram name then -1 else
  match vote4ramsum !! name with
  | None => init_ram_size
  | Some staked =>
      let ram_rent := ConfigOnChain.get_num_config_on_chain cfg (Name.N "res.ramrent") 10240 in
      let res := Z.quot (s64 (Asset.amount staked * ram_rent)) 1000000 in
      s64 (res + init_ram_size)
  end.

(** The triple of [ram_bytes], [net_weight] and [cpu_weight]. *)
Definition get_account_limits (m : manager) (account : Z) : result exn (Z * Z * Z) :=
  match pending_limits m !! account with
  | Some l => Ok (get_account_ram_limit account, net_weight l, cpu_weight l)
  | None =>
      l ← get (limits m) account;
      Ok (get_account_ram_limit account, net_weight l, cpu_weight l)
  end.

(** Sets the pending limits, created from the actual ones when there are none. *)
Definition set_account_limits (m : manager) (account ram net cpu : Z) :
    result exn (manager * bool) :=
  l ← (match pending_limits m !! account with
       | Some l => Ok l
       | None => get (limits m) account
       end);
  let decreased_limit := (0 <=? ram) && ((ram_bytes l <? 0) || (ram <? ram_bytes l)) in
  Ok (MkManager (limits m) (<[account := MkLimits net cpu ram]> (pending_limits m))
        (usages m) (config m) (state m), decreased_limit).

(** ** Usage *)

Definition update_account_usage (m : manager) (accounts : list Z) (time_slot : Z) :
    result exn manager :=
  foldM (λ m a,
    usage ← get (usages m) a;
    net ← modify_usage (add (net_usage usage) 0 time_slot
                          (account_net_usage_average_window (config m)));
    cpu ← modify_usage (add (cpu_usage usage) 0 time_slot
                          (account_cpu_usage_average_window (config m)));
    Ok (set_usages m (<[a := MkUsage net cpu (ram_usage usage)]> (usages m)))) m accounts.

(** The check that the usage of an account in its window is within its share. *)
Definition check_share (weight total_weight virtual_limit window_size value : Z) (e : exn) :
    result exn unit :=
  if (0 <=? weight) && (0 <? total_weight) then
    let capacity := u128 (virtual_limit * window_size) in
    let used := u128 (value * window_size) / rate_limiting_precision in
    let max_use := u128 (capacity * weight) / total_weight in
    assert_that (used <=? max_use) e
  else Ok tt.

Definition add_account_usage (cpu net time_slot : Z) (m : manager) (a : Z) : result exn manager :=
  let c := config m in
  let s := state m in
  usage ← get (usages m) a;
  '(_, net_weight, cpu_weight) ← get_account_limits m a;
  net' ← modify_usage (add (net_usage usage) net time_slot (account_net_usage_average_window c));
  cpu' ← modify_usage (add (cpu_usage usage) cpu time_slot (account_cpu_usage_average_window c));
  let m := set_usages m (<[a := MkUsage net' cpu' (ram_usage usage)]> (usages m)) in
  _ ← check_share cpu_weight (total_cpu_weight s) (virtual_cpu_limit s)
        (account_cpu_usage_average_window c) (value_ex cpu') tx_cpu_usage_exceeded;
  _ ← check_share net_weight (total_net_weight s) (virtual_net_limit s)
        (account_net_usage_average_window c) (value_ex net') tx_net_usage_exceeded;
  Ok m.

Definition add_transaction_usage (m : manager) (accounts : list Z) (cpu net time_slot : Z) :
    result exn manager :=
  m ← foldM (add_account_usage cpu net time_slot) m accounts;
  let s := state m in
  let pending_cpu := u64 (pending_cpu_usage s + cpu) in
  let pending_net := u64 (pending_net_usage s + net) in
  let m := set_state m
    (MkState (average_block_net_usage s) (average_block_cpu_usage s) pending_net pending_cpu
       (total_net_weight s) (total_cpu_weight s) (total_ram_bytes s)
       (virtual_net_limit s) (virtual_cpu_limit s)) in
  _ ← assert_that (pending_cpu <=? max (cpu_limit_parameters (config m))) block_resource_exhausted;
  _ ← assert_that (pending_net <=? max (net_limit_parameters (config m))) block_resource_exhausted;
  Ok m.

Definition add_pending_ram_usage (m : manager) (account ram_delta : Z) : result exn manager :=
  if ram_delta =? 0 then Ok m else
  usage ← get (usages m) account;
  _ ← assert_that ((ram_delta <=? 0) || (u64 ram_delta <=? UINT64_MAX - ram_usage usage))
        transaction_exception;
  _ ← assert_that ((0 <=? ram_delta) || (u64 (- ram_delta) <=? ram_usage usage))
        transaction_exception;
  Ok (set_usages m (<[account := MkUsage (net_usage usage) (cpu_usage usage)
        (u64 (ram_usage usage + ram_delta))]> (usages m))).

Definition verify_account_ram_usage (m : manager) (account : Z) : result exn unit :=
  '(ram_bytes, _, _) ← get_account_limits m account;
  usage ← get (usages m) account;
  if 0 <=? ram_bytes then assert_that (ram_usage usage <=? ram_bytes) ram_usage_exceeded
  else Ok tt.

Definition get_account_ram_usage (m : manager) (name : Z) : result exn Z :=
  usage ← get (usages m) name; Ok (s64 (ram_usage usage)).

(** ** Applying the pending limits *)

(** [update_state_and_value]: the new total; the value becomes [pending_value]. *)
Definition update_state_and_value (total value pending_value : Z) : result exn Z :=
  total ← (if 0 <? value then
             _ ← assert_that (value <=? total) rate_limiting_state_inconsistent;
             Ok (total - value)
           else Ok total);
  if 0 <? pending_value then
    _ ← assert_that (pending_value <=? UINT64_MAX - total) rate_limiting_state_inconsistent;
    Ok (total + pending_value)
  else Ok total.

(** [by_owner_index.lower_bound(true)]: the pending row of the smallest owner. *)
Definition first_pending (pending : gmap Z resource_limits_object) :
    option (Z * resource_limits_object) :=
  map_fold (λ k l acc,
    match acc with
    | Some (k', l') => if k <? k' then Some (k, l) else Some (k', l')
    | None => Some (k, l)
    end) None pending.

(** One turn of the loop, for the pending row [itr] of [owner]. *)
Definition apply_pending (m : manager) (owner : Z) (itr : resource_limits_object) :
    result exn manager :=
  actual_entry ← get (limits m) owner;
  let s := state m in
  ram ← update_state_and_value (total_ram_bytes s) (ram_bytes actual_entry) (ram_bytes itr);
  cpu ← update_state_and_value (total_cpu_weight s) (cpu_weight actual_entry) (cpu_weight itr);
  net ← update_state_and_value (total_net_weight s) (net_weight actual_entry) (net_weight itr);
  Ok (MkManager (<[owner := itr]> (limits m)) (delete owner (pending_limits m)) (usages m) (config m)
        (MkState (average_block_net_usage s) (average_block_cpu_usage s) (pending_net_usage s)
           (pending_cpu_usage s) net cpu ram (virtual_net_limit s) (virtual_cpu_limit s))).

(** The loop removes a pending row per turn, so as many turns as there are pending rows
    suffice. *)
Fixpoint process_updates_loop (fuel : nat) (m : manager) : result exn manager :=
  match first_pending (pending_limits m), fuel with
  | None, _ => Ok m
  | Some _, O => Throw std_exception
  | Some (owner, itr), S fuel => m ← apply_pending m owner itr; process_updates_loop fuel m
  end.

Definition process_account_limit_updates (m : manager) : result exn manager :=
  process_updates_loop (size (pending_limits m)) m.

(** ** Blocks *)

Definition process_block_usage (m : manager) (block_num : Z) : result exn manager :=
  let s := state m in
  let c := config m in
  cpu ← modify_usage (add (average_block_cpu_usage s) (pending_cpu_usage s) block_num
                        (periods (cpu_limit_parameters c)));
  vcpu ← update_elastic_limit (virtual_cpu_limit s) (average cpu) (cpu_limit_parameters c);
  net ← modify_usage (add (average_block_net_usage s) (pending_net_usage s) block_num
                        (periods (net_limit_parameters c)));
  vnet ← update_elastic_limit (virtual_net_limit s) (average net) (net_limit_parameters c);
  Ok (set_state m (MkState net cpu 0 0 (total_net_weight s) (total_cpu_weight s)
        (total_ram_bytes s) vnet vcpu)).

(** The resource part of [controller_impl::finalize_block]. *)
Definition block_parameters (max target_pct : Z) : elastic_limit_parameters :=
  MkElastic (EOS_PERCENT max target_pct) max (60000 / 3000) 1000
    (make_ratio 99 100) (make_ratio 1000 999).

Definition finalize_block_limits (m : manager) (c : ChainConfig.chain_config) (block_num : Z) :
    result exn manager :=
  m ← process_account_limit_updates m;
  m ← set_block_parameters m
        (block_parameters (ChainConfig.max_block_cpu_usage c)
           (ChainConfig.target_block_cpu_usage_pct c))
        (block_parameters (ChainConfig.max_block_net_usage c)
           (ChainConfig.target_block_net_usage_pct c));
  process_block_usage m block_num.

(** ** Queries *)

Definition get_virtual_block_cpu_limit (m : manager) : Z := virtual_cpu_limit (state m).
Definition get_virtual_block_net_limit (m : manager) : Z := virtual_net_limit (state m).

Definition get_block_cpu_limit (m : manager) : Z :=
  u64 (max (cpu_limit_parameters (config m)) - pending_cpu_usage (state m)).
Definition get_block_net_limit (m : manager) : Z :=
  u64 (max (net_limit_parameters (config m)) - pending_net_usage (state m)).

Record account_resource_limit := MkArl { used : Z; available : Z; arl_max : Z }.

(** The common body of [get_account_cpu_limit_ex] and [get_account_net_limit_ex] on the
    values each reads. *)
Definition account_limit_ex (weight total_weight virtual_limit block_max window_size value
    greylist_limit : Z) : result exn (account_resource_limit * bool) :=
  if (weight <? 0) || (total_weight =? 0) then Ok (MkArl (-1) (-1) (-1), false) else
  let greylisted_virtual_limit := u64 (block_max * greylist_limit) in
  let greylisted := greylisted_virtual_limit <? virtual_limit in
  let capacity :=
    u128 (window_size * (if greylisted then greylisted_virtual_limit else virtual_limit)) in
  let max_user_use_in_window := u128 (capacity * weight) / total_weight in
  let used_in_window :=
    integer_divide_ceil (u128 (value * window_size)) rate_limiting_precision in
  available ← (if max_user_use_in_window <=? used_in_window then Ok 0
               else downgrade_cast INT64_MAX (max_user_use_in_window - used_in_window));
  used ← downgrade_cast INT64_MAX used_in_window;
  max ← downgrade_cast INT64_MAX max_user_use_in_window;
  Ok (MkArl used available max, greylisted).

Definition get_account_cpu_limit_ex (m : manager) (name greylist_limit : Z) :
    result exn (account_resource_limit * bool) :=
  usage ← get (usages m) name;
  '(_, _, cpu_weight) ← get_account_limits m name;
  account_limit_ex cpu_weight (total_cpu_weight (state m)) (virtual_cpu_limit (state m))
    (max (cpu_limit_parameters (config m))) (account_cpu_usage_average_window (config m))
    (value_ex (cpu_usage usage)) greylist_limit.

Definition get_account_net_limit_ex (m : manager) (name greylist_limit : Z) :
    result exn (account_resource_limit * bool) :=
  usage ← get (usages m) name;
  '(_, net_weight, _) ← get_account_limits m name;
  account_limit_ex net_weight (total_net_weight (state m)) (virtual_net_limit (state m))
    (max (net_limit_parameters (config m))) (account_net_usage_average_window (config m))
    (value_ex (net_usage usage)) greylist_limit.

Definition get_account_cpu_limit (m : manager) (name greylist_limit : Z) : result exn (Z * bool) :=
  '(arl, greylisted) ← get_account_cpu_limit_ex m name greylist_limit;
  Ok (available arl, greylisted).

Definition get_account_net_limit (m : manager) (name greylist_limit : Z) : result exn (Z * bool) :=
  '(arl, greylisted) ← get_account_net_limit_ex m name greylist_limit;
  Ok (available arl, greylisted).
End manager_ops.

(** ** Applying pending limits keeps the totals *)

Lemma update_state_and_value_eq total value pending_value : 0 ≤ total < 2 ^ 64 →
  update_state_and_value total value pending_value =
    let t := total - Z.max 0 value + Z.max 0 pending_value in
    if (Z.max 0 value <=? total) && (t <? 2 ^ 64) then Ok t
    else Throw rate_limiting_state_inconsistent.
Proof.
  intros Ht. unfold update_state_and_value, UINT64_MAX. cbv zeta.
  assert ((if 0 <? value then
             _ ← assert_that (value <=? total) rate_limiting_state_inconsistent; Ok (total - value)
           else Ok total) =
    if Z.max 0 value <=? total then Ok (total - Z.max 0 value)
    else Throw rate_limiting_state_inconsistent) as ->.
  { destruct (Z.ltb_spec 0 value).
    - rewrite Z.max_r by lia. by destruct (value <=? total).
    - rewrite Z.max_l, (proj2 (Z.leb_le 0 total)), Z.sub_0_r by lia. done. }
  destruct (Z.leb_spec (Z.max 0 value) total); cbn [mbind result_bind andb]; [|done].
  destruct (Z.ltb_spec 0 pending_value).
  - rewrite (Z.max_r 0 pending_value) by lia.
    destruct (Z.leb_spec pending_value (2 ^ 64 - 1 - (total - Z.max 0 value))),
      (Z.ltb_spec (total - Z.max 0 value + pending_value) (2 ^ 64)); done || lia.
  - rewrite (Z.max_l 0 pending_value), Z.add_0_r, (proj2 (Z.ltb_lt _ _)) by lia. done.
Qed.

Record consistent (m : manager) : Prop := {
  pending_has_limits : ∀ a, is_Some (pending_limits m !! a) → is_Some (limits m !! a);
  usage_iff_limits : ∀ a, is_Some (usages m !! a) ↔ is_Some (limits m !! a);
  ram_total : total_ram_bytes (state m) = sum_pos ram_bytes (limits m);
  cpu_total : total_cpu_weight (state m) = sum_pos cpu_weight (limits m);
  net_total : total_net_weight (state m) = sum_pos net_weight (limits m);
  ram_fits : sum_pos ram_bytes (limits m) < 2 ^ 64;
  cpu_fits : sum_pos cpu_weight (limits m) < 2 ^ 64;
  net_fits : sum_pos net_weight (limits m) < 2 ^ 64
}.

Lemma first_pending_spec p :
  match first_pending p with
  | Some (k, l) => p !! k = Some l ∧ ∀ k', is_Some (p !! k') → k ≤ k'
  | None => p = ∅
  end.
Proof.
  unfold first_pending.
  apply (map_fold_weak_ind (λ r (p : gmap Z resource_limits_object),
    match r with
    | Some (k, l) => p !! k = Some l ∧ ∀ k', is_Some (p !! k') → k ≤ k'
    | None => p = ∅
    end)); [done|].
  intros i x q [[k l]|] Hi.
  - intros [Hk Hmin]. assert (i ≠ k) by congruence.
    destruct (Z.ltb_spec i k); (split; [by simplify_map_eq|]); intros k' Hk';
      (destruct (decide (k' = i)) as [->|]; [lia|]); rewrite lookup_insert_ne in Hk' by done;
      specialize (Hmin k' Hk'); lia.
  - intros ->. split; [by rewrite lookup_insert_eq|]. intros k' Hk'.
    destruct (decide (k' = i)) as [->|]; [lia|].
    rewrite lookup_insert_ne, lookup_empty in Hk' by done. by destruct Hk'.
Qed.

(** One turn of the loop in a consistent state: it either finds a total that does not fit,
    or replaces the actual row by the pending one and adjusts the totals. *)
Lemma apply_pending_spec m owner itr : consistent m → pending_limits m !! owner = Some itr →
  (∃ actual m', limits m !! owner = Some actual ∧ apply_pending m owner itr = Ok m' ∧
     consistent m' ∧ limits m' = <[owner := itr]> (limits m) ∧
     pending_limits m' = delete owner (pending_limits m) ∧
     usages m' = usages m ∧ config m' = config m) ∨
  (apply_pending m owner itr = Throw rate_limiting_state_inconsistent ∧
   ∃ f, f ∈ [ram_bytes; cpu_weight; net_weight] ∧
     2 ^ 64 ≤ sum_pos f (<[owner := itr]> (limits m))).
Proof.
  intros [Hp Hu E1 E2 E3 F1 F2 F3] Hitr.
  destruct (Hp owner) as [actual Ha]; [by eexists|].
  pose proof (sum_pos_nonneg ram_bytes (limits m)). pose proof (sum_pos_nonneg cpu_weight (limits m)).
  pose proof (sum_pos_nonneg net_weight (limits m)).
  assert (∀ f, Z.max 0 (f actual) ≤ sum_pos f (limits m)) as Hle.
  { intros f. rewrite (sum_pos_delete f _ _ _ Ha). pose proof (sum_pos_nonneg f (delete owner (limits m))). lia. }
  unfold apply_pending. rewrite (proj2 (get_Ok _ _ _) Ha). cbn [mbind result_bind].
  rewrite !update_state_and_value_eq by lia. cbv zeta.
  rewrite !(proj2 (Z.leb_le _ _)) by (rewrite ?E1, ?E2, ?E3; apply Hle). cbn [andb].
  rewrite E1, E2, E3, <-!(sum_pos_insert _ (limits m) owner actual itr Ha).
  destruct (Z.ltb_spec (sum_pos ram_bytes (<[owner := itr]> (limits m))) (2 ^ 64)) as [G1|G1].
  2:{ right. split; [done|]. exists ram_bytes. split; [by left|done]. }
  destruct (Z.ltb_spec (sum_pos cpu_weight (<[owner := itr]> (limits m))) (2 ^ 64)) as [G2|G2].
  2:{ right. split; [done|]. exists cpu_weight. split; [by right; left|done]. }
  destruct (Z.ltb_spec (sum_pos net_weight (<[owner := itr]> (limits m))) (2 ^ 64)) as [G3|G3].
  2:{ right. split; [done|]. exists net_weight. split; [by right; right; left|done]. }
  left. exists actual. eexists. split; [done|]. split; [reflexivity|].
  split; [|done]. split; cbn; try done.
  - intros a. destruct (decide (a = owner)) as [->|].
    + rewrite lookup_delete_eq. by intros [].
    + rewrite lookup_delete_ne, lookup_insert_ne by done. apply Hp.
  - intros a. rewrite Hu, lookup_insert_is_Some'. split; [by right|].
    intros [<-|?]; [by eexists|done].
Qed.

Lemma process_updates_loop_spec fuel : ∀ m, consistent m →
  size (pending_limits m) = fuel →
  match process_updates_loop fuel m with
  | Ok m' =>
      consistent m' ∧ pending_limits m' = ∅ ∧ limits m' = pending_limits m ∪ limits m ∧
      usages m' = usages m ∧ config m' = config m
  | Throw e =>
      e = rate_limiting_state_inconsistent ∧
      ∃ f, f ∈ [ram_bytes; cpu_weight; net_weight] ∧
        2 ^ 64 ≤ sum_pos f (limits m) + sum_pos f (pending_limits m)
  end.
Proof.
  induction fuel as [|fuel IH]; intros m Hm Hsize; cbn [process_updates_loop];
    pose proof (first_pending_spec (pending_limits m)) as Hfp;
    destruct (first_pending (pending_limits m)) as [[owner itr]|].
  - destruct Hfp as [Hk _]. apply map_size_empty_inv in Hsize. rewrite Hsize in Hk. by simplify_map_eq.
  - rewrite Hfp, (left_id_L ∅ (∪)). done.
  - destruct Hfp as [Hk _].
    destruct (apply_pending_spec m owner itr Hm Hk)
      as [(actual & m1 & Ha & -> & Hm1 & E1 & E2 & E3 & E4)|(-> & f & Hf & Hsum)]; cbn [mbind result_bind].
    2:{ split; [done|]. exists f. split; [done|].
        destruct (pending_has_limits m Hm owner) as [actual Ha]; [by eexists|].
        rewrite (sum_pos_insert f _ _ _ itr Ha) in Hsum. rewrite (sum_pos_delete f _ _ _ Hk).
        pose proof (sum_pos_nonneg f (delete owner (pending_limits m))). lia. }
    specialize (IH m1 Hm1). rewrite E2, map_size_delete_Some in IH by (by eexists).
    specialize (IH ltac:(lia)). destruct (process_updates_loop fuel m1) as [m'|e].
    + destruct IH as (IH1 & IH2 & IH3 & IH4 & IH5).
      split_and!; [done|done| |congruence|congruence]. rewrite IH3, E1. apply map_eq. intros a.
      rewrite !lookup_union. destruct (decide (a = owner)) as [->|].
      * rewrite lookup_delete_eq, lookup_insert_eq, Hk. by destruct (limits m !! owner).
      * by rewrite lookup_delete_ne, lookup_insert_ne.
    + destruct IH as (-> & f & Hf & Hsum). split; [done|]. exists f. split; [done|].
      rewrite E1, (sum_pos_insert f _ _ _ itr Ha) in Hsum. rewrite (sum_pos_delete f _ _ _ Hk). lia.
  - rewrite Hfp, (left_id_L ∅ (∪)). done.
Qed.

(** ** The manager over the life of a chain

    Between two blocks the controller creates accounts, bills transactions, charges memory
    and records new limits; every block ends with [finalize_block_limits]. *)

Inductive rl_op : manager → manager → Prop :=
  | op_initialize_account m a m' : initialize_account m a = Ok m' → rl_op m m'
  | op_update_account_usage m accounts slot m' :
      update_account_usage m accounts slot = Ok m' → rl_op m m'
  | op_add_transaction_usage cfg votes m accounts cpu net slot m' :
      add_transaction_usage cfg votes m accounts cpu net slot = Ok m' → rl_op m m'
  | op_add_pending_ram_usage m account delta m' :
      add_pending_ram_usage m account delta = Ok m' → rl_op m m'
  | op_set_account_limits m account ram net cpu m' b :
      set_account_limits m account ram net cpu = Ok (m', b) → rl_op m m'.

(** Block limits of at most 2^32 (microseconds, bytes). *)
Definition block_limits_ok (c : ChainConfig.chain_config) : Prop :=
  0 ≤ ChainConfig.max_block_cpu_usage c ≤ 2 ^ 32 ∧ 0 ≤ ChainConfig.max_block_net_usage c ≤ 2 ^ 32.

(** [chain_run n m]: the manager after [n] blocks and some operations of the next. *)
Inductive chain_run : Z → manager → Prop :=
  | run_init : chain_run 0 initialize_database
  | run_op n m m' : chain_run n m → rl_op m m' → chain_run n m'
  | run_block n m c m' : chain_run n m → block_limits_ok c → n + 1 < 2 ^ 32 →
      finalize_block_limits m c (n + 1) = Ok m' → chain_run (n + 1) m'.

(** What the operations of a block leave alone. *)
Definition same_limits (m m' : manager) : Prop :=
  limits m' = limits m ∧ config m' = config m ∧
  total_ram_bytes (state m') = total_ram_bytes (state m) ∧
  total_cpu_weight (state m') = total_cpu_weight (state m) ∧
  total_net_weight (state m') = total_net_weight (state m).

Definition same_block (m m' : manager) : Prop :=
  config m' = config m ∧
  average_block_cpu_usage (state m') = average_block_cpu_usage (state m) ∧
  average_block_net_usage (state m') = average_block_net_usage (state m) ∧
  virtual_cpu_limit (state m') = virtual_cpu_limit (state m) ∧
  virtual_net_limit (state m') = virtual_net_limit (state m).

Lemma usage_keys (m : gmap Z resource_usage_object) a u u' k : m !! a = Some u →
  is_Some (<[a := u']> m !! k) ↔ is_Some (m !! k).
Proof.
  intros Ha. rewrite lookup_insert_is_Some'. split; [|by right].
  intros [<-|?]; [by eexists|done].
Qed.

(** The loops over accounts change usages only, and of existing accounts only. *)
Definition only_usages (m m' : manager) : Prop :=
  limits m' = limits m ∧ pending_limits m' = pending_limits m ∧ config m' = config m ∧
  state m' = state m ∧ ∀ k, is_Some (usages m' !! k) ↔ is_Some (usages m !! k).

Lemma only_usages_set m a u u' : usages m !! a = Some u →
  only_usages m (set_usages m (<[a := u']> (usages m))).
Proof. intros Ha. split_and!; try done. intros k. by eapply usage_keys. Qed.

Lemma only_usages_trans m1 m2 m3 : only_usages m1 m2 → only_usages m2 m3 → only_usages m1 m3.
Proof.
  intros (A1 & A2 & A3 & A4 & A5) (B1 & B2 & B3 & B4 & B5).
  split_and!; try congruence. intros k. by rewrite B5.
Qed.

Lemma foldM_only_usages {A} (f : manager → A → result exn manager) l m m' :
  (∀ m a m', f m a = Ok m' → only_usages m m') → foldM f m l = Ok m' → only_usages m m'.
Proof.
  intros Hf. apply (foldM_ind (only_usages m)); [done|].
  intros m1 a m2 H1 _ H2. eapply only_usages_trans; [exact H1|by eapply Hf].
Qed.

Lemma update_account_usage_frame m accounts slot m' :
  update_account_usage m accounts slot = Ok m' → only_usages m m'.
Proof.
  apply foldM_only_usages. intros m1 a m2 H. apply bind_Ok in H as (u & Hu%get_Ok & H).
  apply bind_Ok in H as (? & _ & H). apply bind_Ok in H as (? & _ & H).
  injection H as <-. by eapply only_usages_set.
Qed.

Lemma add_account_usage_frame cfg votes cpu net slot m a m' :
  add_account_usage cfg votes cpu net slot m a = Ok m' → only_usages m m'.
Proof.
  unfold add_account_usage. intros H. apply bind_Ok in H as (u & Hu%get_Ok & H).
  apply bind_Ok in H as ([[? ?] ?] & _ & H). apply bind_Ok in H as (? & _ & H).
  apply bind_Ok in H as (? & _ & H). apply bind_Ok in H as (? & _ & H).
  apply bind_Ok in H as (? & _ & H). injection H as <-. by eapply only_usages_set.
Qed.

(** A billed transaction: usages, and the pending usage of the block within its limits. *)
Lemma add_transaction_usage_frame cfg votes m accounts cpu net slot m' :
  add_transaction_usage cfg votes m accounts cpu net slot = Ok m' →
  limits m' = limits m ∧ pending_limits m' = pending_limits m ∧ same_limits m m' ∧
  same_block m m' ∧ (∀ k, is_Some (usages m' !! k) ↔ is_Some (usages m !! k)) ∧
  0 ≤ pending_cpu_usage (state m') ≤ max (cpu_limit_parameters (config m)) ∧
  0 ≤ pending_net_usage (state m') ≤ max (net_limit_parameters (config m)).
Proof.
  unfold add_transaction_usage. intros H. apply bind_Ok in H as (m1 & H1 & H).
  apply (foldM_only_usages _ _ _ _ (add_account_usage_frame cfg votes cpu net slot)) in H1
    as (A1 & A2 & A3 & A4 & A5).
  apply bind_Ok in H as ([] & H2 & H). apply bind_Ok in H as ([] & H3 & H).
  apply assert_that_Ok, Z.leb_le in H2, H3. cbn in H2, H3. injection H as <-.
  unfold same_limits, same_block. cbn. rewrite A1, A2, A3, A4 in *.
  pose proof (u64_range (pending_cpu_usage (state m) + cpu)).
  pose proof (u64_range (pending_net_usage (state m) + net)).
  split_and!; done || lia.
Qed.

(** The averages of block usage after [n] blocks. *)
Definition acc_ok (n : Z) (a : accumulator) : Prop :=
  wf a ∧ last_ordinal a ≤ n ∧ value_ex a ≤ bound (2 ^ 32) 20 ∧ consumed a ≤ 2 ^ 34.

Record block_inv (n : Z) (m : manager) : Prop := {
  inv_num : 0 ≤ n < 2 ^ 32;
  inv_cpu_acc : acc_ok n (average_block_cpu_usage (state m));
  inv_net_acc : acc_ok n (average_block_net_usage (state m));
  inv_cpu_pending : 0 ≤ pending_cpu_usage (state m) ≤ 2 ^ 32;
  inv_net_pending : 0 ≤ pending_net_usage (state m) ≤ 2 ^ 32;
  inv_cpu_virtual : 0 ≤ virtual_cpu_limit (state m) ≤ 1000 * 2 ^ 32;
  inv_net_virtual : 0 ≤ virtual_net_limit (state m) ≤ 1000 * 2 ^ 32;
  inv_cpu_max : 0 ≤ max (cpu_limit_parameters (config m)) ≤ 2 ^ 32;
  inv_net_max : 0 ≤ max (net_limit_parameters (config m)) ≤ 2 ^ 32
}.

Lemma acc_ok_add n a units : acc_ok n a → 0 ≤ n → n + 1 < 2 ^ 32 → 0 ≤ units ≤ 2 ^ 32 →
  ∃ a', add a units (n + 1) 20 = (a', Ok tt) ∧ acc_ok (n + 1) a'.
Proof.
  intros (Hwf & Hl & Hv & Hc) Hn Hn1 Hu. pose proof Hwf as (Hl0 & Hv0 & Hc0).
  assert (admissible a units (n + 1) 20) as Ha.
  { pose proof (contribution_range units 20 ltac:(lia) ltac:(lia)) as Hcr.
    unfold admissible, bound in *. change rate_limiting_precision with 1000000 in *.
    split_and!; try lia. intros. nia. }
  exists (added a units (n + 1) 20).
  split; [apply add_admissible; done || lia|].
  pose proof (added_wf a units (n + 1) 20 Hwf ltac:(lia) ltac:(lia) ltac:(lia) Ha) as Hwf'.
  pose proof (added_bound a units (n + 1) 20 (2 ^ 32) Hwf Hu ltac:(lia) ltac:(lia) Hv) as Hb.
  split_and!; [done|cbn; lia|done|].
  pose proof (decayed_range a (n + 1) 20 Hwf ltac:(lia) ltac:(lia)) as Hd.
  unfold added. cbn [consumed]. rewrite (proj2 (Z.eqb_neq _ _)) by lia.
  pose proof (ceil_spec (decayed a (n + 1) 20) rate_limiting_precision ltac:(lia)) as Hceil.
  unfold bound in Hv. change rate_limiting_precision with 1000000 in *.
  specialize (Hceil ltac:(lia)). lia.
Qed.

Lemma block_parameters_update max pct current avg : 0 ≤ max ≤ 2 ^ 32 →
  0 ≤ current ≤ 1000 * 2 ^ 32 →
  ∃ r, update_elastic_limit current avg (block_parameters max pct) = Ok r ∧
    max ≤ r ≤ 1000 * max.
Proof.
  intros Hm Hc. unfold update_elastic_limit, block_parameters. cbn.
  rewrite !mul_ratio_total by (cbn; lia). rewrite u64_id by lia.
  destruct (_ <? avg); eexists; (split; [reflexivity|cbn; lia]).
Qed.

Lemma set_block_parameters_Ok m cpu cpu_pct net net_pct : ∃ c,
  set_block_parameters m (block_parameters cpu cpu_pct) (block_parameters net net_pct) =
    Ok (MkManager (limits m) (pending_limits m) (usages m) c (state m)) ∧
  cpu_limit_parameters c = block_parameters cpu cpu_pct ∧
  net_limit_parameters c = block_parameters net net_pct.
Proof.
  unfold set_block_parameters. cbn [validate mbind result_bind assert_that Z.ltb].
  destruct (bool_decide _ && bool_decide _) eqn:Hb; [|by eexists].
  apply andb_true_iff in Hb as [H1%bool_decide_eq_true H2%bool_decide_eq_true].
  exists (config m). split; [by destruct m|done].
Qed.

(** The end of a block, after the pending limits are applied. *)
Lemma finalize_tail n m c : block_inv n m → block_limits_ok c → n + 1 < 2 ^ 32 →
  ∃ m', (m ← set_block_parameters m
               (block_parameters (ChainConfig.max_block_cpu_usage c)
                  (ChainConfig.target_block_cpu_usage_pct c))
               (block_parameters (ChainConfig.max_block_net_usage c)
                  (ChainConfig.target_block_net_usage_pct c));
         process_block_usage m (n + 1)) = Ok m' ∧
    limits m' = limits m ∧ pending_limits m' = pending_limits m ∧ usages m' = usages m ∧
    total_ram_bytes (state m') = total_ram_bytes (state m) ∧
    total_cpu_weight (state m') = total_cpu_weight (state m) ∧
    total_net_weight (state m') = total_net_weight (state m) ∧
    block_inv (n + 1) m' ∧
    pending_cpu_usage (state m') = 0 ∧ pending_net_usage (state m') = 0 ∧
    max (cpu_limit_parameters (config m')) = ChainConfig.max_block_cpu_usage c ∧
    max (net_limit_parameters (config m')) = ChainConfig.max_block_net_usage c ∧
    ChainConfig.max_block_cpu_usage c ≤ virtual_cpu_limit (state m')
      ≤ 1000 * ChainConfig.max_block_cpu_usage c ∧
    ChainConfig.max_block_net_usage c ≤ virtual_net_limit (state m')
      ≤ 1000 * ChainConfig.max_block_net_usage c.
Proof.
  intros [Hn Ac An Pc Pn Vc Vn Mc Mn] [Hcpu Hnet] Hn1.
  edestruct (set_block_parameters_Ok m) as (c' & -> & E1 & E2). cbn [mbind result_bind].
  unfold process_block_usage. cbn [state config]. rewrite E1, E2. cbn [periods block_parameters].
  change (60000 / 3000) with 20.
  destruct (acc_ok_add n _ _ Ac ltac:(lia) Hn1 Pc) as (ac & -> & Hac). cbn [mbind result_bind modify_usage].
  destruct (block_parameters_update _ (ChainConfig.target_block_cpu_usage_pct c) _ (average ac) Hcpu Vc)
    as (vc & -> & Hvc). cbn [mbind result_bind].
  destruct (acc_ok_add n _ _ An ltac:(lia) Hn1 Pn) as (an & -> & Han). cbn [mbind result_bind modify_usage].
  destruct (block_parameters_update _ (ChainConfig.target_block_net_usage_pct c) _ (average an) Hnet Vn)
    as (vn & -> & Hvn). cbn [mbind result_bind].
  eexists. split; [reflexivity|]. cbn. rewrite E1, E2. cbn.
  split_and!; try (done || lia). split; cbn; rewrite ?E1, ?E2; cbn; done || lia.
Qed.

(** ** The invariants hold throughout *)

Lemma consistent_same_limits m m' : consistent m → same_limits m m' →
  (∀ a, is_Some (pending_limits m' !! a) → is_Some (limits m !! a)) →
  (∀ a, is_Some (usages m' !! a) ↔ is_Some (usages m !! a)) → consistent m'.
Proof.
  intros [] (E1 & _ & E2 & E3 & E4) Hp Hu.
  split; rewrite ?E1, ?E2, ?E3, ?E4; try done. intros a. by rewrite Hu.
Qed.

Lemma block_inv_same n m m' : block_inv n m → same_block m m' →
  0 ≤ pending_cpu_usage (state m') ≤ 2 ^ 32 → 0 ≤ pending_net_usage (state m') ≤ 2 ^ 32 →
  block_inv n m'.
Proof. intros [] (E1 & E2 & E3 & E4 & E5) Hc Hn. split; rewrite ?E1, ?E2, ?E3, ?E4, ?E5; done. Qed.

Lemma initialize_account_consistent m a m' : consistent m → initialize_account m a = Ok m' →
  consistent m'.
Proof.
  intros [] H. unfold initialize_account in H.
  apply bind_Ok in H as (l & [Hl ->]%create_Ok & H). apply bind_Ok in H as (u & [Hu ->]%create_Ok & H).
  injection H as <-.
  split; cbn; rewrite ?sum_pos_insert_new by done; cbn; try lia; try done.
  - intros k Hk. apply lookup_insert_is_Some'. right. eauto.
  - intros k. rewrite !lookup_insert_is_Some', usage_iff_limits0. done.
Qed.

Lemma rl_op_inv n m m' : rl_op m m' → consistent m → block_inv n m → consistent m' ∧ block_inv n m'.
Proof.
  intros [m0 a m1 H|m0 accounts slot m1 H|cfg votes m0 accounts cpu net slot m1 H
         |m0 account delta m1 H|m0 account ram net cpu m1 b H] Hc Hb; pose proof Hb as [].
  - split; [by eapply initialize_account_consistent|]. unfold initialize_account in H.
    apply bind_Ok in H as (? & _ & H). apply bind_Ok in H as (? & _ & H). injection H as <-.
    by eapply block_inv_same.
  - apply update_account_usage_frame in H as (E1 & E2 & E3 & E4 & E5).
    split; [eapply consistent_same_limits; [done|..|done]|eapply block_inv_same; [done|..]];
      unfold same_limits, same_block; rewrite ?E2, ?E4; try done.
    by apply pending_has_limits.
  - apply add_transaction_usage_frame in H as (E1 & E2 & E3 & E4 & E5 & E6 & E7).
    split; [eapply consistent_same_limits; [done|done| |done]|eapply block_inv_same; [done|done|lia|lia]].
    rewrite E2. by apply pending_has_limits.
  - unfold add_pending_ram_usage in H. destruct (delta =? 0); [by injection H as <-|].
    apply bind_Ok in H as (u & Hu%get_Ok & H). apply bind_Ok in H as (? & _ & H).
    apply bind_Ok in H as (? & _ & H). injection H as <-.
    split; [|by eapply block_inv_same]. eapply consistent_same_limits; [done|done| |].
    + exact (pending_has_limits m0 Hc).
    + intros k. by eapply usage_keys.
  - unfold set_account_limits in H. apply bind_Ok in H as (l & Hl & H). injection H as <- <-.
    split; [|by eapply block_inv_same]. eapply consistent_same_limits; [done|done| |done].
    intros k. cbn. rewrite lookup_insert_is_Some'. intros [<-|Hk]; [|by apply pending_has_limits].
    destruct (pending_limits m0 !! account) eqn:Hp; [apply pending_has_limits; [done|by eexists]|].
    apply get_Ok in Hl. by eexists.
Qed.

(** Applying the pending limits leaves the block's accounting alone. *)
Lemma process_updates_loop_block fuel : ∀ m m', process_updates_loop fuel m = Ok m' →
  same_block m m' ∧ pending_cpu_usage (state m') = pending_cpu_usage (state m) ∧
  pending_net_usage (state m') = pending_net_usage (state m).
Proof.
  induction fuel as [|fuel IH]; intros m m'; cbn;
    destruct (first_pending (pending_limits m)) as [[owner itr]|]; try done;
    try (by intros [= <-]).
  intros H. apply bind_Ok in H as (m1 & H1 & H). unfold apply_pending in H1.
  apply bind_Ok in H1 as (? & _ & H1). apply bind_Ok in H1 as (? & _ & H1).
  apply bind_Ok in H1 as (? & _ & H1). apply bind_Ok in H1 as (? & _ & H1). injection H1 as <-.
  by apply IH in H.
Qed.

(** The end of a block: it fails only on a total that does not fit in 64 bits. *)
Lemma finalize_block_limits_spec n m c : consistent m → block_inv n m → block_limits_ok c →
  n + 1 < 2 ^ 32 →
  match finalize_block_limits m c (n + 1) with
  | Ok m' =>
      consistent m' ∧ block_inv (n + 1) m' ∧
      pending_limits m' = ∅ ∧ limits m' = pending_limits m ∪ limits m ∧
      pending_cpu_usage (state m') = 0 ∧ pending_net_usage (state m') = 0 ∧
      max (cpu_limit_parameters (config m')) = ChainConfig.max_block_cpu_usage c ∧
      max (net_limit_parameters (config m')) = ChainConfig.max_block_net_usage c ∧
      ChainConfig.max_block_cpu_usage c ≤ virtual_cpu_limit (state m')
        ≤ 1000 * ChainConfig.max_block_cpu_usage c ∧
      ChainConfig.max_block_net_usage c ≤ virtual_net_limit (state m')
        ≤ 1000 * ChainConfig.max_block_net_usage c
  | Throw e =>
      e = rate_limiting_state_inconsistent ∧
      ∃ f, f ∈ [ram_bytes; cpu_weight; net_weight] ∧
        2 ^ 64 ≤ sum_pos f (limits m) + sum_pos f (pending_limits m)
  end.
Proof.
  intros Hc Hb Hcfg Hn. unfold finalize_block_limits, process_account_limit_updates.
  pose proof (process_updates_loop_spec (size (pending_limits m)) m Hc eq_refl) as Hp.
  pose proof (process_updates_loop_block (size (pending_limits m)) m) as Hf.
  destruct (process_updates_loop _ m) as [m1|e]; [|exact Hp].
  destruct Hp as (Hc1 & Hp1 & Hl1 & Hu1 & _). destruct (Hf m1 eq_refl) as (Hs1 & Hpc & Hpn).
  assert (block_inv n m1) as Hb1 by (destruct Hb; eapply block_inv_same; [by split|done|lia|lia]).
  cbn [mbind result_bind].
  destruct (finalize_tail n m1 c Hb1 Hcfg Hn)
    as (m' & E & E1 & E2 & E3 & E4 & E5 & E6 & Hb' & R1 & R2 & R3 & R4 & R5 & R6).
  cbn [mbind result_bind] in E. rewrite E.
  split; [|split_and!; congruence || done || lia].
  destruct Hc1 as [C1 C2 C3 C4 C5 C6 C7 C8].
  split; rewrite ?E1, ?E2, ?E3, ?E4, ?E5, ?E6; done.
Qed.

Lemma chain_run_inv n m : chain_run n m → consistent m ∧ block_inv n m.
Proof.
  induction 1 as [|n m m' _ [Hc Hb] Hop|n m c m' _ [Hc Hb] Hcfg Hn Hf].
  - split; split; cbn; try done; try (intros a; rewrite lookup_empty).
    all: try (split; [by intros []|]). all: try by intros [].
    all: rewrite ?sum_pos_empty; try lia.
    all: unfold acc_ok, wf, bound; cbn; lia.
  - by eapply rl_op_inv.
  - pose proof (finalize_block_limits_spec n m c Hc Hb Hcfg Hn) as H. rewrite Hf in H.
    destruct H as (? & ? & _). done.
Qed.

(** C32: over the whole life of a chain the totals the manager keeps are the sums of the
    positive limits of all accounts, they fit in 64 bits, every pending row belongs to an
    existing account, and an account has a usage row exactly when it has limits. *)
Theorem totals_are_sums n m : chain_run n m → consistent m.
Proof. intros H. by apply chain_run_inv in H as [H _]. Qed.

(** The end of a block applies every pending limit, resets the usage of the block, and
    leaves the virtual limits between the block's maximum and a thousand times it; it can
    fail in one way only, with [rate_limiting_state_inconsistent] and because the limits to
    be applied do not fit in a 64-bit total: no other check of the accounting ever fires. *)
Theorem finalize_block_limits_correct n m c : chain_run n m → block_limits_ok c →
  n + 1 < 2 ^ 32 →
  match finalize_block_limits m c (n + 1) with
  | Ok m' =>
      pending_limits m' = ∅ ∧ limits m' = pending_limits m ∪ limits m ∧
      get_block_cpu_limit m' = ChainConfig.max_block_cpu_usage c ∧
      get_block_net_limit m' = ChainConfig.max_block_net_usage c ∧
      ChainConfig.max_block_cpu_usage c ≤ get_virtual_block_cpu_limit m'
        ≤ 1000 * ChainConfig.max_block_cpu_usage c ∧
      ChainConfig.max_block_net_usage c ≤ get_virtual_block_net_limit m'
        ≤ 1000 * ChainConfig.max_block_net_usage c
  | Throw e =>
      e = rate_limiting_state_inconsistent ∧
      ∃ f, f ∈ [ram_bytes; cpu_weight; net_weight] ∧
        2 ^ 64 ≤ sum_pos f (limits m) + sum_pos f (pending_limits m)
  end.
Proof.
  intros [Hc Hb]%chain_run_inv Hcfg Hn.
  pose proof (finalize_block_limits_spec n m c Hc Hb Hcfg Hn) as H.
  destruct (finalize_block_limits m c (n + 1)) as [m'|e]; [|exact H].
  destruct H as (_ & _ & H1 & H2 & H3 & H4 & H5 & H6 & H7 & H8). destruct Hcfg.
  unfold get_block_cpu_limit, get_block_net_limit. rewrite H3, H4, H5, H6, !Z.sub_0_r.
  rewrite !u64_id by lia. unfold get_virtual_block_cpu_limit, get_virtual_block_net_limit.
  split_and!; done || lia.
Qed.

(** An account with limits, in the first block. *)
Definition one_account : manager :=
  MkManager {[ 7 := default_limits ]} {[ 7 := MkLimits 3 5 (-1) ]} {[ 7 := default_usage ]}
    (config initialize_database) (state initialize_database).

Lemma one_account_run : chain_run 0 one_account.
Proof.
  apply (run_op 0 (MkManager {[ 7 := default_limits ]} ∅ {[ 7 := default_usage ]}
    (config initialize_database) (state initialize_database))).
  - apply (run_op 0 initialize_database); [constructor|].
    by apply (op_initialize_account _ 7).
  - by apply (op_set_account_limits _ 7 (-1) 3 5 _ false).
Qed.

Lemma totals_are_sums_witness : total_cpu_weight (state one_account) = 0.
Proof. exact (cpu_total one_account (totals_are_sums 0 one_account one_account_run)). Defined.

Lemma default_block_limits_ok : block_limits_ok ChainConfig.default_config.
Proof. split; cbn; lia. Qed.

Lemma finalize_block_limits_correct_witness :
  ∃ m', finalize_block_limits one_account ChainConfig.default_config 1 = Ok m' ∧
    limits m' !! 7 = Some (MkLimits 3 5 (-1)).
Proof.
  pose proof (finalize_block_limits_correct 0 one_account ChainConfig.default_config
    one_account_run default_block_limits_ok ltac:(lia)) as H.
  change (0 + 1) with 1 in H.
  destruct (finalize_block_limits one_account ChainConfig.default_config 1) as [m'|e] eqn:Hf.
  - exists m'. split; [reflexivity|]. destruct H as (_ & -> & _). reflexivity.
  - exfalso. vm_compute in Hf. discriminate.
Defined.

(** New limits are visible at once: [get_account_limits] answers the weights last set
    for the account and leaves every other account's alone, the actual limits change only
    when the pending ones are applied, and applying them changes no answer.  The memory
    limit reported does not depend on the [ram_bytes] that were set. *)
Theorem set_get_account_limits cfg votes n m account ram net cpu m' b :
  chain_run n m → set_account_limits m account ram net cpu = Ok (m', b) →
  (∀ a, get_account_limits cfg votes m' a =
     if decide (a = account) then Ok (get_account_ram_limit cfg votes account, net, cpu)
     else get_account_limits cfg votes m a) ∧
  limits m' = limits m ∧
  (∀ m'', process_account_limit_updates m' = Ok m'' →
     ∀ a, get_account_limits cfg votes m'' a = get_account_limits cfg votes m' a).
Proof.
  intros Hrun Hs.
  assert (consistent m') as Hc'.
  { eapply (chain_run_inv n). eapply run_op; [done|]. by eapply op_set_account_limits. }
  unfold set_account_limits in Hs. apply bind_Ok in Hs as (l & Hl & Hs). injection Hs as <- <-.
  split_and!; [|done|].
  - intros a. unfold get_account_limits. cbn. case_decide as Ha.
    + subst a. by rewrite lookup_insert_eq.
    + by rewrite lookup_insert_ne.
  - intros m'' Hp a. unfold process_account_limit_updates in Hp.
    pose proof (process_updates_loop_spec _ _ Hc' eq_refl) as H. rewrite Hp in H.
    destruct H as (_ & E1 & E2 & _). unfold get_account_limits, get.
    rewrite E1, E2, lookup_empty, lookup_union.
    destruct (pending_limits _ !! a) as [p|]; [by destruct (limits _ !! a)|].
    by rewrite (left_id_L None (∪)).
Qed.

Lemma set_get_account_limits_witness :
  ∃ m, set_account_limits one_account 7 100 9 4 = Ok (m, true) ∧
    get_account_limits ∅ ∅ m 7 = Ok (8192, 9, 4).
Proof.
  eexists. split; [reflexivity|].
  rewrite (proj1 (set_get_account_limits ∅ ∅ 0 one_account 7 100 9 4 _ true one_account_run eq_refl)).
  vm_compute. reflexivity.
Defined.

(** Charging or releasing memory is exact: the usage becomes the old one plus the
    signed delta, and the charge is refused exactly when that is negative or does not fit
    in 64 bits. *)
Theorem add_pending_ram_usage_exact m account u delta :
  usages m !! account = Some u → 0 ≤ ram_usage u < 2 ^ 64 → - 2 ^ 63 ≤ delta < 2 ^ 63 →
  add_pending_ram_usage m account delta =
    if bool_decide (0 ≤ ram_usage u + delta < 2 ^ 64)
    then Ok (set_usages m (<[account :=
               MkUsage (net_usage u) (cpu_usage u) (ram_usage u + delta)]> (usages m)))
    else Throw transaction_exception.
Proof.
  intros Hu Hr Hd. unfold add_pending_ram_usage, UINT64_MAX.
  rewrite (proj2 (get_Ok _ _ _) Hu). cbn [mbind result_bind].
  destruct (Z.eqb_spec delta 0) as [->|Hnz].
  { rewrite bool_decide_true by lia. f_equal. rewrite Z.add_0_r.
    destruct m as [l p us c s], u as [un uc ur]. unfold set_usages. cbn in *. by rewrite insert_id. }
  destruct (Z.leb_spec delta 0), (Z.leb_spec 0 delta); try lia; cbn [orb assert_that].
  - rewrite (u64_id (- delta)) by lia. destruct (Z.leb_spec (- delta) (ram_usage u)); cbn.
    + rewrite bool_decide_true, u64_id by lia. done.
    + rewrite bool_decide_false by lia. done.
  - rewrite (u64_id delta) by lia. destruct (Z.leb_spec delta (2 ^ 64 - 1 - ram_usage u)); cbn.
    + rewrite bool_decide_true, u64_id by lia. done.
    + rewrite bool_decide_false by lia. done.
Qed.

Lemma add_pending_ram_usage_exact_witness :
  add_pending_ram_usage one_account 7 (-1) = Throw transaction_exception.
Proof.
  rewrite (add_pending_ram_usage_exact one_account 7 default_usage (-1));
    [reflexivity|reflexivity|cbn; lia|lia].
Defined.

(** At the parameters of the chain (a window of 28800 blocks, block limits of at most
    2^32) none of the 128-bit products in the query of an account's limit wraps around:
    what it reports is the account's exact share of the virtual capacity (or of the
    greylisted capacity, when that is smaller), its exact usage rounded up, and their
    difference or zero. *)
Theorem account_limit_exact weight total virtual block_max value greylist arl greylisted :
  0 ≤ weight < 2 ^ 63 → 0 < total < 2 ^ 64 → 0 ≤ virtual ≤ 1000 * 2 ^ 32 →
  0 ≤ block_max ≤ 2 ^ 32 → 0 ≤ value < 2 ^ 64 → 0 ≤ greylist < 2 ^ 32 →
  account_limit_ex weight total virtual block_max 28800 value greylist = Ok (arl, greylisted) →
  used arl = integer_divide_ceil (value * 28800) rate_limiting_precision ∧
  arl_max arl = 28800 * Z.min virtual (block_max * greylist) * weight / total ∧
  available arl = Z.max 0 (arl_max arl - used arl) ∧
  greylisted = (block_max * greylist <? virtual).
Proof.
  intros Hw Ht Hv Hm Hval Hg. unfold account_limit_ex.
  rewrite (proj2 (Z.ltb_ge weight 0)), (proj2 (Z.eqb_neq total 0)) by lia. cbn [orb].
  rewrite (u64_id (block_max * greylist)) by nia. rewrite (u128_id (value * 28800)) by lia.
  assert ((if block_max * greylist <? virtual then block_max * greylist else virtual) =
    Z.min virtual (block_max * greylist)) as ->.
  { destruct (Z.ltb_spec (block_max * greylist) virtual); lia. }
  assert (0 ≤ Z.min virtual (block_max * greylist) ≤ 1000 * 2 ^ 32) as Hmin by nia.
  generalize dependent (Z.min virtual (block_max * greylist)). intros cap Hcap.
  rewrite (u128_id (28800 * cap)) by lia. rewrite (u128_id (28800 * cap * weight)) by nia.
  generalize (28800 * cap * weight / total) as max_use. intros max_use H.
  apply bind_Ok in H as (a & Ha & H). apply bind_Ok in H as (us & Hus & H).
  apply bind_Ok in H as (mx & Hmx & H). injection H as <- <-. unfold downgrade_cast in *. cbn.
  apply bind_Ok in Hus as (? & _ & [= <-]). apply bind_Ok in Hmx as (? & _ & [= <-]).
  split_and!; try done.
  destruct (Z.leb_spec max_use (integer_divide_ceil (value * 28800) rate_limiting_precision)).
  { injection Ha as <-. lia. }
  apply bind_Ok in Ha as (? & _ & [= <-]). lia.
Qed.

Lemma account_limit_exact_witness :
  ∃ arl, account_limit_ex 1 4 2000000 1000000 28800 1500000 1000 = Ok (arl, false) ∧
    available arl = Z.max 0 (arl_max arl - used arl).
Proof.
  eexists. split; [reflexivity|].
  apply (account_limit_exact 1 4 2000000 1000000 1500000 1000 _ false); try lia. reflexivity.
Defined.
End ResourceLimits.
