(* ===== verification/Authority.v ===== *)
(** * Authorities

    Models [authority.hpp]: weighted keys, permission levels and waits, and the validation
    of an authority.  Public keys are [fc::crypto::public_key], which is not part of the
    repository: they are a type of the interface [PublicKey]. *)

From S2P Require Import Prelude.
From S2P Require Import Action.

Local Open Scope Z_scope.

(** What the chain relies on of public keys: decidable equality and the strict order of
    [operator<] by which they are kept in a [flat_set]. *)
Class PublicKey (key : Type) := {
  key_eq_dec :: EqDecision key;
  key_ltb : key → key → bool;
  key_ltb_irrefl k : key_ltb k k = false;
  key_ltb_trans k1 k2 k3 : key_ltb k1 k2 = true → key_ltb k2 k3 = true → key_ltb k1 k3 = true
}.

(** Keys numbered by integers, for examples. *)
#[export, refine] Instance Z_key : PublicKey Z := { key_ltb := Z.ltb }.
Proof.
  - apply Z.ltb_irrefl.
  - intros k1 k2 k3. rewrite !Z.ltb_lt. lia.
Defined.

Module Authority.

Section authority.
Context {key : Type} `{PublicKey key}.

Record permission_level_weight := MkPlw { permission : Action.permission_level; plw_weight : Z }.
Record key_weight := MkKw { kw_key : key; kw_weight : Z }.
Record wait_weight := MkWw { wait_sec : Z; ww_weight : Z }.

Record authority := MkAuthority {
  threshold : Z;
  keys : list key_weight;
  accounts : list permission_level_weight;
  waits : list wait_weight
}.

#[global] Instance permission_level_weight_eq_dec : EqDecision permission_level_weight.
Proof. solve_decision. Defined.
#[global] Instance key_weight_eq_dec : EqDecision key_weight.
Proof. solve_decision. Defined.
#[global] Instance wait_weight_eq_dec : EqDecision wait_weight.
Proof. solve_decision. Defined.
#[global] Instance authority_eq_dec : EqDecision authority.
Proof. solve_decision. Defined.

(** [authority( public_key_type k, uint32_t delay_sec )] *)
Definition authority_of_key (k : key) (delay_sec : Z) : authority :=
  if 0 <? delay_sec then MkAuthority 2 [MkKw k 1] [] [MkWw delay_sec 1]
  else MkAuthority 1 [MkKw k 1] [] [].

(** [authority( permission_level p, uint32_t delay_sec )] *)
Definition authority_of_level (p : Action.permission_level) (delay_sec : Z) : authority :=
  if 0 <? delay_sec then MkAuthority 2 [] [MkPlw p 1] [MkWw delay_sec 1]
  else MkAuthority 1 [] [MkPlw p 1] [].

(** One of the three loops of [validate]: every element follows the previous one, and its
    weight is added in [uint32_t]. *)
Fixpoint check_sorted {A} (follows : A → A → bool) (weight : A → Z) (prev : option A)
    (l : list A) (total_weight : Z) : option Z :=
  match l with
  | [] => Some total_weight
  | a :: rest =>
      if match prev with Some p => follows p a | None => true end
      then check_sorted follows weight (Some a) rest (u32 (total_weight + weight a))
      else None
  end.

Definition validate (auth : authority) : bool :=
  if 2 ^ 16 <? Z.of_nat (length (keys auth) + length (accounts auth) + length (waits auth))
  then false else
  if threshold auth =? 0 then false else
  match check_sorted (λ p k, key_ltb (kw_key p) (kw_key k)) kw_weight None (keys auth) 0 with
  | None => false
  | Some total_weight =>
  match check_sorted (λ p a, Action.permission_level_lt (permission p) (permission a))
          plw_weight None (accounts auth) total_weight with
  | None => false
  | Some total_weight =>
  if match waits auth with w :: _ => wait_sec w =? 0 | [] => false end then false else
  match check_sorted (λ p w, wait_sec p <? wait_sec w) ww_weight None (waits auth) total_weight with
  | None => false
  | Some total_weight => threshold auth <=? total_weight
  end end end.

(** ** The meaning of [validate] *)

(** The weights of an authority in their C++ widths. *)
Definition weights (a : authority) : list Z :=
  (kw_weight <$> keys a) ++ (plw_weight <$> accounts a) ++ (ww_weight <$> waits a).

Definition sum (l : list Z) : Z := foldr Z.add 0 l.

Definition wf (a : authority) : Prop :=
  0 ≤ threshold a < 2 ^ 32 ∧ Forall (λ w, 0 ≤ w < 2 ^ 16) (weights a) ∧
  Forall (λ w, 0 ≤ wait_sec w < 2 ^ 32) (waits a).

Lemma sum_app l k : sum (l ++ k) = sum l + sum k.
Proof. unfold sum. induction l as [|x l IH]; cbn; [done|]. rewrite IH. lia. Qed.

(** The sum does not depend on the order. *)
#[global] Instance sum_Permutation : Proper ((≡ₚ) ==> (=)) sum.
Proof. intros l k Hp. unfold sum. induction Hp; cbn; lia. Qed.

Lemma sum_range l b : Forall (λ w, 0 ≤ w < b) l →
  0 ≤ sum l ≤ Z.of_nat (length l) * (b - 1).
Proof. unfold sum. induction 1 as [|x l Hx _ IH]; cbn [foldr length]; lia. Qed.

(** A loop whose elements all follow each other computes the exact sum when it fits. *)
Lemma check_sorted_spec {A} (follows : A → A → bool) (weight : A → Z) l : ∀ prev t,
  0 ≤ t → Forall (λ a, 0 ≤ weight a) l → t + sum (weight <$> l) < 2 ^ 32 →
  check_sorted follows weight prev l t =
    if bool_decide (Sorted (λ a b, follows a b = true) (option_list prev ++ l))
    then Some (t + sum (weight <$> l)) else None.
Proof.
  induction l as [|a l IH]; intros prev t Ht Hw Hs; cbn [check_sorted].
  - rewrite bool_decide_true; [by rewrite Z.add_0_r|]. destruct prev; repeat constructor.
  - inversion_clear Hw as [|? ? Ha Hl]. cbn [fmap list_fmap] in *.
    change (sum (weight a :: (weight <$> l))) with (weight a + sum (weight <$> l)) in *.
    assert (0 ≤ sum (weight <$> l)) as Hnn.
    { clear -Hl. induction Hl; cbn in *; [done|]. unfold sum in *; cbn in *; lia. }
    destruct (match prev with Some p => follows p a | None => true end) eqn:Hf.
    + rewrite u32_id, IH by (done || lia). cbn [option_list app].
      assert (Sorted (λ a b, follows a b = true) (a :: l) ↔
        Sorted (λ a b, follows a b = true) (option_list prev ++ a :: l)) as Hiff.
      { destruct prev as [p|]; cbn; [|done]. split; [|by inversion 1].
        intros Hs'. constructor; [done|by constructor]. }
      by rewrite (bool_decide_ext _ _ Hiff), Z.add_assoc.
    + destruct prev as [p|]; [|done]. rewrite bool_decide_false; [done|]. cbn.
      intros Hs'. inversion Hs' as [|? ? ? Hr]. inversion Hr. congruence.
Qed.

Lemma Sorted_fmap_iff {A B} (f : A → B) (R : B → B → Prop) `{!Transitive R} l :
  Sorted (λ a b, R (f a) (f b)) l ↔ StronglySorted R (f <$> l).
Proof.
  transitivity (Sorted R (f <$> l)).
  - induction l as [|a l IH]; cbn; [split; constructor|].
    split; inversion_clear 1 as [|? ? Hs Hd]; constructor; try (by apply IH).
    + destruct Hd; by constructor.
    + destruct l; inversion_clear Hd; by constructor.
  - split; [by apply Sorted_StronglySorted|apply StronglySorted_Sorted].
Qed.

Lemma Sorted_bool_ext {A} (R S : A → A → Prop) l : (∀ a b, R a b ↔ S a b) → Sorted R l ↔ Sorted S l.
Proof.
  intros He. induction l as [|a l IH]; [split; constructor|].
  split; inversion_clear 1 as [|? ? Hs Hd]; constructor; try (by apply IH);
    destruct Hd; constructor; by apply He.
Qed.

#[local] Instance key_lt_trans : Transitive (λ k1 k2 : key, key_ltb k1 k2 = true).
Proof. intros k1 k2 k3. apply key_ltb_trans. Qed.
#[local] Instance level_lt_trans : Transitive (λ p q, Action.permission_level_lt p q = true).
Proof. intros p q r. rewrite !Action.permission_level_lt_spec. lia. Qed.

Lemma waits_sorted l : Forall (λ w, 0 ≤ wait_sec w < 2 ^ 32) l →
  match l with w :: _ => wait_sec w =? 0 | [] => false end = false ∧
  Sorted (λ p w, (wait_sec p <? wait_sec w) = true) l ↔
  StronglySorted Z.lt (0 :: (wait_sec <$> l)).
Proof.
  intros Hw. rewrite (Sorted_bool_ext _ (λ p w, wait_sec p < wait_sec w)) by (intros; apply Z.ltb_lt).
  rewrite (Sorted_fmap_iff wait_sec Z.lt). split.
  - intros [H0 Hs]. constructor; [done|]. destruct l as [|w l]; cbn in *; [constructor|].
    apply Z.eqb_neq in H0. inversion_clear Hw. inversion_clear Hs as [|? ? _ Hf].
    constructor; [lia|]. eapply Forall_impl; [exact Hf|]. intros; lia.
  - intros Hs. inversion_clear Hs as [|? ? Hs' Hf]. split; [|done].
    destruct l as [|w l]; [done|]. inversion_clear Hf. apply Z.eqb_neq. lia.
Qed.

(** [validate] accepts an authority exactly when it has at most 65536 entries and a
    positive threshold, its keys, its permission levels and its waits are each strictly
    sorted (so without duplicates) with no wait of zero seconds, and the exact sum of all
    its weights reaches the threshold: the 32-bit running total never wraps around. *)
Theorem authority_validate_spec a : wf a →
  validate a = true ↔
    Z.of_nat (length (weights a)) ≤ 2 ^ 16 ∧ 0 < threshold a ∧
    StronglySorted (λ k1 k2, key_ltb k1 k2 = true) (kw_key <$> keys a) ∧
    StronglySorted (λ p1 p2, Action.permission_level_lt p1 p2 = true) (permission <$> accounts a) ∧
    StronglySorted Z.lt (0 :: (wait_sec <$> waits a)) ∧
    threshold a ≤ sum (weights a).
Proof.
  intros (Ht & Hw & Hs). unfold validate, weights in *.
  rewrite !length_app, !length_fmap, Nat.add_assoc.
  destruct (Z.ltb_spec (2 ^ 16) (Z.of_nat (length (keys a) + length (accounts a) + length (waits a))))
    as [Hlen|Hlen]; [split; [done|lia]|].
  destruct (Z.eqb_spec (threshold a) 0) as [Ht0|Ht0]; [split; [done|lia]|].
  pose proof (sum_range _ _ Hw) as Hsum. rewrite !length_app, !length_fmap in Hsum.
  rewrite !sum_app in *. rewrite !Forall_app, !Forall_fmap in Hw. destruct Hw as (Hk & Ha & Hww).
  assert (∀ A (f : A → Z) l, Forall (λ x, 0 ≤ f x < 2 ^ 16) l → Forall (λ x, 0 ≤ f x) l) as Hnn.
  { intros A f l Hl. eapply Forall_impl; [exact Hl|]. intros x [Hx _]. exact Hx. }
  pose proof (sum_range (kw_weight <$> keys a) (2 ^ 16) ltac:(by apply Forall_fmap)).
  pose proof (sum_range (plw_weight <$> accounts a) (2 ^ 16) ltac:(by apply Forall_fmap)).
  pose proof (sum_range (ww_weight <$> waits a) (2 ^ 16) ltac:(by apply Forall_fmap)).
  apply Hnn in Hk, Ha, Hww.
  assert (sum (kw_weight <$> keys a) + (sum (plw_weight <$> accounts a) + sum (ww_weight <$> waits a))
    < 2 ^ 32) as Hfit by (rewrite !length_fmap in *; lia).
  pose proof (waits_sorted _ Hs) as Hwaits.
  rewrite <-(Sorted_fmap_iff kw_key (λ k1 k2, key_ltb k1 k2 = true)).
  rewrite <-(Sorted_fmap_iff permission (λ p1 p2, Action.permission_level_lt p1 p2 = true)).
  rewrite <-Hwaits.
  rewrite check_sorted_spec by (done || lia). cbn [option_list app].
  case_bool_decide as Hsk; [|split; [done|tauto]]. rewrite check_sorted_spec by (done || lia).
  cbn [option_list app]. case_bool_decide as Hsa; [|split; [done|tauto]].
  destruct (match waits a with w :: _ => wait_sec w =? 0 | [] => false end).
  { split; [done|]. intros (_ & _ & _ & _ & [? _] & _). done. }
  rewrite check_sorted_spec by (done || lia). cbn [option_list app].
  case_bool_decide as Hsw; [|split; [done|tauto]].
  rewrite Z.leb_le. split; [intros Hle|intros (_ & _ & _ & _ & _ & Hle); lia].
  split_and!; done || lia.
Qed.

(** ** Storage size

    [get_billable_size]; [pack_size] is the serialized size of a key. *)

Definition billable_size_v (value : Z) : Z := (value + 16 - 1) / 16 * 16.

Definition get_billable_size (pack_size : key → Z) (a : authority) : Z :=
  let accounts_size := Z.of_nat (length (accounts a)) * billable_size_v 24 in
  let waits_size := Z.of_nat (length (waits a)) * billable_size_v 16 in
  let keys_size :=
    foldl (λ keys_size k, keys_size + billable_size_v 8 + pack_size (kw_key k)) 0 (keys a) in
  accounts_size + waits_size + keys_size.
End authority.
#[global] Arguments key_weight : clear implicits.
#[global] Arguments authority : clear implicits.

(** Two keys and a wait, any two of the three. *)
Definition two_of_three : authority Z :=
  MkAuthority 2 [MkKw 10 1; MkKw 20 1] [] [MkWw 3600 1].

Lemma authority_validate_spec_witness : validate two_of_three = true.
Proof.
  apply authority_validate_spec.
  - split_and!; cbn; try lia; repeat (apply Forall_cons; split; [cbn; lia|]); by apply Forall_nil.
  - split_and!; cbn; try lia; repeat constructor.
Defined.
End Authority.
