(* ===== verification/AuthorityChecker.v ===== *)
(** * Checking that keys satisfy an authority

    Models [authority_checker.hpp]: the recursive evaluation of an authority against a set
    of provided keys, provided permissions and a delay, with its cache of permission
    levels, its marks of used keys and its limit on recursion. *)

From S2P Require Import Prelude.
From S2P Require Import Exceptions.
From S2P Require Import Name.
From S2P Require Import Action.
From S2P Require Import Authority.

Local Open Scope Z_scope.

Module AuthorityChecker.
Import Authority.

Inductive permission_cache_status :=
  | being_evaluated
  | permission_unsatisfied
  | permission_satisfied.

Notation permission_cache_type := (gmap Action.permission_level permission_cache_status).

Definition permission_status_in_cache (permissions : permission_cache_type)
    (level : Action.permission_level) : option permission_cache_status :=
  match permissions !! level with
  | Some s => Some s
  | None => permissions !! Action.MkLevel (Action.actor level) 0
  end.

(** ** Meta permissions

    The entries of an authority of the three kinds, with the key by which [satisfied] sorts
    them: weight first, then waits before keys before accounts. *)

Inductive meta_permission (key : Type) :=
  | MAccount (p : permission_level_weight)
  | MKey (k : key_weight key)
  | MWait (w : wait_weight).
#[global] Arguments MAccount {_} _.
#[global] Arguments MKey {_} _.
#[global] Arguments MWait {_} _.

Definition meta_weight {key} (m : meta_permission key) : Z :=
  match m with MAccount p => plw_weight p | MKey k => kw_weight k | MWait w => ww_weight w end.

Definition meta_priority {key} (m : meta_permission key) : Z :=
  match m with MAccount _ => 1 | MKey _ => 2 | MWait _ => 3 end.

(** [std::greater<>] does not put [y] before [x]. *)
Definition meta_geb {key} (x y : meta_permission key) : bool :=
  (meta_weight y <? meta_weight x) ||
  ((meta_weight x =? meta_weight y) && (meta_priority y <=? meta_priority x)).

(** [flat_multimap::emplace]: after the entries that compare equal. *)
Fixpoint emplace_permission {key} (l : list (meta_permission key)) (x : meta_permission key) :
    list (meta_permission key) :=
  match l with
  | [] => [x]
  | y :: l' => if meta_geb y x then y :: emplace_permission l' x else x :: l
  end.

Definition metas {key} (auth : authority key) : list (meta_permission key) :=
  (MAccount <$> accounts auth) ++ (MKey <$> keys auth) ++ (MWait <$> waits auth).

Definition sorted_metas {key} (auth : authority key) : list (meta_permission key) :=
  foldl emplace_permission [] (metas auth).

(** ** The checker *)

(** The fields an evaluation changes: [_used_keys] and the cache it is given. *)
Record checker_state := MkChecker {
  _used_keys : list bool;
  cached_permissions : permission_cache_type
}.

Section checker.
Context {key : Type} `{PublicKey key}.
(** The callable that looks up the authority of a permission. *)
Context (permission_to_authority : Action.permission_level → result exn (authority key)).
Context (provided_keys : list key) (provided_permissions : list Action.permission_level).
(** [provided_delay], in microseconds. *)
Context (provided_delay : Z).

Definition set_cache (st : checker_state) (p : Action.permission_level)
    (s : permission_cache_status) : checker_state :=
  MkChecker (_used_keys st) (<[p := s]> (cached_permissions st)).

Definition index_of (k : key) : option nat :=
  fst <$> list_find (λ k', k' = k) provided_keys.

Section visitor.
(** [checker.satisfied] one level deeper, unless the recursion limit is reached. *)
Context (rec : option (authority key → checker_state → result exn (checker_state * bool))).

(** The three overloads of [weight_tally_visitor::operator()]; the second component of
    the state is [total_weight]. *)
Definition visit (m : meta_permission key) (st : checker_state) (total_weight : Z) :
    result exn (checker_state * Z) :=
  match m with
  | MWait w =>
      if wait_sec w * 1000000 <=? provided_delay
      then Ok (st, u32 (total_weight + ww_weight w)) else Ok (st, total_weight)
  | MKey k =>
      match index_of (kw_key k) with
      | Some i => Ok (MkChecker (<[i := true]> (_used_keys st)) (cached_permissions st),
                      u32 (total_weight + kw_weight k))
      | None => Ok (st, total_weight)
      end
  | MAccount p =>
      match permission_status_in_cache (cached_permissions st) (permission p) with
      | Some permission_satisfied => Ok (st, u32 (total_weight + plw_weight p))
      | Some _ => Ok (st, total_weight)
      | None =>
          match rec with
          | None => Ok (st, total_weight)
          | Some rec =>
              match permission_to_authority (permission p) with
              | Throw e =>
                  if is_a e permission_query_exception then Ok (st, total_weight) else Throw e
              | Ok auth =>
                  '(st, r) ← rec auth (set_cache st (permission p) being_evaluated);
                  Ok (if r : bool
                      then (set_cache st (permission p) permission_satisfied,
                            u32 (total_weight + plw_weight p))
                      else (set_cache st (permission p) permission_unsatisfied, total_weight))
              end
          end
      end
  end.

Fixpoint check_permissions (threshold : Z) (l : list (meta_permission key)) (st : checker_state)
    (total_weight : Z) : result exn (checker_state * bool) :=
  match l with
  | [] => Ok (st, false)
  | m :: l =>
      '(st, total_weight) ← visit m st total_weight;
      if threshold <=? total_weight then Ok (st, true)
      else check_permissions threshold l st total_weight
  end.

(** [satisfied( authority, cached_permissions, depth )]; the used keys are restored unless
    the authority is satisfied. *)
Definition satisfied_with (auth : authority key) (st : checker_state) :
    result exn (checker_state * bool) :=
  '(st', r) ← check_permissions (threshold auth) (sorted_metas auth) st 0;
  Ok (if r : bool then st' else MkChecker (_used_keys st) (cached_permissions st'), r).
End visitor.

(** At a depth [n] below the recursion limit. *)
Fixpoint satisfied_at (n : nat) : authority key → checker_state → result exn (checker_state * bool) :=
  satisfied_with (match n with O => None | S n => Some (satisfied_at n) end).

Definition initialize_permission_cache : permission_cache_type :=
  foldl (λ cache p, match cache !! p with
                    | None => <[p := permission_satisfied]> cache
                    | Some _ => cache
                    end) ∅ provided_permissions.

(** The public [satisfied] methods, with a cache of their own: they return the used keys
    and the answer. *)
Definition satisfied_authority (recursion_depth_limit : nat) (used : list bool)
    (auth : authority key) : result exn (list bool * bool) :=
  '(st, r) ← satisfied_at recursion_depth_limit auth (MkChecker used initialize_permission_cache);
  Ok (_used_keys st, r).

Definition satisfied_permission (recursion_depth_limit : nat) (used : list bool)
    (p : Action.permission_level) : result exn (list bool * bool) :=
  '(st, total_weight) ←
    visit (match recursion_depth_limit with O => None | S n => Some (satisfied_at n) end)
      (MAccount (MkPlw p 1)) (MkChecker used initialize_permission_cache) 0;
  Ok (_used_keys st, 0 <? total_weight).

Definition no_used_keys : list bool := replicate (length provided_keys) false.
Definition all_keys_used (used : list bool) : bool := forallb id used.
(** [filter_data_by_marker] ([parallel_markers.hpp]) *)
Definition filter_data_by_marker (used : list bool) (marker : bool) : list key :=
  snd <$> filter (λ x, x.1 = marker) (zip used provided_keys).
Definition used_keys (used : list bool) : list key := filter_data_by_marker used true.
Definition unused_keys (used : list bool) : list key := filter_data_by_marker used false.

(** ** What it means to hold a permission *)

(** An entry of an authority is met, when the permissions in [P] are held. *)
Inductive entry_holds (P : Action.permission_level → Prop) : meta_permission key → Prop :=
  | account_holds p : P (permission p) → entry_holds P (MAccount p)
  | key_holds k : kw_key k ∈ provided_keys → entry_holds P (MKey k)
  | wait_holds w : wait_sec w * 1000000 ≤ provided_delay → entry_holds P (MWait w).

Definition total_weight_of (l : list (meta_permission key)) : Z := sum (meta_weight <$> l).

(** Distinct entries that are met carry the threshold. *)
Definition authority_holds (P : Action.permission_level → Prop) (auth : authority key) : Prop :=
  ∃ l, l ⊆+ metas auth ∧ Forall (entry_holds P) l ∧ threshold auth ≤ total_weight_of l.

(** A permission is held when it is provided, when every permission of the actor is (the
    level with an empty permission name), or when its authority is met by finitely many
    held permissions. *)
Inductive holds : Action.permission_level → Prop :=
  | holds_provided p : p ∈ provided_permissions → holds p
  | holds_any p : holds (Action.MkLevel (Action.actor p) 0) → holds p
  | holds_auth p auth l :
      permission_to_authority p = Ok auth → l ⊆+ metas auth →
      Forall (entry_holds holds) l → threshold auth ≤ total_weight_of l → holds p.

Definition cache_sound (st : checker_state) : Prop :=
  ∀ p, cached_permissions st !! p = Some permission_satisfied → holds p.

(** Weights are unsigned. *)
Definition weights_nonneg (auth : authority key) : Prop :=
  Forall (λ m, 0 ≤ meta_weight m) (metas auth).

Lemma emplace_Permutation (l : list (meta_permission key)) x : emplace_permission l x ≡ₚ x :: l.
Proof.
  induction l as [|y l IH]; cbn; [done|]. destruct (meta_geb y x); [|done].
  rewrite IH. apply perm_swap.
Qed.

Lemma sorted_metas_Permutation (auth : authority key) : sorted_metas auth ≡ₚ metas auth.
Proof.
  unfold sorted_metas. rewrite <-(app_nil_r (metas auth)) at 2.
  generalize (@nil (meta_permission key)). induction (metas auth) as [|x l IH]; intros acc; cbn; [done|].
  rewrite IH, emplace_Permutation. symmetry. apply Permutation_middle.
Qed.

Lemma cache_lookup_sound st p : cache_sound st →
  permission_status_in_cache (cached_permissions st) p = Some permission_satisfied → holds p.
Proof.
  intros Hc. unfold permission_status_in_cache.
  destruct (cached_permissions st !! p) eqn:Hp; [intros [= ->]; by apply Hc|].
  intros Hany. apply holds_any. by apply Hc.
Qed.

Lemma set_cache_sound st p s : cache_sound st → (s = permission_satisfied → holds p) →
  cache_sound (set_cache st p s).
Proof.
  intros Hc Hs q. cbn. rewrite lookup_insert_Some. intros [[<- Hq]|[_ Hq]]; [by apply Hs|by apply Hc].
Qed.

Lemma u32_le z : 0 ≤ z → 0 ≤ u32 z ≤ z.
Proof. intros Hz. pose proof (u32_range z). split; [lia|]. by apply Z.mod_le. Qed.

Hypothesis pta_nonneg : ∀ p auth, permission_to_authority p = Ok auth → weights_nonneg auth.

Definition rec_sound (rec : authority key → checker_state → result exn (checker_state * bool)) : Prop :=
  ∀ auth st st' r, weights_nonneg auth → cache_sound st → rec auth st = Ok (st', r) →
    cache_sound st' ∧ (r = true → authority_holds holds auth).

(** A visit keeps the cache sound and adds the weight of a met entry only. *)
Lemma visit_sound rec m st t st' t' : (∀ f, rec = Some f → rec_sound f) →
  0 ≤ meta_weight m → 0 ≤ t → cache_sound st → visit rec m st t = Ok (st', t') →
  cache_sound st' ∧ 0 ≤ t' ∧ (t' ≤ t ∨ (entry_holds holds m ∧ t' ≤ t + meta_weight m)).
Proof.
  intros Hrec Hw Ht Hc. destruct m as [p|k|w]; cbn [visit meta_weight] in *.
  - destruct (permission_status_in_cache (cached_permissions st) (permission p)) as [[]|] eqn:Hst.
    1,2: intros [= <- <-]; split_and!; [done|lia|lia].
    + intros [= <- <-]. pose proof (u32_le (t + plw_weight p) ltac:(lia)).
      split_and!; [done|lia|]. right. split; [constructor; by eapply cache_lookup_sound|lia].
    + destruct rec as [f|]; [|intros [= <- <-]; split_and!; [done|lia|lia]].
      destruct (permission_to_authority (permission p)) as [auth|e] eqn:Hpta.
      2:{ destruct (is_a e permission_query_exception); intros [= <- <-]; split_and!; [done|lia|lia]. }
      intros Hb. apply bind_Ok in Hb as ([st1 r] & H1 & Hb).
      apply (Hrec f eq_refl) in H1 as [Hc1 Hh]; [|by eapply pta_nonneg|by apply set_cache_sound].
      destruct r; injection Hb as <- <-.
      * destruct (Hh eq_refl) as (l & H1 & H2 & H3).
        assert (holds (permission p)) by (by eapply holds_auth).
        pose proof (u32_le (t + plw_weight p) ltac:(lia)).
        split_and!; [by apply set_cache_sound|lia|]. right. split; [by constructor|lia].
      * split_and!; [by apply set_cache_sound|lia|lia].
  - unfold index_of. destruct (list_find _ provided_keys) as [[i k']|] eqn:Hi; cbn; intros [= <- <-].
    + apply list_find_Some in Hi as (Hi & -> & _). pose proof (u32_le (t + kw_weight k) ltac:(lia)).
      split_and!; [done|lia|]. right. split; [apply key_holds; by eapply list_elem_of_lookup_2|lia].
    + split_and!; [done|lia|lia].
  - destruct (Z.leb_spec (wait_sec w * 1000000) provided_delay); intros [= <- <-].
    + pose proof (u32_le (t + ww_weight w) ltac:(lia)). split_and!; [done|lia|]. right. split; [by constructor|lia].
    + split_and!; [done|lia|lia].
Qed.

Lemma check_permissions_sound rec threshold l : (∀ f, rec = Some f → rec_sound f) →
  ∀ st t st' r, Forall (λ m, 0 ≤ meta_weight m) l → 0 ≤ t → cache_sound st →
  check_permissions rec threshold l st t = Ok (st', r) →
  cache_sound st' ∧ (r = true → ∃ l', l' ⊆+ l ∧ Forall (entry_holds holds) l' ∧
    threshold ≤ t + total_weight_of l').
Proof.
  intros Hrec. induction l as [|m l IH]; intros st t st' r Hw Ht Hc; cbn.
  - intros [= <- <-]. done.
  - inversion_clear Hw as [|? ? Hm Hl]. intros Hb. apply bind_Ok in Hb as ([st1 t1] & H1 & Hb).
    apply visit_sound in H1 as (Hc1 & Ht1 & Hadd); [|done..].
    destruct (Z.leb_spec threshold t1) as [Hthr|Hthr].
    + injection Hb as <- <-. split; [done|]. intros _. destruct Hadd as [Hle|[Hm' Hle]].
      * exists []. split_and!; [apply submseteq_nil_l|constructor|unfold total_weight_of; cbn; lia].
      * exists [m]. split_and!; [apply submseteq_skip, submseteq_nil_l|by repeat constructor|].
        unfold total_weight_of; cbn. lia.
    + apply IH in Hb as [Hc' Hr]; [|done..]. split; [done|]. intros ->.
      destruct (Hr eq_refl) as (l' & Hsub & Hall & Hle). destruct Hadd as [Hle1|[Hm' Hle1]].
      * exists l'. split_and!; [by apply submseteq_cons|done|lia].
      * exists (m :: l'). split_and!; [by apply submseteq_skip|by constructor|].
        unfold total_weight_of in *. cbn. unfold sum in *. lia.
Qed.

Lemma satisfied_at_sound n : rec_sound (satisfied_at n).
Proof.
  induction n as [|n IH]; intros auth st st' r Hw Hc; cbn; unfold satisfied_with; intros Hb;
    apply bind_Ok in Hb as ([st1 r1] & H1 & Hb); injection Hb as <- <-.
  all: apply check_permissions_sound in H1 as [Hc1 Hr]; [|by intros f [= <-] || done| |lia|done].
  2,4: by rewrite sorted_metas_Permutation.
  all: split; [by destruct r1|]. all: intros Hr1; destruct (Hr Hr1) as (l & Hsub & Hall & Hle).
  all: exists l; split_and!; [by rewrite <-sorted_metas_Permutation|done|lia].
Qed.

Lemma initialize_permission_cache_sound used : cache_sound (MkChecker used initialize_permission_cache).
Proof.
  unfold initialize_permission_cache, cache_sound; cbn.
  assert (∀ l (cache : permission_cache_type), (∀ q, q ∈ l → holds q) →
    (∀ p, cache !! p = Some permission_satisfied → holds p) →
    ∀ p, foldl (λ cache p, match cache !! p with
                           | None => <[p := permission_satisfied]> cache
                           | Some _ => cache
                           end) cache l !! p = Some permission_satisfied → holds p) as Hgen.
  { intros l. induction l as [|q l IH]; cbn; intros cache Hall H0; [done|].
    apply IH; [intros; apply Hall; by right|]. intros p.
    destruct (cache !! q); [apply H0|]. rewrite lookup_insert_Some.
    intros [[<- _]|[_ Hp]]; [apply Hall; by left|by apply H0]. }
  apply Hgen; [apply holds_provided|]. intros p Hp. by rewrite lookup_empty in Hp.
Qed.

Lemma satisfied_permission_sound recursion_depth_limit used used' p :
  satisfied_permission recursion_depth_limit used p = Ok (used', true) → holds p.
Proof.
  pose proof (initialize_permission_cache_sound used) as Hc.
  unfold satisfied_permission. intros Hb. apply bind_Ok in Hb as ([st t] & H1 & Hb).
  injection Hb as _ Ht. apply Z.ltb_lt in Ht.
  apply visit_sound in H1 as (_ & _ & Hadd); [|by destruct recursion_depth_limit; intros f [= <-];
    apply satisfied_at_sound|cbn; lia|lia|done].
  destruct Hadd as [|[Hh _]]; [lia|]. by inversion Hh.
Qed.

(** The checker is sound: when [satisfied] answers yes for a permission, the permission
    is really held (by provided keys, provided permissions, elapsed waits, through finitely
    many authorities each of whose threshold is met by distinct entries), and likewise for
    an authority; neither the cache, nor a cycle of permissions, nor an overflow of the
    32-bit tally can make it say yes otherwise. *)
Theorem satisfied_sound recursion_depth_limit used used' p auth :
  (satisfied_permission recursion_depth_limit used p = Ok (used', true) → holds p) ∧
  (weights_nonneg auth →
   satisfied_authority recursion_depth_limit used auth = Ok (used', true) →
   authority_holds holds auth).
Proof.
  split; [apply satisfied_permission_sound|].
  pose proof (initialize_permission_cache_sound used) as Hc. intros Hw Hb.
  apply bind_Ok in Hb as ([st r] & H1 & Hb). injection Hb as _ ->.
  by apply satisfied_at_sound in H1 as [_ Hr]; [apply Hr|..].
Qed.

(** ** Used keys *)

Definition used_ext (u u' : list bool) : Prop :=
  length u' = length u ∧ ∀ i, u !! i = Some true → u' !! i = Some true.

Lemma used_ext_trans u1 u2 u3 : used_ext u1 u2 → used_ext u2 u3 → used_ext u1 u3.
Proof. intros [A1 A2] [B1 B2]. split; [congruence|]. auto. Qed.

Definition rec_used (rec : authority key → checker_state → result exn (checker_state * bool)) : Prop :=
  ∀ auth st st' r, rec auth st = Ok (st', r) →
    used_ext (_used_keys st) (_used_keys st') ∧ (r = false → _used_keys st' = _used_keys st).

Lemma visit_used rec m st t st' t' : (∀ f, rec = Some f → rec_used f) →
  visit rec m st t = Ok (st', t') → used_ext (_used_keys st) (_used_keys st').
Proof.
  intros Hrec. destruct m as [p|k|w]; cbn [visit].
  - destruct (permission_status_in_cache _ _) as [[]|]; try by intros [= <- <-].
    destruct rec as [f|]; [|by intros [= <- <-]].
    destruct (permission_to_authority _) as [auth|e].
    2:{ by destruct (is_a e permission_query_exception); intros [= <- <-]. }
    intros Hb. apply bind_Ok in Hb as ([st1 r] & H1 & Hb).
    apply (Hrec f eq_refl) in H1 as [H1 _]. by destruct r; injection Hb as <- <-.
  - destruct (index_of (kw_key k)) as [i|]; intros [= <- <-]; [|done].
    split; cbn; [apply length_insert|]. intros j Hj.
    destruct (decide (i = j)) as [->|]; [|by rewrite list_lookup_insert_ne].
    apply list_lookup_insert_eq. by eapply lookup_lt_Some.
  - by destruct (_ <=? _); intros [= <- <-].
Qed.

Lemma check_permissions_used rec threshold l : (∀ f, rec = Some f → rec_used f) →
  ∀ st t st' r, check_permissions rec threshold l st t = Ok (st', r) →
  used_ext (_used_keys st) (_used_keys st').
Proof.
  intros Hrec. induction l as [|m l IH]; intros st t st' r; cbn; [by intros [= <- <-]|].
  intros Hb. apply bind_Ok in Hb as ([st1 t1] & H1 & Hb). apply visit_used in H1; [|done].
  destruct (threshold <=? t1); [by injection Hb as <- <-|]. eapply used_ext_trans; [done|eauto].
Qed.

Lemma satisfied_at_used n : rec_used (satisfied_at n).
Proof.
  induction n as [|n IH]; intros auth st st' r; cbn; unfold satisfied_with; intros Hb;
    apply bind_Ok in Hb as ([st1 r1] & H1 & Hb); injection Hb as <- <-.
  all: apply check_permissions_used in H1; [|by intros f [= <-] || done].
  all: by destruct r1.
Qed.

(** An answer of no leaves the marks of used keys as they were, so keys tried in vain
    do not count as used; an answer of yes only ever adds marks. *)
Theorem satisfied_used_keys recursion_depth_limit used used' p r :
  satisfied_permission recursion_depth_limit used p = Ok (used', r) →
  length used' = length used ∧
  (∀ i, used !! i = Some true → used' !! i = Some true) ∧
  (r = false → used' = used).
Proof.
  unfold satisfied_permission. intros Hb. apply bind_Ok in Hb as ([st t] & H1 & Hb).
  injection Hb as <- <-.
  pose proof H1 as H2. apply visit_used in H2 as [Hl Hi].
  2:{ intros f Hf. destruct recursion_depth_limit; [done|]. injection Hf as <-.
      apply satisfied_at_used. }
  split_and!; [done|done|]. rewrite Z.ltb_ge. intros Ht. revert H1. cbn [visit].
  destruct (permission_status_in_cache _ _) as [[]|]; try by intros [= <- <-].
  destruct recursion_depth_limit as [|n]; [by intros [= <- <-]|]. cbn [permission].
  destruct (permission_to_authority p) as [auth|e].
  2:{ by destruct (is_a e permission_query_exception); intros [= <- <-]. }
  intros H1. apply bind_Ok in H1 as ([st1 r] & H1 & Hb). apply satisfied_at_used in H1 as [_ Hf].
  destruct r; injection Hb as <- <-; [|by apply Hf]. by vm_compute in Ht.
Qed.

(** ** Completeness without cycles *)

(** A level with both names given. *)
Definition named (p : Action.permission_level) : Prop := Action.actor p ≠ 0 ∧ Action.permission p ≠ 0.

Definition below (rank : Action.permission_level → nat) (R : nat) (p : Action.permission_level) : Prop :=
  (rank p < R)%nat ∧ named p.

(** Permissions whose authorities refer to named permissions of a smaller rank only;
    looking up one that does not exist throws a [permission_query_exception]; the empty
    name is no permission; and authorities are as [validate] leaves them. *)
Record ranked (rank : Action.permission_level → nat) : Prop := {
  ranked_nonneg p auth : permission_to_authority p = Ok auth → weights_nonneg auth;
  ranked_fits p auth : permission_to_authority p = Ok auth → total_weight_of (metas auth) < 2 ^ 32;
  ranked_positive p auth : permission_to_authority p = Ok auth → 0 < threshold auth;
  ranked_smaller p auth q : permission_to_authority p = Ok auth →
    q ∈ accounts auth → below rank (rank p) (permission q);
  ranked_missing p e : named p → permission_to_authority p = Throw e →
    is_a e permission_query_exception = true;
  ranked_any a : ¬ is_ok (permission_to_authority (Action.MkLevel a 0))
}.

Section complete.
Context (rank : Action.permission_level → nat) (Hranked : ranked rank).

(** The cache in front of permissions of rank below [R]. *)
Record cache_exact (R : nat) (st : checker_state) : Prop := {
  exact_sound : cache_sound st;
  exact_unsat p : cached_permissions st !! p = Some permission_unsatisfied → ¬ holds p;
  exact_open p : cached_permissions st !! p = Some being_evaluated → (R ≤ rank p)%nat;
  exact_provided p : p ∈ provided_permissions →
    cached_permissions st !! p = Some permission_satisfied;
  exact_any a s : cached_permissions st !! Action.MkLevel a 0 = Some s → s = permission_satisfied
}.

(** Evaluations in progress stay the same over a call. *)
Definition same_open (st st' : checker_state) : Prop :=
  ∀ p, cached_permissions st' !! p = Some being_evaluated →
       cached_permissions st !! p = Some being_evaluated.

Definition rec_complete (n : nat)
    (rec : authority key → checker_state → result exn (checker_state * bool)) : Prop :=
  ∀ R auth st, (R ≤ n)%nat → cache_exact R st → weights_nonneg auth →
    total_weight_of (metas auth) < 2 ^ 32 → 0 < threshold auth →
    (∀ q, q ∈ accounts auth → below rank R (permission q)) →
    ∃ st' r, rec auth st = Ok (st', r) ∧ cache_exact R st' ∧ same_open st st' ∧
      (r = true ↔ authority_holds holds auth).

Lemma holds_any_provided a : holds (Action.MkLevel a 0) → Action.MkLevel a 0 ∈ provided_permissions.
Proof.
  intros Hh. remember (Action.MkLevel a 0) as p eqn:Hp. revert Hp.
  induction Hh as [p Hp|p Hh IH|p auth l Hpta]; intros ->; [done|by apply IH|].
  exfalso. apply (ranked_any rank Hranked a). by exists auth.
Qed.

Lemma holds_inv p : holds p → p ∉ provided_permissions →
  Action.MkLevel (Action.actor p) 0 ∉ provided_permissions →
  ∃ auth, permission_to_authority p = Ok auth ∧ authority_holds holds auth.
Proof.
  intros Hh Hp Ha. destruct Hh as [p Hp'|p Hany|p auth l Hpta Hl Hall Hle]; [done| |].
  - by apply holds_any_provided in Hany.
  - exists auth. split; [done|]. by exists l.
Qed.

Lemma cache_exact_none R st p : cache_exact R st →
  permission_status_in_cache (cached_permissions st) p = None →
  cached_permissions st !! p = None ∧ (p ∉ provided_permissions) ∧
  Action.MkLevel (Action.actor p) 0 ∉ provided_permissions.
Proof.
  intros [_ _ _ He _]. unfold permission_status_in_cache.
  destruct (cached_permissions st !! p) as [s|] eqn:Hp; [done|]. intros Hany.
  split_and!; [done| |].
  - intros Hin. apply He in Hin. congruence.
  - intros Hin. apply He in Hin. congruence.
Qed.

Lemma cache_exact_set R st p s : cache_exact R st → cached_permissions st !! p = None →
  Action.permission p ≠ 0 →
  (s = permission_satisfied → holds p) → (s = permission_unsatisfied → ¬ holds p) →
  (s = being_evaluated → (R ≤ rank p)%nat) → cache_exact R (set_cache st p s).
Proof.
  intros [E1 E2 E3 E4 E5] Hp Hne H1 H2 H3. split; [by apply set_cache_sound|..]; cbn.
  - intros q. rewrite lookup_insert_Some. intros [[<- ->]|[_ Hq]]; [by apply H2|by apply E2].
  - intros q. rewrite lookup_insert_Some. intros [[<- ->]|[_ Hq]]; [by apply H3|by apply E3].
  - intros q Hq. apply E4 in Hq. rewrite lookup_insert_ne by congruence. done.
  - intros a s'. rewrite lookup_insert_Some. intros [[-> _]|[_ Hq]]; [done|by eapply E5].
Qed.

(** What is known of a call one level deeper. *)
Definition rec_ok (rec : option (authority key → checker_state → result exn (checker_state * bool)))
    (R : nat) : Prop :=
  ∀ q, (q < R)%nat → ∃ n f, rec = Some f ∧ rec_complete n f ∧ (q ≤ n)%nat.

(** Recording the answer for a permission once its authority has been evaluated. *)
Lemma cache_exact_close R R' st st1 p s : cache_exact R st → cache_exact R' st1 →
  same_open (set_cache st p being_evaluated) st1 → Action.permission p ≠ 0 →
  p ∉ provided_permissions → s ≠ being_evaluated →
  (s = permission_satisfied → holds p) → (s = permission_unsatisfied → ¬ holds p) →
  cache_exact R (set_cache st1 p s) ∧ same_open st (set_cache st1 p s).
Proof.
  intros [_ _ E3 _ _] [F1 F2 _ F4 F5] Hopen Hne Hnp Hs Hs1 Hs2.
  assert (same_open st (set_cache st1 p s)) as Hsame.
  { intros q. cbn. rewrite lookup_insert_Some. intros [[_ Hq]|[Hqp Hq]]; [done|].
    apply Hopen in Hq. cbn in Hq. by rewrite lookup_insert_ne in Hq. }
  split; [|done]. split; [by apply set_cache_sound|..].
  - intros q. cbn. rewrite lookup_insert_Some. intros [[<- ->]|[_ Hq]]; [by apply Hs2|by apply F2].
  - intros q Hq. apply E3. by apply Hsame.
  - intros q Hq. cbn. rewrite lookup_insert_ne; [by apply F4|]. intros ->. done.
  - intros a s'. cbn. rewrite lookup_insert_Some. intros [[-> _]|[_ Hq]]; [done|by eapply F5].
Qed.

(** The outcome of visiting an entry. *)
Definition visited (R : nat) (st : checker_state) (m : meta_permission key) (t : Z)
    (res : result exn (checker_state * Z)) : Prop :=
  ∃ st' t', res = Ok (st', t') ∧ cache_exact R st' ∧ same_open st st' ∧
    ((entry_holds holds m ∧ t' = t + meta_weight m) ∨ (¬ entry_holds holds m ∧ t' = t)).

Lemma visited_same R st m t (b : bool) used : cache_exact R st →
  0 ≤ t + meta_weight m < 2 ^ 32 → (b = true ↔ entry_holds holds m) →
  visited R st m t (Ok (MkChecker used (cached_permissions st),
                        if b then u32 (t + meta_weight m) else t)).
Proof.
  intros [] Hfit Hb. do 2 eexists. split; [reflexivity|]. split; [by split|]. split; [by intros ?|].
  destruct b; [left; split; [by apply Hb|by apply u32_id]|right; split; [|done]].
  intros Hm. by apply Hb in Hm.
Qed.

Lemma cached_status_exact R st p s : cache_exact R st →
  permission_status_in_cache (cached_permissions st) p = Some s → (rank p < R)%nat →
  (s = permission_satisfied ↔ holds p).
Proof.
  intros He Hst Hrank. split; [intros ->; eapply cache_lookup_sound; [apply He|done]|].
  intros Hh. unfold permission_status_in_cache in Hst.
  destruct (cached_permissions st !! p) eqn:Hp; [|by apply (exact_any R st He) in Hst].
  injection Hst as ->. destruct s; [|by apply (exact_unsat R st He) in Hp|done].
  apply (exact_open R st He) in Hp. lia.
Qed.

Lemma entry_holds_account p : entry_holds holds (MAccount p) ↔ holds (permission p).
Proof. split; [by inversion 1|by constructor]. Qed.

Lemma visit_account_complete rec R p st t : rec_ok rec R → cache_exact R st →
  0 ≤ t + plw_weight p < 2 ^ 32 → below rank R (permission p) →
  visited R st (MAccount p) t (visit rec (MAccount p) st t).
Proof.
  intros Hrec He Hfit [Hrank Hnamed]. cbn [visit]. pose proof (visited_same R st (MAccount p) t) as Hsame.
  destruct (permission_status_in_cache (cached_permissions st) (permission p)) as [s|] eqn:Hst.
  { pose proof (cached_status_exact R st _ _ He Hst Hrank) as Hs. rewrite <-entry_holds_account in Hs.
    destruct st as [u c]. destruct s;
      [apply (Hsame false u)|apply (Hsame false u)|apply (Hsame true u)]; try done;
      rewrite <-Hs; done. }
  destruct (cache_exact_none R st _ He Hst) as (Hnone & Hnp & Hna).
  destruct (Hrec _ Hrank) as (n & f & -> & Hf & Hn).
  destruct (permission_to_authority (permission p)) as [auth|e] eqn:Hpta.
  2:{ rewrite (ranked_missing rank Hranked _ _ Hnamed Hpta). destruct st as [u c]. apply (Hsame false u); try done.
      rewrite entry_holds_account. split; [done|]. intros Hh.
      destruct (holds_inv _ Hh Hnp Hna) as (auth & Ha & _). congruence. }
  assert (Action.permission (permission p) ≠ 0) as Hne.
  { intros H0. apply (ranked_any rank Hranked (Action.actor (permission p))). exists auth.
    destruct (permission p). cbn in *. by subst. }
  destruct (Hf (rank (permission p)) auth (set_cache st (permission p) being_evaluated) Hn)
    as (st1 & r & -> & He1 & Hopen & Hr); [|by eapply ranked_nonneg|by eapply ranked_fits
    |by eapply ranked_positive|intros q Hq; by eapply ranked_smaller|].
  { apply cache_exact_set; try done.
    destruct He as [E1 E2 E3 E4 E5]. split; try done. intros q Hq. apply E3 in Hq. lia. }
  assert (holds (permission p) ↔ r = true) as Hiff.
  { rewrite Hr. split; [|intros (l & ? & ? & ?); by eapply holds_auth].
    intros Hh. destruct (holds_inv _ Hh Hnp Hna) as (auth' & Ha & Hah). congruence. }
  pose proof (cache_exact_close R (rank (permission p)) st st1 (permission p)) as Hclose.
  destruct r; do 2 eexists; (split; [reflexivity|]); rewrite entry_holds_account, Hiff.
  - destruct (Hclose permission_satisfied) as [A B]; try done; [by intros _; apply Hiff|].
    split_and!; [done|done|left]. split; [done|by apply u32_id].
  - destruct (Hclose permission_unsatisfied) as [A B]; try done; [by intros _ Hh%Hiff|].
    split_and!; [done|done|by right].
Qed.

(** A visit of an entry adds its weight exactly when the entry is met. *)
Lemma visit_complete rec R m st t : rec_ok rec R → cache_exact R st →
  0 ≤ t + meta_weight m < 2 ^ 32 → (∀ p, m = MAccount p → below rank R (permission p)) →
  visited R st m t (visit rec m st t).
Proof.
  intros Hrec He Hfit Hrank. pose proof (visited_same R st m t) as Hsame.
  destruct m as [p|k|w]; [apply visit_account_complete; by auto|..]; cbn [visit] in *.
  - unfold index_of. destruct (list_find _ provided_keys) as [[i k']|] eqn:Hi; cbn.
    + apply list_find_Some in Hi as (Hi & -> & _). apply (Hsame true); try done.
      split; [|done]. intros _. apply key_holds. by eapply list_elem_of_lookup_2.
    + destruct st as [u c]. apply (Hsame false u); try done. split; [done|].
      inversion_clear 1 as [|? Hk|]. apply list_find_None in Hi. rewrite Forall_forall in Hi.
      by destruct (Hi _ Hk).
  - destruct st as [u c].
    destruct (Z.leb_spec (wait_sec w * 1000000) provided_delay); [apply (Hsame true u)|apply (Hsame false u)];
      try done; (split; [|by inversion_clear 1; lia]); intros; by constructor.
Qed.

Lemma check_permissions_complete rec R threshold l : rec_ok rec R → ∀ st t,
  cache_exact R st → Forall (λ m, 0 ≤ meta_weight m) l → 0 ≤ t < threshold →
  t + total_weight_of l < 2 ^ 32 →
  (∀ p, MAccount p ∈ l → below rank R (permission p)) →
  ∃ st' r, check_permissions rec threshold l st t = Ok (st', r) ∧ cache_exact R st' ∧
    same_open st st' ∧
    (r = false → ∀ l', l' ⊆+ l → Forall (entry_holds holds) l' → t + total_weight_of l' < threshold).
Proof.
  intros Hrec. induction l as [|m l IH]; intros st t He Hw Ht Hfit Hrank; cbn [check_permissions].
  { do 2 eexists. split; [reflexivity|]. split_and!; [done|by intros ?|].
    intros _ l' Hl' _. apply submseteq_nil_r in Hl' as ->. unfold total_weight_of; cbn. lia. }
  inversion_clear Hw as [|? ? Hm Hl].
  assert (0 ≤ total_weight_of l) as Hnn.
  { unfold total_weight_of, sum. clear -Hl. induction Hl; cbn; lia. }
  change (total_weight_of (m :: l)) with (meta_weight m + total_weight_of l) in Hfit.
  destruct (visit_complete rec R m st t Hrec He) as (st1 & t1 & -> & He1 & Hs1 & Hadd); [lia|..].
  { intros p ->. apply Hrank. by left. }
  cbn [mbind result_bind]. destruct (Z.leb_spec threshold t1) as [Hle|Hlt].
  { do 2 eexists. split; [reflexivity|]. done. }
  destruct (IH st1 t1) as (st' & r & -> & He' & Hs' & Hr); [done|done|lia|lia|..].
  { intros p Hp. apply Hrank. by right. }
  do 2 eexists. split; [reflexivity|]. split_and!; [done|intros p Hp; by apply Hs1, Hs'|].
  intros Hf l' Hl' Hall. apply submseteq_cons_r in Hl' as [Hl'|(l'' & Hperm & Hl'')].
  - specialize (Hr Hf l' Hl' Hall). lia.
  - rewrite Hperm in Hall. inversion_clear Hall as [|? ? Hhm Hall']. specialize (Hr Hf l'' Hl'' Hall').
    assert (total_weight_of l' = meta_weight m + total_weight_of l'') as ->.
    { unfold total_weight_of. change (meta_weight m + sum (meta_weight <$> l''))
        with (sum (meta_weight <$> m :: l'')). rewrite <-Hperm. done. }
    destruct Hadd as [[_ ->]|[Hno _]]; [lia|done].
Qed.

Lemma rec_ok_at n R : (∀ m, (m < n)%nat → rec_complete m (satisfied_at m)) → (R ≤ n)%nat →
  rec_ok (match n with O => None | S n => Some (satisfied_at n) end) R.
Proof.
  intros Hall Hle q Hq. destruct n as [|n]; [lia|]. exists n, (satisfied_at n).
  split_and!; [done|apply Hall; lia|lia].
Qed.

Lemma satisfied_at_complete n : rec_complete n (satisfied_at n).
Proof.
  induction (lt_wf n) as [n _ IH]. intros R auth st Hle He Hw Hfit Hthr Hacc.
  assert (satisfied_at n = satisfied_with (match n with O => None | S n => Some (satisfied_at n) end))
    as -> by (by destruct n).
  unfold satisfied_with.
  destruct (check_permissions_complete _ R (threshold auth) (sorted_metas auth)
    (rec_ok_at n R IH Hle) st 0) as (st1 & r & Hc & He1 & Hs1 & Hr);
    [done|by rewrite sorted_metas_Permutation|lia| | |].
  { unfold total_weight_of. rewrite sorted_metas_Permutation. exact Hfit. }
  { intros p Hp. rewrite sorted_metas_Permutation in Hp. apply Hacc. unfold metas in Hp.
    rewrite !elem_of_app, !list_elem_of_fmap in Hp.
    destruct Hp as [(? & [= ->] & ?)|[(? & ? & _)|(? & ? & _)]]; done. }
  rewrite Hc. cbn [mbind result_bind]. do 2 eexists. split; [reflexivity|].
  split_and!; [by destruct r, He1|by destruct r|]. split.
  - intros ->. eapply check_permissions_sound in Hc as [_ Ht];
      [|intros f Hf; destruct n as [|n']; [done|]; injection Hf as <-; apply satisfied_at_sound
       |by rewrite sorted_metas_Permutation|lia|by destruct He].
    destruct (Ht eq_refl) as (l & Hsub & Hall & Hsum). exists l.
    split_and!; [by rewrite <-sorted_metas_Permutation|done|lia].
  - intros (l & Hsub & Hall & Hsum). destruct r; [done|exfalso].
    specialize (Hr eq_refl l). rewrite sorted_metas_Permutation in Hr.
    specialize (Hr Hsub Hall). lia.
Qed.

Lemma initialize_permission_cache_exact R used :
  cache_exact R (MkChecker used initialize_permission_cache).
Proof.
  assert (∀ l (cache : permission_cache_type) p,
    foldl (λ cache p, match cache !! p with
                      | None => <[p := permission_satisfied]> cache
                      | Some _ => cache
                      end) cache l !! p =
      match cache !! p with
      | Some s => Some s
      | None => if bool_decide (p ∈ l) then Some permission_satisfied else None
      end) as Hgen.
  { intros l. induction l as [|q l IH]; intros cache p; cbn [foldl].
    - rewrite bool_decide_false by apply not_elem_of_nil. by destruct (cache !! p).
    - rewrite IH. destruct (decide (p = q)) as [->|Hne].
      + rewrite (bool_decide_true (q ∈ q :: l)) by (by left).
        destruct (cache !! q) as [s|] eqn:Hq; [by rewrite Hq|by rewrite lookup_insert_eq].
      + rewrite (bool_decide_ext (p ∈ q :: l) (p ∈ l)) by (rewrite elem_of_cons; naive_solver).
        destruct (cache !! q); [done|]. by rewrite lookup_insert_ne. }
  assert (∀ p, initialize_permission_cache !! p =
    if bool_decide (p ∈ provided_permissions) then Some permission_satisfied else None) as Hc.
  { intros p. unfold initialize_permission_cache. by rewrite Hgen, lookup_empty. }
  split; [apply initialize_permission_cache_sound|..]; cbn; intros p; rewrite Hc;
    try (by case_bool_decide).
  intros s. case_bool_decide; congruence.
Qed.

Lemma satisfied_permission_complete recursion_depth_limit used p :
  below rank recursion_depth_limit p →
  ∃ used' r, satisfied_permission recursion_depth_limit used p = Ok (used', r) ∧
    (r = true ↔ holds p).
Proof.
  intros [Hrank Hnamed]. unfold satisfied_permission.
  destruct (visit_complete (match recursion_depth_limit with O => None | S n => Some (satisfied_at n) end)
    (S (rank p)) (MAccount (MkPlw p 1)) (MkChecker used initialize_permission_cache) 0)
    as (st & t & -> & _ & _ & Hadd).
  - apply rec_ok_at; [intros; apply satisfied_at_complete|lia].
  - apply initialize_permission_cache_exact.
  - cbn. lia.
  - intros q [= <-]. split; [cbn; lia|done].
  - cbn [mbind result_bind]. do 2 eexists. split; [reflexivity|].
    rewrite entry_holds_account in Hadd. cbn [permission plw_weight meta_weight] in Hadd.
    rewrite Z.ltb_lt. destruct Hadd as [[Hh ->]|[Hh ->]]; [|split; [lia|done]]. split; [done|lia].
Qed.
End complete.
End checker.

(** C30: where permissions refer to each other without cycles and no deeper than the
    recursion limit, the checker decides exactly whether a permission is held: the cache,
    the order in which entries are tried and the early exit lose nothing. *)
Theorem satisfied_exact {key} `{PublicKey key} (permission_to_authority : _ → result exn (authority key))
    provided_keys provided_permissions provided_delay rank recursion_depth_limit used p :
  ranked permission_to_authority rank → below rank recursion_depth_limit p →
  ∃ used' r,
    satisfied_permission permission_to_authority provided_keys provided_permissions provided_delay
      recursion_depth_limit used p = Ok (used', r) ∧
    (r = true ↔ holds permission_to_authority provided_keys provided_permissions provided_delay p).
Proof.
  intros Hr Hlt. eapply satisfied_permission_complete; [|done|done].
  intros q auth. by apply (ranked_nonneg _ rank Hr).
Qed.

(** ** An example

    Five permissions of one account: [x] and [y] with one key each, [a] needs both, [b]
    needs [x], and [top] needs [a] or [b]. *)
Definition level (p : Z) : Action.permission_level := Action.MkLevel 1 p.

Definition sample_authority (p : Action.permission_level) : result exn (authority Z) :=
  if negb (Action.actor p =? 1) then Throw permission_query_exception else
  match Action.permission p with
  | 10 => Ok (MkAuthority 1 [MkKw 100 1] [] [])
  | 11 => Ok (MkAuthority 1 [MkKw 200 1] [] [])
  | 12 => Ok (MkAuthority 2 [] [MkPlw (level 10) 1; MkPlw (level 11) 1] [])
  | 13 => Ok (MkAuthority 1 [] [MkPlw (level 10) 1] [])
  | 14 => Ok (MkAuthority 1 [] [MkPlw (level 12) 2; MkPlw (level 13) 1] [])
  | _ => Throw permission_query_exception
  end.

Definition sample_rank (p : Action.permission_level) : nat :=
  match Action.permission p with 10 | 11 => 0%nat | 12 | 13 => 1%nat | _ => 2%nat end.

(** The marks of used keys can lose a key that was needed: when a permission was found
    satisfied inside an authority that failed, its keys are unmarked but its cached answer
    stays, and a later use of the cached answer does not mark them again.  Here the only
    key provided is necessary and sufficient, and is reported unused. *)
Theorem cached_permission_loses_used_key :
  satisfied_permission sample_authority [100] [] 0 6 (no_used_keys [100]) (level 14)
    = Ok ([false], true) ∧
  unused_keys [100] [false] = [100] ∧
  satisfied_permission sample_authority [] [] 0 6 (no_used_keys (@nil Z)) (level 14)
    = Ok ([], false).
Proof. split_and!; vm_compute; reflexivity. Qed.

Lemma sample_authority_inv p auth : sample_authority p = Ok auth →
  (p = level 10 ∧ auth = MkAuthority 1 [MkKw 100 1] [] []) ∨
  (p = level 11 ∧ auth = MkAuthority 1 [MkKw 200 1] [] []) ∨
  (p = level 12 ∧ auth = MkAuthority 2 [] [MkPlw (level 10) 1; MkPlw (level 11) 1] []) ∨
  (p = level 13 ∧ auth = MkAuthority 1 [] [MkPlw (level 10) 1] []) ∨
  (p = level 14 ∧ auth = MkAuthority 1 [] [MkPlw (level 12) 2; MkPlw (level 13) 1] []).
Proof.
  unfold sample_authority, level. destruct p as [a q]. cbn.
  destruct (Z.eqb_spec a 1) as [->|]; cbn; [|done].
  repeat case_match; intros H'; try discriminate H'; injection H' as <-; auto 10.
Qed.

Lemma sample_ranked : ranked sample_authority sample_rank.
Proof.
  split.
  - intros p auth Ha. unfold weights_nonneg.
    apply sample_authority_inv in Ha as [[_ ->]|[[_ ->]|[[_ ->]|[[_ ->]|[_ ->]]]]];
      repeat (apply Forall_cons; split; [cbn; lia|]); by apply Forall_nil.
  - intros p auth Ha.
    apply sample_authority_inv in Ha as [[_ ->]|[[_ ->]|[[_ ->]|[[_ ->]|[_ ->]]]]]; done.
  - intros p auth Ha.
    apply sample_authority_inv in Ha as [[_ ->]|[[_ ->]|[[_ ->]|[[_ ->]|[_ ->]]]]]; done.
  - intros p auth q Ha Hq.
    apply sample_authority_inv in Ha as [[-> ->]|[[-> ->]|[[-> ->]|[[-> ->]|[-> ->]]]]]; cbn in Hq;
      rewrite ?elem_of_cons, ?elem_of_nil in Hq; destruct_or? Hq; subst; try done; (split; [cbn; lia|done]).
  - intros p e _. unfold sample_authority.
    repeat case_match; intros H'; try discriminate H'; injection H' as <-; reflexivity.
  - intros a [auth Ha].
    apply sample_authority_inv in Ha as [[H' _]|[[H' _]|[[H' _]|[[H' _]|[H' _]]]]]; discriminate H'.
Qed.

Lemma satisfied_exact_witness :
  ∃ used' r, satisfied_permission sample_authority [100] [] 0 6 (no_used_keys [100]) (level 14)
    = Ok (used', r) ∧ (r = true ↔ holds sample_authority [100] [] 0 (level 14)).
Proof.
  apply (satisfied_exact sample_authority [100] [] 0 sample_rank 6 (no_used_keys [100]) (level 14)
    sample_ranked). split; [cbn; lia|done].
Defined.

Lemma satisfied_sound_witness : holds sample_authority [100] [] 0 (level 14).
Proof.
  apply (satisfied_sound sample_authority [100] [] 0 (ranked_nonneg _ _ sample_ranked)
    6 (no_used_keys [100]) [false] (level 14) (MkAuthority 1 [] [] [])).
  vm_compute. reflexivity.
Defined.

Lemma satisfied_used_keys_witness :
  ∃ used', satisfied_permission sample_authority [100] [] 0 6 (no_used_keys [100]) (level 12)
    = Ok (used', false) ∧ used' = [false].
Proof.
  exists [false]. assert (satisfied_permission sample_authority [100] [] 0 6 (no_used_keys [100])
    (level 12) = Ok ([false], false)) as Hs by (vm_compute; reflexivity).
  split; [exact Hs|].
  exact (proj2 (proj2 (satisfied_used_keys sample_authority [100] [] 0 6 (no_used_keys [100])
    [false] (level 12) false Hs)) eq_refl).
Defined.
End AuthorityChecker.
