(* ===== verification/Permissions.v ===== *)
(** * The permission tables

    Models [permission_object.hpp], [permission_link_object.hpp] and the operations of
    [authorization_manager.cpp] on their tables: creating, modifying, removing and looking
    up permissions, links from actions to permissions, and the comparison [satisfies] of
    two permissions of an account. *)

From S2P Require Import Prelude.
From S2P Require Import Exceptions.
From S2P Require Import Name.
From S2P Require Import Action.
From S2P Require Import ChainConfig.
From S2P Require Import Authority.
From S2P Require Import Database.

Local Open Scope Z_scope.

Module Permissions.
Import Config.

(** A [permission_object] without its id, by which the table is indexed. *)
Record permission_object (key : Type) := MkPermission {
  usage_id : Z;
  parent : Z;
  owner : Z;
  name : Z;
  last_updated : Z;
  auth : Authority.authority key
}.
#[global] Arguments MkPermission {_} _ _ _ _ _ _.
#[global] Arguments usage_id {_} _.
#[global] Arguments parent {_} _.
#[global] Arguments owner {_} _.
#[global] Arguments name {_} _.
#[global] Arguments last_updated {_} _.
#[global] Arguments auth {_} _.

(** The tables of the authorization manager.  chainbase numbers the rows of a table
    consecutively; [next_permission] and [next_usage] are the next numbers.  A row of
    [links] is keyed by account, code and message type and holds the required permission;
    one of [permission_usages] holds [last_used]. *)
Record auth_db (key : Type) := MkAuthDb {
  permissions : gmap Z (permission_object key);
  next_permission : Z;
  permission_usages : gmap Z Z;
  next_usage : Z;
  links : gmap (Z * Z * Z) Z
}.
#[global] Arguments MkAuthDb {_} _ _ _ _ _.
#[global] Arguments permissions {_} _.
#[global] Arguments next_permission {_} _.
#[global] Arguments permission_usages {_} _.
#[global] Arguments next_usage {_} _.
#[global] Arguments links {_} _.

Section permissions.
Context {key : Type} `{PublicKey key}.

(** [initialize_database] reserves the permission 0. *)
Definition reserved : permission_object key :=
  MkPermission 0 0 0 0 0 (Authority.MkAuthority 0 [] [] []).
Definition initialize_database : auth_db key := MkAuthDb {[ 0 := reserved ]} 1 ∅ 0 ∅.

Definition set_permissions (db : auth_db key) (p : gmap Z (permission_object key)) : auth_db key :=
  MkAuthDb p (next_permission db) (permission_usages db) (next_usage db) (links db).
Definition set_links (db : auth_db key) (l : gmap (Z * Z * Z) Z) : auth_db key :=
  MkAuthDb (permissions db) (next_permission db) (permission_usages db) (next_usage db) l.

(** [find<permission_object, by_owner>]: the index is unique on owner and name. *)
Definition find_by_owner (db : auth_db key) (o n : Z) : option (Z * permission_object key) :=
  head (map_to_list (filter (λ x, owner x.2 = o ∧ name x.2 = n) (permissions db))).

Definition find_permission (db : auth_db key) (level : Action.permission_level) :
    result exn (option (Z * permission_object key)) :=
  rethrow_exceptions permission_query_exception
    (_ ← assert_that (negb (Action.actor level =? 0) && negb (Action.permission level =? 0))
           invalid_permission;
     Ok (find_by_owner db (Action.actor level) (Action.permission level))).

Definition get_permission (db : auth_db key) (level : Action.permission_level) :
    result exn (Z * permission_object key) :=
  rethrow_exceptions permission_query_exception
    (_ ← assert_that (negb (Action.actor level =? 0) && negb (Action.permission level =? 0))
           invalid_permission;
     match find_by_owner db (Action.actor level) (Action.permission level) with
     | Some p => Ok p
     | None => Throw std_exception
     end).

(** ** Changing permissions *)

Section modify.
(** [k.key.which()], the number of key types in use, and the time of the pending block. *)
Context (which : key → Z) (num_supported_key_types pending_block_time : Z).

Fixpoint check_key_types (ks : list (Authority.key_weight key)) : result exn unit :=
  match ks with
  | [] => Ok tt
  | k :: ks =>
      _ ← assert_that (which (Authority.kw_key k) <? num_supported_key_types) unactivated_key_type;
      check_key_types ks
  end.

(** Returns the id of the new permission; a [time_point()] of 0 stands for the time of
    the pending block. *)
Definition create_permission (db : auth_db key) (account pname parent_id : Z)
    (a : Authority.authority key) (initial_creation_time : Z) : result exn (auth_db key * Z) :=
  _ ← check_key_types (Authority.keys a);
  let creation_time := if initial_creation_time =? 0 then pending_block_time else initial_creation_time in
  usages ← create (permission_usages db) (next_usage db) creation_time;
  _ ← assert_that (match find_by_owner db account pname with None => true | Some _ => false end)
        std_exception;
  perms ← create (permissions db) (next_permission db)
            (MkPermission (next_usage db) parent_id account pname creation_time a);
  Ok (MkAuthDb perms (next_permission db + 1) usages (next_usage db + 1) (links db),
      next_permission db).

Definition modify_permission (db : auth_db key) (id : Z) (p : permission_object key)
    (a : Authority.authority key) : result exn (auth_db key) :=
  _ ← check_key_types (Authority.keys a);
  Ok (set_permissions db (<[id := MkPermission (usage_id p) (parent p) (owner p) (name p)
                                   pending_block_time a]> (permissions db))).

Definition remove_permission (db : auth_db key) (id : Z) (p : permission_object key) :
    result exn (auth_db key) :=
  _ ← assert_that (bool_decide (map_Forall (λ _ q, parent q ≠ id) (permissions db)))
        action_validate_exception;
  _ ← get (permission_usages db) (usage_id p);
  Ok (MkAuthDb (delete id (permissions db)) (next_permission db)
        (delete (usage_id p) (permission_usages db)) (next_usage db) (links db)).

Definition update_permission_usage (db : auth_db key) (p : permission_object key) :
    result exn (auth_db key) :=
  _ ← get (permission_usages db) (usage_id p);
  Ok (MkAuthDb (permissions db) (next_permission db)
        (<[usage_id p := pending_block_time]> (permission_usages db)) (next_usage db) (links db)).

Definition get_permission_last_used (db : auth_db key) (p : permission_object key) : result exn Z :=
  get (permission_usages db) (usage_id p).
End modify.

(** ** Comparing permissions *)

(** The loop of [satisfies], from the permission [q]: [None] when it would dereference the
    end of the index, or when the fuel is used up. *)
Fixpoint walk_parents (db : auth_db key) (id : Z) (fuel : nat) (q : permission_object key) :
    option bool :=
  match fuel with
  | O => None
  | S fuel =>
      if id =? parent q then Some true
      else if parent q =? 0 then Some false
      else match permissions db !! parent q with
           | None => None
           | Some q => walk_parents db id fuel q
           end
  end.

(** [p.satisfies( other, permission_index )] for permissions with their ids; ids decrease
    towards the root, so that there are fewer steps than ids. *)
Definition satisfies (db : auth_db key) (p other : Z * permission_object key) : option bool :=
  if negb (owner p.2 =? owner other.2) then Some false
  else if (p.1 =? other.1) || (p.1 =? parent other.2) then Some true
  else match permissions db !! parent other.2 with
       | None => None
       | Some q => walk_parents db p.1 (Z.to_nat (next_permission db)) q
       end.

(** ** Links *)

Definition lookup_linked_permission (db : auth_db key) (authorizer_account scope act_name : Z) :
    option Z :=
  match links db !! (authorizer_account, scope, act_name) with
  | Some p => Some p
  | None => links db !! (authorizer_account, scope, 0)
  end.

(** The native actions that cannot be linked. *)
Definition unlinkable (act_name : Z) : bool :=
  (act_name =? Name.N "updateauth") || (act_name =? Name.N "deleteauth") ||
  (act_name =? Name.N "linkauth") || (act_name =? Name.N "unlinkauth") ||
  (act_name =? Name.N "canceldelay").

Definition lookup_minimum_permission (db : auth_db key) (authorizer_account scope act_name : Z) :
    result exn (option Z) :=
  _ ← (if scope =? system_account_name
       then assert_that (negb (unlinkable act_name)) unlinkable_min_permission_action
       else Ok tt);
  match lookup_linked_permission db authorizer_account scope act_name with
  | None => Ok (Some active_name)
  | Some linked => if linked =? eosio_any_name then Ok None else Ok (Some linked)
  end.

(** ** Well-formed tables *)

Record wf (db : auth_db key) : Prop := {
  wf_reserved : permissions db !! 0 = Some reserved;
  wf_range i p : permissions db !! i = Some p → 0 ≤ i < next_permission db;
  wf_named i p : permissions db !! i = Some p → i ≠ 0 → owner p ≠ 0 ∧ name p ≠ 0;
  wf_parent i p : permissions db !! i = Some p → i ≠ 0 → 0 ≤ parent p < i ∧
    ∃ q, permissions db !! parent p = Some q ∧ (parent p = 0 ∨ owner q = owner p);
  wf_unique i j p q : permissions db !! i = Some p → permissions db !! j = Some q →
    owner p = owner q → name p = name q → i = j;
  wf_usage i p : permissions db !! i = Some p → i ≠ 0 → is_Some (permission_usages db !! usage_id p);
  wf_usage_unique i j p q : permissions db !! i = Some p → permissions db !! j = Some q →
    i ≠ 0 → j ≠ 0 → usage_id p = usage_id q → i = j;
  wf_usage_range u t : permission_usages db !! u = Some t → 0 ≤ u < next_usage db;
  wf_next : 0 < next_permission db ∧ 0 ≤ next_usage db
}.

(** The hierarchy: [parent_of db i j] when [j] is the parent of the permission [i]. *)
Definition parent_of (db : auth_db key) (i j : Z) : Prop :=
  ∃ p, permissions db !! i = Some p ∧ i ≠ 0 ∧ j = parent p.

Lemma find_by_owner_Some db o n i p : find_by_owner db o n = Some (i, p) →
  permissions db !! i = Some p ∧ owner p = o ∧ name p = n.
Proof.
  unfold find_by_owner. intros Hh. apply head_Some_elem_of, elem_of_map_to_list in Hh.
  apply map_lookup_filter_Some in Hh as [Hp [Ho Hn]]. done.
Qed.

Lemma find_by_owner_None db o n i p : find_by_owner db o n = None →
  permissions db !! i = Some p → ¬ (owner p = o ∧ name p = n).
Proof.
  unfold find_by_owner. rewrite head_None. intros Hnil Hp Hon.
  apply map_to_list_empty_iff in Hnil. rewrite map_empty in Hnil. specialize (Hnil i).
  rewrite map_lookup_filter_None in Hnil. destruct Hnil as [Hn|Hn]; [congruence|].
  by apply (Hn p Hp).
Qed.

(** In a well-formed table a permission is found by its owner and name. *)
Lemma find_by_owner_lookup db i p : wf db → permissions db !! i = Some p →
  find_by_owner db (owner p) (name p) = Some (i, p).
Proof.
  intros Hwf Hp. destruct (find_by_owner db (owner p) (name p)) as [[j q]|] eqn:Hf.
  - apply find_by_owner_Some in Hf as (Hq & Ho & Hn).
    assert (j = i) as -> by (by eapply wf_unique). congruence.
  - exfalso. by eapply find_by_owner_None.
Qed.

Lemma find_permission_Ok db level r : find_permission db level = Ok r →
  r = find_by_owner db (Action.actor level) (Action.permission level).
Proof.
  unfold find_permission.
  destruct (negb (Action.actor level =? 0) && negb (Action.permission level =? 0)); [|done].
  cbn. congruence.
Qed.

Lemma get_permission_Ok db level i p : get_permission db level = Ok (i, p) →
  permissions db !! i = Some p ∧ owner p = Action.actor level ∧ name p = Action.permission level ∧
  Action.actor level ≠ 0 ∧ Action.permission level ≠ 0.
Proof.
  unfold get_permission.
  destruct (Z.eqb_spec (Action.actor level) 0), (Z.eqb_spec (Action.permission level) 0); try done.
  cbn [negb andb assert_that mbind result_bind].
  destruct (find_by_owner db _ _) as [[j q]|] eqn:Hf; [|done].
  cbn. intros [= -> ->]. by apply find_by_owner_Some in Hf as (? & ? & ?).
Qed.

(** ** [satisfies] decides the hierarchy *)

Lemma rtc_parent_of db i j p : permissions db !! j = Some p → j ≠ 0 →
  rtc (parent_of db) j i ↔ i = j ∨ rtc (parent_of db) (parent p) i.
Proof.
  intros Hp Hj. split.
  - intros Hr. inversion Hr as [|? k ? [q (Hq & _ & ->)] Hr']; subst; [by left|right]. congruence.
  - intros [->|Hr]; [done|]. eapply rtc_l; [|exact Hr]. by exists p.
Qed.

Lemma rtc_parent_of_zero db i : rtc (parent_of db) 0 i ↔ i = 0.
Proof.
  split; [|by intros ->]. intros Hr. inversion Hr as [|? ? ? [q (_ & Hn & _)]]; done.
Qed.

(** The walk from [q], itself not the permission sought, decides whether [id] is above it. *)
Lemma walk_parents_spec db id fuel : wf db → id ≠ 0 → ∀ j q,
  permissions db !! j = Some q → (Z.to_nat j < fuel)%nat →
  ∃ b, walk_parents db id fuel q = Some b ∧
    (b = true ↔ (j ≠ 0 ∧ rtc (parent_of db) (parent q) id)).
Proof.
  intros Hwf Hid. induction fuel as [|fuel IH]; intros j q Hq Hlt; [lia|].
  cbn [walk_parents]. destruct (decide (j = 0)) as [->|Hj].
  { rewrite (wf_reserved db Hwf) in Hq. injection Hq as <-. cbn.
    rewrite (proj2 (Z.eqb_neq _ _) Hid). eexists. split; [done|]. split; [done|by intros [? _]]. }
  destruct (wf_parent db Hwf j q Hq Hj) as [Hpar (r & Hr & _)].
  destruct (Z.eqb_spec id (parent q)) as [->|Hne].
  { eexists. split; [done|]. split; [done|]. by intros _. }
  destruct (Z.eqb_spec (parent q) 0) as [H0|H0].
  { eexists. split; [done|]. split; [done|]. rewrite H0, rtc_parent_of_zero. by intros [_ ?]. }
  rewrite Hr. destruct (IH (parent q) r Hr) as (b & Hb & Hiff); [lia|].
  exists b. split; [done|]. rewrite Hiff, (rtc_parent_of db id (parent q) r Hr H0). tauto.
Qed.

Lemma satisfies_spec db i p j q : wf db →
  permissions db !! i = Some p → permissions db !! j = Some q →
  ∃ b, satisfies db (i, p) (j, q) = Some b ∧
    (b = true ↔ owner p = owner q ∧ rtc (parent_of db) j i).
Proof.
  intros Hwf Hp Hq. unfold satisfies. cbn [fst snd].
  destruct (Z.eqb_spec (owner p) (owner q)) as [Ho|Ho]; cbn [negb].
  2:{ eexists. split; [done|]. split; [done|by intros [? _]]. }
  destruct (Z.eqb_spec i j) as [->|Hij]; cbn [orb].
  { eexists. split; [done|]. split; [|done]. intros _. split; [done|apply rtc_refl]. }
  assert (i ≠ 0 ∧ j ≠ 0) as [Hi Hj].
  { pose proof (wf_reserved db Hwf) as Hz. pose proof (wf_named db Hwf) as Hn.
    split; intros ->; rewrite Hz in *; simplify_eq; cbn in Ho.
    - by destruct (Hn j q Hq ltac:(done)).
    - by destruct (Hn i p Hp ltac:(done)). }
  pose proof (rtc_parent_of db i j q Hq Hj) as Hrtc.
  destruct (Z.eqb_spec i (parent q)) as [->|Hne].
  { eexists. split; [done|]. split; [|done]. intros _. split; [done|]. apply Hrtc. by right. }
  destruct (wf_parent db Hwf j q Hq Hj) as [Hpar (r & Hr & _)]. rewrite Hr.
  destruct (walk_parents_spec db i (Z.to_nat (next_permission db)) Hwf Hi (parent q) r Hr)
    as (b & Hb & Hiff); [pose proof (wf_range db Hwf _ _ Hr); lia|].
  exists b. split; [done|]. rewrite Hiff, Hrtc. split.
  - intros [H0 Hrt]. split; [done|right]. by rewrite (rtc_parent_of db i _ r Hr H0); right.
  - intros [_ [?|Hrt]]; [done|]. destruct (decide (parent q = 0)) as [H0|H0].
    + rewrite H0, rtc_parent_of_zero in Hrt. done.
    + split; [done|]. by rewrite (rtc_parent_of db i _ r Hr H0) in Hrt; destruct Hrt.
Qed.

(** In the permission tables of a chain [satisfies] always terminates with an answer,
    never reads past the end of the index, and answers yes exactly when the two
    permissions belong to the same account and the first is the second or one of its
    ancestors. *)
Theorem satisfies_iff_ancestor db i p j q : wf db →
  permissions db !! i = Some p → permissions db !! j = Some q →
  ∃ b, satisfies db (i, p) (j, q) = Some b ∧
    (b = true ↔ owner p = owner q ∧ rtc (parent_of db) j i).
Proof. apply satisfies_spec. Qed.

(** ** The operations keep the tables well-formed *)

Lemma initialize_database_wf : wf initialize_database.
Proof.
  split; cbn; try lia; try done.
  - intros i p Hp. apply lookup_singleton_Some in Hp as [<- _]. lia.
  - intros i p Hp. by apply lookup_singleton_Some in Hp as [<- _].
  - intros i p Hp. by apply lookup_singleton_Some in Hp as [<- _].
  - intros i j p q Hp Hq. apply lookup_singleton_Some in Hp as [<- _].
    by apply lookup_singleton_Some in Hq as [<- _].
  - intros i p Hp. by apply lookup_singleton_Some in Hp as [<- _].
  - intros i j p q Hp Hq. by apply lookup_singleton_Some in Hp as [<- _].
Qed.

Lemma create_permission_wf which n now db account pname parent_id a t db' id : wf db →
  account ≠ 0 → pname ≠ 0 →
  (∃ q, permissions db !! parent_id = Some q ∧ (parent_id = 0 ∨ owner q = account)) →
  create_permission which n now db account pname parent_id a t = Ok (db', id) →
  wf db' ∧ id ≠ 0 ∧ links db' = links db ∧
  permissions db' = <[id := MkPermission (next_usage db) parent_id account pname
                             (if t =? 0 then now else t) a]> (permissions db) ∧
  permissions db !! id = None.
Proof.
  intros Hwf Hacc Hname (q & Hq & Hqo) Hc. unfold create_permission in Hc.
  apply bind_Ok in Hc as (? & _ & Hc). apply bind_Ok in Hc as (us & [Hus ->]%create_Ok & Hc).
  apply bind_Ok in Hc as (? & Hfind%assert_that_Ok & Hc).
  apply bind_Ok in Hc as (ps & [Hps ->]%create_Ok & Hc). injection Hc as <- <-.
  destruct (find_by_owner db account pname) eqn:Hf; [done|].
  pose proof (wf_next db Hwf) as [Hn Hnu]. pose proof (wf_range db Hwf _ _ Hq) as Hrange.
  split_and!; [|lia|done|done|done]. split; cbn.
  - rewrite lookup_insert_ne by lia. by apply wf_reserved.
  - intros i p [[<- _]|[_ Hp]]%lookup_insert_Some; [lia|]. apply (wf_range db Hwf) in Hp. lia.
  - intros i p [[<- <-]|[_ Hp]]%lookup_insert_Some; [done|]. by eapply wf_named.
  - intros i p [[<- <-]|[_ Hp]]%lookup_insert_Some; cbn.
    + intros _. split; [lia|]. exists q. rewrite lookup_insert_ne by lia. done.
    + intros Hi. destruct (wf_parent db Hwf i p Hp Hi) as [Hlt (r & Hr & Hro)]. split; [done|].
      exists r. rewrite lookup_insert_ne; [done|]. intros E. rewrite <-E in Hr. congruence.
  - intros i j p r [[<- <-]|[_ Hp]]%lookup_insert_Some [[<- <-]|[_ Hr]]%lookup_insert_Some; cbn.
    + done.
    + intros -> ->. by destruct (find_by_owner_None _ _ _ _ _ Hf Hr).
    + intros Ho Hn'. by destruct (find_by_owner_None _ _ _ _ _ Hf Hp).
    + by apply (wf_unique db Hwf).
  - intros i p [[<- <-]|[_ Hp]]%lookup_insert_Some Hi; cbn; [by rewrite lookup_insert_eq|].
    apply lookup_insert_is_Some'. right. by eapply wf_usage.
  - assert (∀ i p, permissions db !! i = Some p → i ≠ 0 → usage_id p ≠ next_usage db) as Hfresh.
    { intros i p Hp Hi E. destruct (wf_usage db Hwf i p Hp Hi) as [t' Ht'].
      apply (wf_usage_range db Hwf) in Ht'. lia. }
    intros i j p r [[<- <-]|[_ Hp]]%lookup_insert_Some [[<- <-]|[_ Hr]]%lookup_insert_Some Hi Hj; cbn.
    + done.
    + intros E. by destruct (Hfresh j r Hr Hj).
    + intros E. by destruct (Hfresh i p Hp Hi).
    + by eapply wf_usage_unique.
  - intros u t' [[<- _]|[_ Hu]]%lookup_insert_Some; [lia|]. apply (wf_usage_range db Hwf) in Hu. lia.
  - lia.
Qed.

Lemma modify_permission_wf which n now db id p a db' : wf db → permissions db !! id = Some p →
  id ≠ 0 → modify_permission which n now db id p a = Ok db' → wf db' ∧ links db' = links db.
Proof.
  intros Hwf Hp Hid Hm. unfold modify_permission in Hm. apply bind_Ok in Hm as (? & _ & Hm).
  injection Hm as <-. split; [|done].
  set (p' := MkPermission _ _ _ _ _ _).
  assert (∀ i q, <[id := p']> (permissions db) !! i = Some q →
    ∃ q0, permissions db !! i = Some q0 ∧ usage_id q = usage_id q0 ∧ parent q = parent q0 ∧
      owner q = owner q0 ∧ name q = name q0) as Hback.
  { intros i q [[<- <-]|[_ Hq]]%lookup_insert_Some; [by exists p|by exists q]. }
  assert (∀ i q0, permissions db !! i = Some q0 →
    ∃ q, <[id := p']> (permissions db) !! i = Some q ∧ owner q = owner q0) as Hfwd.
  { intros i q0 Hq0. destruct (decide (id = i)) as [<-|].
    - exists p'. rewrite lookup_insert_eq. split; [done|]. cbn. congruence.
    - exists q0. by rewrite lookup_insert_ne. }
  split; cbn.
  - rewrite lookup_insert_ne by done. by apply wf_reserved.
  - intros i q (q0 & Hq0 & _)%Hback. by eapply wf_range.
  - intros i q (q0 & Hq0 & _ & _ & -> & ->)%Hback. by apply (wf_named db Hwf).
  - intros i q (q0 & Hq0 & _ & -> & -> & _)%Hback Hi.
    destruct (wf_parent db Hwf i q0 Hq0 Hi) as [Hlt (r & Hr & Hro)]. split; [done|].
    destruct (Hfwd _ _ Hr) as (r' & Hr' & Ho'). exists r'. split; [done|]. by rewrite Ho'.
  - intros i j q r (q0 & Hq0 & _ & _ & -> & ->)%Hback (r0 & Hr0 & _ & _ & -> & ->)%Hback.
    by apply (wf_unique db Hwf).
  - intros i q (q0 & Hq0 & -> & _)%Hback. by apply (wf_usage db Hwf).
  - intros i j q r (q0 & Hq0 & -> & _)%Hback (r0 & Hr0 & -> & _)%Hback. by eapply wf_usage_unique.
  - by apply (wf_usage_range db Hwf).
  - by apply wf_next.
Qed.

Lemma remove_permission_wf db id p db' : wf db → permissions db !! id = Some p → id ≠ 0 →
  remove_permission db id p = Ok db' →
  wf db' ∧ permissions db' = delete id (permissions db) ∧ links db' = links db ∧
  (∀ i q, permissions db !! i = Some q → parent q ≠ id).
Proof.
  intros Hwf Hp Hid Hr. unfold remove_permission in Hr.
  apply bind_Ok in Hr as (? & Hch & Hr). apply assert_that_Ok, bool_decide_eq_true in Hch.
  apply bind_Ok in Hr as (? & _ & Hr). injection Hr as <-.
  split_and!; [|done|done|exact Hch]. split; cbn.
  - rewrite lookup_delete_ne by done. by apply wf_reserved.
  - intros i q [_ Hq]%lookup_delete_Some. by eapply wf_range.
  - intros i q [_ Hq]%lookup_delete_Some. by eapply wf_named.
  - intros i q [_ Hq]%lookup_delete_Some Hi.
    destruct (wf_parent db Hwf i q Hq Hi) as [Hlt (r & Hr & Hro)]. split; [done|].
    exists r. rewrite lookup_delete_ne; [done|]. intros E. rewrite E in Hch. by apply (Hch i q Hq).
  - intros i j q r [_ Hq]%lookup_delete_Some [_ Hr]%lookup_delete_Some. by apply (wf_unique db Hwf).
  - intros i q [Hne Hq]%lookup_delete_Some Hi. rewrite lookup_delete_ne; [by eapply wf_usage|].
    intros E. by apply Hne, (wf_usage_unique db Hwf id i p q).
  - intros i j q r [_ Hq]%lookup_delete_Some [_ Hr]%lookup_delete_Some. by eapply wf_usage_unique.
  - intros u t [_ Hu]%lookup_delete_Some. by eapply wf_usage_range.
  - by apply wf_next.
Qed.
End permissions.

(** An account's owner and active permissions and one below active. *)
Definition sample_db : auth_db Z :=
  MkAuthDb (<[3 := MkPermission 2 2 7 30 0 (Authority.MkAuthority 1 [Authority.MkKw 30 1] [] [])]>
    (<[2 := MkPermission 1 1 7 active_name 0 (Authority.MkAuthority 1 [Authority.MkKw 20 1] [] [])]>
    (<[1 := MkPermission 0 0 7 owner_name 0 (Authority.MkAuthority 1 [Authority.MkKw 10 1] [] [])]>
    {[ 0 := reserved ]}))) 4 (<[2 := 0]> (<[1 := 0]> {[ 0 := 0 ]})) 3 ∅.

Lemma sample_db_wf : wf sample_db.
Proof.
  assert (∃ db1 db2, create_permission (λ _, 0) 2 0 (initialize_database (key:=Z)) 7 owner_name 0
      (Authority.MkAuthority 1 [Authority.MkKw 10 1] [] []) 0 = Ok (db1, 1) ∧
    create_permission (λ _, 0) 2 0 db1 7 active_name 1
      (Authority.MkAuthority 1 [Authority.MkKw 20 1] [] []) 0 = Ok (db2, 2) ∧
    create_permission (λ _, 0) 2 0 db2 7 30 2
      (Authority.MkAuthority 1 [Authority.MkKw 30 1] [] []) 0 = Ok (sample_db, 3))
    as (db1 & db2 & H1 & H2 & H3).
  { do 2 eexists. split_and!; vm_compute; reflexivity. }
  apply create_permission_wf in H1 as (W1 & _ & _ & E1 & _); [|apply initialize_database_wf|done|done|].
  2:{ eexists. split; [reflexivity|by left]. }
  apply create_permission_wf in H2 as (W2 & _ & _ & E2 & _); [|done|done|done|].
  2:{ eexists. rewrite E1, lookup_insert_eq. split; [reflexivity|by right]. }
  apply create_permission_wf in H3 as (W3 & _); [done|done|done|done|].
  eexists. rewrite E2, lookup_insert_eq. split; [reflexivity|by right].
Qed.

Lemma satisfies_iff_ancestor_witness :
  ∃ p q, permissions sample_db !! 1 = Some p ∧ permissions sample_db !! 3 = Some q ∧
    rtc (parent_of sample_db) 3 1.
Proof.
  do 2 eexists. split; [reflexivity|]. split; [reflexivity|].
  edestruct (satisfies_iff_ancestor sample_db 1 _ 3 _ sample_db_wf eq_refl eq_refl) as (b & Hb & Hiff).
  vm_compute in Hb. injection Hb as <-. by apply Hiff.
Defined.
End Permissions.
