(* ===== verification/Authorization.v ===== *)
(** * Checking the authorization of a transaction

    Models the checks of [authorization_manager.cpp]: the declared authorizations of the
    native actions that manage permissions, the minimum permission an action requires, and
    the verification that the provided keys, permissions and delay satisfy every declared
    authorization.  The interruption of a check by [checktime] is not modelled. *)

From S2P Require Import Prelude.
From S2P Require Import Exceptions.
From S2P Require Import Name.
From S2P Require Import Action.
From S2P Require Import ChainConfig.
From S2P Require Import Authority.
From S2P Require Import AuthorityChecker.
From S2P Require Import Permissions.

Local Open Scope Z_scope.

Module Authorization.
Import Config Permissions.

(** ** The native actions that manage permissions ([contract_types.hpp]) *)

Record updateauth (key : Type) := MkUpdateauth {
  ua_account : Z;
  ua_permission : Z;
  ua_parent : Z;
  ua_auth : Authority.authority key
}.
#[global] Arguments MkUpdateauth {_} _ _ _ _.
#[global] Arguments ua_account {_} _.
#[global] Arguments ua_permission {_} _.
#[global] Arguments ua_parent {_} _.
#[global] Arguments ua_auth {_} _.

Record deleteauth := MkDeleteauth { da_account : Z; da_permission : Z }.
Record linkauth := MkLinkauth { la_account : Z; la_code : Z; la_type : Z; la_requirement : Z }.
Record unlinkauth := MkUnlinkauth { ul_account : Z; ul_code : Z; ul_type : Z }.
Record canceldelay := MkCanceldelay { canceling_auth : Action.permission_level; cd_trx_id : Z }.

(** [fc::raw::unpack] of the data of these actions. *)
Record decoder (key : Type) := MkDecoder {
  unpack_updateauth : list Z → result exn (updateauth key);
  unpack_deleteauth : list Z → result exn deleteauth;
  unpack_linkauth : list Z → result exn linkauth;
  unpack_unlinkauth : list Z → result exn unlinkauth;
  unpack_canceldelay : list Z → result exn canceldelay
}.
#[global] Arguments unpack_updateauth {_} _ _.
#[global] Arguments unpack_deleteauth {_} _ _.
#[global] Arguments unpack_linkauth {_} _ _.
#[global] Arguments unpack_unlinkauth {_} _ _.
#[global] Arguments unpack_canceldelay {_} _ _.

(** A delayed transaction, with the actions of the transaction it packs, by its id. *)
Record generated_transaction := MkGto {
  gto_sender : Z;
  gto_published : Z;
  gto_delay_until : Z;
  gto_actions : list Action.action
}.

(** What the checks read of the controller. *)
Record control := MkControl {
  fix_linkauth_restriction : bool;
  max_transaction_delay : Z;
  max_authority_depth : nat;
  generated_transactions : gmap Z generated_transaction
}.

Section checks.
Context {key : Type} `{PublicKey key}.
Context (dec : decoder key) (ctl : control) (db : auth_db key).

(** [EOS_ASSERT( p.satisfies( other, index ), e, ... )]; the undefined case of [satisfies]
    does not occur in well-formed tables. *)
Definition assert_satisfies (p other : Z * permission_object key) (e : exn) : result exn unit :=
  assert_that (bool_decide (satisfies db p other = Some true)) e.

(** The single authorization these actions may declare. *)
Definition single_auth (auths : list Action.permission_level) : result exn Action.permission_level :=
  match auths with
  | [auth] => Ok auth
  | _ => Throw irrelevant_auth_exception
  end.

Definition check_updateauth_authorization (update : updateauth key)
    (auths : list Action.permission_level) : result exn unit :=
  auth ← single_auth auths;
  _ ← assert_that (Action.actor auth =? ua_account update) irrelevant_auth_exception;
  found ← find_permission db (Action.MkLevel (ua_account update) (ua_permission update));
  min_permission ← (match found with
                    | Some p => Ok p
                    | None => get_permission db (Action.MkLevel (ua_account update) (ua_parent update))
                    end);
  declared ← get_permission db auth;
  assert_satisfies declared min_permission irrelevant_auth_exception.

Definition check_deleteauth_authorization (del : deleteauth)
    (auths : list Action.permission_level) : result exn unit :=
  auth ← single_auth auths;
  _ ← assert_that (Action.actor auth =? da_account del) irrelevant_auth_exception;
  min_permission ← get_permission db (Action.MkLevel (da_account del) (da_permission del));
  declared ← get_permission db auth;
  assert_satisfies declared min_permission irrelevant_auth_exception.

Definition check_linkauth_authorization (link : linkauth)
    (auths : list Action.permission_level) : result exn unit :=
  auth ← single_auth auths;
  _ ← assert_that (Action.actor auth =? la_account link) irrelevant_auth_exception;
  _ ← (if (la_code link =? system_account_name) || negb (fix_linkauth_restriction ctl)
       then assert_that (negb (unlinkable (la_type link))) action_validate_exception
       else Ok tt);
  linked ← lookup_minimum_permission db (la_account link) (la_code link) (la_type link);
  match linked with
  | None => Ok tt
  | Some linked_permission_name =>
      declared ← get_permission db auth;
      min_permission ← get_permission db (Action.MkLevel (la_account link) linked_permission_name);
      assert_satisfies declared min_permission irrelevant_auth_exception
  end.

Definition check_unlinkauth_authorization (unlink : unlinkauth)
    (auths : list Action.permission_level) : result exn unit :=
  auth ← single_auth auths;
  _ ← assert_that (Action.actor auth =? ul_account unlink) irrelevant_auth_exception;
  match lookup_linked_permission db (ul_account unlink) (ul_code unlink) (ul_type unlink) with
  | None => Throw transaction_exception
  | Some unlinked_permission_name =>
      if unlinked_permission_name =? eosio_any_name then Ok tt else
      declared ← get_permission db auth;
      min_permission ← get_permission db (Action.MkLevel (ul_account unlink) unlinked_permission_name);
      assert_satisfies declared min_permission irrelevant_auth_exception
  end.

(** Returns the delay of the transaction to cancel, in microseconds. *)
Definition check_canceldelay_authorization (cancel : canceldelay)
    (auths : list Action.permission_level) : result exn Z :=
  auth ← single_auth auths;
  declared ← get_permission db auth;
  min_permission ← get_permission db (canceling_auth cancel);
  _ ← assert_satisfies declared min_permission irrelevant_auth_exception;
  match generated_transactions ctl !! cd_trx_id cancel with
  | Some gto =>
      _ ← assert_that (gto_sender gto =? 0) tx_not_found;
      _ ← assert_that (existsb (λ act, bool_decide (canceling_auth cancel ∈ Action.authorization act))
                         (gto_actions gto)) action_validate_exception;
      Ok (gto_delay_until gto - gto_published gto)
  | None => Throw tx_not_found
  end.

(** ** Transactions *)

Definition effective_delay (provided_delay : Z) : Z :=
  if max_transaction_delay ctl * 1000000 <=? provided_delay then INT64_MAX else provided_delay.

(** The head of the loop over the actions: the checks of the special cases, whether the
    action is one of them, and the delay to require. *)
Definition special_case (delay : Z) (act : Action.action) : result exn (bool * Z) :=
  let data := Action.data act in
  let auths := Action.authorization act in
  if Action.account act =? system_account_name then
    if Action.name act =? Name.N "updateauth" then
      update ← unpack_updateauth dec data;
      _ ← check_updateauth_authorization update auths; Ok (true, delay)
    else if Action.name act =? Name.N "deleteauth" then
      del ← unpack_deleteauth dec data;
      _ ← check_deleteauth_authorization del auths; Ok (true, delay)
    else if Action.name act =? Name.N "linkauth" then
      link ← unpack_linkauth dec data;
      _ ← check_linkauth_authorization link auths; Ok (true, delay)
    else if Action.name act =? Name.N "unlinkauth" then
      unlink ← unpack_unlinkauth dec data;
      _ ← check_unlinkauth_authorization unlink auths; Ok (true, delay)
    else if Action.name act =? Name.N "canceldelay" then
      cancel ← unpack_canceldelay dec data;
      d ← check_canceldelay_authorization cancel auths; Ok (true, Z.max delay d)
    else Ok (false, delay)
  else Ok (false, delay).

(** The requirement of a declared authorization of an action that is no special case. *)
Definition check_minimum (act : Action.action) (declared_auth : Action.permission_level) :
    result exn unit :=
  min ← lookup_minimum_permission db (Action.actor declared_auth) (Action.account act) (Action.name act);
  match min with
  | None => Ok tt
  | Some min_permission_name =>
      min_permission ← get_permission db (Action.MkLevel (Action.actor declared_auth) min_permission_name);
      declared ← get_permission db declared_auth;
      assert_satisfies declared min_permission irrelevant_auth_exception
  end.

(** [permissions_to_satisfy], with the delay of each: the smallest asked for. *)
Notation to_satisfy := (gmap Action.permission_level Z).

Definition require_level (satisfied : list Action.permission_level) (delay : Z) (m : to_satisfy)
    (p : Action.permission_level) : to_satisfy :=
  if bool_decide (p ∈ satisfied) then m else
  match m !! p with
  | None => <[p := delay]> m
  | Some d => if delay <? d then <[p := delay]> m else m
  end.

Definition collect_action (delay : Z) (satisfied : list Action.permission_level) (m : to_satisfy)
    (act : Action.action) : result exn to_satisfy :=
  '(special, delay) ← special_case delay act;
  foldM (λ m p,
    _ ← (if special : bool then Ok tt else check_minimum act p);
    Ok (require_level satisfied delay m p)) m (Action.authorization act).

(** The map is traversed in ascending order. *)
Definition level_le (p q : Action.permission_level * Z) : Prop :=
  Action.permission_level_lt q.1 p.1 = false.

#[global] Instance level_le_dec : RelDecision level_le.
Proof. intros p q. unfold level_le. apply _. Defined.

Definition ascending (m : to_satisfy) : list (Action.permission_level * Z) :=
  merge_sort level_le (map_to_list m).

Definition permission_to_authority (p : Action.permission_level) :
    result exn (Authority.authority key) :=
  po ← get_permission db p; Ok (auth po.2).

Definition satisfy_level (provided_keys : list key) (provided_permissions : list Action.permission_level)
    (used : list bool) (p : Action.permission_level * Z) : result exn (list bool) :=
  '(used, r) ← AuthorityChecker.satisfied_permission permission_to_authority provided_keys
                 provided_permissions p.2 (max_authority_depth ctl) used p.1;
  _ ← assert_that r unsatisfied_authorization;
  Ok used.

Definition check_authorization (actions : list Action.action) (provided_keys : list key)
    (provided_permissions : list Action.permission_level) (provided_delay : Z)
    (allow_unused_keys : bool) (satisfied_authorizations : list Action.permission_level) :
    result exn unit :=
  let delay := effective_delay provided_delay in
  permissions_to_satisfy ← foldM (collect_action delay satisfied_authorizations) ∅ actions;
  used ← foldM (satisfy_level provided_keys provided_permissions)
           (AuthorityChecker.no_used_keys provided_keys) (ascending permissions_to_satisfy);
  if allow_unused_keys then Ok tt
  else assert_that (AuthorityChecker.all_keys_used used) tx_irrelevant_sig.

(** The overload for a single permission. *)
Definition check_permission (account permission : Z) (provided_keys : list key)
    (provided_permissions : list Action.permission_level) (provided_delay : Z)
    (allow_unused_keys : bool) : result exn unit :=
  used ← satisfy_level provided_keys provided_permissions
           (AuthorityChecker.no_used_keys provided_keys)
           (Action.MkLevel account permission, effective_delay provided_delay);
  if allow_unused_keys then Ok tt
  else assert_that (AuthorityChecker.all_keys_used used) tx_irrelevant_sig.

Definition get_required_keys (actions : list Action.action) (candidate_keys : list key)
    (provided_delay : Z) : result exn (list key) :=
  used ← foldM (λ used p, satisfy_level candidate_keys [] used (p, provided_delay))
           (AuthorityChecker.no_used_keys candidate_keys)
           (actions ≫= Action.authorization);
  Ok (AuthorityChecker.used_keys candidate_keys used).

(** ** What an accepted transaction guarantees *)

(** The declared level is the permission [n] of its account or one above it. *)
Definition at_least (d : Action.permission_level) (n : Z) : Prop :=
  ∃ i p j q, permissions db !! i = Some p ∧ permissions db !! j = Some q ∧
    owner p = Action.actor d ∧ name p = Action.permission d ∧
    owner q = Action.actor d ∧ name q = n ∧ rtc (parent_of db) j i.

Lemma assert_satisfies_Ok i p j q e : wf db → permissions db !! i = Some p →
  permissions db !! j = Some q → assert_satisfies (i, p) (j, q) e = Ok tt →
  rtc (parent_of db) j i.
Proof.
  intros Hwf Hp Hq Ha. apply assert_that_Ok, bool_decide_eq_true in Ha.
  destruct (satisfies_spec db i p j q Hwf Hp Hq) as (b & Hb & Hiff).
  rewrite Ha in Hb. injection Hb as <-. by apply Hiff.
Qed.

Lemma check_minimum_Ok act d n : wf db → check_minimum act d = Ok tt →
  lookup_minimum_permission db (Action.actor d) (Action.account act) (Action.name act) = Ok (Some n) →
  at_least d n.
Proof.
  intros Hwf Hc Hl. unfold check_minimum in Hc. rewrite Hl in Hc. cbn [mbind result_bind] in Hc.
  apply bind_Ok in Hc as ([j q] & Hq & Hc). apply bind_Ok in Hc as ([i p] & Hp & Hc).
  apply get_permission_Ok in Hq as (Hq & Hqo & Hqn & _). apply get_permission_Ok in Hp as (Hp & Hpo & Hpn & _).
  exists i, p, j, q. split_and!; try done. by eapply assert_satisfies_Ok.
Qed.

(** Requiring a level keeps the levels required, at no greater delay. *)
Definition tighter (m m' : to_satisfy) : Prop :=
  ∀ p d, m !! p = Some d → ∃ d', m' !! p = Some d' ∧ d' ≤ d.

Lemma tighter_trans m1 m2 m3 : tighter m1 m2 → tighter m2 m3 → tighter m1 m3.
Proof.
  intros H1 H2 p d Hp. destruct (H1 p d Hp) as (d1 & Hp1 & ?). destruct (H2 p d1 Hp1) as (d2 & Hp2 & ?).
  exists d2. split; [done|lia].
Qed.

Lemma tighter_refl m : tighter m m.
Proof. intros p d Hp. by exists d. Qed.

Lemma require_level_spec satisfied delay m p :
  tighter m (require_level satisfied delay m p) ∧
  (p ∈ satisfied ∨ ∃ d, require_level satisfied delay m p !! p = Some d ∧ d ≤ delay).
Proof.
  unfold require_level. case_bool_decide as Hin; [split; [apply tighter_refl|by left]|].
  assert (∀ d0, m !! p = Some d0 → delay < d0 → tighter m (<[p := delay]> m)) as Hless.
  { intros d0 H0 Hlt q d Hq. destruct (decide (p = q)) as [<-|].
    - exists delay. rewrite lookup_insert_eq. split; [done|]. assert (d = d0) by congruence. lia.
    - exists d. by rewrite lookup_insert_ne. }
  destruct (m !! p) as [d0|] eqn:Hm.
  - destruct (Z.ltb_spec delay d0).
    + split; [by eapply Hless|]. right. exists delay. by rewrite lookup_insert_eq.
    + split; [apply tighter_refl|]. right. by exists d0.
  - split.
    + intros q d Hq. exists d. rewrite lookup_insert_ne; [done|]. congruence.
    + right. exists delay. by rewrite lookup_insert_eq.
Qed.

(** The loop over the authorizations of an action. *)
Lemma collect_levels_Ok special satisfied delay act l : ∀ m m',
  foldM (λ m p, _ ← (if special : bool then Ok tt else check_minimum act p);
                Ok (require_level satisfied delay m p)) m l = Ok m' →
  tighter m m' ∧ ∀ d, d ∈ l →
    (special = false → check_minimum act d = Ok tt) ∧
    (d ∈ satisfied ∨ ∃ δ, m' !! d = Some δ ∧ δ ≤ delay).
Proof.
  induction l as [|p l IH]; intros m m'; cbn [foldM].
  { intros [= <-]. split; [apply tighter_refl|]. intros d Hd. by apply elem_of_nil in Hd. }
  intros Hf. apply bind_Ok in Hf as (m1 & H1 & Hf). apply bind_Ok in H1 as ([] & Hc & H1).
  injection H1 as <-. apply IH in Hf as [Ht Hall].
  destruct (require_level_spec satisfied delay m p) as [Ht1 Hp].
  split; [by eapply tighter_trans|]. intros d [->|Hd]%elem_of_cons; [|by apply Hall].
  split; [by intros ->|]. destruct Hp as [Hp|(δ & Hδ & Hle)]; [by left|right].
  destruct (Ht _ _ Hδ) as (δ' & Hδ' & ?). exists δ'. split; [done|lia].
Qed.

Lemma collect_actions_Ok satisfied delay actions : ∀ m m',
  foldM (collect_action delay satisfied) m actions = Ok m' →
  tighter m m' ∧ ∀ act d, act ∈ actions → d ∈ Action.authorization act →
    ∃ special delay', special_case delay act = Ok (special, delay') ∧
      (special = false → check_minimum act d = Ok tt) ∧
      (d ∈ satisfied ∨ ∃ δ, m' !! d = Some δ ∧ δ ≤ delay').
Proof.
  induction actions as [|a actions IH]; intros m m'; cbn [foldM].
  { intros [= <-]. split; [apply tighter_refl|]. intros act d Hd. by apply elem_of_nil in Hd. }
  intros Hf. apply bind_Ok in Hf as (m1 & H1 & Hf). apply IH in Hf as [Ht Hall].
  unfold collect_action in H1. apply bind_Ok in H1 as ([special delay'] & Hs & H1).
  apply collect_levels_Ok in H1 as [Ht1 Hlev]. split; [by eapply tighter_trans|].
  intros act d [->|Hact]%elem_of_cons Hd; [|by apply Hall].
  exists special, delay'. destruct (Hlev d Hd) as [Hmin Hor]. split_and!; [done|done|].
  destruct Hor as [?|(δ & Hδ & Hle)]; [by left|right].
  destruct (Ht _ _ Hδ) as (δ' & Hδ' & ?). exists δ'. split; [done|lia].
Qed.

Lemma satisfy_levels_Ok provided_keys provided_permissions l :
  (∀ p a, permission_to_authority p = Ok a → AuthorityChecker.weights_nonneg a) →
  ∀ used used', foldM (satisfy_level provided_keys provided_permissions) used l = Ok used' →
  ∀ p δ, (p, δ) ∈ l →
    AuthorityChecker.holds permission_to_authority provided_keys provided_permissions δ p.
Proof.
  intros Hnn. induction l as [|[p0 δ0] l IH]; intros used used'; cbn [foldM].
  { intros _ p δ Hp. by apply elem_of_nil in Hp. }
  intros Hf. apply bind_Ok in Hf as (u1 & H1 & Hf). unfold satisfy_level in H1. cbn [fst snd] in H1.
  apply bind_Ok in H1 as ([u2 r] & H1 & H2). apply bind_Ok in H2 as ([] & Hr & _).
  apply assert_that_Ok in Hr as ->.
  intros p δ [[= -> ->]|Hp]%elem_of_cons; [by eapply AuthorityChecker.satisfied_permission_sound|by eapply IH].
Qed.

(** C4: when [check_authorization] accepts a transaction, every authorization every action
    declares is justified: outside the special cases it is the permission the action
    requires or an ancestor of it, and, unless it is among those already satisfied, the
    permission is really held with the provided keys, the provided permissions and a
    delay no longer than the one that applies to the action. *)
Theorem check_authorization_sound actions provided_keys provided_permissions provided_delay
    allow_unused_keys satisfied_authorizations :
  wf db → (∀ p a, permission_to_authority p = Ok a → AuthorityChecker.weights_nonneg a) →
  check_authorization actions provided_keys provided_permissions provided_delay
    allow_unused_keys satisfied_authorizations = Ok tt →
  ∀ act d, act ∈ actions → d ∈ Action.authorization act →
  ∃ special delay, special_case (effective_delay provided_delay) act = Ok (special, delay) ∧
    (special = false → ∀ n,
       lookup_minimum_permission db (Action.actor d) (Action.account act) (Action.name act)
         = Ok (Some n) → at_least d n) ∧
    (d ∈ satisfied_authorizations ∨ ∃ δ, δ ≤ delay ∧
       AuthorityChecker.holds permission_to_authority provided_keys provided_permissions δ d).
Proof.
  intros Hwf Hnn Hc act d Hact Hd. unfold check_authorization in Hc.
  apply bind_Ok in Hc as (m & Hm & Hc). apply bind_Ok in Hc as (used & Hu & _).
  apply collect_actions_Ok in Hm as [_ Hall].
  destruct (Hall act d Hact Hd) as (special & delay & Hs & Hmin & Hor).
  exists special, delay. split_and!; [done| |].
  - intros Hsp n Hn. by eapply check_minimum_Ok; [|apply Hmin|].
  - destruct Hor as [?|(δ & Hδ & Hle)]; [by left|right]. exists δ. split; [done|].
    eapply satisfy_levels_Ok; [done|exact Hu|]. unfold ascending.
    rewrite merge_sort_Permutation. by apply elem_of_map_to_list.
Qed.
End checks.

(** A transfer-like action authorized by the active permission of account 7. *)
Definition no_decoder : decoder Z :=
  MkDecoder Z (λ _, Throw std_exception) (λ _, Throw std_exception) (λ _, Throw std_exception)
    (λ _, Throw std_exception) (λ _, Throw std_exception).
Definition sample_control : control := MkControl true 3888000 6 ∅.
Definition sample_action : Action.action :=
  Action.MkAction 99 5 [Action.MkLevel 7 active_name] [].

Lemma sample_nonneg p a : permission_to_authority sample_db p = Ok a →
  AuthorityChecker.weights_nonneg a.
Proof.
  intros Ha. apply bind_Ok in Ha as ([i po] & Hp & Ha). injection Ha as <-.
  apply get_permission_Ok in Hp as (Hp & _). unfold sample_db in Hp. cbn [permissions] in Hp.
  rewrite !lookup_insert_Some, lookup_singleton_Some in Hp. cbn [snd].
  destruct Hp as [[_ <-]|[_ [[_ <-]|[_ [[_ <-]|[_ [_ <-]]]]]]]; unfold AuthorityChecker.weights_nonneg;
    cbn; repeat (apply Forall_cons; split; [cbn; lia|]); by apply Forall_nil.
Qed.

Lemma check_authorization_sound_witness :
  check_authorization no_decoder sample_control sample_db [sample_action] [20] [] 0 false [] = Ok tt ∧
  at_least sample_db (Action.MkLevel 7 active_name) active_name.
Proof.
  assert (check_authorization no_decoder sample_control sample_db [sample_action] [20] [] 0 false []
    = Ok tt) as Hc by (vm_compute; reflexivity).
  split; [exact Hc|].
  destruct (check_authorization_sound no_decoder sample_control sample_db [sample_action] [20] [] 0
    false [] sample_db_wf sample_nonneg Hc sample_action (Action.MkLevel 7 active_name))
    as (special & delay & Hs & Hmin & _); [by left|by left|].
  vm_compute in Hs. injection Hs as <- <-. apply (Hmin eq_refl). vm_compute. reflexivity.
Defined.
End Authorization.
