(* ===== verification/EosioContract.v ===== *)
(** * The native actions of the system account

    Models the handlers of [eosio_contract.cpp] that manage accounts, code and
    permissions, together with [controller_impl::create_native_account]: each takes the
    tables it works on, checks its conditions in the order of the source and returns the
    new tables or the exception.  They compose the models of the permission tables, the
    resource limits and the chain configuration. *)

From S2P Require Import Prelude.
From S2P Require Import Exceptions.
From S2P Require Import Name.
From S2P Require Import Asset.
From S2P Require Import Action.
From S2P Require Import ChainConfig.
From S2P Require Import Database.
From S2P Require Import ResourceLimits.
From S2P Require Import Authority.
From S2P Require Import Permissions.
From S2P Require Import Authorization.

Local Open Scope Z_scope.

Module EosioContract.
Import Config.

(** ** Tables *)

Record account_object := MkAccount { creation_date : Z; abi : list Z }.

Record account_metadata_object := MkMetadata {
  code_sequence : Z;
  abi_sequence : Z;
  code_hash : Z;
  last_code_update : Z;
  privileged : bool;
  vm_type : Z;
  vm_version : Z
}.

Record code_object := MkCode { code : list Z; code_ref_count : Z; first_block_used : Z }.

(** [available] holds the rows of the contract table [accounts] of the system account;
    [codes] is keyed by hash, virtual machine type and version. *)
Record tables (key : Type) := MkTables {
  auths : Permissions.auth_db key;
  accounts : gmap Z account_object;
  metadata : gmap Z account_metadata_object;
  codes : gmap (Z * Z * Z) code_object;
  available : gmap Z Asset.asset;
  resources : ResourceLimits.manager
}.
#[global] Arguments MkTables {_} _ _ _ _ _ _.
#[global] Arguments auths {_} _.
#[global] Arguments accounts {_} _.
#[global] Arguments metadata {_} _.
#[global] Arguments codes {_} _.
#[global] Arguments available {_} _.
#[global] Arguments resources {_} _.

(** ** Sizes billed *)

Definition permission_object_size : Z :=
  Authority.billable_size_v (Authority.billable_size_v (3 * 16 + 4) + 64 + 5 * 32).
Definition permission_link_size : Z := Authority.billable_size_v (40 + 32 * 3).
Definition overhead_per_account_ram_bytes : Z := 2 * 1024.
Definition setcode_ram_bytes_multiplier : Z := 10.

(** [s.find( prefix ) != 0] of a name. *)
Definition starts_with (n : Z) (prefix : string) : bool :=
  bool_decide (String.list_ascii_of_string prefix `prefix_of` Name.to_string n).

Section handlers.
Context {key : Type} `{PublicKey key}.
(** The parts of fc, of the virtual machine and of the controller the handlers call: the
    type of a key, its serialized size, the list of keys the node refuses, the hash and
    the validation of code. *)
Context (which : key → Z) (pack_size : key → Z) (check_key_list : key → result exn unit).
Context (sha256 : list Z → Z) (validate_wasm : list Z → result exn unit).

(** What the handlers read of the controller. *)
Record environment := MkEnv {
  pending_block_time : Z;
  head_block_num : Z;
  num_supported_key_types : Z;
  max_transaction_delay : Z;
  only_link_to_existing_permission : bool;
  enforce_key_list : bool;
  chain_cfg : gmap Z ConfigOnChain.config_data_object
}.
Context (env : environment).

Definition set_auths (t : tables key) (a : Permissions.auth_db key) : tables key :=
  MkTables a (accounts t) (metadata t) (codes t) (available t) (resources t).

Definition add_ram_usage (t : tables key) (account ram_delta : Z) : result exn (tables key) :=
  r ← ResourceLimits.add_pending_ram_usage (resources t) account ram_delta;
  Ok (MkTables (auths t) (accounts t) (metadata t) (codes t) (available t) r).

Definition create_permission (t : tables key) (account pname parent : Z)
    (a : Authority.authority key) (time : Z) : result exn (tables key * Z) :=
  '(db, id) ← Permissions.create_permission which (num_supported_key_types env)
                (pending_block_time env) (auths t) account pname parent a time;
  Ok (set_auths t db, id).

(** ** Accounts *)

Fixpoint check_levels (t : tables key) (l : list Authority.permission_level_weight) :
    result exn unit :=
  match l with
  | [] => Ok tt
  | a :: l =>
      let p := Authority.permission a in
      _ ← assert_that (bool_decide (is_Some (accounts t !! Action.actor p))) action_validate_exception;
      _ ← (if (Action.permission p =? owner_name) || (Action.permission p =? active_name)
              || (Action.permission p =? eosio_code_name)
           then Ok tt
           else match Permissions.get_permission (auths t) p with
                | Ok _ => Ok tt
                | Throw e => if is_a e permission_query_exception
                             then Throw action_validate_exception else Throw e
                end);
      check_levels t l
  end.

Definition validate_authority_precondition (t : tables key) (a : Authority.authority key) :
    result exn unit :=
  _ ← check_levels t (Authority.accounts a);
  if enforce_key_list env
  then foldM (λ _ k, check_key_list (Authority.kw_key k)) tt (Authority.keys a)
  else Ok tt.

Definition default_metadata (is_privileged : bool) : account_metadata_object :=
  MkMetadata 0 0 0 0 is_privileged 0 0.

(** The two permissions of a new account, its resources and the memory it is billed. *)
Definition account_ram (owner active : Authority.authority key) : Z :=
  overhead_per_account_ram_bytes + 2 * permission_object_size +
  Authority.get_billable_size pack_size owner + Authority.get_billable_size pack_size active.

Definition create_native_account (t : tables key) (name initial_timestamp : Z) (eosio_abi : list Z)
    (owner active : Authority.authority key) (is_privileged : bool) (votes : gmap Z Asset.asset) :
    result exn (tables key) :=
  acc ← create (accounts t) name
          (MkAccount initial_timestamp (if name =? system_account_name then eosio_abi else []));
  meta ← create (metadata t) name (default_metadata is_privileged);
  let t := MkTables (auths t) acc meta (codes t) (available t) (resources t) in
  '(t, owner_id) ← create_permission t name owner_name 0 owner initial_timestamp;
  '(t, _) ← create_permission t name active_name owner_id active initial_timestamp;
  r ← ResourceLimits.initialize_account (resources t) name;
  let t := MkTables (auths t) (accounts t) (metadata t) (codes t) (available t) r in
  t ← add_ram_usage t name (account_ram owner active);
  _ ← ResourceLimits.verify_account_ram_usage (chain_cfg env) votes (resources t) name;
  Ok t.

Record newaccount := MkNewaccount {
  na_creator : Z;
  na_name : Z;
  na_owner : Authority.authority key;
  na_active : Authority.authority key
}.

Definition apply_eosio_newaccount (authorization : list Action.permission_level)
    (c : newaccount) (t : tables key) : result exn (tables key) :=
  _ ← Action.require_authorization authorization (na_creator c);
  _ ← assert_that (Authority.validate (na_owner c)) action_validate_exception;
  _ ← assert_that (Authority.validate (na_active c)) action_validate_exception;
  _ ← assert_that (negb (na_name c =? 0)) action_validate_exception;
  _ ← assert_that (Z.of_nat (length (Name.to_string (na_name c))) <=? 12) action_validate_exception;
  creator ← get (metadata t) (na_creator c);
  _ ← assert_that (negb (privileged creator)) action_validate_exception;
  _ ← (if ConfigOnChain.is_func_has_open (chain_cfg env) (head_block_num env) (Name.N "f.onfeeact") 0
          && negb (na_creator c =? system_account_name)
          && negb (na_creator c =? producers_account_name)
          && negb (na_creator c =? chain_config_name)
       then assert_that (negb (starts_with (na_name c) "force.")) action_validate_exception
       else Ok tt);
  _ ← assert_that (bool_decide (accounts t !! na_name c = None)) account_name_exists_exception;
  acc ← create (accounts t) (na_name c) (MkAccount (pending_block_time env) []);
  meta ← create (metadata t) (na_name c) (default_metadata false);
  av ← create (available t) (na_name c) (Asset.core_asset 0);
  let t := MkTables (auths t) acc meta (codes t) av (resources t) in
  _ ← validate_authority_precondition t (na_owner c);
  _ ← validate_authority_precondition t (na_active c);
  '(t, owner_id) ← create_permission t (na_name c) owner_name 0 (na_owner c) 0;
  '(t, _) ← create_permission t (na_name c) active_name owner_id (na_active c) 0;
  r ← ResourceLimits.initialize_account (resources t) (na_name c);
  let t := MkTables (auths t) (accounts t) (metadata t) (codes t) (available t) r in
  add_ram_usage t (na_name c) (account_ram (na_owner c) (na_active c)).

(** ** Permissions *)

Definition apply_eosio_updateauth (authorization : list Action.permission_level)
    (u : Authorization.updateauth key) (t : tables key) : result exn (tables key) :=
  let account := Authorization.ua_account u in
  let perm := Authorization.ua_permission u in
  let parent := Authorization.ua_parent u in
  let auth := Authorization.ua_auth u in
  _ ← Action.require_authorization authorization account;
  _ ← assert_that (negb (perm =? 0)) action_validate_exception;
  _ ← assert_that (negb (starts_with perm "eosio.")) action_validate_exception;
  _ ← assert_that (negb (starts_with perm "force.")) action_validate_exception;
  _ ← assert_that (negb (perm =? parent)) action_validate_exception;
  _ ← get (accounts t) account;
  _ ← assert_that (Authority.validate auth) action_validate_exception;
  _ ← (if perm =? active_name then assert_that (parent =? owner_name) action_validate_exception
       else Ok tt);
  _ ← (if perm =? owner_name then assert_that (parent =? 0) action_validate_exception
       else assert_that (negb (parent =? 0)) action_validate_exception);
  _ ← (match last (Authority.waits auth) with
       | Some w => assert_that (Authority.wait_sec w <=? max_transaction_delay env)
                     action_validate_exception
       | None => Ok tt
       end);
  _ ← validate_authority_precondition t auth;
  permission ← Permissions.find_permission (auths t) (Action.MkLevel account perm);
  parent_id ← (if negb (perm =? owner_name)
               then p ← Permissions.get_permission (auths t) (Action.MkLevel account parent); Ok p.1
               else Ok 0);
  match permission with
  | Some (id, p) =>
      _ ← assert_that (parent_id =? Permissions.parent p) action_validate_exception;
      let old_size := permission_object_size +
        Authority.get_billable_size pack_size (Permissions.auth p) in
      db ← Permissions.modify_permission which (num_supported_key_types env)
             (pending_block_time env) (auths t) id p auth;
      let new_size := permission_object_size + Authority.get_billable_size pack_size auth in
      add_ram_usage (set_auths t db) (Permissions.owner p) (new_size - old_size)
  | None =>
      '(t, _) ← create_permission t account perm parent_id auth 0;
      add_ram_usage t account
        (permission_object_size + Authority.get_billable_size pack_size auth)
  end.

Definition apply_eosio_deleteauth (authorization : list Action.permission_level)
    (d : Authorization.deleteauth) (t : tables key) : result exn (tables key) :=
  let account := Authorization.da_account d in
  let perm := Authorization.da_permission d in
  _ ← Action.require_authorization authorization account;
  _ ← assert_that (negb (perm =? active_name)) action_validate_exception;
  _ ← assert_that (negb (perm =? owner_name)) action_validate_exception;
  _ ← assert_that (bool_decide (map_Forall (λ l required, ¬ (l.1.1 = account ∧ required = perm))
                     (Permissions.links (auths t)))) action_validate_exception;
  p ← Permissions.get_permission (auths t) (Action.MkLevel account perm);
  let old_size := permission_object_size +
    Authority.get_billable_size pack_size (Permissions.auth p.2) in
  db ← Permissions.remove_permission (auths t) p.1 p.2;
  add_ram_usage (set_auths t db) account (- old_size).

Definition apply_eosio_linkauth (authorization : list Action.permission_level)
    (l : Authorization.linkauth) (t : tables key) : result exn (tables key) :=
  let account := Authorization.la_account l in
  let requirement := Authorization.la_requirement l in
  _ ← assert_that (negb (requirement =? 0)) action_validate_exception;
  _ ← Action.require_authorization authorization account;
  _ ← assert_that (bool_decide (is_Some (accounts t !! account))) account_query_exception;
  _ ← assert_that (bool_decide (is_Some (accounts t !! Authorization.la_code l)))
        account_query_exception;
  _ ← (if negb (requirement =? eosio_any_name) then
         assert_that
           (if only_link_to_existing_permission env
            then bool_decide (is_Some (Permissions.find_by_owner (auths t) account requirement))
            else bool_decide (¬ map_Forall (λ _ p, Permissions.name p ≠ requirement)
                                  (Permissions.permissions (auths t))))
           permission_query_exception
       else Ok tt);
  let link_key := (account, Authorization.la_code l, Authorization.la_type l) in
  let db := auths t in
  match Permissions.links db !! link_key with
  | Some required =>
      _ ← assert_that (negb (required =? requirement)) action_validate_exception;
      Ok (set_auths t (Permissions.set_links db (<[link_key := requirement]> (Permissions.links db))))
  | None =>
      add_ram_usage
        (set_auths t (Permissions.set_links db (<[link_key := requirement]> (Permissions.links db))))
        account permission_link_size
  end.

Definition apply_eosio_unlinkauth (authorization : list Action.permission_level)
    (u : Authorization.unlinkauth) (t : tables key) : result exn (tables key) :=
  let account := Authorization.ul_account u in
  _ ← Action.require_authorization authorization account;
  let link_key := (account, Authorization.ul_code u, Authorization.ul_type u) in
  let db := auths t in
  _ ← assert_that (bool_decide (is_Some (Permissions.links db !! link_key))) action_validate_exception;
  t ← add_ram_usage t account (- permission_link_size);
  Ok (set_auths t (Permissions.set_links db (delete link_key (Permissions.links db)))).

(** ** Code *)

Record setcode := MkSetcode { sc_account : Z; sc_vmtype : Z; sc_vmversion : Z; sc_code : list Z }.

(** Drop the account's reference to its code; returns the size that was billed for it. *)
Definition release_code (t : tables key) (account : account_metadata_object) (new_hash : Z) :
    result exn (gmap (Z * Z * Z) code_object * Z) :=
  if negb (code_hash account =? 0) then
    let k := (code_hash account, vm_type account, vm_version account) in
    old_code_entry ← get (codes t) k;
    _ ← assert_that (negb (code_hash account =? new_hash)) set_exact_code;
    let old_size := Z.of_nat (length (code old_code_entry)) * setcode_ram_bytes_multiplier in
    if code_ref_count old_code_entry =? 1 then Ok (delete k (codes t), old_size)
    else Ok (<[k := MkCode (code old_code_entry) (u64 (code_ref_count old_code_entry - 1))
                      (first_block_used old_code_entry)]> (codes t), old_size)
  else Ok (codes t, 0).

(** Add a reference to the new code. *)
Definition acquire_code (cs : gmap (Z * Z * Z) code_object) (hash vmtype vmversion : Z)
    (c : list Z) : result exn (gmap (Z * Z * Z) code_object) :=
  let k := (hash, vmtype, vmversion) in
  match cs !! k with
  | Some e => Ok (<[k := MkCode (code e) (u64 (code_ref_count e + 1)) (first_block_used e)]> cs)
  | None => Ok (<[k := MkCode c 1 (u32 (head_block_num env + 1))]> cs)
  end.

Definition apply_eosio_setcode (authorization : list Action.permission_level) (act : setcode)
    (t : tables key) : result exn (tables key) :=
  _ ← Action.require_authorization authorization (sc_account act);
  _ ← assert_that (sc_vmtype act =? 0) invalid_contract_vm_type;
  _ ← assert_that (sc_vmversion act =? 0) invalid_contract_vm_version;
  let code_size := Z.of_nat (length (sc_code act)) in
  hash ← (if 0 <? code_size then _ ← validate_wasm (sc_code act); Ok (sha256 (sc_code act))
          else Ok 0);
  account ← get (metadata t) (sc_account act);
  let existing_code := negb (code_hash account =? 0) in
  _ ← assert_that ((0 <? code_size) || existing_code) set_exact_code;
  let new_size := code_size * setcode_ram_bytes_multiplier in
  '(cs, old_size) ← release_code t account hash;
  cs ← (if 0 <? code_size
        then acquire_code cs hash (sc_vmtype act) (sc_vmversion act) (sc_code act) else Ok cs);
  let meta := <[sc_account act :=
    MkMetadata (u64 (code_sequence account + 1)) (abi_sequence account) hash
      (pending_block_time env) (privileged account) (sc_vmtype act) (sc_vmversion act)]>
    (metadata t) in
  let t := MkTables (auths t) (accounts t) meta cs (available t) (resources t) in
  if negb (new_size =? old_size) then add_ram_usage t (sc_account act) (new_size - old_size)
  else Ok t.

Definition apply_eosio_setabi (authorization : list Action.permission_level) (account : Z)
    (new_abi : list Z) (t : tables key) : result exn (tables key) :=
  _ ← Action.require_authorization authorization account;
  a ← get (accounts t) account;
  let new_size := Z.of_nat (length new_abi) in
  let old_size := Z.of_nat (length (abi a)) in
  let acc := <[account := MkAccount (creation_date a) new_abi]> (accounts t) in
  m ← get (metadata t) account;
  let meta := <[account :=
    MkMetadata (code_sequence m) (u64 (abi_sequence m + 1)) (code_hash m) (last_code_update m)
      (privileged m) (vm_type m) (vm_version m)]> (metadata t) in
  let t := MkTables (auths t) acc meta (codes t) (available t) (resources t) in
  if negb (new_size =? old_size) then add_ram_usage t account (new_size - old_size) else Ok t.

(** ** Reachable tables *)

Definition initial_tables : tables key :=
  MkTables Permissions.initialize_database ∅ ∅ ∅ ∅ ResourceLimits.initialize_database.
End handlers.
#[global] Arguments newaccount : clear implicits.

Section reachable.
Context {key : Type} `{PublicKey key}.
Context (which : key → Z) (pack_size : key → Z) (check_key_list : key → result exn unit).
Context (sha256 : list Z → Z) (validate_wasm : list Z → result exn unit).

(** The tables that the genesis accounts and the handlers produce, in any order and any
    environment. *)
Inductive reachable : tables key → Prop :=
  | reach_initial : reachable initial_tables
  | reach_native env t name time eosio_abi owner active priv votes t' : reachable t → name ≠ 0 →
      create_native_account which pack_size env t name time eosio_abi owner active priv votes = Ok t' →
      reachable t'
  | reach_newaccount env az c t t' : reachable t →
      apply_eosio_newaccount which pack_size check_key_list env az c t = Ok t' → reachable t'
  | reach_updateauth env az u t t' : reachable t →
      apply_eosio_updateauth which pack_size check_key_list env az u t = Ok t' → reachable t'
  | reach_deleteauth az d t t' : reachable t →
      apply_eosio_deleteauth pack_size az d t = Ok t' → reachable t'
  | reach_linkauth env az l t t' : reachable t →
      apply_eosio_linkauth env az l t = Ok t' → reachable t'
  | reach_unlinkauth az u t t' : reachable t →
      apply_eosio_unlinkauth az u t = Ok t' → reachable t'
  | reach_setcode env az c t t' : reachable t →
      apply_eosio_setcode sha256 validate_wasm env az c t = Ok t' → reachable t'
  | reach_setabi az account a t t' : reachable t →
      apply_eosio_setabi az account a t = Ok t' → reachable t'.

(** ** Every account keeps its owner and active permissions *)

Import Permissions.

Definition has_perms (db : auth_db key) (a : Z) : Prop :=
  ∃ i p j q, permissions db !! i = Some p ∧ owner p = a ∧ name p = owner_name ∧ parent p = 0 ∧
    permissions db !! j = Some q ∧ owner q = a ∧ name q = active_name ∧ parent q = i.

(** Only the owner permissions are roots. *)
Definition rooted (db : auth_db key) : Prop :=
  ∀ i p, permissions db !! i = Some p → i ≠ 0 → parent p = 0 → name p = owner_name.

Record perms_ok (db : auth_db key) (accs : gmap Z account_object) : Prop := {
  ok_wf : wf db;
  ok_rooted : rooted db;
  ok_zero : accs !! 0 = None;
  ok_accounts a : is_Some (accs !! a) → has_perms db a
}.

Lemma perms_ok_create env db accs account pname parent_id a t db' id : perms_ok db accs →
  account ≠ 0 → pname ≠ 0 → (pname = owner_name ↔ parent_id = 0) →
  (∃ q, permissions db !! parent_id = Some q ∧ (parent_id = 0 ∨ owner q = account)) →
  Permissions.create_permission which (num_supported_key_types env) (pending_block_time env)
    db account pname parent_id a t = Ok (db', id) →
  perms_ok db' accs ∧ id ≠ 0 ∧
  permissions db' !! id = Some (MkPermission (next_usage db) parent_id account pname
    (if t =? 0 then pending_block_time env else t) a) ∧
  (∀ i p, permissions db !! i = Some p → permissions db' !! i = Some p).
Proof.
  intros [Hwf Hroot Hz Hacc] Ha Hn Hpn Hpar Hc.
  apply create_permission_wf in Hc as (Hwf' & Hid & _ & E & Hfresh); [|done..].
  assert (∀ i p, permissions db !! i = Some p → permissions db' !! i = Some p) as Hmono.
  { intros i p Hp. rewrite E, lookup_insert_ne; [done|]. congruence. }
  split_and!; [|done|by rewrite E, lookup_insert_eq|done]. split; [done|..|done|].
  - intros i p Hp. rewrite E in Hp. apply lookup_insert_Some in Hp as [[_ <-]|[_ Hp]].
    + cbn. intros _ ?. by apply Hpn.
    + by apply (Hroot i p).
  - intros b Hb. destruct (Hacc b Hb) as (i & p & j & q & H1 & H2 & H3 & H4 & H5 & H6).
    exists i, p, j, q. split_and!; try tauto; by apply Hmono.
Qed.

(** The two permissions of a new account. *)
Lemma perms_ok_new_account env db accs name acc owner active t db1 owner_id db2 active_id :
  perms_ok db accs → name ≠ 0 →
  Permissions.create_permission which (num_supported_key_types env) (pending_block_time env)
    db name owner_name 0 owner t = Ok (db1, owner_id) →
  Permissions.create_permission which (num_supported_key_types env) (pending_block_time env)
    db1 name active_name owner_id active t = Ok (db2, active_id) →
  perms_ok db2 (<[name := acc]> accs).
Proof.
  intros Hok Hn H1 H2. pose proof (ok_wf _ _ Hok) as Hwf.
  apply (perms_ok_create env db accs) in H1 as (Hok1 & Hid & Hp1 & _); [|done|done|done|done|].
  2:{ eexists. split; [by apply wf_reserved|by left]. }
  apply (perms_ok_create env db1 accs) in H2 as (Hok2 & _ & Hp2 & Hmono); [|done|done|done|done|].
  2:{ eexists. split; [exact Hp1|by right]. }
  destruct Hok2 as [W2 R2 Z2 A2].
  split; [done|done|by rewrite lookup_insert_ne|]. intros a.
  rewrite lookup_insert_is_Some'. intros [<-|Ha]; [|by apply A2].
  exists owner_id. eexists. exists active_id. eexists.
  split_and!; [by apply Hmono|done|done|done|exact Hp2|done|done|done].
Qed.

Lemma perms_ok_links db accs l : perms_ok db accs → perms_ok (set_links db l) accs.
Proof. by intros [[] Hr Hz Ha]; split. Qed.

Lemma perms_ok_modify env db accs id p a db' : perms_ok db accs → permissions db !! id = Some p →
  id ≠ 0 → Permissions.modify_permission which (num_supported_key_types env)
    (pending_block_time env) db id p a = Ok db' → perms_ok db' accs.
Proof.
  intros [Hwf Hr Hz Ha] Hp Hid Hm. pose proof Hm as Hm'. apply modify_permission_wf in Hm' as [Hwf' _]; [|done..].
  unfold modify_permission in Hm. apply bind_Ok in Hm as (? & _ & Hm). injection Hm as <-.
  assert (∀ i q, permissions db !! i = Some q → ∃ q',
    <[id := MkPermission (usage_id p) (parent p) (owner p) (name p) (pending_block_time env) a]>
      (permissions db) !! i = Some q' ∧ owner q' = owner q ∧ name q' = name q ∧ parent q' = parent q)
    as Hfwd.
  { intros i q Hq. destruct (decide (id = i)) as [<-|].
    - eexists. rewrite lookup_insert_eq. split; [done|]. cbn. by simplify_eq.
    - exists q. by rewrite lookup_insert_ne. }
  split; [done|..|done|]; cbn.
  - intros i q Hq. cbn in Hq. apply lookup_insert_Some in Hq as [[<- <-]|[_ Hq]]; [by apply (Hr id p)|by apply (Hr i q)].
  - intros b Hb. destruct (Ha b Hb) as (i & q & j & r & H1 & H2 & H3 & H4 & H5 & H6 & H7 & H8).
    destruct (Hfwd _ _ H1) as (q' & Hq' & E1 & E2 & E3). destruct (Hfwd _ _ H5) as (r' & Hr' & F1 & F2 & F3).
    exists i, q', j, r'. split_and!; try done; congruence.
Qed.

Lemma perms_ok_remove db accs id p db' : perms_ok db accs → permissions db !! id = Some p →
  id ≠ 0 → name p ≠ owner_name → name p ≠ active_name →
  remove_permission db id p = Ok db' → perms_ok db' accs.
Proof.
  intros [Hwf Hr Hz Ha] Hp Hid Hno Hna Hm. apply remove_permission_wf in Hm as (Hwf' & E & _ & _); [|done..].
  split; [done|..|done|].
  - intros i q Hq. rewrite E in Hq. apply lookup_delete_Some in Hq as [_ Hq]. by apply (Hr i q).
  - intros b Hb. destruct (Ha b Hb) as (i & q & j & r & H1 & H2 & H3 & H4 & H5 & H6 & H7 & H8).
    exists i, q, j, r. rewrite E, !lookup_delete_ne by congruence. done.
Qed.

Lemma add_ram_usage_Ok (t : tables key) a d t' : add_ram_usage t a d = Ok t' →
  auths t' = auths t ∧ accounts t' = accounts t ∧ metadata t' = metadata t ∧ codes t' = codes t.
Proof. unfold add_ram_usage. intros. inv_ok. done. Qed.

Lemma create_native_account_perms_ok env t name time eosio_abi ow ac priv votes t' :
  perms_ok (auths t) (accounts t) → name ≠ 0 →
  create_native_account which pack_size env t name time eosio_abi ow ac priv votes = Ok t' →
  perms_ok (auths t') (accounts t').
Proof.
  intros Hok Hn Hc. unfold create_native_account in Hc.
  apply bind_Ok in Hc as (acc & Hacc & Hc). apply create_Ok in Hacc as [_ ->].
  apply bind_Ok in Hc as (meta & _ & Hc).
  apply bind_Ok in Hc as ([t1 oid] & H1 & Hc). apply bind_Ok in H1 as ([db1 ?] & H1 & E1).
  injection E1 as <- ->.
  apply bind_Ok in Hc as ([t2 aid] & H2 & Hc). apply bind_Ok in H2 as ([db2 ?] & H2 & E2).
  injection E2 as <- ->.
  apply bind_Ok in Hc as (r & _ & Hc). apply bind_Ok in Hc as (t3 & H3 & Hc).
  apply bind_Ok in Hc as (? & _ & Hc). injection Hc as ->.
  apply add_ram_usage_Ok in H3 as (-> & -> & _). by eapply perms_ok_new_account.
Qed.

Lemma newaccount_perms_ok env az c t t' : perms_ok (auths t) (accounts t) →
  apply_eosio_newaccount which pack_size check_key_list env az c t = Ok t' →
  perms_ok (auths t') (accounts t').
Proof.
  intros Hok Hc. unfold apply_eosio_newaccount in Hc.
  do 3 apply bind_Ok in Hc as (? & _ & Hc).
  apply bind_Ok in Hc as (? & Hn & Hc). apply assert_that_Ok, negb_true_iff, Z.eqb_neq in Hn.
  do 5 apply bind_Ok in Hc as (? & _ & Hc).
  apply bind_Ok in Hc as (acc & Hacc & Hc). apply create_Ok in Hacc as [_ ->].
  do 4 apply bind_Ok in Hc as (? & _ & Hc).
  apply bind_Ok in Hc as ([t1 oid] & H1 & Hc). apply bind_Ok in H1 as ([db1 ?] & H1 & E1).
  injection E1 as <- ->.
  apply bind_Ok in Hc as ([t2 aid] & H2 & Hc). apply bind_Ok in H2 as ([db2 ?] & H2 & E2).
  injection E2 as <- ->.
  apply bind_Ok in Hc as (r & _ & Hc).
  apply add_ram_usage_Ok in Hc as (-> & -> & _). by eapply perms_ok_new_account.
Qed.

Lemma updateauth_perms_ok env az u t t' : perms_ok (auths t) (accounts t) →
  apply_eosio_updateauth which pack_size check_key_list env az u t = Ok t' →
  perms_ok (auths t') (accounts t').
Proof.
  intros Hok Hc. unfold apply_eosio_updateauth in Hc.
  apply bind_Ok in Hc as (? & _ & Hc).
  apply bind_Ok in Hc as (? & Hn & Hc). apply assert_that_Ok, negb_true_iff, Z.eqb_neq in Hn.
  do 3 apply bind_Ok in Hc as (? & _ & Hc).
  apply bind_Ok in Hc as (acc & Hacc & Hc). apply get_Ok in Hacc.
  do 5 apply bind_Ok in Hc as (? & _ & Hc).
  apply bind_Ok in Hc as (perm & Hperm & Hc). apply bind_Ok in Hc as (pid & Hpid & Hc).
  assert (Authorization.ua_account u ≠ 0) as Ha.
  { intros Ha. rewrite Ha, (ok_zero _ _ Hok) in Hacc. done. }
  assert ((Authorization.ua_permission u = owner_name ↔ pid = 0) ∧ ∃ q,
    permissions (auths t) !! pid = Some q ∧ (pid = 0 ∨ owner q = Authorization.ua_account u))
    as [Hroot Hpar].
  { destruct (Z.eqb_spec (Authorization.ua_permission u) owner_name) as [E|E]; cbn [negb] in Hpid.
    - injection Hpid as <-. split; [done|]. eexists. split; [apply wf_reserved, Hok|by left].
    - apply bind_Ok in Hpid as ([i q] & Hg & Hpid). injection Hpid as <-.
      apply get_permission_Ok in Hg as (Hq & Ho & _ & _). cbn in *.
      assert (i ≠ 0) as Hi; [|split; [done|by eauto]]. intros ->.
      rewrite (wf_reserved _ (ok_wf _ _ Hok)) in Hq. injection Hq as <-. done. }
  apply find_permission_Ok in Hperm. destruct perm as [[id p]|].
  - symmetry in Hperm. apply find_by_owner_Some in Hperm as (Hp & Ho & _). cbn in Ho.
    apply bind_Ok in Hc as (? & _ & Hc). apply bind_Ok in Hc as (db & Hm & Hc).
    apply add_ram_usage_Ok in Hc as (-> & -> & _).
    eapply perms_ok_modify; [done|done| |exact Hm]. intros ->.
    rewrite (wf_reserved _ (ok_wf _ _ Hok)) in Hp. injection Hp as <-. done.
  - apply bind_Ok in Hc as ([t1 ?] & H1 & Hc). apply bind_Ok in H1 as ([db1 ?] & H1 & E1).
    injection E1 as <- ->. apply add_ram_usage_Ok in Hc as (-> & -> & _).
    by apply (perms_ok_create env (auths t) (accounts t)) in H1 as (? & _).
Qed.

Lemma deleteauth_perms_ok az d t t' : perms_ok (auths t) (accounts t) →
  apply_eosio_deleteauth pack_size az d t = Ok t' → perms_ok (auths t') (accounts t').
Proof.
  intros Hok Hc. unfold apply_eosio_deleteauth in Hc.
  apply bind_Ok in Hc as (? & _ & Hc).
  apply bind_Ok in Hc as (? & Hna & Hc). apply assert_that_Ok, negb_true_iff, Z.eqb_neq in Hna.
  apply bind_Ok in Hc as (? & Hno & Hc). apply assert_that_Ok, negb_true_iff, Z.eqb_neq in Hno.
  apply bind_Ok in Hc as (? & _ & Hc).
  apply bind_Ok in Hc as ([i p] & Hp & Hc). apply get_permission_Ok in Hp as (Hp & Ho & Hn & Ha & _).
  apply bind_Ok in Hc as (db & Hr & Hc). apply add_ram_usage_Ok in Hc as (-> & -> & _).
  cbn in *. eapply perms_ok_remove; [done|exact Hp| |congruence|congruence|exact Hr]. intros ->.
  rewrite (wf_reserved _ (ok_wf _ _ Hok)) in Hp. injection Hp as <-. done.
Qed.

Lemma linkauth_Ok env az l (t t' : tables key) : apply_eosio_linkauth env az l t = Ok t' →
  (∃ ls, auths t' = set_links (auths t) ls) ∧ accounts t' = accounts t ∧
  metadata t' = metadata t ∧ codes t' = codes t.
Proof.
  intros Hc. unfold apply_eosio_linkauth in Hc. do 5 apply bind_Ok in Hc as (? & _ & Hc).
  destruct (links _ !! _).
  - apply bind_Ok in Hc as (? & _ & Hc). injection Hc as <-. split; [by eexists|done].
  - apply add_ram_usage_Ok in Hc as (-> & -> & -> & ->). split; [by eexists|done].
Qed.

Lemma unlinkauth_Ok az u (t t' : tables key) : apply_eosio_unlinkauth az u t = Ok t' →
  (∃ ls, auths t' = set_links (auths t) ls) ∧ accounts t' = accounts t ∧
  metadata t' = metadata t ∧ codes t' = codes t.
Proof.
  intros Hc. unfold apply_eosio_unlinkauth in Hc. do 2 apply bind_Ok in Hc as (? & _ & Hc).
  apply bind_Ok in Hc as (t1 & H1 & Hc). apply add_ram_usage_Ok in H1 as (_ & E1 & E2 & E3).
  injection Hc as <-. split; [by eexists|done].
Qed.

Lemma setcode_auths env az c (t t' : tables key) :
  apply_eosio_setcode sha256 validate_wasm env az c t = Ok t' →
  auths t' = auths t ∧ accounts t' = accounts t.
Proof.
  intros Hc. unfold apply_eosio_setcode in Hc. do 6 apply bind_Ok in Hc as (? & _ & Hc).
  apply bind_Ok in Hc as ([cs old] & _ & Hc). apply bind_Ok in Hc as (cs' & _ & Hc).
  destruct (negb _); [by apply add_ram_usage_Ok in Hc as (-> & -> & _)|by injection Hc as <-].
Qed.

Lemma setabi_Ok az account b (t t' : tables key) : apply_eosio_setabi az account b t = Ok t' →
  ∃ a m, accounts t !! account = Some a ∧ metadata t !! account = Some m ∧
    auths t' = auths t ∧ codes t' = codes t ∧
    accounts t' = <[account := MkAccount (creation_date a) b]> (accounts t) ∧
    metadata t' = <[account := MkMetadata (code_sequence m) (u64 (abi_sequence m + 1)) (code_hash m)
      (last_code_update m) (privileged m) (vm_type m) (vm_version m)]> (metadata t).
Proof.
  intros Hc. unfold apply_eosio_setabi in Hc. apply bind_Ok in Hc as (? & _ & Hc).
  apply bind_Ok in Hc as (a & Ha & Hc). apply bind_Ok in Hc as (m & Hm & Hc).
  apply get_Ok in Ha, Hm. exists a, m.
  destruct (negb _); [by apply add_ram_usage_Ok in Hc as (-> & -> & -> & ->)|by injection Hc as <-].
Qed.

Lemma reachable_perms_ok t : reachable t → perms_ok (auths t) (accounts t).
Proof.
  induction 1 as [|??????????? IH ? Hc|????? ? IH Hc|????? ? IH Hc|???? ? IH Hc|????? ? IH Hc
    |???? ? IH Hc|????? ? IH Hc|????? ? IH Hc].
  - split; [apply initialize_database_wf| |done|intros a [? ?]; done].
    intros i p Hp. cbn in Hp. by apply lookup_singleton_Some in Hp as [<- _].
  - by eapply create_native_account_perms_ok.
  - by eapply newaccount_perms_ok.
  - by eapply updateauth_perms_ok.
  - by eapply deleteauth_perms_ok.
  - apply linkauth_Ok in Hc as ([ls ->] & -> & _). by apply perms_ok_links.
  - apply unlinkauth_Ok in Hc as ([ls ->] & -> & _). by apply perms_ok_links.
  - by apply setcode_auths in Hc as [-> ->].
  - apply setabi_Ok in Hc as (b & m & Hb & _ & -> & _ & -> & _). destruct IH as [Hw Hr Hz Ha].
    split; [done|done| |].
    + rewrite lookup_insert_ne; [done|]. congruence.
    + intros c. rewrite lookup_insert_is_Some'. intros [<-|Hc]; apply Ha; [by eexists|done].
Qed.

(** A permission of an account leads up to its owner permission. *)
Lemma owner_above db accs i p : perms_ok db accs → permissions db !! i = Some p → owner p ≠ 0 →
  name p = owner_name → ∀ j q, permissions db !! j = Some q → owner q = owner p →
  rtc (parent_of db) j i.
Proof.
  intros [Hwf Hr _ _] Hp Hp0 Hn j.
  assert (0 ≤ j ∨ j < 0) as [Hj|Hj] by lia; [|intros q Hq; apply (wf_range _ Hwf) in Hq; lia].
  revert j Hj. refine (Zlt_0_ind _ _). intros j IH Hj q Hq Ho.
  assert (j ≠ 0) as Hj0.
  { intros ->. rewrite (wf_reserved _ Hwf) in Hq. injection Hq as <-. cbn in Ho. done. }
  destruct (wf_parent _ Hwf j q Hq Hj0) as [Hlt (r & Hpr & Hro)].
  destruct (decide (parent q = 0)) as [E|E].
  - assert (j = i) as ->; [|done]. eapply (wf_unique _ Hwf); [done|done|done|].
    rewrite Hn. by apply (Hr j).
  - eapply rtc_l; [by exists q|]. destruct Hro as [?|Hro]; [done|].
    eapply IH; [done|exact Hpr|congruence].
Qed.

(** C25: after any sequence of native account creations and native actions, every account
    has an owner permission, which is a root, and an active permission, whose parent is
    that owner permission ([validate_authority_precondition] skips the lookup of these two
    permissions because of this), and the owner permission satisfies every permission of
    the account. *)
Theorem accounts_keep_permissions t a : reachable t → is_Some (accounts t !! a) →
  ∃ i p j q, find_by_owner (auths t) a owner_name = Some (i, p) ∧ parent p = 0 ∧
    find_by_owner (auths t) a active_name = Some (j, q) ∧ parent q = i ∧
    ∀ k r, permissions (auths t) !! k = Some r → owner r = a →
      satisfies (auths t) (i, p) (k, r) = Some true.
Proof.
  intros Hr Ha. apply reachable_perms_ok in Hr as Hok. pose proof Hok as [Hwf _ Hz Hacc].
  destruct (Hacc a Ha) as (i & p & j & q & Hp & <- & Hpn & Hpp & Hq & Hqo & Hqn & Hqp).
  exists i, p, j, q. rewrite <-Hpn, (find_by_owner_lookup _ i p), <-Hqn, <-Hqo,
    (find_by_owner_lookup _ j q) by done. split_and!; try done. intros k r Hk Ho.
  destruct (satisfies_spec (auths t) i p k r) as (b & -> & Hb); [done..|]. f_equal. apply Hb.
  split; [congruence|]. eapply owner_above; [done|done| |done|done|congruence].
  intros E. rewrite E, Hz in Ha. by destruct Ha.
Qed.

(** ** References to code *)

Hypothesis sha256_nonzero : ∀ c, sha256 c ≠ 0.

Definition uses (k : Z * Z * Z) (m : account_metadata_object) : Z :=
  if bool_decide (code_hash m ≠ 0 ∧ k = (code_hash m, vm_type m, vm_version m)) then 1 else 0.

(** The rows of the code table hold the reference counts [R]. *)
Definition counts (cs : gmap (Z * Z * Z) code_object) (R : Z * Z * Z → Z) : Prop :=
  ∀ k, match cs !! k with
       | Some e => code_ref_count e = R k ∧ 0 < R k
       | None => R k = 0
       end.

Definition codes_ok (t : tables key) : Prop := counts (codes t) (λ k, sum_pos (uses k) (metadata t)).

Lemma uses_max k m : Z.max 0 (uses k m) = uses k m.
Proof. unfold uses. case_bool_decide; lia. Qed.

Lemma uses_no_code k m : code_hash m = 0 → uses k m = 0.
Proof. unfold uses. intros E. by rewrite bool_decide_eq_false_2 by tauto. Qed.

Lemma uses_le k m : uses k m ≤ 1.
Proof. unfold uses. case_bool_decide; lia. Qed.

Lemma uses_insert k (metas : gmap Z account_metadata_object) a m m' : metas !! a = Some m →
  sum_pos (uses k) (<[a := m']> metas) = sum_pos (uses k) metas - uses k m + uses k m'.
Proof. intros Hm. rewrite (sum_pos_insert _ _ _ m) by done. by rewrite !uses_max. Qed.

Lemma release_code_counts (t : tables key) m h cs' old R : counts (codes t) R → (∀ k, R k < 2 ^ 64) →
  release_code t m h = Ok (cs', old) → counts cs' (λ k, R k - uses k m).
Proof.
  intros Hc HR Hr. unfold release_code in Hr. unfold uses.
  destruct (Z.eqb_spec (code_hash m) 0) as [E|E]; cbn [negb] in Hr.
  { injection Hr as <- <-. intros k. rewrite bool_decide_eq_false_2 by tauto.
    rewrite Z.sub_0_r. apply Hc. }
  apply bind_Ok in Hr as (e & He & Hr). apply get_Ok in He. apply bind_Ok in Hr as (? & _ & Hr).
  set (k0 := (code_hash m, vm_type m, vm_version m)) in *.
  pose proof (Hc k0) as H0. rewrite He in H0. specialize (HR k0).
  destruct (Z.eqb_spec (code_ref_count e) 1); injection Hr as <- <-; intros k;
    (destruct (decide (k = k0)) as [->|Hk]; [rewrite bool_decide_eq_true_2 by done
      |rewrite bool_decide_eq_false_2 by tauto; rewrite Z.sub_0_r]).
  - rewrite lookup_delete_eq. lia.
  - rewrite lookup_delete_ne by done. apply Hc.
  - rewrite lookup_insert_eq. cbn. rewrite u64_id by lia. lia.
  - rewrite lookup_insert_ne by done. apply Hc.
Qed.

Lemma acquire_code_counts env cs h c cs' R : counts cs R → R (h, 0, 0) < 2 ^ 64 - 1 →
  acquire_code env cs h 0 0 c = Ok cs' →
  counts cs' (λ k, R k + if bool_decide (k = (h, 0, 0)) then 1 else 0).
Proof.
  intros Hc HR Ha. unfold acquire_code in Ha. pose proof (Hc (h, 0, 0)) as H0.
  destruct (cs !! (h, 0, 0)) as [e|] eqn:E; injection Ha as <-; intros k;
    (destruct (decide (k = (h, 0, 0))) as [->|Hk]; [rewrite bool_decide_eq_true_2 by done
      |rewrite bool_decide_eq_false_2 by tauto; rewrite Z.add_0_r]).
  - rewrite lookup_insert_eq. cbn. rewrite u64_id by lia. lia.
  - rewrite lookup_insert_ne by done. apply Hc.
  - rewrite lookup_insert_eq. cbn. lia.
  - rewrite lookup_insert_ne by done. apply Hc.
Qed.

Lemma counts_ext cs R R' : (∀ k, R k = R' k) → counts cs R → counts cs R'.
Proof. intros HR Hc k. rewrite <-HR. apply Hc. Qed.

Lemma setcode_codes_ok env az c t t' : Z.of_nat (size (metadata t)) < 2 ^ 64 → codes_ok t →
  apply_eosio_setcode sha256 validate_wasm env az c t = Ok t' → codes_ok t'.
Proof.
  intros Hsz Hok Hc. unfold apply_eosio_setcode in Hc. apply bind_Ok in Hc as (? & _ & Hc).
  apply bind_Ok in Hc as (? & Ht & Hc). apply assert_that_Ok, Z.eqb_eq in Ht. rewrite Ht in Hc.
  apply bind_Ok in Hc as (? & Hv & Hc). apply assert_that_Ok, Z.eqb_eq in Hv. rewrite Hv in Hc.
  apply bind_Ok in Hc as (h & Hh & Hc).
  apply bind_Ok in Hc as (m & Hm & Hc). apply get_Ok in Hm.
  apply bind_Ok in Hc as (? & _ & Hc). apply bind_Ok in Hc as ([cs old] & Hr & Hc).
  apply bind_Ok in Hc as (cs' & Ha & Hc).
  set (m' := MkMetadata _ _ h _ _ _ _) in Hc. set (metas := <[sc_account c := m']> (metadata t)) in Hc.
  assert (codes t' = cs' ∧ metadata t' = metas) as [E1 E2].
  { destruct (negb _); [by apply add_ram_usage_Ok in Hc as (_ & _ & -> & ->)|by injection Hc as <-]. }
  unfold codes_ok. rewrite E1, E2.
  assert (size metas = size (metadata t)) as Hsz'.
  { apply map_size_insert_Some. by exists m. }
  assert (∀ k, sum_pos (uses k) metas < 2 ^ 64) as Hlt.
  { intros k. pose proof (sum_pos_le_size (uses k) metas (uses_le k)). lia. }
  apply release_code_counts with (R := λ k, sum_pos (uses k) (metadata t)) in Hr; [|done|].
  2:{ intros k. pose proof (sum_pos_le_size (uses k) (metadata t) (uses_le k)). lia. }
  destruct (0 <? Z.of_nat (length (sc_code c))).
  - apply bind_Ok in Hh as (? & _ & Hh). injection Hh as <-.
    assert (∀ k, uses k m' = if bool_decide (k = (sha256 (sc_code c), 0, 0)) then 1 else 0) as Hu.
    { intros k. unfold uses, m'. cbn. case_bool_decide as E; case_bool_decide; [done|tauto| |done].
      destruct E. split; [apply sha256_nonzero|done]. }
    apply acquire_code_counts with (R := λ k, sum_pos (uses k) (metadata t) - uses k m) in Ha;
      [|done|].
    + eapply counts_ext; [|exact Ha]. intros k. cbn. unfold metas.
      by rewrite (uses_insert _ _ _ m), Hu.
    + specialize (Hlt (sha256 (sc_code c), 0, 0)). unfold metas in Hlt.
      rewrite (uses_insert _ _ _ m), Hu, bool_decide_eq_true_2 in Hlt by done. lia.
  - injection Hh as <-. injection Ha as <-. eapply counts_ext; [|exact Hr]. intros k. cbn.
    unfold metas. rewrite (uses_insert _ _ _ m) by done.
    rewrite (uses_no_code k m') by done. lia.
Qed.

(** Creating an account adds a row without code. *)
Lemma codes_ok_new_account (t t' : tables key) name m : metadata t !! name = None → code_hash m = 0 →
  metadata t' = <[name := m]> (metadata t) → codes t' = codes t → codes_ok t → codes_ok t'.
Proof.
  intros Hn Hm E1 E2 Hok. unfold codes_ok. rewrite E1, E2. eapply counts_ext; [|exact Hok].
  intros k. cbn. rewrite sum_pos_insert_new, uses_max, uses_no_code by done. lia.
Qed.

Lemma create_native_account_metadata env t name time eosio_abi ow ac priv votes t' :
  create_native_account which pack_size env t name time eosio_abi ow ac priv votes = Ok t' →
  metadata t !! name = None ∧ metadata t' = <[name := default_metadata priv]> (metadata t) ∧
  codes t' = codes t.
Proof.
  intros Hc. unfold create_native_account in Hc. apply bind_Ok in Hc as (acc & _ & Hc).
  apply bind_Ok in Hc as (meta & Hmeta & Hc). apply create_Ok in Hmeta as [Hn ->].
  apply bind_Ok in Hc as ([t1 oid] & H1 & Hc). apply bind_Ok in H1 as ([db1 ?] & H1 & E1).
  injection E1 as <- ->.
  apply bind_Ok in Hc as ([t2 aid] & H2 & Hc). apply bind_Ok in H2 as ([db2 ?] & H2 & E2).
  injection E2 as <- ->.
  apply bind_Ok in Hc as (r & _ & Hc). apply bind_Ok in Hc as (t3 & H3 & Hc).
  apply bind_Ok in Hc as (? & _ & Hc). injection Hc as ->.
  by apply add_ram_usage_Ok in H3 as (_ & _ & -> & ->).
Qed.

Lemma newaccount_metadata env az c t t' :
  apply_eosio_newaccount which pack_size check_key_list env az c t = Ok t' →
  metadata t !! na_name c = None ∧
  metadata t' = <[na_name c := default_metadata false]> (metadata t) ∧ codes t' = codes t.
Proof.
  intros Hc. unfold apply_eosio_newaccount in Hc. do 10 apply bind_Ok in Hc as (? & _ & Hc).
  apply bind_Ok in Hc as (meta & Hmeta & Hc). apply create_Ok in Hmeta as [Hn ->].
  do 3 apply bind_Ok in Hc as (? & _ & Hc).
  apply bind_Ok in Hc as ([t1 oid] & H1 & Hc). apply bind_Ok in H1 as ([db1 ?] & H1 & E1).
  injection E1 as <- ->.
  apply bind_Ok in Hc as ([t2 aid] & H2 & Hc). apply bind_Ok in H2 as ([db2 ?] & H2 & E2).
  injection E2 as <- ->.
  apply bind_Ok in Hc as (r & _ & Hc). by apply add_ram_usage_Ok in Hc as (_ & _ & -> & ->).
Qed.

Lemma updateauth_metadata env az u t t' :
  apply_eosio_updateauth which pack_size check_key_list env az u t = Ok t' →
  metadata t' = metadata t ∧ codes t' = codes t.
Proof.
  intros Hc. unfold apply_eosio_updateauth in Hc. do 11 apply bind_Ok in Hc as (? & _ & Hc).
  apply bind_Ok in Hc as (perm & _ & Hc). apply bind_Ok in Hc as (pid & _ & Hc).
  destruct perm as [[id p]|].
  - apply bind_Ok in Hc as (? & _ & Hc). apply bind_Ok in Hc as (db & _ & Hc).
    by apply add_ram_usage_Ok in Hc as (_ & _ & -> & ->).
  - apply bind_Ok in Hc as ([t1 ?] & H1 & Hc). apply bind_Ok in H1 as ([db1 ?] & H1 & E1).
    injection E1 as <- ->. by apply add_ram_usage_Ok in Hc as (_ & _ & -> & ->).
Qed.

Lemma deleteauth_metadata az d t t' : apply_eosio_deleteauth pack_size az d t = Ok t' →
  metadata t' = metadata t ∧ codes t' = codes t.
Proof.
  intros Hc. unfold apply_eosio_deleteauth in Hc. do 6 apply bind_Ok in Hc as (? & _ & Hc).
  by apply add_ram_usage_Ok in Hc as (_ & _ & -> & ->).
Qed.

Lemma setcode_metadata env az c (t t' : tables key) :
  apply_eosio_setcode sha256 validate_wasm env az c t = Ok t' →
  size (metadata t') = size (metadata t).
Proof.
  intros Hc. unfold apply_eosio_setcode in Hc. do 4 apply bind_Ok in Hc as (? & _ & Hc).
  apply bind_Ok in Hc as (m & Hm & Hc). apply get_Ok in Hm.
  apply bind_Ok in Hc as (? & _ & Hc).
  apply bind_Ok in Hc as ([cs old] & _ & Hc). apply bind_Ok in Hc as (cs' & _ & Hc).
  assert (∀ m', size (<[sc_account c := m']> (metadata t)) = size (metadata t)) as Hs.
  { intros m'. apply map_size_insert_Some. by exists m. }
  destruct (negb _); [apply add_ram_usage_Ok in Hc as (_ & _ & -> & _)|injection Hc as <-]; apply Hs.
Qed.

Lemma reachable_codes_ok t : reachable t → Z.of_nat (size (metadata t)) < 2 ^ 64 → codes_ok t.
Proof.
  induction 1 as [|??????????? IH ? Hc|????? ? IH Hc|????? ? IH Hc|???? ? IH Hc|????? ? IH Hc
    |???? ? IH Hc|????? ? IH Hc|????? ? IH Hc]; intros Hsz.
  - intros k. cbn. by rewrite lookup_empty, sum_pos_empty.
  - apply create_native_account_metadata in Hc as (Hn & E1 & E2).
    rewrite E1, map_size_insert_None in Hsz by done.
    eapply codes_ok_new_account; [exact Hn| |exact E1|exact E2|apply IH; lia]. done.
  - apply newaccount_metadata in Hc as (Hn & E1 & E2).
    rewrite E1, map_size_insert_None in Hsz by done.
    eapply codes_ok_new_account; [exact Hn| |exact E1|exact E2|apply IH; lia]. done.
  - apply updateauth_metadata in Hc as [E1 E2]. unfold codes_ok. rewrite E1, E2 in *. by apply IH.
  - apply deleteauth_metadata in Hc as [E1 E2]. unfold codes_ok. rewrite E1, E2 in *. by apply IH.
  - apply linkauth_Ok in Hc as (_ & _ & E1 & E2). unfold codes_ok. rewrite E1, E2 in *. by apply IH.
  - apply unlinkauth_Ok in Hc as (_ & _ & E1 & E2). unfold codes_ok. rewrite E1, E2 in *. by apply IH.
  - pose proof (setcode_metadata _ _ _ _ _ Hc) as E. rewrite E in Hsz.
    eapply setcode_codes_ok; [exact Hsz|by apply IH|exact Hc].
  - apply setabi_Ok in Hc as (b & m & _ & Hm & _ & E2 & _ & E1). unfold codes_ok.
    rewrite E1, map_size_insert_Some in Hsz by (by exists m). rewrite E1, E2.
    eapply counts_ext; [|exact (IH Hsz)]. intros k. cbn. rewrite (uses_insert _ _ _ m) by done.
    unfold uses. cbn. lia.
Qed.

(** C33: where no code hashes to zero, after any sequence of native account creations and
    native actions on fewer than 2^64 accounts, the reference count of a row of the code
    table is the number of accounts that run this code, no row is unreferenced, and the
    code of every account that has one is in the table, so [setcode] always finds the row
    it releases. *)
Theorem code_reference_counts t : reachable t → Z.of_nat (size (metadata t)) < 2 ^ 64 →
  (∀ k e, codes t !! k = Some e →
    code_ref_count e = sum_pos (uses k) (metadata t) ∧ 0 < code_ref_count e) ∧
  (∀ k, codes t !! k = None → sum_pos (uses k) (metadata t) = 0) ∧
  (∀ a m, metadata t !! a = Some m → code_hash m ≠ 0 →
    is_Some (codes t !! (code_hash m, vm_type m, vm_version m))).
Proof.
  intros Hr Hsz. pose proof (reachable_codes_ok t Hr Hsz) as Hok. split_and!.
  - intros k e Hk. specialize (Hok k). rewrite Hk in Hok. lia.
  - intros k Hk. specialize (Hok k). by rewrite Hk in Hok.
  - intros a m Hm Hh. specialize (Hok (code_hash m, vm_type m, vm_version m)).
    destruct (codes t !! _) as [e|]; [by exists e|].
    pose proof (sum_pos_lookup_le (uses (code_hash m, vm_type m, vm_version m)) _ a m Hm) as Hle.
    rewrite uses_max in Hle. unfold uses at 1 in Hle.
    rewrite bool_decide_eq_true_2 in Hle by done. lia.
Qed.
End reachable.

(** ** Witnesses *)

(** Two genesis accounts that run the same code. *)
Definition sample_env : environment := MkEnv 100 10 2 3600 true false ∅.
Definition sample_auth (k : Z) : Authority.authority Z :=
  Authority.MkAuthority 1 [Authority.MkKw k 1] [] [].
Definition sample_hash (c : list Z) : Z := 1 + Z.of_nat (length c).

Lemma sample_hash_nonzero c : sample_hash c ≠ 0.
Proof. unfold sample_hash. lia. Qed.

Definition sample_tables : result exn (tables Z) :=
  t ← create_native_account (λ _, 0) (λ _, 34) sample_env initial_tables 7 0 []
        (sample_auth 10) (sample_auth 20) true ∅;
  t ← create_native_account (λ _, 0) (λ _, 34) sample_env t 8 0 []
        (sample_auth 30) (sample_auth 40) false ∅;
  t ← apply_eosio_setcode sample_hash (λ _, Ok tt) sample_env
        [Action.MkLevel 7 active_name] (MkSetcode 7 0 0 [1; 2]) t;
  apply_eosio_setcode sample_hash (λ _, Ok tt) sample_env
    [Action.MkLevel 8 active_name] (MkSetcode 8 0 0 [1; 2]) t.

Lemma sample_tables_reachable : ∃ t, sample_tables = Ok t ∧
  reachable (λ _, 0) (λ _, 34) (λ _, Ok tt) sample_hash (λ _, Ok tt) t.
Proof.
  destruct sample_tables as [t|e] eqn:E; [|vm_compute in E; discriminate E].
  exists t. split; [done|]. unfold sample_tables in E.
  apply bind_Ok in E as (t1 & H1 & E). apply bind_Ok in E as (t2 & H2 & E).
  apply bind_Ok in E as (t3 & H3 & E).
  eapply reach_setcode, E. eapply reach_setcode, H3.
  eapply reach_native, H2; [|done]. eapply reach_native, H1; [|done]. constructor.
Qed.

#[local] Opaque sample_tables.

Lemma accounts_keep_permissions_witness :
  ∃ t, sample_tables = Ok t ∧ ∃ i p, Permissions.find_by_owner (auths t) 8 owner_name = Some (i, p) ∧
    Permissions.parent p = 0.
Proof.
  destruct sample_tables_reachable as (t & E & Hr).
  assert (is_Some (accounts t !! 8)) as Ha.
  { assert ((if sample_tables is Ok t then bool_decide (is_Some (accounts t !! 8)) else false) = true)
      as Hs by (vm_compute; reflexivity).
    rewrite E in Hs. by apply bool_decide_eq_true in Hs. }
  exists t. split; [exact E|].
  destruct (accounts_keep_permissions (λ _, 0) (λ _, 34) (λ _, Ok tt) sample_hash (λ _, Ok tt)
    t 8 Hr Ha) as (i & p & j & q & Hp & Hpar & _).
  exists i, p. split; [exact Hp|exact Hpar].
Defined.

Lemma code_reference_counts_witness :
  ∃ t e, sample_tables = Ok t ∧ codes t !! (3, 0, 0) = Some e ∧
    code_ref_count e = sum_pos (uses (3, 0, 0)) (metadata t) ∧ code_ref_count e = 2.
Proof.
  destruct sample_tables_reachable as (t & E & Hr).
  assert ((if sample_tables is Ok t
           then (Z.of_nat (size (metadata t)), code_ref_count <$> codes t !! (3, 0, 0)) else (0, None))
    = (2, Some 2)) as Hs by (vm_compute; reflexivity).
  rewrite E in Hs. apply (inj2 pair) in Hs as [Hsz He]. apply fmap_Some in He as (e & He & Hc).
  exists t, e. split; [exact E|]. split; [exact He|].
  destruct (code_reference_counts (λ _, 0) (λ _, 34) (λ _, Ok tt) sample_hash (λ _, Ok tt)
    sample_hash_nonzero t Hr ltac:(lia)) as [H1 _]. destruct (H1 _ _ He) as [H2 _].
  split; [exact H2|]. symmetry. exact Hc.
Defined.
End EosioContract.
