(* ===== verification/BlockHeader.v ===== *)
(** * Producer schedules and block headers

    Models [producer_schedule.hpp] (the schedules of block producers and their signing
    authorities), [block_header.hpp] and [block_header.cpp] (the header of a block, its
    identifier and its extensions) and [protocol_feature_activation.hpp] and [.cpp].  The
    serialisation and the hashes of fc are parameters. *)

From S2P Require Import Prelude.
From S2P Require Import Exceptions.
From S2P Require Import Merkle.
From S2P Require Import Authority.

Local Open Scope Z_scope.

Notation digest := Merkle.digest_type.

(** ** Producer schedules *)

Module ProducerSchedule.
Section schedules.
Context {key : Type} `{PublicKey key}.

(** [legacy::producer_key] and [legacy::producer_schedule_type] *)
Record producer_key := MkProducerKey { pk_producer_name : Z; block_signing_key : key }.
Record producer_schedule_type := MkLegacySchedule {
  legacy_version : Z;
  legacy_producers : list producer_key
}.

(** [block_signing_authority] is a variant with this one alternative. *)
Record block_signing_authority_v0 := MkBsa {
  bsa_threshold : Z;
  bsa_keys : list (Authority.key_weight key)
}.

Record producer_authority := MkProducer {
  producer_name : Z;
  authority : block_signing_authority_v0
}.

Record producer_authority_schedule := MkSchedule {
  version : Z;
  producers : list producer_authority
}.

#[global] Instance producer_key_eq_dec : EqDecision producer_key.
Proof. solve_decision. Defined.
#[global] Instance producer_schedule_type_eq_dec : EqDecision producer_schedule_type.
Proof. solve_decision. Defined.
#[global] Instance block_signing_authority_eq_dec : EqDecision block_signing_authority_v0.
Proof. solve_decision. Defined.
#[global] Instance producer_authority_eq_dec : EqDecision producer_authority.
Proof. solve_decision. Defined.
#[global] Instance producer_authority_schedule_eq_dec : EqDecision producer_authority_schedule.
Proof. solve_decision. Defined.

(** [producer_authority_schedule( const legacy::producer_schedule_type& )] *)
Definition upgrade (old : producer_schedule_type) : producer_authority_schedule :=
  MkSchedule (legacy_version old)
    (map (λ p, MkProducer (pk_producer_name p) (MkBsa 1 [Authority.MkKw (block_signing_key p) 1]))
       (legacy_producers old)).

(** The loop of [keys_satisfy_and_relevant]: the weight saturates at the threshold. *)
Fixpoint sum_relevant (threshold : Z) (presented : list key)
    (l : list (Authority.key_weight key)) (total_weight num_relevant : Z) : Z * Z :=
  match l with
  | [] => (total_weight, num_relevant)
  | kw :: l =>
      if bool_decide (Authority.kw_key kw ∈ presented)
      then sum_relevant threshold presented l
             (if total_weight <? threshold
              then u32 (total_weight + Z.min (u32 (UINT32_MAX - total_weight)) (Authority.kw_weight kw))
              else total_weight)
             (num_relevant + 1)
      else sum_relevant threshold presented l total_weight num_relevant
  end.

Definition keys_satisfy_and_relevant (presented : list key) (a : block_signing_authority_v0) :
    bool * Z :=
  let '(w, n) := sum_relevant (bsa_threshold a) presented (bsa_keys a) 0 0 in
  (bsa_threshold a <=? w, n).

(** *** What the loop computes *)

(** The keys of the authority that signed, and their weight. *)
Definition relevant (presented : list key) (l : list (Authority.key_weight key)) :
    list (Authority.key_weight key) :=
  filter (λ kw, Authority.kw_key kw ∈ presented) l.

Definition weight (l : list (Authority.key_weight key)) : Z :=
  Authority.sum (Authority.kw_weight <$> l).

Lemma weight_nonneg l : Forall (λ kw, 0 ≤ Authority.kw_weight kw) l → 0 ≤ weight l.
Proof. induction 1; [done|]. unfold weight, Authority.sum in *. cbn [fmap list_fmap foldr]. lia. Qed.

Lemma sum_relevant_spec threshold presented l w n : 0 ≤ threshold < 2 ^ 32 → 0 ≤ w < 2 ^ 32 →
  Forall (λ kw, 0 ≤ Authority.kw_weight kw) l →
  ∃ w', sum_relevant threshold presented l w n =
      (w', n + Z.of_nat (length (relevant presented l))) ∧
    (threshold ≤ w' ↔ threshold ≤ w + weight (relevant presented l)).
Proof.
  intros Ht Hw Hl. revert w n Hw. induction Hl as [|kw l Hkw Hl IH]; intros w n Hw.
  { exists w. unfold relevant, weight. cbn. rewrite !Z.add_0_r. done. }
  cbn [sum_relevant]. unfold relevant in *. rewrite filter_cons.
  case_bool_decide as Hin; [rewrite decide_True by done|rewrite decide_False by done; by apply IH].
  assert (0 ≤ weight (filter (λ kw, Authority.kw_key kw ∈ presented) l)) as Hpos.
  { apply weight_nonneg, Forall_forall. intros k [_ Hk]%list_elem_of_filter.
    by eapply Forall_forall in Hk; [|exact Hl]. }
  unfold weight, Authority.sum in *. cbn [length fmap list_fmap foldr]. unfold UINT32_MAX.
  destruct (Z.ltb_spec w threshold).
  - rewrite !u32_id by (try rewrite u32_id; lia).
    destruct (IH (w + Z.min (2 ^ 32 - 1 - w) (Authority.kw_weight kw)) (n + 1)) as (w' & -> & Hiff);
      [lia|]. exists w'. split; [f_equal; lia|]. rewrite Hiff. lia.
  - destruct (IH w (n + 1)) as (w' & -> & Hiff); [lia|].
    exists w'. split; [f_equal; lia|]. rewrite Hiff. lia.
Qed.

Lemma keys_satisfy_and_relevant_spec presented a : 0 ≤ bsa_threshold a < 2 ^ 32 →
  Forall (λ kw, 0 ≤ Authority.kw_weight kw) (bsa_keys a) →
  keys_satisfy_and_relevant presented a =
    (bool_decide (bsa_threshold a ≤ weight (relevant presented (bsa_keys a))),
     Z.of_nat (length (relevant presented (bsa_keys a)))).
Proof.
  intros Ht Hl. unfold keys_satisfy_and_relevant.
  destruct (sum_relevant_spec (bsa_threshold a) presented (bsa_keys a) 0 0) as (w & -> & Hiff);
    [done|lia|done|]. f_equal. apply eq_bool_prop_intro.
  rewrite bool_decide_spec, Is_true_true, Z.leb_le. exact Hiff.
Qed.
End schedules.
#[global] Arguments producer_key : clear implicits.
#[global] Arguments producer_schedule_type : clear implicits.
#[global] Arguments block_signing_authority_v0 : clear implicits.
#[global] Arguments producer_authority : clear implicits.
#[global] Arguments producer_authority_schedule : clear implicits.
End ProducerSchedule.

(** ** Block headers *)

Module BlockHeader.
Import ProducerSchedule.

Section headers.
Context {key signature : Type}.

(** Extensions are pairs of a type and its serialised data. *)
Notation extensions_type := (list (Z * list Z)).

Record block_header := MkHeader {
  timestamp : Z;
  producer : Z;
  confirmed : Z;
  previous : digest;
  transaction_mroot : digest;
  action_mroot : digest;
  schedule_version : Z;
  new_producers : option (producer_schedule_type key);
  header_extensions : extensions_type
}.

Record signed_block_header := MkSigned {
  header : block_header;
  producer_signature : signature
}.

Inductive block_header_extension :=
  | protocol_feature_activation (protocol_features : list digest)
  | producer_schedule_change_extension (schedule : producer_authority_schedule key).

(** [extension_id()] of the two types *)
Definition activation_id : Z := 0.
Definition schedule_change_id : Z := 1.

(** [emplace_extension]: after the last extension whose type is not greater. *)
Fixpoint emplace_extension (exts : extensions_type) (eid : Z) (data : list Z) : extensions_type :=
  match exts with
  | [] => [(eid, data)]
  | e :: exts' => if eid <? e.1 then (eid, data) :: exts else e :: emplace_extension exts' eid data
  end.

(** [protocol_feature_activation::reflector_init], run when one is unpacked *)
Definition reflector_init (protocol_features : list digest) : result exn unit :=
  _ ← assert_that (0 <? Z.of_nat (length protocol_features)) ill_formed_protocol_feature_activation;
  assert_that (bool_decide (NoDup protocol_features)) ill_formed_protocol_feature_activation.

(** The constructor of [protocol_feature_activation_set], with [enforce_disjoint] *)
Definition extend_activation_set (orig : gset digest) (additional : list digest) :
    result exn (gset digest) :=
  let s : gset digest := orig ∪ list_to_set additional in
  _ ← assert_that (Z.of_nat (size s) =? Z.of_nat (size orig) + Z.of_nat (length additional))
        invalid_block_header_extension;
  Ok s.

(** *** Identifiers *)

Section identifiers.
(** [digest()], the hash of the serialised header, and [fc::endian_reverse_u32] *)
Context (digest_of : block_header → digest) (endian_reverse_u32 : Z → Z).

Definition num_from_id (id : digest) : Z := endian_reverse_u32 (u32 (Merkle.word0 id)).

Definition block_num (h : block_header) : Z := u32 (num_from_id (previous h) + 1).

Definition id (h : block_header) : digest :=
  let result := digest_of h in
  Merkle.Digest
    (u64 (Z.land (Merkle.word0 result) 0xffffffff00000000 + endian_reverse_u32 (block_num h)))
    (Merkle.word1 result) (Merkle.word2 result) (Merkle.word3 result).

(** What fc documents: the reversal of the bytes of a 32-bit integer. *)
Hypothesis endian_reverse_range : ∀ n, 0 ≤ n < 2 ^ 32 → 0 ≤ endian_reverse_u32 n < 2 ^ 32.
Hypothesis endian_reverse_involutive : ∀ n, 0 ≤ n < 2 ^ 32 →
  endian_reverse_u32 (endian_reverse_u32 n) = n.

Lemma num_from_id_id h : num_from_id (id h) = block_num h.
Proof.
  unfold num_from_id, id. cbn [Merkle.word0].
  assert (0 ≤ block_num h < 2 ^ 32) as Hn by apply u32_range.
  pose proof (endian_reverse_range _ Hn). unfold u32, u64.
  rewrite Z.mod_mod_divide by (by exists (2 ^ 32)).
  assert (Z.land (Merkle.word0 (digest_of h)) 0xffffffff00000000 mod 2 ^ 32 = 0) as E.
  { rewrite <-Z.land_ones, <-Z.land_assoc by lia.
    change (Z.land 0xffffffff00000000 (Z.ones 32)) with 0. apply Z.land_0_r. }
  rewrite <-Z.add_mod_idemp_l, E, Z.add_0_l by lia.
  rewrite Z.mod_small by lia. by apply endian_reverse_involutive.
Qed.

(** The number stored in the identifier of a header is the number of its block, and a
    block that names another as its previous one has the next number, up to the 32 bits of
    block numbers. *)
Theorem id_carries_block_num h prev :
  num_from_id (id h) = block_num h ∧
  (previous h = id prev → block_num h = u32 (block_num prev + 1)).
Proof.
  split; [apply num_from_id_id|]. intros Hp. unfold block_num at 1. by rewrite Hp, num_from_id_id.
Qed.
End identifiers.

(** *** Extensions *)

Section extensions.
(** [fc::raw::unpack] at the two types of extension *)
Context (unpack_activation : list Z → result exn (list digest)).
Context (unpack_schedule : list Z → result exn (producer_authority_schedule key)).

(** [decompose_t::extract]: [None] when no type has the identifier.  Both types enforce
    uniqueness. *)
Definition extract (eid : Z) (data : list Z) : result exn (option block_header_extension) :=
  if eid =? activation_id then
    pf ← unpack_activation data;
    _ ← reflector_init pf;
    Ok (Some (protocol_feature_activation pf))
  else if eid =? schedule_change_id then
    s ← unpack_schedule data;
    Ok (Some (producer_schedule_change_extension s))
  else Ok None.

(** The loop of [validate_and_extract_header_extensions]; the identifiers ascend, so
    every extension goes to the end of the multimap. *)
Fixpoint extract_loop (first : bool) (id_type_lower_bound : Z) (l : extensions_type)
    (results : list (Z * block_header_extension)) :
    result exn (list (Z * block_header_extension)) :=
  match l with
  | [] => Ok results
  | e :: l =>
      _ ← assert_that (id_type_lower_bound <=? e.1) invalid_block_header_extension;
      m ← extract e.1 e.2;
      match m with
      | None => Throw invalid_block_header_extension
      | Some x =>
          _ ← assert_that (first || (id_type_lower_bound <? e.1)) invalid_block_header_extension;
          extract_loop false e.1 l (results ++ [(e.1, x)])
      end
  end.

Definition validate_and_extract_header_extensions (h : block_header) :
    result exn (list (Z * block_header_extension)) :=
  extract_loop true 0 (header_extensions h) [].
End extensions.

(** [exts.lower_bound( id )->second], where [exts.count( id ) > 0] *)
Definition find_extension (exts : list (Z * block_header_extension)) (eid : Z) :
    option block_header_extension :=
  snd <$> head (filter (λ e, e.1 = eid) exts).
End headers.
#[global] Arguments block_header : clear implicits.
#[global] Arguments signed_block_header : clear implicits.
#[global] Arguments block_header_extension : clear implicits.

(** Byte reversal, to run the definitions. *)
Definition reverse_bytes (n : Z) : Z :=
  Z.land n 255 * 2 ^ 24 + Z.land (Z.shiftr n 8) 255 * 2 ^ 16 +
  Z.land (Z.shiftr n 16) 255 * 2 ^ 8 + Z.land (Z.shiftr n 24) 255.

Lemma reverse_bytes_split n : 0 ≤ n < 2 ^ 32 → ∃ a b c d,
  0 ≤ a < 256 ∧ 0 ≤ b < 256 ∧ 0 ≤ c < 256 ∧ 0 ≤ d < 256 ∧
  n = a * 2 ^ 24 + b * 2 ^ 16 + c * 2 ^ 8 + d ∧
  reverse_bytes n = d * 2 ^ 24 + c * 2 ^ 16 + b * 2 ^ 8 + a.
Proof.
  intros Hn. exists (n / 2 ^ 24), (n / 2 ^ 16 mod 256), (n / 2 ^ 8 mod 256), (n mod 256).
  unfold reverse_bytes. change 255 with (Z.ones 8).
  rewrite !Z.land_ones, !Z.shiftr_div_pow2 by lia. change (2 ^ 8) with 256.
  change (2 ^ 16) with 65536. change (2 ^ 24) with 16777216. change (2 ^ 32) with 4294967296 in Hn.
  split_and!; Z.to_euclidean_division_equations; lia.
Qed.

Lemma reverse_bytes_range n : 0 ≤ n < 2 ^ 32 → 0 ≤ reverse_bytes n < 2 ^ 32.
Proof. intros Hn. destruct (reverse_bytes_split n Hn) as (a & b & c & d & ? & ? & ? & ? & _ & ->). lia. Qed.

Lemma reverse_bytes_involutive n : 0 ≤ n < 2 ^ 32 → reverse_bytes (reverse_bytes n) = n.
Proof.
  intros Hn. pose proof (reverse_bytes_range n Hn) as Hr.
  destruct (reverse_bytes_split n Hn) as (a & b & c & d & ? & ? & ? & ? & -> & E).
  destruct (reverse_bytes_split _ Hr) as (a' & b' & c' & d' & ? & ? & ? & ? & E' & ->).
  rewrite E in E'. lia.
Qed.

Definition sample_header (prev : digest) : block_header Z :=
  MkHeader 7 1 0 prev Merkle.zero_digest Merkle.zero_digest 0 None [].

Lemma id_carries_block_num_witness :
  let digest_of := λ h : block_header Z, Merkle.Digest 0x123456789abcdef0 (timestamp h) 2 3 in
  let genesis := sample_header Merkle.zero_digest in
  let h := sample_header (id digest_of reverse_bytes genesis) in
  block_num reverse_bytes h = u32 (block_num reverse_bytes genesis + 1) ∧ block_num reverse_bytes h = 2.
Proof.
  intros digest_of genesis h. split; [|vm_compute; reflexivity].
  apply (id_carries_block_num digest_of reverse_bytes reverse_bytes_range reverse_bytes_involutive h genesis).
  reflexivity.
Defined.
End BlockHeader.
