(* ===== verification/BlockHeaderState.v ===== *)
(** * The state of block headers

    Models [block_header_state.hpp] and [block_header_state.cpp]: the schedule of
    producers, the confirmations that make blocks irreversible, the template of the next
    header and its validation, and the signatures of blocks.  [None] stands for undefined
    behaviour: a schedule without producers. *)

From S2P Require Import Prelude.
From S2P Require Import Exceptions.
From S2P Require Import Merkle.
From S2P Require Import Authority.
From S2P Require Import BlockHeader.

Local Open Scope Z_scope.

Module BlockHeaderState.
Import ProducerSchedule BlockHeader.

(** [config::producer_repetitions], [config::maximum_tracked_dpos_confirmations] and
    [config::max_producers] *)
Definition producer_repetitions : Z := 1.
Definition maximum_tracked_dpos_confirmations : Z := 1024.
Definition max_producers : Z := 23.

Section states.
Context {key signature : Type} `{PublicKey key}.

(** [detail::schedule_info] *)
Record schedule_info := MkScheduleInfo {
  schedule_lib_num : Z;
  schedule_hash : digest;
  schedule : producer_authority_schedule key
}.

(** [detail::block_header_state_common] *)
Record block_header_state_common := MkCommon {
  block_num : Z;
  dpos_proposed_irreversible_blocknum : Z;
  dpos_irreversible_blocknum : Z;
  active_schedule : producer_authority_schedule key;
  blockroot_merkle : Merkle.incremental_merkle;
  producer_to_last_produced : gmap Z Z;
  producer_to_last_implied_irb : gmap Z Z;
  valid_block_signing_authority : block_signing_authority_v0 key;
  confirm_count : list Z
}.

Record pending_block_header_state := MkPending {
  pending_common : block_header_state_common;
  prev_activated_protocol_features : gset digest;
  prev_pending_schedule : schedule_info;
  was_pending_promoted : bool;
  pending_previous : digest;
  pending_producer : Z;
  pending_timestamp : Z;
  active_schedule_version : Z;
  pending_confirmed : Z
}.

Record block_header_state := MkBhs {
  common : block_header_state_common;
  bhs_id : digest;
  bhs_header : signed_block_header key signature;
  pending_schedule : schedule_info;
  activated_protocol_features : gset digest;
  additional_signatures : list signature;
  header_exts : list (Z * block_header_extension key)
}.

(** ** The next block *)

(** The remainder by the size of an empty schedule is undefined. *)
Definition get_scheduled_producer (s : block_header_state_common) (slot : Z) :
    option (producer_authority key) :=
  let n := Z.of_nat (length (producers (active_schedule s))) * producer_repetitions in
  if n =? 0 then None
  else producers (active_schedule s) !! Z.to_nat (slot mod n / producer_repetitions).

(** The element that [std::nth_element] places at [index]. *)
Definition nth_element (l : list Z) (index : nat) : Z :=
  default 0 (merge_sort Z.le l !! index).

Definition calc_dpos_last_irreversible (s : block_header_state_common)
    (producer_of_next_block : Z) : Z :=
  let blocknums := map (λ i, if i.1 =? producer_of_next_block
                             then dpos_proposed_irreversible_blocknum s else i.2)
                     (map_to_list (producer_to_last_implied_irb s)) in
  if (length blocknums =? 0)%nat then 0
  else nth_element blocknums ((length blocknums - 1) / 3)%nat.

(** The loop that counts the confirmations: [n] is [i + 1].  Returns the counts left and
    the new proposed irreversible block. *)
Fixpoint confirm_loop (n : nat) (blocks_to_confirm : Z) (confirm_count : list Z)
    (block_num proposed : Z) : list Z * Z :=
  match n with
  | O => (confirm_count, proposed)
  | S i =>
      if blocks_to_confirm =? 0 then (confirm_count, proposed)
      else
        let c := u8 (default 0 (confirm_count !! i) - 1) in
        let confirm_count := <[i := c]> confirm_count in
        if c =? 0 then
          (drop (S i) confirm_count,
           u32 (block_num - u32 (Z.of_nat (length confirm_count) - 1 - Z.of_nat i)))
        else confirm_loop i (u32 (blocks_to_confirm - 1)) confirm_count block_num proposed
  end.

(** The counts with the one of the new block, the oldest dropped at the limit. *)
Definition grow_confirm_count (confirm_count : list Z) (required_confs : Z) : list Z :=
  if Z.of_nat (length confirm_count) <? maximum_tracked_dpos_confirmations
  then confirm_count ++ [u8 required_confs]
  else drop 1 confirm_count ++ [u8 required_confs].

(** The maps of the producers of a promoted schedule: [value] for the producer of the
    block, the known value or [fallback] for the others. *)
Definition promote_map (ps : list (producer_authority key)) (producer value fallback : Z)
    (old : gmap Z Z) : gmap Z Z :=
  foldl (λ m p,
    <[producer_name p := if producer_name p =? producer then value
                         else default fallback (old !! producer_name p)]> m) ∅ ps.

(** [operator!=( block_timestamp_type )] with the default slot, and [slot++] *)
Definition next_timestamp (s : block_header_state) (when : Z) : result exn Z :=
  let now := timestamp (header (bhs_header s)) in
  if negb (when =? 0)
  then _ ← assert_that (now <? when) block_validate_exception; Ok when
  else Ok (u32 (now + 1)).

Definition check_double_confirm (s : block_header_state_common) (producer confirmed : Z) :
    result exn unit :=
  match producer_to_last_produced s !! producer with
  | Some last => assert_that (last <? u32 (u32 (block_num s + 1) - confirmed)) producer_double_confirm
  | None => Ok tt
  end.

Section next.
(** The hash of a pair of digests *)
Context (hash : digest * digest → digest).

(** What [next] computes once its conditions hold. *)
Definition next_state (s : block_header_state) (when num_prev_blocks_to_confirm : Z)
    (proauth : producer_authority key) (merkle : Merkle.incremental_merkle) :
    pending_block_header_state :=
  let c := common s in
  let prod := producer_name proauth in
  let block_num := u32 (block_num c + 1) in
  let num_active_producers := Z.of_nat (length (producers (active_schedule c))) in
  let required_confs := u32 (u32 (num_active_producers * 2 / 3) + 1) in
  let confirm_count := grow_confirm_count (confirm_count c) required_confs in
  let '(confirm_count, proposed) :=
    confirm_loop (length confirm_count) (u32 (num_prev_blocks_to_confirm + 1)) confirm_count
      block_num (dpos_proposed_irreversible_blocknum c) in
  let irreversible := calc_dpos_last_irreversible c prod in
  let pending := pending_schedule s in
  let promoted := negb (length (producers (schedule pending)) =? 0)%nat
                  && (schedule_lib_num pending <=? irreversible) in
  let active := if promoted then schedule pending else active_schedule c in
  let produced :=
    if promoted
    then <[prod := block_num]>
           (promote_map (producers active) prod block_num irreversible (producer_to_last_produced c))
    else <[prod := block_num]> (producer_to_last_produced c) in
  let implied :=
    if promoted
    then promote_map (producers active) prod (dpos_proposed_irreversible_blocknum c) irreversible
           (producer_to_last_implied_irb c)
    else <[prod := dpos_proposed_irreversible_blocknum c]> (producer_to_last_implied_irb c) in
  MkPending
    (MkCommon block_num proposed irreversible active merkle produced implied (authority proauth)
       confirm_count)
    (activated_protocol_features s) pending promoted (bhs_id s) prod when
    (version (active_schedule c)) num_prev_blocks_to_confirm.

Definition next (s : block_header_state) (when num_prev_blocks_to_confirm : Z) :
    option (result exn pending_block_header_state) :=
  match next_timestamp s when with
  | Throw e => Some (Throw e)
  | Ok when =>
      proauth ← get_scheduled_producer (common s) when;
      match check_double_confirm (common s) (producer_name proauth) num_prev_blocks_to_confirm with
      | Throw e => Some (Throw e)
      | Ok _ =>
          merkle ← Merkle.append hash (blockroot_merkle (common s)) (bhs_id s);
          Some (Ok (next_state s when num_prev_blocks_to_confirm proauth merkle))
      end
  end.
End next.

(** ** Headers and their validation *)

Section finish.
(** The hashes and the serialisation of fc, the recovery of the key of a signature, and
    the digest of the built-in protocol feature [wtmsig_block_signatures]. *)
Context (hash : digest * digest → digest) (digest_of : block_header key → digest).
Context (endian_reverse_u32 : Z → Z).
Context (hash_legacy_schedule : producer_schedule_type key → digest).
Context (hash_schedule : producer_authority_schedule key → digest).
Context (pack_activation : list digest → list Z) (pack_schedule : producer_authority_schedule key → list Z).
Context (unpack_activation : list Z → result exn (list digest)).
Context (unpack_schedule : list Z → result exn (producer_authority_schedule key)).
Context (recover : signature → digest → result exn key).
Context (wtmsig_digest : option digest).
(** The check of the protocol features a block activates, an argument in the source. *)
Context (validator : Z → gset digest → list digest → result exn unit).
(** [signature_type()] *)
Context (no_signature : signature).

(** [is_builtin_activated] of [wtmsig_block_signatures] *)
Definition wtmsig_activated (pfa : gset digest) : bool :=
  match wtmsig_digest with Some d => bool_decide (d ∈ pfa) | None => false end.

(** The single key of an authority that a legacy schedule can hold *)
Definition downgrade (p : producer_authority key) : result exn (producer_key key) :=
  match bsa_keys (authority p) with
  | [kw] =>
      if Authority.kw_weight kw =? bsa_threshold (authority p)
      then Ok (MkProducerKey (producer_name p) (Authority.kw_key kw))
      else Throw producer_schedule_exception
  | _ => Throw producer_schedule_exception
  end.

Definition downgrade_all (ps : list (producer_authority key)) : result exn (list (producer_key key)) :=
  foldM (λ l p, k ← downgrade p; Ok (l ++ [k])) [] ps.

Definition make_block_header (p : pending_block_header_state) (transaction_mroot action_mroot : digest)
    (new_producers : option (producer_authority_schedule key))
    (new_protocol_feature_activations : list digest) :
    result exn (signed_block_header key signature) :=
  let exts :=
    if 0 <? Z.of_nat (length new_protocol_feature_activations)
    then emplace_extension [] activation_id (pack_activation new_protocol_feature_activations)
    else [] in
  '(legacy, exts) ←
    match new_producers with
    | None => Ok (None, exts)
    | Some s =>
        if wtmsig_activated (prev_activated_protocol_features p)
        then Ok (None, emplace_extension exts schedule_change_id (pack_schedule s))
        else l ← downgrade_all (producers s); Ok (Some (MkLegacySchedule (version s) l), exts)
    end;
  Ok (MkSigned
        (MkHeader (pending_timestamp p) (pending_producer p) (pending_confirmed p)
           (pending_previous p) transaction_mroot action_mroot (active_schedule_version p) legacy exts)
        no_signature).

(** The conditions on a schedule that a header proposes. *)
Definition check_new_schedule (p : pending_block_header_state) (new_version : Z) : result exn unit :=
  _ ← assert_that (negb (was_pending_promoted p)) producer_schedule_exception;
  _ ← assert_that (new_version =? u32 (version (active_schedule (pending_common p)) + 1))
        producer_schedule_exception;
  assert_that (length (producers (schedule (prev_pending_schedule p))) =? 0)%nat
    producer_schedule_exception.

(** The schedule a header proposes, with its hash. *)
Definition new_schedule (p : pending_block_header_state) (h : block_header key)
    (exts : list (Z * block_header_extension key)) :
    result exn (option (producer_authority_schedule key * digest)) :=
  let change := find_extension exts schedule_change_id in
  let wtmsig_enabled :=
    (bool_decide (is_Some (new_producers h)) || bool_decide (is_Some change))
    && wtmsig_activated (prev_activated_protocol_features p) in
  r ← match new_producers h with
      | Some n =>
          _ ← assert_that (negb wtmsig_enabled) producer_schedule_exception;
          _ ← check_new_schedule p (legacy_version n);
          Ok (Some (upgrade n, hash_legacy_schedule n))
      | None => Ok None
      end;
  match change with
  | Some (producer_schedule_change_extension n) =>
      _ ← assert_that wtmsig_enabled producer_schedule_exception;
      _ ← check_new_schedule p (version n);
      Ok (Some (n, hash_schedule n))
  | Some (protocol_feature_activation _) => Throw std_exception
  | None => Ok r
  end.

(** [exts.count( extension_id() > 0 )] counts the extensions with identifier 0, which is
    [extension_id()]. *)
Definition new_activated (p : pending_block_header_state)
    (exts : list (Z * block_header_extension key)) : result exn (gset digest) :=
  match find_extension exts activation_id with
  | Some (protocol_feature_activation l) =>
      _ ← validator (pending_timestamp p) (prev_activated_protocol_features p) l;
      extend_activation_set (prev_activated_protocol_features p) l
  | Some (producer_schedule_change_extension _) => Throw std_exception
  | None => Ok (prev_activated_protocol_features p)
  end.

Definition next_pending_schedule (p : pending_block_header_state)
    (s : option (producer_authority_schedule key * digest)) : schedule_info :=
  let prev := prev_pending_schedule p in
  match s with
  | Some (n, h) => MkScheduleInfo (block_num (pending_common p)) h n
  | None =>
      MkScheduleInfo (schedule_lib_num prev) (schedule_hash prev)
        (if was_pending_promoted p then MkSchedule (version (schedule prev)) [] else schedule prev)
  end.

(** [_finish_next] *)
Definition finish_next_common (p : pending_block_header_state) (h : signed_block_header key signature) :
    result exn block_header_state :=
  let b := header h in
  _ ← assert_that (timestamp b =? pending_timestamp p) block_validate_exception;
  _ ← assert_that (bool_decide (previous b = pending_previous p)) unlinkable_block_exception;
  _ ← assert_that (confirmed b =? pending_confirmed p) block_validate_exception;
  _ ← assert_that (producer b =? pending_producer p) wrong_producer;
  _ ← assert_that (schedule_version b =? active_schedule_version p) producer_schedule_exception;
  exts ← validate_and_extract_header_extensions unpack_activation unpack_schedule b;
  s ← new_schedule p b exts;
  activated ← new_activated p exts;
  Ok (MkBhs (pending_common p) (BlockHeader.id digest_of endian_reverse_u32 b) h
        (next_pending_schedule p s) activated [] exts).

(** ** Signatures *)

Definition sig_digest (s : block_header_state) : digest :=
  let header_bmroot :=
    hash (digest_of (header (bhs_header s)), Merkle.get_root (blockroot_merkle (common s))) in
  hash (header_bmroot, schedule_hash (pending_schedule s)).

(** The keys of the additional signatures, none twice. *)
Fixpoint collect_keys (d : digest) (keys : list key) (sigs : list signature) : result exn (list key) :=
  match sigs with
  | [] => Ok keys
  | s :: sigs =>
      k ← recover s d;
      _ ← assert_that (bool_decide (k ∉ keys)) wrong_signing_key;
      collect_keys d (k :: keys) sigs
  end.

Definition verify_signee (s : block_header_state) : result exn unit :=
  let a := valid_block_signing_authority (common s) in
  _ ← assert_that (1 + Z.of_nat (length (additional_signatures s)) <=? Z.of_nat (length (bsa_keys a)))
        wrong_signing_key;
  let d := sig_digest s in
  k ← recover (producer_signature (bhs_header s)) d;
  keys ← collect_keys d [k] (additional_signatures s);
  let '(is_satisfied, relevant_sig_count) := keys_satisfy_and_relevant keys a in
  _ ← assert_that (relevant_sig_count =? Z.of_nat (length keys)) wrong_signing_key;
  assert_that is_satisfied wrong_signing_key.

Definition set_signatures (s : block_header_state) (h : signed_block_header key signature)
    (sigs : list signature) : block_header_state :=
  MkBhs (common s) (bhs_id s) h (pending_schedule s) (activated_protocol_features s) sigs (header_exts s).

(** [sign]: the signer returns the producer's signature last. *)
Definition sign (signer : digest → list signature) (s : block_header_state) :
    result exn block_header_state :=
  let sigs := signer (sig_digest s) in
  match last sigs with
  | None => Throw no_block_signatures
  | Some sg =>
      let s := set_signatures s (MkSigned (header (bhs_header s)) sg) (removelast sigs) in
      _ ← verify_signee s;
      Ok s
  end.

(** [finish_next] of a received block *)
Definition finish_next (p : pending_block_header_state) (h : signed_block_header key signature)
    (additional : list signature) (skip_validate_signee : bool) : result exn block_header_state :=
  _ ← (if negb (length additional =? 0)%nat
       then assert_that (wtmsig_activated (prev_activated_protocol_features p)) producer_schedule_exception
       else Ok tt);
  r ← finish_next_common p h;
  let r := if negb (length additional =? 0)%nat then set_signatures r (bhs_header r) additional else r in
  _ ← (if negb skip_validate_signee then verify_signee r else Ok tt);
  Ok r.

(** [finish_next] of a produced block; the signature of the result is stored in [h] *)
Definition finish_next_signed (p : pending_block_header_state) (h : signed_block_header key signature)
    (signer : digest → list signature) : result exn block_header_state :=
  let pfa := prev_activated_protocol_features p in
  r ← finish_next_common p h;
  r ← sign signer r;
  _ ← (if negb (length (additional_signatures r) =? 0)%nat
       then assert_that (wtmsig_activated pfa) producer_schedule_exception
       else Ok tt);
  Ok r.

(** [next] of a received header *)
Definition next_header (s : block_header_state) (h : signed_block_header key signature)
    (additional : list signature) (skip_validate_signee : bool) :
    option (result exn block_header_state) :=
  r ← next hash s (timestamp (header h)) (confirmed (header h));
  Some (p ← r; finish_next p h additional skip_validate_signee).

Definition get_new_protocol_feature_activations (s : block_header_state) : list digest :=
  match find_extension (header_exts s) activation_id with
  | Some (protocol_feature_activation l) => l
  | _ => []
  end.
End finish.
End states.
#[global] Arguments schedule_info : clear implicits.
#[global] Arguments block_header_state_common : clear implicits.
#[global] Arguments pending_block_header_state : clear implicits.
#[global] Arguments block_header_state : clear implicits.

(** ** Confirmations *)

Definition count_ok (x : Z) : Prop := 1 ≤ x ≤ 255.

(** The indices below [n] that [confirm_loop] with [b] blocks to confirm may visit *)
Definition covered (n : nat) (b : Z) (j : nat) : Prop := Z.of_nat n - b ≤ Z.of_nat j ∧ (j < n)%nat.

#[global] Instance covered_dec n b j : Decision (covered n b j).
Proof. unfold covered. apply _. Defined.

(** The loop decrements the covered counts, down to the first that becomes zero: its block
    is the new proposed irreversible one, and only the later counts are kept. *)
Lemma confirm_loop_spec n b cc bn prop cc' prop' : (n ≤ length cc)%nat → Forall count_ok cc →
  0 ≤ b < 2 ^ 32 → Z.of_nat (length cc) ≤ bn < 2 ^ 32 →
  confirm_loop n b cc bn prop = (cc', prop') →
  (prop' = prop ∧ length cc' = length cc ∧
    ∀ j x, cc !! j = Some x → (covered n b j → x ≠ 1) ∧
      cc' !! j = Some (if decide (covered n b j) then x - 1 else x)) ∨
  (∃ i, covered n b i ∧ cc !! i = Some 1 ∧ prop' = bn - (Z.of_nat (length cc) - 1 - Z.of_nat i) ∧
    length cc' = (length cc - S i)%nat ∧
    ∀ j x, cc !! (S i + j)%nat = Some x → ((S i + j < n)%nat → x ≠ 1) ∧
      cc' !! j = Some (if decide (S i + j < n)%nat then x - 1 else x)).
Proof.
  revert b cc. induction n as [|n IH]; intros b cc Hn Hok Hb Hbn Hr; cbn [confirm_loop] in Hr.
  { injection Hr as <- <-. left. split_and!; [done|done|]. intros j x Hj.
    rewrite decide_False by (unfold covered; lia). split; [unfold covered; lia|done]. }
  destruct (Z.eqb_spec b 0) as [->|Hb0].
  { injection Hr as <- <-. left. split_and!; [done|done|]. intros j x Hj.
    rewrite decide_False by (unfold covered; lia). split; [unfold covered; lia|done]. }
  destruct (lookup_lt_is_Some_2 cc n) as [x Hx]; [lia|]. rewrite Hx in Hr. change (default 0 (Some x)) with x in Hr.
  assert (count_ok x) as Hxo by (by eapply Forall_lookup_1). unfold count_ok in Hxo.
  rewrite u8_id in Hr by lia. rewrite length_insert in Hr.
  destruct (Z.eqb_spec (x - 1) 0) as [E|E].
  - injection Hr as <- <-. right. exists n. rewrite length_drop, length_insert.
    rewrite !u32_id by (try rewrite u32_id; lia).
    split_and!; [unfold covered; lia|rewrite Hx; f_equal; lia|done|done|].
    intros j y Hy. rewrite decide_False by lia. split; [lia|].
    rewrite lookup_drop, list_lookup_insert_ne by lia. done.
  - rewrite u32_id in Hr by lia. apply IH in Hr; clear IH;
      [|rewrite length_insert; lia| |lia|rewrite length_insert; lia].
    2:{ apply Forall_insert; [done|unfold count_ok; lia]. }
    rewrite length_insert in Hr.
    destruct Hr as [(-> & Hl & Hj)|(i & Hi & Hi1 & -> & Hl & Hj)]; [left|right; exists i].
    + split_and!; [done|done|]. intros j y Hy. destruct (decide (j = n)) as [->|Hjn].
      * destruct (Hj n (x - 1)) as [_ Hn']; [rewrite list_lookup_insert_eq; [done|lia]|].
        rewrite decide_False in Hn' by (unfold covered; lia).
        rewrite decide_True by (unfold covered; lia). rewrite Hx in Hy. injection Hy as <-.
        split; [intros _; lia|done].
      * destruct (Hj j y) as [H1 H2]; [by rewrite list_lookup_insert_ne by done|].
        assert (covered (S n) b j ↔ covered n (b - 1) j) as Hiff by (unfold covered; lia).
        rewrite (decide_ext (covered (S n) b j) (covered n (b - 1) j)) by done.
        split; [by rewrite Hiff|done].
    + unfold covered in Hi. rewrite list_lookup_insert_ne in Hi1 by lia.
      split_and!; [unfold covered; lia|done|done|done|]. intros j y Hy.
      destruct (decide (S i + j = n)%nat) as [Ej|Hjn].
      * destruct (Hj j (x - 1)) as [_ Hn']; [rewrite Ej, list_lookup_insert_eq; [done|lia]|].
        rewrite decide_False in Hn' by lia. rewrite decide_True by lia.
        rewrite Ej, Hx in Hy. injection Hy as <-. split; [intros _; lia|done].
      * destruct (Hj j y) as [H1 H2]; [by rewrite list_lookup_insert_ne by done|].
        rewrite (decide_ext (S i + j < S n)%nat (S i + j < n)%nat) by lia.
        split; [intros ?; apply H1; lia|done].
Qed.

(** *** The confirmations of a chain of blocks *)

(** A block of a chain: its number, its producer and the number of blocks it confirms. *)
Record confirmation := MkConf { c_num : Z; c_producer : Z; c_confirmed : Z }.

(** It confirms itself and the [c_confirmed] blocks before it. *)
Definition confirms (b : Z) (e : confirmation) : Prop := c_num e - c_confirmed e ≤ b ≤ c_num e.

#[global] Instance confirms_dec b e : Decision (confirms b e).
Proof. unfold confirms. apply _. Defined.

Definition confirmers (b : Z) (tr : list confirmation) : list confirmation := filter (confirms b) tr.

(** The number of the block that the count at an index is for *)
Definition block_at (bn : Z) (cc : list Z) (i : nat) : Z :=
  bn - (Z.of_nat (length cc) - 1 - Z.of_nat i).

(** Every count of a block above [bn0] is what it misses of [req] confirmations. *)
Definition tracks (bn0 req : Z) (tr : list confirmation) (bn : Z) (cc : list Z) : Prop :=
  ∀ i x, cc !! i = Some x → bn0 < block_at bn cc i →
    x + Z.of_nat (length (confirmers (block_at bn cc i) tr)) = req.

Lemma confirmers_cons b e tr :
  Z.of_nat (length (confirmers b (e :: tr))) =
    (if decide (confirms b e) then 1 else 0) + Z.of_nat (length (confirmers b tr)).
Proof. unfold confirmers. rewrite filter_cons. destruct (decide _); cbn [length]; lia. Qed.

Lemma confirmers_above b tr : Forall (λ e, c_num e < b) tr → confirmers b tr = [].
Proof.
  intros Hf. unfold confirmers. induction Hf as [|e tr He _ IH]; [done|].
  rewrite filter_cons, decide_False; [done|]. unfold confirms. lia.
Qed.

Lemma grow_length cc req : (length cc ≤ 1024)%nat →
  (1 ≤ length (grow_confirm_count cc req) ≤ 1024)%nat ∧
  (length (grow_confirm_count cc req) ≤ S (length cc))%nat.
Proof.
  intros Hl. unfold grow_confirm_count, maximum_tracked_dpos_confirmations.
  destruct (Z.ltb_spec (Z.of_nat (length cc)) 1024);
    rewrite length_app, ?length_drop; cbn [length]; lia.
Qed.

Lemma grow_ok cc req : Forall count_ok cc → count_ok req → Forall count_ok (grow_confirm_count cc req).
Proof.
  unfold count_ok, grow_confirm_count. intros Hc Hr. rewrite u8_id by lia.
  destruct (_ <? _); apply Forall_app; (split; [|by apply Forall_singleton]); [done|].
  by apply Forall_drop.
Qed.

Lemma grow_tracks bn0 req tr bn cc : count_ok req → (length cc ≤ 1024)%nat →
  Forall (λ e, c_num e ≤ bn) tr → tracks bn0 req tr bn cc →
  tracks bn0 req tr (bn + 1) (grow_confirm_count cc req).
Proof.
  intros Hr Hl Htr Ht i x Hi Hb. unfold block_at, grow_confirm_count, count_ok in *.
  rewrite u8_id in * by lia. unfold maximum_tracked_dpos_confirmations in *.
  assert (∀ l d, l = drop d cc → (d ≤ length cc)%nat →
    (l ++ [req]) !! i = Some x →
    bn0 < bn + 1 - (Z.of_nat (length (l ++ [req])) - 1 - Z.of_nat i) →
    x + Z.of_nat (length (confirmers (bn + 1 - (Z.of_nat (length (l ++ [req])) - 1 - Z.of_nat i)) tr))
      = req) as Hgen.
  { clear Hi Hb. intros l d -> Hd Hi Hb. rewrite length_app, length_drop in *. cbn [length] in *.
    apply lookup_app_Some in Hi as [Hi|[Hge Hi]].
    - pose proof (lookup_lt_Some _ _ _ Hi) as Hlt. rewrite length_drop in Hlt.
      rewrite lookup_drop in Hi. specialize (Ht (d + i)%nat x Hi). unfold block_at in Ht.
      replace (bn + 1 - _) with (bn - (Z.of_nat (length cc) - 1 - Z.of_nat (d + i))) in * by lia.
      by apply Ht.
    - rewrite length_drop in Hge, Hi. apply list_lookup_singleton_Some in Hi as [Hi <-].
      rewrite confirmers_above; [cbn; lia|]. eapply Forall_impl; [exact Htr|]. cbn. lia. }
  destruct (Z.ltb_spec (Z.of_nat (length cc)) 1024).
  - by apply (Hgen cc 0%nat); [rewrite drop_0|lia|..].
  - by apply (Hgen (drop 1 cc) 1%nat); [|lia|..].
Qed.

(** The counts after a block that confirms [k] earlier ones *)
Lemma loop_tracks bn0 req tr bn g k prod prop cc' prop' : Forall count_ok g →
  0 ≤ k < 2 ^ 16 → Z.of_nat (length g) ≤ bn < 2 ^ 32 → tracks bn0 req tr bn g →
  confirm_loop (length g) (u32 (k + 1)) g bn prop = (cc', prop') →
  let tr' := MkConf bn prod k :: tr in
  tracks bn0 req tr' bn cc' ∧ Forall count_ok cc' ∧ (length cc' ≤ length g)%nat ∧
  (prop' = prop ∨
    (prop' + Z.of_nat (length cc') = bn ∧ bn - Z.of_nat (length g) < prop' ∧
     (bn0 < prop' → Z.of_nat (length (confirmers prop' tr')) = req))).
Proof.
  intros Hok Hk Hlen Ht Hr tr'. rewrite u32_id in Hr by lia.
  assert (∀ j x, g !! j = Some x → (if decide (covered (length g) (k + 1) j) then 1 else 0) =
    (if decide (confirms (block_at bn g j) (MkConf bn prod k)) then 1 else 0 : Z)) as Hcov.
  { intros j x Hj. apply lookup_lt_Some in Hj.
    by rewrite (decide_ext (covered _ _ _) (confirms (block_at bn g j) (MkConf bn prod k)))
      by (unfold covered, confirms, block_at; cbn; lia). }
  apply confirm_loop_spec in Hr; [|done|done|lia|done].
  destruct Hr as [(-> & Hl & Hj)|(i & Hi & Hi1 & -> & Hl & Hj)].
  - assert (∀ j y, cc' !! j = Some y → ∃ x, g !! j = Some x ∧ count_ok y ∧
      y = x - if decide (covered (length g) (k + 1) j) then 1 else 0) as Hback.
    { intros j y Hy. pose proof (lookup_lt_Some _ _ _ Hy) as Hlt. rewrite Hl in Hlt.
      apply lookup_lt_is_Some_2 in Hlt as [x Hx]. exists x. split; [done|].
      destruct (Hj j x Hx) as [H1 H2]. rewrite H2 in Hy. injection Hy as <-.
      assert (count_ok x) as Hxo by (by eapply Forall_lookup_1). unfold count_ok in *.
      destruct (decide (covered (length g) (k + 1) j)) as [Hc|_]; [specialize (H1 Hc)|]; lia. }
    split_and!; [|apply Forall_lookup_2; intros j y Hy; by apply Hback in Hy as (? & _ & ? & _)|lia|by left].
    intros j y Hy Hb. unfold tr'. apply Hback in Hy as (x & Hx & _ & ->).
    unfold block_at in *. rewrite Hl in *. rewrite confirmers_cons.
    rewrite (Hcov j x Hx). specialize (Ht j x Hx Hb). unfold block_at in *. lia.
  - unfold covered in Hi.
    assert (∀ j, block_at bn cc' j = block_at bn g (S i + j)) as Hat by (unfold block_at; lia).
    assert (∀ j y, cc' !! j = Some y → ∃ x, g !! (S i + j)%nat = Some x ∧ count_ok y ∧ y = x - 1) as Hback.
    { intros j y Hy. pose proof (lookup_lt_Some _ _ _ Hy) as Hlt. rewrite Hl in Hlt.
      destruct (lookup_lt_is_Some_2 g (S i + j)) as [x Hx]; [lia|]. exists x. split; [done|].
      destruct (Hj j x Hx) as [H1 H2]. rewrite H2, decide_True in Hy by lia. injection Hy as <-.
      assert (count_ok x) as Hxo by (by eapply Forall_lookup_1). unfold count_ok in *.
      specialize (H1 ltac:(lia)). lia. }
    split_and!; [|apply Forall_lookup_2; intros j y Hy; by apply Hback in Hy as (? & _ & ? & _)|lia|right].
    + intros j y Hy Hb. unfold tr'. rewrite Hat in *. apply Hback in Hy as (x & Hx & _ & ->).
      rewrite confirmers_cons, <-(Hcov _ x Hx). rewrite decide_True by (unfold covered; apply lookup_lt_Some in Hx; lia).
      specialize (Ht _ x Hx Hb). lia.
    + split_and!; [lia|lia|]. intros Hb. unfold tr'.
      change (bn - (Z.of_nat (length g) - 1 - Z.of_nat i)) with (block_at bn g i) in *.
      rewrite confirmers_cons, <-(Hcov _ 1 Hi1). rewrite decide_True by done.
      specialize (Ht _ 1 Hi1 Hb). lia.
Qed.

Section dpos.
Context {key signature : Type} `{PublicKey key} (hash : digest * digest → digest).

Notation bhs := (block_header_state key signature).
Notation bhs_common := (block_header_state_common key).

Lemma next_Ok (s : bhs) when k p : next hash s when k = Some (Ok p) →
  ∃ when' proauth merkle, next_timestamp s when = Ok when' ∧
    get_scheduled_producer (common s) when' = Some proauth ∧
    check_double_confirm (common s) (producer_name proauth) k = Ok tt ∧
    Merkle.append hash (blockroot_merkle (common s)) (bhs_id s) = Some merkle ∧
    p = next_state s when' k proauth merkle.
Proof.
  unfold next. destruct (next_timestamp s when) as [when'|] eqn:Ht; [|done].
  intros (proauth & Hp & Hr)%bind_Some. exists when', proauth.
  destruct (check_double_confirm _ _ _) as [[]|] eqn:Hc; [|done].
  apply bind_Some in Hr as (m & Hm & Hr). exists m. by injection Hr as <-.
Qed.

(** The confirmations a block needs *)
Definition required (c : bhs_common) : Z := Z.of_nat (length (producers (active_schedule c))) * 2 / 3 + 1.

Definition few_producers (c : bhs_common) : Prop :=
  Z.of_nat (length (producers (active_schedule c))) ≤ max_producers.

Lemma required_ok c : few_producers c → count_ok (required c).
Proof.
  unfold few_producers, required, count_ok, max_producers. intros Hn.
  Z.to_euclidean_division_equations. lia.
Qed.

(** The counts of the tracked blocks, all above the proposed irreversible one *)
Record counts_wf (c : bhs_common) : Prop := {
  counts_block : 0 ≤ block_num c < 2 ^ 32;
  counts_length : (length (confirm_count c) ≤ 1024)%nat;
  counts_range : Forall count_ok (confirm_count c);
  counts_proposed : 0 ≤ dpos_proposed_irreversible_blocknum c ∧
    dpos_proposed_irreversible_blocknum c + Z.of_nat (length (confirm_count c)) ≤ block_num c
}.

(** The fields of the next state that the confirmations determine *)
Lemma next_state_counts (s : bhs) when k proauth merkle : few_producers (common s) →
  let c' := pending_common (next_state s when k proauth merkle) in
  let g := grow_confirm_count (confirm_count (common s)) (required (common s)) in
  block_num c' = u32 (block_num (common s) + 1) ∧
  confirm_loop (length g) (u32 (k + 1)) g (block_num c')
    (dpos_proposed_irreversible_blocknum (common s)) =
    (confirm_count c', dpos_proposed_irreversible_blocknum c') ∧
  dpos_irreversible_blocknum c' = calc_dpos_last_irreversible (common s) (producer_name proauth).
Proof.
  intros Hn. apply required_ok in Hn as Hr. unfold count_ok, few_producers, max_producers, required in *.
  unfold next_state.
  rewrite !(u32_id (Z.of_nat _ * 2 / 3)) by (Z.to_euclidean_division_equations; lia).
  rewrite !(u32_id (Z.of_nat _ * 2 / 3 + 1)) by lia.
  set (g := grow_confirm_count _ _). destruct (confirm_loop _ _ _ _ _) as [cc prop] eqn:E. cbn.
  split_and!; [done|exact E|done].
Qed.

(** One step of the invariant of a chain above block [bn0] *)
Lemma next_tracks bn0 tr (s : bhs) when k p : counts_wf (common s) → few_producers (common s) →
  block_num (common s) + 1 < 2 ^ 32 → 0 ≤ k < 2 ^ 16 →
  Forall (λ e, c_num e ≤ block_num (common s)) tr →
  tracks bn0 (required (common s)) tr (block_num (common s)) (confirm_count (common s)) →
  next hash s when k = Some (Ok p) →
  let c := common s in
  let c' := pending_common p in
  let tr' := MkConf (block_num c') (pending_producer p) k :: tr in
  counts_wf c' ∧ block_num c' = block_num c + 1 ∧
  tracks bn0 (required c) tr' (block_num c') (confirm_count c') ∧
  (dpos_proposed_irreversible_blocknum c' = dpos_proposed_irreversible_blocknum c ∨
   (dpos_proposed_irreversible_blocknum c < dpos_proposed_irreversible_blocknum c' ∧
    (bn0 < dpos_proposed_irreversible_blocknum c' →
     Z.of_nat (length (confirmers (dpos_proposed_irreversible_blocknum c') tr')) = required c))).
Proof.
  intros [Hbn Hlen Hcc [Hp0 Hp1]] Hn Hlt Hk Htr Ht Hnext c c' tr'. subst c.
  apply next_Ok in Hnext as (when' & proauth & merkle & _ & _ & _ & _ & ->).
  destruct (next_state_counts s when' k proauth merkle Hn) as (Eb & El & _). fold c' in Eb, El.
  rewrite u32_id in Eb by lia. rewrite Eb in El.
  apply required_ok in Hn as Hr. destruct (grow_length (confirm_count (common s)) (required (common s))) as [Hg Hg']; [done|].
  pose proof (grow_tracks bn0 _ tr _ _ Hr Hlen Htr Ht) as Htg.
  apply (loop_tracks bn0 (required (common s)) tr _ _ k
    (pending_producer (next_state s when' k proauth merkle))) in El as (Ht' & Hok' & Hl' & Hprop);
    [|by apply grow_ok|done|lia|done].
  rewrite <-Eb in Ht', Hprop. fold tr' in Ht', Hprop. split_and!; [|done|exact Ht'|].
  - split; [lia|lia|done|].  destruct Hprop as [->|(Hp & ? & _)]; lia.
  -  destruct Hprop as [->|(Hp & Hlow & Hconf)]; [by left|right].
    split; [lia|exact Hconf].
Qed.

(** A chain of blocks above [c0], newest first, during which the schedule stays active.
    No block confirms more blocks than there are below it. *)
Inductive chain (c0 : bhs_common) : list confirmation → bhs_common → Prop :=
  | chain_start : chain c0 [] c0
  | chain_next tr (s : bhs) when k p : chain c0 tr (common s) →
      block_num (common s) + 1 < 2 ^ 32 → 0 ≤ k < 2 ^ 16 → k ≤ block_num (common s) + 1 →
      next hash s when k = Some (Ok p) → was_pending_promoted p = false →
      chain c0 (MkConf (block_num (pending_common p)) (pending_producer p) k :: tr) (pending_common p).

(** A block of the same producer confirms only blocks above the earlier one. *)
Definition disjoint_ranges (later earlier : confirmation) : Prop :=
  c_producer earlier = c_producer later → c_num earlier < c_num later - c_confirmed later.

Definition names (c : bhs_common) : list Z := producer_name <$> producers (active_schedule c).

Record chain_ok (c0 : bhs_common) (tr : list confirmation) (c : bhs_common) : Prop := {
  ok_counts : counts_wf c;
  ok_schedule : active_schedule c = active_schedule c0;
  ok_above : block_num c0 ≤ block_num c;
  ok_nums : Forall (λ e, c_num e ≤ block_num c) tr;
  ok_tracks : tracks (block_num c0) (required c0) tr (block_num c) (confirm_count c);
  ok_confirmed : block_num c0 < dpos_proposed_irreversible_blocknum c →
    required c0 ≤ Z.of_nat (length (confirmers (dpos_proposed_irreversible_blocknum c) tr));
  ok_last : Forall (λ e, ∃ m, producer_to_last_produced c !! c_producer e = Some m ∧ c_num e ≤ m) tr;
  ok_disjoint : StronglySorted disjoint_ranges tr;
  ok_producers : Forall (λ e, c_producer e ∈ names c0) tr
}.

Lemma next_state_unpromoted (s : bhs) when k proauth merkle :
  let p := next_state s when k proauth merkle in
  was_pending_promoted p = false →
  active_schedule (pending_common p) = active_schedule (common s) ∧
  producer_to_last_produced (pending_common p) =
    <[producer_name proauth := u32 (block_num (common s) + 1)]> (producer_to_last_produced (common s)) ∧
  producer_to_last_implied_irb (pending_common p) =
    <[producer_name proauth := dpos_proposed_irreversible_blocknum (common s)]>
      (producer_to_last_implied_irb (common s)).
Proof.
  unfold next_state. destruct (confirm_loop _ _ _ _ _) as [cc prop]. cbn. by intros ->.
Qed.

Lemma next_state_producer (s : bhs) when k proauth merkle :
  pending_producer (next_state s when k proauth merkle) = producer_name proauth.
Proof. unfold next_state. by destruct (confirm_loop _ _ _ _ _). Qed.

Lemma get_scheduled_producer_in (c : bhs_common) slot proauth :
  get_scheduled_producer c slot = Some proauth → producer_name proauth ∈ names c.
Proof.
  unfold get_scheduled_producer. destruct (_ =? 0); [done|]. intros Hp.
  apply list_elem_of_fmap_2, (list_elem_of_lookup_2 _ _ _ Hp).
Qed.

Lemma confirmers_mono b e tr : (length (confirmers b tr) ≤ length (confirmers b (e :: tr)))%nat.
Proof. unfold confirmers. rewrite filter_cons. destruct (decide _); cbn [length]; lia. Qed.

Lemma chain_ok_next c0 tr (s : bhs) when k p : few_producers c0 → chain_ok c0 tr (common s) →
  block_num (common s) + 1 < 2 ^ 32 → 0 ≤ k < 2 ^ 16 → k ≤ block_num (common s) + 1 →
  next hash s when k = Some (Ok p) → was_pending_promoted p = false →
  chain_ok c0 (MkConf (block_num (pending_common p)) (pending_producer p) k :: tr) (pending_common p).
Proof.
  intros Hn0 [Hc Hs Ha Hnum Ht Hconf Hlast Hdis Hprod] Hlt Hk Hkb Hnext Hpr.
  assert (required c0 = required (common s)) as Er by (unfold required; by rewrite Hs).
  assert (few_producers (common s)) as Hn by (unfold few_producers; by rewrite Hs).
  rewrite Er in Ht. destruct (next_tracks _ tr s when k p Hc Hn Hlt Hk Hnum Ht Hnext) as (Hc' & Eb & Ht' & Hp).
  apply next_Ok in Hnext as (when' & proauth & merkle & _ & Hsched & Hdc & _ & E).
  rewrite E, next_state_producer in *. destruct (next_state_unpromoted _ _ _ _ _ Hpr) as (E1 & E2 & _).
  rewrite <-E in *. clear E. rewrite u32_id in E2 by (destruct Hc; lia). rewrite <-Er in Ht', Hp.
  split; [done|congruence|lia| |exact Ht'| | | |].
  - constructor; [cbn; lia|]. eapply Forall_impl; [exact Hnum|]. cbn. lia.
  - intros Hb. destruct Hp as [Ep|[_ Hp]]; [|rewrite (Hp Hb); lia].
    rewrite Ep in *. etrans; [by apply Hconf|]. apply inj_le, confirmers_mono.
  - rewrite E2, Eb. constructor; cbn [c_producer c_num].
    + eexists. rewrite lookup_insert_eq. split; [done|lia].
    + apply Forall_forall. intros e He. rewrite Forall_forall in Hlast, Hnum.
      destruct (Hlast e He) as (m & Hm & Hle). specialize (Hnum e He).
      destruct (decide (producer_name proauth = c_producer e)) as [Ep|Ep].
      * rewrite <-Ep, lookup_insert_eq. eexists. split; [done|lia].
      * rewrite lookup_insert_ne by done. by exists m.
  - constructor; [done|]. apply Forall_forall. intros e He. unfold disjoint_ranges.
    cbn [c_producer c_num c_confirmed]. intros Ee. rewrite Forall_forall in Hlast.
    destruct (Hlast e He) as (m & Hm & Hle). unfold check_double_confirm in Hdc.
    rewrite <-Ee, Hm in Hdc. apply assert_that_Ok, Z.ltb_lt in Hdc. destruct Hc.
    rewrite (u32_id (block_num (common s) + 1)), u32_id in Hdc by lia. lia.
  - constructor; [|done]. cbn [c_producer]. unfold names. rewrite <-Hs.
    by eapply get_scheduled_producer_in.
Qed.

Lemma chain_chain_ok c0 tr c : counts_wf c0 → few_producers c0 → chain c0 tr c → chain_ok c0 tr c.
Proof.
  intros Hc Hn. induction 1 as [|tr s when k p Hch IH]; [|by eapply chain_ok_next].
  split; [done|done|lia|constructor| | |constructor|constructor|constructor].
  - intros i x Hi Hb. apply lookup_lt_Some in Hi. unfold block_at in Hb. lia.
  - destruct Hc as [_ _ _ ?]. lia.
Qed.

(** The confirmers of a block are distinct producers. *)
Lemma confirmers_NoDup b tr : StronglySorted disjoint_ranges tr →
  NoDup (c_producer <$> confirmers b tr).
Proof.
  induction 1 as [|e tr Hs IH Hf]; [constructor|]. unfold confirmers in *. rewrite filter_cons.
  destruct (decide (confirms b e)) as [Hc|]; [|done]. cbn. constructor; [|done].
  intros (e1 & E1 & [Hc1 Hin]%list_elem_of_filter)%list_elem_of_fmap.
  rewrite Forall_forall in Hf. specialize (Hf e1 Hin ltac:(done)). unfold confirms in *. lia.
Qed.

(** C2: as long as a schedule of at most 23 producers stays active and no block confirms
    more blocks than exist, a block becomes the proposed irreversible one only when
    different producers of the schedule, more than two thirds of them, have produced a
    block that confirms it. *)
Theorem proposed_needs_supermajority c0 tr c : counts_wf c0 → few_producers c0 → chain c0 tr c →
  block_num c0 < dpos_proposed_irreversible_blocknum c →
  ∃ ps, NoDup ps ∧ ps ⊆ names c0 ∧
    2 * Z.of_nat (length (names c0)) < 3 * Z.of_nat (length ps) ∧
    ∀ q, q ∈ ps → ∃ e, e ∈ tr ∧ c_producer e = q ∧
      confirms (dpos_proposed_irreversible_blocknum c) e.
Proof.
  intros Hc Hn Hch Hb. apply chain_chain_ok in Hch as [? ? ? ? ? Hconf ? Hdis Hprod]; [|done..].
  exists (c_producer <$> confirmers (dpos_proposed_irreversible_blocknum c) tr). split_and!.
  - by apply confirmers_NoDup.
  - intros q (e & -> & [_ He]%list_elem_of_filter)%list_elem_of_fmap.
    rewrite Forall_forall in Hprod. by apply Hprod.
  - specialize (Hconf Hb). rewrite length_fmap. unfold required, names in *. rewrite length_fmap.
    Z.to_euclidean_division_equations. lia.
  - intros q (e & -> & [Hce He]%list_elem_of_filter)%list_elem_of_fmap. by exists e.
Qed.
End dpos.

(** ** Irreversible blocks *)

Definition count_ge (b : Z) (l : list Z) : Z := Z.of_nat (length (filter (λ x, b ≤ x) l)).

(** The element at one third of the sorted list, 0 of the empty one *)
Definition third (l : list Z) : Z :=
  if (length l =? 0)%nat then 0 else nth_element l ((length l - 1) / 3)%nat.

Lemma count_ge_cons b x l : count_ge b (x :: l) = (if b <=? x then 1 else 0) + count_ge b l.
Proof.
  unfold count_ge. rewrite filter_cons. destruct (Z.leb_spec b x).
  - rewrite decide_True by done. cbn [length]. lia.
  - rewrite decide_False by lia. lia.
Qed.

Lemma count_ge_nonneg b l : 0 ≤ count_ge b l ≤ Z.of_nat (length l).
Proof. unfold count_ge. pose proof (length_filter (λ x, b ≤ x) l). lia. Qed.

Lemma count_ge_app b l k : count_ge b (l ++ k) = count_ge b l + count_ge b k.
Proof. unfold count_ge. rewrite filter_app, length_app. lia. Qed.

#[global] Instance count_ge_Permutation b : Proper ((≡ₚ) ==> (=)) (count_ge b).
Proof. intros l k Hp. unfold count_ge. by rewrite Hp. Qed.

Lemma count_ge_all b l : Forall (λ x, b ≤ x) l → count_ge b l = Z.of_nat (length l).
Proof.
  induction 1 as [|x l Hx _ IH]; [done|]. rewrite count_ge_cons, IH. cbn [length].
  destruct (Z.leb_spec b x); lia.
Qed.

Lemma count_ge_none b l : Forall (λ x, x < b) l → count_ge b l = 0.
Proof.
  induction 1 as [|x l Hx _ IH]; [done|]. rewrite count_ge_cons, IH.
  destruct (Z.leb_spec b x); lia.
Qed.

Lemma sorted_split l i r : StronglySorted Z.le l → l !! i = Some r →
  Forall (λ x, x ≤ r) (take (S i) l) ∧ Forall (λ x, r ≤ x) (drop i l).
Proof.
  intros Hs. revert i. induction Hs as [|x l Hs IH Hx]; intros i Hi; [done|].
  destruct i as [|i]; cbn [lookup list_lookup take drop] in *.
  - injection Hi as ->. split; [repeat constructor; lia|by constructor].
  - destruct (IH i Hi) as [H1 H2]. split; [constructor; [|done]|done].
    rewrite Forall_forall in Hx. apply Hx. by eapply list_elem_of_lookup_2.
Qed.

Lemma third_sorted k b : StronglySorted Z.le k → (0 < length k)%nat →
  b ≤ default 0 (k !! ((length k - 1) / 3)%nat) ↔ 2 * Z.of_nat (length k) < 3 * count_ge b k.
Proof.
  intros Hs Hpos.
  assert ((length k - 1) / 3 < length k)%nat as Hi
    by (apply Nat.Div0.div_lt_upper_bound; lia).
  pose proof (Nat.div_mod_eq (length k - 1) 3). pose proof (Nat.mod_upper_bound (length k - 1) 3).
  set (i := ((length k - 1) / 3)%nat) in *. destruct (lookup_lt_is_Some_2 k i Hi) as [r Hr].
  rewrite Hr. cbn. destruct (sorted_split k i r Hs Hr) as [H1 H2].
  destruct (Z.le_gt_cases b r) as [Hb|Hb].
  - split; [intros _|done]. rewrite <-(take_drop i k), count_ge_app.
    rewrite (count_ge_all b (drop i k)), length_drop.
    + pose proof (count_ge_nonneg b (take i k)). rewrite take_drop. lia.
    + eapply Forall_impl; [exact H2|]. cbn. lia.
  - split; [lia|]. rewrite <-(take_drop (S i) k) at 2. rewrite count_ge_app.
    rewrite (count_ge_none b (take (S i) k)).
    + pose proof (count_ge_nonneg b (drop (S i) k)) as Hc. rewrite length_drop in Hc. lia.
    + eapply Forall_impl; [exact H1|]. cbn. lia.
Qed.

(** The element at one third is the greatest number that more than two thirds of the
    elements reach. *)
Lemma third_spec l b : l ≠ [] → b ≤ third l ↔ 2 * Z.of_nat (length l) < 3 * count_ge b l.
Proof.
  intros Hl. unfold third, nth_element.
  assert (0 < length l)%nat as Hpos by (destruct l; [done|cbn; lia]).
  destruct (Nat.eqb_spec (length l) 0); [lia|].
  pose proof (merge_sort_Permutation Z.le l) as Hp.
  pose proof (Permutation_length Hp) as Hlen. rewrite <-(count_ge_Permutation b _ _ Hp), <-Hlen.
  apply third_sorted; [apply (StronglySorted_merge_sort _ _)|lia].
Qed.

(** The number each tracked producer implies to be irreversible, when [prod] produces the
    next block and so implies [x] *)
Definition votes (m : gmap Z Z) (prod x : Z) : list Z :=
  (λ i, if i.1 =? prod then x else i.2) <$> map_to_list m.

Definition implied (m : gmap Z Z) : list Z := snd <$> map_to_list m.

Lemma votes_unknown m prod x : m !! prod = None → votes m prod x = implied m.
Proof.
  intros Hm. unfold votes, implied. apply list_fmap_ext. intros i [p v] Hi.
  apply list_elem_of_lookup_2, elem_of_map_to_list in Hi. cbn.
  destruct (Z.eqb_spec p prod) as [->|]; [congruence|done].
Qed.

Lemma implied_insert_new m prod x : m !! prod = None → implied (<[prod := x]> m) ≡ₚ x :: implied m.
Proof. intros Hm. unfold implied. by rewrite map_to_list_insert. Qed.

Lemma votes_known m prod x : is_Some (m !! prod) → votes m prod x ≡ₚ implied (<[prod := x]> m).
Proof.
  intros [v Hv]. rewrite <-(insert_delete_id m prod v Hv), insert_insert_eq.
  assert (delete prod m !! prod = None) as Hd by apply lookup_delete_eq.
  rewrite implied_insert_new by done. unfold votes. rewrite map_to_list_insert by done.
  cbn. rewrite Z.eqb_refl. f_equiv.
  change (votes (delete prod m) prod x ≡ₚ implied (delete prod m)). by rewrite votes_unknown.
Qed.

Lemma votes_ge m prod x b : (∀ p v, m !! p = Some v → v ≤ x) →
  count_ge b (implied m) ≤ count_ge b (votes m prod x).
Proof.
  intros Hm. unfold votes, implied.
  assert (Forall (λ i, i.2 ≤ x) (map_to_list m)) as Hf.
  { apply Forall_forall. intros [p v] Hi%elem_of_map_to_list. by apply (Hm p). }
  induction Hf as [|[p v] l Hv _ IH]; [done|]. cbn [fmap list_fmap fst snd] in *.
  rewrite !count_ge_cons. destruct (p =? prod), (Z.leb_spec b v), (Z.leb_spec b x); lia.
Qed.

Lemma count_ge_witness b l : 0 < count_ge b l → ∃ x, x ∈ l ∧ b ≤ x.
Proof.
  induction l as [|x l IH]; [done|]. rewrite count_ge_cons. destruct (Z.leb_spec b x) as [Hb|Hb].
  - intros _. exists x. split; [constructor|done].
  - intros Hc. destruct IH as (y & Hy & Hby); [lia|]. exists y. split; [by constructor|done].
Qed.

Section irreversible.
Context {key signature : Type} `{PublicKey key} (hash : digest * digest → digest).

Notation bhs := (block_header_state key signature).
Notation bhs_common := (block_header_state_common key).

Lemma calc_third (c : bhs_common) prod : calc_dpos_last_irreversible c prod =
  third (votes (producer_to_last_implied_irb c) prod (dpos_proposed_irreversible_blocknum c)).
Proof. done. Qed.

Lemma votes_nil m prod x : votes m prod x = [] ↔ m = ∅.
Proof.
  unfold votes. split; [intros E%fmap_nil_inv; by apply map_to_list_empty_iff|].
  intros ->. by rewrite map_to_list_empty.
Qed.

(** With any producer tracked, the irreversible block of the next state is the highest
    block that more than two thirds of the tracked producers imply to be irreversible,
    where the producer of the next block implies the proposed irreversible block. *)
Theorem irreversible_two_thirds (c : bhs_common) prod b : producer_to_last_implied_irb c ≠ ∅ →
  let vs := votes (producer_to_last_implied_irb c) prod (dpos_proposed_irreversible_blocknum c) in
  b ≤ calc_dpos_last_irreversible c prod ↔ 2 * Z.of_nat (length vs) < 3 * count_ge b vs.
Proof. intros Hm vs. rewrite calc_third. apply third_spec. unfold vs. by rewrite votes_nil. Qed.

(** The irreversible block is supported by what the producers imply already. *)
Record lib_ok (c : bhs_common) : Prop := {
  lib_implied p v : producer_to_last_implied_irb c !! p = Some v →
    0 ≤ v ≤ dpos_proposed_irreversible_blocknum c;
  lib_third : dpos_irreversible_blocknum c ≤ third (implied (producer_to_last_implied_irb c))
}.

Lemma implied_nil m : implied m = [] ↔ m = ∅.
Proof.
  unfold implied. split; [intros E%fmap_nil_inv; by apply map_to_list_empty_iff|].
  intros ->. by rewrite map_to_list_empty.
Qed.

Lemma third_implied_le m x : 0 ≤ x → (∀ p v, m !! p = Some v → v ≤ x) → third (implied m) ≤ x.
Proof.
  intros Hx Hm. destruct (decide (m = ∅)) as [->|Hne]; [unfold implied; by rewrite map_to_list_empty|].
  assert (implied m ≠ []) as Hn by (by rewrite implied_nil).
  pose proof (proj1 (third_spec (implied m) _ Hn) (Z.le_refl _)) as Hc.
  destruct (count_ge_witness (third (implied m)) (implied m)) as (v & Hv & Hle); [lia|].
  apply list_elem_of_fmap in Hv as ([p w] & -> & Hw%elem_of_map_to_list).
  specialize (Hm _ _ Hw). cbn in *. lia.
Qed.

(** Replacing the vote of a producer by one that no vote exceeds, then recording it *)
Lemma third_votes_mono m prod x : 0 ≤ x → (∀ p v, m !! p = Some v → v ≤ x) →
  third (implied m) ≤ third (votes m prod x) ≤ third (implied (<[prod := x]> m)).
Proof.
  intros Hx Hm. destruct (decide (m = ∅)) as [->|Hne].
  { unfold votes, implied. rewrite map_to_list_empty, insert_empty, map_to_list_singleton.
    by vm_compute. }
  assert (implied m ≠ []) as Hn by (by rewrite implied_nil).
  assert (votes m prod x ≠ []) as Hn' by (by rewrite votes_nil).
  assert (implied (<[prod := x]> m) ≠ []) as Hn''.
  { rewrite implied_nil. apply insert_non_empty. }
  assert (length (votes m prod x) = length (implied m)) as Hl.
  { unfold votes, implied. by rewrite !length_fmap. }
  split.
  - apply third_spec; [done|]. pose proof (votes_ge m prod x (third (implied m)) Hm).
    pose proof (proj1 (third_spec (implied m) _ Hn) (Z.le_refl _)). lia.
  - apply third_spec; [done|].
    pose proof (proj1 (third_spec (votes m prod x) _ Hn') (Z.le_refl _)) as Hc.
    destruct (m !! prod) as [v|] eqn:Hp.
    + pose proof (votes_known m prod x (mk_is_Some _ _ Hp)) as Hperm.
      by rewrite <-Hperm.
    + rewrite votes_unknown in * by done. rewrite implied_insert_new by done.
      rewrite count_ge_cons. cbn [length].
      destruct (Z.leb_spec (third (implied m)) x) as [|Hgt]; [lia|].
      pose proof (third_implied_le m x Hx Hm). lia.
Qed.

Lemma lib_ok_next c0 tr (s : bhs) when k p : few_producers c0 → chain_ok c0 tr (common s) →
  lib_ok (common s) → block_num (common s) + 1 < 2 ^ 32 → 0 ≤ k < 2 ^ 16 →
  next hash s when k = Some (Ok p) → was_pending_promoted p = false →
  lib_ok (pending_common p) ∧
  dpos_irreversible_blocknum (common s) ≤ dpos_irreversible_blocknum (pending_common p).
Proof.
  intros Hn0 [Hc Hs _ Hnum Ht _ _ _ _] [Hv Hlib] Hlt Hk Hnext Hpr.
  assert (required c0 = required (common s)) as Er by (unfold required; by rewrite Hs).
  assert (few_producers (common s)) as Hn by (unfold few_producers; by rewrite Hs).
  rewrite Er in Ht.
  destruct (next_tracks hash _ tr s when k p Hc Hn Hlt Hk Hnum Ht Hnext) as (_ & _ & _ & Hp).
  apply next_Ok in Hnext as (when' & proauth & merkle & _ & _ & _ & _ & ->).
  destruct (next_state_unpromoted _ _ _ _ _ Hpr) as (_ & _ & Em).
  destruct (next_state_counts s when' k proauth merkle Hn) as (_ & _ & El).
  destruct Hc as [_ _ _ [Hp0 _]]. rewrite calc_third in El.
  destruct (third_votes_mono (producer_to_last_implied_irb (common s)) (producer_name proauth)
    (dpos_proposed_irreversible_blocknum (common s))) as [H1 H2]; [done|by intros q v [_ ?]%Hv|].
  split; [split|]; [|rewrite El, Em; done|lia].
  intros q v. rewrite Em. intros [[_ <-]|[_ Hq]]%lookup_insert_Some; [lia|]. specialize (Hv q v Hq). lia.
Qed.

End irreversible.

(** ** Signatures of blocks *)

Section signatures.
Context {key signature : Type} `{PublicKey key}.
Context (hash : digest * digest → digest) (digest_of : block_header key → digest).
Context (recover : signature → digest → result exn key).

Lemma collect_keys_spec d keys sigs r : NoDup keys →
  collect_keys recover d keys sigs = Ok r ↔
  ∃ ks, Forall2 (λ sg k, recover sg d = Ok k) sigs ks ∧ r = reverse ks ++ keys ∧ NoDup r.
Proof.
  revert keys. induction sigs as [|sg sigs IH]; intros keys Hk; cbn [collect_keys].
  - split.
    + intros [= <-]. exists []. by split_and!.
    + intros (ks & Hf & -> & _). by inversion Hf.
  - rewrite bind_Ok. setoid_rewrite bind_Ok. setoid_rewrite assert_that_Ok.
    setoid_rewrite bool_decide_eq_true. split.
    + intros (k & Hrec & _ & Hnk & Hr). apply IH in Hr as (ks & Hf & -> & Hnd); [|by constructor].
      exists (k :: ks). rewrite reverse_cons, <-app_assoc. split_and!; [by constructor|done|done].
    + intros (ks & Hf & -> & Hnd). inversion Hf as [|? k ? ks' Hrec Hf']; subst.
      rewrite reverse_cons, <-app_assoc in *. cbn [app] in *.
      assert (k ∉ keys) as Hnk.
      { apply NoDup_app in Hnd as (_ & _ & Hnd). by inversion Hnd. }
      exists k. split; [done|]. exists tt. split; [done|].
      apply IH; [by constructor|]. by exists ks'.
Qed.

Lemma relevant_keys (r : list key) l :
  Authority.kw_key <$> relevant r l = filter (λ k, k ∈ r) (Authority.kw_key <$> l).
Proof.
  unfold relevant. induction l as [|kw l IH]; [done|].
  rewrite fmap_cons, !filter_cons.
  destruct (decide (Authority.kw_key kw ∈ r)); [by rewrite fmap_cons, IH|done].
Qed.

(** All signing keys are in the authority exactly when as many of its keys are relevant. *)
Lemma relevant_all (r : list key) l : NoDup r → NoDup (Authority.kw_key <$> l) →
  length (relevant r l) = length r ↔ r ⊆ Authority.kw_key <$> l.
Proof.
  intros Hr Hl. rewrite <-(length_fmap Authority.kw_key (relevant r l)), relevant_keys.
  set (x := filter (λ k, k ∈ r) (Authority.kw_key <$> l)).
  assert (NoDup x) as Hx by (by apply NoDup_filter).
  assert (x ⊆ r) as Hsub by (intros k [? _]%list_elem_of_filter; done). split.
  - intros Hlen. assert (x ≡ₚ r) as Hp.
    { apply submseteq_length_Permutation; [by apply NoDup_submseteq|lia]. }
    intros k. rewrite <-Hp. by intros [_ ?]%list_elem_of_filter.
  - intros Hin. apply Permutation_length, NoDup_Permutation; [done|done|]. intros k.
    unfold x. rewrite list_elem_of_filter. split; [tauto|]. intros Hk. split; [done|by apply Hin].
Qed.

#[global] Instance relevant_Permutation : Proper ((≡ₚ) ==> (=) ==> (=)) (relevant (key := key)).
Proof.
  intros r r' Hp l ? <-. unfold relevant. apply list_filter_iff. intros kw. by rewrite Hp.
Qed.

(** A block passes the check of its signatures exactly when every signature recovers
    to a key, no key signed twice, every signing key is one of the authority of the
    scheduled producer, and the weights of these keys reach its threshold. *)
Theorem verify_signee_spec (s : block_header_state key signature) :
  let a := valid_block_signing_authority (common s) in
  0 ≤ bsa_threshold a < 2 ^ 32 → Forall (λ kw, 0 ≤ Authority.kw_weight kw) (bsa_keys a) →
  NoDup (Authority.kw_key <$> bsa_keys a) →
  verify_signee hash digest_of recover s = Ok tt ↔
  ∃ ks, Forall2 (λ sg k, recover sg (sig_digest hash digest_of s) = Ok k)
          (producer_signature (bhs_header s) :: additional_signatures s) ks ∧
    NoDup ks ∧ ks ⊆ Authority.kw_key <$> bsa_keys a ∧
    bsa_threshold a ≤ weight (relevant ks (bsa_keys a)).
Proof.
  intros a Ht Hw Hnd. unfold verify_signee. fold a. set (d := sig_digest hash digest_of s).
  set (sigs := additional_signatures s).
  assert (∀ (k : key) ks, reverse ks ++ [k] ≡ₚ k :: ks) as Hperm.
  { intros k ks. by rewrite reverse_Permutation, Permutation_app_comm. }
  rewrite bind_Ok. setoid_rewrite bind_Ok. setoid_rewrite bind_Ok.
  setoid_rewrite assert_that_Ok. split.
  - intros ([] & _ & k & Hk & r & Hr & Hchk).
    apply collect_keys_spec in Hr as (ks & Hf & -> & Hndr); [|apply NoDup_singleton].
    rewrite keys_satisfy_and_relevant_spec in Hchk by done.
    apply bind_Ok in Hchk as ([] & Hlen & Hsat). apply assert_that_Ok in Hlen, Hsat.
    apply Z.eqb_eq in Hlen. apply bool_decide_eq_true in Hsat. exists (k :: ks).
    rewrite Hperm in Hlen, Hndr, Hsat. split_and!; [by constructor|done| |done].
    apply relevant_all; [done|done|lia].
  - intros (ks0 & Hf & Hndk & Hsub & Hsat). inversion Hf as [|? k ? ks Hk Hf']; subst.
    exists tt. split.
    { apply Z.leb_le. pose proof (submseteq_length _ _ (NoDup_submseteq _ _ Hndk Hsub)) as Hl.
      rewrite length_fmap in Hl. cbn [length] in Hl. pose proof (Forall2_length _ _ _ Hf').
      unfold sigs, a in *. lia. }
    exists k. split; [done|]. exists (reverse ks ++ [k]). split.
    { apply collect_keys_spec; [apply NoDup_singleton|]. exists ks.
      split_and!; [done|done|by rewrite Hperm]. }
    rewrite keys_satisfy_and_relevant_spec by done. apply bind_Ok. exists tt.
    rewrite !assert_that_Ok, Z.eqb_eq, bool_decide_eq_true, (Hperm k ks). split; [|done].
    f_equal. by apply relevant_all.
Qed.
End signatures.

(** ** Producers and validators agree *)

Section agreement.
Context {key signature : Type} `{PublicKey key}.
Context (digest_of : block_header key → digest) (endian_reverse_u32 : Z → Z).
Context (hash_legacy_schedule : producer_schedule_type key → digest).
Context (hash_schedule : producer_authority_schedule key → digest).
Context (pack_activation : list digest → list Z) (pack_schedule : producer_authority_schedule key → list Z).
Context (unpack_activation : list Z → result exn (list digest)).
Context (unpack_schedule : list Z → result exn (producer_authority_schedule key)).
Context (wtmsig_digest : option digest).
Context (validator : Z → gset digest → list digest → result exn unit) (no_signature : signature).

(** What fc documents: unpacking what was packed gives it back. *)
Hypothesis unpack_pack_activation : ∀ l, unpack_activation (pack_activation l) = Ok l.
Hypothesis unpack_pack_schedule : ∀ s, unpack_schedule (pack_schedule s) = Ok s.

Lemma downgrade_all_upgrade v (ps : list (producer_authority key)) l : downgrade_all ps = Ok l →
  Forall (λ p, bsa_threshold (authority p) = 1) ps → upgrade (MkLegacySchedule v l) = MkSchedule v ps.
Proof.
  assert (∀ acc l, foldM (λ l p, k ← downgrade p; Ok (l ++ [k])) acc ps = Ok l →
    Forall (λ p, bsa_threshold (authority p) = 1) ps → ∃ l', l = acc ++ l' ∧
    map (λ p, MkProducer (pk_producer_name p) (MkBsa 1 [Authority.MkKw (block_signing_key p) 1])) l' = ps)
    as Hgen.
  { induction ps as [|p ps IH]; intros acc l0 Hl Hf.
    { injection Hl as <-. exists []. by rewrite app_nil_r. }
    cbn [foldM] in Hl. apply bind_Ok in Hl as (acc' & Hk & Hl). apply bind_Ok in Hk as (k & Hk & E).
    injection E as <-. inversion Hf as [|? ? Hp Hps]; subst.
    destruct (IH _ _ Hl Hps) as (l' & -> & E). exists (k :: l'). rewrite <-app_assoc. split; [done|].
    cbn [map]. rewrite E. f_equal. unfold downgrade in Hk. destruct p as [n [t kws]]. cbn in *.
    destruct kws as [|[kk w] [|]]; [done| |done]. cbn in Hk. destruct (Z.eqb_spec w t); [|done].
    injection Hk as <-. cbn. by subst. }
  intros Hl Hf. destruct (Hgen [] l Hl Hf) as (l' & -> & <-). done.
Qed.

(** The extensions of a header that [make_block_header] builds, as they are extracted *)
Definition built_extensions (pfa : list digest) (s : option (producer_authority_schedule key)) :
    list (Z * block_header_extension key) :=
  (if decide (pfa = []) then [] else [(activation_id, protocol_feature_activation pfa)]) ++
  (if s is Some s then [(schedule_change_id, producer_schedule_change_extension s)] else []).

Lemma extract_built pfa s : NoDup pfa →
  extract_loop unpack_activation unpack_schedule true 0
    (let e := if 0 <? Z.of_nat (length pfa)
              then emplace_extension [] activation_id (pack_activation pfa) else [] in
     if s is Some s then emplace_extension e schedule_change_id (pack_schedule s) else e) [] =
  Ok (built_extensions pfa s).
Proof.
  intros Hnd. unfold built_extensions, activation_id, schedule_change_id.
  destruct pfa as [|d pfa].
  - rewrite decide_True by done. change (0 <? Z.of_nat (length [])) with false.
    destruct s as [s|]; [|done]. cbn. by rewrite unpack_pack_schedule.
  - rewrite decide_False by done.
    assert (reflector_init (d :: pfa) = Ok tt) as Hri.
    { unfold reflector_init. rewrite (bool_decide_eq_true_2 _ Hnd). done. }
    change (0 <? Z.of_nat (length (d :: pfa))) with true.
    destruct s as [s|]; cbn -[reflector_init]; rewrite unpack_pack_activation; cbn -[reflector_init];
      rewrite Hri; cbn; [|done]. by rewrite unpack_pack_schedule.
Qed.

Lemma find_built_activation pfa s : find_extension (built_extensions pfa s) activation_id =
  if decide (pfa = []) then None else Some (protocol_feature_activation pfa).
Proof. unfold built_extensions. by destruct (decide _), s. Qed.

Lemma find_built_schedule pfa s : find_extension (built_extensions pfa s) schedule_change_id =
  producer_schedule_change_extension <$> s.
Proof. unfold built_extensions. by destruct (decide _), s. Qed.

Lemma extend_disjoint (orig : gset digest) l : NoDup l → (∀ d, d ∈ l → d ∉ orig) →
  extend_activation_set orig l = Ok (orig ∪ list_to_set l).
Proof.
  intros Hnd Hd. unfold extend_activation_set. rewrite size_union by set_solver.
  rewrite size_list_to_set by done.
  destruct (Z.eqb_spec (Z.of_nat (size orig + length l)) (Z.of_nat (size orig) + Z.of_nat (length l)));
    [done|lia].
Qed.

Notation wtmsig_on := (wtmsig_activated wtmsig_digest).

(** The schedule that a producer may propose with the pending state [p] *)
Record may_propose (p : pending_block_header_state key) (s : producer_authority_schedule key) : Prop := {
  propose_unpromoted : was_pending_promoted p = false;
  propose_version : version s = u32 (version (active_schedule (pending_common p)) + 1);
  propose_empty : producers (schedule (prev_pending_schedule p)) = [];
  propose_legacy : wtmsig_on (prev_activated_protocol_features p) = true ∨
    Forall (λ q, bsa_threshold (authority q) = 1) (producers s)
}.

Lemma check_may_propose p s : may_propose p s → check_new_schedule p (version s) = Ok tt.
Proof.
  intros [H1 H2 H3 _]. unfold check_new_schedule. rewrite H1, H2, H3, Z.eqb_refl. done.
Qed.

(** What [new_schedule] finds in a header that [make_block_header] built *)
Lemma make_block_header_schedule p tm am np pfa h :
  make_block_header pack_activation pack_schedule wtmsig_digest no_signature p tm am np pfa = Ok h →
  (∀ s, np = Some s → may_propose p s) → NoDup pfa →
  ∃ ext r, header_extensions (header h) =
      (let e := if 0 <? Z.of_nat (length pfa)
                then emplace_extension [] activation_id (pack_activation pfa) else [] in
       if ext is Some s then emplace_extension e schedule_change_id (pack_schedule s) else e) ∧
    new_schedule hash_legacy_schedule hash_schedule wtmsig_digest p (header h) (built_extensions pfa ext)
      = Ok r ∧ fst <$> r = np.
Proof.
  unfold make_block_header. intros Hm Hnp Hnd. apply bind_Ok in Hm as ([legacy exts] & Hl & Hm).
  injection Hm as <-. cbn [header header_extensions]. unfold new_schedule.
  destruct np as [s|].
  - specialize (Hnp s eq_refl). pose proof (check_may_propose p s Hnp) as Hchk.
    destruct (wtmsig_on (prev_activated_protocol_features p)) eqn:Hw.
    + injection Hl as <- <-. exists (Some s). eexists. split; [done|]. rewrite find_built_schedule.
      cbn -[check_new_schedule]. rewrite Hchk. by cbn.
    + apply bind_Ok in Hl as (l & Hl & E). injection E as <- <-. exists None. eexists. split; [done|].
      rewrite find_built_schedule.
      cbn -[check_new_schedule]. rewrite Hchk.
      cbn -[upgrade]. split; [done|]. cbn -[upgrade]. f_equal.
      rewrite (downgrade_all_upgrade _ (producers s)); [by destruct s|done|].
      destruct Hnp as [_ _ _ [?|?]]; [congruence|done].
  - injection Hl as <- <-. exists None, None. split; [done|]. by rewrite find_built_schedule.
Qed.

(** The header that a producer builds from a pending state is accepted for the same
    pending state: under the conditions under which a schedule may be proposed, with new
    protocol features that the validator accepts, the validation of the built header
    succeeds, and the state it gives has the fields of the pending one, the features and
    the proposed schedule that the producer put in. *)
Theorem produced_header_accepted p tm am np pfa h :
  make_block_header pack_activation pack_schedule wtmsig_digest no_signature p tm am np pfa = Ok h →
  (∀ s, np = Some s → may_propose p s) →
  NoDup pfa → (∀ d, d ∈ pfa → d ∉ prev_activated_protocol_features p) →
  (pfa ≠ [] → validator (pending_timestamp p) (prev_activated_protocol_features p) pfa = Ok tt) →
  ∃ r, finish_next_common digest_of endian_reverse_u32 hash_legacy_schedule hash_schedule
         unpack_activation unpack_schedule wtmsig_digest validator p h = Ok r ∧
    common r = pending_common p ∧ bhs_header r = h ∧
    activated_protocol_features r = prev_activated_protocol_features p ∪ list_to_set pfa ∧
    get_new_protocol_feature_activations r = pfa ∧
    schedule (pending_schedule r) =
      match np with
      | Some s => s
      | None => if was_pending_promoted p then MkSchedule (version (schedule (prev_pending_schedule p))) []
                else schedule (prev_pending_schedule p)
      end.
Proof.
  intros Hm Hnp Hnd Hdis Hval.
  destruct (make_block_header_schedule p tm am np pfa h Hm Hnp Hnd) as (ext & sr & He & Hs & Hsr).
  assert (timestamp (header h) = pending_timestamp p ∧ previous (header h) = pending_previous p ∧
    confirmed (header h) = pending_confirmed p ∧ producer (header h) = pending_producer p ∧
    schedule_version (header h) = active_schedule_version p) as (E1 & E2 & E3 & E4 & E5).
  { unfold make_block_header in Hm. apply bind_Ok in Hm as ([legacy exts] & _ & Hm).
    by injection Hm as <-. }
  assert (new_activated validator p (built_extensions pfa ext) =
    Ok (prev_activated_protocol_features p ∪ list_to_set pfa)) as Ha.
  { unfold new_activated. rewrite find_built_activation. destruct (decide (pfa = [])) as [->|Hne].
    - f_equal. set_solver.
    - rewrite (Hval Hne). by apply extend_disjoint. }
  unfold finish_next_common. rewrite E1, E2, E3, E4, E5, !Z.eqb_refl, bool_decide_eq_true_2 by done.
  unfold validate_and_extract_header_extensions. rewrite He, extract_built by done.
  cbn -[new_schedule new_activated built_extensions]. rewrite Hs. cbn -[new_activated built_extensions].
  rewrite Ha. eexists. split; [done|]. cbn -[built_extensions]. split_and!; [done|done|done| |].
  - unfold get_new_protocol_feature_activations. cbn -[built_extensions].
    rewrite find_built_activation. by destruct (decide (pfa = [])).
  - subst np. unfold next_pending_schedule. by destruct sr as [[? ?]|].
Qed.
End agreement.

(** ** Witnesses *)

Definition sample_hash : digest * digest → digest := Merkle.sum_hash.

(** Four producers with one key each *)
Definition sample_schedule : producer_authority_schedule Z :=
  MkSchedule 0 ((λ n, MkProducer n (MkBsa 1 [Authority.MkKw (100 + n) 1])) <$> [1; 2; 3; 4]).

Definition sample_info : schedule_info Z :=
  MkScheduleInfo 0 Merkle.zero_digest (MkSchedule 0 []).

Definition sample_state (c : block_header_state_common Z) (slot : Z) : block_header_state Z Z :=
  MkBhs c Merkle.zero_digest
    (MkSigned (MkHeader slot 1 0 Merkle.zero_digest Merkle.zero_digest Merkle.zero_digest 0 None []) 7)
    sample_info ∅ [] [].

Definition sample_common : block_header_state_common Z :=
  MkCommon 1 0 0 sample_schedule Merkle.empty_merkle ∅ {[1 := 0; 2 := 0; 3 := 0; 4 := 0]}
    (MkBsa 1 [Authority.MkKw 101 1]) [].

(** Blocks at consecutive slots that confirm the given numbers of blocks *)
Fixpoint run (s : block_header_state Z Z) (l : list Z) (tr : list confirmation) :
    option (list confirmation * block_header_state_common Z) :=
  match l with
  | [] => Some (tr, common s)
  | k :: l =>
      let slot := timestamp (header (bhs_header s)) + 1 in
      match next sample_hash s slot k with
      | Some (Ok p) =>
          if bool_decide (block_num (common s) + 1 < 2 ^ 32 ∧ 0 ≤ k < 2 ^ 16 ∧
               k ≤ block_num (common s) + 1 ∧ was_pending_promoted p = false)
          then run (sample_state (pending_common p) slot) l
                 (MkConf (block_num (pending_common p)) (pending_producer p) k :: tr)
          else None
      | _ => None
      end
  end.

Lemma run_chain c0 s l tr tr' c : chain (signature := Z) sample_hash c0 tr (common s) →
  run s l tr = Some (tr', c) → chain (signature := Z) sample_hash c0 tr' c.
Proof.
  revert s tr. induction l as [|k l IH]; intros s tr Hch Hr; cbn -[next] in Hr.
  - by injection Hr as <- <-.
  - destruct (next sample_hash s _ k) as [[p|]|] eqn:Hn; [|done..].
    case_bool_decide as Hb; [|done]. eapply IH; [|exact Hr]. cbn [common sample_state].
    destruct Hb as (? & ? & ? & ?). by eapply chain_next.
Qed.

Definition sample_run : option (list confirmation * block_header_state_common Z) :=
  run (sample_state sample_common 0) [0; 1; 2; 3; 3; 3; 3] [].

(** Three blocks confirm the second block; seven make it irreversible. *)
Lemma sample_run_chain : ∃ tr c, sample_run = Some (tr, c) ∧
  chain (signature := Z) sample_hash sample_common tr c ∧
  dpos_proposed_irreversible_blocknum c = 6 ∧ dpos_irreversible_blocknum c = 3.
Proof.
  destruct sample_run as [[tr c]|] eqn:E; [|by vm_compute in E].
  exists tr, c. split; [reflexivity|].
  split; [exact (run_chain sample_common (sample_state sample_common 0) [0; 1; 2; 3; 3; 3; 3] [] tr c
    (chain_start _ _) E)|].
  assert ((λ x, (dpos_proposed_irreversible_blocknum x.2, dpos_irreversible_blocknum x.2)) <$> sample_run
    = Some (6, 3)) as Hv by (vm_compute; reflexivity).
  rewrite E in Hv. injection Hv as -> ->. split; reflexivity.
Qed.

Lemma sample_common_wf : counts_wf sample_common.
Proof. split; cbn; try lia. constructor. Qed.

Lemma sample_few : few_producers sample_common.
Proof. unfold few_producers, max_producers. cbn. lia. Qed.

Lemma sample_lib_ok : lib_ok sample_common.
Proof.
  split; [|vm_compute; discriminate]. intros p v Hp.
  assert (map_Forall (λ _ v, 0 ≤ v ≤ 0) (producer_to_last_implied_irb sample_common)) as Hf.
  { apply (bool_decide_unpack _). vm_compute. exact I. }
  exact (Hf p v Hp).
Qed.

#[local] Opaque sample_run.

Lemma proposed_needs_supermajority_witness : ∃ tr c ps, sample_run = Some (tr, c) ∧
  NoDup ps ∧ ps ⊆ [1; 2; 3; 4] ∧ 2 * 4 < 3 * Z.of_nat (length ps).
Proof.
  destruct sample_run_chain as (tr & c & E & Hch & Hp & _).
  destruct (proposed_needs_supermajority sample_hash sample_common tr c sample_common_wf sample_few Hch)
    as (ps & H1 & H2 & H3 & _); [rewrite Hp; cbn; lia|].
  exists tr, c, ps. split; [exact E|]. split; [exact H1|]. split; [exact H2|exact H3].
Defined.


Definition sample_votes : block_header_state_common Z :=
  MkCommon 12 10 4 sample_schedule Merkle.empty_merkle ∅ {[1 := 4; 2 := 7; 3 := 8; 4 := 3]}
    (MkBsa 1 [Authority.MkKw 101 1]) [].

Lemma irreversible_two_thirds_witness : 7 ≤ calc_dpos_last_irreversible sample_votes 1.
Proof.
  apply (irreversible_two_thirds sample_votes 1 7); [|vm_compute; reflexivity].
  intros E. assert (producer_to_last_implied_irb sample_votes !! 1 = Some 4) as Hl by (vm_compute; reflexivity).
  rewrite E in Hl. discriminate Hl.
Defined.

(** A block signed with two keys *)
Definition sample_signed : block_header_state Z Z :=
  MkBhs (MkCommon 12 10 4 sample_schedule Merkle.empty_merkle ∅ ∅
           (MkBsa 3 [Authority.MkKw 107 1; Authority.MkKw 108 2; Authority.MkKw 109 1]) [])
    Merkle.zero_digest (bhs_header (sample_state sample_common 0)) sample_info ∅ [8] [].

Definition sample_recover (sg : Z) (d : digest) : result exn Z := Ok (100 + sg).

Lemma verify_signee_spec_witness :
  verify_signee sample_hash (λ _, Merkle.zero_digest) sample_recover sample_signed = Ok tt.
Proof.
  apply (verify_signee_spec sample_hash (λ _, Merkle.zero_digest) sample_recover sample_signed).
  - cbn. lia.
  - repeat constructor; cbn; lia.
  - apply (bool_decide_unpack _). vm_compute. exact I.
  - exists [107; 108]. split; [repeat constructor|]. split.
    + apply (bool_decide_unpack _). vm_compute. exact I.
    + split; [|vm_compute; discriminate]. intros k Hk.
      apply elem_of_cons in Hk as [->|[->|Hk]%elem_of_cons]; [constructor| |by apply elem_of_nil in Hk].
      do 2 constructor.
Defined.

(** A serialisation by the encoding of countable types *)
Definition schedule_code (s : producer_authority_schedule Z) : Z * list (Z * (Z * list (Z * Z))) :=
  (version s, (λ p, (producer_name p, (bsa_threshold (authority p),
    (λ kw, (Authority.kw_key kw, Authority.kw_weight kw)) <$> bsa_keys (authority p)))) <$> producers s).

Definition schedule_of_code (c : Z * list (Z * (Z * list (Z * Z)))) : producer_authority_schedule Z :=
  MkSchedule c.1 ((λ p, MkProducer p.1 (MkBsa p.2.1 ((λ kw, Authority.MkKw kw.1 kw.2) <$> p.2.2))) <$> c.2).

Lemma schedule_of_code_code s : schedule_of_code (schedule_code s) = s.
Proof.
  destruct s as [v ps]. unfold schedule_of_code, schedule_code. cbn. f_equal.
  rewrite <-list_fmap_compose. rewrite <-(list_fmap_id ps) at 2. apply list_fmap_ext.
  intros i [n [t kws]] _. cbn. do 2 f_equal. rewrite <-list_fmap_compose.
  rewrite <-(list_fmap_id kws) at 2. apply list_fmap_ext. by intros j [? ?] _.
Qed.

Definition sample_pack_activation (l : list digest) : list Z := [Zpos (encode l)].
Definition sample_pack_schedule (s : producer_authority_schedule Z) : list Z := [Zpos (encode (schedule_code s))].
Definition sample_unpack_activation (b : list Z) : result exn (list digest) :=
  if b is [Zpos x] then (if decode x is Some l then Ok l else Throw std_exception) else Throw std_exception.
Definition sample_unpack_schedule (b : list Z) : result exn (producer_authority_schedule Z) :=
  if b is [Zpos x] then (if decode x is Some c then Ok (schedule_of_code c) else Throw std_exception)
  else Throw std_exception.

Lemma sample_unpack_pack_activation l : sample_unpack_activation (sample_pack_activation l) = Ok l.
Proof. unfold sample_unpack_activation, sample_pack_activation. by rewrite decode_encode. Qed.

Lemma sample_unpack_pack_schedule s : sample_unpack_schedule (sample_pack_schedule s) = Ok s.
Proof.
  unfold sample_unpack_schedule, sample_pack_schedule. rewrite decode_encode. by rewrite schedule_of_code_code.
Qed.

(** A pending state that may activate a feature and propose a schedule with two keys *)
Definition sample_feature : digest := Merkle.leaf 9.
Definition sample_pending : pending_block_header_state Z :=
  MkPending sample_common {[ sample_feature ]} sample_info false Merkle.zero_digest 2 5 0 0.
Definition sample_proposal : producer_authority_schedule Z :=
  MkSchedule 1 [MkProducer 1 (MkBsa 2 [Authority.MkKw 101 1; Authority.MkKw 102 1])].

Lemma produced_header_accepted_witness : ∃ h r,
  make_block_header sample_pack_activation sample_pack_schedule (Some sample_feature) 0 sample_pending
    Merkle.zero_digest Merkle.zero_digest (Some sample_proposal) [Merkle.leaf 1] = Ok h ∧
  finish_next_common (λ _, Merkle.zero_digest) BlockHeader.reverse_bytes (λ _, Merkle.zero_digest)
    (λ _, Merkle.zero_digest) sample_unpack_activation sample_unpack_schedule (Some sample_feature)
    (λ _ _ _, Ok tt) sample_pending h = Ok r ∧
  schedule (pending_schedule r) = sample_proposal.
Proof.
  destruct (make_block_header sample_pack_activation sample_pack_schedule (Some sample_feature) 0
    sample_pending Merkle.zero_digest Merkle.zero_digest (Some sample_proposal) [Merkle.leaf 1])
    as [h|] eqn:E; [|vm_compute in E; discriminate E].
  exists h.
  destruct (produced_header_accepted (λ _, Merkle.zero_digest) BlockHeader.reverse_bytes
    (λ _, Merkle.zero_digest) (λ _, Merkle.zero_digest) sample_pack_activation sample_pack_schedule
    sample_unpack_activation sample_unpack_schedule (Some sample_feature) (λ _ _ _, Ok tt) 0
    sample_unpack_pack_activation sample_unpack_pack_schedule sample_pending
    Merkle.zero_digest Merkle.zero_digest (Some sample_proposal) [Merkle.leaf 1] h E)
    as (r & Hr & _ & _ & _ & _ & Hs).
  - intros s [= <-]. split; [reflexivity|vm_compute; reflexivity|reflexivity|left; vm_compute; reflexivity].
  - apply NoDup_singleton.
  - intros d Hd. apply list_elem_of_singleton in Hd as ->. apply (bool_decide_unpack _). vm_compute. exact I.
  - reflexivity.
  - exists r. split; [reflexivity|]. split; [exact Hr|exact Hs].
Defined.

(** ** Two limits of the confirmations *)

(** The range [(block_num+1) - num_prev_blocks_to_confirm] of the check against double
    confirmation is taken in [uint32_t]: a producer that confirms more blocks than exist
    passes it although it has produced, and so confirmed, a block of the range. *)
Lemma double_confirm_wraps :
  let c := MkCommon 9 0 0 sample_schedule Merkle.empty_merkle {[2 := 8]} ∅ (MkBsa 1 []) [3; 3] in
  check_double_confirm c 2 5 = Throw producer_double_confirm ∧
  check_double_confirm c 2 11 = Ok tt.
Proof. split; vm_compute; reflexivity. Qed.

(** The promotion of a schedule drops what the other producers imply, so the irreversible
    number that the next block computes can be below the one computed before it. *)
Lemma irreversible_drops_after_promotion :
  let c := MkCommon 20 10 10 sample_schedule Merkle.empty_merkle ∅ {[1 := 10; 2 := 10; 3 := 10; 4 := 2]}
    (MkBsa 1 []) [] in
  let proposal := MkSchedule 1 ((λ n, MkProducer n (MkBsa 1 [])) <$> [5; 4; 1]) in
  let s : block_header_state Z Z := MkBhs c Merkle.zero_digest
    (bhs_header (sample_state sample_common 40)) (MkScheduleInfo 5 Merkle.zero_digest proposal) ∅ [] [] in
  ∃ p p', next sample_hash s 41 0 = Some (Ok p) ∧ was_pending_promoted p = true ∧
    next sample_hash (sample_state (pending_common p) 41) 42 0 = Some (Ok p') ∧
    dpos_irreversible_blocknum (pending_common p) = 10 ∧
    dpos_irreversible_blocknum (pending_common p') = 2.
Proof.
  intros c proposal s. eexists. eexists. split; [vm_compute; reflexivity|].
  split; [reflexivity|]. split; [vm_compute; reflexivity|]. split; vm_compute; reflexivity.
Qed.
End BlockHeaderState.
