(* ===== verification/ForkDatabase.v ===== *)
(** * The fork database

    Models [fork_database.hpp] and [fork_database.cpp]: the tree of blocks above the last
    irreversible one, with the best validated block as head.  The blocks are kept by
    identifier, which the first index makes unique; the order of the third index,
    [by_lib_block_num], is the relation [before].  The parts of a [block_state] that the
    fork database reads are its header state, which does not change, and the flag
    [validated], which only the fork database changes; [root] and [head] share header
    states with the index.  [None] as the result of a method stands for the use of a null
    [root] or [head], or for a loop that does not end. *)

From S2P Require Import Prelude.
From S2P Require Import Exceptions.
From S2P Require Import Merkle.
From S2P Require Import Authority.
From S2P Require Import BlockHeader.
From S2P Require Import BlockHeaderState.

Local Open Scope Z_scope.

Module ForkDatabase.
Import BlockHeader BlockHeaderState.

Section fork.
Context {key signature : Type} `{PublicKey key}.

Notation bhs := (block_header_state key signature).

Record block_state := MkBlock { state : bhs; validated : bool }.

(** [prev()] and the two numbers *)
Definition prev (b : bhs) : digest := previous (header (bhs_header b)).
Definition num (b : bhs) : Z := block_num (common b).
Definition lib (b : bhs) : Z := dpos_irreversible_blocknum (common b).

Notation index_type := (gmap digest block_state).

Record fork_database := MkFork {
  index : index_type;
  root : option bhs;
  head : option bhs
}.

(** ** The order of blocks *)

(** [sha256_less] *)
Definition sha256_less (a b : digest) : bool :=
  (Merkle.word0 a <? Merkle.word0 b) || (Merkle.word0 a =? Merkle.word0 b) &&
  ((Merkle.word1 a <? Merkle.word1 b) || (Merkle.word1 a =? Merkle.word1 b) &&
   ((Merkle.word2 a <? Merkle.word2 b) || (Merkle.word2 a =? Merkle.word2 b) &&
    (Merkle.word3 a <? Merkle.word3 b))).

Definition first_preferred (lhs rhs : bhs) : bool :=
  (lib rhs <? lib lhs) || (lib lhs =? lib rhs) && (num rhs <? num lhs).

(** The order of [by_lib_block_num]: validated blocks first, then those preferred, then
    by identifier *)
Definition before (a b : block_state) : bool :=
  let x := state a in
  let y := state b in
  (validated a && negb (validated b)) || eqb (validated a) (validated b) &&
  (first_preferred x y || (lib x =? lib y) && (num x =? num y) && sha256_less (bhs_id x) (bhs_id y)).

(** The first element of a list in that order *)
Definition first_of (l : list block_state) : option block_state :=
  foldr (λ b acc, if acc is Some a then (if before a b then Some a else Some b) else Some b) None l.

(** [index.get<by_lib_block_num>().begin()] *)
Definition begin (i : index_type) : option block_state := first_of (map_to_list i).*2.

(** [lower_bound( false )]: the first block that is not validated *)
Definition lower_bound_false (i : index_type) : option block_state :=
  first_of (filter (λ b, validated b = false) (map_to_list i).*2).

(** ** Operations *)

Definition reset (root_bhs : bhs) : fork_database := MkFork ∅ (Some root_bhs) (Some root_bhs).

Definition rollback_head_to_root (db : fork_database) : fork_database :=
  MkFork ((λ b, MkBlock (state b) false) <$> index db) (root db) (root db).

Definition get_block (db : fork_database) (id : digest) : option block_state := index db !! id.

(** The header state with an identifier, of the root [r] or of a block *)
Definition get_block_header (db : fork_database) (r : bhs) (id : digest) : option bhs :=
  if decide (bhs_id r = id) then Some r else state <$> get_block db id.

(** [fork_database_impl::add] *)
Definition add_impl (db : fork_database) (n : block_state) (ignore_duplicate validate : bool)
    (validator : Z → gset digest → list digest → result exn unit) : result exn fork_database :=
  match root db with
  | None => Throw fork_database_exception
  | Some r =>
      match get_block_header db r (prev (state n)) with
      | None => Throw unlinkable_block_exception
      | Some prev_bh =>
          _ ← (if validate
               then rethrow_exceptions fork_database_exception
                      (match find_extension (header_exts (state n)) activation_id with
                       | Some (protocol_feature_activation l) =>
                           validator (timestamp (header (bhs_header (state n))))
                             (activated_protocol_features prev_bh) l
                       | Some (producer_schedule_change_extension _) => Throw std_exception
                       | None => Ok tt
                       end)
               else Ok tt);
          match index db !! bhs_id (state n) with
          | Some _ => if ignore_duplicate then Ok db else Throw fork_database_exception
          | None =>
              let i := <[bhs_id (state n) := n]> (index db) in
              let h := if begin i is Some c then (if validated c then Some (state c) else head db)
                       else head db in
              Ok (MkFork i (root db) h)
          end
      end
  end.

Definition add (db : fork_database) (n : block_state) (ignore_duplicate : bool) :
    result exn fork_database :=
  add_impl db n ignore_duplicate false (λ _ _ _, Ok tt).

(** The block to build on: a better one that is not validated yet, or the head *)
Definition pending_head (db : fork_database) : option (option bhs) :=
  match lower_bound_false (index db) with
  | Some b =>
      h ← head db;
      Some (Some (if first_preferred (state b) h then state b else h))
  | None => Some (head db)
  end.

(** The blocks from [b] to the root; one step of fuel for each, so the number of a block
    is enough. *)
Fixpoint branch_loop (fuel : nat) (i : index_type) (b : option block_state) : option (list bhs) :=
  match b with
  | None => Some []
  | Some s =>
      match fuel with
      | O => None
      | S fuel =>
          l ← branch_loop fuel i (i !! prev (state s));
          Some (state s :: l)
      end
  end.

Definition branch (db : fork_database) (h : digest) : option (list bhs) :=
  let b := get_block db h in
  branch_loop (if b is Some s then S (Z.to_nat (num (state s))) else 1) (index db) b.

Definition fetch_branch (db : fork_database) (h : digest) (trim_after_block_num : Z) :
    option (list bhs) :=
  l ← branch db h;
  Some (filter (λ s, num s ≤ trim_after_block_num) l).

Fixpoint search_loop (fuel : nat) (i : index_type) (b : option block_state) (block_num : Z) :
    option (option bhs) :=
  match b with
  | None => Some None
  | Some s =>
      if num (state s) =? block_num then Some (Some (state s))
      else
        match fuel with
        | O => None
        | S fuel => search_loop fuel i (i !! prev (state s)) block_num
        end
  end.

Definition search_on_branch (db : fork_database) (h : digest) (block_num : Z) : option (option bhs) :=
  let b := get_block db h in
  search_loop (if b is Some s then S (Z.to_nat (num (state s))) else 1) (index db) b block_num.

(** The root or a block, as the loops of [fetch_branch_from] look it up *)
Definition root_or_block (db : fork_database) (r : bhs) (id : digest) : result exn bhs :=
  match (if decide (id = bhs_id r) then Some r else state <$> get_block db id) with
  | Some b => Ok b
  | None => Throw fork_db_block_not_found
  end.

Definition block_or_throw (db : fork_database) (id : digest) : result exn bhs :=
  match get_block db id with Some b => Ok (state b) | None => Throw fork_db_block_not_found end.

(** The first two loops: from [b] down to the number [target] *)
Fixpoint descend (fuel : nat) (db : fork_database) (r b : bhs) (target : Z) (acc : list bhs) :
    option (result exn (list bhs * bhs)) :=
  if target <? num b then
    match fuel with
    | O => None
    | S fuel =>
        match root_or_block db r (prev b) with
        | Ok b' => descend fuel db r b' target (acc ++ [b])
        | Throw e => Some (Throw e)
        end
    end
  else Some (Ok (acc, b)).

(** The third loop and what follows it *)
Fixpoint descend_both (fuel : nat) (db : fork_database) (b1 b2 : bhs) (l1 l2 : list bhs) :
    option (result exn (list bhs * list bhs)) :=
  if decide (prev b1 = prev b2) then Some (Ok (l1 ++ [b1], l2 ++ [b2]))
  else
    match fuel with
    | O => None
    | S fuel =>
        match block_or_throw db (prev b1), block_or_throw db (prev b2) with
        | Ok b1', Ok b2' => descend_both fuel db b1' b2' (l1 ++ [b1]) (l2 ++ [b2])
        | Throw e, _ => Some (Throw e)
        | _, Throw e => Some (Throw e)
        end
    end.

Definition fetch_branch_from (db : fork_database) (first second : digest) :
    option (result exn (list bhs * list bhs)) :=
  r ← root db;
  match root_or_block db r first, root_or_block db r second with
  | Ok b1, Ok b2 =>
      r1 ← descend (Z.to_nat (num b1)) db r b1 (num b2) [];
      match r1 with
      | Throw e => Some (Throw e)
      | Ok (l1, b1) =>
          r2 ← descend (Z.to_nat (num b2)) db r b2 (num b1) [];
          match r2 with
          | Throw e => Some (Throw e)
          | Ok (l2, b2) =>
              if decide (bhs_id b1 = bhs_id b2) then Some (Ok (l1, l2))
              else descend_both (Z.to_nat (num b1)) db b1 b2 l1 l2
          end
      end
  | Throw e, _ => Some (Throw e)
  | _, Throw e => Some (Throw e)
  end.

(** The blocks that name [id] as their previous one, the range of [by_prev] *)
Definition children (i : index_type) (id : digest) : list digest :=
  (map_to_list (filter (λ b, prev (state b.2) = id) i)).*1.

(** The first loop of [remove]: [done] is the part of [remove_queue] before the counter,
    [queue] the rest. *)
Fixpoint remove_loop (fuel : nat) (i : index_type) (head_id : digest) (done queue : list digest) :
    option (result exn (list digest)) :=
  match queue with
  | [] => Some (Ok done)
  | x :: queue =>
      match fuel with
      | O => None
      | S fuel =>
          if decide (x = head_id) then Some (Throw fork_database_exception)
          else remove_loop fuel i head_id (done ++ [x]) (queue ++ children i x)
      end
  end.

(** The second loop *)
Definition erase_all (i : index_type) (ids : list digest) : index_type :=
  foldl (λ i id, delete id i) i ids.

(** Every block enters the queue at most once. *)
Definition remove (db : fork_database) (id : digest) : option (result exn fork_database) :=
  h ← head db;
  r ← remove_loop (S (size (index db))) (index db) (bhs_id h) [] [id];
  Some (ids ← r; Ok (MkFork (erase_all (index db) ids) (root db) (head db))).

Definition mark_valid (db : fork_database) (h : block_state) : option (result exn fork_database) :=
  if validated h then Some (Ok db)
  else
    let id := bhs_id (state h) in
    match index db !! id with
    | None => Some (Throw fork_database_exception)
    | Some b =>
        let i := <[id := MkBlock (state b) true]> (index db) in
        candidate ← begin i;
        h ← head db;
        Some (Ok (MkFork i (root db)
                    (Some (if first_preferred (state candidate) h then state candidate else h))))
    end.

(** The loop of [advance_root] that collects the blocks below the new root *)
Fixpoint below_loop (fuel : nat) (db : fork_database) (r b : bhs) (acc : list digest) :
    option (result exn (list digest)) :=
  match fuel with
  | O => None
  | S fuel =>
      let acc := acc ++ [prev b] in
      match get_block db (prev b) with
      | Some b' => below_loop fuel db r (state b') acc
      | None =>
          Some (if decide (prev b = bhs_id r) then Ok acc else Throw fork_database_exception)
      end
  end.

(** Remove several blocks; stops at the first exception, with the database so far. *)
Fixpoint remove_all (db : fork_database) (ids : list digest) :
    option (fork_database * result exn unit) :=
  match ids with
  | [] => Some (db, Ok tt)
  | id :: ids =>
      r ← remove db id;
      match r with
      | Ok db => remove_all db ids
      | Throw e => Some (db, Throw e)
      end
  end.

(** The database is left changed when removing a block throws. *)
Definition advance_root (db : fork_database) (id : digest) :
    option (fork_database * result exn unit) :=
  match root db with
  | None => Some (db, Throw fork_database_exception)
  | Some r =>
      match get_block db id with
      | None => Some (db, Throw fork_database_exception)
      | Some new_root =>
          if negb (validated new_root) then Some (db, Throw fork_database_exception)
          else
            bs ← below_loop (S (Z.to_nat (num (state new_root)))) db r (state new_root) [];
            match bs with
            | Throw e => Some (db, Throw e)
            | Ok blocks_to_remove =>
                '(db, r) ← remove_all (MkFork (delete id (index db)) (root db) (head db)) blocks_to_remove;
                match r with
                | Throw e => Some (db, Throw e)
                | Ok _ => Some (MkFork (index db) (Some (state new_root)) (head db), Ok tt)
                end
            end
      end
  end.

(** ** Trees of blocks *)

(** The number that an identifier carries *)
Context (num_of : digest → Z).

(** [y] is a block whose previous one is [x]. *)
Definition child (i : index_type) (x y : digest) : Prop := ∃ b, i !! y = Some b ∧ prev (state b) = x.

(** [y] is [x] or built off it. *)
Definition descends (i : index_type) : digest → digest → Prop := rtc (child i).

(** The numbers increase by one along the blocks. *)
Definition ranked (i : index_type) : Prop := ∀ x y, child i x y → num_of y = num_of x + 1.

Lemma descends_num i x y : ranked i → descends i x y → num_of x ≤ num_of y.
Proof. intros Hr. induction 1 as [|x y z Hc _ IH]; [lia|]. apply Hr in Hc. lia. Qed.

Lemma children_child i x y : y ∈ children i x ↔ child i x y.
Proof.
  unfold children, child. rewrite list_elem_of_fmap. split.
  - intros ([z b] & -> & Hz%elem_of_map_to_list). apply map_lookup_filter_Some in Hz as [Hz Hp].
    by exists b.
  - intros (b & Hb & Hp). exists (y, b). split; [done|].
    apply elem_of_map_to_list, map_lookup_filter_Some. by split.
Qed.

Lemma children_NoDup i x : NoDup (children i x).
Proof. apply NoDup_fst_map_to_list. Qed.

(** The queue of [remove]: blocks built off [id], each once, with the children of those
    processed *)
Record queue_ok (i : index_type) (id : digest) (done queue : list digest) : Prop := {
  queue_NoDup : NoDup (done ++ queue);
  queue_id : id ∈ done ++ queue;
  queue_parent y : y ∈ done ++ queue → y = id ∨ ∃ x, x ∈ done ∧ child i x y;
  queue_closed x y : x ∈ done → child i x y → y ∈ done ++ queue;
  queue_descends y : y ∈ done ++ queue → descends i id y
}.

Lemma queue_ok_init i id : queue_ok i id [] [id].
Proof.
  split; cbn [app].
  - apply NoDup_singleton.
  - by apply list_elem_of_singleton.
  - intros y ->%list_elem_of_singleton. by left.
  - intros x y Hx. by apply elem_of_nil in Hx.
  - intros y ->%list_elem_of_singleton. apply rtc_refl.
Qed.

Lemma queue_ok_step i id done x queue : ranked i → queue_ok i id done (x :: queue) →
  queue_ok i id (done ++ [x]) (queue ++ children i x).
Proof.
  intros Hr [Hnd Hid Hpar Hcl Hde]. pose proof Hnd as Hnd'.
  assert (∀ y, y ∈ (done ++ [x]) ++ queue ++ children i x ↔ y ∈ done ++ x :: queue ∨ child i x y) as Hin.
  { intros y. rewrite <-(children_child i x y), !elem_of_app, !elem_of_cons, elem_of_nil.
    tauto. }
  assert (x ∈ done ++ x :: queue) as Hx by (apply elem_of_app; right; constructor).
  split.
  - rewrite app_assoc. apply NoDup_app. rewrite <-!app_assoc. cbn [app].
    split; [done|]. split; [|apply children_NoDup]. intros y Hy Hc%children_child.
    destruct (Hpar y Hy) as [->|(z & Hz & Hzy)].
    + apply Hr in Hc. specialize (Hde x Hx). apply (descends_num _ _ _ Hr) in Hde. lia.
    + assert (z = x) as ->.
      { destruct Hc as (b & Hb & <-), Hzy as (b' & Hb' & <-). congruence. }
      apply NoDup_app in Hnd as (_ & Hnd & _). apply (Hnd x Hz). constructor.
  - apply Hin. by left.
  - intros y [Hy|Hc]%Hin.
    + destruct (Hpar y Hy) as [->|(z & Hz & Hzy)]; [by left|right]. exists z.
      split; [|done]. apply elem_of_app. by left.
    + right. exists x. split; [|done]. apply elem_of_app. right. by apply list_elem_of_singleton.
  - intros z y Hz Hzy. apply Hin. apply elem_of_app in Hz as [Hz| ->%list_elem_of_singleton]; [|by right].
    left. by eapply Hcl.
  - intros y [Hy|Hc]%Hin; [by apply Hde|]. eapply rtc_r; [by apply Hde|done].
Qed.

Lemma queue_ok_length i id done queue : queue_ok i id done queue →
  (length (done ++ queue) ≤ S (size i))%nat.
Proof.
  intros [Hnd _ Hpar _ _].
  assert (done ++ queue ⊆+ id :: (map_to_list i).*1) as Hs.
  { apply NoDup_submseteq; [done|]. intros y [->|(x & _ & b & Hb & _)]%Hpar; [constructor|].
    right. apply list_elem_of_fmap. exists (y, b). by rewrite elem_of_map_to_list. }
  apply submseteq_length in Hs. cbn [length] in Hs. rewrite length_fmap, length_map_to_list in Hs. done.
Qed.

Lemma queue_ok_done i id done : queue_ok i id done [] → ∀ x, x ∈ done ↔ descends i id x.
Proof.
  intros [_ Hid _ Hcl Hde]. rewrite app_nil_r in *. intros x. split; [by apply Hde|].
  revert x. refine (rtc_ind_r (λ x, x ∈ done) id Hid _). intros y z _ Hc IH. by eapply Hcl.
Qed.

(** The loop ends; it collects the descendants, unless the head is one of them. *)
Lemma remove_loop_spec fuel i hid id done queue : ranked i → queue_ok i id done queue →
  hid ∉ done → (S (size i) ≤ fuel + length done)%nat →
  ∃ res, remove_loop fuel i hid done queue = Some res ∧
    match res with
    | Ok l => hid ∉ l ∧ ∀ x, x ∈ l ↔ descends i id x
    | Throw e => e = fork_database_exception ∧ descends i id hid
    end.
Proof.
  intros Hr. revert done queue. induction fuel as [|fuel IH]; intros done queue Hq Hh Hf.
  all: destruct queue as [|x queue].
  1, 3: exists (Ok done); split; [done|]; split; [done|]; by apply queue_ok_done.
  - pose proof (queue_ok_length _ _ _ _ Hq) as Hl. rewrite length_app in Hl. cbn in Hl. lia.
  - cbn [remove_loop]. destruct (decide (x = hid)) as [->|Hne].
    + exists (Throw fork_database_exception). split; [done|]. split; [done|].
      apply (queue_descends _ _ _ _ Hq). apply elem_of_app. right. constructor.
    + apply IH; [by apply queue_ok_step| |rewrite length_app; cbn; lia].
      rewrite elem_of_app, list_elem_of_singleton. intros [?|?]; [done|congruence].
Qed.

Lemma erase_all_lookup i ids x : erase_all i ids !! x = if decide (x ∈ ids) then None else i !! x.
Proof.
  unfold erase_all. revert i. induction ids as [|y ids IH]; intros i; cbn [foldl].
  { by rewrite decide_False by apply not_elem_of_nil. }
  rewrite IH. destruct (decide (x ∈ ids)) as [Hx|Hx].
  { by rewrite decide_True by (apply elem_of_cons; by right). }
  destruct (decide (x = y)) as [->|Hne].
  - by rewrite lookup_delete_eq, decide_True by constructor.
  - rewrite lookup_delete_ne, decide_False; [done| |done]. rewrite elem_of_cons. tauto.
Qed.

(** [remove] either removes a block and all its descendants or, when the head is among
    them, throws and changes nothing. *)
Lemma remove_spec db h id : head db = Some h → ranked (index db) →
  ∃ res, remove db id = Some res ∧
    match res with
    | Ok db' => ¬ descends (index db) id (bhs_id h) ∧ root db' = root db ∧ head db' = Some h ∧
        ∀ x, (descends (index db) id x → index db' !! x = None) ∧
             (¬ descends (index db) id x → index db' !! x = index db !! x)
    | Throw e => e = fork_database_exception ∧ descends (index db) id (bhs_id h)
    end.
Proof.
  intros Hh Hr. unfold remove. rewrite Hh. cbn [mbind option_bind].
  destruct (remove_loop_spec (S (size (index db))) (index db) (bhs_id h) id [] [id]) as (res & -> & Hres);
    [done|apply queue_ok_init|apply not_elem_of_nil|cbn; lia|]. cbn [mbind option_bind].
  eexists. split; [done|]. destruct res as [l|e]; cbn; [|done]. destruct Hres as [Hn Hl].
  split; [by rewrite <-Hl|]. split; [done|]. split; [done|].
  intros x. rewrite erase_all_lookup, <-Hl. by destruct (decide (x ∈ l)).
Qed.

(** *** The first block of the index *)

(** [b] is not before [c] by validation and preference. *)
Definition not_better (c b : block_state) : Prop :=
  (validated b = true → validated c = true) ∧
  (validated b = validated c → first_preferred (state b) (state c) = false).

Lemma first_preferred_true (x y : bhs) : first_preferred x y = true ↔
  lib y < lib x ∨ lib x = lib y ∧ num y < num x.
Proof. unfold first_preferred. rewrite orb_true_iff, andb_true_iff, !Z.ltb_lt, Z.eqb_eq. done. Qed.

Lemma first_preferred_false (x y : bhs) : first_preferred x y = false ↔
  lib x < lib y ∨ lib x = lib y ∧ num x ≤ num y.
Proof. rewrite <-not_true_iff_false, first_preferred_true. lia. Qed.

Lemma not_better_trans a b c : not_better a b → not_better b c → not_better a c.
Proof.
  unfold not_better. rewrite !first_preferred_false. intros [H1 H2] [H3 H4]. split; [tauto|].
  destruct (validated a), (validated b), (validated c); intros; try done; naive_solver lia.
Qed.

Lemma before_not_better a b : if before a b then not_better a b else not_better b a.
Proof.
  destruct (before a b) eqn:E; unfold not_better; rewrite first_preferred_false; revert E; unfold before;
    (destruct (first_preferred (state a) (state b)) eqn:Hp;
      [apply first_preferred_true in Hp|apply first_preferred_false in Hp]);
    destruct (validated a), (validated b), (Z.eqb_spec (lib (state a)) (lib (state b))),
      (Z.eqb_spec (num (state a)) (num (state b))); cbn; intros E;
    try discriminate E; (split; [done|]); intros; try done; lia.
Qed.

Lemma first_of_spec l : match first_of l with
  | Some c => c ∈ l ∧ ∀ b, b ∈ l → not_better c b
  | None => l = []
  end.
Proof.
  assert (∀ a, not_better a a) as Hrefl.
  { intros a. split; [done|]. rewrite first_preferred_false. lia. }
  induction l as [|b l IH]; [done|]. cbn [first_of foldr]. fold (first_of l).
  destruct (first_of l) as [a|].
  - destruct IH as [Ha Hmin]. pose proof (before_not_better a b) as Hb. destruct (before a b).
    + split; [by right|]. intros x [->|Hx]%elem_of_cons; [done|by apply Hmin].
    + split; [by left|]. intros x [->|Hx]%elem_of_cons; [done|].
      eapply not_better_trans; [exact Hb|by apply Hmin].
  - subst l. split; [by left|]. intros x ->%list_elem_of_singleton. done.
Qed.

Lemma begin_spec i : match begin i with
  | Some c => (∃ id, i !! id = Some c) ∧ ∀ id b, i !! id = Some b → not_better c b
  | None => i = ∅
  end.
Proof.
  unfold begin. pose proof (first_of_spec (map_to_list i).*2) as Hf. destruct (first_of _) as [c|].
  - destruct Hf as [Hc Hmin]. apply list_elem_of_fmap in Hc as ([id c'] & -> & Hc%elem_of_map_to_list).
    split; [by exists id|]. intros id' b Hb. apply Hmin, list_elem_of_fmap. exists (id', b).
    by rewrite elem_of_map_to_list.
  - apply fmap_nil_inv in Hf. by apply map_to_list_empty_iff.
Qed.

(** ** Well-formed databases *)

(** A block whose identifier carries its number, the successor of that of its previous one *)
Definition well_numbered (b : bhs) : Prop :=
  num_of (bhs_id b) = num b ∧ num b = num_of (prev b) + 1.

(** The index is a tree over the root; the head is the root or a validated block, and no
    validated block is preferred to it. *)
Record wf (db : fork_database) (r h : bhs) : Prop := {
  wf_root : root db = Some r;
  wf_head : head db = Some h;
  wf_root_num : num_of (bhs_id r) = num r ∧ 0 ≤ num r;
  wf_id id b : index db !! id = Some b → bhs_id (state b) = id;
  wf_numbered id b : index db !! id = Some b → well_numbered (state b) ∧ num r < num (state b);
  wf_linked id b : index db !! id = Some b →
    prev (state b) = bhs_id r ∨ is_Some (index db !! prev (state b));
  wf_head_in : h = r ∨ index db !! bhs_id h = Some (MkBlock h true);
  wf_best id b : index db !! id = Some b → validated b = true → first_preferred (state b) h = false
}.

Lemma wf_ranked db r h : wf db r h → ranked (index db).
Proof.
  intros Hwf x y (b & Hb & <-). pose proof (wf_id _ _ _ Hwf _ _ Hb) as <-.
  destruct (wf_numbered _ _ _ Hwf _ _ Hb) as [[-> ->] _]. done.
Qed.

(** The root is not in the index. *)
Lemma wf_root_out db r h : wf db r h → index db !! bhs_id r = None.
Proof.
  intros Hwf. destruct (index db !! bhs_id r) as [b|] eqn:Hb; [|done]. exfalso.
  destruct (wf_numbered _ _ _ Hwf _ _ Hb) as [[E _] Hlt].
  rewrite (wf_id _ _ _ Hwf _ _ Hb), (proj1 (wf_root_num _ _ _ Hwf)) in E. lia.
Qed.

Lemma reset_wf r : num_of (bhs_id r) = num r → 0 ≤ num r → wf (reset r) r r.
Proof. intros Hn H0. split; cbn; try done; by left. Qed.

(** A sub-index that keeps the parents, with the same root and head *)
Lemma wf_shrink db r h i : wf db r h → i ⊆ index db →
  (∀ id b, i !! id = Some b → prev (state b) = bhs_id r ∨ is_Some (i !! prev (state b))) →
  (h = r ∨ i !! bhs_id h = Some (MkBlock h true)) → wf (MkFork i (root db) (head db)) r h.
Proof.
  intros [] Hsub Hl Hh. split; cbn; try done.
  all: intros id b Hb; pose proof (lookup_weaken _ _ _ _ Hb Hsub); eauto.
Qed.

Lemma rollback_wf db r h : wf db r h → wf (rollback_head_to_root db) r r.
Proof.
  intros []. split; cbn; try done.
  - intros id b (c & <- & Hc)%lookup_fmap_Some. cbn. eauto.
  - intros id b (c & <- & Hc)%lookup_fmap_Some. cbn. eauto.
  - intros id b (c & <- & Hc)%lookup_fmap_Some. cbn. rewrite lookup_fmap, fmap_is_Some. eauto.
  - by left.
  - by intros id b (c & <- & Hc)%lookup_fmap_Some.
Qed.

(** The head that [add] chooses *)
Lemma add_head_wf i r h : (∀ id b, i !! id = Some b → bhs_id (state b) = id) →
  (h = r ∨ i !! bhs_id h = Some (MkBlock h true)) →
  let h' := if begin i is Some c then (if validated c then state c else h) else h in
  (h' = r ∨ i !! bhs_id h' = Some (MkBlock h' true)) ∧
  ∀ id b, i !! id = Some b → validated b = true → first_preferred (state b) h' = false.
Proof.
  intros Hid Hh h'. unfold h'. pose proof (begin_spec i) as Hb. destruct (begin i) as [[c v]|].
  - destruct Hb as [[id Hc] Hmin]. cbn [validated state]. destruct v.
    + split; [right; rewrite (Hid _ _ Hc : bhs_id c = id); exact Hc|].
      intros x b Hx Hv. apply (Hmin x b Hx). by rewrite Hv.
    + split; [done|]. intros x b Hx Hv. by apply (Hmin x b Hx) in Hv.
  - subst i. split; [|done]. destruct Hh as [->|Hh]; [by left|done].
Qed.

Lemma add_impl_wf db r h n dup val validator db' : wf db r h → well_numbered (state n) →
  add_impl db n dup val validator = Ok db' → ∃ h', wf db' r h'.
Proof.
  intros Hwf Hn Ha. unfold add_impl in Ha. rewrite (wf_root _ _ _ Hwf) in Ha.
  destruct (get_block_header db r (prev (state n))) as [pb|] eqn:Hp; [|done].
  apply bind_Ok in Ha as (_ & _ & Ha). destruct (index db !! bhs_id (state n)) as [b0|] eqn:Hi.
  { destruct dup; [|done]. injection Ha as <-. by exists h. }
  set (i := <[bhs_id (state n) := n]> (index db)) in Ha.
  assert (is_Some (index db !! prev (state n)) ∨ prev (state n) = bhs_id r) as Hprev.
  { unfold get_block_header in Hp. case_decide; [by right|left]. apply fmap_Some in Hp as (? & ? & _).
    by eexists. }
  assert (num r < num (state n)) as Hlt.
  { destruct Hn as [_ ->]. destruct Hprev as [[b Hb]| ->].
    - destruct (wf_numbered _ _ _ Hwf _ _ Hb) as [[E _] ?]. rewrite (wf_id _ _ _ Hwf _ _ Hb) in E. lia.
    - rewrite (proj1 (wf_root_num _ _ _ Hwf)). lia. }
  assert (∀ id b, i !! id = Some b → bhs_id (state b) = id) as Hid.
  { intros id b [[<- <-]|[_ Hb]]%lookup_insert_Some; [done|]. by apply (wf_id _ _ _ Hwf). }
  assert (h = r ∨ i !! bhs_id h = Some (MkBlock h true)) as Hh.
  { destruct (wf_head_in _ _ _ Hwf) as [?|Hh]; [by left|right]. unfold i.
    rewrite lookup_insert_ne; [done|]. congruence. }
  destruct (add_head_wf i r h Hid Hh) as [Hh' Hbest].
  exists (if begin i is Some c then (if validated c then state c else h) else h).
  injection Ha as <-. split; cbn [root head index]; [by apply wf_root in Hwf| | |done| | |exact Hh'|exact Hbest].
  - rewrite (wf_head _ _ _ Hwf). destruct (begin i) as [c|]; [|done]. by destruct (validated c).
  - apply (wf_root_num _ _ _ Hwf).
  - intros id b [[<- <-]|[_ Hb]]%lookup_insert_Some; [by split|]. by apply (wf_numbered _ _ _ Hwf id).
  - intros id b [[<- <-]|[_ Hb]]%lookup_insert_Some; unfold i; rewrite lookup_insert_is_Some'.
    + tauto.
    + destruct (wf_linked _ _ _ Hwf id b Hb); tauto.
Qed.

Lemma remove_wf db r h id db' : wf db r h → remove db id = Some (Ok db') → wf db' r h.
Proof.
  intros Hwf Hr. pose proof (wf_ranked _ _ _ Hwf) as Hrank.
  destruct (remove_spec db h id (wf_head _ _ _ Hwf) Hrank) as (res & E & Hres).
  rewrite Hr in E. injection E as <-. destruct Hres as (Hnd & E1 & E2 & Hx).
  assert (∀ y b, index db' !! y = Some b → ¬ descends (index db) id y ∧ index db !! y = Some b) as Hback.
  { intros y b Hb. assert (¬ descends (index db) id y) as Hn.
    { intros Hd. apply Hx in Hd. congruence. }
    split; [done|]. by rewrite <-(proj2 (Hx y) Hn). }
  destruct db' as [i' ? ?]. cbn in *. subst. rewrite <-(wf_head _ _ _ Hwf). apply wf_shrink; [done|..].
  - apply map_subseteq_spec. intros y b Hb. by apply Hback.
  - intros y b Hb. apply Hback in Hb as [Hn Hb].
    destruct (wf_linked _ _ _ Hwf y b Hb) as [?|Hp]; [by left|right].
    rewrite (proj2 (Hx _)); [done|]. intros Hd. apply Hn. eapply rtc_r; [exact Hd|by exists b].
  - destruct (wf_head_in _ _ _ Hwf) as [?|Hh]; [by left|right]. by rewrite (proj2 (Hx _)).
Qed.

Lemma mark_valid_wf db r h n db' : wf db r h → mark_valid db n = Some (Ok db') → ∃ h', wf db' r h'.
Proof.
  intros Hwf Hm. unfold mark_valid in Hm. destruct (validated n).
  { injection Hm as <-. by exists h. }
  destruct (index db !! bhs_id (state n)) as [b|] eqn:Hb; [|done].
  set (id := bhs_id (state n)) in *. set (i := <[id := MkBlock (state b) true]> (index db)) in *.
  apply bind_Some in Hm as (c & Hc & Hm). rewrite (wf_head _ _ _ Hwf) in Hm. cbn in Hm.
  injection Hm as <-. pose proof (begin_spec i) as Hbeg. rewrite Hc in Hbeg.
  destruct Hbeg as [[cid Hci] Hmin].
  assert (∀ x y, i !! x = Some y → ∃ y0, index db !! x = Some y0 ∧ state y = state y0) as Hback.
  { intros x y [[<- <-]|[_ Hy]]%lookup_insert_Some; [by exists b|by exists y]. }
  assert (validated c = true) as Hcv.
  { apply (Hmin id (MkBlock (state b) true)); [apply lookup_insert_eq|done]. }
  assert (bhs_id (state c) = cid) as Hcid.
  { destruct (Hback _ _ Hci) as (y0 & Hy0 & ->). by apply (wf_id _ _ _ Hwf). }
  assert (∀ x y, i !! x = Some y → validated y = true → first_preferred (state y) (state c) = false) as Hcb.
  { intros x y Hy Hv. apply (Hmin x y Hy). by rewrite Hv. }
  exists (if first_preferred (state c) h then state c else h).
  split; cbn [root head index]; [by apply wf_root in Hwf|done|by apply (wf_root_num _ _ _ Hwf)|..].
  - intros x y (y0 & Hy0 & ->)%Hback. by apply (wf_id _ _ _ Hwf).
  - intros x y (y0 & Hy0 & ->)%Hback. by apply (wf_numbered _ _ _ Hwf x).
  - intros x y (y0 & Hy0 & ->)%Hback. unfold i. rewrite lookup_insert_is_Some'.
    destruct (wf_linked _ _ _ Hwf x y0 Hy0); tauto.
  - destruct (first_preferred (state c) h).
    + right. rewrite Hcid, Hci. destruct c as [? v]. cbn in *. by subst v.
    + destruct (wf_head_in _ _ _ Hwf) as [?|Hh]; [by left|right]. unfold i.
      destruct (decide (id = bhs_id h)) as [E|E]; [|by rewrite lookup_insert_ne].
      rewrite E, lookup_insert_eq. rewrite <-E, Hb in Hh. by injection Hh as ->.
  - intros x y Hy Hv. specialize (Hcb x y Hy Hv).
    destruct (first_preferred (state c) h) eqn:Hf; [done|].
    rewrite first_preferred_false in *. lia.
Qed.

(** *** Advancing the root *)

Lemma remove_all_spec db h ids : head db = Some h → ranked (index db) →
  ∃ db' res, remove_all db ids = Some (db', res) ∧
    match res with
    | Ok _ => (∀ y, y ∈ ids → ¬ descends (index db) y (bhs_id h)) ∧
        root db' = root db ∧ head db' = Some h ∧ index db' ⊆ index db ∧
        ∀ x, ((∃ y, y ∈ ids ∧ descends (index db) y x) → index db' !! x = None) ∧
             ((∀ y, y ∈ ids → ¬ descends (index db) y x) → index db' !! x = index db !! x)
    | Throw e => ∃ y, y ∈ ids ∧ descends (index db) y (bhs_id h)
    end.
Proof.
  revert db. induction ids as [|y ids IH]; intros db Hh Hr; cbn [remove_all].
  { exists db, (Ok tt). split; [done|]. split; [by intros y Hy%elem_of_nil|]. split_and!; [done..|].
    intros x. split; [by intros (y & Hy%elem_of_nil & _)|done]. }
  destruct (remove_spec db h y Hh Hr) as (res & -> & Hres). cbn [mbind option_bind].
  destruct res as [db1|e]; [|exists db, (Throw e); split; [done|]; exists y; split; [constructor|apply Hres]].
  destruct Hres as (Hn & E1 & E2 & Hx).
  assert (∀ a z, index db1 !! a = Some z → index db !! a = Some z) as Hsub.
  { intros a z Ha. rewrite <-(proj2 (Hx a)); [done|]. intros Hd. apply Hx in Hd. congruence. }
  assert (∀ a z, child (index db1) a z → child (index db) a z) as Hch.
  { intros a z (b & Hb & E). exists b. by split; [apply Hsub|]. }
  assert (∀ a z, descends (index db1) a z → descends (index db) a z) as Hd1.
  { intros a z. apply rtc_subrel. exact Hch. }
  assert (∀ a z, descends (index db) a z → ¬ descends (index db) y z → descends (index db1) a z) as Hd2.
  { intros a z Hd. induction Hd as [|a b z Hc Hd IHd]; intros Hz; [apply rtc_refl|].
    assert (¬ descends (index db) y b) as Hb by (intros Hyb; apply Hz; by etrans).
    eapply rtc_l; [|by apply IHd]. destruct Hc as (bb & Hbb & E). exists bb. split; [|done].
    by rewrite (proj2 (Hx b)). }
  assert (ranked (index db1)) as Hr1 by (intros a z Hc; by apply Hr, Hch).
  destruct (IH db1 E2 Hr1) as (db' & res & Hrem & Hres). rewrite Hrem. exists db', res. split; [done|].
  destruct res as [u|e].
  - destruct Hres as (Hn1 & E3 & E4 & Hsub1 & Hx1). split_and!; [|congruence|done| |].
    + intros z [->|Hz]%elem_of_cons; [done|]. intros Hd. by apply (Hn1 z Hz), Hd2.
    + etrans; [exact Hsub1|]. by apply map_subseteq_spec.
    + intros x. split.
      * intros (z & Hz & Hd). destruct (index db' !! x) as [bb|] eqn:Hb; [exfalso|done].
        pose proof (lookup_weaken _ _ _ _ Hb Hsub1) as Hb1.
        assert (¬ descends (index db) y x) as Hny by (intros Hy; by rewrite (proj1 (Hx x) Hy) in Hb1).
        apply elem_of_cons in Hz as [->|Hz]; [done|].
        by rewrite (proj1 (Hx1 x)) in Hb by (exists z; split; [done|by apply Hd2]).
      * intros Hnone. rewrite (proj2 (Hx1 x)); [apply Hx, Hnone; constructor|].
        intros z Hz Hd%Hd1. by apply (Hnone z); [right|].
  - destruct Hres as (z & Hz & Hd). exists z. split; [by right|by apply Hd1].
Qed.

(** [y] is built off [x]. *)
Definition above (i : index_type) : digest → digest → Prop := tc (child i).

Lemma above_num i x y : ranked i → above i x y → num_of x < num_of y.
Proof.
  intros Hr. induction 1 as [x y Hc|x y z Hc _ IH]; apply Hr in Hc; lia.
Qed.

Lemma above_in i x y : above i x y → is_Some (i !! y).
Proof. induction 1 as [x y (b & Hb & _)|]; [by exists b|done]. Qed.

Lemma child_unique i x x' y : child i x y → child i x' y → x = x'.
Proof. intros (b & Hb & <-) (b' & Hb' & <-). congruence. Qed.

(** The parent of a block built off [x] is [x] or built off it. *)
Lemma above_parent i x z y : above i x y → child i z y → z = x ∨ above i x z.
Proof.
  intros Ha Hc. induction Ha as [x y Hxy|x w y Hxw Hwy IH].
  - left. by eapply child_unique.
  - right. destruct (IH Hc) as [->|Hw]; [by apply tc_once|]. by eapply tc_l.
Qed.

Lemma descends_in i x y : descends i x y → y = x ∨ is_Some (i !! y).
Proof.
  intros Hd. apply rtc_inv_r in Hd as [->|(z & _ & b & Hb & _)]; [by left|right]. by exists b.
Qed.

(** What is built off [id] is not reached from below [id] once [id] is deleted. *)
Lemma above_unreachable i id x y : ranked i → num_of y < num_of id → above i id x →
  ¬ descends (delete id i) y x.
Proof.
  intros Hr Hlt Ha Hd. revert Ha. refine (rtc_ind_r (λ x, above i id x → False) y _ _ x Hd).
  - intros Ha. apply (above_num _ _ _ Hr) in Ha. lia.
  - intros z w Hyz (b & Hb & Ez) IH Ha. apply lookup_delete_Some in Hb as [Hne Hb].
    destruct (above_parent i id z w Ha) as [->|?]; [by exists b| |by apply IH].
    apply descends_in in Hyz as [->|Hz]; [lia|]. rewrite lookup_delete_eq in Hz. by destruct Hz.
Qed.

(** Any other block is reached from the root once [id] is deleted. *)
Lemma above_or_reachable db r h id x b : wf db r h → index db !! x = Some b → x ≠ id →
  above (index db) id x ∨ descends (delete id (index db)) (bhs_id r) x.
Proof.
  intros Hwf. remember (Z.to_nat (num (state b) - num r)) as k eqn:Hk. revert x b Hk.
  induction (lt_wf k) as [k _ IH]. intros x b -> Hb Hne.
  destruct (wf_numbered _ _ _ Hwf _ _ Hb) as [[_ Hn] Hlt].
  assert (delete id (index db) !! x = Some b) as Hb' by (by rewrite lookup_delete_ne by done).
  destruct (wf_linked _ _ _ Hwf _ _ Hb) as [E|[c Hc]].
  { right. apply rtc_once. by exists b. }
  destruct (decide (prev (state b) = id)) as [E|E].
  { left. apply tc_once. by exists b. }
  destruct (wf_numbered _ _ _ Hwf _ _ Hc) as [[Hn' _] Hlt'].
  rewrite (wf_id _ _ _ Hwf _ _ Hc) in Hn'.
  destruct (IH (Z.to_nat (num (state c) - num r)) ltac:(lia) (prev (state b)) c eq_refl Hc E) as [Ha|Hd].
  - left. eapply tc_r; [exact Ha|]. by exists b.
  - right. eapply rtc_r; [exact Hd|]. by exists b.
Qed.

(** The loop ends at the root and collects blocks below the new one. *)
Lemma below_loop_spec db r h fuel id b acc : wf db r h → index db !! id = Some b →
  num (state b) - num r ≤ Z.of_nat fuel →
  ∃ l, below_loop fuel db r (state b) acc = Some (Ok (acc ++ l)) ∧ bhs_id r ∈ l ∧
    ∀ y, y ∈ l → above (index db) y id.
Proof.
  intros Hwf. revert id b acc. induction fuel as [|fuel IH]; intros id b acc Hb Hf;
    destruct (wf_numbered _ _ _ Hwf _ _ Hb) as [[_ Hn] Hlt]; [lia|]. cbn [below_loop].
  assert (child (index db) (prev (state b)) id) as Hch by (by exists b).
  unfold get_block. destruct (index db !! prev (state b)) as [c|] eqn:Hc.
  - destruct (wf_numbered _ _ _ Hwf _ _ Hc) as [[Hn' _] Hlt']. rewrite (wf_id _ _ _ Hwf _ _ Hc) in Hn'.
    destruct (IH _ c (acc ++ [prev (state b)]) Hc) as (l & -> & Hr & Hl); [lia|].
    exists (prev (state b) :: l). rewrite <-app_assoc. split; [done|]. split; [by right|].
    intros y [->|Hy]%elem_of_cons; [by apply tc_once|]. eapply tc_r; [by apply Hl|done].
  - destruct (wf_linked _ _ _ Hwf _ _ Hb) as [E|[c' Hc']]; [|congruence].
    exists [prev (state b)]. rewrite decide_True by done. split; [done|]. rewrite E.
    split; [constructor|]. intros y ->%list_elem_of_singleton. rewrite <-E. by apply tc_once.
Qed.

(** When the head is the new root or built off it, advancing the root keeps exactly the
    blocks built off the new root. *)
Lemma advance_root_outcome db r h id nr : wf db r h → index db !! id = Some nr → validated nr = true →
  ∃ db' res, advance_root db id = Some (db', res) ∧
    ((bhs_id h = id ∨ above (index db) id (bhs_id h)) ↔ res = Ok tt) ∧
    (res = Ok tt → root db' = Some (state nr) ∧ head db' = Some h ∧ index db' ⊆ index db ∧
      ∀ x, is_Some (index db' !! x) ↔ above (index db) id x).
Proof.
  intros Hwf Hnr Hv. unfold advance_root. rewrite (wf_root _ _ _ Hwf). unfold get_block. rewrite Hnr, Hv.
  cbn [negb]. pose proof (wf_ranked _ _ _ Hwf) as Hr.
  destruct (wf_numbered _ _ _ Hwf _ _ Hnr) as [[Hnum _] _]. rewrite (wf_id _ _ _ Hwf _ _ Hnr) in Hnum.
  destruct (wf_root_num _ _ _ Hwf) as [_ H0].
  destruct (below_loop_spec db r h (S (Z.to_nat (num (state nr)))) id nr [] Hwf Hnr) as (l & -> & Hroot & Hl);
    [lia|]. cbn [mbind option_bind app].
  set (db0 := MkFork (delete id (index db)) (Some r) (head db)).
  destruct (remove_all_spec db0 h l) as (db' & res & -> & Hres); [apply (wf_head _ _ _ Hwf)| |].
  { intros x y (b & Hb & E). unfold db0 in Hb. cbn [index] in Hb.
    apply lookup_delete_Some in Hb as [_ Hb]. apply Hr. by exists b. }
  assert (∀ x, above (index db) id x → ∀ y, y ∈ l → ¬ descends (index db0) y x) as Hkeep.
  { intros x Hx y Hy. apply above_unreachable; [done| |done]. by apply above_num with (index db), Hl. }
  cbn [mbind option_bind]. destruct res as [[]|e].
  - destruct Hres as (Hn & E1 & E2 & Hsub & Hx). eexists _, _. split; [done|].
    assert (bhs_id h = id ∨ above (index db) id (bhs_id h)) as Hhead.
    { destruct (decide (bhs_id h = id)) as [|Hne]; [by left|right].
      destruct (wf_head_in _ _ _ Hwf) as [->|Hh]; [by destruct (Hn (bhs_id r) Hroot (rtc_refl _ _))|].
      destruct (above_or_reachable _ _ _ id _ _ Hwf Hh Hne) as [|Hd]; [done|]. by apply Hn in Hd. }
    split; [done|]. intros _. cbn [root head index]. split_and!; [done|done| |].
    + etrans; [exact Hsub|]. apply delete_subseteq.
    + intros x. split.
      * intros [b Hb]. pose proof (lookup_weaken _ _ _ _ Hb Hsub) as Hb0.
        unfold db0 in Hb0. cbn [index] in Hb0. apply lookup_delete_Some in Hb0 as [Hne Hb0].
        destruct (above_or_reachable _ _ _ id _ _ Hwf Hb0 (not_eq_sym Hne)) as [|Hd]; [done|].
        rewrite (proj1 (Hx x)) in Hb; [done|]. by exists (bhs_id r).
      * intros Ha. rewrite (proj2 (Hx x)) by (by apply Hkeep). cbn [index db0].
        rewrite lookup_delete_ne.
        -- by apply above_in in Ha.
        -- intros <-. apply (above_num _ _ _ Hr) in Ha. lia.
  - destruct Hres as (y & Hy & Hd). eexists _, _. split; [done|]. split; [|done]. split; [|done].
    intros [E|Ha]; [|by destruct (Hkeep _ Ha y Hy)]. exfalso. rewrite E in Hd.
    apply descends_in in Hd as [<-|Hd]; [|cbn in Hd; rewrite lookup_delete_eq in Hd; by destruct Hd].
    apply Hl, (above_num _ _ _ Hr) in Hy. lia.
Qed.

Lemma advance_root_wf db r h id db' : wf db r h → advance_root db id = Some (db', Ok tt) →
  ∃ r', wf db' r' h.
Proof.
  intros Hwf Ha. destruct (index db !! id) as [nr|] eqn:Hnr.
  2:{ unfold advance_root, get_block in Ha. by rewrite (wf_root _ _ _ Hwf), Hnr in Ha. }
  destruct (validated nr) eqn:Hv.
  2:{ unfold advance_root, get_block in Ha. by rewrite (wf_root _ _ _ Hwf), Hnr, Hv in Ha. }
  destruct (advance_root_outcome db r h id nr Hwf Hnr Hv) as (db0 & res & E & Hiff & Hres).
  rewrite Ha in E. injection E as <- <-. destruct (Hres eq_refl) as (E1 & E2 & Hsub & Hx).
  apply proj2 in Hiff. specialize (Hiff eq_refl). exists (state nr).
  pose proof (wf_id _ _ _ Hwf _ _ Hnr) as Hid. pose proof (wf_ranked _ _ _ Hwf) as Hr.
  destruct (wf_numbered _ _ _ Hwf _ _ Hnr) as [[Hn1 Hn2] Hlt]. rewrite Hid in Hn1.
  split; [done|done|rewrite Hid; destruct (wf_root_num _ _ _ Hwf); lia|..].
  - intros x b Hb. apply (wf_id _ _ _ Hwf). by apply (lookup_weaken _ _ _ _ Hb).
  - intros x b Hb. pose proof (lookup_weaken _ _ _ _ Hb Hsub) as Hb0.
    destruct (wf_numbered _ _ _ Hwf _ _ Hb0) as [Hw _]. split; [done|]. destruct Hw as [Hw _].
    rewrite (wf_id _ _ _ Hwf _ _ Hb0) in Hw.
    assert (above (index db) id x) as Hab by (apply Hx; by exists b).
    apply (above_num _ _ _ Hr) in Hab. lia.
  - intros x b Hb. pose proof (lookup_weaken _ _ _ _ Hb Hsub) as Hb0. rewrite Hid, Hx.
    apply (above_parent _ _ _ x); [apply Hx; by exists b|by exists b].
  - destruct (decide (bhs_id h = id)) as [E|E].
    + left. destruct (wf_head_in _ _ _ Hwf) as [->|Hh].
      * exfalso. pose proof (wf_root_out _ _ _ Hwf) as Hro. congruence.
      * rewrite E, Hnr in Hh. by injection Hh as ->.
    + right. destruct Hiff as [?|Hab]; [done|].
      destruct (wf_head_in _ _ _ Hwf) as [->|Hh].
      * apply above_in in Hab as [? Hab]. pose proof (wf_root_out _ _ _ Hwf). congruence.
      * apply Hx in Hab as [b Hb]. rewrite Hb. pose proof (lookup_weaken _ _ _ _ Hb Hsub). congruence.
  - intros x b Hb. apply (wf_best _ _ _ Hwf x). by apply (lookup_weaken _ _ _ _ Hb).
Qed.

(** ** Reachable databases *)

(** Any sequence of operations on a database that was reset to a root, with blocks whose
    identifiers carry their numbers *)
Inductive reachable : fork_database → Prop :=
  | reach_reset r : num_of (bhs_id r) = num r → 0 ≤ num r → reachable (reset r)
  | reach_rollback db : reachable db → reachable (rollback_head_to_root db)
  | reach_add db n dup val validator db' : reachable db → well_numbered (state n) →
      add_impl db n dup val validator = Ok db' → reachable db'
  | reach_remove db id db' : reachable db → remove db id = Some (Ok db') → reachable db'
  | reach_mark_valid db n db' : reachable db → mark_valid db n = Some (Ok db') → reachable db'
  | reach_advance_root db id db' : reachable db → advance_root db id = Some (db', Ok tt) →
      reachable db'.

Lemma reachable_wf db : reachable db → ∃ r h, wf db r h.
Proof.
  induction 1 as [r|db _ (r & h & Hwf)|db n dup val v db' _ (r & h & Hwf)|db id db' _ (r & h & Hwf)
    |db n db' _ (r & h & Hwf)|db id db' _ (r & h & Hwf)].
  - exists r, r. by apply reset_wf.
  - exists r, r. by eapply rollback_wf.
  - exists r. by eapply add_impl_wf.
  - exists r, h. by eapply remove_wf.
  - exists r. by eapply mark_valid_wf.
  - edestruct advance_root_wf as [r' ?]; [done|done|]. by exists r', h.
Qed.


(** Removing a block from a reachable database always ends: either the head is that
    block or built off it, and the removal throws, or exactly the block and the blocks
    built off it, directly or not, leave the database. *)
Theorem remove_exact db id : reachable db → ∃ h res, head db = Some h ∧ remove db id = Some res ∧
  (res = Throw fork_database_exception ∧ descends (index db) id (bhs_id h) ∨
   ∃ db', res = Ok db' ∧ ¬ descends (index db) id (bhs_id h) ∧
     root db' = root db ∧ head db' = head db ∧
     ∀ x, (descends (index db) id x → index db' !! x = None) ∧
          (¬ descends (index db) id x → index db' !! x = index db !! x)).
Proof.
  intros (r & h & Hwf)%reachable_wf. exists h.
  destruct (remove_spec db h id (wf_head _ _ _ Hwf) (wf_ranked _ _ _ Hwf)) as (res & Hr & Hres).
  exists res. split; [by apply wf_head in Hwf|]. split; [done|]. rewrite (wf_head _ _ _ Hwf).
  destruct res as [db'|e]; [right; by exists db'|left]. by destruct Hres as [-> ?].
Qed.

(** Advancing the root of a reachable database to a validated block succeeds exactly
    when the head is that block or built off it; then the block is the root, the head is
    unchanged, and exactly the blocks built off the new root are left. *)
Theorem advance_root_exact db id nr : reachable db → index db !! id = Some nr → validated nr = true →
  ∃ h db' res, head db = Some h ∧ advance_root db id = Some (db', res) ∧
    (res = Ok tt ↔ descends (index db) id (bhs_id h)) ∧
    (res = Ok tt → root db' = Some (state nr) ∧ head db' = Some h ∧ index db' ⊆ index db ∧
      ∀ x, is_Some (index db' !! x) ↔ tc (child (index db)) id x).
Proof.
  intros (r & h & Hwf)%reachable_wf Hnr Hv. exists h.
  destruct (advance_root_outcome db r h id nr Hwf Hnr Hv) as (db' & res & Ha & Hiff & Hres).
  exists db', res. split; [by apply wf_head in Hwf|]. split; [done|]. split; [|done].
  rewrite <-Hiff. split.
  - intros [->|Hab]; [apply rtc_refl|by apply tc_rtc].
  - intros Hd. apply rtc_tc in Hd as [->|Hab]; [by left|by right].
Qed.

(** ** Branches *)

(** Following the previous blocks from [b] through the blocks [l] leads to [a]. *)
Inductive path (db : fork_database) (r : bhs) : bhs → list bhs → bhs → Prop :=
  | path_nil b : path db r b [] b
  | path_cons b b' l a : root_or_block db r (prev b) = Ok b' → path db r b' l a → path db r b (b :: l) a.

Definition node (db : fork_database) (r b : bhs) : Prop :=
  b = r ∨ ∃ s, index db !! bhs_id b = Some s ∧ state s = b.

Lemma root_or_block_node db r h id b : wf db r h → root_or_block db r id = Ok b → node db r b ∧ bhs_id b = id.
Proof.
  intros Hwf. unfold root_or_block, get_block. case_decide as Hd.
  - intros [= <-]. split; [by left|done].
  - destruct (index db !! id) as [s|] eqn:Hs; cbn; [|done]. intros [= <-].
    pose proof (wf_id _ _ _ Hwf _ _ Hs) as E. split; [|done]. right. exists s. by rewrite E.
Qed.

Lemma node_num db r h b : wf db r h → node db r b → num_of (bhs_id b) = num b ∧ num r ≤ num b ∧
  (num b = num r → b = r).
Proof.
  intros Hwf [->|(s & Hs & <-)].
  - split_and!; [apply (wf_root_num _ _ _ Hwf)|lia|done].
  - destruct (wf_numbered _ _ _ Hwf _ _ Hs) as [[? ?] ?]. split_and!; [done|lia|lia].
Qed.

(** The previous block of one above the root *)
Lemma node_prev db r h b : wf db r h → node db r b → num r < num b →
  ∃ b', root_or_block db r (prev b) = Ok b' ∧ node db r b' ∧ num b' = num b - 1 ∧ bhs_id b' = prev b.
Proof.
  intros Hwf Hnode Hlt. assert (∃ s, index db !! bhs_id b = Some s ∧ state s = b) as (s & Hs & <-).
  { destruct Hnode as [->|?]; [lia|done]. }
  destruct (wf_numbered _ _ _ Hwf _ _ Hs) as [[_ Hn] _].
  assert (∃ b', root_or_block db r (prev (state s)) = Ok b') as [b' Hb'].
  { unfold root_or_block, get_block. case_decide as Hd; [by eexists|].
    destruct (wf_linked _ _ _ Hwf _ _ Hs) as [?|[p Hp]]; [done|]. rewrite Hp. by eexists. }
  exists b'. split; [done|]. destruct (root_or_block_node _ _ _ _ _ Hwf Hb') as [Hnb' Hid].
  destruct (node_num _ _ _ _ Hwf Hnb') as [E _]. rewrite Hid in E. split_and!; [done|lia|done].
Qed.

Lemma path_snoc db r b l a c : path db r b l a → root_or_block db r (prev a) = Ok c → path db r b (l ++ [a]) c.
Proof.
  induction 1 as [|b b' l a Hb Hp IH]; intros Hc; cbn.
  - eapply path_cons; [done|constructor].
  - eapply path_cons; [done|by apply IH].
Qed.

Lemma path_app db r b l a l' c : path db r b l a → path db r a l' c → path db r b (l ++ l') c.
Proof. induction 1; intros Hc; cbn; [done|]. eapply path_cons; eauto. Qed.

(** Going down to the number of a node *)
Lemma descend_spec db r h fuel b target acc : wf db r h → node db r b → num r ≤ target →
  num b - target ≤ Z.of_nat fuel →
  ∃ l b', descend fuel db r b target acc = Some (Ok (acc ++ l, b')) ∧ path db r b l b' ∧ node db r b' ∧
    num b' = Z.min (num b) target ∧ (∀ x, x ∈ l → target < num x) ∧ (num b ≤ target → l = []).
Proof.
  intros Hwf. revert b acc. induction fuel as [|fuel IH]; intros b acc Hnode Ht Hf; cbn [descend];
    destruct (Z.ltb_spec target (num b)) as [Hlt|Hge]; try lia.
  1, 3: exists [], b; rewrite app_nil_r; split_and!; [done|constructor|done|lia|by intros x Hx%elem_of_nil|done].
  destruct (node_prev _ _ _ _ Hwf Hnode) as (b' & Hb' & Hn' & Hnum & _); [lia|]. rewrite Hb'.
  destruct (IH b' (acc ++ [b]) Hn') as (l & c & -> & Hp & Hc & Hcn & Hl & _); [done|lia|].
  exists (b :: l), c. rewrite <-app_assoc. split_and!; [done|by eapply path_cons|done|lia| |lia].
  intros x [->|Hx]%elem_of_cons; [done|by apply Hl].
Qed.

(** Going down from two different nodes with the same number *)
Lemma descend_both_spec db r h fuel b1 b2 l1 l2 : wf db r h → node db r b1 → node db r b2 →
  num b1 = num b2 → bhs_id b1 ≠ bhs_id b2 → num b1 - num r ≤ Z.of_nat fuel →
  ∃ m1 m2 a, descend_both fuel db b1 b2 l1 l2 = Some (Ok (l1 ++ m1, l2 ++ m2)) ∧
    path db r b1 m1 a ∧ path db r b2 m2 a ∧
    (∀ x, x ∈ m1 ∨ x ∈ m2 → num r < num x ≤ num b1) ∧ (∀ x, x ∈ m1 → x ∈ m2 → False).
Proof.
  intros Hwf. revert b1 b2 l1 l2. induction fuel as [|fuel IH]; intros b1 b2 l1 l2 Hn1 Hn2 Hnum Hne Hf.
  all: destruct (node_num _ _ _ _ Hwf Hn1) as (E1 & Hle1 & Hr1).
  all: destruct (node_num _ _ _ _ Hwf Hn2) as (E2 & Hle2 & Hr2).
  all: assert (num r < num b1) as Hlt
    by (destruct (decide (num b1 = num r)); [rewrite Hr1, Hr2 in Hne by lia; done|lia]).
  1: lia.
  destruct (node_prev _ _ _ _ Hwf Hn1) as (p1 & Hp1 & Hnp1 & Hpn1 & Hid1); [lia|].
  destruct (node_prev _ _ _ _ Hwf Hn2) as (p2 & Hp2 & Hnp2 & Hpn2 & Hid2); [lia|].
  cbn [descend_both]. case_decide as Heq.
  - exists [b1], [b2], p1. split; [done|]. split; [eapply path_cons; [done|constructor]|].
    split; [eapply path_cons; [by rewrite <-Heq|constructor]|].
    split; [|by intros x ->%list_elem_of_singleton ->%list_elem_of_singleton].
    intros x [->%list_elem_of_singleton| ->%list_elem_of_singleton]; lia.
  - assert (∀ b p, root_or_block db r (prev b) = Ok p → num r < num p → block_or_throw db (prev b) = Ok p)
      as Hblk.
    { intros b p. unfold root_or_block, block_or_throw. case_decide; [intros [= <-]; lia|].
      by destruct (get_block db (prev b)). }
    assert (num r < num p1) as Hlt1.
    { destruct (node_num _ _ _ _ Hwf Hnp1) as (_ & ? & Hq1), (node_num _ _ _ _ Hwf Hnp2) as (_ & ? & Hq2).
      destruct (decide (num p1 = num r)); [|lia]. rewrite <-Hid1, <-Hid2, Hq1, Hq2 in Heq by lia. done. }
    rewrite (Hblk b1 p1), (Hblk b2 p2) by (done || lia).
    destruct (IH p1 p2 (l1 ++ [b1]) (l2 ++ [b2])) as (m1 & m2 & a & -> & Hm1 & Hm2 & Hle & Hdis);
      [done|done|lia|by rewrite Hid1, Hid2|lia|].
    exists (b1 :: m1), (b2 :: m2), a. rewrite <-!app_assoc. split; [done|].
    split; [by eapply path_cons|]. split; [by eapply path_cons|]. split.
    + intros x Hx. rewrite !elem_of_cons in Hx. destruct Hx as [[->|Hx]|[->|Hx]]; try lia.
      * specialize (Hle x (or_introl Hx)). lia.
      * specialize (Hle x (or_intror Hx)). lia.
    + intros x [->|Hx1]%elem_of_cons [Ex|Hx2]%elem_of_cons.
      * by rewrite Ex in Hne.
      * specialize (Hle _ (or_intror Hx2)). lia.
      * subst x. specialize (Hle _ (or_introl Hx1)). lia.
      * by eapply Hdis.
Qed.

(** The branches from two nodes down to a common ancestor *)
Lemma fetch_branch_from_paths db first second r h b1 b2 : wf db r h →
  root_or_block db r first = Ok b1 → root_or_block db r second = Ok b2 →
  ∃ l1 l2 a, fetch_branch_from db first second = Some (Ok (l1, l2)) ∧
    path db r b1 l1 a ∧ path db r b2 l2 a ∧ (∀ x, x ∈ l1 ∨ x ∈ l2 → num r < num x) ∧
    ∀ x, x ∈ l1 → x ∈ l2 → False.
Proof.
  intros Hwf H1 H2.
  destruct (root_or_block_node _ _ _ _ _ Hwf H1) as [Hn1 _], (root_or_block_node _ _ _ _ _ Hwf H2) as [Hn2 _].
  destruct (node_num _ _ _ _ Hwf Hn1) as (_ & Hle1 & _), (node_num _ _ _ _ Hwf Hn2) as (_ & Hle2 & _).
  destruct (wf_root_num _ _ _ Hwf) as [_ H0].
  unfold fetch_branch_from. rewrite (wf_root _ _ _ Hwf). cbn [mbind option_bind]. rewrite H1, H2.
  destruct (descend_spec db r h (Z.to_nat (num b1)) b1 (num b2) []) as (l1 & c1 & -> & P1 & Hc1 & N1 & L1 & E1);
    [done|done|lia|lia|]. cbn [mbind option_bind app].
  destruct (descend_spec db r h (Z.to_nat (num b2)) b2 (num c1) []) as (l2 & c2 & -> & P2 & Hc2 & N2 & L2 & E2);
    [done|done|lia|lia|]. cbn [mbind option_bind app].
  assert (∀ x, x ∈ l1 → x ∈ l2 → False) as Hdis.
  { intros x Hx1 Hx2. destruct (Z.le_ge_cases (num b1) (num b2)) as [Hle|Hle].
    - rewrite E1 in Hx1 by done. by apply elem_of_nil in Hx1.
    - rewrite E2 in Hx2 by lia. by apply elem_of_nil in Hx2. }
  destruct (node_num _ _ _ _ Hwf Hc1) as (_ & Hlec & _).
  assert (∀ x, x ∈ l1 ∨ x ∈ l2 → num r < num x) as Hup.
  { intros x [Hx|Hx]; [specialize (L1 x Hx)|specialize (L2 x Hx)]; lia. }
  case_decide as Hid.
  - exists l1, l2, c1. split; [done|]. split; [done|]. split; [|done].
    assert (c2 = c1) as ->; [|done].
    destruct Hc1 as [->|(s1 & Hs1 & <-)], Hc2 as [->|(s2 & Hs2 & <-)]; try done.
    + exfalso. pose proof (wf_root_out _ _ _ Hwf). congruence.
    + exfalso. pose proof (wf_root_out _ _ _ Hwf). congruence.
    + congruence.
  - destruct (descend_both_spec db r h (Z.to_nat (num c1)) c1 c2 l1 l2)
      as (m1 & m2 & a & -> & M1 & M2 & Hm & Hmd); [done|done|done|lia|done|lia|].
    exists (l1 ++ m1), (l2 ++ m2), a. split; [done|].
    split; [by eapply path_app|]. split; [by eapply path_app|]. split.
    { intros x. rewrite !elem_of_app. specialize (Hup x). specialize (Hm x).
      intros [[Hx|Hx]|[Hx|Hx]]; (apply Hup; tauto) || (apply Hm; tauto). }
    intros x [Hx1|Hx1]%elem_of_app [Hx2|Hx2]%elem_of_app.
    + by eapply Hdis.
    + specialize (L1 x Hx1). specialize (Hm x (or_intror Hx2)). lia.
    + specialize (L2 x Hx2). specialize (Hm x (or_introl Hx1)). lia.
    + by eapply Hmd.
Qed.

(** For two blocks of a reachable database, or its root, [fetch_branch_from] ends
    without an exception and returns the branches from each down to a common ancestor,
    which is not included, and the branches share no block. *)
Theorem fetch_branch_from_spec db first second r b1 b2 : reachable db → root db = Some r →
  root_or_block db r first = Ok b1 → root_or_block db r second = Ok b2 →
  ∃ l1 l2 a, fetch_branch_from db first second = Some (Ok (l1, l2)) ∧
    path db r b1 l1 a ∧ path db r b2 l2 a ∧ ∀ x, x ∈ l1 → x ∈ l2 → False.
Proof.
  intros (r' & h & Hwf)%reachable_wf Hr H1 H2. rewrite (wf_root _ _ _ Hwf) in Hr. injection Hr as ->.
  destruct (fetch_branch_from_paths db first second r h b1 b2 Hwf H1 H2) as (l1 & l2 & a & ? & ? & ? & _ & ?).
  by exists l1, l2, a.
Qed.
End fork.
#[global] Arguments block_state : clear implicits.
#[global] Arguments fork_database : clear implicits.

(** ** Witnesses *)

(** A block by number and branch, on top of another *)
Definition sample_id (n branch : Z) : digest := Merkle.Digest n branch 0 0.

Definition sample_block (n branch prev_branch lib_num : Z) : block_header_state Z Z :=
  MkBhs (MkCommon n lib_num lib_num sample_schedule Merkle.empty_merkle ∅ ∅
           (ProducerSchedule.MkBsa 1 []) []) (sample_id n branch)
    (MkSigned (MkHeader n 1 0 (sample_id (n - 1) prev_branch) Merkle.zero_digest Merkle.zero_digest
                 0 None []) 7) sample_info ∅ [] [].

Lemma sample_numbered n branch prev_branch lib_num :
  well_numbered Merkle.word0 (sample_block n branch prev_branch lib_num).
Proof. split; cbn; [done|unfold num; cbn; lia]. Qed.

(** Over block 1 the block 2, over it two blocks 3, over one of them block 4; the blocks
    of the longer branch are validated. *)
Definition sample_steps (db : fork_database Z Z) : result exn (fork_database Z Z) :=
  let mark (b : block_header_state Z Z) (db : fork_database Z Z) :=
    default (Throw std_exception) (mark_valid db (MkBlock b false)) in
  db ← add db (MkBlock (sample_block 2 0 0 1) false) false;
  db ← add db (MkBlock (sample_block 3 0 0 1) false) false;
  db ← add db (MkBlock (sample_block 3 1 0 1) false) false;
  db ← add db (MkBlock (sample_block 4 0 0 1) false) false;
  db ← mark (sample_block 2 0 0 1) db;
  db ← mark (sample_block 3 0 0 1) db;
  mark (sample_block 4 0 0 1) db.

Definition sample_fork : result exn (fork_database Z Z) := sample_steps (reset (sample_block 1 0 0 1)).

Lemma sample_fork_reachable : ∃ db, sample_fork = Ok db ∧ reachable Merkle.word0 db.
Proof.
  assert (∀ (db db' : fork_database Z Z) n, default (Throw std_exception) (mark_valid db n) = Ok db' →
    mark_valid db n = Some (Ok db')) as Hm.
  { intros db db' n. destruct (mark_valid db n) as [r|]; cbn; [by intros ->|done]. }
  assert ((if sample_fork is Ok _ then true else false) = true) as Hs by (vm_compute; reflexivity).
  destruct sample_fork as [db|e] eqn:E; [|discriminate Hs]. clear Hs.
  exists db. split; [reflexivity|]. unfold sample_fork, sample_steps in E.
  apply bind_Ok in E as (d1 & H1 & E). apply bind_Ok in E as (d2 & H2 & E).
  apply bind_Ok in E as (d3 & H3 & E). apply bind_Ok in E as (d4 & H4 & E).
  apply bind_Ok in E as (d5 & H5 & E). apply bind_Ok in E as (d6 & H6 & E).
  apply Hm in H5, H6, E.
  eapply reach_mark_valid, E. eapply reach_mark_valid, H6. eapply reach_mark_valid, H5.
  eapply reach_add, H4; [|apply sample_numbered]. eapply reach_add, H3; [|apply sample_numbered].
  eapply reach_add, H2; [|apply sample_numbered]. eapply reach_add, H1; [|apply sample_numbered].
  apply reach_reset; [reflexivity|]. unfold num. cbn. lia.
Qed.

#[local] Opaque sample_fork.

(** Read off a computed property of the sample. *)
Lemma sample_fork_eval {A} (f : fork_database Z Z → A) db x : sample_fork = Ok db →
  (if sample_fork is Ok d then Some (f d) else None) = Some x → f db = x.
Proof. intros -> [= ->]. done. Qed.


Lemma remove_exact_witness : ∃ db h res, sample_fork = Ok db ∧ head db = Some h ∧
  remove db (sample_id 3 0) = Some res ∧ res = Throw fork_database_exception.
Proof.
  destruct sample_fork_reachable as (db & E & Hr).
  destruct (remove_exact Merkle.word0 db (sample_id 3 0) Hr) as (h & res & Hh & Hrem & _).
  exists db, h, res. split; [exact E|]. split; [exact Hh|]. split; [exact Hrem|].
  assert ((if remove db (sample_id 3 0) is Some (Throw e) then Some e else None)
    = Some fork_database_exception) as Hn.
  { apply (sample_fork_eval (λ d, if remove d (sample_id 3 0) is Some (Throw e) then Some e else None)
      db _ E). vm_compute. reflexivity. }
  rewrite Hrem in Hn. destruct res as [d|e]; [discriminate Hn|]. by injection Hn as ->.
Defined.

Lemma advance_root_exact_witness : ∃ db nr db', sample_fork = Ok db ∧
  index db !! sample_id 3 0 = Some nr ∧
  advance_root db (sample_id 3 0) = Some (db', Ok tt) ∧ root db' = Some (state nr).
Proof.
  destruct sample_fork_reachable as (db & E & Hr).
  assert (validated <$> index db !! sample_id 3 0 = Some true) as Hv
    by (apply (sample_fork_eval (λ d, validated <$> index d !! sample_id 3 0) db _ E);
        vm_compute; reflexivity).
  apply fmap_Some in Hv as (nr & Hnr & Hv). symmetry in Hv.
  destruct (advance_root_exact Merkle.word0 db (sample_id 3 0) nr Hr Hnr Hv)
    as (h & db' & res & _ & Ha & _ & Hres).
  assert ((if advance_root db (sample_id 3 0) is Some (_, Ok _) then true else false) = true) as Hn.
  { apply (sample_fork_eval (λ d, if advance_root d (sample_id 3 0) is Some (_, Ok _) then true else false)
      db _ E). vm_compute. reflexivity. }
  rewrite Ha in Hn. destruct res as [[]|e]; [|discriminate Hn].
  exists db, nr, db'. split; [exact E|]. split; [exact Hnr|]. split; [exact Ha|].
  by destruct (Hres eq_refl) as [Hroot _].
Defined.

Lemma fetch_branch_from_spec_witness : ∃ db r b1 b2 l1 l2 a, sample_fork = Ok db ∧
  fetch_branch_from db (sample_id 4 0) (sample_id 3 1) = Some (Ok (l1, l2)) ∧
  path db r b1 l1 a ∧ path db r b2 l2 a.
Proof.
  destruct sample_fork_reachable as (db & E & Hr).
  assert (root db = Some (sample_block 1 0 0 1)) as Hroot
    by (apply (sample_fork_eval (λ d, root d) db _ E); vm_compute; reflexivity).
  assert (root_or_block db (sample_block 1 0 0 1) (sample_id 4 0) = Ok (sample_block 4 0 0 1)) as H1
    by (apply (sample_fork_eval (λ d, root_or_block d (sample_block 1 0 0 1) (sample_id 4 0)) db _ E);
        vm_compute; reflexivity).
  assert (root_or_block db (sample_block 1 0 0 1) (sample_id 3 1) = Ok (sample_block 3 1 0 1)) as H2
    by (apply (sample_fork_eval (λ d, root_or_block d (sample_block 1 0 0 1) (sample_id 3 1)) db _ E);
        vm_compute; reflexivity).
  destruct (fetch_branch_from_spec Merkle.word0 db (sample_id 4 0) (sample_id 3 1) _ _ _ Hr Hroot H1 H2)
    as (l1 & l2 & a & Hf & P1 & P2 & _).
  eexists db, _, _, _, l1, l2, a. split; [exact E|]. split; [exact Hf|]. split; [exact P1|exact P2].
Defined.
End ForkDatabase.
