(* ===== verification/ProtocolFeatures.v ===== *)
(** * Protocol features

    Models [protocol_feature_manager.hpp] and [protocol_feature_manager.cpp]: the table of
    the features the software has built in, the set of features a node recognises, and the
    manager that records which features are active and since which block.  The pointers
    into the set of recognised features are the digests of the features.

    The hash of a feature and the reading of a digest from hexadecimal are fc's: they are
    the section variables [hash_feature] and [digest_from_hex]. *)

From S2P Require Import Prelude.
From S2P Require Import Exceptions.
From S2P Require Import Merkle.

Local Open Scope Z_scope.

Module ProtocolFeatures.
Notation digest := Merkle.digest_type.

(** ** Features *)

Inductive builtin_protocol_feature_t :=
  | preactivate_feature
  | only_link_to_existing_permission
  | replace_deferred
  | no_duplicate_deferred_id
  | fix_linkauth_restriction
  | disallow_empty_producer_schedule
  | restrict_action_to_self
  | only_bill_first_authorizer
  | forward_setcode
  | get_sender
  | ram_restrictions
  | webauthn_key
  | wtmsig_block_signatures.

#[global] Instance builtin_eq_dec : EqDecision builtin_protocol_feature_t.
Proof. solve_decision. Defined.

(** [static_cast<uint32_t>] of the enumeration *)
Definition feature_index (f : builtin_protocol_feature_t) : nat :=
  match f with
  | preactivate_feature => 0
  | only_link_to_existing_permission => 1
  | replace_deferred => 2
  | no_duplicate_deferred_id => 3
  | fix_linkauth_restriction => 4
  | disallow_empty_producer_schedule => 5
  | restrict_action_to_self => 6
  | only_bill_first_authorizer => 7
  | forward_setcode => 8
  | get_sender => 9
  | ram_restrictions => 10
  | webauthn_key => 11
  | wtmsig_block_signatures => 12
  end.

Definition all_features : list builtin_protocol_feature_t :=
  [preactivate_feature; only_link_to_existing_permission; replace_deferred;
   no_duplicate_deferred_id; fix_linkauth_restriction; disallow_empty_producer_schedule;
   restrict_action_to_self; only_bill_first_authorizer; forward_setcode; get_sender;
   ram_restrictions; webauthn_key; wtmsig_block_signatures].

Lemma all_features_index f : all_features !! feature_index f = Some f.
Proof. by destruct f. Qed.

#[global] Instance feature_index_inj : Inj (=) (=) feature_index.
Proof. intros f g E. pose proof (all_features_index f). pose proof (all_features_index g). congruence. Qed.

#[global] Instance builtin_countable : Countable builtin_protocol_feature_t.
Proof.
  refine (inj_countable feature_index (λ n, all_features !! n) _). apply all_features_index.
Defined.

Record protocol_feature_subjective_restrictions := MkRestrictions {
  earliest_allowed_activation_time : Z;
  preactivation_required : bool;
  enabled : bool }.

Record builtin_protocol_feature_spec := MkSpec {
  codename : string;
  description_digest : digest;
  builtin_dependencies : gset builtin_protocol_feature_t;
  subjective_restrictions : protocol_feature_subjective_restrictions }.

(** A builtin feature with its [_codename]; its [protocol_feature_type] is
    [feature_type_string]. *)
Record builtin_protocol_feature := MkBuiltin {
  bf_description_digest : digest;
  bf_dependencies : gset digest;
  bf_restrictions : protocol_feature_subjective_restrictions;
  bf_codename : builtin_protocol_feature_t;
  builtin_feature_codename : string }.

Record protocol_feature := MkFeature {
  feature_digest : digest;
  pf_description_digest : digest;
  dependencies : gset digest;
  pf_earliest_allowed_activation_time : Z;
  pf_preactivation_required : bool;
  pf_enabled : bool;
  builtin_feature : option builtin_protocol_feature_t }.

Definition feature_type_string : string := "builtin".

Section features.
Context (digest_from_hex : string → digest).
(** The encoder of [builtin_protocol_feature::digest], over the type, the description, the
    dependencies and the codename *)
Context (hash_feature : Z → digest → gset digest → builtin_protocol_feature_t → digest).

(** The restrictions a feature has unless its entry gives others *)
Definition default_restrictions : protocol_feature_subjective_restrictions :=
  MkRestrictions 0 true true.

Definition builtin_protocol_feature_codenames :
    list (builtin_protocol_feature_t * builtin_protocol_feature_spec) :=
  [ (preactivate_feature, MkSpec "PREACTIVATE_FEATURE"
      (digest_from_hex "64fe7df32e9b86be2b296b3f81dfd527f84e82b98e363bc97e40bc7a83733310")
      ∅ (MkRestrictions 0 false true));
    (only_link_to_existing_permission, MkSpec "ONLY_LINK_TO_EXISTING_PERMISSION"
      (digest_from_hex "f3c3d91c4603cde2397268bfed4e662465293aab10cd9416db0d442b8cec2949")
      ∅ default_restrictions);
    (replace_deferred, MkSpec "REPLACE_DEFERRED"
      (digest_from_hex "9908b3f8413c8474ab2a6be149d3f4f6d0421d37886033f27d4759c47a26d944")
      ∅ default_restrictions);
    (no_duplicate_deferred_id, MkSpec "NO_DUPLICATE_DEFERRED_ID"
      (digest_from_hex "45967387ee92da70171efd9fefd1ca8061b5efe6f124d269cd2468b47f1575a0")
      {[replace_deferred]} default_restrictions);
    (fix_linkauth_restriction, MkSpec "FIX_LINKAUTH_RESTRICTION"
      (digest_from_hex "a98241c83511dc86c857221b9372b4aa7cea3aaebc567a48604e1d3db3557050")
      ∅ default_restrictions);
    (disallow_empty_producer_schedule, MkSpec "DISALLOW_EMPTY_PRODUCER_SCHEDULE"
      (digest_from_hex "2853617cec3eabd41881eb48882e6fc5e81a0db917d375057864b3befbe29acd")
      ∅ default_restrictions);
    (restrict_action_to_self, MkSpec "RESTRICT_ACTION_TO_SELF"
      (digest_from_hex "e71b6712188391994c78d8c722c1d42c477cf091e5601b5cf1befd05721a57f3")
      ∅ default_restrictions);
    (only_bill_first_authorizer, MkSpec "ONLY_BILL_FIRST_AUTHORIZER"
      (digest_from_hex "2f1f13e291c79da5a2bbad259ed7c1f2d34f697ea460b14b565ac33b063b73e2")
      ∅ default_restrictions);
    (forward_setcode, MkSpec "FORWARD_SETCODE"
      (digest_from_hex "898082c59f921d0042e581f00a59d5ceb8be6f1d9c7a45b6f07c0e26eaee0222")
      ∅ default_restrictions);
    (get_sender, MkSpec "GET_SENDER"
      (digest_from_hex "1eab748b95a2e6f4d7cb42065bdee5566af8efddf01a55a0a8d831b823f8828a")
      ∅ default_restrictions);
    (ram_restrictions, MkSpec "RAM_RESTRICTIONS"
      (digest_from_hex "1812fdb5096fd854a4958eb9d53b43219d114de0e858ce00255bd46569ad2c68")
      ∅ default_restrictions);
    (webauthn_key, MkSpec "WEBAUTHN_KEY"
      (digest_from_hex "927fdf78c51e77a899f2db938249fb1f8bb38f4e43d9c1f75b190492080cbc34")
      ∅ default_restrictions);
    (wtmsig_block_signatures, MkSpec "WTMSIG_BLOCK_SIGNATURES"
      (digest_from_hex "ab76031cad7a457f4fd5f5fca97a3f03b8a635278e0416f77dcc91eb99a48e10")
      ∅ default_restrictions) ].

(** [builtin_protocol_feature_codenames.find( f )] *)
Definition find_spec (f : builtin_protocol_feature_t) : option builtin_protocol_feature_spec :=
  snd <$> head (filter (λ p, p.1 = f) builtin_protocol_feature_codenames).

Definition builtin_protocol_feature_codename (f : builtin_protocol_feature_t) : result exn string :=
  match find_spec f with
  | None => Throw protocol_feature_validation_exception
  | Some spec => Ok (codename spec)
  end.

(** The constructor of [builtin_protocol_feature] *)
Definition make_builtin_protocol_feature (f : builtin_protocol_feature_t) (description : digest)
    (deps : gset digest) (restrictions : protocol_feature_subjective_restrictions) :
    result exn builtin_protocol_feature :=
  name ← builtin_protocol_feature_codename f;
  Ok (MkBuiltin description deps restrictions f name).

(** [builtin_protocol_feature::reflector_init], with that of its base class: what the
    fields [protocol_feature_type] and [builtin_feature_codename] say [_codename] is *)
Definition feature_reflector_init (protocol_feature_type codename_string : string) :
    result exn builtin_protocol_feature_t :=
  _ ← assert_that (bool_decide (protocol_feature_type = feature_type_string))
        protocol_feature_validation_exception;
  match head (filter (λ p, codename p.2 = codename_string) builtin_protocol_feature_codenames) with
  | Some p => Ok p.1
  | None => Throw protocol_feature_validation_exception
  end.

(** [builtin_protocol_feature::digest]; the type [builtin] is 0 *)
Definition feature_digest_of (f : builtin_protocol_feature) : digest :=
  hash_feature 0 (bf_description_digest f) (bf_dependencies f) (bf_codename f).

(** ** The set of recognised features *)

(** [_recognized_protocol_features], ordered by digest, and
    [_recognized_builtin_protocol_features], where the end iterator is [None] *)
Record protocol_feature_set := MkSet {
  recognized : gmap digest protocol_feature;
  recognized_builtin : list (option digest) }.

Definition empty_feature_set : protocol_feature_set := MkSet ∅ [].

Inductive recognized_t := unrecognized | disabled | too_early | ready.

Definition is_recognized (pfs : protocol_feature_set) (d : digest) (now : Z) : recognized_t :=
  match recognized pfs !! d with
  | None => unrecognized
  | Some f =>
      if negb (pf_enabled f) then disabled
      else if now <? pf_earliest_allowed_activation_time f then too_early
      else ready
  end.

Definition get_builtin_digest (pfs : protocol_feature_set) (f : builtin_protocol_feature_t) :
    option digest :=
  match recognized_builtin pfs !! feature_index f with
  | Some (Some d) => Some d
  | _ => None
  end.

Definition get_protocol_feature (pfs : protocol_feature_set) (d : digest) :
    result exn protocol_feature :=
  match recognized pfs !! d with
  | Some f => Ok f
  | None => Throw protocol_feature_exception
  end.

Definition validate_dependencies (pfs : protocol_feature_set) (d : digest)
    (validator : digest → bool) : bool :=
  match recognized pfs !! d with
  | None => false
  | Some f => forallb validator (elements (dependencies f))
  end.

Definition make_default_builtin_protocol_feature (f : builtin_protocol_feature_t)
    (handle_dependency : builtin_protocol_feature_t → result exn digest) :
    result exn builtin_protocol_feature :=
  match find_spec f with
  | None => Throw protocol_feature_validation_exception
  | Some spec =>
      deps ← foldM (λ (acc : gset digest) b, d ← handle_dependency b; Ok ({[d]} ∪ acc)) ∅
               (elements (builtin_dependencies spec));
      make_builtin_protocol_feature f (description_digest spec) deps (subjective_restrictions spec)
  end.

(** The loop of [add_feature] over the dependencies: which of the expected ones they
    satisfy.  Whatever the order, a missing one gives the same exception. *)
Definition satisfy_dependency (pfs : protocol_feature_set)
    (expected satisfied : gset builtin_protocol_feature_t) (d : digest) :
    result exn (gset builtin_protocol_feature_t) :=
  match recognized pfs !! d with
  | None => Throw protocol_feature_exception
  | Some f =>
      match builtin_feature f with
      | Some b => Ok (if bool_decide (b ∈ expected) then {[b]} ∪ satisfied else satisfied)
      | None => Ok satisfied
      end
  end.

(** The names of the missing dependencies, for the message of the exception *)
Definition missing_names (missing : gset builtin_protocol_feature_t) : result exn (list string) :=
  foldM (λ names b,
    match find_spec b with
    | None => Throw protocol_feature_exception
    | Some spec => Ok (names ++ [codename spec])
    end) [] (elements missing).

Definition add_feature (pfs : protocol_feature_set) (f : builtin_protocol_feature) :
    result exn (protocol_feature_set * protocol_feature) :=
  match find_spec (bf_codename f) with
  | None => Throw protocol_feature_validation_exception
  | Some spec =>
      let indx := feature_index (bf_codename f) in
      _ ← match recognized_builtin pfs !! indx with
          | None => Ok tt
          | Some itr => assert_that (bool_decide (itr = None)) protocol_feature_exception
          end;
      let d := feature_digest_of f in
      let expected := builtin_dependencies spec in
      satisfied ← foldM (satisfy_dependency pfs expected) ∅ (elements (bf_dependencies f));
      _ ← (if (size satisfied <? size expected)%nat then
             _ ← missing_names (expected ∖ satisfied);
             Throw protocol_feature_validation_exception
           else Ok tt);
      let pf := MkFeature d (bf_description_digest f) (bf_dependencies f)
                  (earliest_allowed_activation_time (bf_restrictions f))
                  (preactivation_required (bf_restrictions f)) (enabled (bf_restrictions f))
                  (Some (bf_codename f)) in
      _ ← assert_that (bool_decide (recognized pfs !! d = None)) protocol_feature_exception;
      let l := recognized_builtin pfs in
      let l := l ++ replicate (S indx - length l) None in
      Ok (MkSet (<[d := pf]> (recognized pfs)) (<[indx := Some d]> l), pf)
  end.
End features.

(** ** The manager of the active features *)

Definition no_previous : Z := UINT64_MAX.
Definition not_active : Z := UINT32_MAX.

Record builtin_protocol_feature_entry := MkEntry {
  previous : Z;
  activation_block_num : Z }.

(** The entry of a feature that is not active *)
Definition inactive : builtin_protocol_feature_entry := MkEntry no_previous not_active.

Record protocol_feature_manager := MkManager {
  feature_set : protocol_feature_set;
  activated_protocol_features : list (digest * Z);
  builtin_protocol_features : list builtin_protocol_feature_entry;
  head_of_builtin_activation_list : Z;
  initialized : bool }.

Definition make_manager (pfs : protocol_feature_set) : protocol_feature_manager :=
  MkManager pfs [] (replicate (length (recognized_builtin pfs)) inactive) no_previous false.

Definition is_builtin_activated (m : protocol_feature_manager) (f : builtin_protocol_feature_t)
    (current_block_num : Z) : bool :=
  match builtin_protocol_features m !! feature_index f with
  | None => false
  | Some e => activation_block_num e <=? current_block_num
  end.

Definition activate_feature (m : protocol_feature_manager) (d : digest) (current_block_num : Z) :
    result exn protocol_feature_manager :=
  _ ← assert_that (initialized m) protocol_feature_exception;
  f ← match recognized (feature_set m) !! d with
      | Some f => Ok f
      | None => Throw protocol_feature_exception
      end;
  _ ← match last (activated_protocol_features m) with
      | None => Ok tt
      | Some l => assert_that (l.2 <=? current_block_num) protocol_feature_exception
      end;
  b ← match builtin_feature f with
      | Some b => Ok b
      | None => Throw protocol_feature_exception
      end;
  let indx := feature_index b in
  e ← match builtin_protocol_features m !! indx with
      | Some e => Ok e
      | None => Throw protocol_feature_exception
      end;
  _ ← assert_that (activation_block_num e =? not_active) protocol_feature_exception;
  Ok (MkManager (feature_set m)
        (activated_protocol_features m ++ [(d, current_block_num)])
        (<[indx := MkEntry (head_of_builtin_activation_list m) current_block_num]>
           (builtin_protocol_features m))
        (Z.of_nat indx) (initialized m)).

(** The first loop of [popped_blocks_to]: [None] stands for an index out of range or a
    list that does not end. *)
Fixpoint pop_builtins (fuel : nat) (block_num head : Z)
    (entries : list builtin_protocol_feature_entry) :
    option (Z * list builtin_protocol_feature_entry) :=
  if head =? no_previous then Some (head, entries) else
  match entries !! Z.to_nat head with
  | None => None
  | Some e =>
      if activation_block_num e <=? block_num then Some (head, entries) else
      match fuel with
      | O => None
      | S fuel => pop_builtins fuel block_num (previous e) (<[Z.to_nat head := inactive]> entries)
      end
  end.

(** The second loop, on the reversed vector *)
Fixpoint drop_later {A} (block_num : Z) (l : list (A * Z)) : list (A * Z) :=
  match l with
  | [] => []
  | x :: l' => if block_num <? x.2 then drop_later block_num l' else l
  end.

Definition popped_blocks_to (m : protocol_feature_manager) (block_num : Z) :
    option (result exn protocol_feature_manager) :=
  if negb (initialized m) then Some (Throw protocol_feature_exception) else
  r ← pop_builtins (length (builtin_protocol_features m)) block_num
        (head_of_builtin_activation_list m) (builtin_protocol_features m);
  Some (Ok (MkManager (feature_set m)
    (reverse (drop_later block_num (reverse (activated_protocol_features m))))
    r.2 r.1 true)).

(** [init], given the [activated_protocol_features] of the [protocol_state_object]: when an
    activation throws the manager is left with what was activated before, and not
    initialised. *)
Fixpoint activate_all (m : protocol_feature_manager) (l : list (digest * Z)) :
    protocol_feature_manager * result exn unit :=
  match l with
  | [] => (m, Ok tt)
  | (d, n) :: l =>
      match activate_feature m d n with
      | Throw e => (m, Throw e)
      | Ok m' => activate_all m' l
      end
  end.

Definition set_initialized (m : protocol_feature_manager) (b : bool) : protocol_feature_manager :=
  MkManager (feature_set m) (activated_protocol_features m) (builtin_protocol_features m)
    (head_of_builtin_activation_list m) b.

Definition init (m : protocol_feature_manager) (activated : list (digest * Z)) :
    protocol_feature_manager * result exn unit :=
  if initialized m then (m, Throw protocol_feature_exception) else
  match activate_all (set_initialized m true) activated with
  | (m', Ok _) => (m', Ok tt)
  | (m', Throw e) => (set_initialized m' false, Throw e)
  end.

(** *** Iteration over the active features, in the order of their activation *)

(** [const_iterator]: singular, or an index into the active features *)
Definition end_index : Z := UINT64_MAX.
Inductive const_iterator := Singular | Iter (index : Z).

Definition cend : const_iterator := Iter end_index.

Definition cbegin (m : protocol_feature_manager) : const_iterator :=
  if Z.of_nat (length (activated_protocol_features m)) =? 0 then cend else Iter 0.

Definition increment (m : protocol_feature_manager) (it : const_iterator) :
    result exn const_iterator :=
  match it with
  | Singular => Throw protocol_feature_iterator_exception
  | Iter i =>
      _ ← assert_that (negb (i =? end_index)) protocol_feature_iterator_exception;
      let i := i + 1 in
      Ok (Iter (if Z.of_nat (length (activated_protocol_features m)) <=? i then end_index else i))
  end.

Definition decrement (m : protocol_feature_manager) (it : const_iterator) :
    result exn const_iterator :=
  match it with
  | Singular => Throw protocol_feature_iterator_exception
  | Iter i =>
      let size := Z.of_nat (length (activated_protocol_features m)) in
      if i =? end_index then
        _ ← assert_that (0 <? size) protocol_feature_iterator_exception;
        Ok (Iter (size - 1))
      else
        _ ← assert_that (0 <? i) protocol_feature_iterator_exception;
        Ok (Iter (i - 1))
  end.

Definition activation_ordinal (it : const_iterator) : result exn Z :=
  match it with
  | Singular => Throw protocol_feature_iterator_exception
  | Iter i =>
      _ ← assert_that (negb (i =? end_index)) protocol_feature_iterator_exception;
      Ok (u32 i)
  end.

Definition at_activation_ordinal (m : protocol_feature_manager) (activation_ordinal : Z) :
    const_iterator :=
  if Z.of_nat (length (activated_protocol_features m)) <=? activation_ordinal then cend
  else Iter activation_ordinal.

(** [std::lower_bound] and [std::upper_bound] on a vector that is partitioned: the first
    element for which the comparison fails or holds, respectively. *)
Fixpoint first_index {A} (p : A → bool) (l : list A) : Z :=
  match l with
  | [] => 0
  | a :: l => if p a then 0 else 1 + first_index p l
  end.

Definition lower_bound (m : protocol_feature_manager) (block_num : Z) : const_iterator :=
  let l := activated_protocol_features m in
  let i := first_index (λ x, negb (x.2 <? block_num)) l in
  if i =? Z.of_nat (length l) then cend else Iter i.

Definition upper_bound (m : protocol_feature_manager) (block_num : Z) : const_iterator :=
  let l := activated_protocol_features m in
  let i := first_index (λ x, block_num <? x.2) l in
  if i =? Z.of_nat (length l) then cend else Iter i.

(** ** The recognised features are well formed *)

Section recognised.
Context (digest_from_hex : string → digest).
Context (hash_feature : Z → digest → gset digest → builtin_protocol_feature_t → digest).
Local Notation find_spec := (find_spec digest_from_hex).
Local Notation feature_digest_of := (feature_digest_of hash_feature).
Local Notation add_feature := (add_feature digest_from_hex hash_feature).

(** [x] is a dependency of the recognised feature [y]. *)
Definition depends (pfs : protocol_feature_set) (x y : digest) : Prop :=
  ∃ f, recognized pfs !! y = Some f ∧ x ∈ dependencies f.

(** The sets that [add_feature] builds *)
Inductive feature_sets : protocol_feature_set → Prop :=
  | set_empty : feature_sets empty_feature_set
  | set_add pfs f pfs' pf : feature_sets pfs → add_feature pfs f = Ok (pfs', pf) → feature_sets pfs'.

(** The index by codename holds every feature. *)
Definition indexed (pfs : protocol_feature_set) : Prop := ∀ d f, recognized pfs !! d = Some f →
  feature_digest f = d ∧
  ∃ b, builtin_feature f = Some b ∧ recognized_builtin pfs !! feature_index b = Some (Some d).

Record set_ok (pfs : protocol_feature_set) : Prop := {
  ok_feature : indexed pfs;
  ok_builtin i d : recognized_builtin pfs !! i = Some (Some d) →
    ∃ f b, recognized pfs !! d = Some f ∧ builtin_feature f = Some b ∧ feature_index b = i;
  ok_recognized x y : depends pfs x y → is_Some (recognized pfs !! x);
  ok_expected d f b spec b' : recognized pfs !! d = Some f → builtin_feature f = Some b →
    find_spec b = Some spec → b' ∈ builtin_dependencies spec →
    ∃ x g, x ∈ dependencies f ∧ recognized pfs !! x = Some g ∧ builtin_feature g = Some b';
  ok_wf : well_founded (depends pfs) }.

Lemma satisfied_dependencies pfs expected satisfied l satisfied' :
  foldM (satisfy_dependency pfs expected) satisfied l = Ok satisfied' →
  satisfied ⊆ expected →
  satisfied' ⊆ expected ∧ (∀ d, d ∈ l → is_Some (recognized pfs !! d)) ∧
  ∀ b, b ∈ satisfied' → b ∈ satisfied ∨
    ∃ d f, d ∈ l ∧ recognized pfs !! d = Some f ∧ builtin_feature f = Some b.
Proof.
  revert satisfied. induction l as [|d l IH]; cbn [foldM]; intros satisfied Hf Hsub.
  - injection Hf as <-. split_and!; [done|by intros ? ?%elem_of_nil|by left].
  - apply bind_Ok in Hf as (s1 & Hd & Hf). unfold satisfy_dependency in Hd.
    destruct (recognized pfs !! d) as [f|] eqn:Ef; [|done].
    assert (s1 ⊆ expected ∧ ∀ b, b ∈ s1 → b ∈ satisfied ∨ builtin_feature f = Some b) as [Hs1 Hin].
    { destruct (builtin_feature f) as [b|]; [case_bool_decide as Hb|]; injection Hd as <-.
      - split; [apply union_subseteq; split; [by apply singleton_subseteq_l|done]|].
        intros b' [->%elem_of_singleton|?]%elem_of_union; [by right|by left].
      - split; [done|by left].
      - split; [done|by left]. }
    destruct (IH s1 Hf Hs1) as (H1 & H2 & H3). split_and!; [done| |].
    + intros x [->|Hx]%elem_of_cons; [by rewrite Ef|by apply H2].
    + intros b Hb. destruct (H3 b Hb) as [[?|?]%Hin|(x & g & Hx & ? & ?)]; [by left|right..].
      * exists d, f. split_and!; [by left|done..].
      * exists x, g. split_and!; [by right|done..].
Qed.

(** What a successful [add_feature] has checked and what it adds *)
Lemma add_feature_inv pfs f pfs' pf : add_feature pfs f = Ok (pfs', pf) → ∃ spec,
  find_spec (bf_codename f) = Some spec ∧
  feature_digest pf = feature_digest_of f ∧ dependencies pf = bf_dependencies f ∧
  builtin_feature pf = Some (bf_codename f) ∧
  recognized pfs !! feature_digest_of f = None ∧
  recognized pfs' = <[feature_digest_of f := pf]> (recognized pfs) ∧
  (∀ d, recognized_builtin pfs !! feature_index (bf_codename f) ≠ Some (Some d)) ∧
  (∀ i, recognized_builtin pfs' !! i = if decide (i = feature_index (bf_codename f))
     then Some (Some (feature_digest_of f))
     else if decide (i < length (recognized_builtin pfs))%nat then recognized_builtin pfs !! i
     else if decide (i < feature_index (bf_codename f))%nat then Some None else None) ∧
  (∀ d, d ∈ bf_dependencies f → is_Some (recognized pfs !! d)) ∧
  (∀ b, b ∈ builtin_dependencies spec → ∃ d g, d ∈ bf_dependencies f ∧
     recognized pfs !! d = Some g ∧ builtin_feature g = Some b).
Proof.
  unfold add_feature. destruct (find_spec _) as [spec|]; [|done].
  set (indx := feature_index (bf_codename f)). set (l := recognized_builtin pfs).
  intros H. apply bind_Ok in H as ([] & Hslot & H). apply bind_Ok in H as (sat & Hsat & H).
  apply bind_Ok in H as ([] & Hsize & H). apply bind_Ok in H as ([] & Hnew & H).
  apply assert_that_Ok, bool_decide_eq_true in Hnew. injection H as <- <-.
  apply satisfied_dependencies in Hsat as (Hsub & Hrec & Hby); [|set_solver].
  destruct (_ <? _)%nat eqn:E.
  { by apply bind_Ok in Hsize as (? & _ & ?). }
  apply Nat.ltb_ge in E. apply set_subseteq_size_equiv in E; [|done].
  exists spec. cbn. split_and!; try done.
  - intros d Hd. rewrite Hd in Hslot. by apply assert_that_Ok, bool_decide_eq_true in Hslot.
  - intros i. assert (indx < length (l ++ replicate (S indx - length l) (@None digest)))%nat.
    { rewrite length_app, length_replicate. lia. }
    destruct (decide (i = indx)) as [->|Hi]; [by apply list_lookup_insert_eq|].
    rewrite list_lookup_insert_ne by done. destruct (decide (i < length l)%nat) as [Hl|Hl].
    + by apply lookup_app_l.
    + rewrite lookup_app_r by lia. destruct (decide (i < indx)%nat).
      * rewrite lookup_replicate_2; [done|lia].
      * apply lookup_ge_None. rewrite length_replicate. lia.
  - intros d Hd. apply Hrec. by apply elem_of_elements.
  - intros b Hb. rewrite <-E in Hb. destruct (Hby b Hb) as [?|(d & g & Hd & ? & ?)]; [set_solver|].
    exists d, g. split_and!; [by apply elem_of_elements|done..].
Qed.

(** Adding a feature over recognised ones keeps the dependencies well founded. *)
Lemma depends_insert_wf pfs pfs' d pf :
  recognized pfs !! d = None → recognized pfs' = <[d := pf]> (recognized pfs) →
  (∀ x y, depends pfs x y → is_Some (recognized pfs !! x)) →
  (∀ x, x ∈ dependencies pf → is_Some (recognized pfs !! x)) →
  well_founded (depends pfs) → well_founded (depends pfs').
Proof.
  intros Hd E Hrec Hpf Hwf.
  assert (∀ y, is_Some (recognized pfs !! y) → Acc (depends pfs') y) as Hold.
  { intros y. induction (Hwf y) as [y _ IH]. intros Hy. constructor. intros x (f & Hf & Hx).
    rewrite E in Hf. apply lookup_insert_Some in Hf as [[<- _]|[_ Hf]]; [by rewrite Hd in Hy; destruct Hy|].
    assert (depends pfs x y) as Hxy by (by exists f). apply IH; [done|]. by eapply Hrec. }
  intros y. constructor. intros x (f & Hf & Hx). rewrite E in Hf.
  apply lookup_insert_Some in Hf as [[_ <-]|[_ Hf]]; apply Hold; [by apply Hpf|].
  eapply Hrec. by exists f.
Qed.

Lemma add_feature_ok pfs f pfs' pf : set_ok pfs → add_feature pfs f = Ok (pfs', pf) → set_ok pfs'.
Proof.
  intros [Hf Hb Hr Hx Hw] (spec & Hspec & Hd & Hdeps & Hbf & Hnew & E & Hslot & Hl & Hin & Hexp)%add_feature_inv.
  set (d0 := feature_digest_of f) in *. set (b0 := bf_codename f) in *. split.
  - intros d g. rewrite E. intros [[<- <-]|[Hne Hg]]%lookup_insert_Some.
    + split; [done|]. exists b0. split; [done|]. rewrite Hl. by rewrite decide_True.
    + destruct (Hf d g Hg) as (? & b & ? & Hb'). split; [done|]. exists b. split; [done|]. rewrite Hl.
      rewrite decide_False; [|intros ->%(inj feature_index); by eapply Hslot].
      rewrite decide_True; [done|]. by eapply lookup_lt_Some.
  - intros i d Hi. rewrite Hl in Hi. rewrite E. destruct (decide (i = _)) as [->|Hne].
    + injection Hi as <-. exists pf, b0. split_and!; [apply lookup_insert_eq|done..].
    + destruct (decide _) in Hi; [|by destruct (decide _) in Hi].
      destruct (Hb i d Hi) as (g & b & Hg & ? & ?). exists g, b. split_and!; [|done..].
      rewrite lookup_insert_ne; [done|]. intros ->. congruence.
  - intros x y (g & Hg & Hxg). rewrite E in Hg |- *. apply lookup_insert_is_Some'. right.
    apply lookup_insert_Some in Hg as [[_ <-]|[_ Hg]]; [apply Hin; by rewrite <-Hdeps|].
    eapply Hr. by exists g.
  - intros d g b sp b' Hg Hgb Hsp Hb'. rewrite E in Hg.
    assert (∀ x h, recognized pfs !! x = Some h → recognized pfs' !! x = Some h) as Hmono.
    { intros x h Hxh. rewrite E, lookup_insert_ne; [done|]. intros ->. congruence. }
    apply lookup_insert_Some in Hg as [[_ <-]|[_ Hg]].
    + rewrite Hbf in Hgb. injection Hgb as <-. rewrite Hspec in Hsp. injection Hsp as <-.
      destruct (Hexp b' Hb') as (x & h & ? & ? & ?). exists x, h. rewrite Hdeps. eauto.
    + destruct (Hx d g b sp b' Hg Hgb Hsp Hb') as (x & h & ? & ? & ?). exists x, h. eauto.
  - apply (depends_insert_wf pfs pfs' d0 pf); [done..|by rewrite Hdeps|done].
Qed.

Lemma feature_sets_ok pfs : feature_sets pfs → set_ok pfs.
Proof.
  induction 1 as [|pfs f pfs' pf _ IH Hadd]; [|by eapply add_feature_ok].
  assert (∀ d, recognized empty_feature_set !! d = None) as He by apply lookup_empty.
  split.
  - intros d f Hd. by rewrite He in Hd.
  - intros i d Hi. by destruct i.
  - intros x y (f & Hf & _). by rewrite He in Hf.
  - intros d f b spec b' Hd. by rewrite He in Hd.
  - intros y. constructor. intros x (f & Hf & _). by rewrite He in Hf.
Qed.

(** C40: in every set of features that [add_feature] builds, the dependencies of a feature
    are recognised themselves and never circular, every builtin feature a feature is
    expected to depend on is among its dependencies, and the index by codename finds
    exactly the recognised features. *)
Theorem recognized_features_wf pfs : feature_sets pfs →
  well_founded (depends pfs) ∧
  (∀ x y, depends pfs x y → is_Some (recognized pfs !! x)) ∧
  (∀ d f b spec b', recognized pfs !! d = Some f → builtin_feature f = Some b →
    find_spec b = Some spec → b' ∈ builtin_dependencies spec →
    ∃ x, x ∈ dependencies f ∧ get_builtin_digest pfs b' = Some x) ∧
  (∀ b d, get_builtin_digest pfs b = Some d ↔
    ∃ f, recognized pfs !! d = Some f ∧ builtin_feature f = Some b).
Proof.
  intros [Hf Hb Hr Hx Hw]%feature_sets_ok.
  assert (∀ b d, get_builtin_digest pfs b = Some d ↔
    ∃ f, recognized pfs !! d = Some f ∧ builtin_feature f = Some b) as Hget.
  { intros b d. unfold get_builtin_digest. split.
    - destruct (recognized_builtin pfs !! _) as [[d'|]|] eqn:E; intros [= ->].
      destruct (Hb _ _ E) as (f & b' & ? & ? & ->%(inj feature_index)). by exists f.
    - intros (f & Hd & Hfb). destruct (Hf d f Hd) as (_ & b' & E & Hslot).
      rewrite Hfb in E. injection E as <-. by rewrite Hslot. }
  split_and!; [done|done| |done].
  intros d f b spec b' Hd Hfb Hspec Hb'. destruct (Hx d f b spec b') as (x & g & ? & ? & ?); [done..|].
  exists x. split; [done|]. apply Hget. by exists g.
Qed.
End recognised.

(** ** The manager implements a stack of activations *)

(** What the manager promises: the active features as a stack, the latest on top. *)
Record activation := MkActivation {
  act_feature : builtin_protocol_feature_t;
  act_digest : digest;
  act_block : Z }.

Definition stack_activate (pfs : protocol_feature_set) (s : list activation) (d : digest) (n : Z) :
    result exn (list activation) :=
  match f ← recognized pfs !! d; builtin_feature f with
  | None => Throw protocol_feature_exception
  | Some b =>
      if bool_decide (b ∉ act_feature <$> s) && forallb (λ a, act_block a <=? n) (take 1 s)
      then Ok (MkActivation b d n :: s) else Throw protocol_feature_exception
  end.

Fixpoint stack_pop (s : list activation) (n : Z) : list activation :=
  match s with
  | [] => []
  | a :: s' => if n <? act_block a then stack_pop s' n else s
  end.

Definition stack_is_activated (s : list activation) (b : builtin_protocol_feature_t) (n : Z) : bool :=
  existsb (λ a, bool_decide (act_feature a = b) && (act_block a <=? n)) s.

(** The list of the entries is threaded through the features of the stack. *)
Definition head_index (s : list activation) : Z :=
  match s with [] => no_previous | a :: _ => Z.of_nat (feature_index (act_feature a)) end.

Fixpoint linked (es : list builtin_protocol_feature_entry) (s : list activation) : Prop :=
  match s with
  | [] => True
  | a :: s' =>
      es !! feature_index (act_feature a) = Some (MkEntry (head_index s') (act_block a)) ∧ linked es s'
  end.

Notation indices s := ((λ a, feature_index (act_feature a)) <$> s).

Record entries_ok (es : list builtin_protocol_feature_entry) (s : list activation) : Prop := {
  es_linked : linked es s;
  es_inactive i e : es !! i = Some e → i ∉ indices s → e = inactive;
  es_nodup : NoDup (indices s) }.

Record represents (m : protocol_feature_manager) (s : list activation) : Prop := {
  rep_set : indexed (feature_set m);
  rep_length : length (builtin_protocol_features m) = length (recognized_builtin (feature_set m));
  rep_init : initialized m = true;
  rep_head : head_of_builtin_activation_list m = head_index s;
  rep_activated : activated_protocol_features m = reverse ((λ a, (act_digest a, act_block a)) <$> s);
  rep_entries : entries_ok (builtin_protocol_features m) s;
  rep_recognized : Forall (λ a, (f ← recognized (feature_set m) !! act_digest a; builtin_feature f)
    = Some (act_feature a)) s;
  rep_sorted : StronglySorted (λ a a', act_block a' ≤ act_block a) s;
  rep_range : Forall (λ a, act_block a < not_active) s }.

Lemma linked_insert es s i e : i ∉ indices s → linked es s → linked (<[i := e]> es) s.
Proof.
  induction s as [|a s IH]; [done|]. intros Hi [Ha Hs]. rewrite fmap_cons, not_elem_of_cons in Hi.
  destruct Hi as [Hi ?]. split; [|by apply IH]. by rewrite list_lookup_insert_ne.
Qed.

Lemma linked_lookup es s a : linked es s → a ∈ s →
  ∃ p, es !! feature_index (act_feature a) = Some (MkEntry p (act_block a)).
Proof.
  induction s as [|a' s IH]; [by intros _ ?%elem_of_nil|].
  intros [Ha' Hs] [->|Ha]%elem_of_cons; [by eexists|by apply IH].
Qed.

Lemma head_index_ne s : s ≠ [] → head_index s ≠ no_previous.
Proof.
  destruct s as [|a s]; [done|]. intros _. cbn. unfold no_previous, UINT64_MAX.
  assert (feature_index (act_feature a) < 13)%nat by (destruct (act_feature a); cbn; lia). lia.
Qed.

(** Each feature of the stack has an entry of its own, so the loop has fuel enough. *)
Lemma entries_ok_length es s : entries_ok es s → (length s ≤ length es)%nat.
Proof.
  intros [Hl _ Hnd]. rewrite <-(length_fmap (λ a, feature_index (act_feature a)) s).
  rewrite <-(length_seq (length es) 0). apply submseteq_length, NoDup_submseteq; [done|].
  intros i (a & -> & Ha)%list_elem_of_fmap. apply elem_of_seq.
  destruct (linked_lookup es s a Hl Ha) as [p Hp]. apply lookup_lt_Some in Hp. lia.
Qed.

Lemma entries_ok_pop es a s : entries_ok es (a :: s) →
  entries_ok (<[feature_index (act_feature a) := inactive]> es) s.
Proof.
  intros [[Ha Hl] Hin Hnd]. rewrite fmap_cons in Hin, Hnd. apply NoDup_cons in Hnd as [Hni Hnd]. split; [|..|done].
  - by apply linked_insert.
  - intros i e Hi Hni'. destruct (decide (i = feature_index (act_feature a))) as [->|Hne].
    + rewrite list_lookup_insert_eq in Hi by (by eapply lookup_lt_Some). congruence.
    + rewrite list_lookup_insert_ne in Hi by done. apply (Hin i e Hi).
      rewrite not_elem_of_cons. done.
Qed.

Lemma pop_builtins_spec fuel n es s : entries_ok es s → (length s ≤ fuel)%nat →
  ∃ es', pop_builtins fuel n (head_index s) es = Some (head_index (stack_pop s n), es') ∧
    entries_ok es' (stack_pop s n) ∧ length es' = length es.
Proof.
  revert es s. induction fuel as [|fuel IH]; intros es s Hes Hf.
  - destruct s; [|by cbn in Hf; lia]. by exists es.
  - destruct s as [|a s]; [by exists es|].
    pose proof (head_index_ne (a :: s) ltac:(done)) as Hne%Z.eqb_neq.
    cbn [pop_builtins stack_pop]. rewrite Hne. cbn [head_index]. rewrite Nat2Z.id.
    pose proof (es_linked _ _ Hes) as [Ha _]. rewrite Ha. cbn [activation_block_num previous].
    destruct (act_block a <=? n) eqn:E.
    + rewrite (proj2 (Z.ltb_ge _ _)) by lia. by exists es.
    + rewrite (proj2 (Z.ltb_lt _ _)) by lia.
      destruct (IH _ s (entries_ok_pop _ _ _ Hes)) as (es' & ? & ? & Hlen); [cbn in Hf; lia|].
      exists es'. by rewrite length_insert in Hlen.
Qed.

Lemma stack_pop_suffix s n : ∃ k, s = k ++ stack_pop s n.
Proof.
  induction s as [|a s [k IH]]; [by exists []|]. cbn. destruct (_ <? _); [|by exists []].
  exists (a :: k). by rewrite IH at 1.
Qed.

Lemma drop_later_pop s n :
  drop_later n ((λ a, (act_digest a, act_block a)) <$> s) =
  (λ a, (act_digest a, act_block a)) <$> stack_pop s n.
Proof. induction s as [|a s IH]; [done|]. cbn. by destruct (_ <? _). Qed.

Lemma popped_blocks_to_represents m s n : represents m s → ∃ m',
  popped_blocks_to m n = Some (Ok m') ∧ represents m' (stack_pop s n) ∧
  feature_set m' = feature_set m.
Proof.
  intros [Hset Hlen Hini Hhd Hact Hes Hrec Hsort Hrng]. unfold popped_blocks_to.
  rewrite Hini, Hhd, Hact. cbn [negb].
  destruct (pop_builtins_spec (length (builtin_protocol_features m)) n _ s Hes) as (es' & -> & Hes' & Hlen');
    [by apply entries_ok_length|].
  cbn. eexists. split_and!; [done| |done]. rewrite reverse_involutive, drop_later_pop.
  destruct (stack_pop_suffix s n) as [k Hk].
  split; cbn; [done|lia|done|done|done|done| | |].
  - rewrite Hk in Hrec. by apply Forall_app in Hrec as [_ ?].
  - rewrite Hk in Hsort. by apply StronglySorted_app_1_r in Hsort.
  - rewrite Hk in Hrng. by apply Forall_app in Hrng as [_ ?].
Qed.

Lemma entry_active es s i e : entries_ok es s → Forall (λ a, act_block a < not_active) s →
  es !! i = Some e → activation_block_num e = not_active ↔ i ∉ indices s.
Proof.
  intros [Hl Hin _] Hrng He. split.
  - intros E (a & -> & Ha)%list_elem_of_fmap. destruct (linked_lookup es s a Hl Ha) as [p Hp].
    rewrite He in Hp. injection Hp as ->. rewrite Forall_forall in Hrng. specialize (Hrng a Ha).
    cbn in E. lia.
  - intros Hi. by rewrite (Hin i e He Hi).
Qed.

Lemma elem_of_indices b (s : list activation) : feature_index b ∈ indices s ↔ b ∈ act_feature <$> s.
Proof.
  rewrite !list_elem_of_fmap. split.
  - intros (a & E%(inj feature_index) & ?). by exists a.
  - intros (a & -> & ?). by exists a.
Qed.

(** Pushing an activation *)
Lemma represents_push m s b d n : represents m s →
  (f ← recognized (feature_set m) !! d; builtin_feature f) = Some b →
  b ∉ act_feature <$> s → Forall (λ a, act_block a ≤ n) s → n < not_active →
  represents (MkManager (feature_set m) (activated_protocol_features m ++ [(d, n)])
    (<[feature_index b := MkEntry (head_of_builtin_activation_list m) n]> (builtin_protocol_features m))
    (Z.of_nat (feature_index b)) true) (MkActivation b d n :: s).
Proof.
  intros [Hset Hlen Hini Hhd Hact Hes Hrec Hsort Hrng] Hb Hnew Hle Hn. rewrite <-elem_of_indices in Hnew.
  assert (feature_index b < length (builtin_protocol_features m))%nat as Hlt.
  { destruct (recognized _ !! d) as [f|] eqn:Ef; [|done]. cbn in Hb.
    destruct (Hset d f Ef) as (_ & b' & E & Hb'). rewrite Hb in E. injection E as <-.
    rewrite Hlen. by eapply lookup_lt_Some. }
  split; cbn -[reverse fmap]; [done| |done|done| | | | |].
  - by rewrite length_insert.
  - by rewrite Hact, fmap_cons, reverse_cons.
  - destruct Hes as [Hl Hin Hnd]. split.
    + split; [|by apply linked_insert]. cbn. by rewrite list_lookup_insert_eq, Hhd.
    + intros i e Hi. rewrite fmap_cons, not_elem_of_cons. intros [Hne Hni]. cbn in Hne.
      rewrite list_lookup_insert_ne in Hi by done. by apply (Hin i).
    + rewrite fmap_cons. by constructor.
  - by constructor.
  - by constructor.
  - by constructor.
Qed.

Lemma last_activated m s : represents m s →
  last (activated_protocol_features m) = match s with [] => None | a :: _ => Some (act_digest a, act_block a) end.
Proof.
  intros Hrep. rewrite (rep_activated _ _ Hrep). destruct s as [|a s]; [done|].
  by rewrite fmap_cons, reverse_cons, last_snoc.
Qed.

(** [activate_feature] is the push of the stack, with the same exception. *)
Lemma activate_feature_represents m s d n : represents m s → n < not_active →
  match activate_feature m d n, stack_activate (feature_set m) s d n with
  | Ok m', Ok s' => represents m' s' ∧ feature_set m' = feature_set m
  | Throw e, Throw e' => e = e'
  | _, _ => False
  end.
Proof.
  intros Hrep Hn. unfold activate_feature, stack_activate.
  rewrite (rep_init _ _ Hrep), (last_activated m s Hrep). cbn [assert_that mbind result_bind].
  destruct (recognized (feature_set m) !! d) as [f|] eqn:Ef; [cbn|done].
  destruct (rep_set _ _ Hrep d f Ef) as (_ & b & Eb & Hslot). rewrite Eb. cbn.
  assert (feature_index b < length (builtin_protocol_features m))%nat as Hlt.
  { rewrite (rep_length _ _ Hrep). by eapply lookup_lt_Some. }
  apply lookup_lt_is_Some in Hlt as [e He]. rewrite He. cbn.
  pose proof (entry_active _ s _ e (rep_entries _ _ Hrep) (rep_range _ _ Hrep) He) as Hact.
  rewrite elem_of_indices in Hact.
  assert ((activation_block_num e =? not_active) = bool_decide (b ∉ act_feature <$> s)) as ->.
  { apply eq_bool_prop_intro. rewrite bool_decide_spec, <-Hact.
    destruct (Z.eqb_spec (activation_block_num e) not_active); cbn; tauto. }
  assert (∀ a s', s = a :: s' → act_block a ≤ n → Forall (λ a, act_block a ≤ n) s) as Hle.
  { intros a s' -> ?. pose proof (rep_sorted _ _ Hrep) as [_ Hs]%StronglySorted_inv.
    constructor; [done|]. eapply Forall_impl; [done|]. cbn. lia. }
  case_bool_decide as Hnew; cbn [andb assert_that].
  2: { destruct s; cbn; [done|]. by destruct (_ <=? _). }
  destruct s as [|a s]; cbn.
  { split; [|done]. eapply represents_push; [done| |done|done|done]. by rewrite Ef. }
  destruct (Z.leb_spec (act_block a) n) as [Ha|Ha]; cbn; [|done].
  split; [|done]. eapply represents_push; [done| |done|by eapply Hle|done]. by rewrite Ef.
Qed.

Lemma is_builtin_activated_represents m s b n : represents m s → n < not_active →
  is_builtin_activated m b n = stack_is_activated s b n.
Proof.
  intros Hrep Hn. unfold is_builtin_activated. apply eq_bool_prop_intro.
  pose proof (rep_entries _ _ Hrep) as [Hl Hin Hnd].
  assert (stack_is_activated s b n ↔ ∃ a, a ∈ s ∧ act_feature a = b ∧ act_block a ≤ n) as ->.
  { unfold stack_is_activated. rewrite existb_True, Exists_exists.
    setoid_rewrite andb_True. setoid_rewrite bool_decide_spec.
    setoid_rewrite Is_true_true. setoid_rewrite Z.leb_le. done. }
  split.
  - destruct (builtin_protocol_features m !! feature_index b) as [e|] eqn:He; [|done].
    intros Hle%Is_true_true%Z.leb_le. destruct (decide (b ∈ act_feature <$> s)) as [Hb|Hb].
    + apply list_elem_of_fmap in Hb as (a & -> & Ha). exists a. split_and!; [done..|].
      destruct (linked_lookup _ _ _ Hl Ha) as [p Hp]. rewrite He in Hp. by injection Hp as ->.
    + rewrite <-elem_of_indices in Hb. rewrite (Hin _ _ He Hb) in Hle. cbn in Hle. lia.
  - intros (a & Ha & <- & Hle). destruct (linked_lookup _ _ _ Hl Ha) as [p ->]. cbn.
    by apply Is_true_true, Z.leb_le.
Qed.

(** The stack determines the manager. *)
Lemma entries_ok_unique es es' s : entries_ok es s → entries_ok es' s → length es = length es' → es = es'.
Proof.
  intros [Hl Hin _] [Hl' Hin' _] Hlen. apply list_eq_same_length with (length es); [done|done|].
  intros i x y Hi Hx Hy. destruct (decide (i ∈ indices s)) as [Hs|Hs].
  - clear Hin Hin'. induction s as [|a s IH]; [by apply elem_of_nil in Hs|].
    destruct Hl as [Ha Hl], Hl' as [Ha' Hl'].
    rewrite fmap_cons in Hs. apply elem_of_cons in Hs as [->|Hs]; [congruence|by apply IH].
  - by rewrite (Hin i x Hx Hs), (Hin' i y Hy Hs).
Qed.

Lemma represents_unique m m' s : represents m s → represents m' s → feature_set m = feature_set m' → m = m'.
Proof.
  intros H1 H2 E. pose proof (rep_length _ _ H1) as L1. pose proof (rep_length _ _ H2) as L2. rewrite E in L1.
  destruct H1 as [_ _ I1 D1 A1 E1 _ _ _], H2 as [_ _ I2 D2 A2 E2 _ _ _].
  destruct m, m'; cbn in *. subst. f_equal. apply (entries_ok_unique _ _ s); [done..|congruence].
Qed.

(** *** Sequences of operations *)

Inductive feature_op := Activate (d : digest) (block_num : Z) | PoppedBlocksTo (block_num : Z).

(** One call on the manager: an exception leaves it as it is. *)
Definition step_feature (m : protocol_feature_manager) (op : feature_op) :
    option (protocol_feature_manager * result exn unit) :=
  match op with
  | Activate d n =>
      match activate_feature m d n with Ok m' => Some (m', Ok tt) | Throw e => Some (m, Throw e) end
  | PoppedBlocksTo n =>
      r ← popped_blocks_to m n;
      Some (match r with Ok m' => (m', Ok tt) | Throw e => (m, Throw e) end)
  end.

Definition step_stack (pfs : protocol_feature_set) (s : list activation) (op : feature_op) :
    list activation * result exn unit :=
  match op with
  | Activate d n =>
      match stack_activate pfs s d n with Ok s' => (s', Ok tt) | Throw e => (s, Throw e) end
  | PoppedBlocksTo n => (stack_pop s n, Ok tt)
  end.

Fixpoint run_manager (m : protocol_feature_manager) (ops : list feature_op) :
    option (protocol_feature_manager * list (result exn unit)) :=
  match ops with
  | [] => Some (m, [])
  | op :: ops =>
      r ← step_feature m op;
      r' ← run_manager r.1 ops;
      Some (r'.1, r.2 :: r'.2)
  end.

Fixpoint run_stack (pfs : protocol_feature_set) (s : list activation) (ops : list feature_op) :
    list activation * list (result exn unit) :=
  match ops with
  | [] => (s, [])
  | op :: ops =>
      let r := step_stack pfs s op in
      let r' := run_stack pfs r.1 ops in
      (r'.1, r.2 :: r'.2)
  end.

Definition op_in_range (op : feature_op) : Prop :=
  match op with Activate _ n => n < not_active | PoppedBlocksTo _ => True end.

Lemma step_feature_represents m s op : represents m s → op_in_range op → ∃ m',
  step_feature m op = Some (m', (step_stack (feature_set m) s op).2) ∧
  represents m' (step_stack (feature_set m) s op).1 ∧ feature_set m' = feature_set m.
Proof.
  intros Hrep Hr. destruct op as [d n|n]; cbn.
  - pose proof (activate_feature_represents m s d n Hrep Hr) as H.
    destruct (activate_feature m d n), (stack_activate _ s d n); try done; cbn.
    + by eexists.
    + subst. by exists m.
  - destruct (popped_blocks_to_represents m s n Hrep) as (m' & -> & ? & ?). cbn. by exists m'.
Qed.

Lemma run_manager_represents m s ops : represents m s → Forall op_in_range ops → ∃ m',
  run_manager m ops = Some (m', (run_stack (feature_set m) s ops).2) ∧
  represents m' (run_stack (feature_set m) s ops).1 ∧ feature_set m' = feature_set m.
Proof.
  intros Hrep Hops. revert m s Hrep. induction Hops as [|op ops Hop Hops IH]; intros m s Hrep; cbn.
  - by exists m.
  - destruct (step_feature_represents m s op Hrep Hop) as (m1 & -> & H1 & E1). cbn.
    destruct (IH m1 _ H1) as (m2 & -> & H2 & E2). cbn. rewrite E1 in *.
    exists m2. split_and!; [done..|congruence].
Qed.

Lemma fresh_represents pfs : indexed pfs → represents (set_initialized (make_manager pfs) true) [].
Proof.
  intros Hset. split; cbn; try done; [apply length_replicate|split; [done| |constructor]|constructor].
  intros i e [-> _]%lookup_replicate _. done.
Qed.

(** The active features are in the order of their activation, as the searches by block
    number need. *)
Lemma activated_sorted m s : represents m s →
  StronglySorted (λ x y, x.2 ≤ y.2) (activated_protocol_features m).
Proof.
  intros Hrep. rewrite (rep_activated _ _ Hrep). pose proof (rep_sorted _ _ Hrep) as Hs. clear Hrep.
  induction s as [|a s IH]; [constructor|]. apply StronglySorted_inv in Hs as [Hs Ha].
  rewrite fmap_cons, reverse_cons. apply StronglySorted_app_2; [|by apply IH|by repeat constructor].
  intros x y Hx [->|[]%elem_of_nil]%elem_of_cons. rewrite elem_of_reverse in Hx.
  apply list_elem_of_fmap in Hx as (a' & -> & Ha'). rewrite Forall_forall in Ha. by apply Ha.
Qed.

(** C28: the manager implements a stack: from the initialised manager of a set of features,
    any sequence of activations and of returns to earlier blocks ends (neither an index
    out of range nor a loop in the threaded list is met), gives at each call the outcome
    the stack gives, and answers every query as the stack does. *)
Theorem manager_refines_stack digest_from_hex hash_feature pfs ops :
  feature_sets digest_from_hex hash_feature pfs → Forall op_in_range ops → ∃ m,
  run_manager (init (make_manager pfs) []).1 ops = Some (m, (run_stack pfs [] ops).2) ∧
  activated_protocol_features m =
    reverse ((λ a, (act_digest a, act_block a)) <$> (run_stack pfs [] ops).1) ∧
  ∀ b n, n < not_active →
    is_builtin_activated m b n = stack_is_activated (run_stack pfs [] ops).1 b n.
Proof.
  intros Hset%feature_sets_ok%ok_feature Hops.
  destruct (run_manager_represents _ [] ops (fresh_represents pfs Hset) Hops) as (m & Hrun & Hrep & _).
  exists m. split_and!; [done|apply (rep_activated _ _ Hrep)|].
  intros b n Hn. by apply is_builtin_activated_represents.
Qed.

(** *** A concrete instance *)

Definition sample_hash (t : Z) (description : digest) (deps : gset digest)
    (f : builtin_protocol_feature_t) : digest := Merkle.Digest (Z.of_nat (feature_index f) + 1) t 0 0.
Definition sample_hex (s : string) : digest := Merkle.zero_digest.

(** The features that nodes add by default, without the dependency resolution of files *)
Definition sample_feature (f : builtin_protocol_feature_t) : builtin_protocol_feature :=
  match make_default_builtin_protocol_feature sample_hex f
          (λ b, Ok (sample_hash 0 Merkle.zero_digest ∅ b)) with
  | Ok bf => bf
  | Throw _ => MkBuiltin Merkle.zero_digest ∅ default_restrictions f "none"
  end.

Definition sample_add (pfs : protocol_feature_set) (f : builtin_protocol_feature_t) :
    result exn protocol_feature_set :=
  r ← add_feature sample_hex sample_hash pfs (sample_feature f); Ok r.1.

Definition sample_set : protocol_feature_set :=
  match foldM sample_add empty_feature_set all_features with Ok s => s | Throw _ => empty_feature_set end.

Lemma sample_set_built : foldM sample_add empty_feature_set all_features = Ok sample_set.
Proof. vm_compute. reflexivity. Qed.

Lemma sample_set_reachable : feature_sets sample_hex sample_hash sample_set.
Proof.
  refine (foldM_ind (feature_sets sample_hex sample_hash) sample_add _ all_features _ (set_empty _ _) _
    sample_set_built).
  intros pfs f pfs' Hpfs _ Hadd. apply bind_Ok in Hadd as ([pfs1 pf] & Hadd & E). injection E as <-.
  by eapply set_add.
Qed.

Definition sample_digest (f : builtin_protocol_feature_t) : digest := sample_hash 0 Merkle.zero_digest ∅ f.

Lemma recognized_features_wf_witness :
  ∃ f, recognized sample_set !! sample_digest no_duplicate_deferred_id = Some f ∧
    sample_digest replace_deferred ∈ dependencies f ∧ size (recognized sample_set) = 13%nat ∧
    is_Some (recognized sample_set !! sample_digest replace_deferred) ∧
    ¬ depends sample_set (sample_digest get_sender) (sample_digest get_sender).
Proof.
  destruct (recognized_features_wf sample_hex sample_hash sample_set sample_set_reachable)
    as (Hwf & Hrec & _ & _).
  destruct (recognized sample_set !! sample_digest no_duplicate_deferred_id) as [f|] eqn:E;
    [|vm_compute in E; discriminate].
  exists f. split; [reflexivity|].
  assert (sample_digest replace_deferred ∈ dependencies f) as Hd.
  { vm_compute in E. injection E as <-. vm_compute. reflexivity. }
  split; [exact Hd|]. split; [vm_compute; reflexivity|]. split.
  - apply (Hrec _ (sample_digest no_duplicate_deferred_id)). exists f. split; [exact E|exact Hd].
  - intros Hc. assert (∀ x, Acc (depends sample_set) x → x = sample_digest get_sender → False) as Hno.
    { intros x. induction 1 as [x _ IH]. intros ->. by apply (IH _ Hc). }
    by apply (Hno _ (Hwf (sample_digest get_sender))).
Defined.

Definition sample_ops : list feature_op :=
  [Activate (sample_digest preactivate_feature) 5; Activate (sample_digest get_sender) 9;
   Activate (sample_digest get_sender) 9; Activate (sample_digest webauthn_key) 10; PoppedBlocksTo 8].

Lemma manager_refines_stack_witness :
  Forall op_in_range sample_ops ∧ ∃ m,
    run_manager (init (make_manager sample_set) []).1 sample_ops =
      Some (m, [Ok tt; Ok tt; Throw protocol_feature_exception; Ok tt; Ok tt]) ∧
    is_builtin_activated m preactivate_feature 7 = true ∧ is_builtin_activated m get_sender 20 = false.
Proof.
  assert (Forall op_in_range sample_ops) as Hops by (repeat constructor; vm_compute; reflexivity).
  split; [exact Hops|].
  destruct (manager_refines_stack sample_hex sample_hash sample_set sample_ops sample_set_reachable Hops)
    as (m & Hm & _ & Hq).
  exists m. split; [|split].
  - rewrite Hm. vm_compute. reflexivity.
  - rewrite Hq by reflexivity. vm_compute. reflexivity.
  - rewrite Hq by reflexivity. vm_compute. reflexivity.
Defined.
End ProtocolFeatures.
