(* ===== verification/FeatureActivation.v ===== *)
(** * Activation of protocol features on the chain

    Module [WhitelistedIntrinsics]: the whitelist of intrinsics
    ([whitelisted_intrinsics.cpp]), a multimap from hashes to names.
    Module [FeatureActivation]: what [controller.cpp] does with features: the validation of
    the features of a block ([check_protocol_features]), preactivation by a contract
    ([preactivate_feature]), the activation at the start of a block with the handlers of
    the single features ([start_block], [on_activation]), and the return to an earlier block
    ([pop_block], [abort_block]).  [hash_string] is [std::hash], whose values the standard
    does not fix. *)

From S2P Require Import Prelude.
From S2P Require Import Exceptions.
From S2P Require Import Merkle.
From S2P Require Import Database.
From S2P Require Import ResourceLimits.
From S2P Require Import BlockHeader.
From S2P Require Import ProtocolFeatures.

Local Open Scope Z_scope.

Module WhitelistedIntrinsics.
Section whitelist.
Context (hash_string : string → Z).

(** [whitelisted_intrinsics_type], a flat multimap: ordered by hash, equal ones in the
    order of insertion.  An iterator is an index, the end iterator [None]. *)
Notation whitelist := (list (Z * string)).

(** [emplace] of the multimap, at the upper bound of the key *)
Fixpoint emplace (l : whitelist) (h : Z) (name : string) : whitelist :=
  match l with
  | [] => [(h, name)]
  | e :: l' => if h <? e.1 then (h, name) :: l else e :: emplace l' h name
  end.

(** [lower_bound] of the multimap *)
Fixpoint lower_bound (l : whitelist) (h : Z) : nat :=
  match l with
  | [] => 0
  | e :: l' => if e.1 <? h then S (lower_bound l' h) else 0
  end.

(** [i] is the index of the head of [l]. *)
Fixpoint find_intrinsic_helper (h : Z) (name : string) (i : nat) (l : whitelist) : option nat :=
  match l with
  | [] => None
  | e :: l' =>
      if e.1 =? h
      then if bool_decide (e.2 = name) then Some i else find_intrinsic_helper h name (S i) l'
      else None
  end.

Definition find_intrinsic (l : whitelist) (h : Z) (name : string) : option nat :=
  let i := lower_bound l h in find_intrinsic_helper h name i (drop i l).

Definition is_intrinsic_whitelisted (l : whitelist) (name : string) : bool :=
  let h := u64 (hash_string name) in
  let i := lower_bound l h in
  bool_decide (is_Some (find_intrinsic_helper h name i (drop i l))).

Definition add_intrinsic_to_whitelist (l : whitelist) (name : string) : result exn whitelist :=
  let h := u64 (hash_string name) in
  _ ← assert_that (bool_decide (find_intrinsic l h name = None)) database_exception;
  Ok (emplace l h name).

Definition remove_intrinsic_from_whitelist (l : whitelist) (name : string) : result exn whitelist :=
  let h := u64 (hash_string name) in
  match find_intrinsic l h name with
  | None => Throw database_exception
  | Some i => Ok (delete i l)
  end.

Definition reset_intrinsic_whitelist (s : gset string) : whitelist :=
  foldl (λ l name, emplace l (u64 (hash_string name)) name) [] (elements s).

Definition convert_intrinsic_whitelist_to_set (l : whitelist) : gset string :=
  list_to_set (snd <$> l).

(** ** The whitelist is a set of names *)

Record whitelist_ok (l : whitelist) : Prop := {
  wl_sorted : StronglySorted (λ x y, x.1 ≤ y.1) l;
  wl_hash : Forall (λ e, e.1 = u64 (hash_string e.2)) l;
  wl_nodup : NoDup l }.

Lemma elem_of_names l name : whitelist_ok l →
  name ∈ convert_intrinsic_whitelist_to_set l ↔ (u64 (hash_string name), name) ∈ l.
Proof.
  intros Hok. unfold convert_intrinsic_whitelist_to_set. rewrite elem_of_list_to_set, list_elem_of_fmap. split.
  - intros ([h n] & -> & Hin). pose proof (wl_hash _ Hok) as Hh. rewrite Forall_forall in Hh.
    specialize (Hh _ Hin). cbn in *. by subst.
  - intros Hin. by exists (u64 (hash_string name), name).
Qed.

Lemma emplace_perm l h name : emplace l h name ≡ₚ (h, name) :: l.
Proof.
  induction l as [|e l IH]; [done|]. cbn. destruct (h <? e.1); [done|].
  rewrite IH. apply Permutation_swap.
Qed.

Lemma emplace_ok l name : whitelist_ok l → (u64 (hash_string name), name) ∉ l →
  whitelist_ok (emplace l (u64 (hash_string name)) name).
Proof.
  intros [Hs Hh Hn] Hni. split.
  - clear Hh Hn Hni. induction Hs as [|e l Hs IH He]; [by repeat constructor|]. cbn.
    destruct (Z.ltb_spec (u64 (hash_string name)) e.1) as [Hlt|Hge].
    + constructor; [by constructor|]. constructor; [cbn; lia|].
      eapply Forall_impl; [exact He|]. cbn. lia.
    + constructor; [done|]. rewrite emplace_perm. by constructor.
  - rewrite emplace_perm. by constructor.
  - rewrite emplace_perm. by constructor.
Qed.

(** The search meets the name when it is there, past any other with the same hash. *)
Lemma find_helper_spec h name i l : StronglySorted (λ x y, x.1 ≤ y.1) l → Forall (λ e, h ≤ e.1) l →
  match find_intrinsic_helper h name i l with
  | Some j => (i ≤ j)%nat ∧ l !! (j - i)%nat = Some (h, name)
  | None => (h, name) ∉ l
  end.
Proof.
  intros Hs. revert i. induction Hs as [|e l Hs IH He]; intros i Hl; [apply not_elem_of_nil|].
  apply Forall_cons in Hl as [Hle Hl]. cbn. destruct (Z.eqb_spec e.1 h) as [E|Hne].
  - case_bool_decide as En.
    + split; [done|]. rewrite Nat.sub_diag. destruct e; cbn in *; congruence.
    + specialize (IH (S i) Hl). destruct (find_intrinsic_helper h name (S i) l) as [j|].
      * destruct IH as [Hj Hl']. split; [lia|]. by replace (j - i)%nat with (S (j - S i)) by lia.
      * apply not_elem_of_cons. split; [|done]. intros <-. done.
  - apply not_elem_of_cons. split; [by intros <-|]. intros Hin. rewrite Forall_forall in He.
    specialize (He _ Hin). cbn in He. lia.
Qed.

Lemma lower_bound_split l h : StronglySorted (λ x y, x.1 ≤ y.1) l →
  Forall (λ e, e.1 < h) (take (lower_bound l h) l) ∧ Forall (λ e, h ≤ e.1) (drop (lower_bound l h) l).
Proof.
  induction 1 as [|e l Hs [IH1 IH2] He]; [done|]. cbn. destruct (Z.ltb_spec e.1 h) as [Hlt|Hge].
  - split; [by constructor|done].
  - split; [constructor|]. cbn. constructor; [done|]. eapply Forall_impl; [exact He|]. cbn. lia.
Qed.

Lemma find_intrinsic_spec l h name : StronglySorted (λ x y, x.1 ≤ y.1) l →
  match find_intrinsic l h name with
  | Some i => l !! i = Some (h, name)
  | None => (h, name) ∉ l
  end.
Proof.
  intros Hs. destruct (lower_bound_split l h Hs) as [Hlo Hhi]. unfold find_intrinsic.
  set (i := lower_bound l h) in *.
  assert (StronglySorted (λ x y, x.1 ≤ y.1) (drop i l)) as Hd.
  { rewrite <-(take_drop i l) in Hs. by apply StronglySorted_app_1_r in Hs. }
  pose proof (find_helper_spec h name i (drop i l) Hd Hhi) as Hspec.
  destruct (find_intrinsic_helper h name i (drop i l)) as [j|].
  - destruct Hspec as [Hj Hl]. rewrite lookup_drop in Hl. by replace (i + (j - i))%nat with j in Hl by lia.
  - rewrite <-(take_drop i l). intros [Hin|Hin]%elem_of_app; [|done].
    rewrite Forall_forall in Hlo. specialize (Hlo _ Hin). cbn in Hlo. lia.
Qed.

Lemma reset_ok s : whitelist_ok (reset_intrinsic_whitelist s) ∧
  convert_intrinsic_whitelist_to_set (reset_intrinsic_whitelist s) = s.
Proof.
  unfold reset_intrinsic_whitelist.
  assert (∀ l acc, whitelist_ok acc → NoDup l → (∀ n, n ∈ l → n ∉ convert_intrinsic_whitelist_to_set acc) →
    whitelist_ok (foldl (λ l name, emplace l (u64 (hash_string name)) name) acc l) ∧
    convert_intrinsic_whitelist_to_set (foldl (λ l name, emplace l (u64 (hash_string name)) name) acc l)
      = list_to_set l ∪ convert_intrinsic_whitelist_to_set acc) as Hgen.
  { induction l as [|n l IH]; intros acc Hacc Hnd Hni; cbn [foldl].
    - split; [done|]. by rewrite list_to_set_nil, union_empty_l_L.
    - apply NoDup_cons in Hnd as [Hn Hnd].
      assert ((u64 (hash_string n), n) ∉ acc) as Hna.
      { rewrite <-elem_of_names by done. apply Hni. by left. }
      assert (convert_intrinsic_whitelist_to_set (emplace acc (u64 (hash_string n)) n)
        = {[n]} ∪ convert_intrinsic_whitelist_to_set acc) as E.
      { unfold convert_intrinsic_whitelist_to_set. by rewrite emplace_perm. }
      destruct (IH (emplace acc (u64 (hash_string n)) n)) as [H1 H2]; [by apply emplace_ok|done| |].
      + intros x Hx. rewrite E, not_elem_of_union, not_elem_of_singleton. split; [by intros ->|].
        apply Hni. by right.
      + split; [done|]. rewrite H2, E, list_to_set_cons. rewrite !assoc_L by apply _.
        by rewrite (comm_L (∪) (list_to_set l)). }
  destruct (Hgen (elements s) []) as [H1 H2].
  - split; constructor.
  - apply NoDup_elements.
  - intros n _. cbn. apply not_elem_of_empty.
  - split; [done|]. rewrite H2, list_to_set_elements_L. cbn. by rewrite union_empty_r_L.
Qed.

Lemma delete_ok l i h name : whitelist_ok l → l !! i = Some (h, name) → whitelist_ok (delete i l).
Proof.
  intros [Hs Hh Hn] Hi. pose proof (delete_Permutation _ _ _ Hi) as Hp. split.
  - rewrite delete_take_drop. rewrite <-(take_drop_middle _ _ _ Hi) in Hs.
    clear -Hs. revert Hs. generalize (take i l) as k. induction k as [|e k IH]; cbn.
    + by intros [? _]%StronglySorted_inv.
    + intros [Hs He]%StronglySorted_inv. constructor; [by apply IH|].
      apply Forall_app in He as [? [_ ?]%Forall_cons]. by apply Forall_app.
  - rewrite Hp in Hh. by apply Forall_cons in Hh as [_ ?].
  - rewrite Hp in Hn. by apply NoDup_cons in Hn as [_ ?].
Qed.

Lemma delete_names l i name : whitelist_ok l → l !! i = Some (u64 (hash_string name), name) →
  convert_intrinsic_whitelist_to_set (delete i l) = convert_intrinsic_whitelist_to_set l ∖ {[name]}.
Proof.
  intros Hok Hi. pose proof (delete_ok _ _ _ _ Hok Hi) as Hok'.
  pose proof (delete_Permutation _ _ _ Hi) as Hp. pose proof (wl_nodup _ Hok) as Hn.
  rewrite Hp in Hn. apply NoDup_cons in Hn as [Hn _]. apply set_eq. intros x.
  rewrite elem_of_difference, elem_of_singleton, !elem_of_names by done.
  assert (∀ e, e ∈ l ↔ e = (u64 (hash_string name), name) ∨ e ∈ delete i l) as Hin.
  { intros e. by rewrite Hp at 1; rewrite elem_of_cons. }
  rewrite Hin. split.
  - intros Hx. split; [by right|]. by intros ->.
  - intros [[E|Hx] Hne]; [by injection E|done].
Qed.

(** The whitelist of intrinsics, a multimap searched by hash, is a set of names whatever
    the hashes and their collisions: looking up, adding and removing a name are the
    operations of the set, adding fails exactly for a name that is there, removing exactly
    for one that is not, and the reset from a set gives that set. *)
Theorem intrinsic_whitelist_is_set l name : whitelist_ok l →
  let s := convert_intrinsic_whitelist_to_set l in
  is_intrinsic_whitelisted l name = bool_decide (name ∈ s) ∧
  match add_intrinsic_to_whitelist l name with
  | Ok l' => name ∉ s ∧ whitelist_ok l' ∧ convert_intrinsic_whitelist_to_set l' = {[name]} ∪ s
  | Throw e => e = database_exception ∧ name ∈ s
  end ∧
  match remove_intrinsic_from_whitelist l name with
  | Ok l' => name ∈ s ∧ whitelist_ok l' ∧ convert_intrinsic_whitelist_to_set l' = s ∖ {[name]}
  | Throw e => e = database_exception ∧ name ∉ s
  end ∧
  ∀ s', whitelist_ok (reset_intrinsic_whitelist s') ∧
    convert_intrinsic_whitelist_to_set (reset_intrinsic_whitelist s') = s'.
Proof.
  intros Hok s. pose proof (find_intrinsic_spec l (u64 (hash_string name)) name (wl_sorted _ Hok)) as Hf.
  change (is_intrinsic_whitelisted l name)
    with (bool_decide (is_Some (find_intrinsic l (u64 (hash_string name)) name))).
  unfold add_intrinsic_to_whitelist, remove_intrinsic_from_whitelist.
  pose proof (elem_of_names l name Hok) as Hs. fold s in Hs.
  destruct (find_intrinsic l (u64 (hash_string name)) name) as [i|]; cbn.
  - assert (name ∈ s) as Hin by (apply Hs; by eapply list_elem_of_lookup_2).
    split_and!; [|done|done|done|by eapply delete_ok|by eapply delete_names|apply reset_ok].
    by rewrite !bool_decide_eq_true_2.
  - assert (name ∉ s) as Hni by (by rewrite Hs).
    split_and!; [|done|by apply emplace_ok| |done|done|apply reset_ok].
    + by rewrite bool_decide_eq_false_2.
    + unfold s, convert_intrinsic_whitelist_to_set. by rewrite emplace_perm.
Qed.
End whitelist.

(** Two names with the same hash *)
Definition colliding_hash (s : string) : Z := 7.

Lemma intrinsic_whitelist_is_set_witness :
  let l := reset_intrinsic_whitelist colliding_hash {["get_sender"; "is_feature_activated"]} in
  is_intrinsic_whitelisted colliding_hash l "get_sender" = true ∧
  is_intrinsic_whitelisted colliding_hash l "preactivate_feature" = false ∧ length l = 2%nat.
Proof.
  intros l. assert (whitelist_ok colliding_hash l) as Hok by apply reset_ok.
  split; [|split; [|vm_compute; reflexivity]].
  - rewrite (proj1 (intrinsic_whitelist_is_set colliding_hash l "get_sender" Hok)). vm_compute. reflexivity.
  - rewrite (proj1 (intrinsic_whitelist_is_set colliding_hash l "preactivate_feature" Hok)).
    vm_compute. reflexivity.
Defined.
End WhitelistedIntrinsics.

Module FeatureActivation.
Import ProtocolFeatures.

Record protocol_state_object := MkProtocolState {
  ps_activated : list (digest * Z);
  ps_preactivated : list digest;
  whitelisted_intrinsics : list (Z * string);
  num_supported_key_types : Z }.

(** What the handlers of features read and write of the state database: the rows of
    [account_ram_correction_object] are in the order of their identifiers. *)
Record feature_db := MkFeatureDb {
  pso : protocol_state_object;
  ram_corrections : list (Z * Z);
  resources : ResourceLimits.manager }.

Section activation.
Context (hash_string : string → Z).

(** ** Validation and preactivation *)

(** The loop of [check_protocol_features]; [before] holds the features up to [itr]. *)
Fixpoint check_features (pfs : protocol_feature_set) (timestamp : Z) (current : gset digest)
    (before new_features : list digest) : result exn unit :=
  match new_features with
  | [] => Ok tt
  | f :: l =>
      _ ← match is_recognized pfs f timestamp with
          | unrecognized | disabled | too_early => Throw protocol_feature_exception
          | ready => Ok tt
          end;
      _ ← assert_that (bool_decide (f ∉ current)) protocol_feature_exception;
      let dependency_checker d := bool_decide (d ∈ current) || bool_decide (d ∈ before) in
      _ ← assert_that (validate_dependencies pfs f dependency_checker) protocol_feature_exception;
      check_features pfs timestamp current (before ++ [f]) l
  end.

Definition check_protocol_features (pfs : protocol_feature_set) (timestamp : Z)
    (current : gset digest) (new_features : list digest) : result exn unit :=
  check_features pfs timestamp current [] new_features.

(** [pending_state::is_protocol_feature_activated] while the block is built: the features
    of the previous block and the first [num_activated] new ones *)
Definition is_protocol_feature_activated (prev : gset digest) (new_activations : list digest)
    (num_activated : nat) (d : digest) : bool :=
  if bool_decide (d ∈ prev) then true
  else if (num_activated =? 0)%nat then false
  else bool_decide (d ∈ take num_activated new_activations).

Definition preactivate (pfs : protocol_feature_set) (pending_block_time : Z)
    (is_producing_block : bool) (is_activated : digest → bool) (ps : protocol_state_object)
    (d : digest) : result exn protocol_state_object :=
  _ ← match is_recognized pfs d pending_block_time with
      | unrecognized | disabled | too_early =>
          Throw (if is_producing_block then subjective_block_production_exception
                 else protocol_feature_bad_block_exception)
      | ready => Ok tt
      end;
  _ ← assert_that (negb (is_activated d)) protocol_feature_exception;
  _ ← assert_that (bool_decide (d ∉ ps_preactivated ps)) protocol_feature_exception;
  let dependency_checker x := is_activated x || bool_decide (x ∈ ps_preactivated ps) in
  _ ← assert_that (validate_dependencies pfs d dependency_checker) protocol_feature_exception;
  Ok (MkProtocolState (ps_activated ps) (ps_preactivated ps ++ [d]) (whitelisted_intrinsics ps)
        (num_supported_key_types ps)).

(** ** The handlers of the features *)

Definition whitelist_intrinsic (name : string) (ps : protocol_state_object) :
    result exn protocol_state_object :=
  l ← WhitelistedIntrinsics.add_intrinsic_to_whitelist hash_string (whitelisted_intrinsics ps) name;
  Ok (MkProtocolState (ps_activated ps) (ps_preactivated ps) l (num_supported_key_types ps)).

(** [on_activation] of [preactivate_feature], [get_sender], [webauthn_key] and
    [wtmsig_block_signatures] *)
Definition on_activation_pso (f : builtin_protocol_feature_t) (ps : protocol_state_object) :
    result exn protocol_state_object :=
  match f with
  | preactivate_feature =>
      ps ← whitelist_intrinsic "preactivate_feature" ps;
      whitelist_intrinsic "is_feature_activated" ps
  | get_sender => whitelist_intrinsic "get_sender" ps
  | webauthn_key =>
      Ok (MkProtocolState (ps_activated ps) (ps_preactivated ps) (whitelisted_intrinsics ps) 3)
  | wtmsig_block_signatures => whitelist_intrinsic "set_proposed_producers_ex" ps
  | _ => Ok ps
  end.

(** [on_activation<replace_deferred>]: the loop over the corrections, which it removes *)
Fixpoint correct_ram_usage (corrections : list (Z * Z)) (r : ResourceLimits.manager) :
    result exn ResourceLimits.manager :=
  match corrections with
  | [] => Ok r
  | (name, ram_correction) :: l =>
      current_ram_usage ← ResourceLimits.get_account_ram_usage r name;
      let ram_delta := s64 (- s64 ram_correction) in
      let ram_delta := if u64 current_ram_usage <? ram_correction
                       then s64 (- current_ram_usage) else ram_delta in
      r ← ResourceLimits.add_pending_ram_usage r name ram_delta;
      correct_ram_usage l r
  end.

Definition trigger_activation_handler (f : builtin_protocol_feature_t) (db : feature_db) :
    result exn feature_db :=
  match f with
  | replace_deferred =>
      r ← correct_ram_usage (ram_corrections db) (resources db);
      Ok (MkFeatureDb (pso db) [] r)
  | _ =>
      ps ← on_activation_pso f (pso db);
      Ok (MkFeatureDb ps (ram_corrections db) (resources db))
  end.

(** [controller::add_to_ram_correction] *)
Fixpoint add_to_ram_correction (corrections : list (Z * Z)) (account ram_bytes : Z) : list (Z * Z) :=
  match corrections with
  | [] => [(account, ram_bytes)]
  | (name, c) :: l =>
      if name =? account then (name, u64 (c + ram_bytes)) :: l
      else (name, c) :: add_to_ram_correction l account ram_bytes
  end.

(** ** Activation at the start of a block *)

(** The loop of [start_block] over the new features: the features that were preactivated,
    each with whether it has been activated, how many of them have been, and how many new
    features have been.  The manager is not part of the database session: it keeps what it
    activated before an exception. *)
Fixpoint activate_new (block_num : Z) (l : list digest) (activated : gmap digest bool)
    (num_preactivated num_new : nat) (m : protocol_feature_manager) (db : feature_db) :
    protocol_feature_manager * result exn (nat * nat * feature_db) :=
  match l with
  | [] => (m, Ok (num_preactivated, num_new, db))
  | d :: l =>
      let step :=
        f ← get_protocol_feature (feature_set m) d;
        num ← match activated !! d with
              | None =>
                  _ ← assert_that (negb (pf_preactivation_required f)) protocol_feature_exception;
                  Ok num_preactivated
              | Some was_activated =>
                  _ ← assert_that (negb was_activated) block_validate_exception;
                  Ok (S num_preactivated)
              end;
        db ← match builtin_feature f with
             | Some b => trigger_activation_handler b db
             | None => Ok db
             end;
        m ← activate_feature m d block_num;
        Ok (num, db, m) in
      match step with
      | Throw e => (m, Throw e)
      | Ok (num, db, m) => activate_new block_num l (<[d := true]> activated) num (S num_new) m db
      end
  end.

(** The part of [start_block] from the reading of the [protocol_state_object] to its
    modification *)
Definition start_activation (block_num : Z) (new_activations : list digest)
    (m : protocol_feature_manager) (db : feature_db) :
    protocol_feature_manager * result exn (nat * feature_db) :=
  let num_preactivated := length (ps_preactivated (pso db)) in
  if (length new_activations =? 0)%nat then
    (m, _ ← assert_that (num_preactivated =? 0)%nat block_validate_exception; Ok (0%nat, db))
  else
    let activated := list_to_map ((λ d, (d, false)) <$> ps_preactivated (pso db)) in
    match activate_new block_num new_activations activated 0 0 m db with
    | (m, Throw e) => (m, Throw e)
    | (m, Ok (num, num_new, db)) =>
        (m, _ ← assert_that ((num_preactivated =? 0) || (num =? num_preactivated))%nat
                  block_validate_exception;
            Ok (num_new, MkFeatureDb
              (MkProtocolState
                (ps_activated (pso db) ++ ((λ d, (d, block_num)) <$> new_activations)) []
                (whitelisted_intrinsics (pso db)) (num_supported_key_types (pso db)))
              (ram_corrections db) (resources db)))
    end.

(** The same with [guard_pending]: after an exception the manager returns to the head and
    the session of the database is undone.  The block has the next number. *)
Definition start_block_features (head_block_num : Z) (new_activations : list digest)
    (m : protocol_feature_manager) (db : feature_db) :
    option (protocol_feature_manager * result exn (nat * feature_db)) :=
  match start_activation (u32 (head_block_num + 1)) new_activations m db with
  | (m, Ok r) => Some (m, Ok r)
  | (m, Throw e) =>
      r ← popped_blocks_to m head_block_num;
      match r with
      | Ok m => Some (m, Throw e)
      | Throw _ => None
      end
  end.

(** ** What the activation of a block does *)

Lemma on_activation_keeps f ps ps' : on_activation_pso f ps = Ok ps' →
  ps_activated ps' = ps_activated ps ∧ ps_preactivated ps' = ps_preactivated ps.
Proof.
  assert (∀ n ps ps', whitelist_intrinsic n ps = Ok ps' →
    ps_activated ps' = ps_activated ps ∧ ps_preactivated ps' = ps_preactivated ps) as Hw.
  { unfold whitelist_intrinsic. intros n p p' H. by inv_ok. }
  destruct f; cbn; try (intros H; injection H as <-; done); try apply Hw.
  intros (p & [H1 H2]%Hw & [-> ->]%Hw)%bind_Ok. done.
Qed.

Lemma trigger_keeps f db db' : trigger_activation_handler f db = Ok db' →
  ps_activated (pso db') = ps_activated (pso db) ∧ ps_preactivated (pso db') = ps_preactivated (pso db).
Proof.
  destruct (decide (f = replace_deferred)) as [->|Hne].
  - intros H. cbn in H. by inv_ok.
  - intros H. assert ((ps ← on_activation_pso f (pso db);
      Ok (MkFeatureDb ps (ram_corrections db) (resources db))) = Ok db') as H' by (by destruct f).
    apply bind_Ok in H' as (ps & Hps%on_activation_keeps & E). by injection E as <-.
Qed.

Lemma stack_activate_inv pfs s d n s' : stack_activate pfs s d n = Ok s' →
  ∃ b, s' = MkActivation b d n :: s.
Proof.
  unfold stack_activate. destruct (f ← _; _) as [b|]; [|done]. destruct (_ && _); [|done].
  intros [= <-]. by exists b.
Qed.

(** One feature: the manager pushes it, the two lists of the database stay. *)
Lemma activate_new_represents bn l : bn < not_active → ∀ acts np nn m s db m' r,
  represents m s → activate_new bn l acts np nn m db = (m', r) →
  ∃ s', represents m' (s' ++ s) ∧ feature_set m' = feature_set m ∧
    Forall (λ a, act_block a = bn) s' ∧
    ∀ np' nn' db', r = Ok (np', nn', db') →
      act_digest <$> s' = reverse l ∧ ps_activated (pso db') = ps_activated (pso db).
Proof.
  intros Hbn. induction l as [|d l IH]; intros acts np nn m s db m' r Hrep; cbn [activate_new].
  - intros [= <- <-]. exists []. split_and!; [done..|]. by intros ? ? ? [= _ _ <-].
  - set (step := mbind _ (get_protocol_feature _ d)).
    destruct step as [[[num db1] m1]|e] eqn:E; unfold step in E; clear step.
    2: { intros [= <- <-]. exists []. by split_and!. }
    intros Hrun. apply bind_Ok in E as (f & Hf & E). apply bind_Ok in E as (num' & _ & E).
    apply bind_Ok in E as (db0 & Hdb & E). apply bind_Ok in E as (m0 & Hm & E). injection E as -> <- <-.
    assert (ps_activated (pso db0) = ps_activated (pso db)) as Hps.
    { destruct (builtin_feature f); [by apply trigger_keeps in Hdb as [? _]|by injection Hdb as <-]. }
    pose proof (activate_feature_represents m s d bn Hrep Hbn) as Hact. rewrite Hm in Hact.
    destruct (stack_activate _ s d bn) as [s1|] eqn:Es; [|done]. destruct Hact as [Hrep1 Hset1].
    apply stack_activate_inv in Es as [b ->].
    destruct (IH _ _ _ _ _ _ _ _ Hrep1 Hrun) as (s' & Hrep' & Hset & Hall & Hok).
    exists (s' ++ [MkActivation b d bn]). rewrite <-(assoc_L (++)). split_and!; [done|congruence| |].
    + apply Forall_app. split; [done|]. by repeat constructor.
    + intros np' nn' db' Hr. destruct (Hok _ _ _ Hr) as [H1 H2]. split; [|congruence].
      by rewrite fmap_app, H1, reverse_cons.
Qed.

Lemma start_activation_represents bn fs m s db m' r : bn < not_active → represents m s →
  start_activation bn fs m db = (m', r) →
  ∃ s', represents m' (s' ++ s) ∧ feature_set m' = feature_set m ∧
    Forall (λ a, act_block a = bn) s' ∧
    ∀ num db', r = Ok (num, db') →
      act_digest <$> s' = reverse fs ∧
      ps_activated (pso db') = ps_activated (pso db) ++ ((λ d, (d, bn)) <$> fs).
Proof.
  intros Hbn Hrep. unfold start_activation. destruct (Nat.eqb_spec (length fs) 0) as [E|_].
  - intros [= <- <-]. exists []. split_and!; [done..|]. intros num db' H.
    apply nil_length_inv in E as ->. apply bind_Ok in H as (_ & _ & H). injection H as _ <-.
    by rewrite app_nil_r.
  - destruct (activate_new _ _ _ _ _ _ _) as [m1 [[[num nn] db1]|e]] eqn:E;
      intros [= <- <-];
      destruct (activate_new_represents bn fs Hbn _ _ _ _ _ _ _ _ Hrep E) as (s' & H1 & H2 & H3 & H4);
      exists s'; split_and!; try done.
    intros num' db' H. apply bind_Ok in H as (_ & _ & H). injection H as _ <-.
    destruct (H4 _ _ _ eq_refl) as [H5 H6]. split; [done|]. cbn. by rewrite H6.
Qed.

Lemma stack_pop_above s' s n : Forall (λ a, n < act_block a) s' → stack_pop (s' ++ s) n = stack_pop s n.
Proof.
  induction 1 as [|a s' Ha _ IH]; [done|]. cbn. by rewrite (proj2 (Z.ltb_lt _ _) Ha).
Qed.

Lemma stack_pop_below s n : Forall (λ a, act_block a ≤ n) s → stack_pop s n = s.
Proof.
  destruct 1 as [|a s Ha _]; [done|]. cbn. by rewrite (proj2 (Z.ltb_ge _ _) Ha).
Qed.

Lemma stack_pop_bound s n : StronglySorted (λ a a', act_block a' ≤ act_block a) s →
  Forall (λ a, act_block a ≤ n) (stack_pop s n).
Proof.
  induction 1 as [|a s Hs IH Ha]; [constructor|]. cbn. destruct (Z.ltb_spec n (act_block a)); [done|].
  constructor; [done|]. eapply Forall_impl; [exact Ha|]. cbn. lia.
Qed.

Lemma stack_pop_pop s n k : k ≤ n → stack_pop (stack_pop s n) k = stack_pop s k.
Proof.
  intros Hk. induction s as [|a s IH]; [done|]. cbn [stack_pop].
  destruct (Z.ltb_spec n (act_block a)) as [H1|H1].
  - rewrite IH. by rewrite (proj2 (Z.ltb_lt _ _)) by lia.
  - done.
Qed.

(** A block that cannot start leaves the manager as it was. *)
Lemma start_block_features_spec head_num fs m s db : 0 ≤ head_num → head_num + 1 < not_active →
  represents m s → Forall (λ a, act_block a ≤ head_num) s →
  ∃ m' r, start_block_features head_num fs m db = Some (m', r) ∧
    match r with
    | Throw _ => m' = m
    | Ok (num, db') => ∃ s', represents m' (s' ++ s) ∧ feature_set m' = feature_set m ∧
        Forall (λ a, act_block a = head_num + 1) s' ∧ act_digest <$> s' = reverse fs ∧
        ps_activated (pso db') = ps_activated (pso db) ++ ((λ d, (d, head_num + 1)) <$> fs)
    end.
Proof.
  intros Hh Hn Hrep Hle. unfold start_block_features. rewrite u32_id by (unfold not_active, UINT32_MAX in Hn; lia).
  destruct (start_activation _ _ _ _) as [m1 r] eqn:E.
  destruct (start_activation_represents (head_num + 1) fs m s db m1 r Hn Hrep E) as (s' & H1 & H2 & H3 & H4).
  destruct r as [[num db']|e].
  - exists m1, (Ok (num, db')). split; [done|]. destruct (H4 _ _ eq_refl) as [? ?]. by exists s'.
  - destruct (popped_blocks_to_represents m1 (s' ++ s) head_num H1) as (m2 & -> & H5 & H6). cbn.
    exists m2, (Throw e). split; [done|]. rewrite stack_pop_above, stack_pop_below in H5; [|done|].
    + apply (represents_unique _ _ s); [done..|congruence].
    + eapply Forall_impl; [exact H3|]. cbn. lia.
Qed.

(** ** Chains of blocks *)

(** A block of the current chain: its number, the activated features of its header state
    ([activated_protocol_features->protocol_features]) and the database after it, to which
    the undo of the next block returns. *)
Record chain_block := MkChainBlock {
  cb_num : Z;
  cb_activated : gset digest;
  cb_db : feature_db }.

(** The head first *)
Record node := MkNode { blocks : list chain_block; manager : protocol_feature_manager }.

(** While a block is built, contracts preactivate features; nothing else writes the two
    lists of features. *)
Definition body_step (pfs : protocol_feature_set) (is_activated : digest → bool)
    (db db' : feature_db) : Prop :=
  (∃ t producing d ps, preactivate pfs t producing is_activated (pso db) d = Ok ps ∧
     db' = MkFeatureDb ps (ram_corrections db) (resources db)) ∨
  (ps_activated (pso db') = ps_activated (pso db) ∧ ps_preactivated (pso db') = ps_preactivated (pso db)).

(** [pop_block] and [abort_block] return the manager to the head; a block is applied when
    its features passed the check of its header against those of the head. *)
Inductive node_step (pfs : protocol_feature_set) : node → node → Prop :=
  | step_block h rest m fs timestamp activated m' num db db' : cb_num h + 1 < not_active →
      check_protocol_features pfs timestamp (cb_activated h) fs = Ok tt →
      BlockHeader.extend_activation_set (cb_activated h) fs = Ok activated →
      start_block_features (cb_num h) fs m (cb_db h) = Some (m', Ok (num, db)) →
      rtc (body_step pfs (is_protocol_feature_activated (cb_activated h) fs num)) db db' →
      node_step pfs (MkNode (h :: rest) m)
        (MkNode (MkChainBlock (cb_num h + 1) activated db' :: h :: rest) m')
  | step_rejected h rest m fs m' e : cb_num h + 1 < not_active →
      start_block_features (cb_num h) fs m (cb_db h) = Some (m', Throw e) →
      node_step pfs (MkNode (h :: rest) m) (MkNode (h :: rest) m')
  | step_aborted h rest m fs m1 r m' : cb_num h + 1 < not_active →
      start_block_features (cb_num h) fs m (cb_db h) = Some (m1, Ok r) →
      popped_blocks_to m1 (cb_num h) = Some (Ok m') →
      node_step pfs (MkNode (h :: rest) m) (MkNode (h :: rest) m')
  | step_popped b h rest m m' :
      popped_blocks_to m (cb_num h) = Some (Ok m') →
      node_step pfs (MkNode (b :: h :: rest) m) (MkNode (h :: rest) m').

(** A chain that starts without features *)
Definition initial_node (pfs : protocol_feature_set) (num : Z) (db : feature_db) : node :=
  MkNode [MkChainBlock num ∅ db] (init (make_manager pfs) (ps_activated (pso db))).1.

Inductive node_reachable (pfs : protocol_feature_set) : node → Prop :=
  | node_initial num db : 0 ≤ num < not_active → ps_activated (pso db) = [] →
      NoDup (ps_preactivated (pso db)) → node_reachable pfs (initial_node pfs num db)
  | node_stepped n n' : node_reachable pfs n → node_step pfs n n' → node_reachable pfs n'.

(** Every activated feature is above its dependencies. *)
Fixpoint closed (pfs : protocol_feature_set) (s : list activation) : Prop :=
  match s with
  | [] => True
  | a :: s' => closed pfs s' ∧ ∀ f x, recognized pfs !! act_digest a = Some f → x ∈ dependencies f →
      x ∈ act_digest <$> s'
  end.

Notation pairs s := ((λ a, (act_digest a, act_block a)) <$> s).

Record block_ok (s : list activation) (b : chain_block) : Prop := {
  bo_num : 0 ≤ cb_num b < not_active;
  bo_activated : ps_activated (pso (cb_db b)) = reverse (pairs (stack_pop s (cb_num b)));
  bo_set : cb_activated b = list_to_set (act_digest <$> stack_pop s (cb_num b));
  bo_preactivated : NoDup (ps_preactivated (pso (cb_db b))) }.

Record node_ok (pfs : protocol_feature_set) (n : node) (s : list activation) : Prop := {
  no_rep : represents (manager n) s;
  no_set : feature_set (manager n) = pfs;
  no_head h : head (blocks n) = Some h → Forall (λ a, act_block a ≤ cb_num h) s;
  no_blocks : Forall (block_ok s) (blocks n);
  no_nums : StronglySorted (λ b b', cb_num b' < cb_num b) (blocks n);
  no_closed : closed pfs s }.

Lemma closed_app pfs s' s : closed pfs (s' ++ s) → closed pfs s.
Proof. induction s' as [|a s' IH]; [done|]. intros [? _]. by apply IH. Qed.

(** The check of the features of a block, in the order of their activation *)
Lemma check_features_closed pfs ts s before fs s' :
  check_features pfs ts (list_to_set (act_digest <$> s)) (act_digest <$> reverse before) fs = Ok tt →
  closed pfs (before ++ s) → act_digest <$> s' = reverse fs → closed pfs (s' ++ before ++ s).
Proof.
  revert before s'. induction fs as [|f fs IH]; intros before s' Hc Hcl Hs'.
  - by apply fmap_nil_inv in Hs' as ->.
  - rewrite reverse_cons in Hs'. apply fmap_app_inv in Hs' as (s1 & s2 & Hs1 & Hs2 & ->).
    symmetry in Hs2. apply fmap_cons_inv in Hs2 as (a & s3 & -> & Hs3 & ->).
    symmetry in Hs3. apply fmap_nil_inv in Hs3 as ->.
    cbn [check_features] in Hc. apply bind_Ok in Hc as ([] & _ & Hc).
    apply bind_Ok in Hc as ([] & _ & Hc). apply bind_Ok in Hc as ([] & Hd%assert_that_Ok & Hc).
    rewrite <-(assoc_L (++) s1). apply (IH (a :: before)); [|split; [done|]|done].
    + by rewrite reverse_cons, fmap_app.
    + intros f x Hf Hx. unfold validate_dependencies in Hd. rewrite Hf in Hd.
      rewrite forallb_forall in Hd. specialize (Hd x). rewrite fmap_app, elem_of_app.
      apply elem_of_elements, list_elem_of_In in Hx. specialize (Hd Hx).
      apply orb_true_iff in Hd as [Hd|Hd]; apply bool_decide_eq_true in Hd.
      * right. by apply elem_of_list_to_set in Hd.
      * left. apply list_elem_of_fmap in Hd as (y & -> & Hy). rewrite elem_of_reverse in Hy.
        by apply list_elem_of_fmap_2.
Qed.

Lemma body_keeps pfs is_act db db' : rtc (body_step pfs is_act) db db' →
  ps_activated (pso db') = ps_activated (pso db) ∧
  (NoDup (ps_preactivated (pso db)) → NoDup (ps_preactivated (pso db'))).
Proof.
  induction 1 as [|db db1 db' Hstep _ [IH1 IH2]]; [done|].
  destruct Hstep as [(t & pr & d & ps & Hp & ->)|[E1 E2]].
  - unfold preactivate in Hp. apply bind_Ok in Hp as ([] & _ & Hp). apply bind_Ok in Hp as ([] & _ & Hp).
    apply bind_Ok in Hp as ([] & Hn%assert_that_Ok%bool_decide_eq_true & Hp).
    apply bind_Ok in Hp as ([] & _ & Hp). injection Hp as <-. cbn in *. split; [done|].
    intros Hnd. apply IH2. apply NoDup_app. split_and!; [done| |by apply NoDup_singleton].
    by intros x Hx ->%list_elem_of_singleton.
  - rewrite E1 in IH1. rewrite E2 in IH2. done.
Qed.

Lemma start_activation_clears bn fs m db m' num db' :
  start_activation bn fs m db = (m', Ok (num, db')) → ps_preactivated (pso db') = [].
Proof.
  unfold start_activation. destruct (_ =? _)%nat.
  - intros [= _ H]. apply bind_Ok in H as ([] & H%assert_that_Ok%Nat.eqb_eq & E). injection E as _ <-.
    by apply nil_length_inv.
  - destruct (activate_new _ _ _ _ _ _ _) as [? [[[? ?] ?]|]]; intros [= _ H].
    apply bind_Ok in H as (_ & _ & E). by injection E as _ <-.
Qed.

(** A return to the block of number [k] *)
Lemma block_ok_pop s b n : cb_num b ≤ n → block_ok s b → block_ok (stack_pop s n) b.
Proof. intros Hle [? Ha Hs ?]. split; [done|..|done]; by rewrite stack_pop_pop. Qed.

Lemma node_ok_block pfs h rest m s fs ts activated m' num db db' :
  node_ok pfs (MkNode (h :: rest) m) s → cb_num h + 1 < not_active →
  check_protocol_features pfs ts (cb_activated h) fs = Ok tt →
  BlockHeader.extend_activation_set (cb_activated h) fs = Ok activated →
  start_block_features (cb_num h) fs m (cb_db h) = Some (m', Ok (num, db)) →
  rtc (body_step pfs (is_protocol_feature_activated (cb_activated h) fs num)) db db' →
  ∃ s', node_ok pfs (MkNode (MkChainBlock (cb_num h + 1) activated db' :: h :: rest) m') s'.
Proof.
  intros [Hrep Hset Hh Hbs Hnum Hcl] Hn Hcheck Hext Hstart [Hbody Hnd]%body_keeps.
  specialize (Hh h eq_refl). cbn in *. apply Forall_cons in Hbs as [Hb Hbs].
  destruct (start_block_features_spec (cb_num h) fs m s (cb_db h)) as (m1 & r & E & Hr); [apply Hb|done..|].
  rewrite Hstart in E. injection E as <- <-. destruct Hr as (s' & Hrep' & Hset' & Hblk & Hdig & Hps).
  assert (Forall (λ a, act_block a ≤ cb_num h + 1) (s' ++ s)) as Hle.
  { apply Forall_app. split; eapply Forall_impl; [exact Hblk|cbn; lia|exact Hh|cbn; lia]. }
  assert (Forall (λ a, ∀ b, cb_num b ≤ cb_num h → cb_num b < act_block a) s') as Habove.
  { eapply Forall_impl; [exact Hblk|]. cbn. lia. }
  assert (∀ b, cb_num b ≤ cb_num h → block_ok s b → block_ok (s' ++ s) b) as Hkeep.
  { intros b Hb' [? ? ? ?]. assert (Forall (λ a, cb_num b < act_block a) s').
    { eapply Forall_impl; [exact Habove|]. cbn. auto. }
    split; [done|..|done]; by rewrite stack_pop_above. }
  destruct Hb as [Hbn Hba Hbset Hbp]. rewrite (stack_pop_below s) in Hba, Hbset by done.
  exists (s' ++ s). split; cbn.
  - done.
  - congruence.
  - intros ? [= <-]. done.
  - constructor; [|constructor].
    + split; cbn; [lia|..].
      * rewrite stack_pop_below by done. rewrite Hbody, Hps, Hba, fmap_app, reverse_app. f_equal.
        assert (pairs s' = (λ d, (d, cb_num h + 1)) <$> (act_digest <$> s')) as ->.
        { rewrite <-list_fmap_compose. apply list_fmap_ext. intros i a Ha. cbn.
          rewrite Forall_forall in Hblk. f_equal. apply Hblk. by eapply list_elem_of_lookup_2. }
        by rewrite Hdig, fmap_reverse, reverse_involutive.
      * rewrite stack_pop_below by done. unfold BlockHeader.extend_activation_set in Hext.
        apply bind_Ok in Hext as (_ & _ & E). injection E as <-.
        rewrite Hbset, fmap_app, Hdig. apply set_eq. intros x.
        rewrite elem_of_union, !elem_of_list_to_set, elem_of_app, elem_of_reverse. tauto.
      * apply Hnd. unfold start_block_features in Hstart.
        destruct (start_activation _ _ _ _) as [m2 [[num2 db2]|e]] eqn:Es.
        -- injection Hstart as -> -> ->. apply start_activation_clears in Es as ->. constructor.
        -- by destruct (popped_blocks_to m2 _) as [[|]|].
    + apply Hkeep; [done|]. split; [done|by rewrite stack_pop_below..|done].
    + apply StronglySorted_inv in Hnum as [_ Hnum]. rewrite Forall_forall in Hbs, Hnum |- *.
      intros b Hb. apply Hkeep; [|by apply Hbs]. specialize (Hnum b Hb). cbn in Hnum. lia.
  - constructor; [done|]. constructor; [cbn; lia|]. apply StronglySorted_inv in Hnum as [_ Hnum].
    eapply Forall_impl; [exact Hnum|]. cbn. lia.
  - unfold check_protocol_features in Hcheck. rewrite Hbset in Hcheck.
    by apply (check_features_closed pfs ts s [] fs s').
Qed.

Lemma node_reachable_ok pfs n : indexed pfs → node_reachable pfs n → ∃ s, node_ok pfs n s.
Proof.
  intros Hpfs. induction 1 as [num db Hnum Hact Hnd|n n' _ [s Hok] Hstep].
  - exists []. unfold initial_node. rewrite Hact. split; cbn.
    + by apply fresh_represents.
    + done.
    + done.
    + repeat constructor; cbn; [lia|lia|by rewrite Hact|done].
    + by repeat constructor.
    + done.
  - destruct Hstep as [h rest m fs ts act m' num db db' ? ? ? ? ?|h rest m fs m' e Hn Hs
      |h rest m fs m1 [num db] m' Hn Hs Hp|b h rest m m' Hp].
    + by eapply node_ok_block.
    + exists s. pose proof Hok as [Hrep _ Hh Hbs _ _]. specialize (Hh h eq_refl). cbn in *.
      apply Forall_cons in Hbs as [[? _ _ _] _].
      destruct (start_block_features_spec (cb_num h) fs m s (cb_db h)) as (m2 & r & E & Hr); [lia|done..|].
      rewrite Hs in E. injection E as <- <-. by subst m'.
    + exists s. pose proof Hok as [Hrep Hset Hh Hbs _ _]. specialize (Hh h eq_refl). cbn in *.
      apply Forall_cons in Hbs as [[? _ _ _] _].
      destruct (start_block_features_spec (cb_num h) fs m s (cb_db h)) as (m2 & r & E & Hr); [lia|done..|].
      rewrite Hs in E. injection E as <- <-. destruct Hr as (s' & H1 & H2 & H3 & _).
      destruct (popped_blocks_to_represents m1 _ (cb_num h) H1) as (m3 & E3 & H4 & H5).
      rewrite Hp in E3. injection E3 as <-. rewrite stack_pop_above, stack_pop_below in H4;
        [|done|eapply Forall_impl; [exact H3|]; cbn; lia].
      assert (m' = m) as -> by (apply (represents_unique _ _ s); [done..|congruence]). done.
    + destruct Hok as [Hrep Hset Hh Hbs Hnums Hcl]. cbn in *.
      apply Forall_cons in Hbs as [_ Hbs]. apply StronglySorted_inv in Hnums as [Hnums _].
      destruct (popped_blocks_to_represents m s (cb_num h) Hrep) as (m1 & E & H1 & H2).
      rewrite Hp in E. injection E as <-. exists (stack_pop s (cb_num h)). split; cbn; [done|congruence| | |done|].
      * intros ? [= <-]. apply stack_pop_bound. apply (rep_sorted _ _ Hrep).
      * pose proof (StronglySorted_inv Hnums) as [_ Hlt]. constructor.
        -- apply block_ok_pop; [done|]. by apply Forall_cons in Hbs as [? _].
        -- apply Forall_cons in Hbs as [_ Hbs]. rewrite Forall_forall in Hbs, Hlt |- *.
           intros b' Hb'. apply block_ok_pop; [|by apply Hbs]. specialize (Hlt b' Hb'). cbn in Hlt. lia.
      * destruct (stack_pop_suffix s (cb_num h)) as [k Hk]. rewrite Hk in Hcl. by apply closed_app in Hcl.
Qed.

Lemma activate_all_snoc l d n m m' : activate_all m l = (m', Ok tt) →
  activate_all m (l ++ [(d, n)]) =
    match activate_feature m' d n with Ok m'' => (m'', Ok tt) | Throw e => (m', Throw e) end.
Proof.
  revert m. induction l as [|[d' n'] l IH]; intros m; cbn.
  - intros [= <-]. by destruct (activate_feature m d n).
  - destruct (activate_feature m d' n'); [apply IH|done].
Qed.

(** The activations that the database records rebuild the manager. *)
Lemma activate_all_rebuilds pfs s : indexed pfs →
  Forall (λ a, (f ← recognized pfs !! act_digest a; builtin_feature f) = Some (act_feature a)) s →
  NoDup (act_feature <$> s) → StronglySorted (λ a a', act_block a' ≤ act_block a) s →
  Forall (λ a, act_block a < not_active) s →
  ∃ m, activate_all (set_initialized (make_manager pfs) true) (reverse (pairs s)) = (m, Ok tt) ∧
    represents m s ∧ feature_set m = pfs.
Proof.
  intros Hpfs. induction s as [|a s IH]; intros Hrec Hnd Hs Hr.
  - exists (set_initialized (make_manager pfs) true). split_and!; [done|by apply fresh_represents|done].
  - apply Forall_cons in Hrec as [Ha Hrec]. apply Forall_cons in Hr as [Hra Hr].
    rewrite fmap_cons in Hnd. apply NoDup_cons in Hnd as [Hn Hnd]. apply StronglySorted_inv in Hs as [Hs Hle].
    destruct IH as (m & Hm & Hrep & Hset); [done..|].
    rewrite fmap_cons, reverse_cons, (activate_all_snoc _ _ _ _ _ Hm).
    pose proof (activate_feature_represents m s (act_digest a) (act_block a) Hrep Hra) as Hact.
    unfold stack_activate in Hact. rewrite Hset, Ha, bool_decide_eq_true_2 in Hact by done.
    assert (forallb (λ a', act_block a' <=? act_block a) (take 1 s) = true) as Hb.
    { destruct s as [|a' s]; [done|]. apply Forall_cons in Hle as [Hle _]. cbn.
      by rewrite (proj2 (Z.leb_le _ _) Hle). }
    rewrite Hb in Hact. cbn in Hact. destruct (activate_feature m _ _) as [m'|]; [|done].
    destruct Hact as [Hrep' Hset']. exists m'. split_and!; [done| |congruence]. by destruct a.
Qed.

Lemma NoDup_fmap_index s : NoDup (indices s) → NoDup (act_feature <$> s).
Proof. rewrite (list_fmap_compose act_feature feature_index). apply NoDup_fmap_1. Qed.

(** A feature is found under one digest only. *)
Lemma act_digest_nodup pfs s : indexed pfs →
  Forall (λ a, (f ← recognized pfs !! act_digest a; builtin_feature f) = Some (act_feature a)) s →
  NoDup (act_feature <$> s) → NoDup (act_digest <$> s).
Proof.
  intros _ Hrec. induction s as [|a s IH]; [constructor|]. apply Forall_cons in Hrec as [Ha Hrec].
  rewrite !fmap_cons. intros [Hn Hnd]%NoDup_cons. constructor; [|by apply IH].
  intros (a' & E & Ha')%list_elem_of_fmap. rewrite Forall_forall in Hrec. specialize (Hrec a' Ha').
  cbn in Hrec. rewrite <-E, Ha in Hrec. injection Hrec as Hrec. apply Hn. rewrite Hrec.
  by apply list_elem_of_fmap_2.
Qed.

Lemma closed_lookup pfs s i d f x : closed pfs s → reverse (act_digest <$> s) !! i = Some d →
  recognized pfs !! d = Some f → x ∈ dependencies f → x ∈ take i (reverse (act_digest <$> s)).
Proof.
  induction s as [|a s IH]; [done|]. intros [Hcl Ha]. rewrite fmap_cons, reverse_cons.
  intros Hi Hf Hx. apply lookup_snoc_Some in Hi as [[Hi Hd]|[Hi <-]].
  - rewrite take_app_le by lia. by apply IH.
  - rewrite Hi, take_app_length. rewrite elem_of_reverse. by eapply Ha.
Qed.

(** C27: the features follow the chain: after any sequence of blocks that are applied,
    rejected, aborted or popped, the features the database records at the head are those
    of its header state, each at most once and after its dependencies, and the manager in
    memory is the one a restart would build from them. *)
Theorem features_follow_chain digest_from_hex hash_feature pfs n h :
  feature_sets digest_from_hex hash_feature pfs → node_reachable pfs n → head (blocks n) = Some h →
  let l := ps_activated (pso (cb_db h)) in
  cb_activated h = list_to_set l.*1 ∧ NoDup l.*1 ∧
  init (make_manager pfs) l = (manager n, Ok tt) ∧
  ∀ i d f x, l.*1 !! i = Some d → recognized pfs !! d = Some f → x ∈ dependencies f →
    x ∈ take i l.*1.
Proof.
  intros Hpfs%feature_sets_ok%ok_feature Hreach Hhd l.
  destruct (node_reachable_ok pfs n Hpfs Hreach) as [s [Hrep Hset Hh Hbs _ Hcl]].
  specialize (Hh h Hhd). assert (block_ok s h) as [_ Hl Hs _].
  { destruct (blocks n) as [|? ?]; [done|]. injection Hhd as ->. by apply Forall_cons in Hbs as [? _]. }
  rewrite stack_pop_below in Hl, Hs by done. fold l in Hl.
  assert (l.*1 = reverse (act_digest <$> s)) as El.
  { rewrite Hl, <-fmap_reverse, <-list_fmap_compose. by rewrite fmap_reverse. }
  pose proof (es_nodup _ _ (rep_entries _ _ Hrep)) as Hnd%NoDup_fmap_index.
  pose proof (rep_recognized _ _ Hrep) as Hrec. rewrite Hset in Hrec. rewrite El. split_and!.
  - rewrite Hs. apply set_eq. intros x. by rewrite !elem_of_list_to_set, elem_of_reverse.
  - rewrite reverse_Permutation. by apply (act_digest_nodup pfs).
  - destruct (activate_all_rebuilds pfs s) as (m & Hm & Hrep' & Hset'); [done..|apply Hrep|apply Hrep|].
    unfold init. cbn [make_manager initialized]. rewrite Hl, Hm.
    by rewrite (represents_unique m (manager n) s) by congruence.
  - intros i d f x. by apply closed_lookup.
Qed.

(** ** Preactivation *)

(** The features counted by the loop: those preactivated and not met before *)
Lemma activate_new_counts bn l acts np nn m db m' np' nn' db' :
  activate_new bn l acts np nn m db = (m', Ok (np', nn', db')) →
  NoDup l ∧
  (∀ d, d ∈ l → acts !! d ≠ Some true ∧
    (acts !! d = None → ∃ f, recognized (feature_set m) !! d = Some f ∧ pf_preactivation_required f = false)) ∧
  np' = (np + length (filter (λ d, acts !! d = Some false) l))%nat.
Proof.
  revert acts np nn m db. induction l as [|d l IH]; intros acts np nn m db; cbn [activate_new].
  - intros [= _ <- _ _]. split_and!; [constructor|by intros ? ?%elem_of_nil|by rewrite filter_nil, Nat.add_0_r].
  - set (step := mbind _ (get_protocol_feature _ d)).
    destruct step as [[[num db1] m1]|e] eqn:E; unfold step in E; clear step; [|done].
    intros (Hnd & Hin & Hnp)%IH. apply bind_Ok in E as (f & Hf & E). apply bind_Ok in E as (num' & Hnum & E).
    apply bind_Ok in E as (db0 & _ & E). apply bind_Ok in E as (m0 & Hm & E). injection E as -> _ <-.
    assert (feature_set m0 = feature_set m) as Hset.
    { unfold activate_feature in Hm. by inv_ok. }
    assert (d ∉ l) as Hdl.
    { intros Hd. destruct (Hin d Hd) as [Hne _]. apply Hne. apply lookup_insert_eq. }
    assert (∀ x, x ∈ l → (<[d := true]> acts) !! x = acts !! x) as Hacts.
    { intros x Hx. apply lookup_insert_ne. by intros ->. }
    split_and!; [by constructor| |].
    + intros x [->|Hx]%elem_of_cons.
      * unfold get_protocol_feature in Hf. destruct (recognized _ !! d) as [f'|]; [|done]. injection Hf as ->.
        destruct (acts !! d) as [[|]|]; inv_ok; split; try done. intros _. exists f. split; [done|].
        by destruct (pf_preactivation_required f).
      * destruct (Hin x Hx) as [H1 H2]. rewrite Hacts in H1, H2 by done. rewrite Hset in H2. done.
    + assert (filter (λ x, <[d:=true]> acts !! x = Some false) l = filter (λ x, acts !! x = Some false) l) as Hfl.
      { apply filter_ext_in. intros x Hx. by rewrite Hacts. }
      rewrite Hfl in Hnp. rewrite filter_cons.
      destruct (acts !! d) as [[|]|] eqn:Ed; inv_ok; try done; destruct (decide _); try done; cbn; lia.
Qed.

Lemma preactivated_lookup (l : list digest) d :
  (list_to_map ((λ d, (d, false)) <$> l) : gmap digest bool) !! d = if decide (d ∈ l) then Some false else None.
Proof.
  induction l as [|x l IH].
  - destruct (decide _) as [?%elem_of_nil|]; done.
  - rewrite fmap_cons. cbn [list_to_map foldr]. destruct (decide (x = d)) as [->|Hne].
    + cbn. rewrite lookup_insert_eq. rewrite decide_True; [done|by left].
    + cbn. rewrite lookup_insert_ne by done. cbn in IH. rewrite IH.
      destruct (decide (d ∈ l)) as [Hd|Hd].
      * rewrite decide_True; [done|by right].
      * rewrite decide_False; [done|]. by intros [->|?]%elem_of_cons.
Qed.

Lemma start_activation_preactivated bn fs m db m' num db' :
  start_activation bn fs m db = (m', Ok (num, db')) → NoDup (ps_preactivated (pso db)) →
  NoDup fs ∧ (∀ d, d ∈ ps_preactivated (pso db) → d ∈ fs) ∧
  ∀ d, d ∈ fs → d ∈ ps_preactivated (pso db) ∨
    ∃ f, recognized (feature_set m) !! d = Some f ∧ pf_preactivation_required f = false.
Proof.
  unfold start_activation. set (pre := ps_preactivated (pso db)). intros H Hnd.
  destruct (Nat.eqb_spec (length fs) 0) as [E%nil_length_inv|_].
  - injection H as _ H. apply bind_Ok in H as ([] & H%assert_that_Ok%Nat.eqb_eq & _).
    apply nil_length_inv in H as ->. subst fs. split_and!; [constructor|done|by intros d ?%elem_of_nil].
  - destruct (activate_new _ _ _ _ _ _ _) as [m1 [[[np nn] db1]|e]] eqn:E; [|done]. injection H as _ H.
    apply bind_Ok in H as ([] & H%assert_that_Ok & _).
    destruct (activate_new_counts _ _ _ _ _ _ _ _ _ _ _ E) as (Hfs & Hin & Hnp).
    rewrite (filter_ext_in _ (λ d, d ∈ pre)) in Hnp.
    2: { intros d _. rewrite preactivated_lookup. by destruct (decide (d ∈ pre)). }
    split_and!; [done| |].
    + assert (length (filter (λ d, d ∈ pre) fs) = length pre ∨ length pre = 0%nat) as [Hlen|Hlen].
      { apply orb_true_iff in H as [H%Nat.eqb_eq|H%Nat.eqb_eq]; [by right|left; lia]. }
      * intros d Hd. assert (filter (λ d, d ∈ pre) fs ≡ₚ pre) as Hp.
        { apply submseteq_length_Permutation; [|by rewrite Hlen].
          apply NoDup_submseteq; [by apply NoDup_filter|]. by intros x [? _]%list_elem_of_filter. }
        rewrite <-Hp in Hd. by apply list_elem_of_filter in Hd as [_ ?].
      * apply nil_length_inv in Hlen as ->. by intros d ?%elem_of_nil.
    + intros d Hd. destruct (Hin d Hd) as [_ Hno]. rewrite preactivated_lookup in Hno.
      destruct (decide (d ∈ pre)); [by left|right; by apply Hno].
Qed.

(** A feature that was preactivated in a block is activated at the start of the next:
    a block starts on a reachable chain only when its features are distinct and contain
    all that were preactivated, any other feature among them is one that needs no
    preactivation, and then nothing remains preactivated. *)
Theorem preactivated_features_activated digest_from_hex hash_feature pfs n h fs m' num db' :
  feature_sets digest_from_hex hash_feature pfs → node_reachable pfs n → head (blocks n) = Some h →
  start_block_features (cb_num h) fs (manager n) (cb_db h) = Some (m', Ok (num, db')) →
  NoDup fs ∧ (∀ d, d ∈ ps_preactivated (pso (cb_db h)) → d ∈ fs) ∧
  (∀ d, d ∈ fs → d ∈ ps_preactivated (pso (cb_db h)) ∨
    ∃ f, recognized pfs !! d = Some f ∧ pf_preactivation_required f = false) ∧
  ps_preactivated (pso db') = [].
Proof.
  intros Hpfs%feature_sets_ok%ok_feature Hreach Hhd Hstart.
  destruct (node_reachable_ok pfs n Hpfs Hreach) as [s [_ Hset _ Hbs _ _]].
  assert (block_ok s h) as [_ _ _ Hnd].
  { destruct (blocks n) as [|? ?]; [done|]. injection Hhd as ->. by apply Forall_cons in Hbs as [? _]. }
  unfold start_block_features in Hstart.
  destruct (start_activation _ _ _ _) as [m1 [[num1 db1]|e]] eqn:E.
  2: { by destruct (popped_blocks_to m1 _) as [[|]|]. }
  injection Hstart as -> -> ->.
  pose proof (start_activation_clears _ _ _ _ _ _ _ E). 
  apply start_activation_preactivated in E as (? & ? & ?); [|done]. rewrite Hset in *. done.
Qed.
End activation.

(** *** A concrete chain *)

Definition sample_features : list digest :=
  [sample_digest preactivate_feature; sample_digest get_sender].
Definition sample_db : feature_db :=
  MkFeatureDb (MkProtocolState [] sample_features [] 2) [] ResourceLimits.initialize_database.
Definition sample_hash_string (s : string) : Z := Z.of_nat (String.length s).

(** The first block, which activates the preactivated features *)
Definition sample_first : chain_block := MkChainBlock 1 ∅ sample_db.
Definition sample_started : protocol_feature_manager * feature_db :=
  match start_block_features sample_hash_string 1 sample_features
          (manager (initial_node sample_set 1 sample_db)) sample_db with
  | Some (m, Ok (_, db)) => (m, db)
  | _ => (manager (initial_node sample_set 1 sample_db), sample_db)
  end.
Definition sample_node : node :=
  MkNode [MkChainBlock 2 (list_to_set sample_features) sample_started.2; sample_first] sample_started.1.

Lemma sample_initial_reachable :
  node_reachable sample_hash_string sample_set (initial_node sample_set 1 sample_db).
Proof.
  apply node_initial; [unfold not_active, UINT32_MAX; lia|reflexivity|].
  apply (bool_decide_unpack _). vm_compute. exact I.
Qed.

Lemma sample_node_reachable : node_reachable sample_hash_string sample_set sample_node.
Proof.
  eapply node_stepped; [apply sample_initial_reachable|].
  apply (step_block _ _ sample_first [] _ sample_features 0 _ _ 2 sample_started.2).
  - reflexivity.
  - vm_compute. reflexivity.
  - vm_compute. reflexivity.
  - vm_compute. reflexivity.
  - apply rtc_refl.
Qed.

Lemma features_follow_chain_witness :
  ∃ h, head (blocks sample_node) = Some h ∧
    init (make_manager sample_set) (ps_activated (pso (cb_db h))) = (manager sample_node, Ok tt) ∧
    (ps_activated (pso (cb_db h))).*1 = sample_features.
Proof.
  exists (MkChainBlock 2 (list_to_set sample_features) sample_started.2).
  split; [reflexivity|]. split; [|vm_compute; reflexivity].
  destruct (features_follow_chain sample_hash_string sample_hex sample_hash sample_set sample_node
    (MkChainBlock 2 (list_to_set sample_features) sample_started.2)
    sample_set_reachable sample_node_reachable eq_refl) as (_ & _ & H & _).
  exact H.
Defined.

Lemma preactivated_features_activated_witness :
  ps_preactivated (pso (cb_db sample_first)) = sample_features ∧
  ps_preactivated (pso sample_started.2) = [].
Proof.
  split; [reflexivity|].
  destruct (preactivated_features_activated sample_hash_string sample_hex sample_hash sample_set
    (initial_node sample_set 1 sample_db) sample_first sample_features sample_started.1 2 sample_started.2
    sample_set_reachable sample_initial_reachable eq_refl) as (_ & _ & _ & H);
    [vm_compute; reflexivity|exact H].
Defined.
End FeatureActivation.
