(* ===== verification/ContractTables.v ===== *)
(** * Tables of contracts

    Models the database part of [apply_context.hpp] and [apply_context.cpp], over the rows
    of [contract_table_objects.hpp]: the cache that gives contracts integers for iterators
    (Module [IteratorCache], the class [iterator_cache]), the primary tables
    ([db_store_i64] to [db_end_i64]), the secondary indices (the class [generic_index]) and
    the memory they bill to accounts (Module [ContractTables]).

    Rows and tables live in chainbase, which neither moves an object nor reuses its
    identifier: a pointer to an object is its identifier.  Reading through a pointer to an
    object that has been removed is undefined behaviour, the error [Undefined]; the other
    error is an exception, which undoes the transaction, so that the operations return
    either an error or the new state.

    The order of floating point keys is that of the softfloat library: [f64_lt] and
    [f128_lt] are section variables. *)

From S2P Require Import Prelude.
From S2P Require Import Exceptions.
From S2P Require Import Action.
From S2P Require Import Database.
From S2P Require Import ResourceLimits.
From S2P Require Import Authority.

Local Open Scope Z_scope.

(** ** Errors *)

Inductive fault := Undefined | Raised (e : exn).

Definition lift {A} (r : result exn A) : result fault A :=
  match r with Ok a => Ok a | Throw e => Throw (Raised e) end.

(** [EOS_ASSERT] *)
Definition check (b : bool) (e : exn) : result fault unit := lift (assert_that b e).

(** Reading an object through a pointer *)
Definition deref {A} (m : gmap Z A) (ptr : Z) : result fault A :=
  match m !! ptr with Some a => Ok a | None => Throw Undefined end.

Lemma lift_Ok {A} (r : result exn A) a : lift r = Ok a ↔ r = Ok a.
Proof. destruct r; cbn; split; congruence. Qed.

Lemma check_Ok b e u : check b e = Ok u ↔ b = true.
Proof. unfold check. rewrite lift_Ok. apply assert_that_Ok. Qed.

Lemma deref_Ok {A} (m : gmap Z A) ptr a : deref m ptr = Ok a ↔ m !! ptr = Some a.
Proof. unfold deref. destruct (m !! ptr); split; congruence. Qed.

Module IteratorCache.

(** [_table_cache], with the end iterator of a table; [_end_iterator_to_table];
    [_iterator_to_object], where a removed object is [None]; [_object_to_iterator] *)
Record iterator_cache := MkCache {
  table_cache : gmap Z Z;
  end_iterator_to_table : list Z;
  iterator_to_object : list (option Z);
  object_to_iterator : gmap Z Z }.

Definition empty_cache : iterator_cache := MkCache ∅ [] [] ∅.

Definition end_iterator_to_index (ei : Z) : Z := - ei - 2.
Definition index_to_end_iterator (indx : Z) : Z := - (indx + 2).

Definition cache_table (c : iterator_cache) (t_id : Z) : iterator_cache * Z :=
  match table_cache c !! t_id with
  | Some ei => (c, ei)
  | None =>
      let ei := index_to_end_iterator (Z.of_nat (length (end_iterator_to_table c))) in
      (MkCache (<[t_id := ei]> (table_cache c)) (end_iterator_to_table c ++ [t_id])
         (iterator_to_object c) (object_to_iterator c), ei)
  end.

(** [get_table]: the pointer that is dereferenced *)
Definition get_table (c : iterator_cache) (t_id : Z) : result fault Z :=
  _ ← check (bool_decide (is_Some (table_cache c !! t_id))) table_not_in_cache;
  Ok t_id.

Definition get_end_iterator_by_table_id (c : iterator_cache) (t_id : Z) : result fault Z :=
  match table_cache c !! t_id with
  | Some ei => Ok ei
  | None => Throw (Raised table_not_in_cache)
  end.

(** [None] is the null pointer. *)
Definition find_table_by_end_iterator (c : iterator_cache) (ei : Z) : result fault (option Z) :=
  _ ← check (ei <? -1) invalid_table_iterator;
  Ok (end_iterator_to_table c !! Z.to_nat (end_iterator_to_index ei)).

(** The checks that [get] and [remove] make of an iterator *)
Definition check_iterator (c : iterator_cache) (iterator : Z) : result fault (option Z) :=
  _ ← check (negb (iterator =? -1)) invalid_table_iterator;
  _ ← check (0 <=? iterator) table_operation_not_permitted;
  match iterator_to_object c !! Z.to_nat iterator with
  | Some obj => Ok obj
  | None => Throw (Raised invalid_table_iterator)
  end.

(** [get]: the pointer that is dereferenced *)
Definition cache_get (c : iterator_cache) (iterator : Z) : result fault Z :=
  obj ← check_iterator c iterator;
  match obj with
  | Some ptr => Ok ptr
  | None => Throw (Raised table_operation_not_permitted)
  end.

Definition cache_remove (c : iterator_cache) (iterator : Z) : result fault iterator_cache :=
  obj ← check_iterator c iterator;
  match obj with
  | None => Ok c
  | Some ptr =>
      Ok (MkCache (table_cache c) (end_iterator_to_table c)
            (<[Z.to_nat iterator := None]> (iterator_to_object c))
            (delete ptr (object_to_iterator c)))
  end.

Definition cache_add (c : iterator_cache) (ptr : Z) : iterator_cache * Z :=
  match object_to_iterator c !! ptr with
  | Some i => (c, i)
  | None =>
      let i := Z.of_nat (length (iterator_to_object c)) in
      (MkCache (table_cache c) (end_iterator_to_table c) (iterator_to_object c ++ [Some ptr])
         (<[ptr := i]> (object_to_iterator c)), i)
  end.
End IteratorCache.

Module ContractTables.
Import IteratorCache.

(** ** Rows *)

(** The six tables of rows *)
Inductive object_kind :=
  | key_value_object | index64_object | index128_object | index256_object
  | index_double_object | index_long_double_object.

#[global] Instance object_kind_eq_dec : EqDecision object_kind.
Proof. solve_decision. Defined.
#[global] Instance object_kind_countable : Countable object_kind.
Proof.
  refine (inj_countable'
    (λ k, match k with key_value_object => 0%nat | index64_object => 1%nat | index128_object => 2%nat
          | index256_object => 3%nat | index_double_object => 4%nat | index_long_double_object => 5%nat end)
    (λ n, match n with 0%nat => key_value_object | 1%nat => index64_object | 2%nat => index128_object
          | 3%nat => index256_object | 4%nat => index_double_object | _ => index_long_double_object end) _).
  by intros [].
Defined.

(** The [value] of a primary row, the [secondary_key] of the others; floating point keys
    are their bits. *)
Inductive row_data :=
  | Value (bytes : list Z)
  | Key64 (k : Z) | Key128 (k : Z) | Key256 (k0 k1 : Z)
  | KeyDouble (bits : Z) | KeyLongDouble (bits : Z).

#[global] Instance row_data_eq_dec : EqDecision row_data.
Proof. solve_decision. Defined.

Definition data_kind (d : row_data) : object_kind :=
  match d with
  | Value _ => key_value_object
  | Key64 _ => index64_object
  | Key128 _ => index128_object
  | Key256 _ _ => index256_object
  | KeyDouble _ => index_double_object
  | KeyLongDouble _ => index_long_double_object
  end.

Record row := MkRow { t_id : Z; primary_key : Z; payer : Z; data : row_data }.
Definition row_kind (r : row) : object_kind := data_kind (data r).

Record table_id_object := MkTable {
  code : Z; scope : Z; table : Z; table_payer : Z; count : Z }.

(** [config::billable_size_v] of the tables; an index costs 32 bytes a row. *)
Definition table_id_size : Z := Authority.billable_size_v (44 + 32 * 2).
Definition kind_size (k : object_kind) : Z :=
  match k with
  | key_value_object => Authority.billable_size_v (32 + 8 + 4 + 32 * 2)
  | index64_object => Authority.billable_size_v (24 + 8 + 32 * 3)
  | index128_object => Authority.billable_size_v (24 + 16 + 32 * 3)
  | index256_object => Authority.billable_size_v (24 + 32 + 32 * 3)
  | index_double_object => Authority.billable_size_v (24 + 8 + 32 * 3)
  | index_long_double_object => Authority.billable_size_v (24 + 16 + 32 * 3)
  end.

(** ** The state an action works on *)

(** The tables of the database with the source of their identifiers, the memory usage of
    the accounts, [validate_ram_usage] of the transaction context, and
    [_account_ram_deltas] and the iterator caches of the [apply_context] *)
Record context := MkContext {
  tables : gmap Z table_id_object;
  rows : gmap Z row;
  next_id : Z;
  resources : ResourceLimits.manager;
  validate_ram_usage : gset Z;
  account_ram_deltas : gmap Z Z;
  caches : gmap object_kind iterator_cache }.

(** What an action runs with; the receiver changes when accounts are notified. *)
Record action_env := MkEnv {
  receiver : Z;
  act : Action.action;
  privileged : bool;
  ram_restrictions_activated : bool;
  ram_billing_in_notify_allowed : bool }.

Definition set_tables (c : context) (t : gmap Z table_id_object) : context :=
  MkContext t (rows c) (next_id c) (resources c) (validate_ram_usage c) (account_ram_deltas c) (caches c).
Definition set_rows (c : context) (r : gmap Z row) : context :=
  MkContext (tables c) r (next_id c) (resources c) (validate_ram_usage c) (account_ram_deltas c) (caches c).
Definition set_cache (c : context) (k : object_kind) (ic : iterator_cache) : context :=
  MkContext (tables c) (rows c) (next_id c) (resources c) (validate_ram_usage c) (account_ram_deltas c)
    (<[k := ic]> (caches c)).
Definition cache_of (c : context) (k : object_kind) : iterator_cache :=
  default empty_cache (caches c !! k).

(** ** Memory *)

Definition add_ram_usage (c : context) (account ram_delta : Z) : result fault context :=
  r ← lift (ResourceLimits.add_pending_ram_usage (resources c) account ram_delta);
  let v := if 0 <? ram_delta then {[account]} ∪ validate_ram_usage c else validate_ram_usage c in
  let d := match account_ram_deltas c !! account with
           | None => ram_delta
           | Some delta => s64 (delta + ram_delta)
           end in
  Ok (MkContext (tables c) (rows c) (next_id c) r v (<[account := d]> (account_ram_deltas c)) (caches c)).

Definition update_db_usage (env : action_env) (c : context) (payer delta : Z) : result fault context :=
  _ ← (if (0 <? delta) &&
          negb (privileged env || (payer =? receiver env) || ram_restrictions_activated env)
       then
         _ ← check (ram_billing_in_notify_allowed env || (receiver env =? Action.account (act env)))
               subjective_block_production_exception;
         lift (Action.require_authorization (Action.authorization (act env)) payer)
       else Ok tt);
  add_ram_usage c payer delta.

(** ** Tables *)

(** [db.find<table_id_object, by_code_scope_table>] *)
Definition find_table (c : context) (code0 scope0 table0 : Z) : option Z :=
  fst <$> head (filter (λ p, code p.2 = code0 ∧ scope p.2 = scope0 ∧ table p.2 = table0)
    (map_to_list (tables c))).

Definition find_or_create_table (env : action_env) (c : context) (code scope table payer : Z) :
    result fault (context * Z) :=
  match find_table c code scope table with
  | Some t => Ok (c, t)
  | None =>
      c ← update_db_usage env c payer table_id_size;
      let t := next_id c in
      Ok (MkContext (<[t := MkTable code scope table payer 0]> (tables c)) (rows c) (next_id c + 1)
            (resources c) (validate_ram_usage c) (account_ram_deltas c) (caches c), t)
  end.

Definition remove_table (env : action_env) (c : context) (t : Z) : result fault context :=
  tid ← deref (tables c) t;
  c ← update_db_usage env c (table_payer tid) (- table_id_size);
  Ok (set_tables c (delete t (tables c))).

(** [db.modify( tab, ++t.count )], and [--t.count] *)
Definition add_count (c : context) (t delta : Z) : result fault context :=
  tab ← deref (tables c) t;
  Ok (set_tables c (<[t := MkTable (code tab) (scope tab) (table tab) (table_payer tab)
                             (u32 (count tab + delta))]> (tables c))).

(** [db.create] of a row: the table and the primary key are a unique key of each kind *)
Definition create_row (c : context) (r : row) : result fault (context * Z) :=
  _ ← check (forallb (λ p, negb (bool_decide (row_kind p.2 = row_kind r) && (t_id p.2 =? t_id r)
                                 && (primary_key p.2 =? primary_key r))) (map_to_list (rows c)))
        std_exception;
  Ok (MkContext (tables c) (<[next_id c := r]> (rows c)) (next_id c + 1) (resources c)
        (validate_ram_usage c) (account_ram_deltas c) (caches c), next_id c).

Definition cache_table_in (c : context) (k : object_kind) (t : Z) : context * Z :=
  let '(ic, ei) := cache_table (cache_of c k) t in (set_cache c k ic, ei).
Definition cache_add_in (c : context) (k : object_kind) (ptr : Z) : context * Z :=
  let '(ic, i) := cache_add (cache_of c k) ptr in (set_cache c k ic, i).

(** ** Ordered indices *)

(** The least row under an order, of those that satisfy a predicate *)
Definition better (lt : row → row → bool) (cur : option (Z * row)) (x : Z * row) : option (Z * row) :=
  match cur with
  | None => Some x
  | Some y => if lt x.2 y.2 then Some x else cur
  end.
Definition least (lt : row → row → bool) (p : row → bool) (m : gmap Z row) : option (Z * row) :=
  foldl (better lt) None (filter (λ x, p x.2 = true) (map_to_list m)).
Definition greatest (lt : row → row → bool) (p : row → bool) (m : gmap Z row) : option (Z * row) :=
  least (λ x y, lt y x) p m.

Definition is_kind (k : object_kind) (r : row) : bool := bool_decide (row_kind r = k).

(** The orders [by_scope_primary] and [by_primary] *)
Definition primary_lt (x y : row) : bool :=
  (t_id x <? t_id y) || ((t_id x =? t_id y) && (primary_key x <? primary_key y)).

Section keys.
Context (f64_lt f128_lt : Z → Z → bool).

(** The order of secondary keys; arrays are compared lexicographically. *)
Definition secondary_less (x y : row_data) : bool :=
  match x, y with
  | Key64 a, Key64 b => a <? b
  | Key128 a, Key128 b => a <? b
  | Key256 a0 a1, Key256 b0 b1 => (a0 <? b0) || ((a0 =? b0) && (a1 <? b1))
  | KeyDouble a, KeyDouble b => f64_lt a b
  | KeyLongDouble a, KeyLongDouble b => f128_lt a b
  | _, _ => false
  end.

(** The order [by_secondary] *)
Definition secondary_lt (x y : row) : bool :=
  (t_id x <? t_id y) ||
  ((t_id x =? t_id y) &&
   (secondary_less (data x) (data y) ||
    (negb (secondary_less (data y) (data x)) && (primary_key x <? primary_key y)))).

(** ** Moving along an index

    The functions below are shared by the primary table and the secondary indices, which
    differ in the order and the kind of rows.  They return the new context, the iterator
    and the row it is at, whose primary key the source writes to its reference argument. *)

(** The row an index finds after a search in table [t]: its iterator, or the end *)
Definition found_in_table (c : context) (k : object_kind) (t ei : Z) (itr : option (Z * row)) :
    context * Z * option row :=
  match itr with
  | None => (c, ei, None)
  | Some (ptr, r) =>
      if t_id r =? t then
        let '(c, i) := cache_add_in c k ptr in (c, i, Some r)
      else (c, ei, None)
  end.

(** A search in the table of a name: [p] says which rows are at or after the bound. *)
Definition search (lt : row → row → bool) (p : Z → row → bool) (c : context) (k : object_kind)
    (code scope table : Z) : context * Z * option row :=
  match find_table c code scope table with
  | None => (c, -1, None)
  | Some t =>
      let '(c, ei) := cache_table_in c k t in
      found_in_table c k t ei (least lt (λ r, is_kind k r && p t r) (rows c))
  end.

(** [find]: the row of the table that satisfies [p], wherever it is in the order *)
Definition search_exact (p : row → bool) (c : context) (k : object_kind) (code scope table : Z) :
    context * Z * option row :=
  match find_table c code scope table with
  | None => (c, -1, None)
  | Some t =>
      let '(c, ei) := cache_table_in c k t in
      found_in_table c k t ei
        (head (filter (λ x, is_kind k x.2 && (t_id x.2 =? t) && p x.2 = true) (map_to_list (rows c))))
  end.

Definition end_of (c : context) (k : object_kind) (code scope table : Z) : context * Z :=
  match find_table c code scope table with
  | None => (c, -1)
  | Some t => cache_table_in c k t
  end.

Definition next (lt : row → row → bool) (c : context) (k : object_kind) (iterator : Z) :
    result fault (context * Z * option row) :=
  if iterator <? -1 then Ok (c, -1, None) else
  ptr ← cache_get (cache_of c k) iterator;
  obj ← deref (rows c) ptr;
  match least lt (λ r, is_kind k r && lt obj r) (rows c) with
  | Some (ptr', r) =>
      if t_id r =? t_id obj then
        let '(c, i) := cache_add_in c k ptr' in Ok (c, i, Some r)
      else ei ← get_end_iterator_by_table_id (cache_of c k) (t_id obj); Ok (c, ei, None)
  | None => ei ← get_end_iterator_by_table_id (cache_of c k) (t_id obj); Ok (c, ei, None)
  end.

(** The row before a position, if it is in table [t] *)
Definition before_in_table (c : context) (k : object_kind) (t : Z) (itr : option (Z * row)) :
    context * Z * option row :=
  match itr with
  | None => (c, -1, None)
  | Some (ptr, r) =>
      if t_id r =? t then
        let '(c, i) := cache_add_in c k ptr in (c, i, Some r)
      else (c, -1, None)
  end.

Definition previous (lt : row → row → bool) (c : context) (k : object_kind) (iterator : Z) :
    result fault (context * Z * option row) :=
  if iterator <? -1 then
    tab ← find_table_by_end_iterator (cache_of c k) iterator;
    match tab with
    | None => Throw (Raised invalid_table_iterator)
    | Some t =>
        _ ← deref (tables c) t;
        Ok (before_in_table c k t (greatest lt (λ r, is_kind k r && negb (t <? t_id r)) (rows c)))
    end
  else
    ptr ← cache_get (cache_of c k) iterator;
    obj ← deref (rows c) ptr;
    Ok (before_in_table c k (t_id obj) (greatest lt (λ r, is_kind k r && lt r obj) (rows c))).

(** ** Primary tables *)

(** Creating a row in its table, which [billed_size] is charged for: the end of
    [db_store_i64] and of [generic_index::store] *)
Definition store_row (env : action_env) (c : context) (r : row) (billed_size : Z) :
    result fault (context * Z) :=
  '(c, ptr) ← create_row c r;
  c ← add_count c (t_id r) 1;
  c ← update_db_usage env c (payer r) billed_size;
  let '(c, _) := cache_table_in c (row_kind r) (t_id r) in
  Ok (cache_add_in c (row_kind r) ptr).

Definition db_store_i64 (env : action_env) (c : context) (scope table payer id : Z)
    (buffer : list Z) : result fault (context * Z) :=
  '(c, t) ← find_or_create_table env c (receiver env) scope table payer;
  _ ← check (negb (payer =? 0)) invalid_table_payer;
  store_row env c (MkRow t id payer (Value buffer))
    (Z.of_nat (length buffer) + kind_size key_value_object).

Definition value_size (d : row_data) : Z :=
  match d with Value v => Z.of_nat (length v) | _ => 0 end.

Definition db_update_i64 (env : action_env) (c : context) (iterator payer0 : Z) (buffer : list Z) :
    result fault context :=
  ptr ← cache_get (cache_of c key_value_object) iterator;
  obj ← deref (rows c) ptr;
  t ← get_table (cache_of c key_value_object) (t_id obj);
  table_obj ← deref (tables c) t;
  _ ← check (code table_obj =? receiver env) table_access_violation;
  let overhead := kind_size key_value_object in
  let old_size := value_size (data obj) + overhead in
  let new_size := Z.of_nat (length buffer) + overhead in
  let new_payer := if payer0 =? 0 then payer obj else payer0 in
  c ← (if negb (payer obj =? new_payer) then
         c ← update_db_usage env c (payer obj) (- old_size);
         update_db_usage env c new_payer new_size
       else if negb (old_size =? new_size) then
         update_db_usage env c (payer obj) (new_size - old_size)
       else Ok c);
  Ok (set_rows c (<[ptr := MkRow (t_id obj) (primary_key obj) new_payer (Value buffer)]> (rows c))).

(** Removing a row, and its table when that was the last one: the end of [db_remove_i64]
    and of [generic_index::remove] *)
Definition remove_row (env : action_env) (c : context) (k : object_kind) (iterator ptr t : Z) :
    result fault context :=
  c ← add_count c t (-1);
  let c := set_rows c (delete ptr (rows c)) in
  table_obj ← deref (tables c) t;
  c ← (if count table_obj =? 0 then remove_table env c t else Ok c);
  ic ← cache_remove (cache_of c k) iterator;
  Ok (set_cache c k ic).

Definition db_remove_i64 (env : action_env) (c : context) (iterator : Z) : result fault context :=
  ptr ← cache_get (cache_of c key_value_object) iterator;
  obj ← deref (rows c) ptr;
  t ← get_table (cache_of c key_value_object) (t_id obj);
  table_obj ← deref (tables c) t;
  _ ← check (code table_obj =? receiver env) table_access_violation;
  c ← update_db_usage env c (payer obj) (- (value_size (data obj) + kind_size key_value_object));
  remove_row env c key_value_object iterator ptr t.

(** The number returned and the bytes written to the buffer *)
Definition db_get_i64 (c : context) (iterator buffer_size : Z) : result fault (Z * list Z) :=
  ptr ← cache_get (cache_of c key_value_object) iterator;
  obj ← deref (rows c) ptr;
  let v := match data obj with Value v => v | _ => [] end in
  let s := Z.of_nat (length v) in
  if buffer_size =? 0 then Ok (s, []) else
  let copy_size := Z.min buffer_size s in
  Ok (copy_size, take (Z.to_nat copy_size) v).

Definition db_next_i64 (c : context) (iterator : Z) : result fault (context * Z * option row) :=
  next primary_lt c key_value_object iterator.

Definition db_previous_i64 (c : context) (iterator : Z) : result fault (context * Z * option row) :=
  previous primary_lt c key_value_object iterator.

Definition db_find_i64 (c : context) (code scope table id : Z) : context * Z * option row :=
  search_exact (λ r, primary_key r =? id) c key_value_object code scope table.

(** The rows at or after, and after, the key [(t, id)] *)
Definition from_primary (id t : Z) (r : row) : bool :=
  (t <? t_id r) || ((t =? t_id r) && (id <=? primary_key r)).
Definition after_primary (id t : Z) (r : row) : bool :=
  (t <? t_id r) || ((t =? t_id r) && (id <? primary_key r)).

Definition db_lowerbound_i64 (c : context) (code scope table id : Z) : context * Z * option row :=
  search primary_lt (from_primary id) c key_value_object code scope table.

Definition db_upperbound_i64 (c : context) (code scope table id : Z) : context * Z * option row :=
  search primary_lt (after_primary id) c key_value_object code scope table.

Definition db_end_i64 (c : context) (code scope table : Z) : context * Z :=
  end_of c key_value_object code scope table.

(** ** Secondary indices: the methods of [generic_index], for the kind [k] of its rows *)

Definition index_store (env : action_env) (c : context) (scope table payer id : Z)
    (value : row_data) : result fault (context * Z) :=
  _ ← check (negb (payer =? 0)) invalid_table_payer;
  '(c, t) ← find_or_create_table env c (receiver env) scope table payer;
  store_row env c (MkRow t id payer value) (kind_size (data_kind value)).

Definition index_remove (env : action_env) (c : context) (k : object_kind) (iterator : Z) :
    result fault context :=
  ptr ← cache_get (cache_of c k) iterator;
  obj ← deref (rows c) ptr;
  c ← update_db_usage env c (payer obj) (- kind_size k);
  t ← get_table (cache_of c k) (t_id obj);
  table_obj ← deref (tables c) t;
  _ ← check (code table_obj =? receiver env) table_access_violation;
  remove_row env c k iterator ptr t.

Definition index_update (env : action_env) (c : context) (iterator payer0 : Z) (secondary : row_data) :
    result fault context :=
  let k := data_kind secondary in
  ptr ← cache_get (cache_of c k) iterator;
  obj ← deref (rows c) ptr;
  t ← get_table (cache_of c k) (t_id obj);
  table_obj ← deref (tables c) t;
  _ ← check (code table_obj =? receiver env) table_access_violation;
  let new_payer := if payer0 =? 0 then payer obj else payer0 in
  let billing_size := kind_size k in
  c ← (if negb (payer obj =? new_payer) then
         c ← update_db_usage env c (payer obj) (- billing_size);
         update_db_usage env c new_payer billing_size
       else Ok c);
  Ok (set_rows c (<[ptr := MkRow (t_id obj) (primary_key obj) new_payer secondary]> (rows c))).

(** [db.find<ObjectType, by_secondary>] of a key without the primary one: the first row
    with that secondary key, which is the one at the lower bound *)
Definition same_secondary (x y : row_data) : bool :=
  negb (secondary_less x y) && negb (secondary_less y x).
Definition from_secondary (secondary : row_data) (t : Z) (r : row) : bool :=
  (t <? t_id r) || ((t =? t_id r) && negb (secondary_less (data r) secondary)).
Definition after_secondary (secondary : row_data) (t : Z) (r : row) : bool :=
  (t <? t_id r) || ((t =? t_id r) && secondary_less secondary (data r)).

Definition find_secondary (c : context) (code scope table : Z) (secondary : row_data) :
    context * Z * option row :=
  let k := data_kind secondary in
  match find_table c code scope table with
  | None => (c, -1, None)
  | Some t =>
      let '(c, ei) := cache_table_in c k t in
      found_in_table c k t ei
        (least secondary_lt (λ r, is_kind k r && (t_id r =? t) && same_secondary (data r) secondary) (rows c))
  end.

Definition lowerbound_secondary (c : context) (code scope table : Z) (secondary : row_data) :
    context * Z * option row :=
  search secondary_lt (from_secondary secondary) c (data_kind secondary) code scope table.

Definition upperbound_secondary (c : context) (code scope table : Z) (secondary : row_data) :
    context * Z * option row :=
  search secondary_lt (after_secondary secondary) c (data_kind secondary) code scope table.

Definition end_secondary (c : context) (k : object_kind) (code scope table : Z) : context * Z :=
  end_of c k code scope table.

Definition next_secondary (c : context) (k : object_kind) (iterator : Z) :
    result fault (context * Z * option row) := next secondary_lt c k iterator.
Definition previous_secondary (c : context) (k : object_kind) (iterator : Z) :
    result fault (context * Z * option row) := previous secondary_lt c k iterator.

Definition find_primary (c : context) (k : object_kind) (code scope table primary : Z) :
    context * Z * option row :=
  search_exact (λ r, primary_key r =? primary) c k code scope table.

Definition lowerbound_primary (c : context) (k : object_kind) (code scope table primary : Z) :
    context * Z * option row := search primary_lt (from_primary primary) c k code scope table.
Definition upperbound_primary (c : context) (k : object_kind) (code scope table primary : Z) :
    context * Z * option row := search primary_lt (after_primary primary) c k code scope table.

Definition next_primary (c : context) (k : object_kind) (iterator : Z) :
    result fault (context * Z * option row) := next primary_lt c k iterator.
Definition previous_primary (c : context) (k : object_kind) (iterator : Z) :
    result fault (context * Z * option row) := previous primary_lt c k iterator.

(** [get]: the primary and the secondary key *)
Definition index_get (c : context) (k : object_kind) (iterator : Z) : result fault (Z * row_data) :=
  ptr ← cache_get (cache_of c k) iterator;
  obj ← deref (rows c) ptr;
  Ok (primary_key obj, data obj).

(** ** Calls of a contract *)

Inductive db_call :=
  | DbStore (scope table payer id : Z) (buffer : list Z)
  | DbUpdate (iterator payer : Z) (buffer : list Z)
  | DbRemove (iterator : Z)
  | DbGet (iterator buffer_size : Z)
  | DbNext (iterator : Z)
  | DbPrevious (iterator : Z)
  | DbFind (code scope table id : Z)
  | DbLowerbound (code scope table id : Z)
  | DbUpperbound (code scope table id : Z)
  | DbEnd (code scope table : Z)
  | IndexStore (scope table payer id : Z) (value : row_data)
  | IndexRemove (k : object_kind) (iterator : Z)
  | IndexUpdate (iterator payer : Z) (secondary : row_data)
  | FindSecondary (code scope table : Z) (secondary : row_data)
  | LowerboundSecondary (code scope table : Z) (secondary : row_data)
  | UpperboundSecondary (code scope table : Z) (secondary : row_data)
  | EndSecondary (k : object_kind) (code scope table : Z)
  | NextSecondary (k : object_kind) (iterator : Z)
  | PreviousSecondary (k : object_kind) (iterator : Z)
  | FindPrimary (k : object_kind) (code scope table primary : Z)
  | LowerboundPrimary (k : object_kind) (code scope table primary : Z)
  | UpperboundPrimary (k : object_kind) (code scope table primary : Z)
  | NextPrimary (k : object_kind) (iterator : Z)
  | PreviousPrimary (k : object_kind) (iterator : Z)
  | IndexGet (k : object_kind) (iterator : Z).

(** The new context and the number the call returns *)
Definition exec (env : action_env) (c : context) (call : db_call) : result fault (context * Z) :=
  match call with
  | DbStore scope table payer id buffer => db_store_i64 env c scope table payer id buffer
  | DbUpdate i payer buffer => c ← db_update_i64 env c i payer buffer; Ok (c, 0)
  | DbRemove i => c ← db_remove_i64 env c i; Ok (c, 0)
  | DbGet i n => r ← db_get_i64 c i n; Ok (c, r.1)
  | DbNext i => r ← db_next_i64 c i; Ok r.1
  | DbPrevious i => r ← db_previous_i64 c i; Ok r.1
  | DbFind code scope table id => Ok (db_find_i64 c code scope table id).1
  | DbLowerbound code scope table id => Ok (db_lowerbound_i64 c code scope table id).1
  | DbUpperbound code scope table id => Ok (db_upperbound_i64 c code scope table id).1
  | DbEnd code scope table => Ok (db_end_i64 c code scope table)
  | IndexStore scope table payer id v => index_store env c scope table payer id v
  | IndexRemove k i => c ← index_remove env c k i; Ok (c, 0)
  | IndexUpdate i payer v => c ← index_update env c i payer v; Ok (c, 0)
  | FindSecondary code scope table v => Ok (find_secondary c code scope table v).1
  | LowerboundSecondary code scope table v => Ok (lowerbound_secondary c code scope table v).1
  | UpperboundSecondary code scope table v => Ok (upperbound_secondary c code scope table v).1
  | EndSecondary k code scope table => Ok (end_secondary c k code scope table)
  | NextSecondary k i => r ← next_secondary c k i; Ok r.1
  | PreviousSecondary k i => r ← previous_secondary c k i; Ok r.1
  | FindPrimary k code scope table p => Ok (find_primary c k code scope table p).1
  | LowerboundPrimary k code scope table p => Ok (lowerbound_primary c k code scope table p).1
  | UpperboundPrimary k code scope table p => Ok (upperbound_primary c k code scope table p).1
  | NextPrimary k i => r ← next_primary c k i; Ok r.1
  | PreviousPrimary k i => r ← previous_primary c k i; Ok r.1
  | IndexGet k i => r ← index_get c k i; Ok (c, r.1)
  end.

(** The calls the intrinsics make: buffers lie in the memory of the contract, which has a
    32-bit size, and an index holds secondary keys.  Memory also bounds the rows. *)
Definition call_ok (c : context) (call : db_call) : Prop :=
  Z.of_nat (size (rows c)) + 1 < 2 ^ 32 ∧
  match call with
  | DbStore _ _ _ _ buffer | DbUpdate _ _ buffer => Z.of_nat (length buffer) < 2 ^ 32
  | IndexStore _ _ _ _ v | IndexUpdate _ _ v => data_kind v ≠ key_value_object
  | IndexRemove k _ => k ≠ key_value_object
  | _ => True
  end.

(** Any sequence of calls, by any receivers, from a database without contract tables; a
    new action starts with empty caches. *)
Definition initial_context (r : ResourceLimits.manager) (first_id : Z) : context :=
  MkContext ∅ ∅ first_id r ∅ ∅ ∅.

Inductive reachable (r : ResourceLimits.manager) : context → Prop :=
  | reach_initial first_id : reachable r (initial_context r first_id)
  | reach_call env c call c' i : reachable r c → call_ok c call → exec env c call = Ok (c', i) →
      reachable r c'
  | reach_action c : reachable r c →
      reachable r (MkContext (tables c) (rows c) (next_id c) (resources c) (validate_ram_usage c) ∅ ∅).

(** ** Invariant *)

(** The memory of a row and of a table that account [a] pays for *)
Definition row_size (r : row) : Z := value_size (data r) + kind_size (row_kind r).
Definition row_bill (a : Z) (r : row) : Z := if payer r =? a then row_size r else 0.
Definition table_bill (a : Z) (t : table_id_object) : Z :=
  if table_payer t =? a then table_id_size else 0.
Definition storage (c : context) (a : Z) : Z :=
  sum_pos (table_bill a) (tables c) + sum_pos (row_bill a) (rows c).

(** The memory the resource limits manager counts for an account *)
Definition billed (m : ResourceLimits.manager) (a : Z) : Z :=
  match ResourceLimits.usages m !! a with Some u => ResourceLimits.ram_usage u | None => 0 end.

Definition in_table (t : Z) (r : row) : Z := if t_id r =? t then 1 else 0.

(** [fresh] is a table that has just been created or has just lost a row. *)
Record db_ok_but (fresh : option Z) (c : context) : Prop := {
  ok_table_ids t tab : tables c !! t = Some tab → t < next_id c;
  ok_row_ids i r : rows c !! i = Some r → i < next_id c;
  ok_names t t' tab tab' : tables c !! t = Some tab → tables c !! t' = Some tab' →
    code tab = code tab' → scope tab = scope tab' → table tab = table tab' → t = t';
  ok_unique i j r r' : rows c !! i = Some r → rows c !! j = Some r' → row_kind r = row_kind r' →
    t_id r = t_id r' → primary_key r = primary_key r' → i = j;
  ok_tables i r : rows c !! i = Some r → is_Some (tables c !! t_id r);
  ok_count t tab : tables c !! t = Some tab →
    count tab = sum_pos (in_table t) (rows c) ∧ (0 < count tab ∨ fresh = Some t);
  ok_values i r : rows c !! i = Some r → value_size (data r) < 2 ^ 32 }.

Notation db_ok := (db_ok_but None).

Record cache_ok (rs : gmap Z row) (k : object_kind) (ic : iterator_cache) : Prop := {
  co_table t ei : table_cache ic !! t = Some ei →
    ∃ i, ei = - (Z.of_nat i + 2) ∧ end_iterator_to_table ic !! i = Some t;
  co_end i t : end_iterator_to_table ic !! i = Some t →
    table_cache ic !! t = Some (- (Z.of_nat i + 2));
  co_object i ptr : iterator_to_object ic !! i = Some (Some ptr) →
    object_to_iterator ic !! ptr = Some (Z.of_nat i) ∧
    ∃ r, rs !! ptr = Some r ∧ row_kind r = k ∧ is_Some (table_cache ic !! t_id r);
  co_iterator ptr i : object_to_iterator ic !! ptr = Some i →
    0 ≤ i ∧ iterator_to_object ic !! Z.to_nat i = Some (Some ptr) }.

Definition caches_ok (c : context) : Prop := ∀ k, cache_ok (rows c) k (cache_of c k).

Definition ram_ok (r : ResourceLimits.manager) (c : context) : Prop :=
  ∀ a, billed (resources c) a = billed r a + storage c a ∧ 0 ≤ billed (resources c) a < 2 ^ 64.

(** *** Caches *)

Lemma empty_cache_ok rs k : cache_ok rs k empty_cache.
Proof. split; cbn; intros *; rewrite ?lookup_empty, ?lookup_nil; done. Qed.

Lemma cache_of_set c k ic k' : cache_of (set_cache c k ic) k' = if decide (k' = k) then ic else cache_of c k'.
Proof.
  unfold cache_of, set_cache. cbn. destruct (decide (k' = k)) as [->|Hne].
  - by rewrite lookup_insert_eq.
  - by rewrite lookup_insert_ne.
Qed.

Lemma caches_ok_set c k ic : caches_ok c → cache_ok (rows c) k ic → caches_ok (set_cache c k ic).
Proof.
  intros Hc Hic k'. rewrite cache_of_set. cbn. destruct (decide (k' = k)) as [->|]; [done|apply Hc].
Qed.

Lemma cache_table_ok rs k ic t : cache_ok rs k ic →
  cache_ok rs k (cache_table ic t).1 ∧
  table_cache (cache_table ic t).1 !! t = Some (cache_table ic t).2 ∧
  (∀ t', is_Some (table_cache ic !! t') → is_Some (table_cache (cache_table ic t).1 !! t')).
Proof.
  intros [Ht He Ho Hi]. unfold cache_table. destruct (table_cache ic !! t) as [ei|] eqn:E; cbn [fst snd].
  { split_and!; [by split|done|done]. }
  unfold index_to_end_iterator. set (n := length (end_iterator_to_table ic)).
  split_and!; cbn.
  - split; cbn.
    + intros t' ei [[<- <-]|[Hne Hl]]%lookup_insert_Some.
      * exists n. split; [lia|]. by apply list_lookup_middle.
      * destruct (Ht t' ei Hl) as (i & -> & Hlook). exists i. split; [done|]. by apply lookup_app_l_Some.
    + intros i t' Hl. apply lookup_snoc_Some in Hl as [[Hlt Hl]|[-> <-]].
      * rewrite lookup_insert_ne; [by apply He|]. intros ->. apply He in Hl. congruence.
      * by rewrite lookup_insert_eq.
    + intros i ptr Hl. destruct (Ho i ptr Hl) as (? & r & ? & ? & ?). split; [done|].
      exists r. split_and!; [done..|]. rewrite lookup_insert_is_Some'. by right.
    + done.
  - apply lookup_insert_eq.
  - intros t' Ht'. rewrite lookup_insert_is_Some'. by right.
Qed.

Lemma cache_add_ok rs k ic ptr r : cache_ok rs k ic → rs !! ptr = Some r → row_kind r = k →
  is_Some (table_cache ic !! t_id r) →
  cache_ok rs k (cache_add ic ptr).1 ∧
  0 ≤ (cache_add ic ptr).2 ∧
  iterator_to_object (cache_add ic ptr).1 !! Z.to_nat (cache_add ic ptr).2 = Some (Some ptr).
Proof.
  intros [Ht He Ho Hi] Hr Hk Htab. unfold cache_add.
  destruct (object_to_iterator ic !! ptr) as [i|] eqn:E; cbn [fst snd].
  { destruct (Hi ptr i E). split_and!; [by split|done|done]. }
  set (n := length (iterator_to_object ic)). split_and!; cbn.
  - split; cbn; [done|done| |].
    + intros i p Hl. apply lookup_snoc_Some in Hl as [[Hlt Hl]|[-> [= <-]]].
      * destruct (Ho i p Hl) as (Hp & Hex). split; [|done]. rewrite lookup_insert_ne; [done|]. congruence.
      * split; [by rewrite lookup_insert_eq|]. by exists r.
    + intros p i [[<- <-]|[Hne Hl]]%lookup_insert_Some.
      * split; [lia|]. rewrite Nat2Z.id. by apply list_lookup_middle.
      * destruct (Hi p i Hl) as [? Hlook]. split; [done|]. by apply lookup_app_l_Some.
  - lia.
  - rewrite Nat2Z.id. by apply list_lookup_middle.
Qed.

(** Rows may change as long as they stay where they are. *)
Lemma cache_ok_rows rs rs' k ic : cache_ok rs k ic →
  (∀ ptr r, rs !! ptr = Some r → row_kind r = k →
     ∃ r', rs' !! ptr = Some r' ∧ row_kind r' = k ∧ t_id r' = t_id r) →
  cache_ok rs' k ic.
Proof.
  intros [Ht He Ho Hi] Hrs. split; [done|done| |done].
  intros i ptr Hl. destruct (Ho i ptr Hl) as (? & r & Hr & Hk & Htab). split; [done|].
  destruct (Hrs ptr r Hr Hk) as (r' & ? & ? & E). exists r'. by rewrite E.
Qed.

(** The pointer an iterator stands for *)
Lemma check_iterator_Ok ic it obj : check_iterator ic it = Ok obj ↔
  0 ≤ it ∧ iterator_to_object ic !! Z.to_nat it = Some obj.
Proof.
  unfold check_iterator. split.
  - intros ([] & H1%check_Ok & H)%bind_Ok. apply bind_Ok in H as ([] & H2%check_Ok%Z.leb_le & H).
    split; [done|]. destruct (_ !! _); [|done]. by injection H as ->.
  - intros [H1 ->]. unfold check.
    rewrite (proj2 (Z.leb_le 0 it) H1), (proj2 (Z.eqb_neq it (-1))) by lia. done.
Qed.

Lemma cache_get_Ok ic it ptr : cache_get ic it = Ok ptr ↔
  0 ≤ it ∧ iterator_to_object ic !! Z.to_nat it = Some (Some ptr).
Proof.
  unfold cache_get. rewrite bind_Ok. split.
  - intros (obj & [H1 H2]%check_iterator_Ok & H). destruct obj; [|done]. by injection H as ->.
  - intros [H1 H2]. exists (Some ptr). split; [by apply check_iterator_Ok|done].
Qed.

Lemma cache_get_fault ic it f : cache_get ic it = Throw f → ∃ e, f = Raised e ∧ e ≠ table_not_in_cache.
Proof.
  unfold cache_get, check_iterator, check, assert_that. intros H.
  destruct (negb (it =? -1)); cbn in H; [|injection H as <-; by eexists].
  destruct (0 <=? it); cbn in H; [|injection H as <-; by eexists].
  destruct (_ !! _) as [[|]|]; cbn in H; [done|injection H as <-; by eexists..].
Qed.

Lemma cache_remove_ok rs k ic it ptr : cache_ok rs k ic → cache_get ic it = Ok ptr →
  ∃ ic', cache_remove ic it = Ok ic' ∧ cache_ok (delete ptr rs) k ic'.
Proof.
  intros [Ht He Ho Hi] [Hit Hptr]%cache_get_Ok.
  assert (check_iterator ic it = Ok (Some ptr)) as Hc by (by apply check_iterator_Ok).
  unfold cache_remove. rewrite Hc. cbn. eexists. split; [done|].
  destruct (Ho _ _ Hptr) as [Hobj _]. split; cbn; [done|done| |].
  - intros i p Hl. destruct (decide (i = Z.to_nat it)) as [->|Hne].
    { rewrite list_lookup_insert_eq in Hl; [done|]. by eapply lookup_lt_Some. }
    rewrite list_lookup_insert_ne in Hl by done. destruct (Ho i p Hl) as (Hp & r & Hr & ?).
    assert (p ≠ ptr). { intros ->. rewrite Hobj in Hp. injection Hp as Hp. lia. }
    rewrite lookup_delete_ne by done. split; [done|]. exists r. by rewrite lookup_delete_ne.
  - intros p i [Hne Hl]%lookup_delete_Some. destruct (Hi p i Hl) as [? Hlook]. split; [done|].
    rewrite list_lookup_insert_ne; [done|]. intros E. rewrite <-E, Hptr in Hlook. congruence.
Qed.

(** *** Memory *)

(** [c'] differs from [c] in the bills only. *)
Definition same_db (c c' : context) : Prop :=
  tables c' = tables c ∧ rows c' = rows c ∧ next_id c' = next_id c ∧ caches c' = caches c.

(** Accounts are billed the changes [f]. *)
Definition bills (c c' : context) (f : Z → Z) : Prop :=
  ∀ a, billed (resources c') a = billed (resources c) a + f a ∧ 0 ≤ billed (resources c') a < 2 ^ 64.

Definition ram_range (c : context) : Prop := ∀ a, 0 ≤ billed (resources c) a < 2 ^ 64.

(** An error that is neither undefined behaviour nor a broken invariant *)
Definition ordinary (f : fault) : Prop := ∃ e, f = Raised e ∧ e ≠ table_not_in_cache.

Lemma update_db_usage_spec env c p d : ram_range c → - 2 ^ 63 ≤ d < 2 ^ 63 →
  match update_db_usage env c p d with
  | Ok c' => same_db c c' ∧ bills c c' (λ a, if a =? p then d else 0)
  | Throw f => ordinary f
  end.
Proof.
  intros Hr Hd. unfold update_db_usage.
  assert (match add_ram_usage c p d with
    | Ok c' => same_db c c' ∧ bills c c' (λ a, if a =? p then d else 0)
    | Throw f => ordinary f end) as Hadd.
  { unfold add_ram_usage.
    destruct (ResourceLimits.usages (resources c) !! p) as [u|] eqn:Eu.
    - assert (0 ≤ ResourceLimits.ram_usage u < 2 ^ 64) as Hu.
      { specialize (Hr p). unfold billed in Hr. by rewrite Eu in Hr. }
      rewrite (ResourceLimits.add_pending_ram_usage_exact _ _ u d Eu Hu Hd).
      case_bool_decide as Hin; cbn; [|by eexists]. split; [done|]. intros a. unfold billed. cbn.
      destruct (Z.eqb_spec a p) as [->|Hne].
      + rewrite lookup_insert_eq, Eu. cbn. lia.
      + rewrite lookup_insert_ne by done. specialize (Hr a). unfold billed in Hr. lia.
    - unfold ResourceLimits.add_pending_ram_usage. destruct (Z.eqb_spec d 0) as [->|Hd0]; cbn.
      + split; [done|]. intros a. cbn. specialize (Hr a). destruct (a =? p); lia.
      + unfold Database.get. rewrite Eu. cbn. by eexists. }
  destruct (_ && _); [|exact Hadd].
  unfold check, assert_that. destruct (_ || _); cbn; [|by eexists].
  unfold Action.require_authorization, assert_that. destruct (Action.has_authorization _ _); cbn; [exact Hadd|by eexists].
Qed.

Lemma bills_range c c' f : bills c c' f → ram_range c'.
Proof. intros H a. apply H. Qed.

Lemma bills_trans c1 c2 c3 f g : bills c1 c2 f → bills c2 c3 g → bills c1 c3 (λ a, f a + g a).
Proof. intros H1 H2 a. destruct (H1 a), (H2 a). cbn. lia. Qed.

Lemma same_db_trans c1 c2 c3 : same_db c1 c2 → same_db c2 c3 → same_db c1 c3.
Proof. unfold same_db. naive_solver congruence. Qed.

Lemma kind_size_range k : 0 < kind_size k < 2 ^ 10.
Proof. by destruct k. Qed.

Lemma value_size_nonneg d : 0 ≤ value_size d.
Proof. destruct d; cbn; lia. Qed.

Lemma row_bill_nonneg a r : 0 ≤ row_bill a r.
Proof.
  unfold row_bill, row_size. pose proof (kind_size_range (row_kind r)). pose proof (value_size_nonneg (data r)).
  destruct (_ =? _); lia.
Qed.

Lemma table_bill_nonneg a t : 0 ≤ table_bill a t.
Proof. unfold table_bill. by destruct (_ =? _). Qed.

(** *** Rows and tables *)

Lemma find_table_Some c co sc ta t : find_table c co sc ta = Some t →
  ∃ tab, tables c !! t = Some tab ∧ code tab = co ∧ scope tab = sc ∧ table tab = ta.
Proof.
  unfold find_table. intros ([t' tab] & [Hin%elem_of_map_to_list Hk]%head_filter_Some & ->)%fmap_Some. by exists tab.
Qed.

Lemma find_table_None c co sc ta : find_table c co sc ta = None → ∀ t tab,
  tables c !! t = Some tab → code tab = co → scope tab = sc → table tab = ta → False.
Proof.
  unfold find_table. intros H%fmap_None t tab Ht E1 E2 E3.
  eapply (head_filter_None _ _ H (t, tab)); [by apply elem_of_map_to_list|done].
Qed.

Lemma create_row_Ok c r c' ptr : create_row c r = Ok (c', ptr) →
  ptr = next_id c ∧
  (∀ i r', rows c !! i = Some r' → row_kind r' = row_kind r → t_id r' = t_id r → primary_key r' ≠ primary_key r) ∧
  tables c' = tables c ∧ rows c' = <[ptr := r]> (rows c) ∧ next_id c' = next_id c + 1 ∧
  resources c' = resources c ∧ caches c' = caches c.
Proof.
  unfold create_row. intros ([] & H%check_Ok & E)%bind_Ok. injection E as <- <-. split_and!; try done.
  intros i r' Hi Hk Ht Hp. rewrite forallb_forall in H.
  specialize (H (i, r')). rewrite <-list_elem_of_In, elem_of_map_to_list in H. specialize (H Hi). cbn in H.
  rewrite bool_decide_eq_true_2, Ht, Hp, !Z.eqb_refl in H by done. done.
Qed.

Lemma create_row_fault c r f : create_row c r = Throw f → ordinary f.
Proof.
  unfold create_row, check, assert_that. destruct (forallb _ _); cbn; [done|]. intros [= <-]. by eexists.
Qed.

Lemma sum_in_table_zero t (rs : gmap Z row) : (∀ i r, rs !! i = Some r → t_id r ≠ t) → sum_pos (in_table t) rs = 0.
Proof.
  intros H. induction rs as [|i r rs Hi IH] using map_ind; [apply sum_pos_empty|].
  rewrite sum_pos_insert_new by done. rewrite IH.
  - unfold in_table. rewrite (proj2 (Z.eqb_neq _ _)); [done|]. apply (H i). apply lookup_insert_eq.
  - intros j r' Hj. apply (H j). rewrite lookup_insert_ne; [done|]. intros ->. congruence.
Qed.

Lemma in_table_le t r : in_table t r ≤ 1.
Proof. unfold in_table. destruct (_ =? _); lia. Qed.

(** A new, empty table *)
Lemma db_ok_new_table c co sc ta p : db_ok c → find_table c co sc ta = None →
  db_ok_but (Some (next_id c))
    (MkContext (<[next_id c := MkTable co sc ta p 0]> (tables c)) (rows c) (next_id c + 1) (resources c)
       (validate_ram_usage c) (account_ram_deltas c) (caches c)).
Proof.
  intros [Hti Hri Hn Hu Ht Hc Hv] Hnone. pose proof (find_table_None _ _ _ _ Hnone) as Hno.
  assert (tables c !! next_id c = None) as Hfresh.
  { destruct (tables c !! next_id c) as [tab|] eqn:E; [|done]. apply Hti in E. lia. }
  split; cbn.
  - intros t tab [[<- _]|[_ H]]%lookup_insert_Some; [lia|]. apply Hti in H. lia.
  - intros i r H. apply Hri in H. lia.
  - intros t t' tab tab' [[<- <-]|[? H]]%lookup_insert_Some [[<- <-]|[? H']]%lookup_insert_Some; cbn;
      intros; [done|exfalso; by eapply (Hno t' tab')|exfalso; by eapply (Hno t tab)|by eapply Hn].
  - done.
  - intros i r H. rewrite lookup_insert_is_Some'. right. by eapply Ht.
  - intros t tab [[<- <-]|[? H]]%lookup_insert_Some; cbn.
    + split; [|by right]. symmetry. apply sum_in_table_zero. intros i r Hi E. apply Ht in Hi as [tab Hi]. congruence.
    + destruct (Hc t tab H) as [? [?|?]]; [by split; [|left]|done].
  - done.
Qed.

(** The tables of a row that is added or removed *)
Definition recount (t delta : Z) (ts : gmap Z table_id_object) : gmap Z table_id_object :=
  alter (λ tab, MkTable (code tab) (scope tab) (table tab) (table_payer tab) (count tab + delta)) t ts.

Lemma recount_Some t d ts t' tab : recount t d ts !! t' = Some tab → ∃ tab', ts !! t' = Some tab' ∧
  code tab = code tab' ∧ scope tab = scope tab' ∧ table tab = table tab' ∧ table_payer tab = table_payer tab' ∧
  count tab = count tab' + (if t' =? t then d else 0).
Proof.
  unfold recount. destruct (Z.eqb_spec t' t) as [->|Hne].
  - rewrite lookup_alter_eq. intros (tab' & H & ->)%fmap_Some. exists tab'. by cbn.
  - rewrite lookup_alter_ne by done. intros H. exists tab. rewrite Z.add_0_r. done.
Qed.

Lemma recount_is_Some t d ts t' : is_Some (recount t d ts !! t') ↔ is_Some (ts !! t').
Proof. unfold recount. by rewrite lookup_alter_is_Some. Qed.

Lemma db_ok_ext fresh c c' : db_ok_but fresh c → tables c' = tables c → rows c' = rows c →
  next_id c' = next_id c → db_ok_but fresh c'.
Proof. intros [] E1 E2 E3. split; rewrite ?E1, ?E2, ?E3; done. Qed.

Lemma add_count_spec c t d tab : tables c !! t = Some tab → 0 ≤ count tab + d < 2 ^ 32 →
  add_count c t d = Ok (set_tables c (recount t d (tables c))).
Proof.
  intros Ht Hd. unfold add_count, deref, recount. rewrite Ht, alter_alt, Ht. cbn. by rewrite u32_id.
Qed.

Lemma recount_bill a t d ts : sum_pos (table_bill a) (recount t d ts) = sum_pos (table_bill a) ts.
Proof.
  unfold recount. rewrite alter_alt. destruct (ts !! t) as [tab|] eqn:E; [|done].
  rewrite (sum_pos_insert _ _ _ tab) by done. cbn. unfold table_bill. cbn. lia.
Qed.

(** A row is added to its table. *)
Lemma db_ok_insert_row fresh c r c' : db_ok_but fresh c → is_Some (tables c !! t_id r) →
  fresh = None ∨ fresh = Some (t_id r) →
  (∀ i r', rows c !! i = Some r' → row_kind r' = row_kind r → t_id r' = t_id r → primary_key r' ≠ primary_key r) →
  value_size (data r) < 2 ^ 32 →
  tables c' = recount (t_id r) 1 (tables c) → rows c' = <[next_id c := r]> (rows c) →
  next_id c' = next_id c + 1 → db_ok c'.
Proof.
  intros [Hti Hri Hn Hu Ht Hc Hv] Htab Hfr Hkey Hsize E1 E2 E3.
  assert (rows c !! next_id c = None) as Hnew.
  { destruct (rows c !! next_id c) as [r'|] eqn:E; [|done]. apply Hri in E. lia. }
  split; rewrite ?E1, ?E2, ?E3.
  - intros t tab (tab' & H & _)%recount_Some. apply Hti in H. lia.
  - intros i r' [[<- _]|[_ H]]%lookup_insert_Some; [lia|]. apply Hri in H. lia.
  - intros t t' tab tab' (b & Hb & ? & ? & ? & _)%recount_Some (b' & Hb' & ? & ? & ? & _)%recount_Some ???.
    eapply (Hn t t' b b'); congruence.
  - intros i j r1 r2 [[<- <-]|[? H]]%lookup_insert_Some [[<- <-]|[? H']]%lookup_insert_Some ???;
      [done|exfalso; by eapply (Hkey j r2)|exfalso; by eapply (Hkey i r1)|by eapply Hu].
  - intros i r' H. rewrite recount_is_Some.
    apply lookup_insert_Some in H as [[_ <-]|[_ H]]; [done|by eapply Ht].
  - intros t tab (b & Hb & _ & _ & _ & _ & ->)%recount_Some. destruct (Hc t b Hb) as [Hcnt Hpos].
    rewrite sum_pos_insert_new by done. unfold in_table at 1. rewrite (Z.eqb_sym t).
    pose proof (sum_pos_nonneg (in_table t) (rows c)).
    destruct (Z.eqb_spec (t_id r) t) as [<-|Hne]; [split; [lia|left; lia]|].
    split; [lia|left]. destruct Hpos as [?|?]; [lia|]. destruct Hfr as [->| ->]; congruence.
  - intros i r' [[_ <-]|[_ H]]%lookup_insert_Some; [done|by eapply Hv].
Qed.

(** A row is removed from its table. *)
Lemma db_ok_delete_row c ptr r c' : db_ok c → rows c !! ptr = Some r →
  tables c' = recount (t_id r) (-1) (tables c) → rows c' = delete ptr (rows c) →
  next_id c' = next_id c → db_ok_but (Some (t_id r)) c'.
Proof.
  intros [Hti Hri Hn Hu Ht Hc Hv] Hr E1 E2 E3. split; rewrite ?E1, ?E2, ?E3.
  - intros t tab (tab' & H & _)%recount_Some. by apply Hti in H.
  - intros i r' [_ H]%lookup_delete_Some. by apply Hri in H.
  - intros t t' tab tab' (b & Hb & ? & ? & ? & _)%recount_Some (b' & Hb' & ? & ? & ? & _)%recount_Some ???.
    eapply (Hn t t' b b'); congruence.
  - intros i j r1 r2 [_ H]%lookup_delete_Some [_ H']%lookup_delete_Some. by eapply Hu.
  - intros i r' [_ H]%lookup_delete_Some. rewrite recount_is_Some. by eapply Ht.
  - intros t tab (b & Hb & _ & _ & _ & _ & ->)%recount_Some. destruct (Hc t b Hb) as [Hcnt Hpos].
    rewrite (sum_pos_delete _ _ _ _ Hr) in Hcnt. unfold in_table at 1 in Hcnt. rewrite (Z.eqb_sym t).
    destruct (Z.eqb_spec (t_id r) t) as [<-|Hne]; [split; [lia|by right]|].
    split; [lia|left]. destruct Hpos as [?|?]; [lia|done].
  - intros i r' [_ H]%lookup_delete_Some. by eapply Hv.
Qed.

(** A table that has no rows is removed. *)
Lemma db_ok_delete_table c t c' : db_ok_but (Some t) c →
  match tables c !! t with Some tab => count tab = 0 | None => True end →
  tables c' = delete t (tables c) → rows c' = rows c → next_id c' = next_id c → db_ok c'.
Proof.
  intros [Hti Hri Hn Hu Ht Hc Hv] Hz E1 E2 E3. split; rewrite ?E1, ?E2, ?E3; try done.
  - intros t' tab [_ H]%lookup_delete_Some. by apply Hti in H.
  - intros t1 t2 tab tab' [_ H]%lookup_delete_Some [_ H']%lookup_delete_Some. by eapply Hn.
  - intros i r H. apply lookup_delete_is_Some. split; [|by eapply Ht].
    intros ->. destruct (Ht i r H) as [tab Htab]. rewrite Htab in Hz. destruct (Hc _ _ Htab) as [Hcnt _].
    rewrite (sum_pos_delete _ _ _ _ H) in Hcnt. unfold in_table at 1 in Hcnt. rewrite Z.eqb_refl in Hcnt.
    pose proof (sum_pos_nonneg (in_table (t_id r)) (delete i (rows c))). lia.
  - intros t' tab [Hne H]%lookup_delete_Some. destruct (Hc t' tab H) as [? [?|?]]; [by split; [|left]|congruence].
Qed.

Lemma db_ok_not_fresh c t tab : db_ok_but (Some t) c → tables c !! t = Some tab → count tab ≠ 0 → db_ok c.
Proof.
  intros [Hti Hri Hn Hu Ht Hc Hv] Htab Hz. split; try done.
  intros t' tab' H. destruct (Hc t' tab' H) as [Hcnt Hpos]. split; [done|left].
  destruct Hpos as [?|[= ->]]; [done|]. rewrite Htab in H. injection H as <-.
  pose proof (sum_pos_nonneg (in_table t') (rows c)). lia.
Qed.

(** The payer and the data of a row change. *)
Lemma db_ok_modify_row c ptr r p d c' : db_ok c → rows c !! ptr = Some r → data_kind d = row_kind r →
  value_size d < 2 ^ 32 → tables c' = tables c →
  rows c' = <[ptr := MkRow (t_id r) (primary_key r) p d]> (rows c) → next_id c' = next_id c → db_ok c'.
Proof.
  intros [Hti Hri Hn Hu Ht Hc Hv] Hr Hk Hsize E1 E2 E3. split; rewrite ?E1, ?E2, ?E3; try done.
  - intros i r' [[<- _]|[_ H]]%lookup_insert_Some; by eapply Hri.
  - intros i j r1 r2 [[<- <-]|[? H]]%lookup_insert_Some [[<- <-]|[? H']]%lookup_insert_Some ???;
      unfold row_kind in *; cbn in *;
      [done|by apply (Hu _ _ r r2); try congruence|by apply (Hu _ _ r1 r); try congruence|by eapply Hu].
  - intros i r' [[_ <-]|[_ H]]%lookup_insert_Some; [by apply (Ht ptr r)|by eapply Ht].
  - intros t tab H. destruct (Hc t tab H) as [-> ?]. split; [|done].
    rewrite (sum_pos_insert _ _ _ _ _ Hr). unfold in_table. cbn. lia.
  - intros i r' [[_ <-]|[_ H]]%lookup_insert_Some; [done|by eapply Hv].
Qed.

(** *** Reading *)

Lemma least_elem lt p m i r : least lt p m = Some (i, r) → m !! i = Some r ∧ p r = true.
Proof.
  unfold least. rewrite <-elem_of_map_to_list.
  assert (∀ l cur, foldl (better lt) cur l = Some (i, r) → cur = Some (i, r) ∨ (i, r) ∈ l) as Hgen.
  { induction l as [|x l IH]; intros cur H; [by left|]. cbn in H.
    destruct (IH _ H) as [E|?]; [|right; by right]. unfold better in E.
    destruct cur as [y|]; [destruct (lt _ _)|]; [injection E as ->; right; by left|by left|].
    injection E as ->. right. by left. }
  intros [|Hin]%Hgen; [done|]. by apply list_elem_of_filter in Hin as [? ?].
Qed.

(** [c'] differs from [c] in the caches only. *)
Definition reads (c c' : context) : Prop :=
  tables c' = tables c ∧ rows c' = rows c ∧ next_id c' = next_id c ∧ resources c' = resources c.

Lemma cache_table_in_ok c k t : caches_ok c →
  reads c (cache_table_in c k t).1 ∧ caches_ok (cache_table_in c k t).1 ∧
  table_cache (cache_of (cache_table_in c k t).1 k) !! t = Some (cache_table_in c k t).2.
Proof.
  intros Hc. unfold cache_table_in. pose proof (cache_table_ok _ k (cache_of c k) t (Hc k)) as (H1 & H2 & _).
  destruct (cache_table (cache_of c k) t) as [ic ei]. cbn in *. split_and!; [done|by apply caches_ok_set|].
  by rewrite cache_of_set, decide_True.
Qed.

Lemma cache_add_in_ok c k ptr r : caches_ok c → rows c !! ptr = Some r → row_kind r = k →
  is_Some (table_cache (cache_of c k) !! t_id r) →
  reads c (cache_add_in c k ptr).1 ∧ caches_ok (cache_add_in c k ptr).1.
Proof.
  intros Hc Hr Hk Ht. unfold cache_add_in.
  pose proof (cache_add_ok _ k (cache_of c k) ptr r (Hc k) Hr Hk Ht) as [H1 _].
  destruct (cache_add (cache_of c k) ptr) as [ic i]. cbn in *. split; [done|by apply caches_ok_set].
Qed.

Lemma is_kind_true k r : is_kind k r = true ↔ row_kind r = k.
Proof. apply bool_decide_eq_true. Qed.

Lemma found_in_table_ok c k t ei itr : caches_ok c → is_Some (table_cache (cache_of c k) !! t) →
  (∀ ptr r, itr = Some (ptr, r) → rows c !! ptr = Some r ∧ row_kind r = k) →
  reads c (found_in_table c k t ei itr).1.1 ∧ caches_ok (found_in_table c k t ei itr).1.1.
Proof.
  intros Hc Ht Hitr. destruct itr as [[ptr r]|]; cbn; [|done].
  destruct (Hitr ptr r eq_refl) as [Hr Hk]. destruct (Z.eqb_spec (t_id r) t) as [E|]; [|done].
  rewrite <-E in Ht. pose proof (cache_add_in_ok c k ptr r Hc Hr Hk Ht) as H.
  by destruct (cache_add_in c k ptr) as [c' i].
Qed.

Lemma before_in_table_ok c k t itr : caches_ok c → is_Some (table_cache (cache_of c k) !! t) →
  (∀ ptr r, itr = Some (ptr, r) → rows c !! ptr = Some r ∧ row_kind r = k) →
  reads c (before_in_table c k t itr).1.1 ∧ caches_ok (before_in_table c k t itr).1.1.
Proof. apply (found_in_table_ok c k t (-1) itr). Qed.

Lemma reads_trans c1 c2 c3 : reads c1 c2 → reads c2 c3 → reads c1 c3.
Proof. unfold reads. naive_solver congruence. Qed.

Lemma search_ok lt p c k co sc ta : caches_ok c →
  reads c (search lt p c k co sc ta).1.1 ∧ caches_ok (search lt p c k co sc ta).1.1.
Proof.
  intros Hc. unfold search. destruct (find_table c co sc ta) as [t|]; [|done].
  pose proof (cache_table_in_ok c k t Hc) as (H1 & H2 & H3).
  destruct (cache_table_in c k t) as [c1 ei]. cbn [fst snd] in *.
  assert (rows c1 = rows c) as E by apply H1.
  destruct (found_in_table_ok c1 k t ei (least lt (λ r, is_kind k r && p t r) (rows c1))) as [H4 H5];
    [done|by rewrite H3| |].
  - intros ptr r [? [? _]%andb_true_iff]%least_elem. split; [done|]. by apply is_kind_true.
  - split; [by eapply reads_trans|done].
Qed.

Lemma head_filter_elem {A} (P : A → Prop) `{∀ x, Decision (P x)} (l : list A) x :
  head (filter P l) = Some x → P x ∧ x ∈ l.
Proof.
  intros Hx. assert (x ∈ filter P l) as Hin; [|by apply list_elem_of_filter in Hin].
  destruct (filter P l); [done|]. injection Hx as ->. by left.
Qed.

Lemma search_exact_ok p c k co sc ta : caches_ok c →
  reads c (search_exact p c k co sc ta).1.1 ∧ caches_ok (search_exact p c k co sc ta).1.1.
Proof.
  intros Hc. unfold search_exact. destruct (find_table c co sc ta) as [t|]; [|done].
  pose proof (cache_table_in_ok c k t Hc) as (H1 & H2 & H3).
  destruct (cache_table_in c k t) as [c1 ei]. cbn [fst snd] in *.
  match goal with |- context [found_in_table c1 k t ei ?itr] =>
    destruct (found_in_table_ok c1 k t ei itr) as [H4 H5]; [done|by rewrite H3| |] end.
  - intros ptr r [Hp Hin%elem_of_map_to_list]%head_filter_elem. cbn in Hp. split; [done|].
    apply andb_true_iff in Hp as [[Hp _]%andb_true_iff _]. by apply is_kind_true.
  - split; [by eapply reads_trans|done].
Qed.

Lemma end_of_ok c k co sc ta : caches_ok c →
  reads c (end_of c k co sc ta).1 ∧ caches_ok (end_of c k co sc ta).1.
Proof.
  intros Hc. unfold end_of. destruct (find_table c co sc ta) as [t|]; [|done].
  by pose proof (cache_table_in_ok c k t Hc) as (? & ? & _).
Qed.

Lemma find_secondary_ok c co sc ta v : caches_ok c →
  reads c (find_secondary c co sc ta v).1.1 ∧ caches_ok (find_secondary c co sc ta v).1.1.
Proof.
  intros Hc. unfold find_secondary. destruct (find_table c co sc ta) as [t|]; [|done].
  pose proof (cache_table_in_ok c (data_kind v) t Hc) as (H1 & H2 & H3).
  destruct (cache_table_in c (data_kind v) t) as [c1 ei]. cbn [fst snd] in *.
  match goal with |- context [found_in_table c1 ?k t ei ?itr] =>
    destruct (found_in_table_ok c1 k t ei itr) as [H4 H5]; [done|by rewrite H3| |] end.
  - intros ptr r [? [[Hp _]%andb_true_iff _]%andb_true_iff]%least_elem. split; [done|]. by apply is_kind_true.
  - split; [by eapply reads_trans|done].
Qed.

(** An iterator at a row: the row is there, its kind fits and its table is cached. *)
Lemma cached_row c k it ptr : caches_ok c → cache_get (cache_of c k) it = Ok ptr →
  ∃ r, rows c !! ptr = Some r ∧ row_kind r = k ∧ is_Some (table_cache (cache_of c k) !! t_id r).
Proof. intros Hc [_ H]%cache_get_Ok. by destruct (co_object _ _ _ (Hc k) _ _ H) as [_ ?]. Qed.

Lemma next_ok lt c k it : caches_ok c →
  match next lt c k it with
  | Ok r => reads c r.1.1 ∧ caches_ok r.1.1
  | Throw f => ordinary f
  end.
Proof.
  intros Hc. unfold next. destruct (it <? -1); [done|].
  destruct (cache_get (cache_of c k) it) as [ptr|f] eqn:Eg; cbn; [|by apply cache_get_fault in Eg].
  destruct (cached_row c k it ptr Hc Eg) as (obj & Hobj & Hk & Htab). unfold deref. rewrite Hobj. cbn.
  assert (match (ei ← get_end_iterator_by_table_id (cache_of c k) (t_id obj); Ok (c, ei, @None row)) with
    | Ok r => reads c r.1.1 ∧ caches_ok r.1.1 | Throw f => ordinary f end) as Hend.
  { unfold get_end_iterator_by_table_id. destruct Htab as [ei ->]. done. }
  destruct (least _ _ _) as [[ptr' r]|] eqn:El; [|exact Hend].
  destruct (Z.eqb_spec (t_id r) (t_id obj)) as [E|]; [|exact Hend].
  apply least_elem in El as [Hr [Hk'%is_kind_true _]%andb_true_iff]. rewrite <-E in Htab.
  pose proof (cache_add_in_ok c k ptr' r Hc Hr Hk' Htab). by destruct (cache_add_in c k ptr').
Qed.

(** The end iterator of a table that has been removed *)
Definition stale_end (c : context) (k : object_kind) (it : Z) : Prop :=
  it < -1 ∧ ∃ t, end_iterator_to_table (cache_of c k) !! Z.to_nat (end_iterator_to_index it) = Some t ∧
    tables c !! t = None.

Lemma previous_ok lt c k it : caches_ok c →
  match previous lt c k it with
  | Ok r => reads c r.1.1 ∧ caches_ok r.1.1
  | Throw f => ordinary f ∨ f = Undefined ∧ stale_end c k it
  end.
Proof.
  intros Hc. unfold previous. destruct (Z.ltb_spec it (-1)) as [Hit|Hit].
  - unfold find_table_by_end_iterator, check, assert_that. rewrite (proj2 (Z.ltb_lt _ _) Hit). cbn.
    destruct (end_iterator_to_table _ !! _) as [t|] eqn:Et; [|left; by eexists].
    unfold deref. destruct (tables c !! t) as [tab|] eqn:Etab; cbn; [|right; split; [done|by split; [|exists t]]].
    apply before_in_table_ok; [done|by rewrite (co_end _ _ _ (Hc k) _ _ Et)|].
    intros ptr r [? [? _]%andb_true_iff]%least_elem. split; [done|]. by apply is_kind_true.
  - destruct (cache_get (cache_of c k) it) as [ptr|f] eqn:Eg; cbn; [|left; by apply cache_get_fault in Eg].
    destruct (cached_row c k it ptr Hc Eg) as (obj & Hobj & Hk & Htab). unfold deref. rewrite Hobj. cbn.
    apply before_in_table_ok; [done|done|].
    intros ptr' r [? [? _]%andb_true_iff]%least_elem. split; [done|]. by apply is_kind_true.
Qed.

(** *** Writing *)

(** What each call guarantees: the invariant, and bills that follow the storage. *)
Definition good (c : context) (res : result fault context) : Prop :=
  match res with
  | Ok c' => db_ok c' ∧ caches_ok c' ∧ bills c c' (λ a, storage c' a - storage c a)
  | Throw f => ordinary f
  end.

Lemma check_ordinary b e : e ≠ table_not_in_cache →
  match check b e with Ok _ => b = true | Throw f => ordinary f end.
Proof. intros He. unfold check, assert_that. destruct b; cbn; [done|by exists e]. Qed.

Lemma caches_ok_ext c c' : caches_ok c → rows c' = rows c → caches c' = caches c → caches_ok c'.
Proof. intros H E1 E2 k. unfold cache_of. rewrite E1, E2. apply H. Qed.

Lemma caches_ok_insert c c' ptr r : caches_ok c → rows c !! ptr = None → rows c' = <[ptr := r]> (rows c) →
  caches c' = caches c → caches_ok c'.
Proof.
  intros H Hn E1 E2 k. unfold cache_of. rewrite E1, E2. apply (cache_ok_rows (rows c)); [apply H|].
  intros p r' Hr' Hk. exists r'. split_and!; [|done..]. rewrite lookup_insert_ne; [done|]. congruence.
Qed.

Lemma caches_ok_modify c c' ptr r r' : caches_ok c → rows c !! ptr = Some r → rows c' = <[ptr := r']> (rows c) →
  row_kind r' = row_kind r → t_id r' = t_id r → caches c' = caches c → caches_ok c'.
Proof.
  intros H Hr E1 Hk Ht E2 k. unfold cache_of. rewrite E1, E2. apply (cache_ok_rows (rows c)); [apply H|].
  intros p r1 Hr1 Hk1. destruct (decide (p = ptr)) as [->|Hne].
  - exists r'. rewrite lookup_insert_eq. rewrite Hr in Hr1. injection Hr1 as ->. split_and!; congruence.
  - exists r1. by rewrite lookup_insert_ne.
Qed.

Lemma storage_ext c c' a : tables c' = tables c → rows c' = rows c → storage c' a = storage c a.
Proof. unfold storage. by intros -> ->. Qed.

Lemma bills_zero c c' : ram_range c → resources c' = resources c → bills c c' (λ _, 0).
Proof. intros Hr E a. rewrite E. specialize (Hr a). lia. Qed.

Lemma bills_ext c c' f g : bills c c' f → (∀ a, f a = g a) → bills c c' g.
Proof. intros H E a. rewrite <-E. apply H. Qed.

Lemma bills_resources c1 c2 c1' c2' f : bills c1 c2 f → resources c1' = resources c1 →
  resources c2' = resources c2 → bills c1' c2' f.
Proof. intros H E1 E2 a. rewrite E1, E2. apply H. Qed.

(** Reading keeps everything. *)
Lemma reads_good c c' : db_ok c → ram_range c → reads c c' → caches_ok c' → good c (Ok c').
Proof.
  intros Hdb Hr (E1 & E2 & E3 & E4) Hc. split_and!; [by eapply db_ok_ext|done|].
  eapply bills_ext; [by apply bills_zero|]. intros a. cbn. rewrite (storage_ext c c' a) by done. lia.
Qed.

Lemma find_or_create_table_spec env c co sc ta p : db_ok c → caches_ok c → ram_range c →
  match find_or_create_table env c co sc ta p with
  | Ok (c', t) => (∃ fresh, (fresh = None ∨ fresh = Some t) ∧ db_ok_but fresh c') ∧ caches_ok c' ∧
      bills c c' (λ a, storage c' a - storage c a) ∧ is_Some (tables c' !! t) ∧ rows c' = rows c
  | Throw f => ordinary f
  end.
Proof.
  intros Hdb Hc Hr. unfold find_or_create_table. destruct (find_table c co sc ta) as [t|] eqn:Ef.
  - split_and!; [exists None; by split; [left|]|done| |by apply find_table_Some in Ef as (tab & -> & _)|done].
    eapply bills_ext; [by apply bills_zero|]. cbn. lia.
  - pose proof (update_db_usage_spec env c p table_id_size Hr ltac:(done)) as Hu.
    destruct (update_db_usage env c p table_id_size) as [c1|f]; cbn; [|done].
    destruct Hu as [(E1 & E2 & E3 & E4) Hb].
    assert (db_ok c1) as Hdb1 by (by eapply db_ok_ext).
    assert (find_table c1 co sc ta = None) as Ef1 by (unfold find_table in *; by rewrite E1).
    assert (tables c1 !! next_id c1 = None) as Hnew.
    { destruct (tables c1 !! next_id c1) as [tab|] eqn:E; [|done]. apply (ok_table_ids _ _ Hdb1) in E. lia. }
    split_and!.
    + exists (Some (next_id c1)). split; [by right|]. by apply db_ok_new_table.
    + by apply (caches_ok_ext c).
    + eapply bills_ext; [by eapply bills_resources|]. intros a. unfold storage. cbn.
      rewrite sum_pos_insert_new by done. rewrite E1, E2.
      unfold table_bill at 1. cbn. rewrite (Z.eqb_sym p).
      destruct (a =? p); [assert (0 ≤ table_id_size) by done|]; lia.
    + cbn. by rewrite lookup_insert_eq.
    + done.
Qed.

Lemma store_row_spec fresh env c r : db_ok_but fresh c → fresh = None ∨ fresh = Some (t_id r) →
  caches_ok c → ram_range c → is_Some (tables c !! t_id r) →
  Z.of_nat (size (rows c)) + 1 < 2 ^ 32 → value_size (data r) < 2 ^ 32 →
  good c (fst <$> store_row env c r (row_size r)).
Proof.
  intros Hdb Hfr Hc Hr [tab Htab] Hsize Hv. unfold store_row.
  destruct (create_row c r) as [[c1 ptr]|f] eqn:Ec; [|by apply create_row_fault in Ec].
  apply create_row_Ok in Ec as (-> & Hkey & E1 & E2 & E3 & E4 & E5). cbn [mbind result_bind].
  assert (rows c !! next_id c = None) as Hnew.
  { destruct (rows c !! next_id c) as [r'|] eqn:E; [|done]. apply (ok_row_ids _ _ Hdb) in E. lia. }
  rewrite (add_count_spec c1 (t_id r) 1 tab); [|by rewrite E1|].
  2: { destruct (ok_count _ _ Hdb _ _ Htab) as [-> _].
    pose proof (sum_pos_nonneg (in_table (t_id r)) (rows c)).
    pose proof (sum_pos_le_size (in_table (t_id r)) (rows c) (in_table_le _)). lia. }
  cbn [mbind result_bind]. set (c2 := set_tables c1 _).
  assert (ram_range c2) as Hr2 by (intros a; cbn; rewrite E4; apply Hr).
  assert (- 2 ^ 63 ≤ row_size r < 2 ^ 63) as Hrs.
  { unfold row_size. pose proof (kind_size_range (row_kind r)). pose proof (value_size_nonneg (data r)). lia. }
  pose proof (update_db_usage_spec env c2 (payer r) (row_size r) Hr2 Hrs) as Hu.
  destruct (update_db_usage env c2 (payer r) (row_size r)) as [c3|f]; cbn [mbind result_bind]; [|done].
  destruct Hu as [(F1 & F2 & F3 & F4) Hb]. cbn in F1, F2, F3, F4.
  assert (db_ok c3) as Hdb3.
  { eapply (db_ok_insert_row fresh c r); [done|by rewrite Htab|done|done|done| | |]; rewrite ?F1, ?F2, ?F3, ?E1, ?E2, ?E3; done. }
  assert (caches_ok c3) as Hc3.
  { eapply (caches_ok_insert c _ (next_id c) r); [done|done|congruence|congruence]. }
  pose proof (cache_table_in_ok c3 (row_kind r) (t_id r) Hc3) as (G1 & G2 & G3).
  destruct (cache_table_in c3 (row_kind r) (t_id r)) as [c4 ei]. cbn [fst snd] in *.
  assert (rows c4 !! next_id c = Some r) as Hrow.
  { assert (rows c4 = rows c3) as -> by apply G1. rewrite F2, E2. apply lookup_insert_eq. }
  pose proof (cache_add_in_ok c4 (row_kind r) (next_id c) r G2 Hrow eq_refl ltac:(by rewrite G3)) as [K1 K2].
  destruct (cache_add_in c4 (row_kind r) (next_id c)) as [c5 i]. cbn [fst snd fmap result_fmap] in *.
  pose proof (reads_trans _ _ _ G1 K1) as (L1 & L2 & L3 & L4).
  split_and!; [by eapply db_ok_ext|done|].
  eapply bills_ext; [eapply (bills_resources c2 c3); [done|by rewrite <-E4|done]|].
  intros a. cbn. unfold storage. rewrite L1, L2, F1, F2, E1, E2, recount_bill, sum_pos_insert_new by done.
  pose proof (row_bill_nonneg a r) as Hnn. assert (row_bill a r = if a =? payer r then row_size r else 0) as E
    by (unfold row_bill; by rewrite Z.eqb_sym).
  destruct (a =? payer r); lia.
Qed.

Lemma store_good env c t0 v sz k p :
  db_ok c → caches_ok c → ram_range c → Z.of_nat (size (rows c)) + 1 < 2 ^ 32 →
  value_size v < 2 ^ 32 → sz = value_size v + kind_size (data_kind v) →
  good c (fst <$> ('(c, t) ← find_or_create_table env c (receiver env) t0.1 t0.2 p;
                   _ ← check (negb (p =? 0)) invalid_table_payer;
                   store_row env c (MkRow t k p v) sz)).
Proof.
  intros Hdb Hc Hr Hsize Hv ->.
  pose proof (find_or_create_table_spec env c (receiver env) t0.1 t0.2 p Hdb Hc Hr) as H.
  destruct (find_or_create_table _ _ _ _ _ _) as [[c1 t]|f]; cbn [mbind result_bind fmap result_fmap]; [|done].
  destruct H as ((fresh & Hfr & Hdb1) & Hc1 & Hb1 & Ht1 & E1).
  pose proof (check_ordinary (negb (p =? 0)) invalid_table_payer ltac:(done)) as Hp.
  destruct (check _ _); cbn [mbind result_bind]; [|done].
  pose proof (store_row_spec fresh env c1 (MkRow t k p v) Hdb1 Hfr Hc1 (bills_range _ _ _ Hb1) Ht1) as Hs.
  rewrite E1 in Hs. specialize (Hs Hsize Hv). unfold row_size, row_kind in Hs. cbn [data] in Hs.
  destruct (store_row _ _ _ _) as [[c2 i]|f]; cbn in *; [|done].
  destruct Hs as (? & ? & Hb2). split_and!; [done|done|].
  eapply bills_ext; [by eapply bills_trans|]. intros x. cbn. lia.
Qed.

Lemma caches_ok_delete c c' k it ptr r ic : caches_ok c → rows c !! ptr = Some r → row_kind r = k →
  cache_get (cache_of c k) it = Ok ptr → cache_remove (cache_of c k) it = Ok ic →
  rows c' = delete ptr (rows c) → caches c' = <[k := ic]> (caches c) → caches_ok c'.
Proof.
  intros Hc Hr Hk Hg Hrem E1 E2 k'. unfold cache_of. rewrite E1, E2.
  destruct (decide (k' = k)) as [->|Hne].
  - rewrite lookup_insert_eq. destruct (cache_remove_ok _ k _ it ptr (Hc k) Hg) as (ic' & H1 & H2).
    cbn. congruence.
  - rewrite lookup_insert_ne by done. apply (cache_ok_rows (rows c)); [apply Hc|].
    intros p r' Hr' Hk'. exists r'. split_and!; [|done..]. rewrite lookup_delete_ne; [done|]. congruence.
Qed.

Lemma remove_table_spec env c t tab : db_ok_but (Some t) c → ram_range c → tables c !! t = Some tab →
  count tab = 0 →
  match remove_table env c t with
  | Ok c' => db_ok c' ∧ rows c' = rows c ∧ caches c' = caches c ∧
      bills c c' (λ a, storage c' a - storage c a)
  | Throw f => ordinary f
  end.
Proof.
  intros Hdb Hr Ht Hz. unfold remove_table, deref. rewrite Ht. cbn [mbind result_bind].
  pose proof (update_db_usage_spec env c (table_payer tab) (- table_id_size) Hr ltac:(done)) as Hu.
  destruct (update_db_usage _ _ _ _) as [c1|f]; cbn [mbind result_bind]; [|done].
  destruct Hu as [(E1 & E2 & E3 & E4) Hb]. split_and!; cbn; [|done|done|].
  - eapply (db_ok_delete_table c t); [done|by rewrite Ht| |done|done]. cbn. by rewrite E1.
  - eapply bills_ext; [by eapply bills_resources|]. intros a. unfold storage. cbn. rewrite E1, E2.
    rewrite (sum_pos_delete (table_bill a) (tables c) t tab Ht). unfold table_bill at 2.
    rewrite (Z.eqb_sym (table_payer tab)). assert (0 ≤ table_id_size) by done.
    destruct (a =? table_payer tab); lia.
Qed.

Lemma remove_row_spec env c k it ptr r : db_ok c → caches_ok c → ram_range c →
  Z.of_nat (size (rows c)) + 1 < 2 ^ 32 → cache_get (cache_of c k) it = Ok ptr →
  rows c !! ptr = Some r → row_kind r = k →
  match remove_row env c k it ptr (t_id r) with
  | Ok c' => db_ok c' ∧ caches_ok c' ∧ bills c c' (λ a, storage c' a - storage c a + row_bill a r)
  | Throw f => ordinary f
  end.
Proof.
  intros Hdb Hc Hr Hsize Hg Hrow Hk. unfold remove_row.
  destruct (ok_tables _ _ Hdb _ _ Hrow) as [tab Htab].
  destruct (ok_count _ _ Hdb _ _ Htab) as [Hcnt [Hpos|]]; [|done].
  rewrite (add_count_spec c (t_id r) (-1) tab Htab).
  2: { pose proof (sum_pos_le_size (in_table (t_id r)) (rows c) (in_table_le _)). lia. }
  cbn [mbind result_bind]. set (c1 := set_rows _ _).
  assert (db_ok_but (Some (t_id r)) c1) as Hdb1 by (by eapply (db_ok_delete_row c ptr r)).
  assert (ram_range c1) as Hr1 by exact Hr.
  assert (∀ a, storage c1 a = storage c a - row_bill a r) as Hst.
  { intros a. unfold storage. cbn. rewrite recount_bill, (sum_pos_delete (row_bill a) (rows c) ptr r Hrow).
    pose proof (row_bill_nonneg a r). lia. }
  assert (∃ tab1, tables c1 !! t_id r = Some tab1) as [tab1 Htab1].
  { apply recount_is_Some. by rewrite Htab. }
  rewrite (proj2 (deref_Ok _ _ _) Htab1). cbn [mbind result_bind].
  assert (match (if count tab1 =? 0 then remove_table env c1 (t_id r) else Ok c1) with
    | Ok c2 => db_ok c2 ∧ rows c2 = rows c1 ∧ caches c2 = caches c1 ∧
        bills c1 c2 (λ a, storage c2 a - storage c1 a)
    | Throw f => ordinary f end) as Hrt.
  { destruct (Z.eqb_spec (count tab1) 0) as [Hz|Hz]; [by eapply remove_table_spec|].
    split_and!; [by eapply db_ok_not_fresh|done|done|]. eapply bills_ext; [by apply bills_zero|]. cbn. lia. }
  destruct (if count tab1 =? 0 then _ else _) as [c2|f]; cbn [mbind result_bind]; [|done].
  destruct Hrt as (Hdb2 & E2 & E3 & Hb).
  destruct (cache_remove_ok _ k (cache_of c k) it ptr (Hc k) Hg) as (ic & Hic & _).
  assert (cache_of c2 k = cache_of c k) as -> by (unfold cache_of; by rewrite E3).
  rewrite Hic. cbn. split_and!.
  - by eapply db_ok_ext.
  - eapply (caches_ok_delete c _ k it ptr r ic); try done. cbn. by rewrite E3.
  - eapply bills_ext; [by eapply bills_resources|]. intros a. cbn.
    rewrite (storage_ext c2 (set_cache c2 k ic)) by done. rewrite Hst. lia.
Qed.

(** The table of a cached row *)
Lemma cached_table c k r : db_ok c → is_Some (table_cache (cache_of c k) !! t_id r) →
  get_table (cache_of c k) (t_id r) = Ok (t_id r).
Proof. intros _ Ht. unfold get_table, check, assert_that. by rewrite bool_decide_eq_true_2. Qed.

(** Refunding a row and removing it *)
Lemma refund_remove_good env c c1 k it ptr r : db_ok c → caches_ok c →
  Z.of_nat (size (rows c)) + 1 < 2 ^ 32 → cache_get (cache_of c k) it = Ok ptr →
  rows c !! ptr = Some r → row_kind r = k →
  same_db c c1 → bills c c1 (λ a, if a =? payer r then - row_size r else 0) →
  good c (remove_row env c1 k it ptr (t_id r)).
Proof.
  intros Hdb Hc Hsize Hg Hrow Hk (E1 & E2 & E3 & E4) Hb.
  assert (cache_of c1 k = cache_of c k) as Ec by (unfold cache_of; by rewrite E4).
  pose proof (remove_row_spec env c1 k it ptr r) as Hrem. rewrite Ec, E2 in Hrem.
  specialize (Hrem ltac:(by eapply db_ok_ext) ltac:(by eapply caches_ok_ext) (bills_range _ _ _ Hb) Hsize Hg Hrow Hk).
  destruct (remove_row _ _ _ _ _ _) as [c2|f]; [|done]. destruct Hrem as (? & ? & Hb2).
  split_and!; [done|done|]. eapply bills_ext; [by eapply bills_trans|]. intros a. cbn.
  rewrite (storage_ext c c1) by done. unfold row_bill. rewrite (Z.eqb_sym (payer r)). destruct (a =? payer r); lia.
Qed.

Lemma row_size_value r : row_kind r = key_value_object →
  row_size r = value_size (data r) + kind_size key_value_object.
Proof. intros Hk. unfold row_size. by rewrite Hk. Qed.

Lemma row_size_index r : row_kind r ≠ key_value_object → row_size r = kind_size (row_kind r).
Proof. unfold row_size, row_kind. by destruct (data r). Qed.

Lemma row_size_range r : value_size (data r) < 2 ^ 32 → 0 < row_size r < 2 ^ 62.
Proof.
  intros. unfold row_size. pose proof (kind_size_range (row_kind r)). pose proof (value_size_nonneg (data r)). lia.
Qed.

Lemma db_remove_good env c it : db_ok c → caches_ok c → ram_range c →
  Z.of_nat (size (rows c)) + 1 < 2 ^ 32 → good c (db_remove_i64 env c it).
Proof.
  intros Hdb Hc Hr Hsize. unfold db_remove_i64.
  destruct (cache_get _ it) as [ptr|f] eqn:Eg; cbn [mbind result_bind]; [|by apply cache_get_fault in Eg].
  destruct (cached_row c _ it ptr Hc Eg) as (r & Hrow & Hk & Ht).
  rewrite (proj2 (deref_Ok _ _ _) Hrow). cbn [mbind result_bind]. rewrite cached_table by done. cbn [mbind result_bind].
  destruct (ok_tables _ _ Hdb _ _ Hrow) as [tab Htab].
  rewrite (proj2 (deref_Ok _ _ _) Htab), <-row_size_value by done. cbn [mbind result_bind].
  pose proof (check_ordinary (code tab =? receiver env) table_access_violation ltac:(done)) as Hchk.
  destruct (check _ _); cbn [mbind result_bind]; [|done].
  pose proof (row_size_range r (ok_values _ _ Hdb _ _ Hrow)).
  pose proof (update_db_usage_spec env c (payer r) (- row_size r) Hr ltac:(lia)) as Hu.
  destruct (update_db_usage _ _ _ _) as [c1|f]; cbn [mbind result_bind]; [|done]. destruct Hu as [Hsame Hb].
  by eapply refund_remove_good.
Qed.

Lemma index_remove_good env c k it : k ≠ key_value_object → db_ok c → caches_ok c → ram_range c →
  Z.of_nat (size (rows c)) + 1 < 2 ^ 32 → good c (index_remove env c k it).
Proof.
  intros Hne Hdb Hc Hr Hsize. unfold index_remove.
  destruct (cache_get _ it) as [ptr|f] eqn:Eg; cbn [mbind result_bind]; [|by apply cache_get_fault in Eg].
  destruct (cached_row c _ it ptr Hc Eg) as (r & Hrow & <- & Ht).
  rewrite (proj2 (deref_Ok _ _ _) Hrow), <-row_size_index by done. cbn [mbind result_bind].
  pose proof (row_size_range r (ok_values _ _ Hdb _ _ Hrow)).
  pose proof (update_db_usage_spec env c (payer r) (- row_size r) Hr ltac:(lia)) as Hu.
  destruct (update_db_usage _ _ _ _) as [c1|f]; cbn [mbind result_bind]; [|done]. destruct Hu as [Hsame Hb].
  assert (cache_of c1 (row_kind r) = cache_of c (row_kind r)) as ->.
  { unfold cache_of. destruct Hsame as (_ & _ & _ & E4). by rewrite E4. }
  rewrite cached_table by done. cbn [mbind result_bind].
  destruct (ok_tables _ _ Hdb _ _ Hrow) as [tab Htab]. assert (tables c1 = tables c) as -> by apply Hsame.
  rewrite (proj2 (deref_Ok _ _ _) Htab). cbn [mbind result_bind].
  pose proof (check_ordinary (code tab =? receiver env) table_access_violation ltac:(done)) as Hchk.
  destruct (check _ _); cbn [mbind result_bind]; [|done].
  by eapply refund_remove_good.
Qed.

(** Moving a bill of [old] bytes from payer [p] to [new] bytes of payer [q] *)
Definition rebill (env : action_env) (c : context) (p q old new : Z) : result fault context :=
  if negb (p =? q) then
    c ← update_db_usage env c p (- old); update_db_usage env c q new
  else if negb (old =? new) then update_db_usage env c p (new - old)
  else Ok c.

Lemma rebill_spec env c p q old new : ram_range c → 0 ≤ old < 2 ^ 62 → 0 ≤ new < 2 ^ 62 →
  match rebill env c p q old new with
  | Ok c' => same_db c c' ∧ bills c c' (λ a, (if a =? q then new else 0) - (if a =? p then old else 0))
  | Throw f => ordinary f
  end.
Proof.
  intros Hr Ho Hn. unfold rebill. destruct (Z.eqb_spec p q) as [<-|Hne]; cbn [negb].
  - destruct (Z.eqb_spec old new) as [<-|Hne]; cbn [negb].
    + split; [done|]. eapply bills_ext; [by apply bills_zero|]. intros a. cbn. lia.
    + pose proof (update_db_usage_spec env c p (new - old) Hr ltac:(lia)) as Hu.
      destruct (update_db_usage _ _ _ _) as [c1|]; [|done]. destruct Hu as [? Hb]. split; [done|].
      eapply bills_ext; [done|]. intros a. cbn. destruct (a =? p); lia.
  - pose proof (update_db_usage_spec env c p (- old) Hr ltac:(lia)) as Hu.
    destruct (update_db_usage env c p _) as [c1|]; cbn [mbind result_bind]; [|done]. destruct Hu as [Hs1 Hb1].
    pose proof (update_db_usage_spec env c1 q new (bills_range _ _ _ Hb1) ltac:(lia)) as Hu.
    destruct (update_db_usage env c1 q new) as [c2|]; [|done]. destruct Hu as [Hs2 Hb2].
    split; [by eapply same_db_trans|]. eapply bills_ext; [by eapply bills_trans|]. intros a. cbn.
    destruct (a =? p), (a =? q); lia.
Qed.

(** A row with a new payer and new data of its kind *)
Lemma modify_good c c1 ptr r p d : db_ok c → caches_ok c → rows c !! ptr = Some r →
  data_kind d = row_kind r → value_size d < 2 ^ 32 → same_db c c1 →
  bills c c1 (λ a, row_bill a (MkRow (t_id r) (primary_key r) p d) - row_bill a r) →
  good c (Ok (set_rows c1 (<[ptr := MkRow (t_id r) (primary_key r) p d]> (rows c1)))).
Proof.
  intros Hdb Hc Hrow Hk Hv (E1 & E2 & E3 & E4) Hb. split_and!.
  - eapply (db_ok_modify_row c ptr r p d); [done|done|done|done|done| |done]. cbn. by rewrite E2.
  - eapply (caches_ok_modify c _ ptr r); [done|done|cbn; by rewrite E2|done|done|done].
  - eapply bills_ext; [by eapply bills_resources|]. intros a. unfold storage. cbn. rewrite E1, E2.
    rewrite (sum_pos_insert _ _ _ _ _ Hrow). pose proof (row_bill_nonneg a r).
    pose proof (row_bill_nonneg a (MkRow (t_id r) (primary_key r) p d)). lia.
Qed.

Lemma db_update_good env c it p buffer : db_ok c → caches_ok c → ram_range c →
  Z.of_nat (length buffer) < 2 ^ 32 → good c (db_update_i64 env c it p buffer).
Proof.
  intros Hdb Hc Hr Hlen. unfold db_update_i64.
  destruct (cache_get _ it) as [ptr|f] eqn:Eg; cbn [mbind result_bind]; [|by apply cache_get_fault in Eg].
  destruct (cached_row c _ it ptr Hc Eg) as (r & Hrow & Hk & Ht).
  rewrite (proj2 (deref_Ok _ _ _) Hrow). cbn [mbind result_bind]. rewrite cached_table by done. cbn [mbind result_bind].
  destruct (ok_tables _ _ Hdb _ _ Hrow) as [tab Htab].
  rewrite (proj2 (deref_Ok _ _ _) Htab), <-row_size_value by done. cbn [mbind result_bind].
  pose proof (check_ordinary (code tab =? receiver env) table_access_violation ltac:(done)) as Hchk.
  destruct (check _ _); cbn [mbind result_bind]; [|done].
  set (q := if p =? 0 then payer r else p). set (r' := MkRow (t_id r) (primary_key r) q (Value buffer)).
  assert (Z.of_nat (length buffer) + kind_size key_value_object = row_size r') as -> by done.
  pose proof (row_size_range r (ok_values _ _ Hdb _ _ Hrow)). pose proof (row_size_range r' Hlen).
  pose proof (rebill_spec env c (payer r) q (row_size r) (row_size r') Hr ltac:(lia) ltac:(lia)) as Hb.
  unfold rebill in Hb. destruct (if negb (payer r =? q) then _ else _) as [c1|f]; cbn [mbind result_bind]; [|done].
  destruct Hb as [Hsame Hb]. eapply (modify_good c c1 ptr r); try done.
  eapply bills_ext; [done|]. intros x. unfold row_bill. cbn [payer]. rewrite (Z.eqb_sym q), (Z.eqb_sym (payer r)). done.
Qed.

Lemma index_update_good env c it p v : data_kind v ≠ key_value_object → db_ok c → caches_ok c →
  ram_range c → good c (index_update env c it p v).
Proof.
  intros Hne Hdb Hc Hr. unfold index_update.
  destruct (cache_get _ it) as [ptr|f] eqn:Eg; cbn [mbind result_bind]; [|by apply cache_get_fault in Eg].
  destruct (cached_row c _ it ptr Hc Eg) as (r & Hrow & Hk & Ht).
  rewrite (proj2 (deref_Ok _ _ _) Hrow). cbn [mbind result_bind]. rewrite cached_table by done. cbn [mbind result_bind].
  destruct (ok_tables _ _ Hdb _ _ Hrow) as [tab Htab].
  rewrite (proj2 (deref_Ok _ _ _) Htab). cbn [mbind result_bind].
  pose proof (check_ordinary (code tab =? receiver env) table_access_violation ltac:(done)) as Hchk.
  destruct (check _ _); cbn [mbind result_bind]; [|done].
  set (q := if p =? 0 then payer r else p). set (r' := MkRow (t_id r) (primary_key r) q v).
  assert (value_size v = 0) as Hv0 by (by destruct v).
  assert (row_size r = kind_size (data_kind v)) as E1 by (rewrite <-Hk; apply row_size_index; congruence).
  assert (row_size r' = kind_size (data_kind v)) as E2 by (by apply (row_size_index r')).
  pose proof (kind_size_range (data_kind v)).
  pose proof (rebill_spec env c (payer r) q (row_size r) (row_size r') Hr ltac:(lia) ltac:(lia)) as Hb.
  unfold rebill in Hb. rewrite E1, E2, Z.eqb_refl in Hb. cbn [negb] in Hb.
  destruct (if negb (payer r =? q) then _ else _) as [c1|f]; cbn [mbind result_bind]; [|done].
  destruct Hb as [Hsame Hb]. eapply (modify_good c c1 ptr r); try done; [lia|].
  eapply bills_ext; [done|]. intros x. unfold row_bill. cbn [payer]. rewrite (Z.eqb_sym q), (Z.eqb_sym (payer r)).
  fold r'. by rewrite E1, E2.
Qed.

Lemma index_store_good env c sc ta p id v : data_kind v ≠ key_value_object → db_ok c → caches_ok c →
  ram_range c → Z.of_nat (size (rows c)) + 1 < 2 ^ 32 → good c (fst <$> index_store env c sc ta p id v).
Proof.
  intros Hne Hdb Hc Hr Hsize. unfold index_store.
  assert (value_size v = 0) as Hv0 by (by destruct v).
  pose proof (store_good env c (sc, ta) v (kind_size (data_kind v)) id p Hdb Hc Hr Hsize ltac:(lia) ltac:(lia)) as Hs.
  pose proof (check_ordinary (negb (p =? 0)) invalid_table_payer ltac:(done)) as Hp.
  destruct (check _ _) as [[]|f]; cbn [mbind result_bind fmap result_fmap fst snd] in *; [|done].
  by destruct (find_or_create_table _ _ _ _ _ _) as [[c1 t]|f].
Qed.

(** ** Every call *)

(** The calls that follow a dangling pointer: [previous] at the end of a table that has
    been removed since *)
Definition dangling (c : context) (call : db_call) : Prop :=
  match call with
  | DbPrevious i => stale_end c key_value_object i
  | PreviousSecondary k i | PreviousPrimary k i => stale_end c k i
  | _ => False
  end.

Definition safe (c : context) (call : db_call) (res : result fault (context * Z)) : Prop :=
  match res with
  | Ok (c', _) => db_ok c' ∧ caches_ok c' ∧ bills c c' (λ a, storage c' a - storage c a)
  | Throw f => ordinary f ∨ f = Undefined ∧ dangling c call
  end.

Lemma safe_state c call res : good c res → safe c call (c' ← res; Ok (c', 0)).
Proof. destruct res; cbn; [done|by left]. Qed.

Lemma safe_state_pair c call res : good c (fst <$> res) → safe c call res.
Proof. destruct res as [[]|]; cbn; [done|by left]. Qed.

Lemma safe_read c call c' i : db_ok c → ram_range c → reads c c' ∧ caches_ok c' → safe c call (Ok (c', i)).
Proof. intros Hdb Hr [? ?]. by apply (reads_good c c'). Qed.

Lemma safe_reads c call (x : context * Z * option row) : db_ok c → ram_range c →
  reads c x.1.1 ∧ caches_ok x.1.1 → safe c call (Ok x.1).
Proof. destruct x as [[] ]. apply safe_read. Qed.

Lemma safe_next lt c call k it : db_ok c → caches_ok c → ram_range c →
  safe c call (r ← next lt c k it; Ok r.1).
Proof.
  intros Hdb Hc Hr. pose proof (next_ok lt c k it Hc) as H.
  destruct (next lt c k it); cbn [mbind result_bind]; [by apply safe_reads|by left].
Qed.

Lemma safe_previous lt c call k it : db_ok c → caches_ok c → ram_range c → (stale_end c k it → dangling c call) →
  safe c call (r ← previous lt c k it; Ok r.1).
Proof.
  intros Hdb Hc Hr Hd. pose proof (previous_ok lt c k it Hc) as H.
  destruct (previous lt c k it); cbn [mbind result_bind]; [by apply safe_reads|]. unfold safe. naive_solver.
Qed.

(** Reading the row of an iterator *)
Lemma safe_get {A} c call k it (f : row → A) (g : A → Z) : db_ok c → caches_ok c → ram_range c →
  safe c call (a ← (ptr ← cache_get (cache_of c k) it; obj ← deref (rows c) ptr; Ok (f obj)); Ok (c, g a)).
Proof.
  intros Hdb Hc Hr. destruct (cache_get _ it) as [ptr|e] eqn:Eg; cbn [mbind result_bind].
  - destruct (cached_row c _ it ptr Hc Eg) as (r & Hrow & _).
    rewrite (proj2 (deref_Ok _ _ _) Hrow). cbn. by apply (reads_good c c).
  - left. by apply cache_get_fault in Eg.
Qed.

Lemma exec_safe env c call : db_ok c → caches_ok c → ram_range c → call_ok c call →
  safe c call (exec env c call).
Proof.
  intros Hdb Hc Hr [Hsize Hcall]. destruct call; cbn [exec]; try (by apply safe_next);
    try (apply safe_reads; [done..|]; first [by apply search_exact_ok|by apply search_ok|by apply find_secondary_ok]);
    try (by apply safe_previous).
  - apply safe_state_pair. by apply (store_good env c (_, _)).
  - apply safe_state. by apply db_update_good.
  - apply safe_state. by apply db_remove_good.
  - pose proof (safe_get c (DbGet iterator buffer_size) key_value_object iterator (λ obj,
      let v := match data obj with Value v => v | _ => [] end in
      let s := Z.of_nat (length v) in
      if buffer_size =? 0 then (s, []) else (Z.min buffer_size s, take (Z.to_nat (Z.min buffer_size s)) v))
      fst Hdb Hc Hr) as H.
    revert H. unfold db_get_i64. destruct (cache_get _ _) as [ptr|]; [|done]. cbn [mbind result_bind].
    destruct (deref _ _); [|done]. cbn [mbind result_bind]. by destruct (buffer_size =? 0).
  - pose proof (end_of_ok c key_value_object code0 scope0 table0 Hc). unfold db_end_i64.
    destruct (end_of _ _ _ _ _). by apply safe_read.
  - apply safe_state_pair. by apply index_store_good.
  - apply safe_state. by apply index_remove_good.
  - apply safe_state. by apply index_update_good.
  - pose proof (end_of_ok c k code0 scope0 table0 Hc). unfold end_secondary.
    destruct (end_of _ _ _ _ _). by apply safe_read.
  - apply (safe_get c _ k iterator (λ obj, (primary_key obj, data obj)) fst Hdb Hc Hr).
Qed.

Lemma initial_ok r i : (∀ a, 0 ≤ billed r a < 2 ^ 64) →
  db_ok (initial_context r i) ∧ caches_ok (initial_context r i) ∧ ram_ok r (initial_context r i).
Proof.
  intros Hr. split_and!.
  - split; intros *; cbn; rewrite ?lookup_empty; done.
  - intros k. apply empty_cache_ok.
  - intros a. specialize (Hr a). unfold storage. cbn. rewrite !sum_pos_empty. lia.
Qed.

Lemma reachable_ok r c : (∀ a, 0 ≤ billed r a < 2 ^ 64) → reachable r c →
  db_ok c ∧ caches_ok c ∧ ram_ok r c.
Proof.
  intros Hr. induction 1 as [i|env c call c' i _ IH Hcall He|c _ IH]; [by apply initial_ok|..].
  - destruct IH as (Hdb & Hc & Hram).
    pose proof (exec_safe env c call Hdb Hc (λ a, proj2 (Hram a)) Hcall) as Hs. rewrite He in Hs.
    destruct Hs as (? & ? & Hb). split_and!; [done..|]. intros a. specialize (Hb a) as [Hb ?]. cbn in Hb.
    destruct (Hram a). lia.
  - destruct IH as (Hdb & _ & Hram). split_and!; [by eapply db_ok_ext|intros k; apply empty_cache_ok|done].
Qed.

(** The rows of a table *)
Lemma sum_in_table t (rs : gmap Z row) :
  sum_pos (in_table t) rs = Z.of_nat (size (filter (λ p, t_id p.2 = t) rs)).
Proof.
  induction rs as [|i r rs Hi IH] using map_ind; [by rewrite sum_pos_empty, map_filter_empty|].
  rewrite sum_pos_insert_new, IH by done. unfold in_table.
  assert (filter (λ p, t_id p.2 = t) rs !! i = None) as Hf by (apply map_lookup_filter_None_2; by left).
  destruct (Z.eqb_spec (t_id r) t) as [E|Hne].
  - rewrite map_filter_insert_True, map_size_insert_None by done. lia.
  - rewrite map_filter_insert_False by done. rewrite delete_id by done. lia.
Qed.

Lemma dangling_undefined env c call : dangling c call → exec env c call = Throw Undefined.
Proof.
  assert (∀ lt k it, stale_end c k it → (r ← previous lt c k it; Ok r.1) = Throw Undefined) as Hprev.
  { intros lt k it [Hit (t & Ht & Hnone)]. unfold previous, find_table_by_end_iterator, check.
    rewrite (proj2 (Z.ltb_lt it (-1))) by done. cbn. rewrite Ht. cbn. unfold deref. by rewrite Hnone. }
  destruct call; try done; apply Hprev.
Qed.

(** ** Properties *)

(** C26: the memory of contract tables is billed exactly. After any sequence of database
    calls and actions, each account is billed what it was billed at first plus the size of
    the rows and tables it pays for, without overflow, and a table exists only while it
    has rows, which [count] counts: for every call, also when the payer or the size of a
    row changes and when the last row of a table goes. *)
Theorem storage_billed r c : (∀ a, 0 ≤ billed r a < 2 ^ 64) → reachable r c →
  (∀ a, billed (resources c) a = billed r a + storage c a) ∧
  (∀ t tab, tables c !! t = Some tab →
     count tab = Z.of_nat (size (filter (λ p, t_id p.2 = t) (rows c))) ∧ 0 < count tab).
Proof.
  intros Hr Hc. destruct (reachable_ok r c Hr Hc) as (Hdb & _ & Hram). split; [intros a; apply Hram|].
  intros t tab Ht. destruct (ok_count _ _ Hdb t tab Ht) as [? [?|?]]; [|done]. by rewrite <-sum_in_table.
Qed.

(** C34: database calls are memory safe, with one exception. From every reachable state a
    call follows a dangling pointer only when it is one of the three [previous] functions,
    given the end iterator of a table that has been removed since, and then it always
    does; the assertion that a table is in the cache, which would show a broken invariant,
    never fails. *)
Theorem calls_follow_valid_pointers r env c call : (∀ a, 0 ≤ billed r a < 2 ^ 64) → reachable r c →
  call_ok c call →
  (exec env c call = Throw Undefined ↔ dangling c call) ∧
  exec env c call ≠ Throw (Raised table_not_in_cache).
Proof.
  intros Hr Hc Hcall. destruct (reachable_ok r c Hr Hc) as (Hdb & Hca & Hram).
  pose proof (exec_safe env c call Hdb Hca (λ a, proj2 (Hram a)) Hcall) as Hs. split; [split|].
  - intros E. rewrite E in Hs. destruct Hs as [(e & ? & _)|[_ ?]]; done.
  - apply dangling_undefined.
  - intros E. rewrite E in Hs. destruct Hs as [(e & [= <-] & ?)|[? _]]; done.
Qed.

(** Running calls, each of which satisfies [call_ok] *)
#[global] Instance call_ok_dec c call : Decision (call_ok c call).
Proof. destruct call; apply _. Defined.

Definition run (env : action_env) (c : context) (calls : list db_call) : option context :=
  foldl (λ o call, c ← o; guard (call_ok c call);;
           match exec env c call with Ok (c', _) => Some c' | Throw _ => None end) (Some c) calls.

Lemma run_reachable r env c calls c' : reachable r c → run env c calls = Some c' → reachable r c'.
Proof.
  unfold run. revert c. induction calls as [|call calls IH]; cbn; intros c Hc H; [by injection H as <-|].
  case_guard as Hcall; cbn in H.
  - destruct (exec env c call) as [[c1 i]|] eqn:E; [by eapply IH, H; eapply reach_call|].
    exfalso. clear -H. induction calls; by cbn in *.
  - exfalso. clear -H. induction calls; by cbn in *.
Qed.
End keys.

(** *** A contract with one row *)

Definition demo_resources : ResourceLimits.manager :=
  ResourceLimits.set_usages ResourceLimits.initialize_database {[1 := ResourceLimits.default_usage]}.
Definition demo_env : action_env := MkEnv 1 (Action.MkAction 1 0 [] []) true true true.
Definition demo_run (calls : list db_call) : context :=
  default (initial_context demo_resources 0) (run Z.ltb Z.ltb demo_env (initial_context demo_resources 0) calls).

(** A row and an index entry of a table; then both are removed while the contract holds
    the end iterator of the table, [-2]. *)
Definition demo_stores : list db_call :=
  [DbStore 7 8 1 100 [1; 2; 3]; DbEnd 1 7 8; IndexStore 7 8 1 100 (Key64 5)].
Definition demo_removes : list db_call := [IndexRemove index64_object 0; DbRemove 0].

Lemma demo_resources_range a : 0 ≤ billed demo_resources a < 2 ^ 64.
Proof.
  unfold billed. cbn. destruct (decide (a = 1)) as [->|]; [by rewrite lookup_singleton_eq|].
  by rewrite lookup_singleton_ne.
Qed.

Lemma demo_reachable calls :
  is_Some (run Z.ltb Z.ltb demo_env (initial_context demo_resources 0) calls) →
  reachable Z.ltb Z.ltb demo_resources (demo_run calls).
Proof.
  unfold demo_run. intros [c H]. rewrite H. eapply run_reachable; [apply (reach_initial _ _ _ 0)|exact H].
Qed.

Lemma demo_stores_reachable : reachable Z.ltb Z.ltb demo_resources (demo_run demo_stores).
Proof. apply demo_reachable. vm_compute. by eexists. Qed.

Lemma demo_removes_reachable : reachable Z.ltb Z.ltb demo_resources (demo_run (demo_stores ++ demo_removes)).
Proof. apply demo_reachable. vm_compute. by eexists. Qed.

Lemma storage_billed_witness :
  billed (resources (demo_run demo_stores)) 1 = 355 ∧ storage (demo_run demo_stores) 1 = 355.
Proof.
  split; [|vm_compute; reflexivity].
  rewrite (proj1 (storage_billed Z.ltb Z.ltb _ _ demo_resources_range demo_stores_reachable)).
  vm_compute. reflexivity.
Defined.

Lemma calls_follow_valid_pointers_witness :
  exec Z.ltb Z.ltb demo_env (demo_run (demo_stores ++ demo_removes)) (DbPrevious (-2)) = Throw Undefined.
Proof.
  apply (calls_follow_valid_pointers Z.ltb Z.ltb _ demo_env _ (DbPrevious (-2)) demo_resources_range
    demo_removes_reachable).
  - split; [vm_compute; reflexivity|exact I].
  - split; [lia|]. exists 0. split; vm_compute; reflexivity.
Defined.

End ContractTables.
