(* ===== verification/TableRefinement.v ===== *)
(** * Primary tables as sorted maps

    The contract API promises that a table named by code, scope and table is a map from
    primary keys to values, along which iterators move in the order of the keys
    ([db_store_i64] to [db_end_i64] of [apply_context.cpp]).  This file states that promise
    on maps (Module [TableRefinement], [table_step]) and proves that the database of
    [ContractTables], with its identifiers, shared ordered index and iterator caches,
    implements it: [primary_tables_refine]. *)

From S2P Require Import Prelude.
From S2P Require Import Exceptions.
From S2P Require Import Action.
From S2P Require Import ResourceLimits.
From S2P Require Import Database.
From S2P Require Import ContractTables.

Local Open Scope Z_scope.

Module TableRefinement.
Import IteratorCache ContractTables.

(** ** The promise *)

(** The code, the scope and the table *)
Notation table_name := (Z * Z * Z)%type.

(** All tables: the payer and the value of each primary key *)
Notation tables_map := (table_name → gmap Z (Z * list Z)).

Definition same_tables (A A' : tables_map) : Prop := ∀ n, A n = A' n.

Definition set_table (A : tables_map) (n : table_name) (m : gmap Z (Z * list Z)) : tables_map :=
  λ n', if decide (n' = n) then m else A n'.

(** What an iterator stands for: a row, or the end of a table *)
Inductive cursor := Row (n : table_name) (id : Z) | End (n : table_name).

(** The least and the greatest key of a table among those that satisfy [P] *)
Definition first_key (P : Z → Prop) (m : gmap Z (Z * list Z)) (o : option Z) : Prop :=
  match o with
  | Some k => is_Some (m !! k) ∧ P k ∧ ∀ k', is_Some (m !! k') → P k' → k ≤ k'
  | None => ∀ k', is_Some (m !! k') → ¬ P k'
  end.
Definition last_key (P : Z → Prop) (m : gmap Z (Z * list Z)) (o : option Z) : Prop :=
  match o with
  | Some k => is_Some (m !! k) ∧ P k ∧ ∀ k', is_Some (m !! k') → P k' → k' ≤ k
  | None => ∀ k', is_Some (m !! k') → ¬ P k'
  end.

(** Iterators that denote the key found, or the end *)
Definition at_or_end (n : table_name) (o : option Z) : cursor :=
  match o with Some k => Row n k | None => End n end.

(** What a call of [receiver] may do to tables [A] and return, where [D] and [D'] tell what
    iterators denote before and after it *)
Definition table_step (receiver : Z) (A A' : tables_map) (D D' : Z → cursor → Prop) (call : db_call)
    (i : Z) : Prop :=
  match call with
  | DbStore scope table payer id buffer =>
      let n := (receiver, scope, table) in
      A n !! id = None ∧ same_tables A' (set_table A n (<[id := (payer, buffer)]> (A n))) ∧ D' i (Row n id)
  | DbUpdate it payer buffer =>
      ∃ scope table id old, let n := (receiver, scope, table) in
      D it (Row n id) ∧ A n !! id = Some old ∧
      same_tables A' (set_table A n (<[id := (if payer =? 0 then old.1 else payer, buffer)]> (A n)))
  | DbRemove it =>
      ∃ scope table id, let n := (receiver, scope, table) in
      D it (Row n id) ∧ is_Some (A n !! id) ∧ same_tables A' (set_table A n (delete id (A n)))
  | DbGet it size =>
      same_tables A' A ∧ ∃ n id old, D it (Row n id) ∧ A n !! id = Some old ∧
      i = if size =? 0 then Z.of_nat (length old.2) else Z.min size (Z.of_nat (length old.2))
  | DbNext it =>
      same_tables A' A ∧ (it < -1 ∧ i = -1 ∨
      ∃ n id o, D it (Row n id) ∧ first_key (λ k, id < k) (A n) o ∧ D' i (at_or_end n o))
  | DbPrevious it =>
      same_tables A' A ∧ ∃ n o,
      (D it (End n) ∧ last_key (λ _, True) (A n) o ∨ ∃ id, D it (Row n id) ∧ last_key (λ k, k < id) (A n) o) ∧
      match o with Some k => D' i (Row n k) | None => i = -1 end
  | DbFind code scope table id =>
      let n := (code, scope, table) in
      same_tables A' A ∧ D' i (at_or_end n (if decide (is_Some (A n !! id)) then Some id else None))
  | DbLowerbound code scope table id =>
      let n := (code, scope, table) in
      same_tables A' A ∧ ∃ o, first_key (λ k, id ≤ k) (A n) o ∧ D' i (at_or_end n o)
  | DbUpperbound code scope table id =>
      let n := (code, scope, table) in
      same_tables A' A ∧ ∃ o, first_key (λ k, id < k) (A n) o ∧ D' i (at_or_end n o)
  | DbEnd code scope table => same_tables A' A ∧ D' i (End (code, scope, table))
  | _ => same_tables A' A
  end.

(** ** The tables of the database *)

Definition name_of (tab : table_id_object) : table_name := (code tab, scope tab, table tab).
Definition named (c : context) (t : Z) (n : table_name) : Prop := name_of <$> tables c !! t = Some n.

Definition row_entry (r : row) : option (Z * (Z * list Z)) :=
  match data r with Value v => Some (primary_key r, (payer r, v)) | _ => None end.

Definition contents (c : context) : tables_map := λ n,
  match find_table c n.1.1 n.1.2 n.2 with
  | None => ∅
  | Some t => list_to_map (omap row_entry (filter (λ r, t_id r = t) (map_to_list (rows c)).*2))
  end.

Definition denotes (c : context) (i : Z) (cur : cursor) : Prop :=
  match cur with
  | Row n id => ∃ ptr t p v, cache_get (cache_of c key_value_object) i = Ok ptr ∧
      rows c !! ptr = Some (MkRow t id p (Value v)) ∧ named c t n
  | End n => (∃ t, named c t n ∧ table_cache (cache_of c key_value_object) !! t = Some i) ∨
      i = -1 ∧ ∀ t, ¬ named c t n
  end.

(** *** Contents *)

Notation db_ok := (db_ok_but None).

Lemma find_table_named c n t : db_ok c → find_table c n.1.1 n.1.2 n.2 = Some t ↔ named c t n.
Proof.
  intros Hdb. destruct n as [[co sc] ta]. cbn. unfold named, name_of. split.
  - intros (tab & -> & <- & <- & <-)%find_table_Some. done.
  - intros (tab & Ht & [= -> -> ->])%fmap_Some.
    destruct (find_table c (code tab) (scope tab) (table tab)) as [t'|] eqn:Ef.
    + apply find_table_Some in Ef as (tab' & Ht' & ? & ? & ?). f_equal. by eapply (ok_names _ _ Hdb).
    + exfalso. by eapply (find_table_None _ _ _ _ Ef).
Qed.

Lemma named_fun c t n n' : named c t n → named c t n' → n = n'.
Proof. unfold named. congruence. Qed.

Lemma named_inj c t t' n : db_ok c → named c t n → named c t' n → t = t'.
Proof. intros Hdb H%find_table_named H'%find_table_named; [congruence|done..]. Qed.

Lemma row_named c ptr r : db_ok c → rows c !! ptr = Some r → ∃ n, named c (t_id r) n.
Proof.
  intros Hdb Hr. destruct (ok_tables _ _ Hdb _ _ Hr) as [tab Ht]. exists (name_of tab). unfold named. by rewrite Ht.
Qed.

Lemma elem_of_entries (rs : gmap Z row) t id x :
  (id, x) ∈ omap row_entry (filter (λ r, t_id r = t) (map_to_list rs).*2) ↔
  ∃ ptr, rs !! ptr = Some (MkRow t id x.1 (Value x.2)).
Proof.
  rewrite list_elem_of_omap. split.
  - intros (r & [Ht (q & -> & Hq)%list_elem_of_fmap]%list_elem_of_filter & He). destruct q as [ptr r].
    apply elem_of_map_to_list in Hq. exists ptr. destruct r as [? ? ? []]; cbn in *; simplify_eq. done.
  - intros [ptr Hr]. exists (MkRow t id x.1 (Value x.2)). split; [|by destruct x].
    apply list_elem_of_filter. split; [done|]. apply list_elem_of_fmap. exists (ptr, MkRow t id x.1 (Value x.2)).
    split; [done|]. by apply elem_of_map_to_list.
Qed.

Lemma contents_lookup c n id x : db_ok c → contents c n !! id = Some x ↔
  ∃ t ptr, named c t n ∧ rows c !! ptr = Some (MkRow t id x.1 (Value x.2)).
Proof.
  intros Hdb. unfold contents. destruct (find_table _ _ _ _) as [t|] eqn:Ef.
  - apply find_table_named in Ef; [|done]. split.
    + intros [ptr Hr]%elem_of_list_to_map_2%elem_of_entries. by exists t, ptr.
    + intros (t' & ptr & Ht & Hr). assert (t' = t) as -> by (by eapply named_inj).
      apply elem_of_list_to_map_1'; [|apply elem_of_entries; by exists ptr].
      intros y [ptr' Hr']%elem_of_entries. assert (ptr' = ptr) as -> by (by eapply (ok_unique _ _ Hdb)).
      rewrite Hr in Hr'. destruct x, y. cbn in *. by simplify_eq.
  - rewrite lookup_empty. split; [done|]. intros (t & ptr & Ht & _).
    apply find_table_named in Ht; [congruence|done].
Qed.

Lemma contents_is_Some c n id : db_ok c → is_Some (contents c n !! id) ↔
  ∃ t ptr p v, named c t n ∧ rows c !! ptr = Some (MkRow t id p (Value v)).
Proof.
  intros Hdb. split.
  - intros [x (t & ptr & ? & ?)%contents_lookup]; [|done]. by exists t, ptr, x.1, x.2.
  - intros (t & ptr & p & v & ? & ?). exists (p, v). apply contents_lookup; [done|]. by exists t, ptr.
Qed.

(** A call changes one row, and no name of a table that stays. *)
Record changes (ptr : Z) (c c' : context) : Prop := {
  ch_ok : db_ok c;
  ch_ok' : db_ok c';
  ch_names t n n' : named c t n → named c' t n' → n = n';
  ch_rows j : j ≠ ptr → rows c' !! j = rows c !! j }.

Lemma changes_holds ptr c c' n id x : changes ptr c c' → contents c' n !! id = Some x ↔
  (∃ t, named c' t n ∧ rows c' !! ptr = Some (MkRow t id x.1 (Value x.2))) ∨
  (∃ t j, j ≠ ptr ∧ named c t n ∧ rows c !! j = Some (MkRow t id x.1 (Value x.2))).
Proof.
  intros [Hdb Hdb' Hn Hr]. rewrite contents_lookup by done.
  assert (∀ t j, j ≠ ptr → rows c !! j = Some (MkRow t id x.1 (Value x.2)) → named c t n ↔ named c' t n) as Hnn.
  { intros t j Hj Hrow. assert (rows c' !! j = Some (MkRow t id x.1 (Value x.2))) as Hrow' by (by rewrite Hr).
    destruct (row_named c j _ Hdb Hrow) as [n1 H1]. destruct (row_named c' j _ Hdb' Hrow') as [n2 H2]. cbn in *.
    assert (n1 = n2) as -> by eauto. split; intros H; [|].
    - by rewrite (named_fun _ _ _ _ H H1).
    - by rewrite (named_fun _ _ _ _ H H2). }
  split.
  - intros (t & j & Ht & Hj). destruct (decide (j = ptr)) as [->|Hne]; [left; by exists t|right].
    rewrite Hr in Hj by done. exists t, j. split_and!; [done| |done]. by eapply Hnn.
  - intros [(t & Ht & Hj)|(t & j & Hne & Ht & Hj)]; [by exists t, ptr|]. exists t, j.
    rewrite Hr by done. split; [|done]. by eapply Hnn.
Qed.

(** No other row has the key of the new row. *)
Lemma changes_unique ptr c c' n t id p v t' j x : changes ptr c c' → named c' t n →
  rows c' !! ptr = Some (MkRow t id p (Value v)) → j ≠ ptr → named c t' n →
  rows c !! j = Some (MkRow t' id x.1 (Value x.2)) → False.
Proof.
  intros Hch Hn Hr Hj Ht' Hrow. pose proof (ch_ok' _ _ _ Hch) as Hdb'.
  rewrite <-(ch_rows _ _ _ Hch) in Hrow by done. apply Hj. eapply (ok_unique _ _ Hdb'); [done|done|done| |done]. cbn.
  destruct (row_named _ _ _ Hdb' Hrow) as [n2 H2]. cbn in H2.
  assert (n = n2) as <- by (by eapply (ch_names _ _ _ Hch)). by eapply named_inj.
Qed.

Lemma contents_put ptr c c' n t id p v : changes ptr c c' → named c' t n →
  rows c' !! ptr = Some (MkRow t id p (Value v)) →
  (∀ r, rows c !! ptr = Some r → row_kind r = key_value_object ∧ t_id r = t ∧ primary_key r = id) →
  same_tables (contents c') (set_table (contents c) n (<[id := (p, v)]> (contents c n))).
Proof.
  intros Hch Hn Hr Hold n'. unfold set_table. apply map_eq. intros id'. apply option_eq. intros x.
  rewrite (changes_holds _ _ _ _ _ _ Hch). pose proof (ch_ok _ _ _ Hch) as Hdb.
  assert (∀ t' j, named c t' n' → rows c !! j = Some (MkRow t' id' x.1 (Value x.2)) → j = ptr → t' = t ∧ id' = id ∧ n' = n) as Hptr.
  { intros t' j Ht' Hj ->. destruct (Hold _ Hj) as (_ & <- & <-). cbn. split_and!; [done..|]. by eapply (ch_names _ _ _ Hch). }
  destruct (decide (n' = n)) as [->|Hne].
  - destruct (decide (id' = id)) as [->|Hid].
    + rewrite lookup_insert_eq. split.
      * intros [(t' & Ht' & Hr')|H]; [rewrite Hr in Hr'; destruct x; cbn in *; by simplify_eq|].
        exfalso. destruct H as (t' & j & Hj & Ht' & Hrow). by eapply changes_unique.
      * intros [= <-]. left. by exists t.
    + rewrite lookup_insert_ne by done. rewrite contents_lookup by done. split.
      * intros [(t' & Ht' & Hr')|(t' & j & Hj & Ht' & Hrow)]; [rewrite Hr in Hr'; by simplify_eq|by exists t', j].
      * intros (t' & j & Ht' & Hrow). right. exists t', j. split_and!; [|done..]. intros E. by apply (Hptr t' j) in E as (? & ? & ?).
  - rewrite contents_lookup by done. split.
    + intros [(t' & Ht' & Hr')|(t' & j & Hj & Ht' & Hrow)]; [|by exists t', j].
      rewrite Hr in Hr'. simplify_eq. exfalso. apply Hne. by eapply named_fun.
    + intros (t' & j & Ht' & Hrow). right. exists t', j. split_and!; [|done..]. intros E. by apply (Hptr t' j) in E as (? & ? & ?).
Qed.

Lemma contents_fresh ptr c c' n t id p v : changes ptr c c' → named c' t n →
  rows c' !! ptr = Some (MkRow t id p (Value v)) → rows c !! ptr = None → contents c n !! id = None.
Proof.
  intros Hch Hn Hr Hnone. apply eq_None_not_Some. intros [x (t' & j & Ht' & Hj)%contents_lookup]; [|apply Hch].
  eapply (changes_unique ptr c c' n t id p v t' j x); try done. intros ->. congruence.
Qed.

Lemma contents_drop ptr c c' n t id p v : changes ptr c c' → named c t n →
  rows c !! ptr = Some (MkRow t id p (Value v)) → rows c' !! ptr = None →
  same_tables (contents c') (set_table (contents c) n (delete id (contents c n))).
Proof.
  intros Hch Hn Hr Hnone n'. unfold set_table. apply map_eq. intros id'. apply option_eq. intros x.
  rewrite (changes_holds _ _ _ _ _ _ Hch), Hnone. pose proof (ch_ok _ _ _ Hch) as Hdb.
  destruct (decide (n' = n)) as [->|Hne]; [destruct (decide (id' = id)) as [->|Hid]|].
  - rewrite lookup_delete_eq. split; [|done]. intros [(t' & _ & ?)|(t' & j & Hj & Ht' & Hrow)]; [done|].
    exfalso. apply Hj. assert (t' = t) as -> by (by eapply named_inj). by eapply (ok_unique _ _ Hdb).
  - rewrite lookup_delete_ne, contents_lookup by done. split.
    + intros [(t' & _ & ?)|(t' & j & Hj & Ht' & Hrow)]; [done|by exists t', j].
    + intros (t' & j & Ht' & Hrow). right. exists t', j. split_and!; [|done..]. congruence.
  - rewrite contents_lookup by done. split.
    + intros [(t' & _ & ?)|(t' & j & Hj & Ht' & Hrow)]; [done|by exists t', j].
    + intros (t' & j & Ht' & Hrow). right. exists t', j. split_and!; [|done..]. intros ->.
      rewrite Hr in Hrow. simplify_eq. apply Hne. by eapply named_fun.
Qed.

Lemma contents_keep ptr c c' : changes ptr c c' →
  (∀ r, rows c !! ptr = Some r ∨ rows c' !! ptr = Some r → row_kind r ≠ key_value_object) →
  same_tables (contents c') (contents c).
Proof.
  intros Hch Hk n. apply map_eq. intros id. apply option_eq. intros x.
  rewrite (changes_holds _ _ _ _ _ _ Hch), contents_lookup by apply Hch. split.
  - intros [(t & _ & Hr)|(t & j & _ & Ht & Hr)]; [|by exists t, j]. by destruct (Hk _ (or_intror Hr)).
  - intros (t & j & Ht & Hr). right. exists t, j. split_and!; [|done..]. intros ->. by destruct (Hk _ (or_introl Hr)).
Qed.

Lemma contents_ext c c' : tables c' = tables c → rows c' = rows c → same_tables (contents c') (contents c).
Proof. intros E1 E2 n. unfold contents, find_table. by rewrite E1, E2. Qed.

(** *** What the operations do to rows, names and caches *)

Lemma update_db_usage_same env c p d c' : update_db_usage env c p d = Ok c' → same_db c c'.
Proof.
  unfold update_db_usage. intros (u & _ & H)%bind_Ok. unfold add_ram_usage in H.
  apply bind_Ok in H as (r & _ & H). by injection H as <-.
Qed.

Lemma named_ext c c' t n : tables c' = tables c → named c' t n ↔ named c t n.
Proof. unfold named. by intros ->. Qed.

Lemma add_count_effect c t d c' : add_count c t d = Ok c' →
  (∀ t n, named c' t n ↔ named c t n) ∧ rows c' = rows c ∧ caches c' = caches c ∧ next_id c' = next_id c.
Proof.
  unfold add_count. intros (tab & Ht%deref_Ok & H)%bind_Ok. injection H as <-. split_and!; [|done..].
  intros t' n. unfold named. cbn. destruct (decide (t' = t)) as [->|Hne].
  - by rewrite lookup_insert_eq, Ht.
  - by rewrite lookup_insert_ne.
Qed.

Lemma find_or_create_table_effect env c n p c' t : db_ok c →
  find_or_create_table env c n.1.1 n.1.2 n.2 p = Ok (c', t) →
  named c' t n ∧ (∀ t' n', named c t' n' → named c' t' n') ∧ rows c' = rows c ∧ caches c' = caches c ∧
  next_id c ≤ next_id c'.
Proof.
  intros Hdb. unfold find_or_create_table. destruct (find_table _ _ _ _) as [t0|] eqn:Ef.
  - intros [= <- <-]. split_and!; [by apply find_table_named|done..].
  - intros (c1 & Hu%update_db_usage_same & H)%bind_Ok. injection H as <- <-. destruct Hu as (E1 & E2 & E3 & E4).
    unfold named. cbn. rewrite E1, E3. split_and!; [|intros t' n' Ht'|done|done|lia].
    + rewrite lookup_insert_eq. by destruct n as [[] ].
    + rewrite lookup_insert_ne; [done|]. intros <-. apply fmap_Some in Ht' as (tab & Ht' & _).
      apply (ok_table_ids _ _ Hdb) in Ht'. lia.
Qed.

Lemma cache_add_get rs k ic ptr : cache_ok rs k ic → cache_get (cache_add ic ptr).1 (cache_add ic ptr).2 = Ok ptr.
Proof.
  intros Hic. apply cache_get_Ok. unfold cache_add. destruct (object_to_iterator ic !! ptr) as [i|] eqn:E; cbn.
  - by apply (co_iterator _ _ _ Hic).
  - rewrite Nat2Z.id. split; [lia|]. by apply list_lookup_middle.
Qed.

Lemma cache_add_in_get rs c k ptr : cache_ok rs k (cache_of c k) →
  cache_get (cache_of (cache_add_in c k ptr).1 k) (cache_add_in c k ptr).2 = Ok ptr.
Proof.
  intros Hic. unfold cache_add_in. pose proof (cache_add_get rs k (cache_of c k) ptr Hic) as H.
  destruct (cache_add (cache_of c k) ptr) as [ic i]. cbn [fst snd] in *. rewrite cache_of_set.
  by rewrite decide_True.
Qed.

Lemma cache_table_in_cache rs c k t : cache_ok rs k (cache_of c k) →
  cache_ok rs k (cache_of (cache_table_in c k t).1 k).
Proof.
  intros Hic. unfold cache_table_in. pose proof (cache_table_ok rs k (cache_of c k) t Hic) as [H _].
  destruct (cache_table (cache_of c k) t) as [ic i]. cbn [fst snd] in *. rewrite cache_of_set. by rewrite decide_True.
Qed.

Lemma cache_table_in_same c k t : tables (cache_table_in c k t).1 = tables c ∧ rows (cache_table_in c k t).1 = rows c.
Proof. unfold cache_table_in. by destruct (cache_table _ _). Qed.

Lemma cache_add_in_same c k ptr : tables (cache_add_in c k ptr).1 = tables c ∧ rows (cache_add_in c k ptr).1 = rows c.
Proof. unfold cache_add_in. by destruct (cache_add _ _). Qed.

Lemma store_row_effect env c r sz c' i : caches_ok c → store_row env c r sz = Ok (c', i) →
  (∀ t n, named c' t n ↔ named c t n) ∧ rows c' = <[next_id c := r]> (rows c) ∧
  cache_get (cache_of c' (row_kind r)) i = Ok (next_id c).
Proof.
  intros Hc. unfold store_row. intros ([c1 ptr] & H1%create_row_Ok & H)%bind_Ok.
  destruct H1 as (-> & _ & E1 & E2 & _ & _ & E3). apply bind_Ok in H as (c2 & H2%add_count_effect & H).
  destruct H2 as (N2 & E4 & E5 & _). apply bind_Ok in H as (c3 & H3%update_db_usage_same & H).
  pose proof (cache_table_in_same c3 (row_kind r) (t_id r)) as [E6 E7].
  pose proof (cache_table_in_cache (rows c) c3 (row_kind r) (t_id r)) as Hct.
  destruct (cache_table_in c3 _ _) as [c4 ei]. cbn [fst] in *.
  pose proof (cache_add_in_same c4 (row_kind r) (next_id c)) as [E8 E9].
  pose proof (cache_add_in_get (rows c) c4 (row_kind r) (next_id c)) as Hg.
  injection H as H. rewrite H in *. cbn [fst snd] in *. destruct H3 as (E10 & E11 & _ & E12).
  split_and!.
  - intros t n. rewrite <-(named_ext c c1), <-N2 by done. apply named_ext. by rewrite E8, E6, E10.
  - by rewrite E9, E7, E11, E4.
  - apply Hg, Hct. unfold cache_of. rewrite E12, E5, E3. apply Hc.
Qed.

(** The conclusion of a store, for both kinds of tables *)
Lemma store_changes env c c1 c' n t r sz i : db_ok c → caches_ok c → db_ok c' →
  named c1 t n → (∀ t' n', named c t' n' → named c1 t' n') → rows c1 = rows c → caches c1 = caches c →
  next_id c ≤ next_id c1 → t_id r = t → store_row env c1 r sz = Ok (c', i) →
  changes (next_id c1) c c' ∧ named c' t n ∧ rows c !! next_id c1 = None ∧
  rows c' !! next_id c1 = Some r ∧ cache_get (cache_of c' (row_kind r)) i = Ok (next_id c1).
Proof.
  intros Hdb Hc Hdb' Hn Hnn E1 E2 Hid Ht Hs.
  assert (caches_ok c1) as Hc1 by (intros k; rewrite E1; unfold cache_of; rewrite E2; apply Hc).
  apply store_row_effect in Hs as (N & E3 & Hg); [|done]. rewrite E1 in E3.
  split_and!.
  - split; [done|done| |].
    + intros t' n1 n2 H1%Hnn H2%N. by eapply named_fun.
    + intros j Hj. rewrite E3. by rewrite lookup_insert_ne.
  - by apply N.
  - apply eq_None_not_Some. intros [r' Hr']. apply (ok_row_ids _ _ Hdb) in Hr'. lia.
  - by rewrite E3, lookup_insert_eq.
  - done.
Qed.

Lemma remove_table_effect env c t c' : remove_table env c t = Ok c' →
  (∀ t n, named c' t n → named c t n) ∧ rows c' = rows c.
Proof.
  unfold remove_table. intros (tab & _ & H)%bind_Ok. apply bind_Ok in H as (c1 & (E1 & E2 & _)%update_db_usage_same & H).
  injection H as <-. split; [|done]. intros t' n. unfold named. cbn. rewrite E1.
  intros (tab' & [_ H]%lookup_delete_Some & ->)%fmap_Some. by rewrite H.
Qed.

Lemma remove_row_effect env c k it ptr t c' : remove_row env c k it ptr t = Ok c' →
  (∀ t n, named c' t n → named c t n) ∧ rows c' = delete ptr (rows c).
Proof.
  unfold remove_row. intros (c1 & (N1 & E1 & _)%add_count_effect & H)%bind_Ok.
  apply bind_Ok in H as (tab & _ & H). apply bind_Ok in H as (c2 & H2 & H). apply bind_Ok in H as (ic & _ & H).
  injection H as <-. cbn. rewrite <-E1. unfold named in *. cbn. destruct (count tab =? 0).
  - apply remove_table_effect in H2 as [N2 E2]. split; [|done]. intros t' n Ht. apply N1, N2, Ht.
  - injection H2 as <-. split; [|done]. intros t' n Ht. apply N1, Ht.
Qed.

(** ** Calls that change rows *)

(** The row of an iterator *)
Lemma cached_value c it ptr : db_ok c → caches_ok c → cache_get (cache_of c key_value_object) it = Ok ptr →
  ∃ t id p v n, rows c !! ptr = Some (MkRow t id p (Value v)) ∧ named c t n ∧ denotes c it (Row n id) ∧
    contents c n !! id = Some (p, v).
Proof.
  intros Hdb Hc Hg. destruct (cached_row c _ it ptr Hc Hg) as (r & Hr & Hk & _).
  destruct (row_named c ptr r Hdb Hr) as [n Hn]. destruct r as [t id p d]. cbn in *.
  destruct d as [v| | | | |]; try discriminate Hk. exists t, id, p, v, n. split_and!; [done|done|..].
  - exists ptr, t, p, v. done.
  - apply contents_lookup; [done|]. by exists t, ptr.
Qed.

(** The table of a row that the receiver may write *)
Lemma written_table c (ic : iterator_cache) t t' env n : named c t n → get_table ic t = Ok t' →
  (table_obj ← deref (tables c) t'; check (code table_obj =? receiver env) table_access_violation) = Ok tt →
  t' = t ∧ n.1.1 = receiver env.
Proof.
  intros Hn (u & _ & [= <-])%bind_Ok (tab & Ht%deref_Ok & He%check_Ok%Z.eqb_eq)%bind_Ok.
  unfold named in Hn. rewrite Ht in Hn. by injection Hn as <-.
Qed.

Definition step env c c' call i : Prop :=
  table_step (receiver env) (contents c) (contents c') (denotes c) (denotes c') call i.

Lemma step_store env c c' sc ta p id buffer i : db_ok c → caches_ok c → db_ok c' →
  db_store_i64 env c sc ta p id buffer = Ok (c', i) → step env c c' (DbStore sc ta p id buffer) i.
Proof.
  intros Hdb Hc Hdb' ([c1 t] & H1 & H)%bind_Ok. apply bind_Ok in H as (u & _ & H).
  apply (find_or_create_table_effect env c (receiver env, sc, ta)) in H1 as (N1 & N2 & E1 & E2 & Hid); [|done].
  apply (store_changes env c c1 c' (receiver env, sc, ta) t) in H as (Hch & Hn & Hnone & Hr & Hg); try done.
  unfold step, table_step. cbv zeta. split_and!.
  - by eapply (contents_fresh (next_id c1) c c' _ t id p buffer).
  - eapply (contents_put (next_id c1) c c' _ t id p buffer); try done. intros r. by rewrite Hnone.
  - by exists (next_id c1), t, p, buffer.
Qed.

Lemma step_index_store env c c' sc ta p id d i : data_kind d ≠ key_value_object → db_ok c → caches_ok c → db_ok c' →
  index_store env c sc ta p id d = Ok (c', i) → same_tables (contents c') (contents c).
Proof.
  intros Hk Hdb Hc Hdb' (u & _ & H)%bind_Ok. apply bind_Ok in H as ([c1 t] & H1 & H).
  apply (find_or_create_table_effect env c (receiver env, sc, ta)) in H1 as (N1 & N2 & E1 & E2 & Hid); [|done].
  apply (store_changes env c c1 c' (receiver env, sc, ta) t) in H as (Hch & Hn & Hnone & Hr & Hg); try done.
  eapply contents_keep; [done|]. intros r. rewrite Hnone, Hr. intros [?|[= <-]]; done.
Qed.

(** A row that is changed in place, after accounts are billed *)
Lemma put_changes c c1 ptr r r' : db_ok c → same_db c c1 → db_ok (set_rows c1 (<[ptr := r']> (rows c1))) →
  rows c !! ptr = Some r → changes ptr c (set_rows c1 (<[ptr := r']> (rows c1))).
Proof.
  intros Hdb (E1 & E2 & _) Hdb' Hr. split; [done|done| |].
  - intros t n n'. unfold named. cbn. rewrite E1. congruence.
  - intros j Hj. cbn. rewrite E2. by rewrite lookup_insert_ne.
Qed.

Lemma rebill_same env c p q old new c' : rebill env c p q old new = Ok c' → same_db c c'.
Proof.
  unfold rebill. destruct (negb (p =? q)); [|destruct (negb (old =? new)); [apply update_db_usage_same|by intros [= <-]]].
  intros (c1 & H1%update_db_usage_same & H2%update_db_usage_same)%bind_Ok. by eapply same_db_trans.
Qed.

Lemma step_update env c c' it p buffer : db_ok c → caches_ok c → db_ok c' →
  db_update_i64 env c it p buffer = Ok c' → step env c c' (DbUpdate it p buffer) 0.
Proof.
  intros Hdb Hc Hdb' (ptr & Hg & H)%bind_Ok. apply bind_Ok in H as (r & Hr%deref_Ok & H).
  destruct (cached_value c it ptr Hdb Hc Hg) as (t & id & q & v & n & Hrow & Hn & Hd & Hin).
  rewrite Hrow in Hr. injection Hr as <-. cbn [t_id data payer primary_key value_size] in H.
  apply bind_Ok in H as (t' & Ht' & H). apply bind_Ok in H as (tab & Htab & H). apply bind_Ok in H as ([] & Hchk & H).
  destruct (written_table c _ t t' env n Hn Ht') as [-> Hrcv]; [by rewrite Htab|].
  apply bind_Ok in H as (c1 & Hb & H). apply (rebill_same env c q) in Hb. injection H as <-.
  destruct n as [[co sc] ta]. cbn in Hrcv. subst co. exists sc, ta, id, (q, v). split_and!; [done|done|].
  pose proof Hb as (E1 & E2 & _).
  eapply contents_put; [by eapply put_changes|by apply (named_ext c)|cbn; by rewrite lookup_insert_eq|].
  intros r. rewrite Hrow. by intros [= <-].
Qed.

Lemma step_index_update env c c' it p d : data_kind d ≠ key_value_object → db_ok c → caches_ok c → db_ok c' →
  index_update env c it p d = Ok c' → same_tables (contents c') (contents c).
Proof.
  intros Hk Hdb Hc Hdb' (ptr & Hg & H)%bind_Ok. apply bind_Ok in H as (r & Hr%deref_Ok & H).
  destruct (cached_row c _ it ptr Hc Hg) as (r0 & Hr0 & Hk0 & _). rewrite Hr in Hr0. injection Hr0 as <-.
  apply bind_Ok in H as (t' & _ & H). apply bind_Ok in H as (tab & _ & H). apply bind_Ok in H as ([] & _ & H).
  apply bind_Ok in H as (c1 & Hb & H). injection H as <-.
  assert (same_db c c1) as Hs.
  { apply (rebill_same env c (payer r) (if p =? 0 then payer r else p) (kind_size (data_kind d)) (kind_size (data_kind d))).
    unfold rebill. by rewrite Z.eqb_refl. }
  eapply contents_keep; [by eapply put_changes|]. intros r0. rewrite Hr. cbn. rewrite lookup_insert_eq.
  intros [[= <-]|[= <-]]; [congruence|done].
Qed.

Lemma remove_changes env c c1 k it ptr t c' : db_ok c → db_ok c' → same_db c c1 →
  remove_row env c1 k it ptr t = Ok c' → changes ptr c c' ∧ rows c' !! ptr = None.
Proof.
  intros Hdb Hdb' (E1 & E2 & _) [N E3]%remove_row_effect. rewrite E2 in E3. split.
  - split; [done|done| |].
    + intros t' n n' Hn Hn'%N. eapply named_fun; [done|]. by apply (named_ext c c1).
    + intros j Hj. rewrite E3. by rewrite lookup_delete_ne.
  - by rewrite E3, lookup_delete_eq.
Qed.

Lemma step_remove env c c' it : db_ok c → caches_ok c → db_ok c' →
  db_remove_i64 env c it = Ok c' → step env c c' (DbRemove it) 0.
Proof.
  intros Hdb Hc Hdb' (ptr & Hg & H)%bind_Ok. apply bind_Ok in H as (r & Hr%deref_Ok & H).
  destruct (cached_value c it ptr Hdb Hc Hg) as (t & id & q & v & n & Hrow & Hn & Hd & Hin).
  rewrite Hrow in Hr. injection Hr as <-. cbn [t_id data payer value_size] in H.
  apply bind_Ok in H as (t' & Ht' & H). apply bind_Ok in H as (tab & Htab & H). apply bind_Ok in H as ([] & Hchk & H).
  destruct (written_table c _ t t' env n Hn Ht') as [-> Hrcv]; [by rewrite Htab|].
  apply bind_Ok in H as (c1 & Hb%update_db_usage_same & H). apply (remove_changes env c) in H as [Hch Hnone]; try done.
  destruct n as [[co sc] ta]. cbn in Hrcv. subst co. exists sc, ta, id. split_and!; [done|by eexists|].
  by eapply (contents_drop ptr c c' _ t id q v).
Qed.

Lemma step_index_remove env c c' k it : k ≠ key_value_object → db_ok c → caches_ok c → db_ok c' →
  index_remove env c k it = Ok c' → same_tables (contents c') (contents c).
Proof.
  intros Hk Hdb Hc Hdb' (ptr & Hg & H)%bind_Ok. apply bind_Ok in H as (r & Hr%deref_Ok & H).
  destruct (cached_row c _ it ptr Hc Hg) as (r0 & Hr0 & Hk0 & _). rewrite Hr in Hr0. injection Hr0 as <-.
  apply bind_Ok in H as (c1 & Hb%update_db_usage_same & H). apply bind_Ok in H as (t' & _ & H).
  apply bind_Ok in H as (tab & _ & H). apply bind_Ok in H as ([] & _ & H).
  apply (remove_changes env c) in H as [Hch Hnone]; try done.
  eapply contents_keep; [done|]. intros r0. rewrite Hr, Hnone. intros [[= <-]|?]; [congruence|done].
Qed.

(** ** Calls that move along a table *)

(** *** The least row *)

Definition min_of (lt : row → row → bool) (cur : option (Z * row)) (l : list (Z * row)) : Prop :=
  match cur with
  | None => l = []
  | Some x => x ∈ l ∧ ∀ y, y ∈ l → lt y.2 x.2 = false
  end.

Lemma min_of_better lt cur l x : (∀ r, lt r r = false) →
  (∀ r1 r2 r3, lt r1 r2 = true → lt r2 r3 = true → lt r1 r3 = true) →
  min_of lt cur l → min_of lt (better lt cur x) (l ++ [x]).
Proof.
  intros Hirr Htr Hmin. unfold better. destruct cur as [y|]; cbn in *.
  - destruct Hmin as [Hy Hmin]. destruct (lt x.2 y.2) eqn:E; cbn.
    + split; [set_solver|]. intros z [Hz| ->%list_elem_of_singleton]%elem_of_app; [|apply Hirr].
      apply not_true_is_false. intros Hzx. pose proof (Htr _ _ _ Hzx E). rewrite Hmin in *; done.
    + split; [set_solver|]. intros z [Hz| ->%list_elem_of_singleton]%elem_of_app; [by apply Hmin|done].
  - subst l. split; [set_solver|]. intros z ->%list_elem_of_singleton. apply Hirr.
Qed.

Lemma least_spec lt p m : (∀ r, lt r r = false) →
  (∀ r1 r2 r3, lt r1 r2 = true → lt r2 r3 = true → lt r1 r3 = true) →
  match least lt p m with
  | Some (i, r) => m !! i = Some r ∧ p r = true ∧ ∀ j r', m !! j = Some r' → p r' = true → lt r' r = false
  | None => ∀ j r', m !! j = Some r' → p r' = true → False
  end.
Proof.
  intros Hirr Htr. unfold least.
  assert (∀ l, min_of lt (foldl (better lt) None l) l) as H.
  { intros l. induction l as [|x l IH] using rev_ind; [done|]. rewrite foldl_app. by apply min_of_better. }
  specialize (H (filter (λ x, p x.2 = true) (map_to_list m))).
  assert (∀ j r', m !! j = Some r' → p r' = true → (j, r') ∈ filter (λ x, p x.2 = true) (map_to_list m)) as Hin.
  { intros j r' Hj Hp. apply list_elem_of_filter. split; [done|]. by apply elem_of_map_to_list. }
  destruct (foldl _ _ _) as [[i r]|]; cbn in H.
  - destruct H as [[Hp Hi%elem_of_map_to_list]%list_elem_of_filter Hmin]. split_and!; [done..|].
    intros j r' Hj Hp'. by apply (Hmin (j, r')), Hin.
  - intros j r' Hj Hp. specialize (Hin j r' Hj Hp). rewrite H in Hin. by apply elem_of_nil in Hin.
Qed.

Lemma primary_lt_true x y : primary_lt x y = true ↔
  t_id x < t_id y ∨ t_id x = t_id y ∧ primary_key x < primary_key y.
Proof. unfold primary_lt. rewrite orb_true_iff, andb_true_iff, !Z.ltb_lt, Z.eqb_eq. done. Qed.

Lemma primary_lt_false x y : primary_lt x y = false ↔
  ¬ (t_id x < t_id y ∨ t_id x = t_id y ∧ primary_key x < primary_key y).
Proof. rewrite <-primary_lt_true. by destruct (primary_lt x y). Qed.

(** The key that a position in the index is at, if it is in table [t] *)
Definition found_key (t : Z) (itr : option (Z * row)) : option Z :=
  match itr with Some (_, r) => if t_id r =? t then Some (primary_key r) else None | None => None end.

Lemma in_contents c t n ptr r : db_ok c → named c t n → rows c !! ptr = Some r → row_kind r = key_value_object →
  t_id r = t → is_Some (contents c n !! primary_key r).
Proof.
  intros Hdb Hn Hr Hk <-. destruct r as [t id p d]. destruct d as [v| | | | |]; try discriminate Hk.
  apply contents_is_Some; [done|]. by exists t, ptr, p, v.
Qed.

Lemma contents_row c t n k : db_ok c → named c t n → is_Some (contents c n !! k) →
  ∃ ptr r, rows c !! ptr = Some r ∧ is_kind key_value_object r = true ∧ t_id r = t ∧ primary_key r = k.
Proof.
  intros Hdb Hn (t' & ptr & p & v & Ht & Hr)%contents_is_Some; [|done].
  assert (t' = t) as -> by (by eapply named_inj). by eexists ptr, _.
Qed.

Lemma least_first c t n (p : row → bool) (P : Z → Prop) : db_ok c → named c t n →
  (∀ r, p r = true → t ≤ t_id r) → (∀ r, t_id r = t → p r = true ↔ P (primary_key r)) →
  first_key P (contents c n) (found_key t (least primary_lt (λ r, is_kind key_value_object r && p r) (rows c))).
Proof.
  intros Hdb Hn Hle HP.
  pose proof (least_spec primary_lt (λ r, is_kind key_value_object r && p r) (rows c)) as H.
  specialize (H ltac:(intros; apply primary_lt_false; lia)
    ltac:(intros *; rewrite !primary_lt_true; lia)).
  destruct (least _ _ _) as [[ptr r]|]; cbn.
  - destruct H as (Hr & [Hk%is_kind_true Hp]%andb_true_iff & Hmin).
    assert (∀ k', is_Some (contents c n !! k') → P k' → t_id r = t ∧ primary_key r ≤ k') as Hall.
    { intros k' Hin HPk. destruct (contents_row c t n k' Hdb Hn Hin) as (ptr' & r' & Hr' & Hk' & Ht' & <-).
      specialize (Hmin ptr' r' Hr'). rewrite Hk', (proj2 (HP r' Ht') HPk) in Hmin.
      specialize (Hmin eq_refl). apply primary_lt_false in Hmin. specialize (Hle r Hp). lia. }
    destruct (Z.eqb_spec (t_id r) t) as [E|Hne].
    + split_and!; [by eapply in_contents|by apply HP|]. intros k' Hin HPk. by apply Hall.
    + intros k' Hin HPk. by destruct (Hall k' Hin HPk).
  - intros k' Hin HPk. destruct (contents_row c t n k' Hdb Hn Hin) as (ptr' & r' & Hr' & Hk' & Ht' & <-).
    apply (H ptr' r' Hr'). by rewrite Hk', (proj2 (HP r' Ht') HPk).
Qed.

Lemma greatest_last c t n (p : row → bool) (P : Z → Prop) : db_ok c → named c t n →
  (∀ r, p r = true → t_id r ≤ t) → (∀ r, t_id r = t → p r = true ↔ P (primary_key r)) →
  last_key P (contents c n) (found_key t (greatest primary_lt (λ r, is_kind key_value_object r && p r) (rows c))).
Proof.
  intros Hdb Hn Hle HP. unfold greatest.
  pose proof (least_spec (λ x y, primary_lt y x) (λ r, is_kind key_value_object r && p r) (rows c)) as H.
  specialize (H ltac:(intros; apply primary_lt_false; lia)
    ltac:(intros *; rewrite !primary_lt_true; lia)).
  destruct (least _ _ _) as [[ptr r]|]; cbn.
  - destruct H as (Hr & [Hk%is_kind_true Hp]%andb_true_iff & Hmin).
    assert (∀ k', is_Some (contents c n !! k') → P k' → t_id r = t ∧ k' ≤ primary_key r) as Hall.
    { intros k' Hin HPk. destruct (contents_row c t n k' Hdb Hn Hin) as (ptr' & r' & Hr' & Hk' & Ht' & <-).
      specialize (Hmin ptr' r' Hr'). rewrite Hk', (proj2 (HP r' Ht') HPk) in Hmin.
      specialize (Hmin eq_refl). apply primary_lt_false in Hmin. specialize (Hle r Hp). lia. }
    destruct (Z.eqb_spec (t_id r) t) as [E|Hne].
    + split_and!; [by eapply in_contents|by apply HP|]. intros k' Hin HPk. by apply Hall.
    + intros k' Hin HPk. by destruct (Hall k' Hin HPk).
  - intros k' Hin HPk. destruct (contents_row c t n k' Hdb Hn Hin) as (ptr' & r' & Hr' & Hk' & Ht' & <-).
    apply (H ptr' r' Hr'). by rewrite Hk', (proj2 (HP r' Ht') HPk).
Qed.

(** *** Positions *)

Lemma denotes_end c t n ei : named c t n → table_cache (cache_of c key_value_object) !! t = Some ei →
  denotes c ei (End n).
Proof. intros. left. by exists t. Qed.

Lemma add_denotes c t n ptr r : caches_ok c → named c t n → rows c !! ptr = Some r →
  row_kind r = key_value_object → t_id r = t →
  denotes (cache_add_in c key_value_object ptr).1 (cache_add_in c key_value_object ptr).2 (Row n (primary_key r)).
Proof.
  intros Hc Hn Hr Hk <-. pose proof (cache_add_in_get _ c key_value_object ptr (Hc _)) as Hg.
  pose proof (cache_add_in_same c key_value_object ptr) as [E1 E2].
  destruct (cache_add_in c key_value_object ptr) as [c' i]. cbn [fst snd] in *.
  destruct r as [t id p d]. destruct d as [v| | | | |]; try discriminate Hk.
  exists ptr, t, p, v. rewrite E2. split_and!; [done|done|]. by apply (named_ext c).
Qed.

Lemma found_denotes c t n ei itr : caches_ok c → named c t n →
  table_cache (cache_of c key_value_object) !! t = Some ei →
  (∀ ptr r, itr = Some (ptr, r) → rows c !! ptr = Some r ∧ row_kind r = key_value_object) →
  denotes (found_in_table c key_value_object t ei itr).1.1 (found_in_table c key_value_object t ei itr).1.2
    (at_or_end n (found_key t itr)).
Proof.
  intros Hc Hn Ht Hitr. destruct itr as [[ptr r]|]; cbn; [|by eapply denotes_end].
  destruct (Hitr ptr r eq_refl) as [Hr Hk]. destruct (Z.eqb_spec (t_id r) t) as [E|Hne]; [|by eapply denotes_end].
  pose proof (add_denotes c t n ptr r Hc Hn Hr Hk E) as H.
  by destruct (cache_add_in c key_value_object ptr) as [c' i].
Qed.

Lemma before_denotes c t n itr : caches_ok c → named c t n →
  (∀ ptr r, itr = Some (ptr, r) → rows c !! ptr = Some r ∧ row_kind r = key_value_object) →
  match found_key t itr with
  | Some k => denotes (before_in_table c key_value_object t itr).1.1 (before_in_table c key_value_object t itr).1.2 (Row n k)
  | None => (before_in_table c key_value_object t itr).1.2 = -1
  end.
Proof.
  intros Hc Hn Hitr. destruct itr as [[ptr r]|]; cbn; [|done].
  destruct (Hitr ptr r eq_refl) as [Hr Hk]. destruct (Z.eqb_spec (t_id r) t) as [E|Hne]; [|done].
  pose proof (add_denotes c t n ptr r Hc Hn Hr Hk E) as H.
  by destruct (cache_add_in c key_value_object ptr) as [c' i].
Qed.

Lemma least_kind lt k p m ptr r : least lt (λ r, is_kind k r && p r) m = Some (ptr, r) →
  m !! ptr = Some r ∧ row_kind r = k.
Proof. intros [? [? _]%andb_true_iff]%least_elem. split; [done|]. by apply is_kind_true. Qed.

Lemma no_table c n : db_ok c → find_table c n.1.1 n.1.2 n.2 = None →
  denotes c (-1) (End n) ∧ contents c n = ∅.
Proof.
  intros Hdb Hf. split; [|unfold contents; by rewrite Hf].
  right. split; [done|]. intros t Ht%find_table_named; [congruence|done].
Qed.

(** A table is cached before it is searched. *)
Lemma cached_search c n t : db_ok c → caches_ok c → find_table c n.1.1 n.1.2 n.2 = Some t →
  let r := cache_table_in c key_value_object t in
  reads c r.1 ∧ caches_ok r.1 ∧ named r.1 t n ∧ named c t n ∧
  table_cache (cache_of r.1 key_value_object) !! t = Some r.2.
Proof.
  intros Hdb Hc Hf%find_table_named; [|done]. cbv zeta.
  destruct (cache_table_in_ok c key_value_object t Hc) as (H1 & H2 & H3). split_and!; try done.
  by apply (named_ext c), Hf; apply H1.
Qed.

Lemma search_first c n (p : Z → row → bool) (P : Z → Prop) : db_ok c → caches_ok c →
  (∀ t r, p t r = true → t ≤ t_id r) → (∀ t r, t_id r = t → p t r = true ↔ P (primary_key r)) →
  let r := search primary_lt p c key_value_object n.1.1 n.1.2 n.2 in
  ∃ o, first_key P (contents c n) o ∧ denotes r.1.1 r.1.2 (at_or_end n o).
Proof.
  intros Hdb Hc Hle HP. cbv zeta. unfold search. destruct (find_table _ _ _ _) as [t|] eqn:Ef.
  - destruct (cached_search c n t Hdb Hc Ef) as (Hrd & Hc1 & Hn1 & Hn & Ht).
    destruct (cache_table_in c key_value_object t) as [c1 ei]. cbn [fst snd] in *.
    assert (rows c1 = rows c) as E by apply Hrd. eexists. split; [exact (least_first c t n (p t) P Hdb Hn (Hle t) (HP t))|].
    rewrite <-E. apply found_denotes; [done..|]. intros ptr r. apply least_kind.
  - destruct (no_table c n Hdb Ef) as [Hd E]. exists None. split; [|done]. cbn. rewrite E.
    intros k' [x Hx]. by rewrite lookup_empty in Hx.
Qed.

Lemma find_exact c n id : db_ok c → caches_ok c →
  let r := db_find_i64 c n.1.1 n.1.2 n.2 id in
  denotes r.1.1 r.1.2 (at_or_end n (if decide (is_Some (contents c n !! id)) then Some id else None)).
Proof.
  intros Hdb Hc. cbv zeta. unfold db_find_i64, search_exact. destruct (find_table _ _ _ _) as [t|] eqn:Ef.
  - destruct (cached_search c n t Hdb Hc Ef) as (Hrd & Hc1 & Hn1 & Hn & Ht).
    destruct (cache_table_in c key_value_object t) as [c1 ei]. cbn [fst snd] in *.
    assert (rows c1 = rows c) as E by apply Hrd. rewrite E.
    set (itr := head _).
    assert (∀ ptr r, itr = Some (ptr, r) → rows c !! ptr = Some r ∧ row_kind r = key_value_object ∧
      t_id r = t ∧ primary_key r = id) as Hitr.
    { intros ptr r [Hin%elem_of_map_to_list Hp]%head_filter_Some. cbn in Hp.
      apply andb_true_iff in Hp as [[Hk%is_kind_true Ht1%Z.eqb_eq]%andb_true_iff Hp%Z.eqb_eq]. done. }
    assert ((if decide (is_Some (contents c n !! id)) then Some id else None) = found_key t itr) as ->.
    { destruct itr as [[ptr r]|] eqn:Ei; cbn.
      - destruct (Hitr ptr r eq_refl) as (Hr & Hk & Htr & <-). rewrite Htr, Z.eqb_refl.
        rewrite decide_True; [done|]. by eapply in_contents.
      - rewrite decide_False; [done|]. intros Hin.
        destruct (contents_row c t n id Hdb Hn Hin) as (ptr & r & Hr & Hk & Htr & Hp).
        eapply (head_filter_None _ _ Ei (ptr, r)); [by apply elem_of_map_to_list|].
        cbn. by rewrite Hk, Htr, Hp, !Z.eqb_refl. }
    apply found_denotes; [done..|]. intros ptr r H. rewrite E. by destruct (Hitr ptr r H) as (? & ? & _).
  - destruct (no_table c n Hdb Ef) as [Hd E]. rewrite decide_False; [done|]. rewrite E.
    intros [x Hx]. by rewrite lookup_empty in Hx.
Qed.

(** [next] is a search of the rows after the current one. *)
Lemma next_found lt c k it ptr obj ei : -1 ≤ it → cache_get (cache_of c k) it = Ok ptr → rows c !! ptr = Some obj →
  table_cache (cache_of c k) !! t_id obj = Some ei →
  next lt c k it = Ok (found_in_table c k (t_id obj) ei (least lt (λ r, is_kind k r && lt obj r) (rows c))).
Proof.
  intros Hit Hg Hr He. unfold next. rewrite (proj2 (Z.ltb_ge it (-1))) by done.
  rewrite Hg. cbn [mbind result_bind]. rewrite (proj2 (deref_Ok _ _ _) Hr). cbn [mbind result_bind].
  unfold get_end_iterator_by_table_id, found_in_table. rewrite He. cbn [mbind result_bind].
  destruct (least _ _ _) as [[ptr' r]|]; [|done]. destruct (t_id r =? t_id obj); [|done].
  by destruct (cache_add_in c k ptr').
Qed.

Lemma step_next env c it r : db_ok c → caches_ok c → db_next_i64 c it = Ok r → step env c r.1.1 (DbNext it) r.1.2.
Proof.
  intros Hdb Hc H. pose proof (next_ok primary_lt c key_value_object it Hc) as Hok. unfold db_next_i64 in H.
  rewrite H in Hok. destruct Hok as [(E1 & E2 & _) _]. split; [by apply contents_ext|].
  destruct (Z.ltb_spec it (-1)) as [Hit|Hit].
  { left. unfold next in H. rewrite (proj2 (Z.ltb_lt it (-1))) in H by done. injection H as <-. done. }
  right. destruct (cache_get (cache_of c key_value_object) it) as [ptr|f] eqn:Hg.
  2:{ unfold next in H. rewrite (proj2 (Z.ltb_ge it (-1))), Hg in H by done. done. }
  destruct (cached_value c it ptr Hdb Hc Hg) as (t & id & p & v & n & Hr & Hn & Hd & Hin).
  destruct (cached_row c _ it ptr Hc Hg) as (r0 & Hr0 & _ & [ei He]). rewrite Hr in Hr0. injection Hr0 as <-. cbn in He.
  rewrite (next_found primary_lt c _ it ptr _ ei Hit Hg Hr He) in H. cbn [t_id] in H. injection H as <-.
  exists n, id. eexists. split_and!; [done| |apply found_denotes; [done..|apply least_kind]].
  apply (least_first c t n); [done..|intros r; rewrite primary_lt_true; cbn; lia|].
  intros r Ht. rewrite primary_lt_true. cbn. lia.
Qed.

Lemma step_previous env c it r : db_ok c → caches_ok c → db_previous_i64 c it = Ok r →
  step env c r.1.1 (DbPrevious it) r.1.2.
Proof.
  intros Hdb Hc H. pose proof (previous_ok primary_lt c key_value_object it Hc) as Hok. unfold db_previous_i64 in H.
  rewrite H in Hok. destruct Hok as [(E1 & E2 & _) _]. split; [by apply contents_ext|]. clear E1 E2.
  unfold previous in H. destruct (Z.ltb_spec it (-1)) as [Hit|Hit].
  - apply bind_Ok in H as (o & H1 & H). apply bind_Ok in H1 as (u & _ & [= Ho]). subst o.
    destruct (_ !! _) as [t|] eqn:Ht; [|done]. apply bind_Ok in H as (tab & Htab%deref_Ok & H). injection H as <-.
    assert (named c t (name_of tab)) as Hn by (unfold named; by rewrite Htab). exists (name_of tab).
    eexists. split; [left; split|by apply before_denotes; [..|apply least_kind]].
    + apply (co_end _ _ _ (Hc key_value_object)) in Ht. apply (denotes_end c t); [done|]. rewrite Ht. f_equal.
      unfold end_iterator_to_index. lia.
    + apply (greatest_last c t); [done..|intros r; rewrite negb_true_iff, Z.ltb_ge; lia|].
      intros r <-. rewrite negb_true_iff, Z.ltb_ge. split; [done|lia].
  - apply bind_Ok in H as (ptr & Hg & H). apply bind_Ok in H as (obj & Hobj%deref_Ok & H). injection H as <-.
    destruct (cached_value c it ptr Hdb Hc Hg) as (t & id & p & v & n & Hr & Hn & Hd & Hin).
    rewrite Hr in Hobj. injection Hobj as <-. cbn [t_id]. exists n.
    eexists. split; [right; exists id; split; [done|]|by apply before_denotes; [..|apply least_kind]].
    apply (greatest_last c t); [done..|intros r; rewrite primary_lt_true; cbn; lia|].
    intros r Ht. rewrite primary_lt_true. cbn. lia.
Qed.

Lemma step_end env c n : db_ok c → caches_ok c →
  let r := db_end_i64 c n.1.1 n.1.2 n.2 in step env c r.1 (DbEnd n.1.1 n.1.2 n.2) r.2.
Proof.
  intros Hdb Hc. cbv zeta. pose proof (end_of_ok c key_value_object n.1.1 n.1.2 n.2 Hc) as [(E1 & E2 & _) _].
  split; [by apply contents_ext|]. clear E1 E2. unfold db_end_i64, end_of.
  destruct (find_table _ _ _ _) as [t|] eqn:Ef.
  - destruct (cached_search c n t Hdb Hc Ef) as (_ & _ & Hn & _ & Ht). destruct n as [[] ]. by eapply denotes_end.
  - destruct (no_table c n Hdb Ef) as [Hd _]. by destruct n as [[] ].
Qed.

Lemma step_get env c it size r : db_ok c → caches_ok c → db_get_i64 c it size = Ok r →
  step env c c (DbGet it size) r.1.
Proof.
  intros Hdb Hc (ptr & Hg & H)%bind_Ok. apply bind_Ok in H as (obj & Hobj%deref_Ok & H).
  destruct (cached_value c it ptr Hdb Hc Hg) as (t & id & p & v & n & Hr & Hn & Hd & Hin).
  rewrite Hr in Hobj. injection Hobj as <-. cbn [data] in H. split; [done|]. exists n, id, (p, v).
  split_and!; [done|done|]. destruct (size =? 0); by injection H as <-.
Qed.

Lemma step_bound env c n id (call : db_call) (p : Z → row → bool) (P : Z → Prop) :
  db_ok c → caches_ok c →
  (∀ t r, p t r = true → t ≤ t_id r) → (∀ t r, t_id r = t → p t r = true ↔ P (primary_key r)) →
  (call = DbLowerbound n.1.1 n.1.2 n.2 id ∧ P = (λ k, id ≤ k) ∨ call = DbUpperbound n.1.1 n.1.2 n.2 id ∧ P = (λ k, id < k)) →
  let r := search primary_lt p c key_value_object n.1.1 n.1.2 n.2 in step env c r.1.1 call r.1.2.
Proof.
  intros Hdb Hc Hle HP Hcall. cbv zeta.
  pose proof (search_ok primary_lt p c key_value_object n.1.1 n.1.2 n.2 Hc) as [(E1 & E2 & _) _].
  pose proof (search_first c n p P Hdb Hc Hle HP) as (o & Ho & Hd). destruct n as [[co sc] ta].
  destruct Hcall as [[-> ->]|[-> ->]]; (split; [by apply contents_ext|]); by exists o.
Qed.

(** ** Refinement *)

Section keys.
Context (f64_lt f128_lt : Z → Z → bool).

Lemma step_find env c n id : db_ok c → caches_ok c →
  let r := db_find_i64 c n.1.1 n.1.2 n.2 id in step env c r.1.1 (DbFind n.1.1 n.1.2 n.2 id) r.1.2.
Proof.
  intros Hdb Hc. cbv zeta.
  pose proof (search_exact_ok (λ r, primary_key r =? id) c key_value_object n.1.1 n.1.2 n.2 Hc) as [(E1 & E2 & _) _].
  pose proof (find_exact c n id Hdb Hc) as Hd. destruct n as [[co sc] ta]. split; [by apply contents_ext|done].
Qed.

(** A call that only reads a secondary index *)
Lemma reads_same c c' i (x : context * Z * option row) : reads c x.1.1 ∧ caches_ok x.1.1 → x.1 = (c', i) →
  same_tables (contents c') (contents c).
Proof. intros [(E1 & E2 & _) _] E. rewrite E in *. by apply contents_ext. Qed.

Lemma next_same lt c k it c' i : caches_ok c → (r ← next lt c k it; Ok r.1) = Ok (c', i) →
  same_tables (contents c') (contents c).
Proof.
  intros Hc (r & Hr & [= E])%bind_Ok. pose proof (next_ok lt c k it Hc) as Hok. rewrite Hr in Hok.
  by eapply reads_same.
Qed.

Lemma previous_same lt c k it c' i : caches_ok c → (r ← previous lt c k it; Ok r.1) = Ok (c', i) →
  same_tables (contents c') (contents c).
Proof.
  intros Hc (r & Hr & [= E])%bind_Ok. pose proof (previous_ok lt c k it Hc) as Hok. rewrite Hr in Hok.
  by eapply reads_same.
Qed.

Lemma step_exec env c call c' i : db_ok c → caches_ok c → db_ok c' → call_ok c call →
  exec f64_lt f128_lt env c call = Ok (c', i) → step env c c' call i.
Proof.
  intros Hdb Hc Hdb' [_ Hcall] H. destruct call; cbn [exec] in H.
  - by apply step_store.
  - apply bind_Ok in H as (r & H & [= <- <-]). by apply step_update.
  - apply bind_Ok in H as (r & H & [= <- <-]). by apply step_remove.
  - apply bind_Ok in H as (r & H & [= <- <-]). by eapply step_get.
  - apply bind_Ok in H as (r & H & [= Hr]). apply (step_next env) in H; [|done..]. by rewrite Hr in H.
  - apply bind_Ok in H as (r & H & [= Hr]). apply (step_previous env) in H; [|done..]. by rewrite Hr in H.
  - injection H as H. pose proof (step_find env c (code0, scope0, table0) id Hdb Hc) as Hs. cbn in Hs. by rewrite H in Hs.
  - injection H as H. pose proof (step_bound env c (code0, scope0, table0) id (DbLowerbound code0 scope0 table0 id)
      (from_primary id) (λ k, id ≤ k) Hdb Hc) as Hs. cbn in Hs. unfold db_lowerbound_i64 in H. rewrite H in Hs.
    apply Hs; [intros *; unfold from_primary; lia|intros ? ? <-; unfold from_primary; lia|by left].
  - injection H as H. pose proof (step_bound env c (code0, scope0, table0) id (DbUpperbound code0 scope0 table0 id)
      (after_primary id) (λ k, id < k) Hdb Hc) as Hs. cbn in Hs. unfold db_upperbound_i64 in H. rewrite H in Hs.
    apply Hs; [intros *; unfold after_primary; lia|intros ? ? <-; unfold after_primary; lia|by right].
  - injection H as H. pose proof (step_end env c (code0, scope0, table0) Hdb Hc) as Hs. cbn in Hs. by rewrite H in Hs.
  - by eapply step_index_store.
  - apply bind_Ok in H as (r & H & [= <- <-]). by eapply step_index_remove.
  - apply bind_Ok in H as (r & H & [= <- <-]). by eapply step_index_update.
  - injection H as H. eapply reads_same; [by apply find_secondary_ok|done].
  - injection H as H. eapply reads_same; [by apply search_ok|done].
  - injection H as H. eapply reads_same; [by apply search_ok|done].
  - injection H as H. pose proof (end_of_ok c k code0 scope0 table0 Hc) as [(E1 & E2 & _) _].
    unfold end_secondary in H. rewrite H in *. by apply contents_ext.
  - by eapply next_same.
  - by eapply previous_same.
  - injection H as H. eapply reads_same; [by apply search_exact_ok|done].
  - injection H as H. eapply reads_same; [by apply search_ok|done].
  - injection H as H. eapply reads_same; [by apply search_ok|done].
  - by eapply next_same.
  - by eapply previous_same.
  - by apply bind_Ok in H as (r & H & [= <- <-]).
Qed.

(** C5: the primary tables refine sorted maps. From every reachable state, a successful
    database call does what [table_step] allows on the maps from primary keys to payers and
    values of the tables: a store inserts a new key and returns an iterator to it, updates
    and removals change the row of the iterator in a table of the receiver alone, find and
    the bounds return the row of the key asked for or the first one from there or the end,
    next and previous move to the neighbour key in the same table, and no call on a
    secondary index changes them. *)
Theorem primary_tables_refine r env c call c' i : (∀ a, 0 ≤ billed r a < 2 ^ 64) →
  reachable f64_lt f128_lt r c → call_ok c call → exec f64_lt f128_lt env c call = Ok (c', i) →
  table_step (receiver env) (contents c) (contents c') (denotes c) (denotes c') call i.
Proof.
  intros Hr Hc Hcall He.
  assert (reachable f64_lt f128_lt r c') as Hc' by (by eapply reach_call).
  apply (reachable_ok _ _ r c Hr) in Hc as (Hdb & Hca & _). apply (reachable_ok _ _ r c' Hr) in Hc' as (Hdb' & _).
  by apply step_exec.
Qed.
End keys.

(** The lower bound of 60 in a table with the keys 100 and 50 *)
Definition demo_two_rows : context :=
  demo_run [DbStore 7 8 1 100 [1; 2; 3]; DbStore 7 8 1 50 [4]].

Lemma demo_two_rows_reachable : reachable Z.ltb Z.ltb demo_resources demo_two_rows.
Proof. apply demo_reachable. vm_compute. by eexists. Qed.

Lemma primary_tables_refine_witness : ∃ c' o,
  exec Z.ltb Z.ltb demo_env demo_two_rows (DbLowerbound 1 7 8 60) = Ok (c', 0) ∧
  first_key (λ k, 60 ≤ k) (contents demo_two_rows (1, 7, 8)) o ∧ denotes c' 0 (at_or_end (1, 7, 8) o).
Proof.
  eexists. edestruct (primary_tables_refine Z.ltb Z.ltb demo_resources demo_env demo_two_rows (DbLowerbound 1 7 8 60))
    as [_ [o Ho]]; [exact demo_resources_range|exact demo_two_rows_reachable|by split; vm_compute|
      vm_compute; reflexivity|]. exists o. split; [vm_compute; reflexivity|exact Ho].
Defined.

End TableRefinement.
