(* ===== verification/UnappliedQueue.v ===== *)
(** * The queue of unapplied transactions

    Models [unapplied_transaction_queue.hpp]: the transactions a node keeps to apply again,
    those it persists until they expire, those of blocks it forked out and those of aborted
    blocks.  The container has three indices: [by_trx_id] makes identifiers unique,
    [by_type] orders transactions for application and [by_expiry] for removal; an ordered
    index inserts an element after those with the same key.

    Of a [transaction_metadata] the queue reads the identifier and the expiration, in
    seconds. *)

From S2P Require Import Prelude.
From S2P Require Import Exceptions.
From S2P Require Import Merkle.

Local Open Scope Z_scope.

Module UnappliedQueue.

Notation transaction_id := Merkle.digest_type.

Record transaction_metadata := MkMeta { meta_id : transaction_id; expiration : Z }.

#[global] Instance transaction_metadata_eq_dec : EqDecision transaction_metadata.
Proof. solve_decision. Defined.

Inductive trx_enum_type := unknown | persisted | forked | aborted.

#[global] Instance trx_enum_type_eq_dec : EqDecision trx_enum_type.
Proof. solve_decision. Defined.

Definition type_value (t : trx_enum_type) : Z :=
  match t with unknown => 0 | persisted => 1 | forked => 2 | aborted => 3 end.

Record unapplied_transaction := MkUnapplied {
  trx_meta : transaction_metadata;
  expiry : Z;
  trx_type : trx_enum_type }.

Definition id (u : unapplied_transaction) : transaction_id := meta_id (trx_meta u).

Inductive process_mode := non_speculative | speculative_non_producer | speculative_producer.

#[global] Instance process_mode_eq_dec : EqDecision process_mode.
Proof. solve_decision. Defined.

(** The elements in the order of the two ordered indices *)
Record queue := MkQueue {
  by_type : list unapplied_transaction;
  by_expiry : list unapplied_transaction;
  mode : process_mode }.

Definition empty_queue : queue := MkQueue [] [] speculative_producer.

(** ** The container *)

(** Insertion into an [ordered_non_unique] index *)
Fixpoint insert_ordered (key : unapplied_transaction → Z) (u : unapplied_transaction)
    (l : list unapplied_transaction) : list unapplied_transaction :=
  match l with
  | [] => [u]
  | x :: l' => if key u <? key x then u :: l else x :: insert_ordered key u l'
  end.

Definition type_key (u : unapplied_transaction) : Z := type_value (trx_type u).

(** [queue.get<by_trx_id>().find] *)
Definition find (q : queue) (i : transaction_id) : option unapplied_transaction :=
  head (filter (λ u, id u = i) (by_type q)).

(** [queue.insert], which fails when the identifier is taken *)
Definition insert_trx (q : queue) (u : unapplied_transaction) : queue :=
  match find q (id u) with
  | Some _ => q
  | None => MkQueue (insert_ordered type_key u (by_type q)) (insert_ordered expiry u (by_expiry q)) (mode q)
  end.

Definition erase_id (q : queue) (i : transaction_id) : queue :=
  MkQueue (filter (λ u, id u ≠ i) (by_type q)) (filter (λ u, id u ≠ i) (by_expiry q)) (mode q).

Definition set_type (t : trx_enum_type) (u : unapplied_transaction) : unapplied_transaction :=
  MkUnapplied (trx_meta u) (expiry u) t.

(** [modify] of the type of an element: it moves in the first order and stays in the second. *)
Definition modify_type (q : queue) (u : unapplied_transaction) (t : trx_enum_type) : queue :=
  MkQueue (insert_ordered type_key (set_type t u) (filter (λ x, id x ≠ id u) (by_type q)))
    ((λ x, if decide (id x = id u) then set_type t x else x) <$> by_expiry q) (mode q).

(** ** The operations *)

Definition empty (q : queue) : bool := match by_type q with [] => true | _ => false end.

Definition size (q : queue) : nat := length (by_type q).

Definition set_mode (q : queue) (new_mode : process_mode) : result exn queue :=
  _ ← (if decide (new_mode = mode q) then Ok tt else assert_that (empty q) fc_assert_exception);
  Ok (MkQueue (by_type q) (by_expiry q) new_mode).

Definition clear (q : queue) : queue := MkQueue [] [] (mode q).

Definition contains_persisted (q : queue) : bool :=
  existsb (λ u, bool_decide (trx_type u = persisted)) (by_type q).

Definition is_persisted (q : queue) (trx : transaction_metadata) : bool :=
  match find q (meta_id trx) with
  | None => false
  | Some u => bool_decide (trx_type u = persisted)
  end.

Definition get_trx (q : queue) (i : transaction_id) : option transaction_metadata :=
  trx_meta <$> find q i.

(** The loop of [clear_expired]: [clock n] is what the [n]th call of [now] returns.  The
    identifiers and types passed to the callback, and whether the loop finished *)
Fixpoint clear_expired_loop (pending_block_time deadline : Z) (clock : nat → Z) (n : nat)
    (l : list unapplied_transaction) (q : queue) :
    queue * list (transaction_id * trx_enum_type) * bool :=
  match l with
  | [] => (q, [], true)
  | u :: l =>
      if expiry u <=? pending_block_time then
        if deadline <=? clock n then (q, [], false)
        else
          let '(q, calls, finished) :=
            clear_expired_loop pending_block_time deadline clock (S n) l (erase_id q (id u)) in
          (q, (id u, trx_type u) :: calls, finished)
      else (q, [], true)
  end.

Definition clear_expired (q : queue) (pending_block_time deadline : Z) (clock : nat → Z) :
    queue * list (transaction_id * trx_enum_type) * bool :=
  clear_expired_loop pending_block_time deadline clock 0 (by_expiry q) q.

(** A receipt of a block holds a packed transaction, or the identifier of a deferred one. *)
Inductive receipt := Packed (i : transaction_id) | Deferred (i : transaction_id).

Definition clear_receipt (q : queue) (r : receipt) : queue :=
  match r with
  | Deferred _ => q
  | Packed i =>
      match find q i with
      | None => q
      | Some u => if decide (trx_type u = persisted) then q else erase_id q i
      end
  end.

Definition clear_applied (q : queue) (transactions : list receipt) : queue :=
  if empty q then q else foldl clear_receipt q transactions.

Definition make_unapplied (t : trx_enum_type) (trx : transaction_metadata) : unapplied_transaction :=
  MkUnapplied trx (expiration trx * 1000000) t.

(** A branch lists the transactions of its blocks, the last block first. *)
Definition add_forked (q : queue) (forked_branch : list (list transaction_metadata)) : queue :=
  if decide (mode q = non_speculative ∨ mode q = speculative_non_producer) then q
  else foldl (foldl (λ q trx, insert_trx q (make_unapplied forked trx))) q (reverse forked_branch).

Definition add_aborted (q : queue) (aborted_trxs : list transaction_metadata) : queue :=
  if decide (mode q = non_speculative ∨ mode q = speculative_non_producer) then q
  else foldl (λ q trx, insert_trx q (make_unapplied aborted trx)) q aborted_trxs.

Definition add_persisted (q : queue) (trx : transaction_metadata) : queue :=
  if decide (mode q = non_speculative) then q else
  match find q (meta_id trx) with
  | None => insert_trx q (make_unapplied persisted trx)
  | Some u => if decide (trx_type u = persisted) then q else modify_type q u persisted
  end.

(** What an iteration visits: [begin] to [end], and [persisted_begin] to [persisted_end] *)
Definition persisted_range (q : queue) : list unapplied_transaction :=
  filter (λ u, trx_type u = persisted) (by_type q).

(** ** What the queue promises

    Three queues, in the order of arrival: the persisted, the forked and the aborted
    transactions, which are applied one after the other. *)

Record lanes := MkLanes {
  lane_persisted : list transaction_metadata;
  lane_forked : list transaction_metadata;
  lane_aborted : list transaction_metadata;
  lane_mode : process_mode }.

Definition all_lanes (s : lanes) : list transaction_metadata :=
  lane_persisted s ++ lane_forked s ++ lane_aborted s.

Definition keep (P : transaction_metadata → Prop) `{∀ x, Decision (P x)} (s : lanes) : lanes :=
  MkLanes (filter P (lane_persisted s)) (filter P (lane_forked s)) (filter P (lane_aborted s)) (lane_mode s).

(** A transaction joins its queue when no queue has it. *)
Definition enqueue (t : trx_enum_type) (s : lanes) (trx : transaction_metadata) : lanes :=
  if decide (meta_id trx ∈ meta_id <$> all_lanes s) then s else
  let add t' l := if decide (t' = t) then l ++ [trx] else l in
  MkLanes (add persisted (lane_persisted s)) (add forked (lane_forked s)) (add aborted (lane_aborted s))
    (lane_mode s).

(** A transaction that is persisted leaves the other queues. *)
Definition persist (s : lanes) (trx : transaction_metadata) : lanes :=
  match head (filter (λ x, meta_id x = meta_id trx) (all_lanes s)) with
  | None => enqueue persisted s trx
  | Some old =>
      if decide (meta_id trx ∈ meta_id <$> lane_persisted s) then s else
      MkLanes (lane_persisted s ++ [old]) (filter (λ x, meta_id x ≠ meta_id trx) (lane_forked s))
        (filter (λ x, meta_id x ≠ meta_id trx) (lane_aborted s)) (lane_mode s)
  end.

(** Applied transactions leave, except the persisted ones. *)
Definition apply_receipt (s : lanes) (r : receipt) : lanes :=
  match r with
  | Deferred _ => s
  | Packed i =>
      let left := filter (λ x, meta_id x ≠ i) in
      MkLanes (lane_persisted s) (left (lane_forked s)) (left (lane_aborted s)) (lane_mode s)
  end.

Inductive op :=
  | OpSetMode (m : process_mode) | OpClear
  | OpClearExpired (pending_block_time deadline : Z) (clock : nat → Z)
  | OpClearApplied (transactions : list receipt)
  | OpAddForked (branch : list (list transaction_metadata))
  | OpAddAborted (trxs : list transaction_metadata)
  | OpAddPersisted (trx : transaction_metadata)
  | OpErase (i : transaction_id).

(** An operation that throws changes nothing. *)
Definition step (q : queue) (o : op) : queue :=
  match o with
  | OpSetMode m => match set_mode q m with Ok q => q | Throw _ => q end
  | OpClear => clear q
  | OpClearExpired t deadline clock => (clear_expired q t deadline clock).1.1
  | OpClearApplied l => clear_applied q l
  | OpAddForked b => add_forked q b
  | OpAddAborted l => add_aborted q l
  | OpAddPersisted trx => add_persisted q trx
  | OpErase i => erase_id q i
  end.

Definition run (ops : list op) : queue := foldl step empty_queue ops.

Definition lanes_of (q : queue) : lanes :=
  let lane t := trx_meta <$> filter (λ u, trx_type u = t) (by_type q) in
  MkLanes (lane persisted) (lane forked) (lane aborted) (mode q).

(** ** Invariant *)

Record queue_ok (q : queue) : Prop := {
  ok_perm : by_type q ≡ₚ by_expiry q;
  ok_ids : NoDup (id <$> by_type q);
  ok_types : StronglySorted (λ u v, type_key u ≤ type_key v) (by_type q);
  ok_expiries : StronglySorted (λ u v, expiry u ≤ expiry v) (by_expiry q);
  ok_elements u : u ∈ by_type q → expiry u = expiration (trx_meta u) * 1000000 ∧ trx_type u ≠ unknown }.

(** *** Ordered lists *)

Lemma insert_ordered_perm key u l : insert_ordered key u l ≡ₚ u :: l.
Proof.
  induction l as [|x l IH]; cbn; [done|]. destruct (key u <? key x); [done|]. rewrite IH. apply Permutation_swap.
Qed.

Lemma insert_ordered_sorted key u l : StronglySorted (λ u v, key u ≤ key v) l →
  StronglySorted (λ u v, key u ≤ key v) (insert_ordered key u l).
Proof.
  induction 1 as [|x l Hl IH Hx]; cbn; [by repeat constructor|]. destruct (Z.ltb_spec (key u) (key x)) as [Hlt|Hge].
  - constructor; [by constructor|]. constructor; [lia|]. eapply Forall_impl; [exact Hx|]. cbn. lia.
  - constructor; [done|]. rewrite insert_ordered_perm. by constructor.
Qed.

(** An element joins the end of its type and of no other. *)
Lemma insert_ordered_filter u l t : StronglySorted (λ u v, type_key u ≤ type_key v) l →
  filter (λ x, trx_type x = t) (insert_ordered type_key u l) =
  filter (λ x, trx_type x = t) l ++ (if decide (t = trx_type u) then [u] else []).
Proof.
  induction 1 as [|x l Hl IH Hx]; cbn [insert_ordered].
  { rewrite filter_cons. destruct (decide (trx_type u = t)), (decide (t = trx_type u)); by try congruence. }
  destruct (Z.ltb_spec (type_key u) (type_key x)) as [Hlt|Hge].
  - rewrite filter_cons. destruct (decide (trx_type u = t)) as [<-|Hne].
    + rewrite decide_True by done.
      assert (filter (λ y, trx_type y = trx_type u) (x :: l) = []) as ->; [|done].
      apply filter_none. intros y Hy E. assert (type_key x ≤ type_key y).
      { apply elem_of_cons in Hy as [->|Hy]; [done|]. rewrite Forall_forall in Hx. by apply Hx. }
      unfold type_key in *. rewrite E in *. lia.
    + rewrite decide_False by congruence. by rewrite app_nil_r.
  - rewrite !filter_cons, IH. by destruct (decide (trx_type x = t)).
Qed.

Lemma sorted_lanes l : StronglySorted (λ u v, type_key u ≤ type_key v) l → (∀ u, u ∈ l → trx_type u ≠ unknown) →
  l = filter (λ u, trx_type u = persisted) l ++ filter (λ u, trx_type u = forked) l ++
      filter (λ u, trx_type u = aborted) l.
Proof.
  induction 1 as [|x l Hl IH Hx]; intros Hu; [done|]. specialize (IH (λ u Hu', Hu u (list_elem_of_further _ _ _ Hu'))).
  rewrite !filter_cons. rewrite Forall_forall in Hx.
  assert (∀ t, type_value t < type_key x → filter (λ u, trx_type u = t) l = []) as Hnil.
  { intros t Ht. apply filter_none. intros y Hy <-. specialize (Hx y Hy). unfold type_key in *. lia. }
  specialize (Hu x (list_elem_of_here _ _)). unfold type_key in Hnil.
  destruct (trx_type x) eqn:E; cbn in *; [done|..].
  - by rewrite IH at 1.
  - rewrite (Hnil persisted) in * by done. by rewrite IH at 1.
  - rewrite (Hnil persisted), (Hnil forked) in * by done. by rewrite IH at 1.
Qed.

(** *** Finding *)

Lemma find_Some q i u : find q i = Some u → u ∈ by_type q ∧ id u = i.
Proof. intros H. exact (head_filter_Some _ _ _ H). Qed.

Lemma find_None q i : find q i = None → i ∉ id <$> by_type q.
Proof. intros H (u & -> & Hu)%list_elem_of_fmap. by apply (head_filter_None _ _ H u). Qed.

Lemma same_id l u v : NoDup (id <$> l) → u ∈ l → v ∈ l → id u = id v → u = v.
Proof.
  intros Hnd Hu Hv E. apply list_elem_of_lookup in Hu as [i Hi]. apply list_elem_of_lookup in Hv as [j Hj].
  assert (i = j) as ->; [|congruence].
  eapply (NoDup_lookup _ i j (id u) Hnd); rewrite list_lookup_fmap; [by rewrite Hi|by rewrite Hj, E].
Qed.

(** *** The invariant is kept. *)

Lemma empty_queue_ok m : queue_ok (MkQueue [] [] m).
Proof. split; cbn; [done|constructor..|]. by intros u ?%elem_of_nil. Qed.

Lemma insert_trx_ok q u : queue_ok q → expiry u = expiration (trx_meta u) * 1000000 → trx_type u ≠ unknown →
  queue_ok (insert_trx q u).
Proof.
  intros [Hp Hi Ht He Hu] H1 H2. unfold insert_trx. destruct (find q (id u)) eqn:Ef; [by split|].
  split; cbn.
  - by rewrite !insert_ordered_perm, Hp.
  - rewrite insert_ordered_perm. cbn. constructor; [by apply find_None|done].
  - by apply insert_ordered_sorted.
  - by apply insert_ordered_sorted.
  - intros v. rewrite insert_ordered_perm. intros [->|Hv]%elem_of_cons; [done|by apply Hu].
Qed.

Lemma erase_id_ok q i : queue_ok q → queue_ok (erase_id q i).
Proof.
  intros [Hp Hi Ht He Hu]. split; cbn.
  - by rewrite Hp.
  - eapply sublist_NoDup; [done|]. apply fmap_sublist, sublist_filter.
  - by apply filter_sorted.
  - by apply filter_sorted.
  - intros u [_ Hin]%list_elem_of_filter. by apply Hu.
Qed.

Lemma filter_id_single l u : NoDup (id <$> l) → u ∈ l → filter (λ x, id x = id u) l = [u].
Proof.
  induction l as [|x l IH]; intros Hi Hin; [by apply elem_of_nil in Hin|]. cbn in Hi.
  apply NoDup_cons in Hi as [Hx Hi]. rewrite filter_cons. apply elem_of_cons in Hin as [->|Hin].
  - rewrite decide_True by done. f_equal. apply filter_none. intros y Hy E. apply Hx. rewrite <-E.
    by apply list_elem_of_fmap_2.
  - rewrite decide_False; [by apply IH|]. intros E. apply Hx. rewrite E. by apply list_elem_of_fmap_2.
Qed.

Lemma modify_type_ok q u t : queue_ok q → u ∈ by_type q → t ≠ unknown → queue_ok (modify_type q u t).
Proof.
  intros [Hp Hi Ht He Hu] Hin Hk. split; cbn.
  - rewrite insert_ordered_perm, <-Hp.
    pose proof (filter_app_complement (λ x, id x = id u) (by_type q)) as Hsplit.
    rewrite (filter_id_single _ u Hi Hin) in Hsplit. rewrite <-Hsplit. cbn [app]. rewrite fmap_cons.
    rewrite decide_True by done. f_equiv. rewrite Hsplit.
    rewrite (list_fmap_ext _ Datatypes.id (filter (λ x, ¬ id x = id u) (by_type q))), list_fmap_id; [done|].
    intros j x [Hx _]%list_elem_of_lookup_2%list_elem_of_filter. by rewrite decide_False.
  - rewrite insert_ordered_perm. cbn. constructor.
    + intros (v & E & [Hne _]%list_elem_of_filter)%list_elem_of_fmap. by apply Hne.
    + eapply sublist_NoDup; [exact Hi|]. apply fmap_sublist, sublist_filter.
  - apply insert_ordered_sorted. by apply filter_sorted.
  - clear -He. induction He as [|x l Hl IH Hx]; cbn; constructor; [done|].
    rewrite Forall_fmap. eapply Forall_impl; [exact Hx|]. intros y Hy. cbn.
    destruct (decide (id x = id u)), (decide (id y = id u)); done.
  - intros v. rewrite insert_ordered_perm. intros [->|[_ Hv]%list_elem_of_filter]%elem_of_cons; [|by apply Hu].
    split; [apply (Hu u Hin)|done].
Qed.

(** *** The lanes of a queue *)

Lemma all_lanes_of q : queue_ok q → all_lanes (lanes_of q) = trx_meta <$> by_type q.
Proof.
  intros Hq. unfold all_lanes, lanes_of. cbn. rewrite <-!fmap_app. f_equal. symmetry.
  apply sorted_lanes; [apply Hq|]. intros u Hu. by apply (ok_elements _ Hq).
Qed.

Lemma lanes_ids q : queue_ok q → meta_id <$> all_lanes (lanes_of q) = id <$> by_type q.
Proof. intros Hq. by rewrite all_lanes_of, <-list_fmap_compose. Qed.

Lemma find_lanes q i : queue_ok q →
  trx_meta <$> find q i = head (filter (λ x, meta_id x = i) (all_lanes (lanes_of q))).
Proof. intros Hq. unfold find. rewrite all_lanes_of, filter_fmap by done. by destruct (filter _ _). Qed.

Lemma known_lanes q i : queue_ok q → find q i = None ↔ i ∉ meta_id <$> all_lanes (lanes_of q).
Proof.
  intros Hq. rewrite lanes_ids by done. split; [apply find_None|]. intros Hi.
  destruct (find q i) as [u|] eqn:E; [|done]. exfalso. apply Hi. apply find_Some in E as [Hu <-].
  by apply list_elem_of_fmap_2.
Qed.

Lemma insert_trx_lanes q t trx : queue_ok q → t ≠ unknown →
  lanes_of (insert_trx q (make_unapplied t trx)) = enqueue t (lanes_of q) trx.
Proof.
  intros Hq Ht. unfold insert_trx, enqueue. destruct (find q (id (make_unapplied t trx))) as [u|] eqn:Ef.
  - rewrite decide_True; [done|]. destruct (decide (meta_id trx ∈ meta_id <$> all_lanes (lanes_of q))) as [H|H]; [done|].
    apply known_lanes in H; [|done]. change (find q (meta_id trx) = Some u) in Ef. congruence.
  - apply known_lanes in Ef; [|done]. rewrite decide_False by done. unfold lanes_of. cbn.
    rewrite !insert_ordered_filter by apply Hq. cbn.
    assert (∀ t' l, trx_meta <$> l ++ (if decide (t' = t) then [make_unapplied t trx] else []) =
      if decide (t' = t) then (trx_meta <$> l) ++ [trx] else trx_meta <$> l) as E.
    { intros t' l. rewrite fmap_app. destruct (decide (t' = t)); [done|]. apply app_nil_r. }
    by rewrite !E.
Qed.

Lemma erase_id_lanes q i : lanes_of (erase_id q i) = keep (λ x, meta_id x ≠ i) (lanes_of q).
Proof.
  unfold lanes_of, keep. cbn. rewrite !filter_fmap. by rewrite !(filter_comm (λ u, trx_type u = _)).
Qed.

Lemma modify_type_lanes q u : queue_ok q → u ∈ by_type q → trx_type u ≠ persisted →
  lanes_of (modify_type q u persisted) =
  MkLanes (lane_persisted (lanes_of q) ++ [trx_meta u])
    (filter (λ x, meta_id x ≠ id u) (lane_forked (lanes_of q)))
    (filter (λ x, meta_id x ≠ id u) (lane_aborted (lanes_of q))) (mode q).
Proof.
  intros Hq Hu Hp. unfold lanes_of. cbn. rewrite !insert_ordered_filter by (apply filter_sorted, Hq). cbn.
  rewrite !app_nil_r, !filter_fmap, !(filter_comm (λ x, trx_type x = _)). f_equal.
  rewrite fmap_app. f_equal. f_equal. apply filter_all. intros x [Hx Hin]%list_elem_of_filter E.
  apply Hp. by rewrite <-(same_id (by_type q) x u (ok_ids _ Hq)).
Qed.

Lemma add_persisted_lanes q trx : queue_ok q → mode q ≠ non_speculative →
  lanes_of (add_persisted q trx) = persist (lanes_of q) trx.
Proof.
  intros Hq Hm. unfold add_persisted, persist. rewrite decide_False, <-find_lanes by done.
  destruct (find q (meta_id trx)) as [u|] eqn:Ef; cbn [fmap option_fmap option_map].
  - apply find_Some in Ef as [Hu E].
    assert (meta_id trx ∈ meta_id <$> lane_persisted (lanes_of q) ↔ trx_type u = persisted) as Hiff.
    { cbn. rewrite <-list_fmap_compose, list_elem_of_fmap. split.
      - intros (v & Ev & [Hv Hin]%list_elem_of_filter). rewrite <-Hv. f_equal.
        apply (same_id (by_type q)); [apply Hq|done..|]. by rewrite E, Ev.
      - intros Hp. exists u. split; [by rewrite <-E|]. by apply list_elem_of_filter. }
    destruct (decide (trx_type u = persisted)) as [Hp|Hp].
    + by rewrite decide_True by (by apply Hiff).
    + rewrite decide_False by (by rewrite Hiff). rewrite modify_type_lanes by done. by rewrite E.
  - by apply insert_trx_lanes.
Qed.

Lemma clear_receipt_lanes q r : queue_ok q → queue_ok (clear_receipt q r) ∧
  lanes_of (clear_receipt q r) = apply_receipt (lanes_of q) r.
Proof.
  intros Hq. destruct r as [i|i]; cbn; [|done].
  assert (∀ l, (∀ u, u ∈ l → meta_id u ≠ i) → filter (λ x, meta_id x ≠ i) l = l) as Hall by (intros; by apply filter_all).
  assert (∀ t, (∀ u, u ∈ by_type q → id u = i → trx_type u ≠ t) →
    filter (λ x, meta_id x ≠ i) (trx_meta <$> filter (λ u, trx_type u = t) (by_type q)) =
    trx_meta <$> filter (λ u, trx_type u = t) (by_type q)) as Hkeep.
  { intros t Ht. apply Hall. intros x (u & -> & [Hu Hin]%list_elem_of_filter)%list_elem_of_fmap E. by apply (Ht u). }
  destruct (find q i) as [u|] eqn:Ef.
  - apply find_Some in Ef as [Hu <-].
    assert (∀ v, v ∈ by_type q → id v = id u → v = u) as Huniq by (intros; by apply (same_id (by_type q) v u (ok_ids _ Hq))).
    destruct (decide (trx_type u = persisted)) as [Hp|Hp].
    + split; [done|]. unfold lanes_of. cbn.
      rewrite !Hkeep; [done|..]; intros v Hv E; rewrite (Huniq v Hv E), Hp; done.
    + split; [by apply erase_id_ok|]. rewrite erase_id_lanes. unfold keep, lanes_of. cbn. f_equal.
      apply Hkeep. intros v Hv E. by rewrite (Huniq v Hv E).
  - split; [done|]. apply find_None in Ef. unfold lanes_of. cbn.
    assert (∀ t v, v ∈ by_type q → id v = i → trx_type v ≠ t) as Hno.
    { intros t v Hv <-. exfalso. apply Ef. by apply list_elem_of_fmap_2. }
    by rewrite !Hkeep by apply Hno.
Qed.

(** *** Expired transactions *)

Lemma erase_first q u l : queue_ok q → by_expiry q = u :: l → by_expiry (erase_id q (id u)) = l.
Proof.
  intros Hq E. cbn. rewrite E, filter_cons_False by (intros H; by apply H). apply filter_all. intros v Hv Eid.
  assert (NoDup (id <$> by_expiry q)) as Hnd by (rewrite <-(ok_perm _ Hq); apply Hq).
  rewrite E in Hnd. cbn in Hnd. apply NoDup_cons in Hnd as [Hu _]. apply Hu. rewrite <-Eid. by apply list_elem_of_fmap_2.
Qed.

Definition expired (t : Z) (x : transaction_metadata) : Prop := expiration x * 1000000 ≤ t.

(** The transactions that are removed are the first ones by expiry. *)
Lemma clear_expired_loop_spec t deadline clock l : ∀ n q q' calls finished,
  queue_ok q → by_expiry q = l → clear_expired_loop t deadline clock n l q = (q', calls, finished) →
  queue_ok q' ∧ lanes_of q' = keep (λ x, meta_id x ∉ calls.*1) (lanes_of q) ∧
  calls = take (length calls) ((λ u, (id u, trx_type u)) <$> l) ∧
  (∀ u, u ∈ l → id u ∈ calls.*1 → expiry u ≤ t) ∧
  (if finished then ∀ u, u ∈ l → expiry u ≤ t → id u ∈ calls.*1
   else deadline ≤ clock (n + length calls)%nat).
Proof.
  assert (∀ s, keep (λ x, meta_id x ∉ []) s = s) as Hkeep.
  { intros [p f a m]. unfold keep. cbn. rewrite !filter_all; [done|..]; intros x _; apply not_elem_of_nil. }
  induction l as [|u l IH]; intros n q q' calls finished Hq El H; cbn in H.
  { injection H as <- <- <-. cbn. rewrite Hkeep. split_and!; try done. by intros u ?%elem_of_nil. intros u ?%elem_of_nil. done. }
  assert (∀ v, v ∈ u :: l → expiry u ≤ expiry v) as Hmin.
  { intros v [->|Hv]%elem_of_cons; [done|]. pose proof (ok_expiries _ Hq) as Hs. rewrite El in Hs.
    apply StronglySorted_inv in Hs as [_ Hs]. rewrite Forall_forall in Hs. by apply Hs. }
  destruct (Z.leb_spec (expiry u) t) as [Hexp|Hexp].
  2:{ injection H as <- <- <-. cbn. rewrite Hkeep. split_and!; try done.
      - intros v _ []%elem_of_nil.
      - intros v Hv%Hmin Ht. lia. }
  destruct (Z.leb_spec deadline (clock n)) as [Hd|Hd].
  { injection H as <- <- <-. cbn. rewrite Hkeep, Nat.add_0_r. split_and!; try done. intros v _ []%elem_of_nil. }
  destruct (clear_expired_loop t deadline clock (S n) l (erase_id q (id u))) as [[q1 calls1] fin1] eqn:E1.
  injection H as <- <- <-.
  destruct (IH (S n) (erase_id q (id u)) q1 calls1 fin1) as (Hok & Hl & Ht & Hin & Hfin); [by apply erase_id_ok| |done|].
  { by apply erase_first. }
  split_and!; [done| | | |].
  - rewrite Hl, erase_id_lanes. unfold keep. cbn. f_equal; rewrite list_filter_filter; apply filter_ext_in; intros x _;
      rewrite not_elem_of_cons; tauto.
  - cbn. by f_equal.
  - intros v [->|Hv]%elem_of_cons Hc; [done|]. cbn in Hc. apply elem_of_cons in Hc as [E|Hc]; [|by apply Hin].
    rewrite (same_id (by_type q) v u (ok_ids _ Hq)); [done|..]; rewrite ?(ok_perm _ Hq), ?El; [by right|by left|done].
  - destruct fin1.
    + intros v [->|Hv]%elem_of_cons Hv'; cbn; [by left|right; by apply Hfin].
    + cbn. by rewrite Nat.add_succ_r.
Qed.

(** ** Refinement *)

Definition lane_step (s : lanes) (o : op) (s' : lanes) : Prop :=
  match o with
  | OpSetMode m => s' = if decide (m = lane_mode s ∨ all_lanes s = [])
                        then MkLanes (lane_persisted s) (lane_forked s) (lane_aborted s) m else s
  | OpClear => s' = MkLanes [] [] [] (lane_mode s)
  | OpClearExpired t deadline clock =>
      ∃ gone : list transaction_id, s' = keep (λ x, meta_id x ∉ gone) s ∧
        (∀ x, x ∈ all_lanes s → meta_id x ∈ gone → expired t x) ∧
        ((∀ n, clock n < deadline) → ∀ x, x ∈ all_lanes s → expired t x → meta_id x ∈ gone)
  | OpClearApplied l => s' = foldl apply_receipt s l
  | OpAddForked b =>
      s' = if decide (lane_mode s = speculative_producer) then foldl (enqueue forked) s (concat (reverse b)) else s
  | OpAddAborted l =>
      s' = if decide (lane_mode s = speculative_producer) then foldl (enqueue aborted) s l else s
  | OpAddPersisted trx => s' = if decide (lane_mode s = non_speculative) then s else persist s trx
  | OpErase i => s' = keep (λ x, meta_id x ≠ i) s
  end.

Lemma insert_all_lanes t l : t ≠ unknown → ∀ q, queue_ok q →
  let q' := foldl (λ q trx, insert_trx q (make_unapplied t trx)) q l in
  queue_ok q' ∧ lanes_of q' = foldl (enqueue t) (lanes_of q) l ∧ mode q' = mode q.
Proof.
  intros Ht. induction l as [|trx l IH]; intros q Hq; cbn; [done|].
  destruct (IH (insert_trx q (make_unapplied t trx))) as (H1 & H2 & H3); [by apply insert_trx_ok|].
  split_and!; [done| |].
  - rewrite H2. by rewrite insert_trx_lanes.
  - rewrite H3. unfold insert_trx. by destruct (find _ _).
Qed.

Lemma foldl_foldl {A B} (f : A → B → A) (ll : list (list B)) a :
  foldl (foldl f) a ll = foldl f a (concat ll).
Proof. revert a. induction ll as [|l ll IH]; intros a; cbn; [done|]. by rewrite IH, foldl_app. Qed.

Lemma clear_applied_lanes l : ∀ q, queue_ok q →
  queue_ok (foldl clear_receipt q l) ∧ lanes_of (foldl clear_receipt q l) = foldl apply_receipt (lanes_of q) l.
Proof.
  induction l as [|r l IH]; intros q Hq; cbn; [done|]. destruct (clear_receipt_lanes q r Hq) as [H1 H2].
  destruct (IH _ H1) as [H3 H4]. split; [done|]. by rewrite H4, H2.
Qed.

Lemma apply_nothing l m : foldl apply_receipt (MkLanes [] [] [] m) l = MkLanes [] [] [] m.
Proof. induction l as [|[] l IH]; cbn; done. Qed.

Lemma empty_lanes q : queue_ok q → empty q = true ↔ all_lanes (lanes_of q) = [].
Proof. intros Hq. rewrite all_lanes_of by done. unfold empty. by destruct (by_type q). Qed.

Lemma step_refines q o : queue_ok q → queue_ok (step q o) ∧ lane_step (lanes_of q) o (lanes_of (step q o)).
Proof.
  intros Hq. destruct o as [m| |t deadline clock|l|b|l|trx|i]; cbn [step lane_step].
  - unfold set_mode. change (lane_mode (lanes_of q)) with (mode q). destruct (decide (m = mode q)) as [->|Hne]; cbn [mbind result_bind].
    { rewrite decide_True by (by left). destruct q. split; [by destruct Hq|done]. }
    destruct (empty q) eqn:Ee; cbn [assert_that mbind result_bind].
    + rewrite decide_True by (right; by apply empty_lanes). split; [by destruct Hq|done].
    + rewrite decide_False; [done|]. rewrite <-empty_lanes by done. rewrite Ee. naive_solver.
  - split; [apply empty_queue_ok|done].
  - unfold clear_expired. destruct (clear_expired_loop _ _ _ _ _ _) as [[q' calls] fin] eqn:E.
    destruct (clear_expired_loop_spec t deadline clock _ 0 q q' calls fin Hq eq_refl E) as (H1 & H2 & _ & H3 & H4).
    split; [done|]. exists calls.*1. split; [done|]. rewrite all_lanes_of by done. split.
    + intros x (u & -> & Hu)%list_elem_of_fmap Hin. unfold expired. destruct (ok_elements _ Hq u Hu) as [<- _].
      apply H3; [by rewrite <-(ok_perm _ Hq)|done].
    + intros Hc x (u & -> & Hu)%list_elem_of_fmap Hexp. destruct fin; [|specialize (Hc (0 + length calls)%nat); lia].
      apply H4; [by rewrite <-(ok_perm _ Hq)|]. by destruct (ok_elements _ Hq u Hu) as [-> _].
  - unfold clear_applied. destruct (empty q) eqn:Ee; [|by apply clear_applied_lanes].
    split; [done|]. unfold lanes_of, empty in *. destruct (by_type q); [|done]. cbn. by rewrite apply_nothing.
  - unfold add_forked. change (lane_mode (lanes_of q)) with (mode q). rewrite foldl_foldl.
    destruct (insert_all_lanes forked (concat (reverse b)) ltac:(done) q Hq) as (H1 & H2 & _).
    by destruct (mode q).
  - unfold add_aborted. change (lane_mode (lanes_of q)) with (mode q).
    destruct (insert_all_lanes aborted l ltac:(done) q Hq) as (H1 & H2 & _). by destruct (mode q).
  - split.
    + unfold add_persisted. destruct (decide _); [done|]. destruct (find _ _) as [u|] eqn:Ef.
      * apply find_Some in Ef as [Hu _]. destruct (decide _); [done|]. by apply modify_type_ok.
      * by apply insert_trx_ok.
    + change (lane_mode (lanes_of q)) with (mode q). destruct (decide (mode q = non_speculative)) as [E|E].
      * unfold add_persisted. by rewrite decide_True.
      * by apply add_persisted_lanes.
  - split; [by apply erase_id_ok|apply erase_id_lanes].
Qed.

(** What a mode excludes *)
Definition mode_ok (s : lanes) : Prop :=
  (lane_mode s = non_speculative → all_lanes s = []) ∧
  (lane_mode s = speculative_non_producer → lane_forked s = [] ∧ lane_aborted s = []).

Lemma keep_mode_ok P `{∀ x, Decision (P x)} s : mode_ok s → mode_ok (keep P s).
Proof.
  unfold mode_ok, all_lanes, keep. cbn. intros [H1 H2]. rewrite <-!filter_app. split; intros E.
  - by rewrite (H1 E).
  - by destruct (H2 E) as [-> ->].
Qed.

Lemma apply_mode_ok l : ∀ s, mode_ok s → mode_ok (foldl apply_receipt s l).
Proof.
  induction l as [|r l IH]; intros s Hs; cbn; [done|]. apply IH. destruct r as [i|]; [|done].
  destruct Hs as [H1 H2]. unfold mode_ok, all_lanes in *. cbn. split; intros E.
  - apply app_eq_nil in H1 as [-> H1]; [|done]. by apply app_eq_nil in H1 as [-> ->].
  - by destruct (H2 E) as [-> ->].
Qed.

Lemma enqueue_all_mode t l : ∀ s, lane_mode (foldl (enqueue t) s l) = lane_mode s.
Proof. induction l as [|x l IH]; intros s; cbn; [done|]. rewrite IH. unfold enqueue. by destruct (decide _). Qed.

Lemma lane_step_mode_ok s o s' : mode_ok s → lane_step s o s' → mode_ok s'.
Proof.
  intros Hs. destruct o as [m| |t deadline clock|l|b|l|trx|i]; cbn.
  - destruct (decide _) as [Hd|_]; [|by intros ->]. intros ->. destruct Hd as [->|Hnil]; [by destruct s|].
    unfold mode_ok. cbn. unfold all_lanes in *. cbn. split; [done|]. intros _.
    apply app_eq_nil in Hnil as [_ Hnil]. by apply app_eq_nil in Hnil.
  - by intros ->.
  - intros (gone & -> & _). by apply keep_mode_ok.
  - intros ->. by apply apply_mode_ok.
  - destruct (decide _) as [E|_]; [|by intros ->]. intros ->.
    unfold mode_ok. by rewrite enqueue_all_mode, E.
  - destruct (decide _) as [E|_]; [|by intros ->]. intros ->.
    unfold mode_ok. by rewrite enqueue_all_mode, E.
  - destruct (decide _) as [E|Hne]; [by intros ->|]. intros ->. destruct Hs as [_ H2].
    unfold mode_ok, persist, enqueue. destruct (head _) as [old|]; destruct (decide (_ ∈ _)); cbn; try done;
      (split; [done|]); intros E; destruct (H2 E) as [-> ->]; done.
  - intros ->. by apply keep_mode_ok.
Qed.

(** C36: the queue of unapplied transactions refines three queues. After any operations,
    iterating over the queue visits the persisted, then the forked, then the aborted
    transactions, each in the order of arrival and no identifier twice; every operation
    acts on the three queues as [lane_step] says: a known transaction is not added again,
    persisting one takes it out of the other queues, applied ones leave unless persisted,
    exactly the expired ones are removed before the deadline, and modes that do not apply
    transactions speculatively keep none. *)
Theorem queue_refines_lanes ops o :
  lane_step (lanes_of (run ops)) o (lanes_of (run (ops ++ [o]))) ∧
  trx_meta <$> by_type (run ops) = all_lanes (lanes_of (run ops)) ∧
  NoDup (meta_id <$> all_lanes (lanes_of (run ops))) ∧ mode_ok (lanes_of (run ops)).
Proof.
  assert (queue_ok (run ops) ∧ mode_ok (lanes_of (run ops))) as [Hq Hm].
  { induction ops as [|o' ops IH] using rev_ind; [split; [apply empty_queue_ok|done]|].
    unfold run in *. rewrite foldl_app. cbn. destruct IH as [Hq Hm]. destruct (step_refines _ o' Hq) as [? Hs].
    split; [done|]. by eapply lane_step_mode_ok. }
  split_and!; [|by rewrite all_lanes_of|rewrite lanes_ids by done; apply Hq|done].
  unfold run. rewrite foldl_app. cbn. by apply step_refines.
Qed.

(** The queue after a persisted, an aborted and a forked transaction arrive *)
Lemma queue_refines_lanes_example :
  let trx n := MkMeta (Merkle.Digest n 0 0 0) n in
  let q := run [OpAddAborted [trx 1; trx 2]; OpAddPersisted (trx 2); OpAddForked [[trx 3]; [trx 4; trx 1]]] in
  (λ u, (expiration (trx_meta u), trx_type u)) <$> by_type q = [(2, persisted); (4, forked); (3, forked); (1, aborted)].
Proof. reflexivity. Qed.

End UnappliedQueue.
