(* ===== verification/Producer.v ===== *)
(** * Block production

    Models the decisions of [plugins/producer_plugin/producer_plugin.cpp]: the watermarks
    that keep a producer from signing two blocks at a height or time, when a producer's next
    slot is, how [start_block] chooses between producing and speculating and how many blocks
    it confirms, [produce_block], the loop that applies the unapplied transactions, and the
    queue of incoming transactions.  A call of [fc::time_point::now] is a reading of
    [clock]; timers, signals and signing are the environment, as are the answers of the
    controller that the functions read. *)

From S2P Require Import Prelude.
From S2P Require Import Exceptions.
From S2P Require Import Merkle.
From S2P Require Import Timestamp.
From S2P Require Import Authority.
From S2P Require Import BlockHeader.
From S2P Require Import BlockHeaderState.
From S2P Require Import UnappliedQueue.

Local Open Scope Z_scope.

(** ** Incoming transactions *)

Module IncomingQueue.
Section queue.
(** Transactions with their size in bytes, [calc_size] *)
Context {trx : Type} (calc_size : trx → Z).

(** [incoming_transaction_queue]; a transaction is kept with its persist flag. *)
Record incoming_transaction_queue := MkIncoming {
  max_incoming_transaction_queue_size : Z;
  size_in_bytes : Z;
  incoming_transactions : list (trx * bool) }.

Definition add_size (q : incoming_transaction_queue) (t : trx) : result exn incoming_transaction_queue :=
  let size := calc_size t in
  _ ← assert_that (u64 (size_in_bytes q + size) <? max_incoming_transaction_queue_size q) tx_resource_exhaustion;
  Ok (MkIncoming (max_incoming_transaction_queue_size q) (u64 (size_in_bytes q + size)) (incoming_transactions q)).

Definition add (q : incoming_transaction_queue) (t : trx) (persist_until_expired : bool) :
    result exn incoming_transaction_queue :=
  q ← add_size q t;
  Ok (MkIncoming (max_incoming_transaction_queue_size q) (size_in_bytes q)
        (incoming_transactions q ++ [(t, persist_until_expired)])).

Definition add_front (q : incoming_transaction_queue) (t : trx) (persist_until_expired : bool) :
    result exn incoming_transaction_queue :=
  q ← add_size q t;
  Ok (MkIncoming (max_incoming_transaction_queue_size q) (size_in_bytes q)
        ((t, persist_until_expired) :: incoming_transactions q)).

Definition pop_front (q : incoming_transaction_queue) :
    result exn (incoming_transaction_queue * (trx * bool)) :=
  match incoming_transactions q with
  | [] => Throw producer_exception
  | e :: l => Ok (MkIncoming (max_incoming_transaction_queue_size q)
                    (u64 (size_in_bytes q - calc_size e.1)) l, e)
  end.

(** The sizes of the transactions *)
Fixpoint total (l : list (trx * bool)) : Z :=
  match l with [] => 0 | e :: l => calc_size e.1 + total l end.

(** The count is exact and below the maximum. *)
Definition incoming_ok (q : incoming_transaction_queue) : Prop :=
  size_in_bytes q = total (incoming_transactions q) ∧
  (incoming_transactions q = [] ∨ size_in_bytes q < max_incoming_transaction_queue_size q).

Inductive incoming_op := Add (t : trx) (persist : bool) | AddFront (t : trx) (persist : bool) | PopFront.

Definition incoming_step (q : incoming_transaction_queue) (o : incoming_op) :
    result exn incoming_transaction_queue :=
  match o with
  | Add t p => add q t p
  | AddFront t p => add_front q t p
  | PopFront => r ← pop_front q; Ok r.1
  end.

Lemma incoming_total_app l1 l2 : total (l1 ++ l2) = total l1 + total l2.
Proof. induction l1 as [|e l1 IH]; cbn; [done|]. rewrite IH. lia. Qed.

Lemma total_nonneg l : (∀ t, 0 ≤ calc_size t) → 0 ≤ total l.
Proof. intros H. induction l as [|e l IH]; cbn; [done|]. specialize (H e.1). lia. Qed.

(** The sum of sizes never wraps around as long as one size more than the maximum fits. *)
Lemma incoming_step_ok q o q' : (∀ t, 0 ≤ calc_size t < 2 ^ 63) →
  0 ≤ max_incoming_transaction_queue_size q ≤ 2 ^ 63 →
  incoming_ok q → incoming_step q o = Ok q' →
  incoming_ok q' ∧ max_incoming_transaction_queue_size q' = max_incoming_transaction_queue_size q.
Proof.
  intros Hs Hmax [Hsum Hlt] H.
  assert (0 ≤ size_in_bytes q < 2 ^ 63 ∨ size_in_bytes q = 0) as Hrange.
  { rewrite Hsum in *. pose proof (total_nonneg (incoming_transactions q) (λ t, proj1 (Hs t))) as Hn.
    destruct Hlt as [->|Hlt]; [right; done|left; lia]. }
  destruct o as [t p|t p|]; cbn in H.
  1,2: apply bind_Ok in H as (q1 & (u & Hlt1%assert_that_Ok%Z.ltb_lt & [= <-])%bind_Ok & [= <-]);
    rewrite u64_id in * by (specialize (Hs t); lia); unfold incoming_ok; cbn;
    rewrite ?incoming_total_app; cbn; split_and!; [lia|right; lia|done].
  apply bind_Ok in H as ([q1 e] & Hp & [= <-]). unfold pop_front in Hp.
  destruct (incoming_transactions q) as [|e' l] eqn:E; [done|]. injection Hp as <- ->. cbn in *.
  pose proof (total_nonneg l (λ t, proj1 (Hs t))). pose proof (Hs e.1).
  unfold incoming_ok. cbn. rewrite u64_id by lia. destruct Hlt as [?|?]; [done|]. split_and!; [lia|right; lia|done].
Qed.
End queue.
End IncomingQueue.

(** ** The decisions of the plugin *)

Module Producer.
Import ProducerSchedule BlockHeader BlockHeaderState.

Inductive pending_block_mode := producing | speculating.

#[global] Instance pending_block_mode_eq_dec : EqDecision pending_block_mode.
Proof. solve_decision. Defined.

Definition block_interval_us : Z := Timestamp.block_interval_ms * 1000.

Section plugin.
Context {key signature : Type} `{PublicKey key}.

Notation bhs := (block_header_state key signature).

(** The fields of [producer_plugin_impl] that the decisions read.  A watermark is a block
    number and a slot; of the signature providers only their keys matter. *)
Record plugin := MkPlugin {
  production_enabled : bool;
  pause_production : bool;
  signature_providers : key → bool;
  plugin_producers : gset Z;
  producer_watermarks : gmap Z (Z * Z);
  pending_mode : pending_block_mode;
  produce_time_offset_us : Z;
  last_block_time_offset_us : Z;
  max_irreversible_block_age_us : Z;
  irreversible_block_time : Z;
  protocol_features_to_activate : list digest;
  protocol_features_signaled : bool }.

Definition set_watermarks (p : plugin) (w : gmap Z (Z * Z)) : plugin :=
  MkPlugin (production_enabled p) (pause_production p) (signature_providers p) (plugin_producers p) w
    (pending_mode p) (produce_time_offset_us p) (last_block_time_offset_us p)
    (max_irreversible_block_age_us p) (irreversible_block_time p) (protocol_features_to_activate p)
    (protocol_features_signaled p).
Definition set_pending_mode (p : plugin) (m : pending_block_mode) : plugin :=
  MkPlugin (production_enabled p) (pause_production p) (signature_providers p) (plugin_producers p)
    (producer_watermarks p) m (produce_time_offset_us p) (last_block_time_offset_us p)
    (max_irreversible_block_age_us p) (irreversible_block_time p) (protocol_features_to_activate p)
    (protocol_features_signaled p).
Definition set_irreversible_block_time (p : plugin) (t : Z) : plugin :=
  MkPlugin (production_enabled p) (pause_production p) (signature_providers p) (plugin_producers p)
    (producer_watermarks p) (pending_mode p) (produce_time_offset_us p) (last_block_time_offset_us p)
    (max_irreversible_block_age_us p) t (protocol_features_to_activate p) (protocol_features_signaled p).
Definition set_features (p : plugin) (l : list digest) (signaled : bool) : plugin :=
  MkPlugin (production_enabled p) (pause_production p) (signature_providers p) (plugin_producers p)
    (producer_watermarks p) (pending_mode p) (produce_time_offset_us p) (last_block_time_offset_us p)
    (max_irreversible_block_age_us p) (irreversible_block_time p) l signaled.

(** What the plugin reads of the controller: the slot of the last irreversible block when
    it is found, the features that contracts have preactivated, and the validation of
    features *)
Record chain_view := MkView {
  in_immutable_mode : bool;
  head_state : bhs;
  is_building_block : bool;
  lib_slot : option Z;
  preactivated_features : list digest;
  features_valid : list digest → bool }.

Definition head_num (v : chain_view) : Z := block_num (common (head_state v)).
Definition head_block_time (v : chain_view) : Z :=
  Timestamp.to_time_point (timestamp (header (bhs_header (head_state v)))).

(** *** Watermarks *)

Definition consider_new_watermark (p : plugin) (producer block_num slot : Z) : plugin :=
  match producer_watermarks p !! producer with
  | Some w => set_watermarks p (<[producer := (Z.max w.1 block_num, Z.max w.2 slot)]> (producer_watermarks p))
  | None =>
      if decide (producer ∈ plugin_producers p)
      then set_watermarks p (<[producer := (block_num, slot)]> (producer_watermarks p)) else p
  end.

Definition get_watermark (p : plugin) (producer : Z) : option (Z * Z) := producer_watermarks p !! producer.

(** *** Times *)

Definition get_irreversible_block_age (p : plugin) (now : Z) : Z :=
  if now <? irreversible_block_time p then 0 else s64 (now - irreversible_block_time p).

Definition too_old (p : plugin) (now : Z) : bool :=
  (0 <=? max_irreversible_block_age_us p) &&
  (max_irreversible_block_age_us p <=? get_irreversible_block_age p now).

Definition production_disabled_by_policy (p : plugin) (now : Z) : bool :=
  negb (production_enabled p) || pause_production p || too_old p now.

(** The first producer with the name, [std::find_if] *)
Fixpoint find_producer (l : list (producer_authority key)) (name i : Z) : option Z :=
  match l with
  | [] => None
  | a :: l => if producer_name a =? name then Some i else find_producer l name (i + 1)
  end.

Definition minimum_offset (p : plugin) (v : chain_view) (producer current_slot : Z) : Z :=
  match get_watermark p producer with
  | None => 1
  | Some w =>
      let block_num := if is_building_block v then u32 (head_num v + 1) else head_num v in
      let offset := if block_num <? w.1 then u32 (u32 (w.1 - block_num) + 1) else 1 in
      if current_slot <? w.2 then Z.max offset (u32 (u32 (w.2 - current_slot) + 1)) else offset
  end.

Definition calculate_next_block_time (p : plugin) (v : chain_view) (producer current_slot : Z) : option Z :=
  let active_schedule := producers (active_schedule (common (head_state v))) in
  match find_producer active_schedule producer 0 with
  | None => None
  | Some producer_index =>
      let minimum_slot := u32 (current_slot + minimum_offset p v producer current_slot) in
      let size := Z.of_nat (length active_schedule) in
      let minimum_slot_producer_index := minimum_slot mod (size * producer_repetitions) / producer_repetitions in
      if producer_index =? minimum_slot_producer_index
      then Some (Timestamp.to_time_point minimum_slot)
      else
        let producer_distance := u64 (producer_index - minimum_slot_producer_index) in
        let producer_distance := if producer_index <? producer_distance
                                 then u64 (producer_distance + size) else producer_distance in
        let first_minimum_producer_slot := u32 (minimum_slot - minimum_slot mod producer_repetitions) in
        let next_block_slot := u32 (first_minimum_producer_slot + producer_distance * producer_repetitions) in
        Some (Timestamp.to_time_point next_block_slot)
  end.

Definition calculate_pending_block_time (v : chain_view) (now : Z) : Z :=
  let base := Z.max now (head_block_time v) in
  let min_time_to_next_block := block_interval_us - Z.rem base block_interval_us in
  s64 (base + min_time_to_next_block).

Definition calculate_block_deadline (p : plugin) (block_time : Z) : Z :=
  let last_block := Timestamp.set_time_point block_time mod producer_repetitions =? producer_repetitions - 1 in
  s64 (block_time + (if last_block then last_block_time_offset_us p else produce_time_offset_us p)).

(** The earliest wake-up of the producers of the node *)
Definition calculate_producer_wake_up_time (p : plugin) (v : chain_view) (ref_slot : Z) : option Z :=
  foldl (λ wake_up producer,
    match calculate_next_block_time p v producer ref_slot with
    | None => wake_up
    | Some t =>
        let producer_wake_up_time := s64 (t - block_interval_us) in
        match wake_up with
        | Some w => if producer_wake_up_time <? w then Some producer_wake_up_time else wake_up
        | None => Some producer_wake_up_time
        end
    end) None (elements (plugin_producers p)).

(** *** Starting a block *)

Inductive start_decision :=
  | waiting_for_block
  | waiting_for_production (wake_up : option Z)
  | starting (block_time blocks_to_confirm : Z) (features : list digest).

(** The keys of the authority that the node can sign with *)
Definition num_relevant_signatures (p : plugin) (a : producer_authority key) : nat :=
  length (filter (λ k, signature_providers p (Authority.kw_key k) = true) (bsa_keys (authority a))).

(** The mode from the policy of the node, where the time of the last irreversible block is
    looked up again before production stops *)
Definition policy_mode (p : plugin) (v : chain_view) (scheduled : producer_authority key) (clock : nat → Z) :
    plugin * pending_block_mode :=
  if negb (production_enabled p) then (p, speculating)
  else if negb (bool_decide (producer_name scheduled ∈ plugin_producers p)) then (p, speculating)
  else if (num_relevant_signatures p scheduled =? 0)%nat then (p, speculating)
  else if pause_production p then (p, speculating)
  else if too_old p (clock 2%nat) then
    let p := match lib_slot v with
             | Some s => set_irreversible_block_time p (Timestamp.to_time_point s)
             | None => p
             end in
    if too_old p (clock 3%nat) then (p, speculating) else (p, producing)
  else (p, producing).

(** The watermark excludes a block that is not above it in number and time. *)
Definition watermark_mode (v : chain_view) (watermark : option (Z * Z)) (block_slot : Z)
    (m : pending_block_mode) : pending_block_mode :=
  match m, watermark with
  | producing, Some w =>
      if head_num v <? w.1 then speculating
      else if block_slot <=? w.2 then speculating
      else producing
  | _, _ => m
  end.

Definition blocks_to_confirm (v : chain_view) (watermark : option (Z * Z)) (m : pending_block_mode) : Z :=
  match m with
  | speculating => 0
  | producing =>
      let c := match watermark with
               | Some w => if w.1 <? head_num v then u16 (Z.min (2 ^ 16 - 1) (u32 (head_num v - w.1))) else 0
               | None => 0
               end in
      u16 (Z.min c (u32 (head_num v - dpos_irreversible_blocknum (common (head_state v)))))
  end.

(** Features to signal, with those that contracts preactivated after them *)
Definition merge_features (to_activate preactivated : list digest) : list digest :=
  foldl (λ l f, if decide (f ∈ l) then l else l ++ [f]) to_activate preactivated.

Definition choose_features (p : plugin) (v : chain_view) (m : pending_block_mode) : plugin * list digest :=
  let to_activate := protocol_features_to_activate p in
  if decide (m = producing ∧ to_activate ≠ []) then
    if features_valid v to_activate
    then (set_features p to_activate true, merge_features to_activate (preactivated_features v))
    else (set_features p [] (protocol_features_signaled p), preactivated_features v)
  else (p, preactivated_features v).

(** [start_block] up to the call of the controller; [None] is the schedule without
    producers, for which [get_scheduled_producer] is undefined. *)
Definition start_block (p : plugin) (v : chain_view) (clock : nat → Z) : option (plugin * start_decision) :=
  if in_immutable_mode v then Some (p, waiting_for_block) else
  let now := clock 0%nat in
  let block_time := calculate_pending_block_time v (clock 1%nat) in
  let previous_pending_mode := pending_mode p in
  scheduled ← get_scheduled_producer (common (head_state v)) (Timestamp.set_time_point block_time);
  let watermark := get_watermark p (producer_name scheduled) in
  let '(p, m) := policy_mode p v scheduled clock in
  let m := watermark_mode v watermark (Timestamp.set_time_point block_time) m in
  let p := set_pending_mode p m in
  let start_block_time := s64 (block_time - block_interval_us) in
  if bool_decide (m = speculating) && (5 * 1000000 <? s64 (now - head_block_time v))
  then Some (p, waiting_for_block)
  else if bool_decide (m = producing) && (now <? start_block_time)
  then Some (p, waiting_for_production
                  (calculate_producer_wake_up_time p v (Timestamp.set_time_point start_block_time)))
  else if bool_decide (m = speculating) && bool_decide (previous_pending_mode = producing)
  then Some (p, waiting_for_production (Some start_block_time))
  else
    let '(p, features) := choose_features p v m in
    Some (p, starting block_time (blocks_to_confirm v watermark m) features).

(** *** Producing a block *)

(** [produce_block] up to the signing: the features that were signaled are done. *)
Definition produce_block (p : plugin) (v : chain_view) (pending_block_signing_authority : block_signing_authority_v0 key) :
    result exn plugin :=
  _ ← assert_that (bool_decide (pending_mode p = producing)) producer_exception;
  _ ← assert_that (is_building_block v) missing_pending_block_state;
  _ ← assert_that (negb (length (filter (λ k, signature_providers p (Authority.kw_key k) = true)
                           (bsa_keys pending_block_signing_authority)) =? 0)%nat) producer_priv_key_not_found;
  Ok (if protocol_features_signaled p then set_features p [] false else p).

(** ** Applying the unapplied transactions *)

(** What [push_transaction] does: the transaction is applied, its trace has an exception,
    or it throws one, which is logged and dropped *)
Inductive push_outcome := Applied | Failed (e : exn) | Thrown (e : exn).

Definition failure_is_subjective (e : exn) (deadline_is_subjective : bool) : bool :=
  bool_decide (code e = code block_cpu_usage_exceeded) || bool_decide (code e = code block_net_usage_exceeded) ||
  (bool_decide (code e = code deadline_exception) && deadline_is_subjective).

(** The deadline of a transaction, and whether it is that of the block *)
Definition trx_deadline (m : pending_block_mode) (max_transaction_time_ms deadline now : Z) : Z * bool :=
  let d := s64 (now + max_transaction_time_ms * 1000) in
  if (max_transaction_time_ms <? 0) || (bool_decide (m = producing) && (deadline <? d))
  then (deadline, true) else (d, false).

(** The loop of [process_unapplied_trxs] over the transactions from [itr] on: [clock n] and
    [push n] are the [n]th reading of the time and the [n]th push, which gets the deadline.
    The result says whether the deadline or the block is exhausted. *)
Fixpoint process_unapplied_loop (m : pending_block_mode) (max_transaction_time_ms deadline : Z)
    (clock : nat → Z) (push : nat → UnappliedQueue.transaction_metadata → Z → push_outcome) (n : nat)
    (l : list UnappliedQueue.unapplied_transaction) (q : UnappliedQueue.queue) : UnappliedQueue.queue * bool :=
  match l with
  | [] => (q, false)
  | u :: l =>
      if deadline <=? clock (2 * n)%nat then (q, true) else
      let '(d, deadline_is_subjective) := trx_deadline m max_transaction_time_ms deadline (clock (2 * n + 1)%nat) in
      match push n (UnappliedQueue.trx_meta u) d with
      | Failed e =>
          if failure_is_subjective e deadline_is_subjective then (q, true)
          else process_unapplied_loop m max_transaction_time_ms deadline clock push (S n) l
                 (UnappliedQueue.erase_id q (UnappliedQueue.id u))
      | Applied =>
          process_unapplied_loop m max_transaction_time_ms deadline clock push (S n) l
            (UnappliedQueue.erase_id q (UnappliedQueue.id u))
      | Thrown _ => process_unapplied_loop m max_transaction_time_ms deadline clock push (S n) l q
      end
  end.

(** A node that produces applies all transactions, others the persisted ones. *)
Definition process_unapplied_trxs (m : pending_block_mode) (max_transaction_time_ms deadline : Z)
    (clock : nat → Z) (push : nat → UnappliedQueue.transaction_metadata → Z → push_outcome)
    (q : UnappliedQueue.queue) : UnappliedQueue.queue * bool :=
  let range := match m with
               | producing => UnappliedQueue.by_type q
               | speculating => UnappliedQueue.persisted_range q
               end in
  let '(q, exhausted) := process_unapplied_loop m max_transaction_time_ms deadline clock push 0 range q in
  (q, negb exhausted).

(** ** The production loop *)

(** The plugin with what the controller builds: the pending block (its producer, number and
    slot), whether the timer that produces it is set, and the blocks the node has signed
    and committed, the last one first *)
Record node := MkNode {
  node_plugin : plugin;
  pending_block : option (Z * Z * Z);
  armed : bool;
  signed : list (Z * Z * Z) }.

(** [schedule_production_loop], which cancels the timer and starts a block.  [authority_ok]
    is the comparison of the signing authority, [built] whether the controller started
    the block. *)
Definition schedule_production_loop (s : node) (v : chain_view) (clock : nat → Z)
    (built authority_ok : bool) : option node :=
  '(p, d) ← start_block (node_plugin s) v clock;
  match d with
  | waiting_for_block | waiting_for_production _ => Some (MkNode p (pending_block s) false (signed s))
  | starting block_time _ _ =>
      let slot := Timestamp.set_time_point block_time in
      if built then
        scheduled ← get_scheduled_producer (common (head_state v)) slot;
        let p := if bool_decide (pending_mode p = producing) && negb authority_ok
                 then set_pending_mode p speculating else p in
        Some (MkNode p (Some (producer_name scheduled, u32 (head_num v + 1), slot))
                (bool_decide (pending_mode p = producing)) (signed s))
      else Some (MkNode p None false (signed s))
  end.

(** A header that the controller accepts; while the node produces, incoming blocks are
    dropped. *)
Definition on_block_header (s : node) (producer block_num slot : Z) : node :=
  match pending_mode (node_plugin s) with
  | producing => s
  | speculating => MkNode (consider_new_watermark (node_plugin s) producer block_num slot) None false (signed s)
  end.

(** [maybe_produce_block] when the timer fires: the block is committed and its header is
    announced to the plugin itself, or the block is aborted. *)
Definition maybe_produce_block (s : node) (v : chain_view) (auth : block_signing_authority_v0 key)
    (committed : bool) : node :=
  if armed s then
    match produce_block (node_plugin s) v auth, pending_block s with
    | Ok p, Some (producer, num, slot) =>
        if committed
        then MkNode (consider_new_watermark p producer num slot) None false ((producer, num, slot) :: signed s)
        else MkNode p None false (signed s)
    | Ok p, None => MkNode p None false (signed s)
    | Throw _, _ => MkNode (node_plugin s) None false (signed s)
    end
  else s.

(** [pause], [resume] and the options that can be changed *)
Definition set_policy (p : plugin) (enabled paused : bool) (max_age : Z) : plugin :=
  MkPlugin enabled paused (signature_providers p) (plugin_producers p) (producer_watermarks p) (pending_mode p)
    (produce_time_offset_us p) (last_block_time_offset_us p) max_age (irreversible_block_time p)
    (protocol_features_to_activate p) (protocol_features_signaled p).

Inductive node_step : node → node → Prop :=
  | step_schedule s v clock built ok s' : 0 ≤ head_num v < 2 ^ 32 - 1 →
      schedule_production_loop s v clock built ok = Some s' → node_step s s'
  | step_header s producer num slot : node_step s (on_block_header s producer num slot)
  | step_produce s v auth committed : node_step s (maybe_produce_block s v auth committed)
  | step_policy s enabled paused max_age :
      node_step s (MkNode (set_policy (node_plugin s) enabled paused max_age) (pending_block s) (armed s) (signed s))
  | step_irreversible s t :
      node_step s (MkNode (set_irreversible_block_time (node_plugin s) t) (pending_block s) (armed s) (signed s))
  | step_features s l :
      node_step s (MkNode (set_features (node_plugin s) l false) (pending_block s) (armed s) (signed s)).

(** ** Watermarks exclude double production *)

(** A block is above all blocks of its producer in a list. *)
Definition above (b : Z * Z * Z) (l : list (Z * Z * Z)) : Prop :=
  ∀ b', b' ∈ l → b'.1.1 = b.1.1 → b'.1.2 < b.1.2 ∧ b'.2 < b.2.

Record node_ok (s : node) : Prop := {
  no_signed b : b ∈ signed s → ∃ w, get_watermark (node_plugin s) b.1.1 = Some w ∧ b.1.2 ≤ w.1 ∧ b.2 ≤ w.2;
  no_armed : armed s = true → pending_mode (node_plugin s) = producing ∧ ∃ b, pending_block s = Some b ∧
    b.1.1 ∈ plugin_producers (node_plugin s) ∧
    ∀ w, get_watermark (node_plugin s) b.1.1 = Some w → w.1 < b.1.2 ∧ w.2 < b.2;
  no_order : ∀ i b, signed s !! i = Some b → above b (drop (S i) (signed s)) }.

Lemma consider_watermark p producer n slot producer' : get_watermark (consider_new_watermark p producer n slot) producer' =
  if decide (producer' = producer) then
    match get_watermark p producer with
    | Some w => Some (Z.max w.1 n, Z.max w.2 slot)
    | None => if decide (producer ∈ plugin_producers p) then Some (n, slot) else None
    end
  else get_watermark p producer'.
Proof.
  unfold get_watermark, consider_new_watermark. destruct (decide (producer' = producer)) as [->|Hne].
  - destruct (producer_watermarks p !! producer) as [w|] eqn:E; cbn; [by rewrite lookup_insert_eq|].
    destruct (decide _); cbn; [by rewrite lookup_insert_eq|done].
  - destruct (producer_watermarks p !! producer) as [w|]; cbn; [by rewrite lookup_insert_ne|].
    destruct (decide _); cbn; [by rewrite lookup_insert_ne|done].
Qed.

(** Watermarks only rise. *)
Lemma consider_watermark_rises p producer n slot producer' w : get_watermark p producer' = Some w →
  ∃ w', get_watermark (consider_new_watermark p producer n slot) producer' = Some w' ∧ w.1 ≤ w'.1 ∧ w.2 ≤ w'.2.
Proof.
  intros Hw. rewrite consider_watermark. destruct (decide (producer' = producer)) as [->|Hne]; [|by exists w].
  rewrite Hw. eexists. split; [done|]. cbn. lia.
Qed.

Lemma choose_features_same p v m : let p' := (choose_features p v m).1 in
  producer_watermarks p' = producer_watermarks p ∧ pending_mode p' = pending_mode p ∧
  plugin_producers p' = plugin_producers p.
Proof. cbv zeta. unfold choose_features. destruct (decide _); [|done]. by destruct (features_valid _ _). Qed.

Lemma policy_mode_spec p v a clock : let '(p', m) := policy_mode p v a clock in
  producer_watermarks p' = producer_watermarks p ∧ plugin_producers p' = plugin_producers p ∧
  (m = producing → producer_name a ∈ plugin_producers p).
Proof.
  unfold policy_mode. destruct (production_enabled p); cbn; [|done].
  case_bool_decide as Hin; cbn; [|done]. destruct (_ =? 0)%nat; [done|]. destruct (pause_production p); [done|].
  destruct (too_old p _); [|done]. by destruct (lib_slot v); destruct (too_old _ _).
Qed.

Lemma watermark_mode_spec v w slot m : watermark_mode v w slot m = producing →
  m = producing ∧ ∀ w', w = Some w' → w'.1 ≤ head_num v ∧ w'.2 < slot.
Proof.
  unfold watermark_mode. destruct m; [|done]. destruct w as [w|]; [|done].
  destruct (Z.ltb_spec (head_num v) w.1); [done|]. destruct (Z.leb_spec slot w.2); [done|]. naive_solver.
Qed.

(** What a decision to produce rests on *)
Lemma start_block_spec p v clock p' d : start_block p v clock = Some (p', d) →
  producer_watermarks p' = producer_watermarks p ∧ plugin_producers p' = plugin_producers p ∧
  match d with
  | starting block_time k _ => ∃ a,
      get_scheduled_producer (common (head_state v)) (Timestamp.set_time_point block_time) = Some a ∧
      k = blocks_to_confirm v (get_watermark p (producer_name a)) (pending_mode p') ∧
      block_time = calculate_pending_block_time v (clock 1%nat) ∧
      (pending_mode p' = producing → producer_name a ∈ plugin_producers p ∧
        ∀ w, get_watermark p (producer_name a) = Some w →
          w.1 ≤ head_num v ∧ w.2 < Timestamp.set_time_point block_time)
  | _ => True
  end.
Proof.
  unfold start_block. destruct (in_immutable_mode v); [by intros [= <- <-]|].
  intros (a & Ha & Hs)%bind_Some. pose proof (policy_mode_spec p v a clock) as Hp.
  destruct (policy_mode p v a clock) as [p1 m]. destruct Hp as (E1 & E2 & Hin).
  set (m' := watermark_mode v _ _ m) in Hs.
  pose proof (watermark_mode_spec v (get_watermark p (producer_name a))
    (Timestamp.set_time_point (calculate_pending_block_time v (clock 1%nat))) m) as Hw.
  fold m' in Hw. repeat (destruct (bool_decide _ && _); [by injection Hs as <- <-|]).
  destruct (choose_features _ v m') as [p2 f] eqn:Ef. injection Hs as <- <-.
  pose proof (choose_features_same (set_pending_mode p1 m') v m') as (E3 & E4 & E5). rewrite Ef in E3, E4, E5. cbn in *.
  rewrite E3, E5. split_and!; [done..|]. exists a. rewrite E4. split_and!; [done..|].
  intros Em. destruct (Hw Em) as [Em' Hw']. split; [by apply Hin|done].
Qed.

#[local] Arguments get_watermark : simpl never.

Lemma node_ok_watermarks s p b a : node_ok s → producer_watermarks p = producer_watermarks (node_plugin s) →
  (a = true → pending_mode p = producing ∧ ∃ b', b = Some b' ∧ b'.1.1 ∈ plugin_producers p ∧
     ∀ w, get_watermark p b'.1.1 = Some w → w.1 < b'.1.2 ∧ w.2 < b'.2) →
  node_ok (MkNode p b a (signed s)).
Proof.
  intros [H1 _ H3] E Ha. split; cbn; [|done|done]. intros x Hx. unfold get_watermark. rewrite E. by apply H1.
Qed.

Lemma schedule_ok s v clock built ok s' : 0 ≤ head_num v < 2 ^ 32 - 1 → node_ok s →
  schedule_production_loop s v clock built ok = Some s' → node_ok s'.
Proof.
  intros Hn Hs ([p d] & Hstart & Hd)%bind_Some. apply start_block_spec in Hstart as (E1 & E2 & Hspec).
  destruct d as [|w|t k f]; cbn in Hd.
  1,2: injection Hd as <-; by apply node_ok_watermarks.
  destruct built; [|injection Hd as <-; by apply node_ok_watermarks].
  destruct Hspec as (a & Ha & _ & _ & Hprod). rewrite Ha in Hd. cbn in Hd. injection Hd as <-.
  destruct (bool_decide (pending_mode p = producing) && negb ok) eqn:Eb.
  { apply node_ok_watermarks; [done|done|]. by rewrite bool_decide_eq_true. }
  apply node_ok_watermarks; [done|done|]. rewrite bool_decide_eq_true. intros Em. split; [done|].
  eexists. split; [done|]. cbn. destruct (Hprod Em) as [Hin Hw]. rewrite E2. split; [done|].
  intros w Hw'. unfold get_watermark in *. cbn in Hw'. rewrite E1 in Hw'. destruct (Hw w Hw'). rewrite u32_id by lia. lia.
Qed.

Lemma header_ok s producer num slot : node_ok s → node_ok (on_block_header s producer num slot).
Proof.
  intros Hs. unfold on_block_header. destruct (pending_mode _); [done|]. destruct Hs as [H1 _ H3].
  split; cbn; [|done|done]. intros b Hb. destruct (H1 b Hb) as (w & Hw & ? & ?).
  destruct (consider_watermark_rises _ producer num slot _ _ Hw) as (w' & ? & ? & ?). exists w'. split; [done|lia].
Qed.

Lemma produce_ok s v auth committed : node_ok s → node_ok (maybe_produce_block s v auth committed).
Proof.
  intros Hs. unfold maybe_produce_block. destruct (armed s) eqn:Ea; [|done].
  destruct (no_armed s Hs Ea) as (_ & [[pr n] sl] & -> & Hin & Hw). cbn in *.
  destruct (produce_block _ _ _) as [p|e] eqn:Ep; [|by apply node_ok_watermarks].
  unfold produce_block in Ep. inv_ok. set (p := if protocol_features_signaled _ then _ else _).
  assert (producer_watermarks p = producer_watermarks (node_plugin s) ∧ plugin_producers p = plugin_producers (node_plugin s))
    as [E1 E2] by (unfold p; by destruct (protocol_features_signaled _)).
  destruct committed; [|by apply node_ok_watermarks].
  assert (∀ x, get_watermark p x = get_watermark (node_plugin s) x) as Ew by (intros; unfold get_watermark; by rewrite E1).
  assert (above (pr, n, sl) (signed s)) as Habove.
  { intros b Hb E. destruct (no_signed s Hs b Hb) as (w & Hbw & ? & ?). cbn in E. rewrite E in Hbw.
    destruct (Hw w Hbw). cbn. lia. }
  split; cbn; [|done|].
  - intros b [->|Hb]%elem_of_cons; cbn.
    + rewrite consider_watermark, decide_True, Ew by done. destruct (get_watermark _ pr) as [w|].
      * eexists. split; [done|]. cbn. lia.
      * rewrite decide_True by (by rewrite E2). eexists. split; [done|]. cbn. lia.
    + destruct (no_signed s Hs b Hb) as (w & Hbw & ? & ?). rewrite <-Ew in Hbw.
      destruct (consider_watermark_rises _ pr n sl _ _ Hbw) as (w' & ? & ? & ?). exists w'. split; [done|lia].
  - intros [|i] b; cbn; [intros [= <-]; by rewrite drop_0|]. apply (no_order s Hs).
Qed.

Lemma node_step_ok s s' : node_ok s → node_step s s' → node_ok s'.
Proof.
  intros Hs Hstep. revert Hs.
  destruct Hstep as [s v clock built ok s' Hn He|s pr n sl|s v auth com|s en pa ag|s t|s l]; intros Hs.
  - by eapply schedule_ok.
  - by apply header_ok.
  - by apply produce_ok.
  - apply node_ok_watermarks; [done..|]. apply (no_armed _ Hs).
  - apply node_ok_watermarks; [done..|]. apply (no_armed _ Hs).
  - apply node_ok_watermarks; [done..|]. apply (no_armed _ Hs).
Qed.

(** C10: a node never produces twice. Whatever blocks arrive, however the chain switches
    and its head moves between attempts, and however production is paused, resumed or
    rescheduled, of two blocks that a node signs and commits for the same producer the
    later one has a higher number and a later slot. *)
Theorem no_double_production s s' i j b b' : armed s = false → signed s = [] → rtc node_step s s' →
  signed s' !! i = Some b → signed s' !! j = Some b' → (i < j)%nat → b.1.1 = b'.1.1 →
  b'.1.2 < b.1.2 ∧ b'.2 < b.2.
Proof.
  intros Ha Hs Hrtc Hi Hj Hij E.
  assert (node_ok s') as Hok.
  { assert (node_ok s) as H0 by (split; rewrite ?Ha, ?Hs; [by intros ? ?%elem_of_nil|done|done]).
    clear -H0 Hrtc. induction Hrtc as [|x y z Hxy _ IH]; [done|]. apply IH. by eapply node_step_ok. }
  apply (no_order s' Hok i b Hi); [|done].
  apply (list_elem_of_lookup_2 _ (j - S i)). rewrite lookup_drop. by replace (S i + (j - S i))%nat with j by lia.
Qed.

(** *** Confirmations *)

(** A block that the node produces confirms no block at or below the watermark of its
    producer and none that is irreversible, so the check against double confirmation
    accepts it: the number of confirmed blocks reaches back to the last block the producer
    signed and not further. *)
Theorem confirmations_not_double p v clock p' block_time k features a :
  start_block p v clock = Some (p', starting block_time k features) → pending_mode p' = producing →
  get_scheduled_producer (common (head_state v)) (Timestamp.set_time_point block_time) = Some a →
  0 ≤ dpos_irreversible_blocknum (common (head_state v)) ≤ head_num v → head_num v < 2 ^ 32 - 1 →
  (∀ w, get_watermark p (producer_name a) = Some w → 0 ≤ w.1) →
  (∀ last, producer_to_last_produced (common (head_state v)) !! producer_name a = Some last →
     last ≤ head_num v ∧ ∀ w, get_watermark p (producer_name a) = Some w → last ≤ w.1) →
  0 ≤ k ≤ head_num v - dpos_irreversible_blocknum (common (head_state v)) ∧
  (∀ w, get_watermark p (producer_name a) = Some w → w.1 < head_num v + 1 - k) ∧
  check_double_confirm (common (head_state v)) (producer_name a) k = Ok tt.
Proof.
  intros Hs Hm Ha Hlib Hmax Hw0 Hlast. apply start_block_spec in Hs as (_ & _ & a' & Ha' & -> & _ & Hp).
  rewrite Ha in Ha'. injection Ha' as <-. destruct (Hp Hm) as [_ Hw]. unfold blocks_to_confirm. rewrite Hm.
  set (lib := dpos_irreversible_blocknum (common (head_state v))) in *. clearbody lib.
  unfold check_double_confirm. fold (head_num v). unfold head_num in *.
  set (h := block_num (common (head_state v))) in *. clearbody h.
  destruct (get_watermark p (producer_name a)) as [w|] eqn:Ew.
  - specialize (Hw w eq_refl) as [Hwh _]. specialize (Hw0 w eq_refl).
    assert (∃ k, (if w.1 <? h then u16 (Z.min (2 ^ 16 - 1) (u32 (h - w.1))) else 0) = k ∧ 0 ≤ k ≤ h - w.1 ∧ k < 2 ^ 16)
      as (k & -> & Hk).
    { eexists. split; [done|]. destruct (Z.ltb_spec w.1 h); [|lia].
      rewrite (u32_id (h - w.1)) by lia. rewrite u16_id by lia. lia. }
    rewrite (u32_id (h - lib)) by lia. rewrite u16_id by lia. split_and!; [lia|lia|intros w' [= <-]; lia|].
    destruct (producer_to_last_produced _ !! _) as [last|]; [|done]. destruct (Hlast last eq_refl) as [Hl1 Hl2].
    specialize (Hl2 w eq_refl). rewrite !(u32_id (h + 1)) by lia.
    destruct (Z.le_gt_cases 0 last).
    + rewrite u32_id by lia. apply assert_that_Ok, Z.ltb_lt. lia.
    + apply assert_that_Ok, Z.ltb_lt. pose proof (u32_range (h + 1 - Z.min k (h - lib))). lia.
  - rewrite (u32_id (h - lib)) by lia. rewrite u16_id by lia. split_and!; [lia|lia|done|].
    destruct (producer_to_last_produced _ !! _) as [last|]; [|done]. destruct (Hlast last eq_refl) as [Hl1 _].
    rewrite !(u32_id (h + 1)) by lia. rewrite u32_id by lia. apply assert_that_Ok, Z.ltb_lt. lia.
Qed.

(** *** The next slot of a producer *)

Lemma find_producer_Some l name : ∀ i j, find_producer l name i = Some j →
  ∃ n a, j = i + Z.of_nat n ∧ l !! n = Some a ∧ producer_name a = name.
Proof.
  induction l as [|a l IH]; intros i j Hf; cbn in Hf; [done|]. destruct (Z.eqb_spec (producer_name a) name) as [E|Hne].
  - injection Hf as <-. exists 0%nat, a. split; [lia|done].
  - destruct (IH _ _ Hf) as (n & b & -> & ? & ?). exists (S n), b. split; [lia|done].
Qed.

Lemma find_producer_None l name : ∀ i, find_producer l name i = None ↔ name ∉ producer_name <$> l.
Proof.
  induction l as [|a l IH]; intros i; cbn; [split; [intros _; apply not_elem_of_nil|done]|].
  rewrite not_elem_of_cons. destruct (Z.eqb_spec (producer_name a) name) as [E|Hne]; [naive_solver|].
  rewrite IH. naive_solver.
Qed.

(** The slots of index [j] in rounds of [n] *)
Lemma round_distance n m j : 0 < n < 2 ^ 32 → 0 ≤ j < n → 0 ≤ m → j ≠ m mod n →
  let d := u64 (j - m mod n) in let d := if j <? d then u64 (d + n) else d in
  0 < d < n ∧ (m + d) mod n = j ∧ ∀ e, 0 ≤ e < d → (m + e) mod n ≠ j.
Proof.
  intros Hn Hj Hm Hne. cbv zeta. pose proof (Z.mod_pos_bound m n) as Hr.
  assert (∀ e, (m + e) mod n = (m mod n + e) mod n) as Hadd by (intros; by rewrite Zplus_mod_idemp_l).
  set (r := m mod n) in *. clearbody r. unfold u64.
  assert (∃ d, (if j <? (j - r) mod 2 ^ 64 then ((j - r) mod 2 ^ 64 + n) mod 2 ^ 64 else (j - r) mod 2 ^ 64) = d ∧
    d = if r <? j then j - r else j - r + n) as (d & -> & Hd).
  { eexists. split; [done|]. destruct (Z.ltb_spec r j).
    - rewrite (Z.mod_small (j - r)) by lia. destruct (Z.ltb_spec j (j - r)); lia.
    - rewrite <-(Z.mod_add (j - r) 1) by lia. rewrite (Z.mod_small (j - r + 1 * 2 ^ 64)) by lia.
      destruct (Z.ltb_spec j (j - r + 1 * 2 ^ 64)); [|lia].
      replace (j - r + 1 * 2 ^ 64 + n) with (j - r + n + 1 * 2 ^ 64) by lia. rewrite Z.mod_add by lia.
      apply Z.mod_small. lia. }
  destruct (Z.ltb_spec r j); subst d; (split; [lia|]); rewrite ?Hadd; split.
  - replace (r + (j - r)) with j by lia. apply Z.mod_small. lia.
  - intros e He. rewrite Hadd, Z.mod_small by lia. lia.
  - replace (r + (j - r + n)) with (j + 1 * n) by lia. rewrite Z.mod_add by lia. apply Z.mod_small. lia.
  - intros e He. rewrite Hadd. destruct (Z.lt_ge_cases (r + e) n); [rewrite Z.mod_small by lia; lia|].
    replace (r + e) with (r + e - n + 1 * n) by lia. rewrite Z.mod_add, Z.mod_small by lia. lia.
Qed.

Lemma scheduled_at v s : 0 ≤ s →
  get_scheduled_producer (common (head_state v)) s =
  let l := producers (active_schedule (common (head_state v))) in
  if (length l =? 0)%nat then None else l !! Z.to_nat (s mod Z.of_nat (length l)).
Proof.
  intros Hs. unfold get_scheduled_producer, producer_repetitions. cbv zeta. rewrite Z.mul_1_r, Z.div_1_r.
  destruct (producers _); [done|]. cbn [length]. by rewrite (proj2 (Z.eqb_neq _ _)) by lia.
Qed.

Lemma minimum_offset_spec p v producer slot : 0 ≤ slot < 2 ^ 32 →
  (∀ w, get_watermark p producer = Some w → 0 ≤ w.1 < 2 ^ 32 - 1 ∧ 0 ≤ w.2 < 2 ^ 32 - 1) → 0 ≤ head_num v < 2 ^ 32 - 1 →
  1 ≤ minimum_offset p v producer slot ∧
  ∀ w, get_watermark p producer = Some w → w.2 < slot + minimum_offset p v producer slot.
Proof.
  intros Hs Hw Hn. unfold minimum_offset. destruct (get_watermark p producer) as [w|]; [|split; [done|done]].
  destruct (Hw w eq_refl) as [Hw1 Hw2]. clear Hw.
  set (b := if is_building_block v then u32 (head_num v + 1) else head_num v).
  assert (0 ≤ b < 2 ^ 32) as Hb. { unfold b. destruct (is_building_block v); [rewrite u32_id by lia|]; lia. }
  clearbody b.
  assert (1 ≤ if b <? w.1 then u32 (u32 (w.1 - b) + 1) else 1) as Ho.
  { destruct (Z.ltb_spec b w.1); [|lia]. rewrite (u32_id (w.1 - b)), u32_id by lia. lia. }
  set (o := if b <? w.1 then _ else _) in *. clearbody o. destruct (Z.ltb_spec slot w.2).
  - rewrite (u32_id (w.2 - slot)), u32_id by lia. split; [lia|]. intros w' [= <-]. lia.
  - split; [lia|]. intros w' [= <-]. lia.
Qed.

(** [calculate_next_block_time] finds the producer's next opportunity. It returns a time
    exactly when the producer is in the active schedule, and then the start of the first
    slot, from the minimum that the current slot and the watermark allow, for which the
    header state schedules this producer; the slot is after the watermark. *)
Theorem next_block_time_earliest p v producer slot : let l := producers (active_schedule (common (head_state v))) in
  let from := slot + minimum_offset p v producer slot in
  NoDup (producer_name <$> l) → 0 ≤ slot < 2 ^ 32 → 0 ≤ head_num v < 2 ^ 32 - 1 → from + Z.of_nat (length l) < 2 ^ 32 →
  (∀ w, get_watermark p producer = Some w → 0 ≤ w.1 < 2 ^ 32 - 1 ∧ 0 ≤ w.2 < 2 ^ 32 - 1) →
  match calculate_next_block_time p v producer slot with
  | None => producer ∉ producer_name <$> l
  | Some t => ∃ s a, t = Timestamp.to_time_point s ∧ from ≤ s < from + Z.of_nat (length l) ∧
      get_scheduled_producer (common (head_state v)) s = Some a ∧ producer_name a = producer ∧
      (∀ s' a', from ≤ s' < s → get_scheduled_producer (common (head_state v)) s' = Some a' →
         producer_name a' ≠ producer) ∧
      (∀ w, get_watermark p producer = Some w → slot < s ∧ w.2 < s)
  end.
Proof.
  cbv zeta. intros Hnd Hslot Hhead Hmax Hw.
  destruct (minimum_offset_spec p v producer slot Hslot Hw Hhead) as [Ho Hafter].
  unfold calculate_next_block_time. set (from := slot + minimum_offset p v producer slot) in *.
  set (l := producers (active_schedule (common (head_state v)))) in *.
  destruct (find_producer l producer 0) as [j|] eqn:Ef; [|by eapply find_producer_None].
  apply find_producer_Some in Ef as (n & a & -> & Hn & Hname). rewrite Z.add_0_l.
  pose proof (lookup_lt_Some _ _ _ Hn) as Hlt.
  unfold producer_repetitions. rewrite Z.mul_1_r, !Z.div_1_r, Z.mod_1_r, Z.sub_0_r, (u32_id from) by lia.
  assert (∀ s a', 0 ≤ s → get_scheduled_producer (common (head_state v)) s = Some a' → producer_name a' = producer →
    s mod Z.of_nat (length l) = Z.of_nat n) as Hidx.
  { intros s a' Hs Hsch E. rewrite scheduled_at in Hsch by done. cbv zeta in Hsch. fold l in Hsch.
    destruct (length l =? 0)%nat; [done|]. pose proof (Z.mod_pos_bound s (Z.of_nat (length l)) ltac:(lia)).
    enough (Z.to_nat (s mod Z.of_nat (length l)) = n) by lia.
    eapply (NoDup_lookup _ _ _ producer Hnd); rewrite list_lookup_fmap; [by rewrite Hsch, <-E|by rewrite Hn, <-Hname]. }
  assert (∀ s, 0 ≤ s → s mod Z.of_nat (length l) = Z.of_nat n → get_scheduled_producer (common (head_state v)) s = Some a) as Hat.
  { intros s Hs E. rewrite scheduled_at by done. cbv zeta. fold l. destruct (Nat.eqb_spec (length l) 0); [lia|].
    by rewrite E, Nat2Z.id. }
  destruct (Z.eqb_spec (Z.of_nat n) (from mod Z.of_nat (length l))) as [E|Hne].
  - exists from, a. split_and!; [done|lia|lia|by apply Hat; [lia|]|done|lia|].
    intros w Hw'. specialize (Hafter w Hw'). lia.
  - destruct (round_distance (Z.of_nat (length l)) from (Z.of_nat n)) as (Hd & Hmod & Hmin); [lia..|done|].
    set (d := if _ <? _ then _ else _) in *. clearbody d. rewrite (u32_id from) by lia. rewrite Z.mul_1_r, u32_id by lia.
    exists (from + d), a. split_and!; [done|lia|lia|by apply Hat; [lia|]|done| |].
    + intros s' a' Hs' Hsch E. apply (Hmin (s' - from)); [lia|]. replace (from + (s' - from)) with s' by lia.
      eapply Hidx; [lia|done|done].
    + intros w Hw'. specialize (Hafter w Hw'). lia.
Qed.
End plugin.

#[global] Arguments plugin : clear implicits.
#[global] Arguments chain_view : clear implicits.
#[global] Arguments node : clear implicits.

(** ** Witnesses *)

(** A node of producer 2, which signs with key 102, over a head with the number and slot *)
Definition sample_plugin (watermarks : gmap Z (Z * Z)) : plugin Z :=
  MkPlugin true false (λ k, k =? 102) {[2]} watermarks speculating 0 0 (-1) 0 [] false.

Definition sample_view (num slot : Z) (building : bool) : chain_view Z Z :=
  MkView false (sample_state (MkCommon num 0 0 sample_schedule Merkle.empty_merkle ∅ ∅ (MkBsa 1 []) []) slot)
    building None [] (λ _, true).

(** A clock just after the time of a slot *)
Definition sample_clock (slot : Z) (_ : nat) : Z := Timestamp.to_time_point slot + 1.

(** The node starts and produces the block after the head. *)
Definition sample_round (s : node Z) (num slot : Z) : node Z :=
  match schedule_production_loop s (sample_view num slot false) (sample_clock slot) true true with
  | Some s => maybe_produce_block s (sample_view num slot true) (MkBsa 1 [Authority.MkKw 102 1]) true
  | None => s
  end.

Lemma sample_round_steps s num slot : 0 ≤ num < 2 ^ 32 - 1 → rtc (node_step (signature:=Z)) s (sample_round s num slot).
Proof.
  intros Hn. unfold sample_round. destruct (schedule_production_loop _ _ _ _ _) eqn:E; [|done].
  eapply rtc_l; [by eapply (step_schedule _ (sample_view num slot false))|]. apply rtc_once.
  apply (step_produce _ (sample_view num slot true)).
Qed.

Definition sample_node : node Z := MkNode (sample_plugin ∅) None false [].

(** Two blocks in the slots of producer 2, and an attempt in its slot on a fork that is
    not above the watermark *)
Definition sample_rounds : node Z := sample_round (sample_round (sample_round sample_node 1 4) 5 8) 3 12.

Lemma sample_rounds_steps : rtc (node_step (signature:=Z)) sample_node sample_rounds.
Proof.
  unfold sample_rounds. etrans; [|by apply sample_round_steps].
  etrans; [|by apply sample_round_steps]. by apply sample_round_steps.
Qed.

Lemma no_double_production_witness :
  signed sample_rounds = [(2, 6, 9); (2, 2, 5)] ∧ 2 < 6 ∧ 5 < 9.
Proof.
  split; [vm_compute; reflexivity|].
  apply (no_double_production (signature:=Z) sample_node sample_rounds 0 1 (2, 6, 9) (2, 2, 5)); [reflexivity|reflexivity| | | |lia|reflexivity].
  - exact sample_rounds_steps.
  - vm_compute. reflexivity.
  - vm_compute. reflexivity.
Defined.

(** Producer 2 signed block 7 at slot 5; at head 10 it confirms the three blocks since. *)
Definition sample_start : option (plugin Z * start_decision) :=
  start_block (sample_plugin {[2 := (7, 5)]}) (sample_view 10 8 false) (sample_clock 8).

Lemma sample_start_spec : sample_start =
  Some (set_pending_mode (sample_plugin {[2 := (7, 5)]}) producing, starting (Timestamp.to_time_point 9) 3 []).
Proof. vm_compute. reflexivity. Qed.

Lemma confirmations_not_double_witness :
  check_double_confirm (common (head_state (sample_view 10 8 false))) 2 3 = Ok tt.
Proof.
  apply (confirmations_not_double (sample_plugin {[2 := (7, 5)]}) (sample_view 10 8 false) (sample_clock 8)
    _ (Timestamp.to_time_point 9) 3 [] (MkProducer 2 (MkBsa 1 [Authority.MkKw 102 1])) sample_start_spec).
  - reflexivity.
  - vm_compute. reflexivity.
  - vm_compute. split; discriminate.
  - vm_compute. reflexivity.
  - intros w [= <-]. vm_compute. discriminate.
  - intros last. vm_compute. discriminate.
Defined.

(** With the watermark at slot 9 and the current slot 6, the next slot is 13. *)
Lemma next_block_time_earliest_witness :
  calculate_next_block_time (sample_plugin {[2 := (7, 9)]}) (sample_view 10 8 false) 2 6 =
    Some (Timestamp.to_time_point 13) ∧
  ∃ s a, Timestamp.to_time_point 13 = Timestamp.to_time_point s ∧
    get_scheduled_producer (common (head_state (sample_view 10 8 false))) s = Some a ∧ producer_name a = 2.
Proof.
  assert (calculate_next_block_time (sample_plugin {[2 := (7, 9)]}) (sample_view 10 8 false) 2 6 =
    Some (Timestamp.to_time_point 13)) as E by (vm_compute; reflexivity).
  split; [exact E|].
  pose proof (next_block_time_earliest (sample_plugin {[2 := (7, 9)]}) (sample_view 10 8 false) 2 6) as Hn.
  cbv zeta in Hn. rewrite E in Hn. destruct Hn as (s & a & Ht & _ & Hs & Ha & _).
  - apply (bool_decide_unpack _). vm_compute. exact I.
  - lia.
  - vm_compute. split; [discriminate|reflexivity].
  - vm_compute. reflexivity.
  - intros w Hw. vm_compute in Hw. injection Hw as <-. cbn. lia.
  - exists s, a. auto.
Defined.

End Producer.
