(* ===== verification/ForkSwitch.v ===== *)
(** * Fork switching in the controller

    [controller_impl] of [controller.cpp] keeps the state database, the blocks that were
    applied but are still reversible, the block log and the fork database, and has to keep
    them in step while blocks arrive on several forks and may turn out invalid.  This file
    models [apply_block], [commit_block], [abort_block], [pop_block], [push_block],
    [maybe_switch_forks] and [log_irreversible] over the model of the fork database.  The
    state database is chainbase, of which the class [UndoDatabase] states the behaviour of
    undo sessions; the effect of executing a block on the contents of the database is a
    parameter, [execute].  Signals, and the manager of protocol features (whose pops
    [FeatureActivation] models), are left out. *)

From S2P Require Import Prelude.
From S2P Require Import Exceptions.
From S2P Require Import Merkle.
From S2P Require Import Authority.
From S2P Require Import BlockHeader.
From S2P Require Import BlockHeaderState.
From S2P Require Import ForkDatabase.

Local Open Scope Z_scope.

Module ForkSwitch.
Import BlockHeader BlockHeaderState ForkDatabase.

(** ** The state database *)

(** A database with undo sessions: the contents, the states that successive calls of
    [undo] restore, the last one first, and the revision.  [commit] forgets the sessions
    up to a revision. *)
Class UndoDatabase (D S : Type) := {
  contents : D → S;
  undo_states : D → list S;
  revision : D → Z;
  start_undo_session : D → D;
  modify : S → D → D;
  undo : D → D;
  commit : Z → D → D;
  start_contents d : contents (start_undo_session d) = contents d;
  start_undo d : undo_states (start_undo_session d) = contents d :: undo_states d;
  start_revision d : revision (start_undo_session d) = revision d + 1;
  modify_contents s d : contents (modify s d) = s;
  modify_undo s d : undo_states (modify s d) = undo_states d;
  modify_revision s d : revision (modify s d) = revision d;
  undo_contents d s l : undo_states d = s :: l → contents (undo d) = s;
  undo_undo d s l : undo_states d = s :: l → undo_states (undo d) = l;
  undo_revision d s l : undo_states d = s :: l → revision (undo d) = revision d - 1;
  commit_contents n d : contents (commit n d) = contents d;
  commit_undo n d : undo_states (commit n d) = take (Z.to_nat (revision d - n)) (undo_states d);
  commit_revision n d : revision (commit n d) = revision d }.

Inductive block_status := irreversible | validated_block | complete | incomplete.

Inductive db_read_mode := SPECULATIVE | HEAD | READ_ONLY | IRREVERSIBLE.

#[global] Instance db_read_mode_eq_dec : EqDecision db_read_mode.
Proof. solve_decision. Defined.

Section controller.
Context {key signature D S : Type} `{PublicKey key} `{UndoDatabase D S}.

Notation bhs := (block_header_state key signature).
Notation fork_database := (fork_database key signature).

(** Executing a block on the contents of the database: the head it is built on, the block,
    and the status it is applied with *)
Context (execute : S → bhs → bhs → block_status → result exn S).
Context (read_mode : db_read_mode).

(** ** The controller *)

(** The stages of the pending block; its session is the last one of the database. *)
Inductive block_stage := building_block | assembled_block | completed_block (bsp : bhs).

Record controller := MkController {
  db : D;
  reversible_blocks : gmap Z bhs;
  blog : list bhs;
  first_block_num : Z;
  pending : option block_stage;
  chain_head : bhs;
  fork_db : fork_database;
  replay_head_time : option Z }.

Definition set_db (d : D) (c : controller) : controller :=
  MkController d (reversible_blocks c) (blog c) (first_block_num c) (pending c) (chain_head c) (fork_db c) (replay_head_time c).
Definition set_reversible (m : gmap Z bhs) (c : controller) : controller :=
  MkController (db c) m (blog c) (first_block_num c) (pending c) (chain_head c) (fork_db c) (replay_head_time c).
Definition set_blog (l : list bhs) (c : controller) : controller :=
  MkController (db c) (reversible_blocks c) l (first_block_num c) (pending c) (chain_head c) (fork_db c) (replay_head_time c).
Definition set_pending (p : option block_stage) (c : controller) : controller :=
  MkController (db c) (reversible_blocks c) (blog c) (first_block_num c) p (chain_head c) (fork_db c) (replay_head_time c).
Definition set_chain_head (h : bhs) (c : controller) : controller :=
  MkController (db c) (reversible_blocks c) (blog c) (first_block_num c) (pending c) h (fork_db c) (replay_head_time c).
Definition set_fork_db (f : fork_database) (c : controller) : controller :=
  MkController (db c) (reversible_blocks c) (blog c) (first_block_num c) (pending c) (chain_head c) f (replay_head_time c).

(** Operations change the controller, also when they throw; [None] is undefined behaviour. *)
Definition M (A : Type) : Type := controller → option (controller * result exn A).

#[global] Instance M_ret : MRet M := λ A a c, Some (c, Ok a).
#[global] Instance M_bind : MBind M := λ A B f m c,
  match m c with
  | None => None
  | Some (c, Ok a) => f a c
  | Some (c, Throw e) => Some (c, Throw e)
  end.

Definition throw {A} (e : exn) : M A := λ c, Some (c, Throw e).
Definition undefined {A} : M A := λ c, None.
Definition ensure (b : bool) (e : exn) : M unit := if b then mret tt else throw e.
Definition read {A} (f : controller → A) : M A := λ c, Some (c, Ok (f c)).
Definition ask : M controller := λ c, Some (c, Ok c).
Definition update (f : controller → controller) : M unit := λ c, Some (f c, Ok tt).
Definition lift {A} (r : result exn A) : M A := λ c, Some (c, r).
Definition catch {A} (m : M A) (handler : exn → M A) : M A := λ c,
  match m c with
  | Some (c, Throw e) => handler e c
  | r => r
  end.

(** Operations of the fork database *)
Definition on_fork (f : fork_database → option (result exn fork_database)) : M unit := λ c,
  match f (fork_db c) with
  | None => None
  | Some (Ok fork) => Some (set_fork_db fork c, Ok tt)
  | Some (Throw e) => Some (c, Throw e)
  end.
Definition fork_advance_root (id : digest) : M unit := λ c,
  match advance_root (fork_db c) id with
  | None => None
  | Some (fork, r) => Some (set_fork_db fork c, r)
  end.
(** A block as its state is shared with the fork database *)
Definition is_valid (b : bhs) (c : controller) : bool :=
  if get_block (fork_db c) (bhs_id b) is Some s then validated s else false.
Definition fork_mark_valid (b : bhs) : M unit :=
  v ← read (is_valid b);
  on_fork (λ fork, mark_valid fork (MkBlock b v)).

(** ** Applying a block *)

(** [abort_block] undoes the session of the pending block. *)
Definition abort_block : M unit :=
  p ← read pending;
  match p with
  | Some _ => update (λ c, set_pending None (set_db (undo (db c)) c))
  | None => mret tt
  end.

(** [start_block], which opens the session; what it does to the contents is part of
    [execute]. *)
Definition start_block : M unit :=
  p ← read pending;
  _ ← ensure (bool_decide (p = None)) block_validate_exception;
  on_par ← read (λ c, revision (db c) =? num (chain_head c));
  _ ← ensure on_par database_exception;
  update (λ c, set_pending (Some building_block) (set_db (start_undo_session (db c)) c)).

Definition create_reversible (b : bhs) : M unit :=
  taken ← read (λ c, bool_decide (is_Some (reversible_blocks c !! num b)));
  _ ← ensure (negb taken) std_exception;
  update (λ c, set_reversible (<[num b := b]> (reversible_blocks c)) c).

(** [commit_block] with what it calls last when the block is added to the fork database *)
Definition commit_block_then (log_irreversible : M unit) (add_to_fork_db : bool) : M unit :=
  _ ← catch
    (p ← read pending;
     match p with
     | None => undefined
     | Some (completed_block bsp) =>
         _ ← (if add_to_fork_db then
                _ ← on_fork (λ fork, Some (add fork (MkBlock bsp false) false));
                _ ← fork_mark_valid bsp;
                h ← read (λ c, head (fork_db c));
                match h with
                | None => undefined
                | Some h =>
                    _ ← update (set_chain_head h);
                    ensure (bool_decide (bhs_id bsp = bhs_id h)) fork_database_exception
                end
              else mret tt);
         t ← read replay_head_time;
         _ ← (if decide (t = None ∧ read_mode ≠ IRREVERSIBLE) then create_reversible bsp else mret tt);
         if add_to_fork_db then log_irreversible else mret tt
     | Some _ => throw block_validate_exception
     end)
    (λ e, _ ← abort_block; throw e);
  update (set_pending None).

(** [apply_block]: the execution, which compares the resulting block with the given one,
    ends in a completed block that is committed without the fork database. *)
Definition apply_block (b : bhs) (s : block_status) : M unit :=
  catch
    (_ ← start_block;
     c ← ask;
     x ← lift (execute (contents (db c)) (chain_head c) b s);
     _ ← update (λ c, set_pending (Some (completed_block b)) (set_db (modify x (db c)) c));
     commit_block_then (mret tt) false)
    (λ e, _ ← abort_block; throw e).

(** [pop_block].  All blocks above the root of the fork database have their signed block,
    so the check of the speculative mode is left out. *)
Definition pop_block : M unit :=
  c ← ask;
  p ← match get_block (fork_db c) (prev (chain_head c)) with
      | Some s => mret (state s)
      | None =>
          match root (fork_db c) with
          | None => undefined
          | Some r =>
              _ ← ensure (bool_decide (bhs_id r = prev (chain_head c))) block_validate_exception;
              mret r
          end
      end;
  _ ← update (λ c, set_reversible (delete (num (chain_head c)) (reversible_blocks c)) c);
  _ ← update (set_chain_head p);
  update (λ c, set_db (undo (db c)) c).

Fixpoint pop_blocks (n : nat) : M unit :=
  match n with
  | O => mret tt
  | Datatypes.S n => _ ← pop_block; pop_blocks n
  end.

(** ** Irreversible blocks *)

(** [blog.append], with the position it checks *)
Definition append_block (b : bhs) : M unit :=
  c ← ask;
  _ ← ensure (Z.of_nat (length (blog c)) =? num b - first_block_num c) block_log_append_fail;
  update (set_blog (blog c ++ [b])).

(** The rows of the reversible blocks up to a number are removed. *)
Definition trim_reversible (n : Z) : M unit :=
  update (λ c, set_reversible (filter (λ p, n < p.1) (reversible_blocks c)) c).

Definition advance_to (root_id : digest) : M unit :=
  r ← read (λ c, root (fork_db c));
  match r with
  | None => undefined
  | Some r => if decide (root_id = bhs_id r) then mret tt else fork_advance_root root_id
  end.

(** The loop; [root_id] is the last block whose sessions are committed, which becomes the
    root also when a block fails. *)
Fixpoint log_blocks (root_id : digest) (l : list bhs) : M unit :=
  match l with
  | [] => advance_to root_id
  | b :: l =>
      _ ← catch
        (if decide (read_mode = IRREVERSIBLE) then
           _ ← apply_block b complete;
           _ ← update (set_chain_head b);
           fork_mark_valid b
         else mret tt)
        (λ e, _ ← advance_to root_id; throw e);
      _ ← update (λ c, set_db (commit (num b) (db c)) c);
      _ ← catch (append_block b) (λ e, _ ← advance_to (bhs_id b); throw e);
      _ ← trim_reversible (num b);
      log_blocks (bhs_id b) l
  end.

Definition log_irreversible : M unit :=
  c ← ask;
  match root (fork_db c) with
  | None => throw fork_database_exception
  | Some r =>
      let lib_num := match last (blog c) with Some b => num b | None => first_block_num c - 1 end in
      _ ← match last (blog c) with
          | Some b => ensure (bool_decide (bhs_id r = bhs_id b)) fork_database_exception
          | None => ensure (num r =? lib_num) fork_database_exception
          end;
      let fork_head := if decide (read_mode = IRREVERSIBLE)
                       then pending_head (fork_db c) else Some (head (fork_db c)) in
      match fork_head with
      | Some (Some h) =>
          if lib h <=? lib_num then mret tt else
          match fetch_branch (fork_db c) (bhs_id h) (lib h) with
          | None => undefined
          | Some branch => log_blocks (bhs_id r) (rev branch)
          end
      | _ => undefined
      end
  end.

Definition commit_block (add_to_fork_db : bool) : M unit := commit_block_then log_irreversible add_to_fork_db.

(** ** Switching forks *)

(** The check after blocks were popped; [back()] of an empty branch is undefined. *)
Definition check_sync (branch : list bhs) : M unit :=
  match last branch with
  | None => undefined
  | Some b =>
      h ← read chain_head;
      ensure (bool_decide (bhs_id h = prev b)) fork_database_exception
  end.

(** A block is applied, marked as valid, and becomes the head. *)
Definition apply_and_mark (b : bhs) (s : block_status) : M unit :=
  _ ← apply_block b s;
  _ ← fork_mark_valid b;
  update (set_chain_head b).

(** Applying the blocks of the old branch again *)
Fixpoint reapply (l : list bhs) : M unit :=
  match l with
  | [] => mret tt
  | b :: l =>
      _ ← apply_block b validated_block;
      _ ← update (set_chain_head b);
      reapply l
  end.

Definition status_of (valid : bool) : block_status := if valid then validated_block else complete.

(** Applying the blocks of the new branch, the lowest first, [applied] of which are done;
    when one fails, it leaves the fork database and the old branch is restored. *)
Fixpoint apply_branch (old_branch : list bhs) (applied : nat) (l : list bhs) : M unit :=
  match l with
  | [] => mret tt
  | b :: l =>
      _ ← catch
        (v ← read (is_valid b);
         apply_and_mark b (status_of v))
        (λ e,
          _ ← on_fork (λ fork, remove fork (bhs_id b));
          _ ← pop_blocks applied;
          _ ← check_sync old_branch;
          _ ← reapply (rev old_branch);
          throw e);
      apply_branch old_branch (Datatypes.S applied) l
  end.

Definition switch_forks (new_head : bhs) : M unit :=
  c ← ask;
  match fetch_branch_from (fork_db c) (bhs_id new_head) (bhs_id (chain_head c)) with
  | None => undefined
  | Some branches =>
      '(new_branch, old_branch) ← lift branches;
      _ ← (if decide (old_branch = []) then mret tt
           else _ ← pop_blocks (length old_branch); check_sync old_branch);
      apply_branch old_branch 0 (rev new_branch)
  end.

Definition maybe_switch_forks (new_head : bhs) (s : block_status) : M unit :=
  h ← read chain_head;
  if decide (prev new_head = bhs_id h) then
    _ ← catch (apply_and_mark new_head s)
      (λ e, _ ← on_fork (λ fork, remove fork (bhs_id new_head)); throw e);
    log_irreversible
  else if decide (bhs_id new_head = bhs_id h) then mret tt
  else
    _ ← switch_forks new_head;
    log_irreversible.

Definition push_block (bsp : bhs) : M unit :=
  p ← read pending;
  _ ← ensure (bool_decide (p = None)) block_validate_exception;
  _ ← on_fork (λ fork, Some (add fork (MkBlock bsp false) false));
  if decide (read_mode = IRREVERSIBLE) then log_irreversible
  else
    ph ← read (λ c, pending_head (fork_db c));
    match ph with
    | Some (Some new_head) => maybe_switch_forks new_head complete
    | _ => undefined
    end.

(** ** Producing a block *)

(** The transactions of the pending block change the contents of the database. *)
Definition build (x : S) : M unit :=
  p ← read pending;
  match p with
  | Some building_block => update (λ c, set_db (modify x (db c)) c)
  | _ => undefined
  end.

(** [finalize_block], which also changes the contents, and the signing of the block *)
Definition finalize_block (x : S) : M unit :=
  p ← read pending;
  match p with
  | Some building_block => update (λ c, set_pending (Some assembled_block) (set_db (modify x (db c)) c))
  | _ => throw block_validate_exception
  end.

Definition sign_block (bsp : bhs) : M unit :=
  p ← read pending;
  match p with
  | Some assembled_block => update (set_pending (Some (completed_block bsp)))
  | _ => undefined
  end.

(** ** Chains of the fork database *)

Context (num_of : digest → Z).

Notation index_type := (gmap digest (block_state key signature)).

(** The block that the first of the chain is built on, or the first block itself *)
Definition top (r : bhs) (l : list bhs) : bhs := match l with [] => r | b :: _ => b end.

(** The blocks of the index from one of them, the first, down to a child of the root *)
Fixpoint chain (i : index_type) (r : bhs) (l : list bhs) : Prop :=
  match l with
  | [] => True
  | b :: l => (∃ v, i !! bhs_id b = Some (MkBlock b v)) ∧ prev b = bhs_id (top r l) ∧ chain i r l
  end.

Definition valid_in (i : index_type) (b : bhs) : Prop := i !! bhs_id b = Some (MkBlock b true).

Lemma chain_app i r l1 l2 : chain i r (l1 ++ l2) ↔ chain i (top r l2) l1 ∧ chain i r l2.
Proof.
  induction l1 as [|b l1 IH]; cbn; [tauto|]. rewrite IH.
  replace (top r (l1 ++ l2)) with (top (top r l2) l1) by (by destruct l1). tauto.
Qed.

Lemma top_app r l1 l2 : top r (l1 ++ l2) = top (top r l2) l1.
Proof. by destruct l1. Qed.

Lemma chain_elem i r l b : chain i r l → b ∈ l → ∃ v, i !! bhs_id b = Some (MkBlock b v).
Proof.
  induction l as [|a l IH]; intros Hc Hb; [by apply elem_of_nil in Hb|]. destruct Hc as (Hv & _ & Hc).
  apply elem_of_cons in Hb as [->|Hb]; [done|by apply IH].
Qed.

(** The chain below one of its blocks *)
Lemma chain_split i r l b : chain i r l → b ∈ l → ∃ l1 l2, l = l1 ++ b :: l2 ∧ chain i r (b :: l2).
Proof.
  intros Hc (l1 & l2 & ->)%list_elem_of_split. exists l1, l2. split; [done|]. by apply chain_app in Hc as [_ ?].
Qed.

Lemma chain_mono i i' r l : (∀ b, b ∈ l → ∀ v, i !! bhs_id b = Some (MkBlock b v) → ∃ v', i' !! bhs_id b = Some (MkBlock b v')) →
  chain i r l → chain i' r l.
Proof.
  induction l as [|b l IH]; intros Hi; cbn; [done|]. intros ([v Hv] & Hp & Hc). split_and!; [|done|].
  - eapply Hi; [by left|done].
  - apply IH; [|done]. intros b' Hb'. apply Hi. by right.
Qed.

Section tree.
Context (f : fork_database) (r hf : bhs) (Hwf : wf num_of f r hf).

Lemma chain_num l : chain (index f) r l → num (top r l) = num r + Z.of_nat (length l) ∧
  num_of (bhs_id (top r l)) = num (top r l).
Proof.
  induction l as [|b l IH]; intros Hc; cbn; [split; [lia|apply (wf_root_num _ _ _ _ Hwf)]|].
  destruct Hc as ([v Hv] & Hp & Hc). destruct (IH Hc) as [E1 E2].
  destruct (wf_numbered _ _ _ _ Hwf _ _ Hv) as [[Hn1 Hn2] _]. cbn in *. rewrite Hp, E2 in Hn2. split; [lia|done].
Qed.

Lemma chain_elem_num l b : chain (index f) r l → b ∈ l → num r < num b ≤ num (top r l).
Proof.
  intros Hc Hb. destruct (chain_split _ _ _ _ Hc Hb) as (l1 & l2 & -> & Hb2).
  apply chain_num in Hc as [-> _]. apply chain_num in Hb2 as [E _]. cbn in E. rewrite length_app. cbn. lia.
Qed.

Lemma chain_num_inj l b b' : chain (index f) r l → b ∈ l → b' ∈ l → num b = num b' → b = b'.
Proof.
  intros Hc Hb Hb' E. destruct (chain_split _ _ _ _ Hc Hb) as (l1 & l2 & -> & Hc2).
  apply chain_num in Hc2 as [E2 _]. cbn in E2. apply elem_of_app in Hb' as [Hb'|Hb'].
  - apply list_elem_of_split in Hb' as (m1 & m2 & ->).
    replace ((m1 ++ b' :: m2) ++ b :: l2) with (m1 ++ (b' :: m2 ++ b :: l2)) in Hc by (by rewrite <-app_assoc).
    apply chain_app in Hc as [_ Hc]. apply chain_num in Hc as [E3 _]. cbn in E3. rewrite length_app in E3. cbn in E3. lia.
  - apply elem_of_cons in Hb' as [->|Hb']; [done|]. apply chain_app in Hc as [_ (_ & _ & Hc)].
    eapply chain_elem_num in Hc as Hlt; [|exact Hb']. apply chain_num in Hc as [E3 _]. lia.
Qed.

Lemma chain_unique l l' : chain (index f) r l → chain (index f) r l' → bhs_id (top r l) = bhs_id (top r l') → l = l'.
Proof.
  revert l'. induction l as [|b l IH]; intros [|b' l'] Hc Hc' E; [done|..].
  - destruct Hc' as ([v Hv] & _). cbn in E. rewrite <-E, (wf_root_out _ _ _ _ Hwf) in Hv. done.
  - destruct Hc as ([v Hv] & _). cbn in E. rewrite E, (wf_root_out _ _ _ _ Hwf) in Hv. done.
  - destruct Hc as ([v Hv] & Hp & Hc), Hc' as ([v' Hv'] & Hp' & Hc'). cbn in E. rewrite E, Hv' in Hv.
    injection Hv as -> _. f_equal. apply IH; [done..|]. by rewrite <-Hp, <-Hp'.
Qed.

(** Every block has its chain. *)
Lemma block_chain id s : index f !! id = Some s → ∃ l, chain (index f) r (state s :: l).
Proof.
  remember (Z.to_nat (num (state s))) as n eqn:En. revert id s En.
  induction n as [n IH] using lt_wf_ind; intros id s -> Hs.
  pose proof (wf_id _ _ _ _ Hwf _ _ Hs) as Hid. destruct (wf_numbered _ _ _ _ Hwf _ _ Hs) as [[Hn1 Hn2] Hlt].
  destruct (wf_root_num _ _ _ _ Hwf) as [Hr H0r].
  assert (∃ v, index f !! bhs_id (state s) = Some (MkBlock (state s) v)) as Hin.
  { exists (validated s). rewrite Hid, Hs. by destruct s. }
  destruct (wf_linked _ _ _ _ Hwf _ _ Hs) as [Hp|[p Hp]]; [by exists []|].
  destruct (wf_numbered _ _ _ _ Hwf _ _ Hp) as [[Hm _] Hlt']. pose proof (wf_id _ _ _ _ Hwf _ _ Hp) as Hpid.
  rewrite Hpid in Hm. destruct (IH (Z.to_nat (num (state p)))) with (prev (state s)) p as [l Hl]; [lia|done|done|].
  exists (state p :: l). split; [done|]. by split.
Qed.

(** A block of which a block of a chain descends is one of the chain. *)
Lemma chain_ancestor l id b : chain (index f) r l → b ∈ l → descends (index f) id (bhs_id b) → is_Some (index f !! id) →
  ∃ b', b' ∈ l ∧ bhs_id b' = id.
Proof.
  intros Hc Hb Hd Hin. remember (bhs_id b) as x eqn:Ex. revert b Hb Ex. revert x Hd.
  apply (rtc_ind_r (λ x, ∀ b, b ∈ l → x = bhs_id b → ∃ b', b' ∈ l ∧ bhs_id b' = id)); [by intros b Hb ->; exists b|].
  intros y z Hxy Hyz IH b Hb ->.
  destruct Hyz as (s & Hs & Hp). destruct (chain_split _ _ _ _ Hc Hb) as (l1 & l2 & -> & ([v Hv] & Hp2 & Hc2)).
  rewrite Hs in Hv. injection Hv as ->. cbn in Hp. rewrite Hp2 in Hp. destruct l2 as [|a l2].
  - cbn in Hp. subst y. exfalso.
    assert (bhs_id r = id ∨ is_Some (index f !! bhs_id r)) as [<-|E]; [|..].
    { apply descends_in in Hxy as [E|E]; [by left|by right]. }
    + rewrite (wf_root_out _ _ _ _ Hwf) in Hin. by destruct Hin.
    + rewrite (wf_root_out _ _ _ _ Hwf) in E. by destruct E.
  - apply (IH a); [|done]. rewrite elem_of_app, !elem_of_cons. tauto.
Qed.

(** The branches of two chains *)
Lemma path_chain b l a L : chain (index f) r L → top r L = b → path f r b l a →
  (∀ x, x ∈ l → num r < num x) → ∃ rest, L = l ++ rest ∧ top r rest = a.
Proof.
  intros Hc Ht Hp. revert L Hc Ht. induction Hp as [b|b b' l a Hb' Hp IH]; intros L Hc Ht Hl; [by exists L|].
  destruct L as [|b0 L]; cbn in Ht; subst.
  { specialize (Hl b ltac:(by left)). lia. }
  destruct Hc as (Hv & Hprev & Hc). destruct (IH L) as (rest & -> & <-); [done|..].
  - unfold root_or_block, get_block in Hb'. rewrite Hprev in Hb'. case_decide as Hd.
    + injection Hb' as <-. destruct L as [|c L]; [done|]. destruct Hc as ([v Hc] & _). cbn in Hd.
      rewrite Hd, (wf_root_out _ _ _ _ Hwf) in Hc. done.
    + destruct L as [|c L]; [by cbn in Hd|]. destruct Hc as ([v Hc] & _). cbn in Hb'. rewrite Hc in Hb'. by injection Hb'.
  - intros x Hx. apply Hl. by right.
  - exists rest. done.
Qed.

Lemma chain_root_or_block l : chain (index f) r l → root_or_block f r (bhs_id (top r l)) = Ok (top r l).
Proof.
  unfold root_or_block, get_block. destruct l as [|b l]; cbn; intros Hc; [by rewrite decide_True|].
  destruct Hc as ([v Hv] & _). rewrite decide_False, Hv; [done|]. intros E.
  rewrite E, (wf_root_out _ _ _ _ Hwf) in Hv. done.
Qed.

Lemma fetch_branches L1 L2 : chain (index f) r L1 → chain (index f) r L2 →
  ∃ l1 l2 rest, L1 = l1 ++ rest ∧ L2 = l2 ++ rest ∧
    fetch_branch_from f (bhs_id (top r L1)) (bhs_id (top r L2)) = Some (Ok (l1, l2)) ∧ ∀ x, x ∈ l1 → x ∈ l2 → False.
Proof.
  intros Hc1 Hc2.
  destruct (fetch_branch_from_paths num_of f _ _ r hf _ _ Hwf (chain_root_or_block _ Hc1) (chain_root_or_block _ Hc2))
    as (l1 & l2 & a & Hf & Hp1 & Hp2 & Hup & Hdis).
  destruct (path_chain _ _ _ L1 Hc1 eq_refl Hp1) as (rest & -> & Ha1); [intros; apply Hup; by left|].
  destruct (path_chain _ _ _ L2 Hc2 eq_refl Hp2) as (rest' & -> & Ha2); [intros; apply Hup; by right|].
  assert (rest = rest') as <-; [|by exists l1, l2, rest].
  apply chain_app in Hc1 as [_ Hc1], Hc2 as [_ Hc2]. apply chain_unique; [done|done|]. by rewrite Ha1, Ha2.
Qed.
End tree.

(** ** The database follows a chain *)

(** The contents and the states to undo to are those of executing the chain, the last
    block first, from the state of the root. *)
Fixpoint follows (r : bhs) (base : S) (l : list bhs) (cur : S) (u : list S) : Prop :=
  match l, u with
  | [], [] => cur = base
  | b :: l, s :: u => execute s (top r l) b validated_block = Ok cur ∧ follows r base l s u
  | _, _ => False
  end.

Lemma follows_det r base l cur u cur' u' : follows r base l cur u → follows r base l cur' u' → cur = cur' ∧ u = u'.
Proof.
  revert cur u cur' u'. induction l as [|b l IH]; intros cur [|s u] cur' [|s' u'] Hf Hf'; cbn in *; try done.
  - split; congruence.
  - destruct Hf as [E Hf], Hf' as [E' Hf']. destruct (IH _ _ _ _ Hf Hf') as [<- <-]. split; congruence.
Qed.

Lemma follows_length r base l cur u : follows r base l cur u → length u = length l.
Proof. revert cur u. induction l as [|b l IH]; intros cur [|s u] Hf; cbn in *; try done. f_equal. by eapply IH, Hf. Qed.

(** A chain in two parts *)
Lemma follows_app r base l1 l2 cur u : follows r base (l1 ++ l2) cur u ↔
  ∃ mid u1 u2, u = u1 ++ u2 ∧ length u1 = length l1 ∧ follows r base l2 mid u2 ∧ follows (top r l2) mid l1 cur u1.
Proof.
  revert cur u. induction l1 as [|b l1 IH]; intros cur u; cbn [app].
  - split.
    + intros Hf. by exists cur, [], u.
    + intros (mid & [|] & u2 & -> & ? & Hf & Hm); [|done]. cbn in Hm. by subst.
  - destruct u as [|s u]; cbn [follows].
    + split; [done|]. intros (mid & [|] & u2 & E & ? & ? & ?); [|done]. done.
    + rewrite IH, top_app. split.
      * intros [E (mid & u1 & u2 & -> & Hl & Hf2 & Hf1)]. exists mid, (s :: u1), u2. cbn. by rewrite Hl.
      * intros (mid & [|s' u1] & u2 & E & Hl & Hf2 & Hf1); [done|]. cbn in E. injection E as <- ->.
        destruct Hf1 as [E Hf1]. split; [done|]. exists mid, u1, u2. cbn in Hl. by injection Hl.
Qed.

(** ** Settled controllers *)

(** No replay is going on and no block is pending, and the database, its revision and the reversible blocks belong
    to the chain [l] of the head over the root [r], whose state is [base]. *)
Record settled (c : controller) (r : bhs) (base : S) (l : list bhs) : Prop := {
  st_pending : pending c = None;
  st_wf : ∃ hf, wf num_of (fork_db c) r hf;
  st_chain : chain (index (fork_db c)) r l;
  st_head : chain_head c = top r l;
  st_follows : follows r base l (contents (db c)) (undo_states (db c));
  st_revision : revision (db c) = num (chain_head c);
  st_reversible n b : reversible_blocks c !! n = Some b ↔ b ∈ l ∧ num b = n;
  st_live : replay_head_time c = None }.

(** What the operations on the head leave alone *)
Definition same_forks (c c' : controller) : Prop :=
  fork_db c' = fork_db c ∧ blog c' = blog c ∧ first_block_num c' = first_block_num c ∧ replay_head_time c' = replay_head_time c.

(** A block of the index that is built on the chain *)
Definition next_of (c : controller) (r : bhs) (l : list bhs) (b : bhs) : Prop :=
  (∃ v, index (fork_db c) !! bhs_id b = Some (MkBlock b v)) ∧ prev b = bhs_id (top r l).

Lemma next_not_reversible c r base l b : settled c r base l → next_of c r l b → reversible_blocks c !! num b = None.
Proof.
  intros Hs [Hv Hp]. destruct (reversible_blocks c !! num b) as [b'|] eqn:E; [|done]. exfalso.
  apply (st_reversible _ _ _ _ Hs) in E as [Hb E]. destruct (st_wf _ _ _ _ Hs) as [hf Hwf].
  pose proof (chain_elem_num _ _ _ Hwf _ _ (st_chain _ _ _ _ Hs) Hb).
  assert (chain (index (fork_db c)) r (b :: l)) as Hc by (split_and!; [done..|apply (st_chain _ _ _ _ Hs)]).
  apply (chain_num _ _ _ Hwf) in Hc as [Hn _]. pose proof (chain_num _ _ _ Hwf _ (st_chain _ _ _ _ Hs)) as [Hn' _].
  cbn in Hn. lia.
Qed.

(** The outcome of applying a block that is built on the head *)
Definition applied (c c' : controller) (b : bhs) (x : S) : Prop :=
  same_forks c c' ∧ chain_head c' = chain_head c ∧ pending c' = None ∧ contents (db c') = x ∧
  undo_states (db c') = contents (db c) :: undo_states (db c) ∧ revision (db c') = revision (db c) + 1 ∧
  reversible_blocks c' = <[num b := b]> (reversible_blocks c).

Context (Hmode : read_mode ≠ IRREVERSIBLE).

Lemma start_block_eval c : pending c = None → revision (db c) = num (chain_head c) →
  start_block c = Some (set_pending (Some building_block) (set_db (start_undo_session (db c)) c), Ok tt).
Proof.
  intros Hp Hr. unfold start_block. cbv [mbind M_bind read ensure update]. rewrite Hp, bool_decide_true by done.
  cbn. by rewrite (proj2 (Z.eqb_eq _ _) Hr).
Qed.

Lemma apply_block_spec c r base l b s : settled c r base l → next_of c r l b →
  match execute (contents (db c)) (chain_head c) b s with
  | Ok x => ∃ c', apply_block b s c = Some (c', Ok tt) ∧ applied c c' b x
  | Throw e => ∃ c', apply_block b s c = Some (c', Throw e) ∧ same_forks c c' ∧ settled c' r base l
  end.
Proof.
  intros Hs Hn. pose proof (next_not_reversible _ _ _ _ _ Hs Hn) as Hr. destruct Hs as [Hp Hwf Hc Hh Hf Hv Hrev].
  set (d := start_undo_session (db c)).
  assert (contents d = contents (db c)) as Ed by apply start_contents.
  unfold apply_block. cbv [catch mbind M_bind]. rewrite (start_block_eval c Hp Hv). fold d.
  cbv [ask lift update]. cbn [db set_pending set_db chain_head]. rewrite Ed.
  destruct (execute (contents (db c)) (chain_head c) b s) as [x|e].
  - unfold commit_block_then, catch, mbind, M_bind, read, update. cbn. rewrite decide_True by done.
    unfold create_reversible, mbind, M_bind, read, ensure, update. cbn.
    rewrite bool_decide_false by (rewrite Hr; by intros []). cbn. eexists. split; [reflexivity|].
    unfold applied, same_forks. cbn.
    rewrite modify_contents, modify_undo, modify_revision. unfold d. by rewrite start_undo, start_revision.
  - cbn. eexists. split; [reflexivity|]. split; [done|]. split; cbn; try done.
    + unfold d. erewrite undo_contents, undo_undo by apply start_undo. done.
    + unfold d. erewrite undo_revision by apply start_undo. rewrite start_revision. lia.
Qed.

(** The head becomes a block that was applied; the fork database may mark it. *)
Lemma applied_settled c c' f r base l b x : settled c r base l → next_of c r l b → applied c c' b x →
  execute (contents (db c)) (chain_head c) b validated_block = Ok x →
  (∃ hf, wf num_of f r hf) → chain (index f) r (b :: l) →
  settled (set_chain_head b (set_fork_db f c')) r base (b :: l).
Proof.
  intros Hs Hn ((Ef & _ & _ & El) & Eh & Ep & Ec & Eu & Er & Erev) Hx Hwf Hc.
  destruct (st_wf _ _ _ _ Hs) as [hf0 Hwf0]. pose proof (next_not_reversible _ _ _ _ _ Hs Hn) as Hnr.
  split; cbn; try done.
  - rewrite Ec, Eu, <-(st_head _ _ _ _ Hs). split; [done|]. apply (st_follows _ _ _ _ Hs).
  - destruct Hwf as [hf Hwf]. apply (chain_num _ _ _ Hwf) in Hc as Hn1. destruct Hc as (_ & _ & Hc).
    apply (chain_num _ _ _ Hwf) in Hc as Hn2. rewrite Er, (st_revision _ _ _ _ Hs), (st_head _ _ _ _ Hs). cbn in Hn1. lia.
  - intros n b'. rewrite Erev, lookup_insert_Some, (st_reversible _ _ _ _ Hs), elem_of_cons. split.
    + intros [[<- <-]|[Hne [Hb' <-]]]; tauto.
    + intros [[->|Hb'] <-]; [by left|]. right. split; [|done]. intros E.
      assert (reversible_blocks c !! num b' = Some b') as Hb by (by apply (st_reversible _ _ _ _ Hs)).
      by rewrite <-E, Hnr in Hb.
  - rewrite El. apply (st_live _ _ _ _ Hs).
Qed.

(** ** Popping and applying again *)

Lemma pop_block_spec c r base b l : settled c r base (b :: l) →
  ∃ c', pop_block c = Some (c', Ok tt) ∧ same_forks c c' ∧ settled c' r base l.
Proof.
  intros Hs. destruct (st_wf _ _ _ _ Hs) as [hf Hwf]. destruct Hs as [Hp _ (Hb & Hprev & Hc) Hh Hf Hv Hrev].
  cbn in Hh. destruct (undo_states (db c)) as [|s u] eqn:Eu; [done|]. destruct Hf as [_ Hf].
  assert (chain (index (fork_db c)) r (b :: l)) as Hc' by done.
  assert (match get_block (fork_db c) (prev (chain_head c)) with
          | Some s => state s = top r l
          | None => top r l = r end) as Hg.
  { rewrite Hh, Hprev. unfold get_block. destruct l as [|a l]; cbn.
    - by rewrite (wf_root_out _ _ _ _ Hwf).
    - destruct Hc as ([v ->] & _). done. }
  exists (set_db (undo (db c)) (set_chain_head (top r l) (set_reversible (delete (num b) (reversible_blocks c)) c))).
  split.
  { unfold pop_block. cbv [mbind M_bind ask]. destruct (get_block _ _) as [p|].
    - cbn. by rewrite Hg, Hh.
    - rewrite (wf_root _ _ _ _ Hwf), Hh, Hprev, Hg, bool_decide_true by done. cbn. by rewrite Hh. }
  split; [done|]. split; cbn; try done; [by eexists|..].
  - by rewrite (undo_contents _ _ _ Eu), (undo_undo _ _ _ Eu).
  - rewrite (undo_revision _ _ _ Eu), Hv, Hh. apply (chain_num _ _ _ Hwf) in Hc' as [E1 _], Hc as [E2 _]. cbn in E1. lia.
  - intros n b'. rewrite lookup_delete_Some, Hrev, elem_of_cons.
    assert (b' ∈ l → num b' ≠ num b) as Hne.
    { intros Hb'. apply (chain_elem_num _ _ _ Hwf) with (b := b') in Hc as Hlt; [|done].
      apply (chain_num _ _ _ Hwf) in Hc' as [E1 _], Hc as [E2 _]. cbn in E1. lia. }
    split; [intros (Hn & [->|Hb'] & <-); done|]. intros [Hb' <-]. specialize (Hne Hb'). auto.
Qed.

Lemma same_forks_trans c1 c2 c3 : same_forks c1 c2 → same_forks c2 c3 → same_forks c1 c3.
Proof. intros (? & ? & ? & ?) (? & ? & ? & ?). split_and!; congruence. Qed.

Lemma pop_blocks_spec r base l1 l2 : ∀ c, settled c r base (l1 ++ l2) →
  ∃ c', pop_blocks (length l1) c = Some (c', Ok tt) ∧ same_forks c c' ∧ settled c' r base l2.
Proof.
  induction l1 as [|b l1 IH]; intros c Hs; [by exists c|].
  destruct (pop_block_spec _ _ _ _ _ Hs) as (c1 & E1 & Hf1 & Hs1). destruct (IH c1 Hs1) as (c2 & E2 & Hf2 & Hs2).
  exists c2. cbn. cbv [mbind M_bind]. rewrite E1, E2. eauto using same_forks_trans.
Qed.

(** Blocks of a chain that the database has followed before apply again. *)
Lemma reapply_spec r base l1 : ∀ l2 c cur u, settled c r base l2 → chain (index (fork_db c)) r (l1 ++ l2) →
  follows r base (l1 ++ l2) cur u →
  ∃ c', reapply (rev l1) c = Some (c', Ok tt) ∧ same_forks c c' ∧ settled c' r base (l1 ++ l2).
Proof.
  induction l1 as [|b l1 IH] using rev_ind; intros l2 c cur u Hs Hc Hf; [by exists c|].
  rewrite rev_unit. rewrite <-app_assoc in Hc, Hf |- *. cbn [app] in Hc, Hf |- *.
  apply chain_app in Hc as Hc1. destruct Hc1 as [_ Hc1]. destruct Hc1 as (Hb & Hp & Hc2).
  assert (next_of c r l2 b) as Hn by done.
  assert (∃ x, execute (contents (db c)) (chain_head c) b validated_block = Ok x) as [x Hx].
  { apply follows_app in Hf as (mid & u1 & u2 & -> & _ & Hf & _). destruct u2 as [|s u2]; [done|]. destruct Hf as [Hx Hf].
    destruct (follows_det _ _ _ _ _ _ _ Hf (st_follows _ _ _ _ Hs)) as [-> _]. rewrite (st_head _ _ _ _ Hs). by eexists. }
  pose proof (apply_block_spec _ _ _ _ _ validated_block Hs Hn) as Ha. rewrite Hx in Ha. destruct Ha as (c1 & E1 & Ha).
  pose proof Ha as ((Ef & Hfs) & _).
  assert (settled (set_chain_head b (set_fork_db (fork_db c) c1)) r base (b :: l2)) as Hs1.
  { eapply applied_settled; [done|done|done|done|apply (st_wf _ _ _ _ Hs)|done]. }
  rewrite <-Ef in Hs1. replace (set_fork_db (fork_db c1) c1) with c1 in Hs1 by (by destruct c1).
  destruct (IH (b :: l2) (set_chain_head b c1) cur u Hs1) as (c2 & E2 & Hf2 & Hs2); [cbn; by rewrite Ef|done|].
  exists c2. cbn. cbv [mbind M_bind]. rewrite E1. cbv [update]. rewrite E2. split_and!; [done| |done].
  by eapply same_forks_trans; [|exact Hf2]; split; [|apply Hfs].
Qed.

(** ** Marking a block *)

Lemma mark_valid_spec (f : fork_database) (r hf b : bhs) v : wf num_of f r hf → index f !! bhs_id b = Some (MkBlock b v) →
  ∃ f', mark_valid f (MkBlock b v) = Some (Ok f') ∧ index f' = <[bhs_id b := MkBlock b true]> (index f) ∧
    wf num_of f' r (if first_preferred b hf then b else hf).
Proof.
  intros Hwf Hb. destruct v.
  { exists f. rewrite insert_id by done. split_and!; [done..|].
    by rewrite (wf_best _ _ _ _ Hwf _ _ Hb eq_refl : first_preferred b hf = false). }
  set (i := <[bhs_id b := MkBlock b true]> (index f)).
  assert (∃ f', mark_valid f (MkBlock b false) = Some (Ok f') ∧ index f' = i) as (f' & Hm & Ei).
  { unfold mark_valid. cbn [validated state]. rewrite Hb. cbn [state]. fold i. pose proof (begin_spec i) as Hbeg.
    destruct (begin i); [|by apply insert_non_empty in Hbeg]. cbn. rewrite (wf_head _ _ _ _ Hwf). cbn. eexists. split; reflexivity. }
  exists f'. split_and!; [done|done|]. destruct (mark_valid_wf num_of _ _ _ _ _ Hwf Hm) as [h' Hwf'].
  enough (h' = if first_preferred b hf then b else hf) as <- by done.
  unfold mark_valid in Hm. cbn [validated state] in Hm. rewrite Hb in Hm. cbn [state] in Hm. fold i in Hm.
  pose proof (begin_spec i) as Hbeg. destruct (begin i) as [cand|]; [|by apply insert_non_empty in Hbeg].
  destruct Hbeg as [[x Hx] Hmin]. cbn in Hm. rewrite (wf_head _ _ _ _ Hwf) in Hm. cbn in Hm. injection Hm as <-.
  pose proof (wf_head _ _ _ _ Hwf') as Hh. cbn in Hh. injection Hh as <-.
  assert (validated cand = true) as Hcv by (by apply (Hmin (bhs_id b) (MkBlock b true)); [apply lookup_insert_eq|]).
  destruct (Hmin (bhs_id b) (MkBlock b true) ltac:(apply lookup_insert_eq)) as [_ Hbc]. cbn in Hbc.
  specialize (Hbc (eq_sym Hcv)). apply lookup_insert_Some in Hx as [[<- <-]|[Hne Hx]]; [done|].
  pose proof (wf_best _ _ _ _ Hwf _ _ Hx Hcv) as Hcb. rewrite Hcb.
  destruct (first_preferred b hf) eqn:Ebh; [|done]. apply first_preferred_true in Ebh.
  apply first_preferred_false in Hbc, Hcb. lia.
Qed.

Lemma fork_mark_valid_eval c r hf b v f' : wf num_of (fork_db c) r hf →
  index (fork_db c) !! bhs_id b = Some (MkBlock b v) → mark_valid (fork_db c) (MkBlock b v) = Some (Ok f') →
  fork_mark_valid b c = Some (set_fork_db f' c, Ok tt).
Proof.
  intros Hwf Hb Hm. unfold fork_mark_valid. cbv [mbind M_bind read on_fork]. unfold is_valid, get_block. rewrite Hb. cbn.
  by rewrite Hm.
Qed.

(** ** The tree of blocks *)

(** A block that executes when it is first validated executes again when its
    transactions are trusted. *)
Context (Hval : ∀ s p b x, execute s p b complete = Ok x → execute s p b validated_block = Ok x).

(** Irreversible numbers do not fall along a chain, and the validated blocks are built on
    validated blocks and execute. *)
Record tree (f : fork_database) (r : bhs) (base : S) : Prop := {
  tr_lib b l : chain (index f) r (b :: l) → lib (top r l) ≤ lib b;
  tr_valid b l : chain (index f) r (b :: l) → valid_in (index f) b →
    Forall (valid_in (index f)) l ∧ ∃ cur u, follows r base (b :: l) cur u }.

(** The same blocks, of which other ones are validated *)
Definition same_states (i i' : index_type) : Prop := state <$> i = state <$> i'.

Lemma same_states_lookup i i' b v : same_states i i' → i !! bhs_id b = Some (MkBlock b v) →
  ∃ v', i' !! bhs_id b = Some (MkBlock b v').
Proof.
  intros E Hb. assert ((state <$> i') !! bhs_id b = Some b) as Hb' by (by rewrite <-E, lookup_fmap, Hb).
  rewrite lookup_fmap in Hb'. apply fmap_Some in Hb' as ([b' v'] & -> & ->). by exists v'.
Qed.

Lemma same_states_chain i i' r l : same_states i i' → chain i r l → chain i' r l.
Proof. intros E. apply chain_mono. intros b _ v Hb. by eapply same_states_lookup. Qed.

Lemma mark_same_states (i : index_type) b v : i !! bhs_id b = Some (MkBlock b v) →
  same_states i (<[bhs_id b := MkBlock b true]> i).
Proof. intros Hb. unfold same_states. rewrite fmap_insert. symmetry. apply insert_id. by rewrite lookup_fmap, Hb. Qed.

Lemma mark_keeps_valid (i : index_type) b v x : i !! bhs_id b = Some (MkBlock b v) → valid_in i x →
  valid_in (<[bhs_id b := MkBlock b true]> i) x.
Proof.
  unfold valid_in. intros Hb Hx. destruct (decide (bhs_id b = bhs_id x)) as [E|]; [|by rewrite lookup_insert_ne].
  rewrite <-E, Hb in Hx. injection Hx as -> ->. by rewrite lookup_insert_eq.
Qed.

(** Marking a block that executes on a validated chain *)
Lemma tree_mark f f' r hf base b l cur u : wf num_of f r hf → tree f r base → chain (index f) r (b :: l) →
  Forall (valid_in (index f)) l → follows r base (b :: l) cur u →
  index f' = <[bhs_id b := MkBlock b true]> (index f) → tree f' r base.
Proof.
  intros Hwf Ht Hc Hl Hf E. destruct Hc as ([v Hv] & Hp & Hc). pose proof (mark_same_states _ _ _ Hv) as Hss.
  assert (∀ l, chain (index f') r l → chain (index f) r l) as Hback.
  { intros l' Hl'. rewrite E in Hl'. eapply same_states_chain; [|exact Hl']. symmetry. exact Hss. }
  split.
  - intros b' l' Hc'. apply (tr_lib _ _ _ Ht). by apply Hback.
  - intros b' l' Hc' Hb'. apply Hback in Hc'. rewrite E in *. clear Hback.
    assert (∀ m, Forall (valid_in (index f)) m → Forall (valid_in (<[bhs_id b := MkBlock b true]> (index f))) m) as Hm.
    { intros m Hm. eapply Forall_impl; [exact Hm|]. intros x. by apply mark_keeps_valid with v. }
    unfold valid_in in Hb'. apply lookup_insert_Some in Hb' as [[Eid [= <-]]|[_ Hb']].
    + assert (b :: l' = b :: l) as [= ->]; [|by split; [apply Hm|by eauto]].
      eapply (chain_unique _ _ _ Hwf); [done|split_and!; [by eexists|done|done]|done].
    + destruct (tr_valid _ _ _ Ht b' l' Hc' Hb') as [? ?]. split; [by apply Hm|done].
Qed.

(** Taking blocks out *)
Lemma tree_shrink f f' r base : tree f r base → index f' ⊆ index f → tree f' r base.
Proof.
  intros Ht Hsub.
  assert (∀ l, chain (index f') r l → chain (index f) r l) as Hup.
  { intros l. apply chain_mono. intros b _ v Hb. exists v. by eapply lookup_weaken. }
  split.
  - intros b l Hc. by apply (tr_lib _ _ _ Ht), Hup.
  - intros b l Hc Hb. destruct (tr_valid _ _ _ Ht b l (Hup _ Hc)) as [Hl Hf]; [by eapply lookup_weaken|].
    split; [|done]. apply Forall_forall. intros x Hx. rewrite Forall_forall in Hl. specialize (Hl x Hx).
    destruct Hc as (_ & _ & Hc). destruct (chain_elem _ _ _ _ Hc Hx) as [v Hv].
    pose proof (lookup_weaken _ _ _ _ Hv Hsub) as Hv'. unfold valid_in in *. rewrite Hl in Hv'. by injection Hv' as <-.
Qed.

(** A block that is not validated can be removed: the head of the fork database is not
    built off it, and the chains without it stay. *)
Lemma remove_unvalidated f r hf base b l : wf num_of f r hf → tree f r base → chain (index f) r (b :: l) →
  ¬ valid_in (index f) b →
  ∃ f', remove f (bhs_id b) = Some (Ok f') ∧ wf num_of f' r hf ∧ tree f' r base ∧ index f' ⊆ index f ∧
    (∀ x, descends (index f) (bhs_id b) x → index f' !! x = None) ∧
    (∀ m, chain (index f) r m → b ∉ m → chain (index f') r m ∧ ∀ x, x ∈ m → valid_in (index f) x → valid_in (index f') x).
Proof.
  intros Hwf Ht Hc Hb. pose proof Hc as ([v Hv] & _ & _).
  destruct (remove_spec num_of f hf (bhs_id b) (wf_head _ _ _ _ Hwf) (wf_ranked _ _ _ _ Hwf)) as (res & Hr & Hres).
  assert (∀ m x, chain (index f) r m → x ∈ m → descends (index f) (bhs_id b) (bhs_id x) → b ∈ m) as Hanc.
  { intros m x Hm Hx Hd. destruct (chain_ancestor _ _ _ Hwf _ _ _ Hm Hx Hd) as (b' & Hb' & E); [by eexists|].
    destruct (chain_elem _ _ _ _ Hm Hb') as [v' Hv']. rewrite E, Hv in Hv'. by injection Hv' as -> _. }
  destruct res as [f'|e].
  2:{ exfalso. destruct Hres as [_ Hd]. destruct (wf_head_in _ _ _ _ Hwf) as [->|Hh].
      - apply descends_in in Hd as [E|[? E]].
        + rewrite <-E, (wf_root_out _ _ _ _ Hwf) in Hv. done.
        + by rewrite (wf_root_out _ _ _ _ Hwf) in E.
      - destruct (block_chain _ _ _ Hwf _ _ Hh) as [lh Hlh]. cbn [state] in Hlh.
        specialize (Hanc _ hf Hlh ltac:(by left) Hd). apply elem_of_cons in Hanc as [->|Hin]; [done|].
        destruct (tr_valid _ _ _ Ht _ _ Hlh Hh) as [Hall _]. rewrite Forall_forall in Hall. by apply Hall in Hin. }
  destruct Hres as (_ & _ & _ & Hx). exists f'. split; [done|]. split; [by eapply remove_wf|].
  assert (index f' ⊆ index f) as Hsub.
  { apply map_subseteq_spec. intros x s Hs. destruct (index f !! x) as [s0|] eqn:E0.
    - rewrite <-Hs, <-E0. symmetry. apply Hx. intros Hd. apply Hx in Hd. congruence.
    - assert (¬ descends (index f) (bhs_id b) x) as Hn by (intros Hd; apply Hx in Hd; congruence).
      apply Hx in Hn. congruence. }
  split; [by eapply tree_shrink|]. split; [done|]. split; [intros x; apply Hx|].
  intros m Hm Hbm. assert (∀ x, x ∈ m → index f' !! bhs_id x = index f !! bhs_id x) as Hsame.
  { intros x Hxm. apply Hx. intros Hd. apply Hbm. by eapply Hanc. }
  split; [|intros x Hxm; unfold valid_in; by rewrite Hsame].
  eapply chain_mono; [|exact Hm]. intros x Hxm v' Hv'. exists v'. by rewrite Hsame.
Qed.

(** ** Applying a branch *)

(** A controller at the chain [l], with the head [hf] of the fork database *)
Record at_chain (c : controller) (r : bhs) (base : S) (l : list bhs) (hf : bhs) : Prop := {
  ac_settled : settled c r base l;
  ac_valid : Forall (valid_in (index (fork_db c))) l;
  ac_tree : tree (fork_db c) r base;
  ac_wf : wf num_of (fork_db c) r hf }.

Definition same_log (c c' : controller) : Prop := blog c' = blog c ∧ first_block_num c' = first_block_num c.

Lemma same_log_trans c1 c2 c3 : same_log c1 c2 → same_log c2 c3 → same_log c1 c3.
Proof. intros [? ?] [? ?]. split; congruence. Qed.

Lemma same_forks_at c c' r base l hf : same_forks c c' → settled c' r base l → at_chain c r base l hf →
  at_chain c' r base l hf.
Proof. intros (E & _ & _) Hs [_ Hv Ht Hwf]. split; [done|by rewrite E..]. Qed.

Lemma set_fork_at c c1 r base l hf : at_chain c r base l hf → settled c1 r base l →
  at_chain (set_fork_db (fork_db c) c1) r base l hf.
Proof.
  intros [Hs Hv Ht Hwf] [Hp _ _ Hh Hf Hr Hrev]. split; cbn; [|done..].
  split; cbn; try done; [by eexists|apply (st_chain _ _ _ _ Hs)].
Qed.

(** A validated block that is built on the chain executes. *)
Lemma valid_executes c r base l hf b : at_chain c r base l hf → next_of c r l b → valid_in (index (fork_db c)) b →
  ∃ x, execute (contents (db c)) (chain_head c) b validated_block = Ok x.
Proof.
  intros [Hs _ Ht _] [Hb Hp] Hv. destruct (tr_valid _ _ _ Ht b l) as [_ (cur & u & Hf)]; [|done|].
  { split_and!; [done|done|apply (st_chain _ _ _ _ Hs)]. }
  destruct u as [|s u]; [done|]. destruct Hf as [Hx Hf].
  destruct (follows_det _ _ _ _ _ _ _ Hf (st_follows _ _ _ _ Hs)) as [-> _].
  rewrite (st_head _ _ _ _ Hs). by eexists.
Qed.

(** Marking a block that was applied, and making it the head *)
Lemma applied_marked c c1 r base l hf b x : at_chain c r base l hf → next_of c r l b → applied c c1 b x →
  execute (contents (db c)) (chain_head c) b validated_block = Ok x →
  ∃ f', fork_mark_valid b c1 = Some (set_fork_db f' c1, Ok tt) ∧
    at_chain (set_chain_head b (set_fork_db f' c1)) r base (b :: l) (if first_preferred b hf then b else hf) ∧
    same_states (index (fork_db c)) (index f') ∧ ∀ y, valid_in (index (fork_db c)) y → valid_in (index f') y.
Proof.
  intros [Hs Hv Ht Hwf] Hn Hap Ex. pose proof Hap as ((Ef & _) & _). pose proof Hn as [[v Hb] Hp].
  destruct (mark_valid_spec _ _ _ _ _ Hwf Hb) as (f' & Em & Ei & Hwf').
  assert (chain (index (fork_db c)) r (b :: l)) as Hc by (split_and!; [by eexists|done|apply (st_chain _ _ _ _ Hs)]).
  pose proof (mark_same_states _ _ _ Hb) as Hss. rewrite <-Ei in Hss.
  assert (∀ y, valid_in (index (fork_db c)) y → valid_in (index f') y) as Hmono.
  { intros y Hy. rewrite Ei. by eapply mark_keeps_valid. }
  exists f'. split_and!; [by apply (fork_mark_valid_eval c1 r hf b v); rewrite ?Ef| |done|done].
  split; [|cbn|cbn|exact Hwf'].
  - eapply applied_settled; [done|done|done|done|by eexists|by eapply same_states_chain].
  - constructor; [unfold valid_in; by rewrite Ei, lookup_insert_eq|]. eapply Forall_impl; [exact Hv|exact Hmono].
  - eapply (tree_mark _ _ _ _ _ b l x (contents (db c) :: undo_states (db c)) Hwf); [done|done|done| |done].
    cbn. rewrite <-(st_head _ _ _ _ Hs). split; [done|apply (st_follows _ _ _ _ Hs)].
Qed.

Lemma apply_and_mark_spec c r base l hf b s : s = validated_block ∨ s = complete → at_chain c r base l hf → next_of c r l b →
  match execute (contents (db c)) (chain_head c) b s with
  | Ok x => ∃ c', apply_and_mark b s c = Some (c', Ok tt) ∧
      at_chain c' r base (b :: l) (if first_preferred b hf then b else hf) ∧
      same_states (index (fork_db c)) (index (fork_db c')) ∧ same_log c c' ∧
      ∀ y, valid_in (index (fork_db c)) y → valid_in (index (fork_db c')) y
  | Throw e => ∃ c', apply_and_mark b s c = Some (c', Throw e) ∧ same_forks c c' ∧ at_chain c' r base l hf
  end.
Proof.
  intros Hst Ha Hn. pose proof (apply_block_spec _ _ _ _ _ s (ac_settled _ _ _ _ _ Ha) Hn) as Hab.
  unfold apply_and_mark. cbv [mbind M_bind].
  destruct (execute (contents (db c)) (chain_head c) b s) as [x|e] eqn:Ex.
  - assert (execute (contents (db c)) (chain_head c) b validated_block = Ok x) as Ex'.
    { destruct Hst as [->| ->]; [done|by apply Hval]. }
    destruct Hab as (c1 & E1 & Hap). destruct (applied_marked _ _ _ _ _ _ _ _ Ha Hn Hap Ex') as (f' & E2 & Ha' & Hss & Hmono).
    destruct Hap as ((_ & El1 & El2 & _) & _). rewrite E1, E2. eexists. split; [reflexivity|]. split_and!; done.
  - destruct Hab as (c1 & E1 & Hf1 & Hs1). rewrite E1. exists c1. split_and!; [done|done|by eapply same_forks_at].
Qed.

(** A failed block leaves the fork database with the blocks built off it. *)
Lemma drop_failed c r base l hf b s e : s = status_of (is_valid b c) ∨ s = complete ∧ ¬ valid_in (index (fork_db c)) b →
  at_chain c r base l hf → next_of c r l b → execute (contents (db c)) (chain_head c) b s = Throw e →
  ∃ f', remove (fork_db c) (bhs_id b) = Some (Ok f') ∧ at_chain (set_fork_db f' c) r base l hf ∧
    index f' ⊆ index (fork_db c) ∧ (∀ x, descends (index (fork_db c)) (bhs_id b) x → index f' !! x = None) ∧
    (∀ m, chain (index (fork_db c)) r m → b ∉ m → chain (index f') r m ∧
       ∀ x, x ∈ m → valid_in (index (fork_db c)) x → valid_in (index f') x).
Proof.
  intros Hst Ha Hn Hx. pose proof Ha as [Hs Hv Ht Hwf]. pose proof Hn as [[v Hb] Hp].
  assert (¬ valid_in (index (fork_db c)) b) as Hnv.
  { destruct Hst as [->|[_ ?]]; [|done]. intros Hv'. destruct (valid_executes _ _ _ _ _ _ Ha Hn Hv') as [x Ex].
    unfold is_valid, get_block in Hx. rewrite Hv' in Hx. cbn in Hx. congruence. }
  assert (chain (index (fork_db c)) r (b :: l)) as Hc by (split_and!; [by eexists|done|apply (st_chain _ _ _ _ Hs)]).
  destruct (remove_unvalidated _ _ _ _ _ _ Hwf Ht Hc Hnv) as (f' & Hr & Hwf' & Ht' & Hsub & Hd & Hk).
  exists f'. split_and!; [done| |done|done|done].
  assert (b ∉ l) as Hbl.
  { intros Hbl. destruct Hc as (Hb' & Hp' & Hc). pose proof (chain_elem_num _ _ _ Hwf _ _ Hc Hbl).
    pose proof (chain_num _ _ _ Hwf _ Hc) as [? _]. assert (chain (index (fork_db c)) r (b :: l)) as Hc2 by done.
    pose proof (chain_num _ _ _ Hwf _ Hc2) as [E _]. cbn in E. lia. }
  destruct (Hk l (st_chain _ _ _ _ Hs) Hbl) as [Hc' Hv'].
  split; [|apply Forall_forall; intros x Hxl; apply Hv'; [done|by rewrite Forall_forall in Hv; apply Hv]|done|done].
  destruct Hs. split; cbn; try done. by eexists.
Qed.

Lemma chain_descends i r m b l : chain i r (m ++ b :: l) → descends i (bhs_id b) (bhs_id (top b m)).
Proof.
  induction m as [|a m IH]; intros Hc; cbn; [apply rtc_refl|]. cbn [app] in Hc. destruct Hc as ([v Hv] & Hp & Hc).
  eapply rtc_r; [by apply IH|]. exists (MkBlock a v). split; [done|]. cbn. rewrite Hp. by destruct m.
Qed.

Lemma last_top (b : bhs) l : last (b :: l) = Some (top b (rev l)).
Proof.
  destruct l as [|a l] using rev_ind; [done|]. rewrite rev_unit. cbn [top]. by rewrite app_comm_cons, last_snoc.
Qed.

(** The old branch comes back when a block of the new one fails. *)
Lemma restore_spec c r base old rest done_ hf cur u : at_chain c r base (done_ ++ rest) hf → old ≠ [] →
  chain (index (fork_db c)) r (old ++ rest) → Forall (valid_in (index (fork_db c))) (old ++ rest) →
  follows r base (old ++ rest) cur u →
  ∃ c', (_ ← pop_blocks (length done_); _ ← check_sync old; reapply (rev old)) c = Some (c', Ok tt) ∧
    same_forks c c' ∧ at_chain c' r base (old ++ rest) hf.
Proof.
  intros Ha Hne Hc Hv Hf. pose proof Ha as [Hs _ Ht Hwf].
  destruct (pop_blocks_spec _ _ _ _ _ Hs) as (c1 & E1 & Hf1 & Hs1). pose proof Hf1 as (Ef & _ & _).
  destruct (reapply_spec r base old rest c1 cur u Hs1) as (c2 & E2 & Hf2 & Hs2); [by rewrite Ef|done|].
  exists c2. pose proof (same_forks_trans _ _ _ Hf1 Hf2) as Hf12. pose proof Hf12 as (Ef2 & _ & _).
  split_and!; [|done|split; [done|by rewrite Ef2..]].
  cbv [mbind M_bind]. rewrite E1. unfold check_sync.
  destruct old as [|b old _] using rev_ind; [done|]. rewrite last_snoc. cbv [mbind M_bind read].
  rewrite <-app_assoc in Hc. apply chain_app in Hc as [_ (_ & Hp & _)].
  rewrite (st_head _ _ _ _ Hs1), Hp. unfold ensure. rewrite bool_decide_true by done. cbv [mret M_ret]. exact E2.
Qed.

Lemma apply_branch_spec r base old rest hf : old ≠ [] → ∀ l c done_ cur u,
  at_chain c r base (done_ ++ rest) hf → chain (index (fork_db c)) r (rev l ++ done_ ++ rest) →
  chain (index (fork_db c)) r (old ++ rest) → Forall (valid_in (index (fork_db c))) (old ++ rest) →
  follows r base (old ++ rest) cur u → (∀ x, x ∈ l → x ∉ old ++ rest) →
  (∀ l1 b l2, l = l1 ++ b :: l2 → l2 ≠ [] → first_preferred b hf = false) →
  ∃ c' res, apply_branch old (length done_) l c = Some (c', res) ∧ same_log c c' ∧
    match res with
    | Ok _ => same_states (index (fork_db c)) (index (fork_db c')) ∧
        at_chain c' r base (rev l ++ done_ ++ rest)
          (if last l is Some b then (if first_preferred b hf then b else hf) else hf)
    | Throw e => (state <$> index (fork_db c')) ⊆ (state <$> index (fork_db c)) ∧
        (∀ b, last l = Some b → index (fork_db c') !! bhs_id b = None) ∧ at_chain c' r base (old ++ rest) hf
    end.
Proof.
  intros Hne l. induction l as [|b l IH]; intros c done_ cur u Ha Hc Hco Hvo Hfo Hdis Hpref.
  { exists c, (Ok tt). done. }
  cbn [rev] in Hc. rewrite <-app_assoc in Hc. cbn [app] in Hc. pose proof Hc as Hcb. apply chain_app in Hcb as [_ Hcb].
  pose proof Hcb as (Hb & Hp & _). assert (next_of c r (done_ ++ rest) b) as Hn by done.
  set (s := status_of (is_valid b c)).
  assert (s = validated_block ∨ s = complete) as Hst by (unfold s; destruct (is_valid b c); auto).
  pose proof (apply_and_mark_spec _ _ _ _ _ _ s Hst Ha Hn) as Hstep.
  cbn [apply_branch]. cbv [catch mbind M_bind read]. fold s.
  destruct (execute (contents (db c)) (chain_head c) b s) as [x|e] eqn:Ex.
  - destruct Hstep as (c1 & -> & Ha1 & Hss & Hlog & Hmono).
    destruct (decide (l = [])) as [->|Hl].
    + exists c1, (Ok tt). done.
    + rewrite (Hpref [] b l eq_refl Hl) in Ha1.
      destruct (IH c1 (b :: done_) cur u) as (c2 & res & E2 & Hlog2 & Hres); clear IH.
      * exact Ha1.
      * by eapply same_states_chain.
      * by eapply same_states_chain.
      * eapply Forall_impl; [exact Hvo|]. done.
      * done.
      * intros y Hy. apply Hdis. by right.
      * intros l1 b1 l2 -> Hl2. by apply (Hpref (b :: l1) b1 l2).
      * exists c2, res. cbn [length] in E2. split; [done|]. split; [by eapply same_log_trans|].
        assert (last (b :: l) = last l) as -> by (by destruct l).
        destruct res as [[]|e]; cbn [rev].
        -- rewrite <-app_assoc. destruct Hres as [Hs2 Ha2]. split; [by etrans|done].
        -- unfold same_states in Hss. by rewrite Hss.
  - destruct Hstep as (c1 & -> & Hf1 & Ha1). pose proof Hf1 as (Ef & El1 & El2 & _).
    destruct (drop_failed c r base (done_ ++ rest) hf b s e) as (f' & Hr & Ha' & Hsub & Hd & Hk); [by left|done..|].
    assert (b ∉ old ++ rest) as Hbo by (apply Hdis; by left).
    destruct (Hk _ Hco Hbo) as [Hco' Hvo'].
    pose proof (set_fork_at _ _ _ _ _ _ Ha' (ac_settled _ _ _ _ _ Ha1)) as Ha1'. cbn [fork_db set_fork_db] in Ha1'.
    destruct (restore_spec _ _ _ old rest done_ hf cur u Ha1') as (c2 & E2 & Hf2 & Ha2); [done|done| |done|].
    { rewrite Forall_forall in Hvo |- *. intros y Hy. apply Hvo'; [done|by apply Hvo]. }
    exists c2, (Throw e). pose proof Hf2 as (Ef2 & El3 & El4 & _). cbn in Ef2, El3, El4. split; [|split_and!].
    + unfold on_fork. rewrite Ef, Hr. cbv [mbind M_bind] in E2. revert E2.
      repeat case_match; intros E2; by simplify_eq.
    + split; congruence.
    + rewrite Ef2. by apply map_fmap_mono.
    + intros b' Hb'. rewrite last_top in Hb'. injection Hb' as <-. rewrite Ef2. apply Hd.
      by apply (chain_descends _ r _ _ (done_ ++ rest)).
    + done.
Qed.

(** ** Switching to another chain *)

Lemma chain_NoDup f r hf l : wf num_of f r hf → chain (index f) r l → NoDup l.
Proof.
  intros Hwf. induction l as [|b l IH]; intros Hc; [constructor|]. pose proof Hc as (_ & _ & Hc').
  constructor; [|by apply IH]. intros Hb. pose proof (chain_elem_num _ _ _ Hwf _ _ Hc' Hb).
  pose proof (chain_num _ _ _ Hwf _ Hc) as [E _]. pose proof (chain_num _ _ _ Hwf _ Hc') as [E' _]. cbn in E. lia.
Qed.

Lemma rev_elem (x : bhs) l : x ∈ rev l ↔ x ∈ l.
Proof. rewrite rev_alt. apply elem_of_reverse. Qed.

Lemma switch_forks_spec c r base l hf nh ln : at_chain c r base l hf → chain (index (fork_db c)) r (nh :: ln) →
  (∀ m, nh :: ln ≠ m ++ l) → (∀ m, l ≠ m ++ nh :: ln) → (∀ b, b ∈ ln → first_preferred b hf = false) →
  ∃ c' res, switch_forks nh c = Some (c', res) ∧ same_log c c' ∧
    match res with
    | Ok _ => same_states (index (fork_db c)) (index (fork_db c')) ∧
        at_chain c' r base (nh :: ln) (if first_preferred nh hf then nh else hf)
    | Throw e => (state <$> index (fork_db c')) ⊆ (state <$> index (fork_db c)) ∧
        index (fork_db c') !! bhs_id nh = None ∧ at_chain c' r base l hf
    end.
Proof.
  intros Ha Hcn Hs1 Hs2 Hpref. pose proof Ha as [Hs Hv Ht Hwf]. pose proof (st_chain _ _ _ _ Hs) as Hc.
  destruct (fetch_branches _ _ _ Hwf _ _ Hcn Hc) as (new & old & rest & En & -> & Hfetch & Hdis).
  assert (old ≠ []) as Hold by (intros ->; by apply (Hs1 new)).
  destruct new as [|nh' new]; cbn [app] in En; [by destruct (Hs2 old); rewrite En|]. injection En as <- ->.
  destruct (pop_blocks_spec _ _ _ _ _ Hs) as (c1 & E1 & Hf1 & Hst1). pose proof Hf1 as (Ef & El1 & El2 & _).
  assert (at_chain c1 r base ([] ++ rest) hf) as Ha1.
  { split; [done|rewrite Ef|by rewrite Ef..]. apply Forall_app in Hv as [_ Hv]. exact Hv. }
  destruct (apply_branch_spec r base old rest hf Hold (rev (nh :: new)) c1 [] (contents (db c)) (undo_states (db c)))
    as (c2 & res & E2 & Hlog & Hres).
  - exact Ha1.
  - rewrite rev_involutive, Ef. exact Hcn.
  - by rewrite Ef.
  - by rewrite Ef.
  - apply (st_follows _ _ _ _ Hs).
  - intros x Hx. rewrite rev_elem in Hx. intros [Hx'|Hx']%elem_of_app; [by apply (Hdis x)|].
    pose proof (chain_NoDup _ _ _ _ Hwf Hcn) as Hnd. rewrite app_comm_cons in Hnd. apply NoDup_app in Hnd as (_ & Hnd & _).
    by apply (Hnd x).
  - cbn [rev]. intros l1 b l2 E Hl2. apply Hpref, elem_of_app. left. apply rev_elem.
    destruct l2 as [|b2 l2 _] using rev_ind; [done|]. rewrite app_comm_cons, app_assoc in E.
    apply app_inj_tail in E as [-> _]. apply elem_of_app. right. left.
  - rewrite rev_involutive in Hres. cbn [rev] in Hres. rewrite last_snoc in Hres. exists c2, res.
    split_and!; [|eapply same_log_trans; [split; [exact El1|exact El2]|exact Hlog]|rewrite Ef in Hres].
    + unfold switch_forks. cbv [mbind M_bind ask]. rewrite (st_head _ _ _ _ Hs).
      change (bhs_id nh) with (bhs_id (top r (nh :: new ++ rest))). rewrite Hfetch. cbv [lift]. cbn beta iota.
      rewrite decide_False by done. rewrite E1.
      destruct old as [|b old _] using rev_ind; [done|]. unfold check_sync. rewrite last_snoc. cbv [mbind M_bind read].
      rewrite <-app_assoc in Hc. apply chain_app in Hc as [_ (_ & Hp & _)].
      rewrite (st_head _ _ _ _ Hst1), Hp. unfold ensure. rewrite bool_decide_true by done. cbv [mret M_ret]. exact E2.
    + destruct res as [[]|e]; [done|]. destruct Hres as (? & Hnone & ?). split_and!; [done|by apply Hnone|done].
Qed.

(** ** Irreversible blocks leave the fork database *)

Lemma branch_loop_chain f r hf : wf num_of f r hf → ∀ l b v fuel, chain (index f) r (b :: l) → (length l < fuel)%nat →
  branch_loop fuel (index f) (Some (MkBlock b v)) = Some (b :: l).
Proof.
  intros Hwf. induction l as [|a l IH]; intros b v [|fuel] Hc Hfuel; try (cbn in Hfuel; lia); cbn [branch_loop state];
    destruct Hc as (_ & -> & Hc); cbn [top].
  - rewrite (wf_root_out _ _ _ _ Hwf). by destruct fuel.
  - pose proof Hc as ([v' ->] & _). rewrite (IH a v' fuel Hc) by (cbn in Hfuel; lia). done.
Qed.

(** The blocks of a chain up to a number are its end. *)
Lemma chain_filter f r hf n : wf num_of f r hf → ∀ l, chain (index f) r l →
  ∃ l1 l2, l = l1 ++ l2 ∧ filter (λ b, num b ≤ n) l = l2 ∧ (∀ b, b ∈ l1 → n < num b) ∧ (∀ b, b ∈ l2 → num b ≤ n).
Proof.
  intros Hwf. induction l as [|b l IH]; intros Hc.
  { exists [], []. split_and!; [done|done|by intros b Hb%elem_of_nil..]. }
  destruct (decide (num b ≤ n)) as [Hb|Hb].
  - assert (∀ b', b' ∈ b :: l → num b' ≤ n) as Hall.
    { intros b' Hb'. pose proof (chain_elem_num _ _ _ Hwf _ _ Hc Hb') as [_ Hle]. cbn in Hle. lia. }
    exists [], (b :: l). split_and!; [done| |by intros b' Hb'%elem_of_nil|done].
    apply filter_all. intros x Hx. by apply Hall.
  - destruct Hc as (_ & _ & Hc). destruct (IH Hc) as (l1 & l2 & -> & Hf & H1 & H2). exists (b :: l1), l2.
    rewrite filter_cons_False by done. split_and!; [done|done| |done].
    intros b' [->|Hb']%elem_of_cons; [lia|by apply H1].
Qed.

(** What the loop does for a block, without the fork database *)
Definition log_one (c : controller) (b : bhs) : controller :=
  set_reversible (filter (λ p, num b < p.1) (reversible_blocks c)) (set_blog (blog c ++ [b]) (set_db (commit (num b) (db c)) c)).

(** Blocks with consecutive numbers after the log *)
Definition continues (c : controller) (m : list bhs) : Prop :=
  ∀ k b, m !! k = Some b → num b = first_block_num c + Z.of_nat (length (blog c)) + Z.of_nat k.

Lemma log_blocks_eval m : ∀ c root_id, continues c m →
  log_blocks root_id m c = advance_to (default root_id (bhs_id <$> last m)) (foldl log_one c m).
Proof.
  induction m as [|b m IH]; intros c root_id Hm; [done|]. cbn [log_blocks foldl].
  assert (num b = first_block_num c + Z.of_nat (length (blog c))) as Hb by (rewrite (Hm 0%nat b eq_refl); lia).
  unfold catch, append_block, trim_reversible. cbv [mbind M_bind update ask]. rewrite decide_False by done.
  cbn -[log_blocks]. unfold ensure. rewrite (proj2 (Z.eqb_eq _ _)) by lia. cbv [mret M_ret update]. cbn -[log_blocks].
  change (set_reversible _ _) with (log_one c b). rewrite IH.
  - f_equal. rewrite last_cons. by destruct (last m).
  - intros k b' Hb'. rewrite (Hm (Datatypes.S k) b' Hb'). cbn. rewrite length_app. cbn. lia.
Qed.

Lemma log_all_spec m : ∀ c, let c' := foldl log_one c m in
  fork_db c' = fork_db c ∧ chain_head c' = chain_head c ∧ pending c' = pending c ∧
  first_block_num c' = first_block_num c ∧ blog c' = blog c ++ m ∧ contents (db c') = contents (db c) ∧
  revision (db c') = revision (db c) ∧ replay_head_time c' = replay_head_time c.
Proof.
  induction m as [|b m IH]; intros c; cbn [foldl]; [by rewrite app_nil_r|].
  destruct (IH (log_one c b)) as (-> & -> & -> & -> & -> & -> & -> & ->). cbn.
  rewrite commit_contents, commit_revision, <-app_assoc. done.
Qed.

Lemma log_all_trim m b : ∀ c, (∀ x, x ∈ m → num x < num b) →
  undo_states (db (foldl log_one c (m ++ [b]))) = take (Z.to_nat (revision (db c) - num b)) (undo_states (db c)) ∧
  ∀ n x, reversible_blocks (foldl log_one c (m ++ [b])) !! n = Some x ↔ reversible_blocks c !! n = Some x ∧ num b < n.
Proof.
  induction m as [|a m IH]; intros c Hm; cbn [app foldl].
  - cbn. rewrite commit_undo. split; [done|]. intros n x. by rewrite map_lookup_filter_Some.
  - destruct (IH (log_one c a)) as [-> Hr]; [intros x Hx; apply Hm; by right|].
    specialize (Hm a ltac:(by left)). cbn. rewrite commit_undo, commit_revision, take_take. split; [f_equal; lia|].
    intros n x. rewrite Hr. cbn. rewrite map_lookup_filter_Some. cbn. split; [tauto|]. intros [? ?]. split_and!; [done|lia|done].
Qed.

(** The log ends with the root. *)
Record log_ok (c : controller) (r : bhs) : Prop := {
  lo_next : num r + 1 = first_block_num c + Z.of_nat (length (blog c));
  lo_last b : last (blog c) = Some b → bhs_id b = bhs_id r ∧ num b = num r }.

Lemma descends_above (i : index_type) x y : descends i x y → x ≠ y → above i x y.
Proof. intros Hd Hne. apply rtc_tc in Hd as [?|?]; done. Qed.

(** The chain above a new root, and the tree *)
Lemma advance_root_chain f r hf base l1 b l2 mid u2 : wf num_of f r hf → tree f r base → chain (index f) r (l1 ++ b :: l2) →
  Forall (valid_in (index f)) (l1 ++ b :: l2) → hf = top b l1 →
  follows r base (b :: l2) mid u2 →
  ∃ f', advance_root f (bhs_id b) = Some (f', Ok tt) ∧ wf num_of f' b hf ∧ chain (index f') b l1 ∧
    Forall (valid_in (index f')) l1 ∧ index f' ⊆ index f ∧ tree f' b mid.
Proof.
  intros Hwf Ht Hc Hv Hhf Hmid.
  assert (valid_in (index f) b) as Hb by (rewrite Forall_app, Forall_cons in Hv; tauto).
  destruct (advance_root_outcome num_of f r hf (bhs_id b) _ Hwf Hb eq_refl) as (f' & res & Ha & Hiff & Hres).
  assert (∀ x, x ∈ l1 → above (index f) (bhs_id b) (bhs_id x)) as Habove.
  { intros x Hx. apply list_elem_of_split in Hx as (m1 & m2 & ->). rewrite <-app_assoc in Hc.
    apply chain_app in Hc as [_ Hc]. apply descends_above.
    - pose proof (chain_descends (index f) r (x :: m2) b l2 Hc) as Hd. exact Hd.
    - intros E. cbn [app] in Hc. pose proof (chain_num _ _ _ Hwf _ Hc) as [N1 N2]. destruct Hc as (_ & _ & Hc).
      apply chain_app in Hc as [_ Hc]. pose proof (chain_num _ _ _ Hwf _ Hc) as [N3 N4]. cbn in N1, N2, N3, N4.
      rewrite length_app in N1. cbn in N1. rewrite <-E in N2. lia. }
  assert (res = Ok tt) as ->.
  { apply Hiff. rewrite Hhf. destruct l1 as [|x l1]; [by left|right]. apply Habove. by left. }
  destruct (Hres eq_refl) as (Er & Eh & Hsub & Hin). cbn in Er. exists f'.
  destruct (advance_root_wf num_of _ _ _ _ _ Hwf Ha) as [r' Hwf'].
  assert (r' = b) as -> by (pose proof (wf_root _ _ _ _ Hwf'); congruence).
  assert (∀ x, x ∈ l1 → index f' !! bhs_id x = index f !! bhs_id x) as Hsame.
  { intros x Hx. specialize (Habove x Hx). apply Hin in Habove as [s Hs]. rewrite Hs. symmetry. by eapply lookup_weaken. }
  split_and!; [done|done| | |done|].
  - apply chain_app in Hc as [Hc _]. eapply chain_mono; [|exact Hc]. intros x Hx v Hv'. exists v. by rewrite Hsame.
  - apply Forall_app in Hv as [Hv _]. rewrite Forall_forall in Hv |- *. intros x Hx. unfold valid_in. rewrite Hsame by done. by apply Hv.
  - assert (∀ m, chain (index f') b m → chain (index f) r (m ++ b :: l2)) as Hup.
    { intros m Hm. apply chain_app in Hc as [_ Hc]. apply chain_app. split; [|done].
      eapply chain_mono; [|exact Hm]. intros x _ v Hx. exists v. by eapply lookup_weaken. }
    split.
    + intros x m Hm. pose proof (tr_lib _ _ _ Ht x (m ++ b :: l2) (Hup _ Hm)) as Hl. by rewrite top_app in Hl.
    + intros x m Hm Hx. apply (lookup_weaken _ _ _ _ Hx) in Hsub as Hx'.
      destruct (tr_valid _ _ _ Ht x (m ++ b :: l2) (Hup _ Hm) Hx') as [Hall (cur & w & Hw)]. split.
      * destruct Hm as (_ & _ & Hm). apply Forall_app in Hall as [Hall _]. rewrite Forall_forall in Hall |- *. intros y Hy.
        specialize (Hall y Hy). destruct (chain_elem _ _ _ _ Hm Hy) as [v Hv']. pose proof (lookup_weaken _ _ _ _ Hv' Hsub) as Hv2.
        unfold valid_in in *. rewrite Hall in Hv2. by injection Hv2 as <-.
      * change (x :: m ++ b :: l2) with ((x :: m) ++ b :: l2) in Hw. apply follows_app in Hw as (mid' & w1 & w2 & -> & _ & Hw2 & Hw1).
        destruct (follows_det _ _ _ _ _ _ _ Hw2 Hmid) as [-> _]. eauto.
Qed.

Lemma chain_rev_num f r hf l k b : wf num_of f r hf → chain (index f) r l → rev l !! k = Some b →
  num b = num r + 1 + Z.of_nat k.
Proof.
  intros Hwf. induction l as [|a l IH]; intros Hc; [done|]. cbn [rev]. pose proof Hc as (_ & _ & Hc').
  intros [Hk|[Hlen Hk]]%lookup_app_Some; [by apply IH|]. apply list_lookup_singleton_Some in Hk as [Hk <-].
  rewrite length_rev in *. pose proof (chain_num _ _ _ Hwf _ Hc) as [E _]. cbn in E. lia.
Qed.

Lemma fetch_branch_chain f r hf l n : wf num_of f r hf → chain (index f) r l →
  fetch_branch f (bhs_id (top r l)) n = Some (filter (λ b, num b ≤ n) l).
Proof.
  intros Hwf Hc. unfold fetch_branch, branch, get_block. destruct l as [|b l]; cbn [top].
  - by rewrite (wf_root_out _ _ _ _ Hwf).
  - pose proof Hc as ([v Hv] & _). rewrite Hv. cbn [state].
    pose proof (chain_num _ _ _ Hwf _ Hc) as [E _]. cbn in E. destruct (wf_root_num _ _ _ _ Hwf).
    rewrite (branch_loop_chain _ _ _ Hwf l b v); [done|done|lia].
Qed.

(** The checks of [log_irreversible] and its loop *)
Lemma log_irreversible_eval c r base l : at_chain c r base l (top r l) → log_ok c r →
  log_irreversible c = if lib (top r l) <=? num r then Some (c, Ok tt)
                       else log_blocks (bhs_id r) (rev (filter (λ b, num b ≤ lib (top r l)) l)) c.
Proof.
  intros [Hs Hv Ht Hwf] [Hnext Hlast]. unfold log_irreversible. cbv [mbind M_bind ask]. rewrite (wf_root _ _ _ _ Hwf).
  rewrite decide_False by done. rewrite (wf_head _ _ _ _ Hwf), (fetch_branch_chain _ _ _ l _ Hwf (st_chain _ _ _ _ Hs)).
  destruct (last (blog c)) as [b|] eqn:El; unfold ensure.
  - destruct (Hlast b eq_refl) as [E1 E2]. rewrite bool_decide_true, E2 by done. cbn. by destruct (lib _ <=? num r).
  - apply last_None in El. rewrite El in Hnext. cbn in Hnext. rewrite (proj2 (Z.eqb_eq _ _)) by lia.
    replace (first_block_num c - 1) with (num r) by lia. cbn. by destruct (lib _ <=? num r).
Qed.

(** The state of the root moves up the chain to the irreversible block. *)
Lemma log_irreversible_spec c r base l : at_chain c r base l (top r l) → log_ok c r →
  ∃ c' l1 l2 base' u2, l = l1 ++ l2 ∧ log_irreversible c = Some (c', Ok tt) ∧ follows r base l2 base' u2 ∧
    at_chain c' (top r l2) base' l1 (top r l) ∧ log_ok c' (top r l2) ∧ blog c' = blog c ++ rev l2 ∧
    contents (db c') = contents (db c) ∧ index (fork_db c') ⊆ index (fork_db c).
Proof.
  intros Ha Hlog. pose proof Ha as [Hs Hv Ht Hwf]. rewrite (log_irreversible_eval _ _ _ _ Ha Hlog).
  assert (∀ c1, c1 = c → ∃ l1 l2 base' u2, l = l1 ++ l2 ∧ follows r base l2 base' u2 ∧
    at_chain c1 (top r l2) base' l1 (top r l) ∧ log_ok c1 (top r l2) ∧ blog c1 = blog c ++ rev l2 ∧
    contents (db c1) = contents (db c) ∧ index (fork_db c1) ⊆ index (fork_db c)) as Hsame.
  { intros c1 ->. exists l, [], base, []. rewrite !app_nil_r. done. }
  destruct (lib (top r l) <=? num r).
  { destruct (Hsame c eq_refl) as (l1 & l2 & base' & u2 & ? & ? & ?). exists c, l1, l2, base', u2. done. }
  destruct (chain_filter _ _ _ (lib (top r l)) Hwf l (st_chain _ _ _ _ Hs)) as (l1 & l2 & El & -> & _ & _).
  pose proof (st_chain _ _ _ _ Hs) as Hc. rewrite El in Hc. apply chain_app in Hc as Hc2. destruct Hc2 as [Hc1 Hc2].
  rewrite log_blocks_eval.
  2:{ intros k b Hk. rewrite (chain_rev_num _ _ _ _ _ _ Hwf Hc2 Hk). destruct Hlog. lia. }
  destruct l2 as [|b l2].
  { cbn. unfold advance_to. cbv [mbind M_bind read]. rewrite (wf_root _ _ _ _ Hwf), decide_True by done.
    destruct (Hsame c eq_refl) as (m1 & m2 & base' & u2 & ? & ? & ?). exists c, m1, m2, base', u2. done. }
  cbn [rev]. rewrite last_snoc. cbn [fmap option_fmap option_map from_option]. unfold Datatypes.id.
  set (c1 := foldl log_one c (rev l2 ++ [b])).
  destruct (log_all_spec (rev l2 ++ [b]) c) as (Ef & Eh & Ep & En & Eb & Ec & Er & Elive). fold c1 in Ef, Eh, Ep, En, Eb, Ec, Er, Elive.
  pose proof Hc2 as Hnum. apply (chain_num _ _ _ Hwf) in Hnum as [Nb _]. cbn in Nb.
  destruct (log_all_trim (rev l2) b c) as [Eu Erev].
  { intros x Hx. rewrite rev_elem in Hx. destruct Hc2 as (_ & _ & Hc3).
    pose proof (chain_elem_num _ _ _ Hwf _ _ Hc3 Hx). pose proof (chain_num _ _ _ Hwf _ Hc3) as [? _]. lia. }
  fold c1 in Eu, Erev. pose proof (st_follows _ _ _ _ Hs) as Hf. rewrite El in Hf.
  apply follows_app in Hf as (mid & u1 & u2 & Eu12 & Hlen & Hf2 & Hf1).
  destruct (advance_root_chain _ _ _ _ l1 b l2 mid u2 Hwf Ht Hc) as (f' & Hadv & Hwf' & Hc' & Hv' & Hsub & Ht').
  { by rewrite <-El. } { by rewrite El, top_app. } { done. }
  pose proof (st_chain _ _ _ _ Hs) as Hcl. apply (chain_num _ _ _ Hwf) in Hcl as [Nl _].
  pose proof (f_equal length El) as Hll. rewrite length_app in Hll. cbn in Hll.
  exists (set_fork_db f' c1), l1, (b :: l2), mid, u2. cbn [top]. split_and!; [done| |done| | |done|done|done].
  - unfold advance_to, fork_advance_root. cbv [mbind M_bind read]. rewrite Ef, (wf_root _ _ _ _ Hwf).
    rewrite decide_False; [cbn beta; by rewrite Ef, Hadv|]. intros E. destruct Hc2 as ([v Hb] & _). rewrite E, (wf_root_out _ _ _ _ Hwf) in Hb. done.
  - split; [|done..]. split; cbn; [rewrite Ep; apply (st_pending _ _ _ _ Hs)|by eexists|done| | | | |rewrite Elive; apply (st_live _ _ _ _ Hs)].
    + rewrite Eh, (st_head _ _ _ _ Hs), El, top_app. done.
    + rewrite Ec, Eu, (st_revision _ _ _ _ Hs), (st_head _ _ _ _ Hs), Eu12, take_app_length'; [done|lia].
    + rewrite Er, Eh. apply (st_revision _ _ _ _ Hs).
    + intros n x. rewrite Erev, (st_reversible _ _ _ _ Hs), El, elem_of_app. split.
      * intros [[[Hx|Hx] <-] Hlt]; [done|]. pose proof (chain_elem_num _ _ _ Hwf _ _ Hc2 Hx). cbn in *. lia.
      * intros [Hx <-]. split; [tauto|]. pose proof (chain_elem_num _ _ _ Hwf' _ _ Hc' Hx). lia.
  - split; cbn; [|intros b0]; rewrite Eb.
    + rewrite En, !length_app, length_rev. cbn. destruct Hlog. lia.
    + rewrite app_assoc, last_snoc. by intros [= <-].
Qed.

(** ** Controllers in sync *)

(** The head is at its chain, no block of the fork database is preferred to it, and the
    log ends at the root. *)
Record in_sync (c : controller) (r : bhs) (base : S) (l : list bhs) : Prop := {
  is_at : ∃ hf, at_chain c r base l hf;
  is_log : log_ok c r;
  is_root : prev r ≠ bhs_id r;
  is_best id s : index (fork_db c) !! id = Some s → first_preferred (state s) (chain_head c) = false }.

Lemma chain_lib f r base b l : tree f r base → chain (index f) r (b :: l) → lib r ≤ lib b.
Proof.
  intros Ht. revert b. induction l as [|a l IH]; intros b Hc; pose proof (tr_lib _ _ _ Ht _ _ Hc) as Hl; [done|].
  destruct Hc as (_ & _ & Hc). specialize (IH a Hc). cbn in Hl. lia.
Qed.

Lemma root_not_preferred f r hf base l : wf num_of f r hf → tree f r base → chain (index f) r l →
  first_preferred r (top r l) = false.
Proof.
  intros Hwf Ht Hc. apply first_preferred_false. destruct l as [|b l]; cbn; [lia|].
  pose proof (chain_lib _ _ _ _ _ Ht Hc). pose proof (chain_num _ _ _ Hwf _ Hc) as [E _]. cbn in E. lia.
Qed.

(** The head of the fork database may be another block of the same rank. *)
Lemma same_rank c r base l hf : at_chain c r base l hf →
  (∀ id s, index (fork_db c) !! id = Some s → validated s = true → first_preferred (state s) (top r l) = false) →
  lib hf = lib (top r l) ∧ num hf = num (top r l).
Proof.
  intros [Hs Hv Ht Hwf] Hbest. pose proof (st_chain _ _ _ _ Hs) as Hc.
  assert (first_preferred (top r l) hf = false) as H1.
  { destruct l as [|b l]; cbn.
    - destruct (wf_head_in _ _ _ _ Hwf) as [->|Hh]; [apply first_preferred_false; lia|].
      destruct (block_chain _ _ _ Hwf _ _ Hh) as [m Hm]. apply (root_not_preferred _ _ _ _ _ Hwf Ht Hm).
    - apply Forall_cons in Hv as [Hb _]. by apply (wf_best _ _ _ _ Hwf _ _ Hb). }
  assert (first_preferred hf (top r l) = false) as H2.
  { destruct (wf_head_in _ _ _ _ Hwf) as [->|Hh]; [by eapply root_not_preferred|]. by apply (Hbest _ _ Hh). }
  apply first_preferred_false in H1, H2. lia.
Qed.

(** A new block: its identifier has its number, and its irreversible number is not below
    that of the block it is built on.  The latter can fail when a schedule is promoted, see
    [irreversible_drops_after_promotion]; [lower_lib_not_adopted] shows the effect. *)
Definition block_ok (f : fork_database) (r b : bhs) : Prop :=
  well_numbered num_of b ∧ ∀ p, get_block_header f r (prev b) = Some p → lib p ≤ lib b.

Lemma fork_add_spec f r hf b : wf num_of f r hf → block_ok f r b →
  match add f (MkBlock b false) false with
  | Ok f' => index f !! bhs_id b = None ∧ index f' = <[bhs_id b := MkBlock b false]> (index f) ∧ bhs_id b ≠ bhs_id r ∧
      (∃ p, get_block_header f r (prev b) = Some p) ∧ ∃ hf', wf num_of f' r hf'
  | Throw _ => True
  end.
Proof.
  intros Hwf [Hn _]. destruct (add f (MkBlock b false) false) as [f'|] eqn:Ha; [|done].
  destruct (add_impl_wf num_of _ _ _ (MkBlock b false) _ _ _ _ Hwf Hn Ha) as [hf' Hwf']. unfold add, add_impl in Ha.
  rewrite (wf_root _ _ _ _ Hwf) in Ha. cbn [state] in Ha. destruct (get_block_header f r (prev b)) as [p|]; [|done].
  cbn in Ha. destruct (index f !! bhs_id b) as [|]; [done|].
  assert (index f' = <[bhs_id b := MkBlock b false]> (index f)) as Ei by (by injection Ha as <-).
  split_and!; [done|done| |by eexists|by eexists].
  intros E. pose proof (wf_root_out _ _ _ _ Hwf') as Ho. by rewrite Ei, <-E, lookup_insert_eq in Ho.
Qed.

(** The chains after a block was added *)
Section added.
Context (f f' : fork_database) (r hf hf' : bhs) (b : bhs).
Context (Hwf : wf num_of f r hf) (Hwf' : wf num_of f' r hf') (Hok : block_ok f r b).
Context (Hnew : index f !! bhs_id b = None) (Hidx : index f' = <[bhs_id b := MkBlock b false]> (index f)).
Context (Hroot : bhs_id b ≠ bhs_id r).

Lemma added_chain l : chain (index f) r l → chain (index f') r l.
Proof.
  apply chain_mono. intros x _ v Hx. exists v. rewrite Hidx, lookup_insert_ne; [done|]. congruence.
Qed.

(** The new block is only at the top of a chain. *)
Lemma added_below x l : chain (index f') r (x :: l) → chain (index f) r l ∧ b ∉ l ∧ (x = b ∨ chain (index f) r (x :: l)).
Proof.
  intros Hc.
  assert (∀ l, chain (index f') r l → bhs_id (top r l) ≠ bhs_id b → chain (index f) r l) as Hkeep.
  { clear Hc x l. induction l as [|x l IH]; intros Hc Hx; [done|]. cbn in Hx. destruct Hc as ([v Hv] & Hp & Hc).
    rewrite Hidx, lookup_insert_ne in Hv by done. split_and!; [by eexists|done|]. apply IH; [done|]. rewrite <-Hp.
    destruct (wf_linked _ _ _ _ Hwf _ _ Hv) as [E|[s E]]; cbn in E; [by rewrite E|congruence]. }
  assert (bhs_id (top r l) ≠ bhs_id b) as Htop.
  { destruct Hc as ([v Hv] & Hp & Hc). rewrite <-Hp. destruct (decide (bhs_id b = bhs_id x)) as [E|E].
    - rewrite Hidx, <-E, lookup_insert_eq in Hv. injection Hv as <- _. destruct Hok as [[N1 N2] _]. intros E'.
      rewrite E' in N2. lia.
    - rewrite Hidx, lookup_insert_ne in Hv by done.
      destruct (wf_linked _ _ _ _ Hwf _ _ Hv) as [E'|[s E']]; cbn in E'; [by rewrite E'|congruence]. }
  pose proof Hc as (_ & _ & Hc'). pose proof (Hkeep l Hc' Htop) as Hl. split; [done|]. split.
  - intros Hb. destruct (chain_elem _ _ _ _ Hl Hb) as [v Hv]. congruence.
  - destruct (decide (bhs_id x = bhs_id b)) as [E|E]; [left|right; by apply Hkeep].
    destruct Hc as ([v Hv] & _). rewrite Hidx, E, lookup_insert_eq in Hv. by injection Hv.
Qed.

Lemma added_tree base : tree f r base → tree f' r base.
Proof.
  intros Ht. split.
  - intros x l Hc. destruct (added_below x l Hc) as (Hl & _ & [->|Hx]); [|by apply (tr_lib _ _ _ Ht)].
    destruct Hc as (_ & Hp & _). apply Hok. rewrite Hp. unfold get_block_header, get_block. case_decide as E.
    + destruct l as [|a l]; [done|]. destruct Hl as ([v Hv] & _). cbn in E. rewrite <-E, (wf_root_out _ _ _ _ Hwf) in Hv. done.
    + destruct l as [|a l]; [done|]. destruct Hl as ([v Hv] & _). cbn. by rewrite Hv.
  - intros x l Hc Hx. unfold valid_in in Hx. rewrite Hidx in Hx. apply lookup_insert_Some in Hx as [[_ ?]|[Hne Hx]]; [congruence|].
    destruct (added_below x l Hc) as (Hl & Hb & [->|Hxl]); [done|].
    destruct (tr_valid _ _ _ Ht x l Hxl Hx) as [Hall ?]. split; [|done]. rewrite Hidx.
    eapply Forall_impl; [exact Hall|]. intros y Hy. unfold valid_in in *. rewrite lookup_insert_ne; [done|]. congruence.
Qed.
End added.

(** *** The block to switch to *)

Lemma lower_bound_false_spec (i : index_type) : match lower_bound_false i with
  | Some u => (∃ id, i !! id = Some u) ∧ validated u = false ∧
      ∀ id s, i !! id = Some s → validated s = false → first_preferred (state s) (state u) = false
  | None => ∀ id s, i !! id = Some s → validated s = true
  end.
Proof.
  unfold lower_bound_false. pose proof (first_of_spec (filter (λ b, validated b = false) (map_to_list i).*2)) as Hf.
  assert (∀ id s, i !! id = Some s → s ∈ (map_to_list i).*2) as Hin.
  { intros id s Hs. apply list_elem_of_fmap. exists (id, s). by rewrite elem_of_map_to_list. }
  destruct (first_of _) as [u|].
  - destruct Hf as [[Hu Hi]%list_elem_of_filter Hmin]. apply list_elem_of_fmap in Hi as ([id u'] & -> & Hi%elem_of_map_to_list).
    split_and!; [by exists id|done|]. intros id' s Hs Hv. apply Hmin; [|by rewrite Hv, Hu].
    apply list_elem_of_filter. split; [done|by eapply Hin].
  - intros id s Hs. destruct (validated s) eqn:Hv; [done|]. exfalso.
    assert (s ∈ filter (λ b, validated b = false) (map_to_list i).*2) as Hs'
      by (apply list_elem_of_filter; split; [done|by eapply Hin]).
    rewrite Hf in Hs'. by apply elem_of_nil in Hs'.
Qed.

(** After a block was added, it is the one to switch to, or the head of the fork database
    is. *)
Lemma new_head_spec (f : fork_database) (hf b h : bhs) : head f = Some hf → index f !! bhs_id b = Some (MkBlock b false) →
  lib hf = lib h ∧ num hf = num h →
  (∀ id s, index f !! id = Some s → state s = b ∨ first_preferred (state s) h = false) →
  pending_head f = Some (Some (if first_preferred b hf then b else hf)).
Proof.
  intros Hh Hb Hrank Hbest. unfold pending_head. rewrite Hh. pose proof (lower_bound_false_spec (index f)) as Hl.
  destruct (lower_bound_false (index f)) as [u|]; [|by apply Hl in Hb]. destruct Hl as ([id Hu] & _ & Hmin). cbn.
  specialize (Hmin _ _ Hb eq_refl). cbn in Hmin. destruct (Hbest _ _ Hu) as [->|Hpu]; [done|].
  assert (first_preferred (state u) hf = false) as -> by (rewrite first_preferred_false in *; lia).
  assert (first_preferred b hf = false) as -> by (rewrite first_preferred_false in *; lia). done.
Qed.

(** ** Pushing a block *)

(** Blocks over [r], the last one first, each with the next number and an irreversible
    number that does not fall *)
Fixpoint linked (r : bhs) (l : list bhs) : Prop :=
  match l with
  | [] => True
  | b :: l => prev b = bhs_id (top r l) ∧ well_numbered num_of b ∧ lib (top r l) ≤ lib b ∧ linked r l
  end.

Lemma linked_app r l1 l2 : linked r (l1 ++ l2) ↔ linked (top r l2) l1 ∧ linked r l2.
Proof. induction l1 as [|b l1 IH]; cbn [app linked]; [tauto|]. rewrite IH, top_app. tauto. Qed.

Lemma chain_linked f r hf base l : wf num_of f r hf → tree f r base → chain (index f) r l → linked r l.
Proof.
  intros Hwf Ht. induction l as [|b l IH]; [done|]. intros Hc. pose proof (tr_lib _ _ _ Ht _ _ Hc) as Hl.
  destruct Hc as ([v Hv] & Hp & Hc). split_and!; [done|apply (wf_numbered _ _ _ _ Hwf _ _ Hv)|done|by apply IH].
Qed.

(** The log has grown by blocks of the chain, from the state of the old root. *)
Definition advanced (c : controller) (r : bhs) (base : S) (c' : controller) : Prop :=
  ∃ base' l' logged u, in_sync c' (top r logged) base' l' ∧ blog c' = blog c ++ rev logged ∧
    follows r base logged base' u ∧ linked r logged.

Lemma log_advances c r base l : at_chain c r base l (top r l) → log_ok c r → prev r ≠ bhs_id r →
  (∀ id s, index (fork_db c) !! id = Some s → first_preferred (state s) (top r l) = false) →
  ∃ c', log_irreversible c = Some (c', Ok tt) ∧ advanced c r base c' ∧ chain_head c' = top r l.
Proof.
  intros Ha Hlog Hr Hbest.
  destruct (log_irreversible_spec _ _ _ _ Ha Hlog) as (c' & l1 & l2 & base' & u2 & -> & E & Hf & Ha' & Hlog' & Eb & _ & Hsub).
  exists c'. split; [done|]. split; [|by rewrite (st_head _ _ _ _ (ac_settled _ _ _ _ _ Ha')), <-top_app].
  exists base', l1, l2, u2. split_and!; [|done|done|].
  2:{ pose proof (st_chain _ _ _ _ (ac_settled _ _ _ _ _ Ha)) as Hc. apply chain_app in Hc as [_ Hc].
      by eapply chain_linked; [apply (ac_wf _ _ _ _ _ Ha)|apply (ac_tree _ _ _ _ _ Ha)|]. }
  split.
  - by eexists.
  - done.
  - destruct l2 as [|b l2]; [done|]. cbn. destruct Ha as [Hs _ _ Hwf]. pose proof (st_chain _ _ _ _ Hs) as Hc.
    apply chain_app in Hc as [_ ([v Hv] & _)]. destruct (wf_numbered _ _ _ _ Hwf _ _ Hv) as [[N1 N2] _].
    cbn in N1, N2. intros E'. rewrite E' in N2. lia.
  - intros id s Hs. rewrite (st_head _ _ _ _ (ac_settled _ _ _ _ _ Ha')), <-top_app. apply (Hbest id).
    by eapply lookup_weaken.
Qed.

(** The controller after the block entered the fork database *)
Record entered (c : controller) (r : bhs) (base : S) (l : list bhs) (hf b : bhs) : Prop := {
  en_at : at_chain c r base l hf;
  en_block : index (fork_db c) !! bhs_id b = Some (MkBlock b false);
  en_rank : lib hf = lib (top r l) ∧ num hf = num (top r l);
  en_best id s : index (fork_db c) !! id = Some s → state s = b ∨ first_preferred (state s) (top r l) = false;
  en_top x m : chain (index (fork_db c)) r (x :: m) → b ∉ m;
  en_out : b ∉ l ∧ b ≠ r;
  en_log : log_ok c r;
  en_root : prev r ≠ bhs_id r }.

Lemma entered_spec c f' r base l b : in_sync c r base l → block_ok (fork_db c) r b →
  add (fork_db c) (MkBlock b false) false = Ok f' → ∃ hf, entered (set_fork_db f' c) r base l hf b.
Proof.
  intros [[hf Ha] Hlog Hr Hbest] Hok Hadd. pose proof Ha as [Hs Hv Ht Hwf]. pose proof (st_chain _ _ _ _ Hs) as Hc.
  pose proof (fork_add_spec _ _ _ _ Hwf Hok) as Hsp. rewrite Hadd in Hsp. destruct Hsp as (Hnew & Hidx & Hnr & _ & hf' & Hwf').
  rewrite (st_head _ _ _ _ Hs) in Hbest.
  assert (∀ x, valid_in (index (fork_db c)) x → valid_in (index f') x) as Hvv.
  { intros x Hx. unfold valid_in. rewrite Hidx, lookup_insert_ne; [done|]. unfold valid_in in Hx. congruence. }
  assert (at_chain (set_fork_db f' c) r base l hf') as Ha'.
  { split; cbn; [|eapply Forall_impl; [exact Hv|exact Hvv]|eapply (added_tree (fork_db c)); eauto|done].
    destruct Hs. split; cbn; try done; [by eexists|]. eapply (added_chain (fork_db c)); eauto. }
  assert (∀ id s, index f' !! id = Some s → s = MkBlock b false ∨ first_preferred (state s) (top r l) = false) as Hb'.
  { intros id s Hs'. rewrite Hidx in Hs'. apply lookup_insert_Some in Hs' as [[_ <-]|[_ Hs']]; [by left|right]. by apply (Hbest id). }
  exists hf'. split; cbn; [done|by rewrite Hidx, lookup_insert_eq| | | | |by destruct Hlog|done].
  - eapply same_rank; [exact Ha'|]. cbn. intros id s Hs' Hvs. destruct (Hb' _ _ Hs') as [->|]; done.
  - intros id s Hs'. destruct (Hb' _ _ Hs') as [->|]; auto.
  - intros x m Hm. by eapply (added_below (fork_db c) f' r hf b Hwf Hok) in Hm as (_ & ? & _).
  - split; [|by intros ->]. intros Hbl. destruct (chain_elem _ _ _ _ Hc Hbl) as [v Hv']. congruence.
Qed.

(** What pushing a block that entered the fork database does *)
Definition outcome (c : controller) (r : bhs) (base : S) (l : list bhs) (b : bhs) (c' : controller) (res : result exn unit) : Prop :=
  match res with
  | Ok _ => advanced c r base c' ∧ first_preferred b (chain_head c') = false
  | Throw _ => in_sync c' r base l ∧ blog c' = blog c ∧
      (state <$> index (fork_db c')) ⊆ (state <$> index (fork_db c)) ∧ index (fork_db c') !! bhs_id b = None
  end.

Lemma log_ok_same c c' r : same_log c c' → log_ok c r → log_ok c' r.
Proof. intros [E1 E2] [Hn Hl]. split; rewrite ?E1, ?E2; done. Qed.

(** The chain has changed, and the irreversible blocks are logged. *)
Lemma switched c c1 r base l hf b ln : entered c r base l hf b → same_log c c1 →
  same_states (index (fork_db c)) (index (fork_db c1)) → at_chain c1 r base ln (top r ln) →
  top r ln = (if first_preferred b hf then b else hf) →
  ∃ c', log_irreversible c1 = Some (c', Ok tt) ∧ outcome c r base l b c' (Ok tt).
Proof.
  intros He Hlog Hss Ha Htop. destruct (log_advances c1 r base ln Ha) as (c' & E & Hadv & Hhd).
  - eapply log_ok_same; [done|apply (en_log _ _ _ _ _ _ He)].
  - apply (en_root _ _ _ _ _ _ He).
  - intros id s Hs. assert (∃ s0, index (fork_db c) !! id = Some s0 ∧ state s0 = state s) as (s0 & Hs0 & <-).
    { assert ((state <$> index (fork_db c)) !! id = Some (state s)) as Hl by (by rewrite Hss, lookup_fmap, Hs).
      rewrite lookup_fmap in Hl. by apply fmap_Some in Hl as (s0 & ? & ?); exists s0. }
    destruct (en_rank _ _ _ _ _ _ He) as [R1 R2]. rewrite Htop.
    destruct (en_best _ _ _ _ _ _ He _ _ Hs0) as [->|Hp]; destruct (first_preferred b hf) eqn:Eb;
      rewrite ?first_preferred_true, ?first_preferred_false in *; lia.
  - exists c'. split; [done|]. destruct Hlog as [Elog _]. unfold outcome, advanced in *. rewrite Elog in Hadv.
    split; [done|]. rewrite Hhd, Htop. destruct (first_preferred b hf) eqn:Eb; [|done]. apply first_preferred_false. lia.
Qed.

(** The chain is the old one, and the new block is gone. *)
Lemma restored c c' r base l hf b : entered c r base l hf b → same_log c c' →
  (state <$> index (fork_db c')) ⊆ (state <$> index (fork_db c)) → index (fork_db c') !! bhs_id b = None →
  at_chain c' r base l hf → ∀ e, outcome c r base l b c' (Throw e).
Proof.
  intros He Hlog Hsub Hnone Ha e. unfold outcome. split_and!; [|apply Hlog|done|done]. split.
  - by eexists.
  - eapply log_ok_same; [done|apply (en_log _ _ _ _ _ _ He)].
  - apply (en_root _ _ _ _ _ _ He).
  - intros id s Hs. rewrite (st_head _ _ _ _ (ac_settled _ _ _ _ _ Ha)).
    assert ((state <$> index (fork_db c)) !! id = Some (state s)) as Hs0.
    { eapply lookup_weaken; [|exact Hsub]. by rewrite lookup_fmap, Hs. }
    rewrite lookup_fmap in Hs0. apply fmap_Some in Hs0 as (s0 & Hs0 & E). rewrite E.
    destruct (en_best _ _ _ _ _ _ He _ _ Hs0) as [Eb|Hp]; [|done]. exfalso.
    pose proof (wf_id _ _ _ _ (ac_wf _ _ _ _ _ Ha) _ _ Hs) as Hid. rewrite E, Eb in Hid. congruence.
Qed.

(** The new block extends the chain. *)
Lemma extend_spec c r base l hf b : entered c r base l hf b → prev b = bhs_id (top r l) →
  first_preferred b hf = true → ∃ c' res, maybe_switch_forks b complete c = Some (c', res) ∧ outcome c r base l b c' res.
Proof.
  intros He Hp Hpref. pose proof (en_at _ _ _ _ _ _ He) as Ha. pose proof (en_block _ _ _ _ _ _ He) as Hb.
  pose proof (st_head _ _ _ _ (ac_settled _ _ _ _ _ Ha)) as Hh.
  assert (next_of c r l b) as Hn by (split; [by eexists|done]).
  pose proof (apply_and_mark_spec _ _ _ _ _ _ complete ltac:(by right) Ha Hn) as Hstep.
  unfold maybe_switch_forks. cbv [catch mbind M_bind read]. rewrite Hh, decide_True by done.
  destruct (execute (contents (db c)) (chain_head c) b complete) as [x|e] eqn:Ex.
  - destruct Hstep as (c1 & -> & Ha1 & Hss & Hlog & _). rewrite Hpref in Ha1.
    destruct (switched c c1 r base l hf b (b :: l) He Hlog Hss Ha1) as (c' & E & Ho); [by rewrite Hpref|].
    exists c', (Ok tt). done.
  - destruct Hstep as (c1 & -> & (Ef & Hlog1 & Hlog2 & _) & Ha1).
    destruct (drop_failed c r base l hf b complete e) as (f' & Hr & Ha' & Hsub & Hd & _); [right; split; [done|]|done..|].
    { unfold valid_in. by rewrite Hb. }
    unfold on_fork. rewrite Ef, Hr. eexists _, (Throw e). split; [reflexivity|].
    eapply restored; [exact He|done|by apply map_fmap_mono|apply Hd, rtc_refl|].
    apply (set_fork_at _ _ _ _ _ _ Ha' (ac_settled _ _ _ _ _ Ha1)).
Qed.

(** The chain of the block to switch to, when it does not extend the chain *)
Lemma fork_chain c r base l hf b nh : entered c r base l hf b → nh = (if first_preferred b hf then b else hf) →
  prev nh ≠ bhs_id (top r l) → bhs_id nh ≠ bhs_id (top r l) →
  ∃ ln, chain (index (fork_db c)) r (nh :: ln) ∧ (∀ m, nh :: ln ≠ m ++ l) ∧ (∀ m, l ≠ m ++ nh :: ln) ∧
    ∀ x, x ∈ ln → first_preferred x hf = false.
Proof.
  intros He Hnh Hp Hid. destruct (en_rank _ _ _ _ _ _ He) as [R1 R2]. pose proof (en_at _ _ _ _ _ _ He) as [Hs Hv Ht Hwf].
  pose proof (st_chain _ _ _ _ Hs) as Hc.
  assert (∃ ln, chain (index (fork_db c)) r (nh :: ln)) as [ln Hln].
  { destruct (first_preferred b hf); subst nh.
    - by apply (block_chain _ _ _ Hwf _ _ (en_block _ _ _ _ _ _ He)).
    - destruct (wf_head_in _ _ _ _ Hwf) as [->|Hhf]; [|by apply (block_chain _ _ _ Hwf _ _ Hhf)].
      exfalso. apply Hid. destruct l as [|a l]; [done|]. pose proof (chain_num _ _ _ Hwf _ Hc) as [N _]. cbn in N, R2. lia. }
  pose proof (en_top _ _ _ _ _ _ He _ _ Hln) as Hbln.
  assert (∀ x, x ∈ ln → first_preferred x (top r l) = false) as Hold.
  { intros x Hx. pose proof Hln as (_ & _ & Hln'). destruct (chain_elem _ _ _ _ Hln' Hx) as [v Hx'].
    destruct (en_best _ _ _ _ _ _ He _ _ Hx') as [E|?]; [|done]. cbn in E. by subst x. }
  exists ln. split_and!; [done| | |].
  - intros m E. destruct m as [|y m _] using rev_ind; [cbn in E; by rewrite <-E in Hid|].
    rewrite <-app_assoc in E. cbn [app] in E. pose proof Hln as Hy. rewrite E in Hy. apply chain_app in Hy as [_ Hy].
    pose proof (tr_lib _ _ _ Ht _ _ Hy) as Hlib. pose proof (chain_num _ _ _ Hwf _ Hy) as [N1 _].
    pose proof (chain_num _ _ _ Hwf _ Hc) as [N2 _]. cbn in N1. destruct m as [|z m]; cbn [app] in E; injection E as -> E.
    + destruct Hy as (_ & Hy & _). done.
    + assert (first_preferred y (top r l) = false) as Hy'%first_preferred_false by (apply Hold; rewrite E; apply elem_of_app; right; left). lia.
  - intros m E. destruct (first_preferred b hf); subst nh.
    + destruct (en_out _ _ _ _ _ _ He) as [Ho _]. apply Ho. rewrite E. apply elem_of_app. right. left.
    + pose proof (chain_num _ _ _ Hwf _ Hc) as [N1 _]. pose proof (chain_num _ _ _ Hwf _ Hln) as [N2 _].
      rewrite E, length_app in N1. cbn in N1, N2. rewrite <-E in N1. destruct m; [|cbn in N1; lia]. rewrite E in Hid. done.
  - intros x Hx. specialize (Hold x Hx). rewrite first_preferred_false in *. lia.
Qed.

(** The block to switch to is on another fork. *)
Lemma fork_spec c r base l hf b nh : entered c r base l hf b → nh = (if first_preferred b hf then b else hf) →
  prev nh ≠ bhs_id (top r l) → bhs_id nh ≠ bhs_id (top r l) →
  ∃ c' res, maybe_switch_forks nh complete c = Some (c', res) ∧ outcome c r base l b c' res.
Proof.
  intros He Hnh Hp Hid. destruct (fork_chain _ _ _ _ _ _ _ He Hnh Hp Hid) as (ln & Hln & Hs1 & Hs2 & Hpref).
  pose proof (en_at _ _ _ _ _ _ He) as Ha. pose proof (st_head _ _ _ _ (ac_settled _ _ _ _ _ Ha)) as Hh.
  destruct (switch_forks_spec _ _ _ _ _ _ _ Ha Hln Hs1 Hs2 Hpref) as (c1 & res & E1 & Hlog & Hres).
  unfold maybe_switch_forks. cbv [mbind M_bind read]. rewrite Hh, !decide_False by done. rewrite E1.
  destruct res as [[]|e].
  - destruct Hres as [Hss Ha1]. assert ((if first_preferred nh hf then nh else hf) = nh) as E.
    { subst nh. destruct (first_preferred b hf) eqn:Eb; [by rewrite Eb|]. by destruct (first_preferred hf hf). }
    rewrite E in Ha1. destruct (switched c c1 r base l hf b (nh :: ln) He Hlog Hss Ha1 Hnh) as (c' & -> & Ho).
    by exists c', (Ok tt).
  - destruct Hres as (Hsub & Hnone & Ha1). exists c1, (Throw e). split; [done|].
    eapply restored; [done|done|done| |done]. destruct (first_preferred b hf); subst nh; [done|]. exfalso.
    destruct (wf_head_in _ _ _ _ (ac_wf _ _ _ _ _ Ha1)) as [->|Hhf]; [|congruence].
    destruct Hln as ([v Hv] & _). by rewrite (wf_root_out _ _ _ _ (ac_wf _ _ _ _ _ Ha)) in Hv.
Qed.

Lemma maybe_switch_spec c r base l hf b nh : entered c r base l hf b → nh = (if first_preferred b hf then b else hf) →
  ∃ c' res, maybe_switch_forks nh complete c = Some (c', res) ∧ outcome c r base l b c' res.
Proof.
  intros He Hnh. destruct (en_rank _ _ _ _ _ _ He) as [R1 R2]. pose proof (en_at _ _ _ _ _ _ He) as Ha.
  pose proof Ha as [Hs Hv Ht Hwf]. pose proof (st_chain _ _ _ _ Hs) as Hc. pose proof (chain_num _ _ _ Hwf _ Hc) as [N1 N2].
  destruct (decide (prev nh = bhs_id (top r l))) as [Hp|Hp].
  { destruct (first_preferred b hf) eqn:Eb; subst nh; [by eapply extend_spec|]. exfalso.
    destruct (wf_head_in _ _ _ _ Hwf) as [->|Hhf].
    - destruct l as [|a l]; [by apply (en_root _ _ _ _ _ _ He)|]. cbn in N1, R2. lia.
    - destruct (wf_numbered _ _ _ _ Hwf _ _ Hhf) as [[_ N3] _]. cbn in N3. rewrite Hp, N2 in N3. lia. }
  destruct (decide (bhs_id nh = bhs_id (top r l))) as [Hid|Hid]; [|by eapply fork_spec].
  exists c, (Ok tt). split.
  { unfold maybe_switch_forks. cbv [mbind M_bind read]. by rewrite (st_head _ _ _ _ Hs), decide_False, decide_True by done. }
  assert (first_preferred b hf = false) as Eb.
  { destruct (first_preferred b hf); [|done]. subst nh. exfalso. pose proof (en_block _ _ _ _ _ _ He) as Hb.
    rewrite Hid in Hb. destruct l as [|a l]; cbn in Hb; [by rewrite (wf_root_out _ _ _ _ Hwf) in Hb|].
    apply Forall_cons in Hv as [Hva _]. unfold valid_in in Hva. congruence. }
  split; [exists base, l, [], []; cbn; split_and!; [|by rewrite app_nil_r|done|done]|
    rewrite (st_head _ _ _ _ Hs); rewrite first_preferred_false in *; lia].
  split; [by eexists|apply (en_log _ _ _ _ _ _ He)|apply (en_root _ _ _ _ _ _ He)|].
  intros id s Hs'. rewrite (st_head _ _ _ _ Hs). destruct (en_best _ _ _ _ _ _ He _ _ Hs') as [->|]; [|done].
  rewrite first_preferred_false in *. lia.
Qed.

Lemma push_block_spec c r base l b : in_sync c r base l → block_ok (fork_db c) r b →
  ∃ c' res, push_block b c = Some (c', res) ∧
    match res with
    | Ok _ => advanced c r base c' ∧ first_preferred b (chain_head c') = false
    | Throw _ => in_sync c' r base l ∧ blog c' = blog c ∧ (state <$> index (fork_db c')) ⊆ (state <$> index (fork_db c))
    end.
Proof.
  intros Hsync Hok. pose proof Hsync as [[hf0 [Hs _ _ _]] _ _ _].
  unfold push_block. cbv [mbind M_bind read on_fork]. rewrite (st_pending _ _ _ _ Hs), bool_decide_true by done.
  unfold ensure. cbv [mret M_ret]. rewrite decide_False by done.
  destruct (add (fork_db c) (MkBlock b false) false) as [f'|e] eqn:Hadd; [|by exists c, (Throw e)].
  destruct (entered_spec _ _ _ _ _ _ Hsync Hok Hadd) as [hf He]. pose proof (ac_wf _ _ _ _ _ (en_at _ _ _ _ _ _ He)) as Hwf.
  cbn [fork_db set_fork_db].
  rewrite (new_head_spec f' hf b (top r l) (wf_head _ _ _ _ Hwf) (en_block _ _ _ _ _ _ He) (en_rank _ _ _ _ _ _ He) (en_best _ _ _ _ _ _ He)).
  destruct (maybe_switch_spec _ _ _ _ _ _ _ He eq_refl) as (c' & res & -> & Ho). exists c', res. split; [done|].
  destruct res as [[]|e]; [done|]. destruct Ho as (Hi & Hb & Hsub & Hnone). split_and!; [done|done|].
  apply map_subseteq_spec. intros id s Hs'. pose proof (lookup_weaken _ _ _ _ Hs' Hsub) as Hs2. cbn in Hs2.
  destruct Hsync as [[hf1 [_ _ _ Hwf1]] _ _ _].
  pose proof (fork_add_spec _ _ _ _ Hwf1 Hok) as Hsp. rewrite Hadd in Hsp. destruct Hsp as (_ & Ei & _).
  rewrite Ei, fmap_insert in Hs2. apply lookup_insert_Some in Hs2 as [[<- _]|[_ Hs2]]; [|done].
  by rewrite lookup_fmap, Hnone in Hs'.
Qed.

(** ** Producing a block *)

Lemma advance_to_pending id p c :
  advance_to id (set_pending p c) = option_map (λ '(c', res), (set_pending p c', res)) (advance_to id c).
Proof.
  unfold advance_to, fork_advance_root. cbv [mbind M_bind read]. cbn [fork_db set_pending].
  destruct (root (fork_db c)) as [r|]; [|done]. case_decide; [done|]. cbn [fork_db set_pending].
  by destruct (advance_root (fork_db c) id) as [[f' res]|].
Qed.

Lemma log_blocks_pending m : ∀ id p c,
  log_blocks id m (set_pending p c) = option_map (λ '(c', res), (set_pending p c', res)) (log_blocks id m c).
Proof.
  induction m as [|b m IH]; intros id p c; [apply advance_to_pending|].
  cbn [log_blocks]. unfold catch, append_block, trim_reversible. cbv [mbind M_bind update ask]. rewrite decide_False by done.
  cbv [mret M_ret]. cbn [blog first_block_num db set_db set_pending]. unfold ensure.
  destruct (_ =? _).
  - cbv [mret M_ret]. apply (IH (bhs_id b) p (log_one c b)).
  - cbv [throw].
    pose proof (advance_to_pending (bhs_id b) p (set_db (commit (num b) (db c)) c)) as Hadv.
    change (set_db (commit (num b) (db c)) (set_pending p c)) with (set_pending p (set_db (commit (num b) (db c)) c)).
    rewrite Hadv. clear. destruct (advance_to (bhs_id b) (set_db (commit (num b) (db c)) c)) as [[c1 [[]|e]]|]; reflexivity.
Qed.

Lemma log_irreversible_pending p c :
  log_irreversible (set_pending p c) = option_map (λ '(c', res), (set_pending p c', res)) (log_irreversible c).
Proof.
  unfold log_irreversible. cbv [mbind M_bind ask]. cbn [fork_db blog first_block_num set_pending].
  destruct (root (fork_db c)) as [r|]; [|done]. rewrite decide_False by done. unfold ensure.
  repeat (case_match; try done); cbv [mret M_ret throw undefined] in *; simplify_eq; try done; apply log_blocks_pending.
Qed.

(** The controller without its pending block *)
Definition aborted (c : controller) : controller :=
  match pending c with
  | None => c
  | Some _ => set_pending None (set_db (undo (db c)) c)
  end.

Lemma abort_block_eval c : abort_block c = Some (aborted c, Ok tt).
Proof. unfold abort_block, aborted. cbv [mbind M_bind read]. by destruct (pending c). Qed.

(** A produced block is built on the head and its execution gives the contents. *)
Record synced (c : controller) (r : bhs) (base : S) (l : list bhs) : Prop := {
  sy_sync : in_sync (aborted c) r base l;
  sy_session : pending c ≠ None → ∃ s u, undo_states (db c) = s :: u;
  sy_stage b : pending c = Some (completed_block b) → block_ok (fork_db c) r b ∧ prev b = bhs_id (chain_head c) ∧
    execute (contents (undo (db c))) (chain_head c) b validated_block = Ok (contents (db c)) }.

Lemma in_sync_pending c r base l : in_sync c r base l → pending c = None.
Proof. intros [[hf [Hs _ _ _]] _ _ _]. apply (st_pending _ _ _ _ Hs). Qed.

Lemma in_sync_synced c r base l : in_sync c r base l → synced c r base l.
Proof.
  intros Hi. pose proof (in_sync_pending _ _ _ _ Hi) as Hp. split; [unfold aborted; by rewrite Hp|done|congruence].
Qed.

Lemma synced_none c r base l : synced c r base l → pending c = None → in_sync c r base l.
Proof. intros [Hi _ _] Hp. unfold aborted in Hi. by rewrite Hp in Hi. Qed.

Lemma fork_mark_valid_frame b c c' f : fork_db c' = fork_db c → fork_mark_valid b c = Some (set_fork_db f c, Ok tt) →
  fork_mark_valid b c' = Some (set_fork_db f c', Ok tt).
Proof.
  intros E. unfold fork_mark_valid. cbv [mbind M_bind read on_fork]. unfold is_valid. rewrite E.
  destruct (mark_valid _ _) as [[f'|]|]; [|done..]. intros [= Ef]. by rewrite Ef.
Qed.

Lemma set_pending_same c : pending c = None → set_pending None c = c.
Proof. intros Hp. destruct c. cbn in Hp. by subst. Qed.

(** The committed block as one applied to the controller without it *)
Lemma completed_applied c f' r base l hf b s u : entered (set_fork_db f' (aborted c)) r base l hf b →
  pending c = Some (completed_block b) → undo_states (db c) = s :: u →
  applied (set_fork_db f' (aborted c))
    (set_reversible (<[num b := b]> (reversible_blocks c)) (set_pending None (set_fork_db f' c))) b (contents (db c)).
Proof.
  intros He Hp Hu. unfold aborted. rewrite Hp. unfold applied, same_forks. cbn.
  rewrite (undo_contents _ _ _ Hu), (undo_undo _ _ _ Hu), (undo_revision _ _ _ Hu). split_and!; try done. lia.
Qed.

(** The produced block is preferred to the head. *)
Lemma produced_preferred c r base l hf b : entered c r base l hf b → well_numbered num_of b → prev b = bhs_id (top r l) →
  first_preferred b hf = true.
Proof.
  intros He [N1 N2] Hp. destruct (en_rank _ _ _ _ _ _ He) as [R1 R2]. pose proof (en_at _ _ _ _ _ _ He) as [Hs Hv Ht Hwf].
  pose proof (st_chain _ _ _ _ Hs) as Hc. pose proof (chain_num _ _ _ Hwf _ Hc) as [_ M].
  assert (chain (index (fork_db c)) r (b :: l)) as Hb by (split_and!; [eexists; apply (en_block _ _ _ _ _ _ He)|done|done]).
  pose proof (tr_lib _ _ _ Ht _ _ Hb). rewrite Hp, M in N2. apply first_preferred_true. lia.
Qed.

Lemma commit_block_spec c r base l b : synced c r base l → pending c = Some (completed_block b) →
  ∃ c' res, commit_block true c = Some (c', res) ∧
    match res with
    | Ok _ => advanced (aborted c) r base c'
    | Throw _ => c' = aborted c
    end.
Proof.
  intros [Hsync Hses Hst] Hp. destruct (Hses ltac:(by rewrite Hp)) as (s & u & Hu). destruct (Hst b Hp) as (Hok & Hprev & Hx).
  assert (fork_db (aborted c) = fork_db c) as Ef by (unfold aborted; by rewrite Hp).
  assert (chain_head (aborted c) = chain_head c) as Eh by (unfold aborted; by rewrite Hp).
  unfold commit_block, commit_block_then. cbv [catch mbind M_bind read]. rewrite Hp. cbv [on_fork].
  destruct (add (fork_db c) (MkBlock b false) false) as [f'|e] eqn:Hadd.
  2:{ rewrite abort_block_eval. by exists (aborted c), (Throw e). }
  rewrite <-Ef in Hok, Hadd. destruct (entered_spec _ _ _ _ _ _ Hsync Hok Hadd) as [hf He].
  pose proof (en_at _ _ _ _ _ _ He) as Ha. pose proof (st_head _ _ _ _ (ac_settled _ _ _ _ _ Ha)) as Hh.
  change (chain_head (aborted c) = top r l) in Hh. rewrite Eh in Hh. rewrite Hh in Hprev.
  assert (next_of (set_fork_db f' (aborted c)) r l b) as Hn by (split; [eexists; apply (en_block _ _ _ _ _ _ He)|done]).
  pose proof (next_not_reversible _ _ _ _ _ (ac_settled _ _ _ _ _ Ha) Hn) as Hnr.
  pose proof (completed_applied _ _ _ _ _ _ _ _ _ He Hp Hu) as Hap.
  set (c1 := set_reversible _ _) in Hap.
  destruct (applied_marked _ _ _ _ _ _ _ _ Ha Hn Hap) as (f2 & Em & Ha2 & Hss & _).
  { unfold aborted. rewrite Hp. cbn. done. }
  assert (first_preferred b hf = true) as Hpref.
  { eapply (produced_preferred _ _ _ _ _ _ He); [apply Hok|done]. }
  rewrite Hpref in Ha2. rewrite (fork_mark_valid_frame b c1 (set_fork_db f' c) f2 eq_refl Em).
  cbn [fork_db set_fork_db]. rewrite (wf_head _ _ _ _ (ac_wf _ _ _ _ _ Ha2) : head f2 = Some b).
  cbv [update]. unfold ensure. rewrite bool_decide_true by done. cbv [mret M_ret].
  assert (replay_head_time c = None) as Hlive.
  { pose proof (st_live _ _ _ _ (ac_settled _ _ _ _ _ Ha)) as E. unfold aborted in E. by rewrite Hp in E. }
  rewrite decide_True by done. unfold create_reversible. cbv [mbind M_bind read update]. unfold ensure.
  assert (reversible_blocks c !! num b = None) as Hnr' by (unfold aborted in Hnr; by rewrite Hp in Hnr).
  cbn [reversible_blocks set_chain_head set_fork_db]. rewrite Hnr', bool_decide_false by (by intros []).
  cbn [negb]. cbv [mret M_ret].
  destruct (switched _ (set_chain_head b (set_fork_db f2 c1)) r base l hf b (b :: l) He ltac:(unfold aborted; by rewrite Hp) Hss Ha2) as (c' & E & Ho); [by rewrite Hpref|].
  pose proof (log_irreversible_pending (Some (completed_block b)) (set_chain_head b (set_fork_db f2 c1))) as Hlp.
  rewrite E in Hlp. cbn [option_map] in Hlp.
  replace (set_pending _ _) with
    (set_reversible (<[num b := b]> (reversible_blocks c)) (set_chain_head b (set_fork_db f2 (set_fork_db f' c)))) in Hlp.
  2:{ subst c1. destruct c. cbn in Hp. by subst. }
  cbn [reversible_blocks set_chain_head set_fork_db] in Hlp |- *. rewrite Hlp. exists c', (Ok tt). destruct Ho as [Ho _]. split; [|exact Ho].
  destruct Ho as (? & ? & ? & ? & Hi & _). apply in_sync_pending in Hi. by destruct c'; cbn in Hi |- *; subst.
Qed.

(** ** Runs of the controller *)

(** Blocks are pushed, and blocks are started, built, finalized, signed, and committed or
    aborted.  A signed block is one whose execution on the head gives the contents that
    the node has built. *)
Inductive controller_step : controller → controller → Prop :=
  | step_push c c' r b res : root (fork_db c) = Some r → block_ok (fork_db c) r b →
      push_block b c = Some (c', res) → controller_step c c'
  | step_start c c' res : start_block c = Some (c', res) → controller_step c c'
  | step_build c c' x res : build x c = Some (c', res) → controller_step c c'
  | step_finalize c c' x res : finalize_block x c = Some (c', res) → controller_step c c'
  | step_sign c c' r b res : root (fork_db c) = Some r → block_ok (fork_db c) r b → prev b = bhs_id (chain_head c) →
      execute (contents (undo (db c))) (chain_head c) b validated_block = Ok (contents (db c)) →
      sign_block b c = Some (c', res) → controller_step c c'
  | step_commit c c' res : commit_block true c = Some (c', res) → controller_step c c'
  | step_abort c c' res : abort_block c = Some (c', res) → controller_step c c'.

Lemma in_sync_db c d r base l : in_sync c r base l → contents d = contents (db c) →
  undo_states d = undo_states (db c) → revision d = revision (db c) → in_sync (set_db d c) r base l.
Proof.
  intros [[hf [Hs Hv Ht Hwf]] [] Hr Hb] Ec Eu Er. split; [|done..]. exists hf. split; [|done..].
  destruct Hs. split; cbn; rewrite ?Ec, ?Eu, ?Er; done.
Qed.

Lemma in_sync_root c r base l : in_sync c r base l → root (fork_db c) = Some r.
Proof. intros [[hf [_ _ _ Hwf]] _ _ _]. apply (wf_root _ _ _ _ Hwf). Qed.

Lemma synced_root c r base l : synced c r base l → root (fork_db c) = Some r.
Proof. intros [Hi _ _]. apply in_sync_root in Hi. unfold aborted in Hi. by destruct (pending c). Qed.

(** Another stage or other contents of the pending block *)
Lemma synced_pending c r base l p x : synced c r base l → pending c ≠ None → (∀ b, p ≠ completed_block b) →
  synced (set_pending (Some p) (set_db (modify x (db c)) c)) r base l.
Proof.
  intros [Hi Hses _] Hp Hpb. destruct (Hses Hp) as (s & u & Hu).
  assert (undo_states (modify x (db c)) = s :: u) as Hu' by (by rewrite modify_undo).
  split; cbn; [|by intros _; exists s, u|by intros b [= ->]; destruct (Hpb b)].
  unfold aborted in *. cbn. destruct (pending c) as [p0|]; [|done].
  apply (in_sync_db _ (undo (modify x (db c)))) in Hi; cbn.
  - exact Hi.
  - by rewrite (undo_contents _ _ _ Hu), (undo_contents _ _ _ Hu').
  - by rewrite (undo_undo _ _ _ Hu), (undo_undo _ _ _ Hu').
  - by rewrite (undo_revision _ _ _ Hu), (undo_revision _ _ _ Hu'), modify_revision.
Qed.

Lemma synced_start c c' r base l res : synced c r base l → start_block c = Some (c', res) → synced c' r base l.
Proof.
  intros Hsy Hstart. destruct (pending c) as [p|] eqn:Hp.
  { unfold start_block in Hstart. cbv [mbind M_bind read ensure] in Hstart. rewrite Hp, bool_decide_false in Hstart by done.
    cbv [throw] in Hstart. by injection Hstart as <- _. }
  pose proof (synced_none _ _ _ _ Hsy Hp) as Hi. pose proof Hi as [[hf [Hs _ _ _]] _ _ _].
  rewrite start_block_eval in Hstart by (done || apply (st_revision _ _ _ _ Hs)). injection Hstart as <- _.
  split; cbn; [|by rewrite start_undo; eauto|done]. unfold aborted. cbn.
  apply (in_sync_db _ (undo (start_undo_session (db c)))) in Hi; cbn.
  - replace (set_pending None _) with (set_db (undo (start_undo_session (db c))) c); [done|]. destruct c. cbn in Hp. by subst.
  - by erewrite undo_contents by apply start_undo.
  - by erewrite undo_undo by apply start_undo.
  - erewrite undo_revision by apply start_undo. rewrite start_revision. lia.
Qed.

(** The controller has logged blocks since it was at [r0] with contents [s0]. *)
Definition reached (r0 : bhs) (s0 : S) (log0 : list bhs) (c : controller) : Prop :=
  ∃ base l logged u, synced c (top r0 logged) base l ∧ blog c = log0 ++ rev logged ∧ follows r0 s0 logged base u ∧ linked r0 logged.

Lemma reached_advanced r0 s0 log0 c c' logged base u : blog c = log0 ++ rev logged → follows r0 s0 logged base u → linked r0 logged →
  advanced c (top r0 logged) base c' → reached r0 s0 log0 c'.
Proof.
  intros Eb Hf Hl (base' & l' & logged' & u' & Hi & Eb' & Hf' & Hl'). exists base', l', (logged' ++ logged), (u' ++ u). split_and!.
  - rewrite top_app. by apply in_sync_synced.
  - by rewrite Eb', Eb, rev_app_distr, app_assoc.
  - apply follows_app. exists base, u', u. split_and!; [done|by eapply follows_length|done|done].
  - by apply linked_app.
Qed.

Lemma aborted_synced c r base l : synced c r base l → synced (aborted c) r base l.
Proof. intros [Hi _ _]. by apply in_sync_synced. Qed.

Lemma aborted_blog c : blog (aborted c) = blog c.
Proof. unfold aborted. by destruct (pending c). Qed.

Lemma step_reached r0 s0 log0 c c' : reached r0 s0 log0 c → controller_step c c' → reached r0 s0 log0 c'.
Proof.
  intros (base & l & logged & u & Hsy & Eb & Hf & Hl) Hstep.
  assert (∀ c1, synced c1 (top r0 logged) base l → blog c1 = blog c → reached r0 s0 log0 c1) as Hsame.
  { intros c1 H1 E1. exists base, l, logged, u. by rewrite E1. }
  revert Hsy Eb Hsame.
  destruct Hstep as [c c' r b res Hr Hok Hp|c c' res Hst|c c' x res Hb|c c' x res Hfi|c c' r b res Hr Hok Hprev Hx Hsi|c c' res Hc|c c' res Ha];
    intros Hsy Eb Hsame.
  - rewrite (synced_root _ _ _ _ Hsy) in Hr. injection Hr as <-. destruct (pending c) as [p|] eqn:Hpe.
    { unfold push_block in Hp. cbv [mbind M_bind read ensure] in Hp. rewrite Hpe, bool_decide_false in Hp by done.
      cbv [throw] in Hp. injection Hp as <- _. by apply Hsame. }
    destruct (push_block_spec _ _ _ _ _ (synced_none _ _ _ _ Hsy Hpe) Hok) as (c1 & res1 & E & Hres).
    rewrite Hp in E. injection E as <- <-. destruct res as [[]|e]; [by destruct Hres; eapply reached_advanced|].
    destruct Hres as (Hi & Eb1 & _). apply Hsame; [by apply in_sync_synced|done].
  - apply Hsame; [by eapply synced_start|]. unfold start_block in Hst. cbv [mbind M_bind read ensure update] in Hst.
    repeat (case_match; try done); cbv [mret M_ret throw] in *; by simplify_eq.
  - unfold build in Hb. cbv [mbind M_bind read update] in Hb. destruct (pending c) as [[]|] eqn:Hp; try done.
    injection Hb as <- _. apply Hsame; [|done].
    pose proof (synced_pending c _ _ _ building_block x Hsy ltac:(by rewrite Hp) ltac:(done)) as Hs2.
    replace (set_db _ _) with (set_pending (Some building_block) (set_db (modify x (db c)) c)); [done|]. destruct c. cbn in Hp. by subst.
  - unfold finalize_block in Hfi. cbv [mbind M_bind read update throw] in Hfi.
    destruct (pending c) as [[]|] eqn:Hp; injection Hfi as <- _; apply Hsame; try done. by apply synced_pending; [|rewrite Hp|].
  - rewrite (synced_root _ _ _ _ Hsy) in Hr. injection Hr as <-. unfold sign_block in Hsi. cbv [mbind M_bind read update] in Hsi.
    destruct (pending c) as [[]|] eqn:Hp; try done. injection Hsi as <- _. apply Hsame; [|done].
    destruct Hsy as [Hi Hses _]. split; cbn; [|by intros _; apply Hses; rewrite Hp|by intros b' [= <-]].
    unfold aborted in *. cbn. by rewrite Hp in Hi.
  - destruct (pending c) as [[| |b]|] eqn:Hp.
    1, 2: unfold commit_block, commit_block_then in Hc; cbv [catch mbind M_bind read throw] in Hc; rewrite Hp, abort_block_eval in Hc;
      injection Hc as <- _; apply Hsame; [by apply aborted_synced|apply aborted_blog].
    + destruct (commit_block_spec _ _ _ _ _ Hsy Hp) as (c1 & res1 & E & Hres). rewrite Hc in E. injection E as <- <-.
      destruct res as [[]|e]; [eapply reached_advanced; [by rewrite aborted_blog|done|done|done]|].
      subst c'. apply Hsame; [by apply aborted_synced|apply aborted_blog].
    + unfold commit_block, commit_block_then in Hc. cbv [catch mbind M_bind read undefined] in Hc. by rewrite Hp in Hc.
  - rewrite abort_block_eval in Ha. injection Ha as <- _. apply Hsame; [by apply aborted_synced|apply aborted_blog].
Qed.

(** A controller that starts at a root *)
Record fresh (c : controller) (r : bhs) : Prop := {
  fr_fork : fork_db c = reset r;
  fr_head : chain_head c = r;
  fr_pending : pending c = None;
  fr_undo : undo_states (db c) = [];
  fr_revision : revision (db c) = num r;
  fr_reversible : reversible_blocks c = ∅;
  fr_log : log_ok c r;
  fr_num : num_of (bhs_id r) = num r ∧ 0 ≤ num r;
  fr_prev : prev r ≠ bhs_id r;
  fr_live : replay_head_time c = None }.

Lemma fresh_reached c r : fresh c r → reached r (contents (db c)) (blog c) c.
Proof.
  intros [Ef Eh Ep Eu Ev Er Hl [Hn H0r] Hp]. exists (contents (db c)), [], [], []. split_and!; [|by rewrite app_nil_r|done|done].
  apply in_sync_synced. pose proof (reset_wf num_of r Hn H0r) as Hwf. split; [|done|done|by rewrite Ef].
  exists r. split; [|done| |by rewrite Ef].
  - split; rewrite ?Ef, ?Er, ?Eu; try done; [by eexists|by rewrite Ev, Eh|].
    intros n b. rewrite lookup_empty. split; [done|]. by intros [?%elem_of_nil _].
  - rewrite Ef. split; intros b l ([v Hv] & _); done.
Qed.

Lemma run_reached c0 r c : fresh c0 r → rtc controller_step c0 c → reached r (contents (db c0)) (blog c0) c.
Proof.
  intros Hf%fresh_reached Hrtc. revert Hf. generalize (contents (db c0)), (blog c0).
  induction Hrtc as [|x y z Hxy _ IH]; intros s0 log0 Hx; [done|]. apply IH. by eapply step_reached.
Qed.

(** *** Replaying a chain *)

(** Executing blocks one after another *)
Fixpoint replay (s : S) (p : bhs) (l : list bhs) : result exn S :=
  match l with
  | [] => Ok s
  | b :: l => s ← execute s p b validated_block; replay s b l
  end.

Lemma replay_snoc l : ∀ s p b, replay s p (l ++ [b]) = (s ← replay s p l; execute s (default p (last l)) b validated_block).
Proof.
  induction l as [|a l IH]; intros s p b; cbn [app replay].
  - cbn. by destruct (execute s p b validated_block).
  - destruct (execute s p a validated_block) as [s'|e]; cbn [mbind result_bind]; [|done]. rewrite IH.
    destruct (replay s' a l); cbn [mbind result_bind]; [|done]. rewrite last_cons. by destruct (last l).
Qed.

Lemma top_last r l : top r l = default r (last (rev l)).
Proof. destruct l as [|b l]; [done|]. cbn [rev]. by rewrite last_snoc. Qed.

Lemma follows_replay r base l cur u : follows r base l cur u → replay base r (rev l) = Ok cur.
Proof.
  revert cur u. induction l as [|b l IH]; intros cur [|s u] Hf; cbn in Hf; try done; [by subst|]. destruct Hf as [Hx Hf].
  cbn [rev]. rewrite replay_snoc, (IH _ _ Hf), <-top_last. done.
Qed.



End controller.

(** ** Witnesses *)

(** A database that keeps its states in a list *)
Record state_stack (S : Type) := MkStack { stack_contents : S; stack_undo : list S; stack_revision : Z }.
Arguments MkStack {S}. Arguments stack_contents {S}. Arguments stack_undo {S}. Arguments stack_revision {S}.

#[export, refine] Instance stack_database S : UndoDatabase (state_stack S) S := {
  contents := stack_contents;
  undo_states := stack_undo;
  revision := stack_revision;
  start_undo_session d := MkStack (stack_contents d) (stack_contents d :: stack_undo d) (stack_revision d + 1);
  modify s d := MkStack s (stack_undo d) (stack_revision d);
  undo d := match stack_undo d with [] => d | s :: l => MkStack s l (stack_revision d - 1) end;
  commit n d := MkStack (stack_contents d) (take (Z.to_nat (stack_revision d - n)) (stack_undo d)) (stack_revision d) }.
Proof.
  all: try done.
  all: intros d s l Hd; by rewrite Hd.
Defined.

(** Executing a block records its identifier; those of branch 9 fail. *)
Definition sample_execute (s : list digest) (p b : block_header_state Z Z) (st : block_status) : result exn (list digest) :=
  if Merkle.word1 (bhs_id b) =? 9 then Throw block_validate_exception else Ok (bhs_id b :: s).

Notation sample_controller := (controller (key:=Z) (signature:=Z) (D:=state_stack (list digest))).

Definition sample_start : sample_controller :=
  let r := sample_block 1 0 0 1 in
  MkController (MkStack [] [] 1) ∅ [] 2 None r (reset r) None.

Definition sample_ok (f : fork_database Z Z) (b : block_header_state Z Z) : bool :=
  match root f with
  | Some r => (Merkle.word0 (bhs_id b) =? num b) && (num b =? Merkle.word0 (prev b) + 1) &&
      match get_block_header f r (prev b) with Some p => lib p <=? lib b | None => true end
  | None => false
  end.

Lemma sample_ok_spec f b r : root f = Some r → sample_ok f b = true → block_ok Merkle.word0 f r b.
Proof.
  intros Hr. unfold sample_ok. rewrite Hr, !andb_true_iff, !Z.eqb_eq. intros [[H1 H2] H3]. split; [by split|].
  intros p Hp. rewrite Hp in H3. by apply Z.leb_le.
Qed.

Notation sample_step := (controller_step sample_execute SPECULATIVE Merkle.word0).

Fixpoint sample_pushes (c : sample_controller) (l : list (block_header_state Z Z)) : option sample_controller :=
  match l with
  | [] => Some c
  | b :: l =>
      if sample_ok (fork_db c) b then
        match push_block sample_execute SPECULATIVE b c with Some (c, _) => sample_pushes c l | None => None end
      else None
  end.

Lemma sample_pushes_steps l : ∀ c c', sample_pushes c l = Some c' → rtc sample_step c c'.
Proof.
  induction l as [|b l IH]; intros c c' Hr; cbn in Hr; [by injection Hr as ->|].
  destruct (sample_ok (fork_db c) b) eqn:Hok; [|done]. destruct (push_block _ _ b c) as [[c1 res]|] eqn:Hp; [|done].
  eapply rtc_l; [|by apply IH]. destruct (root (fork_db c)) as [r|] eqn:Hroot; [|unfold sample_ok in Hok; by rewrite Hroot in Hok].
  eapply step_push; [done|by apply sample_ok_spec|done].
Qed.

(** Blocks 2 and 3, a fork of a block 3 and a block 4 that makes block 2 irreversible, and
    another block 4 on the first block 3 *)
Definition sample_run : option sample_controller :=
  sample_pushes sample_start
    [sample_block 2 0 0 1; sample_block 3 0 0 1; sample_block 3 1 0 1; sample_block 4 1 1 2; sample_block 4 0 0 1].

(** On the latter an invalid block that would be preferred *)
Definition sample_bad : block_header_state Z Z := sample_block 5 9 0 3.

Lemma sample_fresh : fresh Merkle.word0 sample_start (sample_block 1 0 0 1).
Proof.
  split; try reflexivity; [split; [reflexivity|discriminate]|split; [reflexivity|cbn; unfold num; cbn; lia]|discriminate].
Qed.

Definition sample_reached : sample_controller := default sample_start sample_run.

Lemma sample_reached_steps : rtc sample_step sample_start sample_reached.
Proof.
  unfold sample_reached. destruct sample_run as [c|] eqn:E; cbn; [by eapply sample_pushes_steps|apply rtc_refl].
Qed.

Lemma sample_val s p b x : sample_execute s p b complete = Ok x → sample_execute s p b validated_block = Ok x.
Proof. done. Qed.

Lemma sample_pending : pending sample_reached = None.
Proof. vm_compute. reflexivity. Qed.

Lemma sample_root : root (fork_db sample_reached) = Some (sample_block 2 0 0 1).
Proof. vm_compute. reflexivity. Qed.

Lemma sample_contents : contents (db sample_reached) = [sample_id 4 1; sample_id 3 1; sample_id 2 0].
Proof. vm_compute. reflexivity. Qed.

Lemma sample_bad_checked : sample_ok (fork_db sample_reached) sample_bad = true.
Proof. vm_compute. reflexivity. Qed.

Lemma sample_bad_ok : block_ok Merkle.word0 (fork_db sample_reached) (sample_block 2 0 0 1) sample_bad.
Proof. exact (sample_ok_spec _ _ _ sample_root sample_bad_checked). Qed.

(** The push of the bad block throws. *)
Definition sample_failed : sample_controller :=
  match push_block sample_execute SPECULATIVE sample_bad sample_reached with
  | Some (c, _) => c
  | None => sample_reached
  end.

Lemma sample_fails : push_block sample_execute SPECULATIVE sample_bad sample_reached =
  Some (sample_failed, Throw block_validate_exception).
Proof.
  assert (match push_block sample_execute SPECULATIVE sample_bad sample_reached with
          | Some (_, Throw block_validate_exception) => true | _ => false end = true) as Hp by (vm_compute; reflexivity).
  unfold sample_failed. destruct (push_block _ _ _ _) as [[c [[]|e]]|]; [discriminate Hp| |discriminate Hp].
  destruct e; (reflexivity || discriminate Hp).
Qed.

(** A valid block on the head whose irreversible number is below that of the head is not
    preferred to it: the push succeeds and the block is not applied. *)
Lemma lower_lib_not_adopted :
  let b := sample_block 5 1 1 1 in
  prev b = bhs_id (chain_head sample_reached) ∧
  match push_block sample_execute SPECULATIVE b sample_reached with
  | Some (c, Ok _) => bhs_id (chain_head c) = bhs_id (chain_head sample_reached)
  | _ => False
  end.
Proof. vm_compute. split; reflexivity. Qed.




End ForkSwitch.
