(* ===== verification/BlockLog.v ===== *)
(** * The block log

    [block_log.cpp]: irreversible blocks in a file, each followed by its position, and an
    index file with the position of each block by number.  Modelled are the creation of a
    log, appending and reading blocks, opening the files after a restart, the
    reconstruction of the index (an iterator that reads the log backwards through a buffer,
    and a writer that fills the index backwards through another), the repair of a damaged
    log, and trimming its front.  A file is the list of its bytes, the index file the list of
    its 64-bit words.  Serialisation is the class [LogFormat]; the buffer sizes are arguments
    of the definitions that use buffers.  [None] is undefined behaviour: an access outside a
    buffer. *)

From S2P Require Import Prelude.
From S2P Require Import Exceptions.

Local Open Scope Z_scope.

Module BlockLog.

(** ** Files *)

Notation file := (list Z) (only parsing).

Definition size {A} (f : list A) : Z := Z.of_nat (length f).
Definition le32 (v : Z) : list Z := Z_to_little_endian 4 8 v.
Definition le64 (v : Z) : list Z := Z_to_little_endian 8 8 v.
Definition le_value (l : list Z) : Z := little_endian_to_Z 8 l.

(** The bytes that a read at a position delivers; a short read throws *)
Definition slice (pos n : Z) (f : file) : list Z := take (Z.to_nat n) (drop (Z.to_nat pos) f).
Definition read_at (e : exn) (f : file) (pos n : Z) : result exn (list Z) :=
  if (0 <=? pos) && (pos + n <=? size f) then Ok (slice pos n f) else Throw e.

(** Writing at a position, where a gap is filled with zeros *)
Definition write_at {A} (zero : A) (f : list A) (pos : Z) (data : list A) : list A :=
  let p := Z.to_nat pos in
  take p (f ++ replicate (p - length f) zero) ++ data ++ drop (p + length data) f.

Definition npos : Z := UINT64_MAX.
Definition min_supported_version : Z := 1.
Definition max_supported_version : Z := 3.
Definition is_supported_version (version : Z) : bool :=
  Z.min (Z.max version min_supported_version) max_supported_version =? version.
Definition contains_genesis_state (version first_block_num : Z) : bool :=
  (version <=? 2) || (first_block_num =? 1).
Definition contains_chain_id (version first_block_num : Z) : bool :=
  (3 <=? version) && (1 <? first_block_num).
Definition blknum_offset : Z := 14.

(** What a call does: a value, an exception, or undefined behaviour *)
Inductive outcome (A : Type) :=
  | Done (a : A)
  | Failed (e : exn)
  | Undefined.
Arguments Done {A} a.
Arguments Failed {A} e.
Arguments Undefined {A}.

#[global] Instance outcome_bind : MBind outcome := λ A B f m,
  match m with Done a => f a | Failed e => Failed e | Undefined => Undefined end.

Definition lift {A} (r : result exn A) : outcome A :=
  match r with Ok a => Done a | Throw e => Failed e end.
Definition ensure (b : bool) (e : exn) : outcome unit := if b then Done tt else Failed e.

(** A [std::istream]: the bytes not read yet, or the failed state *)
Definition istream : Type := option (list Z).

(** [std::istream::read] over the initial contents of its destination *)
Definition sread (n : Z) (init : list Z) (s : istream) : list Z * istream :=
  match s with
  | None => (init, None)
  | Some r =>
      if n <=? size r then (take (Z.to_nat n) r, Some (drop (Z.to_nat n) r))
      else (r ++ drop (length r) init, None)
  end.

(** Serialised blocks, genesis states and chain identifiers: unpacking reads back what was
    packed and nothing more, and a packed block has the number of its previous block, big
    endian, at [blknum_offset].  A [std::istream] does not throw when it runs out of bytes:
    unpacking a cut block from one throws, or gives some block and leaves the stream
    failed. *)
Class LogFormat (block genesis chain_id : Type) := {
  pack : block → list Z;
  unpack : list Z → option (block * list Z);
  stream_unpack : istream → (block * istream) + istream;
  block_num : block → Z;
  pack_genesis : genesis → list Z;
  unpack_genesis : list Z → option (genesis * list Z);
  stream_unpack_genesis : istream → option (genesis * istream);
  compute_chain_id : genesis → chain_id;
  pack_chain_id : chain_id → list Z;
  unpack_chain_id : list Z → option (chain_id * list Z);
  stream_unpack_chain_id : istream → option (chain_id * istream);
  endian_reverse_u32 : Z → Z;
  unpack_pack b rest : unpack (pack b ++ rest) = Some (b, rest);
  stream_unpack_pack b rest : stream_unpack (Some (pack b ++ rest)) = inl (b, Some rest);
  stream_unpack_cut b l :
    l `prefix_of` pack b → l ≠ pack b →
    match stream_unpack (Some l) with inl (_, s) => s = None | inr _ => True end;
  pack_length b : blknum_offset + 4 ≤ size (pack b);
  pack_prior b : u32 (endian_reverse_u32 (le_value (slice blknum_offset 4 (pack b))) + 1) = block_num b;
  stream_unpack_pack_genesis g rest :
    stream_unpack_genesis (Some (pack_genesis g ++ rest)) = Some (g, Some rest);
  unpack_pack_genesis g rest : unpack_genesis (pack_genesis g ++ rest) = Some (g, rest);
  unpack_pack_chain_id c rest : unpack_chain_id (pack_chain_id c ++ rest) = Some (c, rest);
  stream_unpack_pack_chain_id c rest :
    stream_unpack_chain_id (Some (pack_chain_id c ++ rest)) = Some (c, Some rest) }.

(** Comparisons that linear arithmetic decides *)
Ltac compare_lia :=
  repeat match goal with
  | |- context [?a <=? ?b] =>
      first [rewrite (proj2 (Z.leb_le a b)) by lia | rewrite (proj2 (Z.leb_gt a b)) by lia]
  | |- context [?a <? ?b] =>
      first [rewrite (proj2 (Z.ltb_lt a b)) by lia | rewrite (proj2 (Z.ltb_ge a b)) by lia]
  | |- context [?a =? ?b] =>
      first [rewrite (proj2 (Z.eqb_eq a b)) by lia | rewrite (proj2 (Z.eqb_neq a b)) by lia]
  end; cbn [andb orb negb ensure lift mbind outcome_bind result_bind assert_that].

Section log.
Context {block genesis chain_id : Type} `{LogFormat block genesis chain_id}.

(** ** The log *)

Record block_log := MkLog {
  block_file : file;
  index_file : list Z;
  head : option block;
  genesis_written_to_block_log : bool;
  version : Z;
  first_block_num : Z }.

(** The index is compared in [uint64_t] after a difference of block numbers. *)
Definition append (l : block_log) (b : block) : result exn (block_log * Z) :=
  _ ← assert_that (genesis_written_to_block_log l) block_log_append_fail;
  let pos := size (block_file l) in
  _ ← assert_that (8 * size (index_file l) =? 8 * u32 (block_num b - first_block_num l)) block_log_append_fail;
  Ok (MkLog (block_file l ++ pack b ++ le64 pos) (index_file l ++ [pos]) (Some b) true (version l) (first_block_num l), pos).

(** [block_log_impl::reset] with the packed genesis state or chain identifier: the version
    is 0 until the header is complete. *)
Definition reset_with (context : list Z) (first_block : option block) (first_bnum : Z) : result exn block_log :=
  let l := MkLog (le32 0 ++ le32 first_bnum ++ context ++ le64 npos) [] None true 0 first_bnum in
  l ← match first_block with
      | Some b => '(l, _) ← append l b; Ok l
      | None => Ok l
      end;
  Ok (MkLog (write_at 0 (block_file l) 0 (le32 max_supported_version)) (index_file l) (head l) true
        max_supported_version first_bnum).

Definition reset_genesis (gs : genesis) (first_block : option block) : result exn block_log :=
  reset_with (pack_genesis gs) first_block 1.

Definition reset_chain_id (id : chain_id) (first_block_num : Z) : result exn block_log :=
  _ ← assert_that (1 <? first_block_num) block_log_exception;
  reset_with (pack_chain_id id) None first_block_num.

Definition read_block (f : file) (pos : Z) : result exn block :=
  if pos <=? size f then
    match unpack (drop (Z.to_nat pos) f) with
    | Some (b, _) => Ok b
    | None => Throw std_exception
    end
  else Throw std_exception.

Definition get_block_pos (l : block_log) (n : Z) : result exn Z :=
  match head l with
  | Some h =>
      if (n <=? block_num h) && (first_block_num l <=? n) then
        match index_file l !! Z.to_nat (u32 (n - first_block_num l)) with
        | Some pos => Ok pos
        | None => Throw std_exception
        end
      else Ok npos
  | None => Ok npos
  end.

Definition read_block_by_num (l : block_log) (n : Z) : result exn (option block) :=
  pos ← get_block_pos l n;
  if pos =? npos then Ok None
  else
    b ← read_block (block_file l) pos;
    _ ← assert_that (block_num b =? n) reversible_blocks_exception;
    Ok (Some b).

Definition read_head (f : file) : result exn (option block) :=
  if size f <=? 8 then Ok None
  else
    bytes ← read_at std_exception f (size f - 8) 8;
    let pos := le_value bytes in
    if pos =? npos then Ok None
    else b ← read_block f pos; Ok (Some b).

(** ** Reading the log backwards *)

Record reverse_iterator := MkIter {
  _version : Z;
  _first_block_num : Z;
  _blocks_found : Z;
  _blocks_expected : Z;
  _current_position_in_file : Z;
  _end_of_buffer_position : Z;
  _start_of_buffer_position : Z;
  _buffer_ptr : list Z }.

Definition _position_size : Z := 8.

(** Bytes of a buffer; outside it the access is undefined *)
Definition buffer_at (buf : list Z) (i n : Z) : outcome (list Z) :=
  if (0 <=? i) && (i + n <=? size buf) then Done (slice i n buf) else Undefined.

Section buffers.
Context (_buf_len _max_buffer_length : Z).

Definition update_buffer (f : file) (it : reverse_iterator) : outcome reverse_iterator :=
  _ ← ensure (negb (_current_position_in_file it =? npos)) block_log_exception;
  let end_ := u64 (_current_position_in_file it + _position_size) in
  let start := if end_ <? _buf_len then 0 else end_ - _buf_len in
  _ ← ensure (0 <? end_ - start) block_log_exception;
  data ← lift (read_at block_log_exception f start (end_ - start));
  Done (MkIter (_version it) (_first_block_num it) (_blocks_found it) (_blocks_expected it)
          (_current_position_in_file it) end_ start (data ++ drop (length data) (_buffer_ptr it))).

(** [reverse_iterator::open] *)
Definition iterator_open (f : file) : outcome (reverse_iterator * Z) :=
  version ← lift (read_at block_log_exception f 0 4);
  let version := le_value version in
  _ ← ensure (is_supported_version version) block_log_unsupported_version;
  first ← (if version =? 1 then Done (le32 1) else lift (read_at block_log_exception f 4 4));
  let first := le_value first in
  _ ← ensure (0 <? size f) block_log_exception;
  it ← update_buffer f (MkIter version first 0 0 (u64 (size f - _position_size)) npos 0
                          (replicate (Z.to_nat _buf_len) 0));
  let start := _start_of_buffer_position it in
  block_pos ← buffer_at (_buffer_ptr it) (u32 (_current_position_in_file it - start)) 8;
  let block_pos := le_value block_pos in
  if block_pos =? npos then Done (it, 0)
  else
    bnum ← (if start <=? block_pos
            then buffer_at (_buffer_ptr it) (u32 (block_pos - start) + blknum_offset) 4
            else lift (read_at block_log_exception f (u64 (block_pos + blknum_offset)) 4));
    let last := u32 (endian_reverse_u32 (le_value bnum) + 1) in
    let expected := u32 (last - first + 1) in
    Done (MkIter version first 0 expected (_current_position_in_file it) (_end_of_buffer_position it)
            start (_buffer_ptr it), expected).

(** [reverse_iterator::previous] *)
Definition previous (f : file) (it : reverse_iterator) : outcome (reverse_iterator * Z) :=
  _ ← ensure (negb (_current_position_in_file it =? npos)) block_log_exception;
  if (_version it =? 1) && (_blocks_found it =? _blocks_expected it) then
    Done (MkIter (_version it) (_first_block_num it) (_blocks_found it) (_blocks_expected it) npos
            (_end_of_buffer_position it) (_start_of_buffer_position it) (_buffer_ptr it), npos)
  else
    it ← (if _current_position_in_file it <? _start_of_buffer_position it then update_buffer f it else Done it);
    location ← buffer_at (_buffer_ptr it) (_current_position_in_file it - _start_of_buffer_position it) 8;
    let location := le_value location in
    let found := u32 (_blocks_found it + 1) in
    let moved pos :=
      MkIter (_version it) (_first_block_num it) found (_blocks_expected it) pos
        (_end_of_buffer_position it) (_start_of_buffer_position it) (_buffer_ptr it) in
    if location =? npos then
      _ ← ensure (negb (found =? _blocks_expected it)) block_log_exception;
      Done (moved npos, npos)
    else
      let pos := u64 (location - _position_size) in
      _ ← ensure (pos <? _current_position_in_file it) block_log_exception;
      Done (moved pos, location).

(** ** Writing the index backwards *)

Definition buffer_location_to_file_location (buffer_location : Z) : Z := u32 (Z.shiftl (u32 buffer_location) 3).
Definition file_location_to_buffer_location (file_location : Z) : Z := Z.shiftr (u32 file_location) 3.

(** The file is absent until the first write; positions are in words *)
Record index_writer := MkWriter {
  w_file : option (list Z);
  w_blocks_expected : Z;
  w_buffer : list Z;
  w_current_position : Z;
  w_start : Z;
  w_end : Z }.

Definition new_writer (blocks_expected : Z) : index_writer :=
  MkWriter None blocks_expected (replicate (Z.to_nat _max_buffer_length) 0) 0 0 0.

Definition update_buffer_position (w : index_writer) : index_writer :=
  let end_ := w_current_position w + 1 in
  let start := if u64 end_ <? _max_buffer_length then 0 else end_ - _max_buffer_length in
  MkWriter (w_file w) (w_blocks_expected w) (w_buffer w) (w_current_position w) start end_.

(** A write of no bytes is reported as failed *)
Definition shift_buffer (w : index_writer) : outcome (index_writer * bool) :=
  if w_start w <=? w_current_position w then Done (w, false)
  else
    let location := buffer_location_to_file_location (w_start w) in
    let bytes := buffer_location_to_file_location (w_end w - w_start w) in
    _ ← ensure (0 <? bytes) block_log_exception;
    data ← buffer_at (w_buffer w) 0 (bytes / 8);
    Done (update_buffer_position
            (MkWriter (Some (write_at 0 (default [] (w_file w)) (location / 8) data)) (w_blocks_expected w)
               (w_buffer w) (w_current_position w) (w_start w) (w_end w)), true).

Definition prepare_buffer (w : index_writer) : outcome index_writer :=
  let w :=
    match w_file w with
    | Some _ => w
    | None =>
        let full_file_size := buffer_location_to_file_location (w_blocks_expected w) in
        let block_end := file_location_to_buffer_location full_file_size in
        update_buffer_position
          (MkWriter (Some []) (w_blocks_expected w) (w_buffer w) (u32 (block_end - 1)) (w_start w) (w_end w))
    end in
  '(w, _) ← shift_buffer w;
  Done w.

(** [index_writer::write] *)
Definition write_index (w : index_writer) (pos : Z) : outcome index_writer :=
  w ← prepare_buffer w;
  let i := w_current_position w - w_start w in
  if (0 <=? i) && (i <? size (w_buffer w)) then
    Done (MkWriter (w_file w) (w_blocks_expected w) (<[Z.to_nat i := pos]> (w_buffer w))
            (w_current_position w - 1) (w_start w) (w_end w))
  else Undefined.

(** [index_writer::complete] *)
Definition complete (w : index_writer) : outcome (list Z) :=
  '(w, shifted) ← shift_buffer w;
  _ ← ensure shifted block_log_exception;
  _ ← ensure (w_current_position w =? -1) block_log_exception;
  Done (default [] (w_file w)).

(** ** The index and the log after a restart *)

(** The loop of [construct_index]; each turn moves to a smaller position *)
Fixpoint index_blocks (fuel : nat) (f : file) (it : reverse_iterator) (w : index_writer) : outcome index_writer :=
  match fuel with
  | O => Undefined
  | S fuel =>
      '(it, position) ← previous f it;
      if position =? npos then Done w
      else w ← write_index w position; index_blocks fuel f it w
  end.

Definition construct_index (f : file) : outcome (list Z) :=
  '(it, num_blocks) ← iterator_open f;
  if num_blocks =? 0 then Done []
  else
    w ← index_blocks (S (length f)) f it (new_writer num_blocks);
    complete w.

(** [block_log::open] on the two files; both empty are a new log *)
Definition open (f : file) (index : list Z) : outcome block_log :=
  if 0 <? size f then
    version ← lift (read_at std_exception f 0 4);
    let version := le_value version in
    _ ← ensure (0 <? version) block_log_exception;
    _ ← ensure (is_supported_version version) block_log_unsupported_version;
    first ← (if 1 <? version then
               bytes ← lift (read_at std_exception f 4 4);
               let first := le_value bytes in
               _ ← ensure (0 <? first) block_log_exception;
               Done first
             else Done 1);
    head ← lift (read_head f);
    index ← (match last index with
             | Some index_pos =>
                 bytes ← lift (read_at std_exception f (size f - 8) 8);
                 let block_pos := le_value bytes in
                 if block_pos <? index_pos then construct_index f
                 else if index_pos <? block_pos then construct_index f
                 else Done index
             | None => construct_index f
             end);
    Done (MkLog f index head true version first)
  else Done (MkLog [] [] None false 0 0).

End buffers.

(** ** Repair *)

(** The loop of [repair_log]: the new file, and the bytes saved as a bad tail *)
Fixpoint recover_blocks (fuel : nat) (end_pos truncate_at_block : Z) (s : istream) (new : file) (pos : Z)
    : file * option (list Z) :=
  match fuel with
  | O => (new, None)
  | S fuel =>
      if pos <? end_pos then
        match stream_unpack s with
        | inr s => (new, Some (sread (end_pos - pos) (replicate (Z.to_nat (end_pos - pos)) 0) s).1)
        | inl (tmp, s) =>
            let tellg := match s with Some r => end_pos - size r | None => npos end in
            let '(tmp_pos, s) :=
              if u64 (tellg + 8) <=? end_pos then sread 8 (le64 npos) s else (le64 npos, s) in
            if negb (pos =? le_value tmp_pos) then (new, None)
            else
              let new := new ++ pack tmp ++ le64 pos in
              if block_num tmp =? truncate_at_block then (new, None)
              else recover_blocks fuel end_pos truncate_at_block s new (size new)
        end
      else (new, None)
  end.

(** The part of [repair_log] that copies the header; the rest of the old log remains in the
    stream.  A totem that cannot be read is an uninitialised value. *)
Definition repair_header (f : file) : outcome (file * istream) :=
  let '(version, s) := sread 4 (le32 0) (Some f) in
  let v := le_value version in
  _ ← ensure (0 <? v) block_log_exception;
  _ ← ensure (is_supported_version v) block_log_unsupported_version;
  '(new, first, s) ←
    (if v =? 1 then Done (version, 1, s)
     else
       let '(first, s) := sread 4 (le32 1) s in
       _ ← ensure (le_value first =? 1) block_log_exception;
       Done (version ++ first, le_value first, s));
  '(new, s) ←
    (if contains_genesis_state v first then
       match stream_unpack_genesis s with
       | Some (gs, s) => Done (new ++ pack_genesis gs, s)
       | None => Failed std_exception
       end
     else if contains_chain_id v first then
       match stream_unpack_chain_id s with
       | Some (id, s) => Done (new ++ pack_chain_id id, s)
       | None => Failed std_exception
       end
     else Failed block_log_exception);
  if v =? 1 then Done (new, s)
  else
    match sread 8 [] s with
    | (totem, Some s) =>
        _ ← ensure (le_value totem =? npos) block_log_exception;
        Done (new ++ totem, Some s)
    | (_, None) => Undefined
    end.

Definition repair_log (f : file) (truncate_at_block : Z) : outcome (file * option (list Z)) :=
  '(new, s) ← repair_header f;
  let pos := match s with Some r => size f - size r | None => npos end in
  Done (recover_blocks (S (length f)) (size f) truncate_at_block s new pos).

(** ** The chain of a log *)

Definition extract_chain_context {A} (f : file) (lambda : istream → Z → Z → outcome A) : outcome A :=
  let '(version, s) := sread 4 (le32 0) (Some f) in
  let v := le_value version in
  _ ← ensure ((min_supported_version <=? v) && (v <=? max_supported_version)) block_log_unsupported_version;
  if v =? 1 then lambda s v 1
  else let '(first, s) := sread 4 (le32 1) s in lambda s v (le_value first).

Definition extract_genesis_state (f : file) : outcome (option genesis) :=
  extract_chain_context f (λ s version first_block_num,
    if contains_genesis_state version first_block_num then
      match stream_unpack_genesis s with Some (gs, _) => Done (Some gs) | None => Failed std_exception end
    else Done None).

Definition extract_chain_id (f : file) : outcome chain_id :=
  extract_chain_context f (λ s version first_block_num,
    if contains_genesis_state version first_block_num then
      match stream_unpack_genesis s with
      | Some (gs, _) => Done (compute_chain_id gs)
      | None => Failed std_exception
      end
    else
      _ ← ensure (contains_chain_id version first_block_num) block_log_exception;
      match stream_unpack_chain_id s with Some (id, _) => Done id | None => Failed std_exception end).

(** ** Trimming the front *)

Record trim_data := MkTrim {
  td_version : Z;
  first_block : Z;
  last_block : Z;
  td_chain_id : chain_id;
  first_block_pos : Z;
  blk_in_tell : Z }.

Definition block_index (first_block last_block n : Z) : outcome Z :=
  _ ← ensure (first_block <=? n) block_log_exception;
  _ ← ensure (n <=? last_block) block_log_exception;
  Done (u32 (n - first_block)).

(** [trim_data::block_pos]: the position of a block, and that of [blk_in] afterwards *)
Definition block_pos (f : file) (index : list Z) (first_block last_block tell n : Z) : outcome (Z * Z) :=
  if n =? u32 (last_block + 1) then Done (tell, tell)
  else
    index_pos ← block_index first_block last_block n;
    match index !! Z.to_nat index_pos with
    | None => Failed block_log_exception
    | Some block_n_pos =>
        let calc_blknum_pos := u64 (block_n_pos + blknum_offset) in
        prior ← lift (read_at block_log_exception f calc_blknum_pos 4);
        _ ← ensure (u32 (endian_reverse_u32 (le_value prior) + 1) =? n) block_log_exception;
        Done (block_n_pos, calc_blknum_pos + 4)
    end.

(** The header as [trim_data] reads it: version, first block, chain, and the rest of the file *)
Definition trim_header (f : file) : outcome (Z * Z * chain_id * list Z) :=
  version ← lift (read_at block_log_unsupported_version f 0 4);
  let version := le_value version in
  _ ← ensure (is_supported_version version) block_log_unsupported_version;
  let genesis_chain_id s :=
    match unpack_genesis s with
    | Some (gs, s) => Done (compute_chain_id gs, s)
    | None => Failed block_log_exception
    end in
  if version =? 1 then
    '(id, s) ← genesis_chain_id (drop 4 f);
    Done (version, 1, id, s)
  else
    first ← lift (read_at block_log_exception f 4 4);
    let first := le_value first in
    '(id, s) ← (if contains_genesis_state version first then genesis_chain_id (drop 8 f)
                else if contains_chain_id version first then
                  match unpack_chain_id (drop 8 f) with
                  | Some (id, s) => Done (id, s)
                  | None => Failed block_log_exception
                  end
                else Failed block_log_exception);
    totem ← lift (read_at block_log_exception s 0 8);
    _ ← ensure (le_value totem =? npos) block_log_exception;
    Done (version, first, id, drop 8 s).

Definition new_trim_data (f : file) (index : list Z) : outcome trim_data :=
  '(version, first, id, s) ← trim_header f;
  let start_of_blocks := size f - size s in
  let last := u32 (first + size index - 1) in
  '(pos, tell) ← block_pos f index first last start_of_blocks first;
  _ ← ensure (start_of_blocks =? pos) block_log_exception;
  Done (MkTrim version first last id pos tell).

Section trim.
Context (_buf_len _max_buffer_length : Z).

(** The inner loop of [trim_blocklog_front]: the positions stored in one chunk are moved and
    written to the new index. *)
Fixpoint move_positions (fuel : nat) (start pos_delta : Z) (buf : list Z) (original_pos : Z) (w : index_writer)
    : outcome (list Z * Z * index_writer) :=
  match fuel with
  | O => Undefined
  | S fuel =>
      if start <=? original_pos then
        let i := original_pos - start in
        content ← buffer_at buf i 8;
        let start_of_this_block := le_value content in
        let pos_content := u64 (start_of_this_block - pos_delta) in
        w ← write_index _max_buffer_length w pos_content;
        move_positions fuel start pos_delta (write_at 0 buf i (le64 pos_content))
          (u64 (start_of_this_block - 8)) w
      else Done (buf, original_pos, w)
  end.

(** The outer loop: chunks of at most the buffer's length, from the end of the log *)
Fixpoint copy_chunks (fuel inner : nat) (f : file) (original_first new_first : Z) (to_write_remaining : Z)
    (buf : list Z) (original_pos : Z) (w : index_writer) (new : file) : outcome (file * index_writer) :=
  match fuel with
  | O => Undefined
  | S fuel =>
      if 0 <? to_write_remaining then
        let read_size := if _buf_len <? to_write_remaining then _buf_len else to_write_remaining in
        let start := original_first + to_write_remaining - read_size in
        data ← lift (read_at block_log_exception f start read_size);
        let buf := data ++ drop (length data) buf in
        '(buf, original_pos, w) ← move_positions inner start (u64 (original_first - new_first)) buf original_pos w;
        let new := write_at 0 new (new_first + to_write_remaining - read_size) (take (Z.to_nat read_size) buf) in
        copy_chunks fuel inner f original_first new_first (to_write_remaining - read_size) buf original_pos w new
      else Done (new, w)
  end.

(** The new log and index, when anything is trimmed *)
Definition trim_blocklog_front (f : file) (index : list Z) (truncate_at_block : Z) : outcome (option (file * list Z)) :=
  td ← new_trim_data f index;
  if truncate_at_block <=? first_block td then Done None
  else if last_block td <? truncate_at_block then Done None
  else
    let new :=
      le32 max_supported_version ++ le32 truncate_at_block ++ pack_chain_id (td_chain_id td) ++ le64 npos in
    '(original_first, _) ←
      block_pos f index (first_block td) (last_block td) (blk_in_tell td) truncate_at_block;
    let to_write := u64 (size f - original_first) in
    let num_blocks := u32 (last_block td - truncate_at_block + 1) in
    '(new, w) ←
      copy_chunks (S (length f)) (S (Z.to_nat num_blocks)) f original_first (size new) to_write
        (replicate (Z.to_nat _buf_len) 0) (u64 (size f - 8)) (new_writer _max_buffer_length num_blocks) new;
    index ← complete _max_buffer_length w;
    Done (Some (new, index)).

End trim.

(** [trim_blocklog_end] of [programs/eosio-blocklog/main.cpp]: the shortened files, or the
    code it returns when it does nothing *)
Definition trim_blocklog_end (f : file) (index : list Z) (n : Z) : outcome ((file * list Z) + Z) :=
  td ← new_trim_data f index;
  if n <? first_block td then Done (inr 1)
  else if last_block td <=? n then Done (inr 2)
  else
    '(end_of_new_file, _) ←
      block_pos f index (first_block td) (last_block td) (blk_in_tell td) (u32 (n + 1));
    index_end ← block_index (first_block td) (last_block td) n;
    Done (inl (take (Z.to_nat end_of_new_file) f, take (Z.to_nat (index_end + 1)) index)).

(** ** The contents of a log *)

(** A log is a header, and blocks each followed by its position *)
Fixpoint entries (p : Z) (bs : list block) : file :=
  match bs with
  | [] => []
  | b :: bs => pack b ++ le64 p ++ entries (p + size (pack b) + 8) bs
  end.

Fixpoint positions (p : Z) (bs : list block) : list Z :=
  match bs with
  | [] => []
  | b :: bs => p :: positions (p + size (pack b) + 8) bs
  end.

Definition header (version first_block_num : Z) (context : list Z) : file :=
  le32 version ++ le32 first_block_num ++ context ++ le64 npos.

Definition log_of (context : list Z) (first : Z) (bs : list block) : block_log :=
  let h := header 3 first context in
  MkLog (h ++ entries (size h) bs) (positions (size h) bs) (last bs) true 3 first.

Definition numbered (first : Z) (bs : list block) : Prop :=
  ∀ i b, bs !! i = Some b → block_num b = first + Z.of_nat i.

(** ** Lemmas on bytes *)

Lemma size_app {A} (l k : list A) : size (l ++ k) = size l + size k.
Proof. unfold size. rewrite length_app. lia. Qed.

Lemma size_nonneg {A} (l : list A) : 0 ≤ size l.
Proof. unfold size. lia. Qed.

Lemma to_nat_size {A} (l : list A) : Z.to_nat (size l) = length l.
Proof. unfold size. lia. Qed.

Lemma size_le64 v : size (le64 v) = 8.
Proof. apply length_Z_to_little_endian. lia. Qed.

Lemma size_le32 v : size (le32 v) = 4.
Proof. apply length_Z_to_little_endian. lia. Qed.

Lemma length_le64 v : length (le64 v) = 8%nat.
Proof. pose proof (size_le64 v). unfold size in *. lia. Qed.

Lemma le64_value v : 0 ≤ v ≤ UINT64_MAX → le_value (le64 v) = v.
Proof.
  intros Hv. unfold le_value, le64.
  rewrite little_endian_to_Z_to_little_endian by lia.
  apply Z.mod_small. unfold UINT64_MAX in Hv. lia.
Qed.

Lemma le32_value v : 0 ≤ v ≤ UINT32_MAX → le_value (le32 v) = v.
Proof.
  intros Hv. unfold le_value, le32.
  rewrite little_endian_to_Z_to_little_endian by lia.
  apply Z.mod_small. unfold UINT32_MAX in Hv. lia.
Qed.

Lemma slice_mid (a m c : list Z) : slice (size a) (size m) (a ++ m ++ c) = m.
Proof. unfold slice. rewrite !to_nat_size, drop_app_length. apply take_app_length. Qed.

Lemma read_at_mid e (a m c : list Z) pos n :
  pos = size a → n = size m → read_at e (a ++ m ++ c) pos n = Ok m.
Proof.
  intros -> ->. unfold read_at. rewrite !size_app, slice_mid.
  pose proof (size_nonneg a). pose proof (size_nonneg c). pose proof (size_nonneg m). by compare_lia.
Qed.

(** ** Lemmas on contents *)

Lemma size_entries_cons p b bs :
  size (entries p (b :: bs)) = size (pack b) + 8 + size (entries (p + size (pack b) + 8) bs).
Proof. cbn [entries]. rewrite !size_app, size_le64. lia. Qed.

Lemma entries_app p bs bs' :
  entries p (bs ++ bs') = entries p bs ++ entries (p + size (entries p bs)) bs'.
Proof.
  revert p. induction bs as [|b bs IH]; intros p.
  - cbn. f_equal. unfold size. cbn. lia.
  - rewrite <-app_comm_cons, size_entries_cons. cbn [entries]. rewrite IH, <-!app_assoc.
    do 4 f_equal. lia.
Qed.

Lemma positions_app p bs bs' :
  positions p (bs ++ bs') = positions p bs ++ positions (p + size (entries p bs)) bs'.
Proof.
  revert p. induction bs as [|b bs IH]; intros p.
  - cbn. f_equal. unfold size. cbn. lia.
  - rewrite <-app_comm_cons, size_entries_cons. cbn [positions app]. rewrite IH. do 3 f_equal. lia.
Qed.

Lemma length_positions p bs : length (positions p bs) = length bs.
Proof. revert p. induction bs; intros p; cbn; auto. Qed.

(** The size of the entries does not depend on where they are *)
Lemma size_entries_move p q bs : size (entries p bs) = size (entries q bs).
Proof.
  revert p q. induction bs as [|b bs IH]; intros p q; [done|].
  rewrite !size_entries_cons. rewrite (IH _ (q + size (pack b) + 8)). lia.
Qed.

Definition offset (bs : list block) : Z := size (entries 0 bs).

Lemma size_entries p bs : size (entries p bs) = offset bs.
Proof. apply size_entries_move. Qed.

Lemma offset_app bs bs' : offset (bs ++ bs') = offset bs + offset bs'.
Proof. unfold offset. rewrite entries_app, size_app, (size_entries_move _ 0 bs'). lia. Qed.

Lemma offset_one b : offset [b] = size (pack b) + 8.
Proof. unfold offset. rewrite size_entries_cons. cbn [entries]. unfold size at 2. cbn [length]. lia. Qed.

Lemma offset_length bs : size bs ≤ offset bs.
Proof.
  induction bs as [|b bs IH]; [done|]. change (b :: bs) with ([b] ++ bs).
  rewrite offset_app, size_app, offset_one. pose proof (size_nonneg (pack b)). change (size [b]) with 1. lia.
Qed.

Lemma offset_nonneg bs : 0 ≤ offset bs.
Proof. apply size_nonneg. Qed.

(** A log around one of its blocks *)
Lemma entries_at p bs i b :
  bs !! i = Some b →
  entries p bs = entries p (take i bs) ++ (pack b ++ le64 (p + offset (take i bs))) ++
                 entries (p + offset (take (S i) bs)) (drop (S i) bs).
Proof.
  intros Hb. rewrite <-(take_drop_middle bs i b Hb) at 1.
  rewrite entries_app. cbn [entries]. rewrite size_entries, <-!app_assoc. do 4 f_equal.
  rewrite (take_S_r _ _ _ Hb), offset_app, offset_one. lia.
Qed.

Lemma positions_lookup p bs i b :
  bs !! i = Some b → positions p bs !! i = Some (p + offset (take i bs)).
Proof.
  intros Hb. pose proof (lookup_lt_Some _ _ _ Hb).
  rewrite <-(take_drop_middle bs i b Hb) at 1. rewrite positions_app, size_entries.
  rewrite lookup_app_r; rewrite length_positions, length_take_le by lia; [|lia].
  by rewrite Nat.sub_diag.
Qed.

Lemma offset_take_le bs i : offset (take i bs) ≤ offset bs.
Proof.
  rewrite <-(take_drop i bs) at 2. rewrite offset_app. pose proof (offset_nonneg (drop i bs)). lia.
Qed.

Lemma block_num_range b : 0 ≤ block_num b ≤ UINT32_MAX.
Proof. rewrite <-pack_prior. pose proof (u32_range (endian_reverse_u32 (le_value (slice blknum_offset 4 (pack b))) + 1)). unfold UINT32_MAX. lia. Qed.

Lemma size_header v first ctx : size (header v first ctx) = 16 + size ctx.
Proof. unfold header. rewrite !size_app, !size_le32, size_le64. lia. Qed.

(** ** Creating, appending and reading *)

Lemma append_log_of ctx first bs b :
  append (log_of ctx first bs) b =
  if size bs =? u32 (block_num b - first)
  then Ok (log_of ctx first (bs ++ [b]), size (header 3 first ctx) + offset bs)
  else Throw block_log_append_fail.
Proof.
  unfold append, log_of. cbn [genesis_written_to_block_log assert_that mbind result_bind index_file
    block_file first_block_num version].
  assert (size (positions (size (header 3 first ctx)) bs) = size bs) as ->.
  { unfold size at 1. by rewrite length_positions. }
  destruct (size bs =? _) eqn:E; apply Z.eqb_eq in E || apply Z.eqb_neq in E; compare_lia; [|done].
  rewrite size_app, size_entries, entries_app, positions_app, size_entries, last_snoc.
  cbn [entries positions]. by rewrite app_nil_r, <-!app_assoc.
Qed.

Lemma write_version_header first ctx rest :
  write_at 0 ((le32 0 ++ le32 first ++ ctx ++ le64 npos) ++ rest) 0 (le32 max_supported_version) =
  header 3 first ctx ++ rest.
Proof. unfold write_at, header. by rewrite <-!app_assoc. Qed.

(** Creating a log, with or without its first block *)
Lemma reset_with_log_of ctx first_block first :
  reset_with ctx first_block first =
  match first_block with
  | None => Ok (log_of ctx first [])
  | Some b => if u32 (block_num b - first) =? 0 then Ok (log_of ctx first [b]) else Throw block_log_append_fail
  end.
Proof.
  unfold reset_with, log_of. destruct first_block as [b|]; cbn [mbind result_bind].
  - unfold append. cbn [genesis_written_to_block_log assert_that mbind result_bind index_file
      block_file first_block_num version].
    change (size (@nil Z)) with 0.
    destruct (u32 _ =? 0) eqn:E; apply Z.eqb_eq in E || apply Z.eqb_neq in E; compare_lia; [|done].
    cbn [block_file index_file head]. rewrite write_version_header. cbn [entries positions last app].
    rewrite app_nil_r. do 2 f_equal.
  - cbn [block_file index_file head]. rewrite <-(app_nil_r (le32 0 ++ _)), write_version_header.
    done.
Qed.

Definition append_all (l : block_log) (bs : list block) : result exn block_log :=
  foldM (λ l b, '(l, _) ← append l b; Ok l) l bs.

Lemma append_all_log_of ctx first bs bs' l :
  first + size (bs ++ bs') ≤ 2 ^ 32 → 0 ≤ first → numbered first bs →
  append_all (log_of ctx first bs) bs' = Ok l → l = log_of ctx first (bs ++ bs') ∧ numbered first (bs ++ bs').
Proof.
  intros Hmax Hfirst. revert bs Hmax. induction bs' as [|b bs' IH]; intros bs Hmax Hnum Hl.
  { unfold append_all in Hl. cbn in Hl. rewrite app_nil_r. by simplify_eq. }
  unfold append_all in Hl. cbn [foldM] in Hl. rewrite append_log_of in Hl.
  destruct (size bs =? _) eqn:E; [apply Z.eqb_eq in E|done]. cbn [mbind result_bind] in Hl.
  replace (bs ++ b :: bs') with ((bs ++ [b]) ++ bs') in * by by rewrite <-app_assoc.
  apply IH; [done| |done].
  intros i c [Hc|[Hi Hc]]%lookup_app_Some; [by apply Hnum|].
  apply list_lookup_singleton_Some in Hc as [Hi0 <-].
  rewrite !size_app in Hmax. pose proof (block_num_range b). pose proof (size_nonneg bs').
  assert (size [b] = 1) as Hone by done. unfold u32, UINT32_MAX, size in *.
  rewrite Hone in Hmax. Z.div_mod_to_equations. lia.
Qed.

Lemma append_all_ok ctx first bs bs' :
  numbered first (bs ++ bs') → 0 ≤ first →
  append_all (log_of ctx first bs) bs' = Ok (log_of ctx first (bs ++ bs')).
Proof.
  revert bs. induction bs' as [|b bs' IH]; intros bs Hnum Hfirst.
  { by rewrite app_nil_r. }
  unfold append_all. cbn [foldM]. rewrite append_log_of.
  assert (block_num b = first + size bs) as Hb.
  { apply Hnum. rewrite lookup_app_r by lia. by rewrite Nat.sub_diag. }
  pose proof (block_num_range b) as Hr. pose proof (size_nonneg bs). unfold UINT32_MAX in Hr.
  rewrite Hb, u32_id by lia. compare_lia.
  replace (bs ++ b :: bs') with ((bs ++ [b]) ++ bs') in * by by rewrite <-app_assoc.
  by apply IH.
Qed.

(** Reading a block at its position *)
Lemma read_block_at h bs i b :
  bs !! i = Some b → read_block (h ++ entries (size h) bs) (size h + offset (take i bs)) = Ok b.
Proof.
  intros Hb. unfold read_block. rewrite size_app, size_entries.
  pose proof (offset_take_le bs i). compare_lia.
  rewrite (entries_at _ _ _ _ Hb), app_assoc.
  replace (size h + offset (take i bs)) with (size (h ++ entries (size h) (take i bs)))
    by (rewrite size_app, size_entries; done).
  by rewrite to_nat_size, drop_app_length, <-app_assoc, unpack_pack.
Qed.

Lemma read_block_by_num_log_of ctx first bs n :
  numbered first bs → 0 ≤ first → size (block_file (log_of ctx first bs)) ≤ npos →
  read_block_by_num (log_of ctx first bs) n =
  Ok (if first <=? n then bs !! Z.to_nat (n - first) else None).
Proof.
  intros Hnum Hfirst Hsize. unfold read_block_by_num, get_block_pos. cbn [head log_of first_block_num index_file block_file] in *.
  destruct (last bs) as [h|] eqn:Hlast; cycle 1.
  { apply last_None in Hlast as ->. cbn. rewrite Z.eqb_refl. by destruct (first <=? n). }
  rewrite last_lookup in Hlast. pose proof (lookup_lt_Some _ _ _ Hlast).
  pose proof (Hnum _ _ Hlast) as Hh. pose proof (block_num_range h) as Hr. unfold UINT32_MAX in Hr.
  destruct (first <=? n) eqn:E; [apply Z.leb_le in E|by rewrite andb_false_r].
  destruct (bs !! Z.to_nat (n - first)) as [b|] eqn:Hb.
  - pose proof (lookup_lt_Some _ _ _ Hb). pose proof (Hnum _ _ Hb) as Hbn. compare_lia.
    rewrite u32_id by lia. rewrite (positions_lookup _ _ _ _ Hb). cbn [mbind result_bind].
    rewrite size_app, size_entries in Hsize.
    pose proof (offset_take_le bs (S (Z.to_nat (n - first)))) as Hoff.
    rewrite (take_S_r _ _ _ Hb), offset_app, offset_one in Hoff. pose proof (size_nonneg (pack b)).
    compare_lia. rewrite (read_block_at _ _ _ _ Hb). cbn [mbind result_bind]. by compare_lia.
  - apply lookup_ge_None in Hb. compare_lia. cbn. by rewrite Z.eqb_refl.
Qed.

(** Writing the part of a list before the one that a file has *)
Lemma write_words (ps words : list Z) s e :
  (s ≤ e ≤ length ps)%nat → drop e words = drop e ps →
  (length words = length ps ∨ (length words ≤ s)%nat ∧ e = length ps) →
  let words' := write_at 0 words (Z.of_nat s) (take (e - s) (drop s ps)) in
  drop s words' = drop s ps ∧ length words' = length ps.
Proof.
  intros He Hdrop Hlen words'. unfold words', write_at. rewrite Nat2Z.id.
  assert (length (take (e - s) (drop s ps)) = e - s)%nat as Hl by (rewrite length_take_le; rewrite ?length_drop; lia).
  rewrite Hl. replace (s + (e - s))%nat with e by lia.
  assert (length (take s (words ++ replicate (s - length words) 0)) = s) as Hs
    by (rewrite length_take_le; rewrite ?length_app, ?length_replicate; lia).
  split.
  - rewrite drop_app_length' by done. rewrite Hdrop.
    rewrite <-(take_drop (e - s) (drop s ps)) at 2. rewrite drop_drop. do 2 f_equal. lia.
  - rewrite !length_app, Hs, Hl, Hdrop, length_drop. lia.
Qed.

(** ** The index writer *)

Section writer.
Context (max : Z) (Hmax : 1 ≤ max).

(** The writer has the words of [ps] from position [k] on: up to [w_end] in its buffer, and
    from there in the file. *)
Record writer_at (ps : list Z) (k : nat) (w : index_writer) : Prop := {
  wa_expected : w_blocks_expected w = size ps;
  wa_current : w_current_position w = Z.of_nat k - 1;
  wa_range : 0 ≤ w_start w ≤ Z.of_nat k ∧ Z.of_nat k ≤ w_end w ≤ size ps ∧ 1 ≤ w_end w;
  wa_start : w_start w = if w_end w <? max then 0 else w_end w - max;
  wa_length : size (w_buffer w) = max;
  wa_buffer : ∀ i x, (k ≤ i)%nat → Z.of_nat i < w_end w → ps !! i = Some x →
                w_buffer w !! Z.to_nat (Z.of_nat i - w_start w) = Some x;
  wa_file : ∃ words, w_file w = Some words ∧ drop (Z.to_nat (w_end w)) words = drop (Z.to_nat (w_end w)) ps ∧
              (size words = size ps ∨ (words = [] ∧ w_end w = size ps)) }.

Lemma to_file_location x : 0 ≤ x < 2 ^ 29 → buffer_location_to_file_location x = 8 * x.
Proof.
  intros Hx. unfold buffer_location_to_file_location. rewrite (u32_id x), Z.shiftl_mul_pow2 by lia.
  rewrite u32_id; lia.
Qed.

Lemma to_buffer_location x : 0 ≤ x < 2 ^ 29 → file_location_to_buffer_location (8 * x) = x.
Proof.
  intros Hx. unfold file_location_to_buffer_location. rewrite u32_id, Z.shiftr_div_pow2 by lia.
  change (2 ^ 3) with 8. rewrite Z.mul_comm, Z.div_mul; lia.
Qed.

Lemma buffer_words ps k w :
  writer_at ps k w → Z.of_nat k = w_start w →
  buffer_at (w_buffer w) 0 (w_end w - w_start w) = Done (take (Z.to_nat (w_end w) - k) (drop k ps)).
Proof.
  intros [_ _ Hr Hs Hl Hb _] Hk. unfold buffer_at.
  assert (w_end w - w_start w ≤ max) by (destruct (Z.ltb_spec (w_end w) max); lia).
  compare_lia. unfold slice. f_equal. change (Z.to_nat 0) with 0%nat. rewrite drop_0.
  apply list_eq. intros i. destruct (decide (i < Z.to_nat (w_end w) - k)%nat) as [Hi|Hi].
  - rewrite !lookup_take_lt by lia. rewrite lookup_drop.
    destruct (lookup_lt_is_Some_2 ps (k + i)) as [x Hx]; [unfold size in Hr; lia|].
    rewrite Hx. rewrite <-(Hb (k + i)%nat x) by (done || lia). f_equal. lia.
  - rewrite !lookup_take_ge by lia. done.
Qed.

(** A full buffer is flushed; otherwise nothing happens *)
Lemma shift_buffer_at ps k w :
  size ps < 2 ^ 29 → writer_at ps k w →
  shift_buffer max w =
    if w_start w <? Z.of_nat k then Done (w, false)
    else
      let words' := write_at 0 (default [] (w_file w)) (Z.of_nat k) (take (Z.to_nat (w_end w) - k) (drop k ps)) in
      Done (update_buffer_position max
              (MkWriter (Some words') (w_blocks_expected w) (w_buffer w) (w_current_position w) (w_start w) (w_end w)), true).
Proof.
  intros Hps Hw. unfold shift_buffer. rewrite (wa_current _ _ _ Hw). pose proof (wa_range _ _ _ Hw) as Hr.
  destruct (w_start w <? Z.of_nat k) eqn:E; [apply Z.ltb_lt in E; by compare_lia|apply Z.ltb_ge in E].
  assert (w_end w - w_start w > 0) by (pose proof (wa_start _ _ _ Hw) as Hs; destruct (Z.ltb_spec (w_end w) max); lia).
  compare_lia. rewrite !to_file_location by lia. compare_lia.
  rewrite !(Z.mul_comm 8), !Z.div_mul by lia. rewrite (buffer_words ps k w Hw) by lia.
  cbn [mbind outcome_bind]. by replace (w_start w) with (Z.of_nat k) at 1 by lia.
Qed.

(** After a flush the buffer is empty and ends at the current position *)
Lemma flushed_at ps k w :
  writer_at ps k w → Z.of_nat k = w_start w →
  size ps < 2 ^ 29 →
  let words' := write_at 0 (default [] (w_file w)) (Z.of_nat k) (take (Z.to_nat (w_end w) - k) (drop k ps)) in
  let w' := update_buffer_position max
              (MkWriter (Some words') (w_blocks_expected w) (w_buffer w) (w_current_position w) (w_start w) (w_end w)) in
  drop k words' = drop k ps ∧ length words' = length ps ∧ w_file w' = Some words' ∧
  w_current_position w' = Z.of_nat k - 1 ∧ (k ≠ 0%nat → writer_at ps k w' ∧ w_start w' < Z.of_nat k).
Proof.
  intros Hw Hk Hps words' w'. pose proof (wa_range _ _ _ Hw) as Hr.
  destruct (wa_file _ _ _ Hw) as (words & Hf & Hdrop & Hlen).
  assert (drop k words' = drop k ps ∧ length words' = length ps) as [Hd Hl].
  { unfold words'. rewrite Hf. change (default [] (Some words)) with words. apply write_words; unfold size in *; [lia|done|].
    destruct Hlen as [Hlen|[-> Hlen]]; [left; lia|right; cbn; lia]. }
  split_and!; [done|done|done|by apply Hw|]. intros Hk0.
  assert (w_end w' = Z.of_nat k) as He by (cbn; rewrite (wa_current _ _ _ Hw); lia).
  assert (w_start w' = if Z.of_nat k <? max then 0 else Z.of_nat k - max) as Hs.
  { unfold w', update_buffer_position. cbn [w_start w_current_position]. rewrite (wa_current _ _ _ Hw).
    replace (Z.of_nat k - 1 + 1) with (Z.of_nat k) by lia. by rewrite u64_id by (unfold size in *; lia). }
  split; [|rewrite Hs; destruct (Z.ltb_spec (Z.of_nat k) max); lia].
  split; [apply Hw|apply Hw| |by rewrite He|apply Hw| |].
  - rewrite He, Hs. destruct (Z.ltb_spec (Z.of_nat k) max); lia.
  - intros i x Hi Hie. lia.
  - exists words'. rewrite He, Nat2Z.id. split_and!; [done|done|left; unfold size; lia].
Qed.

(** Writing the word before the ones written *)
Lemma write_word_at ps k x w :
  size ps < 2 ^ 29 → writer_at ps (S k) w → w_start w < Z.of_nat (S k) → ps !! k = Some x →
  let i := w_current_position w - w_start w in
  0 ≤ i < size (w_buffer w) ∧
  writer_at ps k (MkWriter (w_file w) (w_blocks_expected w) (<[Z.to_nat i := x]> (w_buffer w))
                    (w_current_position w - 1) (w_start w) (w_end w)).
Proof.
  intros Hps Hw Hlt Hx i. pose proof (wa_range _ _ _ Hw) as Hr. pose proof (wa_start _ _ _ Hw) as Hs.
  pose proof (wa_length _ _ _ Hw) as Hl. pose proof (wa_current _ _ _ Hw) as Hc.
  assert (0 ≤ i < max) as Hi by (unfold i; destruct (Z.ltb_spec (w_end w) max); lia).
  split; [lia|]. split; cbn [w_blocks_expected w_current_position w_start w_end w_buffer w_file].
  - apply Hw.
  - lia.
  - lia.
  - done.
  - unfold size in *. by rewrite length_insert.
  - intros j y Hj Hje Hy. destruct (decide (j = k)) as [->|Hne].
    + simplify_eq. replace (Z.of_nat k - w_start w) with i by lia. apply list_lookup_insert_eq. unfold size in Hl. lia.
    + rewrite list_lookup_insert_ne by lia. apply (wa_buffer _ _ _ Hw); [lia|done..].
  - apply Hw.
Qed.

(** A writer that is new, or has written the words from [k] on *)
Definition writer_ok (ps : list Z) (k : nat) (w : index_writer) : Prop :=
  writer_at ps k w ∨ (w = new_writer max (size ps) ∧ k = length ps).

Lemma prepared_at ps k w :
  size ps < 2 ^ 29 → k ≠ 0%nat → writer_ok ps k w →
  ∃ w', prepare_buffer max w = Done w' ∧ writer_at ps k w' ∧ w_start w' < Z.of_nat k.
Proof.
  intros Hps Hk Hw.
  assert (∀ v, writer_at ps k v → ∃ v',
            ('(v', _) ← shift_buffer max v; Done v') = Done v' ∧ writer_at ps k v' ∧ w_start v' < Z.of_nat k) as Hshift.
  { intros v Hv. rewrite (shift_buffer_at ps k v Hps Hv). pose proof (wa_range _ _ _ Hv).
    destruct (Z.ltb_spec (w_start v) (Z.of_nat k)); [eexists; split; [done|by split]|].
    destruct (flushed_at ps k v Hv ltac:(lia) Hps) as (_ & _ & _ & _ & Hv').
    eexists. split; [done|]. by apply Hv'. }
  destruct Hw as [Hw|[-> ->]].
  - destruct (wa_file _ _ _ Hw) as (words & Hf & _). unfold prepare_buffer. rewrite Hf. by apply Hshift.
  - unfold prepare_buffer. cbn [w_file new_writer]. apply Hshift. clear Hshift.
    unfold new_writer, update_buffer_position, size in *. cbn [w_blocks_expected w_buffer w_start w_end w_current_position].
    rewrite to_file_location, to_buffer_location, u32_id by lia.
    replace (Z.of_nat (length ps) - 1 + 1) with (Z.of_nat (length ps)) by lia. rewrite u64_id by lia.
    split; cbn [w_blocks_expected w_buffer w_start w_end w_current_position w_file]; try done.
    + unfold size. destruct (Z.ltb_spec (Z.of_nat (length ps)) max); lia.
    + unfold size. rewrite length_replicate. lia.
    + intros i x Hi Hi'. lia.
    + exists []. rewrite Nat2Z.id, drop_nil, drop_all. split_and!; [done|done|by right].
Qed.

Lemma write_index_at ps k x w :
  size ps < 2 ^ 29 → writer_ok ps (S k) w → ps !! k = Some x →
  ∃ w', write_index max w x = Done w' ∧ writer_ok ps k w'.
Proof.
  intros Hps Hw Hx. destruct (prepared_at ps (S k) w Hps ltac:(done) Hw) as (v & Hv & Hat & Hlt).
  destruct (write_word_at ps k x v Hps Hat Hlt Hx) as [Hi Hat'].
  unfold write_index. rewrite Hv. cbn [mbind outcome_bind]. compare_lia.
  eexists. split; [done|by left].
Qed.

Lemma complete_at ps w : size ps < 2 ^ 29 → ps ≠ [] → writer_ok ps 0 w → complete max w = Done ps.
Proof.
  intros Hps Hne [Hw|[_ Hk]]; [|by destruct ps].
  unfold complete. rewrite (shift_buffer_at ps 0 w Hps Hw). pose proof (wa_range _ _ _ Hw).
  destruct (flushed_at ps 0 w Hw ltac:(lia) Hps) as (Hd & _ & Hf & Hc & _). compare_lia.
  rewrite Hc. compare_lia. rewrite Hf. f_equal. exact Hd.
Qed.

End writer.

Lemma supported_version v : 1 ≤ v ≤ 3 → is_supported_version v = true.
Proof.
  intros. unfold is_supported_version, min_supported_version, max_supported_version. apply Z.eqb_eq. lia.
Qed.

(** ** The reverse iterator *)

(** A header in one of the supported formats; version 1 has no first block number and no
    totem. *)
Record valid_header (v first : Z) (h : file) : Prop := {
  vh_size : 8 ≤ size h;
  vh_version : slice 0 4 h = le32 v;
  vh_first_range : 1 ≤ first ≤ UINT32_MAX;
  vh_format : (v = 1 ∧ first = 1) ∨
              (2 ≤ v ≤ 3 ∧ slice 4 4 h = le32 first ∧ ∃ h', h = h' ++ le64 npos) }.

Lemma header_valid v first ctx :
  2 ≤ v ≤ 3 → 1 ≤ first ≤ UINT32_MAX → valid_header v first (header v first ctx).
Proof.
  intros Hv Hf. split; [rewrite size_header; pose proof (size_nonneg ctx); lia|..].
  - exact (slice_mid [] (le32 v) _).
  - done.
  - right. split; [done|]. split; [exact (slice_mid (le32 v) (le32 first) _)|].
    exists (le32 v ++ le32 first ++ ctx). unfold header. by rewrite <-!app_assoc.
Qed.

Lemma slice_app_l pos n (f g : file) :
  0 ≤ pos → 0 ≤ n → pos + n ≤ size f → slice pos n (f ++ g) = slice pos n f.
Proof. intros. unfold slice, size in *. rewrite drop_app_le by lia. by rewrite take_app_le by (rewrite length_drop; lia). Qed.

Lemma slice_slice a m b n (f : file) :
  0 ≤ a → 0 ≤ b → 0 ≤ n → b + n ≤ m → slice b n (slice a m f) = slice (a + b) n f.
Proof.
  intros. unfold slice. rewrite skipn_firstn_comm, drop_drop, take_take.
  f_equal; [lia|]. f_equal. lia.
Qed.

Lemma size_slice pos n (f : file) : 0 ≤ pos → 0 ≤ n → pos + n ≤ size f → size (slice pos n f) = n.
Proof. intros. unfold slice, size in *. rewrite length_take_le; rewrite ?length_drop; lia. Qed.

Section iterator.
Context (v first : Z) (h : file) (bs : list block).
Context (buf_len : Z) (Hbuf : 8 ≤ buf_len ≤ 2 ^ 32).
Context (Hheader : valid_header v first h).

Let f : file := h ++ entries (size h) bs.
Let P (k : nat) : Z := size h + offset (take k bs).

Context (Hsize : size f < npos).

Lemma P_0 : P 0 = size h.
Proof. unfold P. rewrite take_0. unfold offset, size at 2. cbn. lia. Qed.

Lemma P_S k b : bs !! k = Some b → P (S k) = P k + size (pack b) + 8.
Proof. intros Hb. unfold P. rewrite (take_S_r _ _ _ Hb), offset_app, offset_one. lia. Qed.

Lemma P_length : P (length bs) = size f.
Proof. unfold P, f. by rewrite take_ge, size_app, size_entries. Qed.

Lemma P_le k : size h ≤ P k ≤ size f.
Proof.
  unfold P, f. rewrite size_app, size_entries.
  pose proof (offset_take_le bs k). pose proof (offset_nonneg (take k bs)). lia.
Qed.

(** The position stored after each block, and the totem before the first *)
Lemma file_field k b : bs !! k = Some b → slice (P (S k) - 8) 8 f = le64 (P k).
Proof.
  intros Hb. unfold f. rewrite (entries_at _ _ _ _ Hb), <-app_assoc, !app_assoc, <-(app_assoc _ (le64 _)).
  rewrite (P_S _ _ Hb). unfold P.
  replace (size h + offset (take k bs) + size (pack b) + 8 - 8) with
    (size ((h ++ entries (size h) (take k bs)) ++ pack b)) by (rewrite !size_app, size_entries; lia).
  rewrite <-(size_le64 (size h + offset (take k bs))) at 1. apply slice_mid.
Qed.

Lemma file_totem : v ≠ 1 → slice (P 0 - 8) 8 f = le64 npos.
Proof.
  intros Hv. rewrite P_0. destruct (vh_format _ _ _ Hheader) as [[-> _]|(_ & _ & h' & Hh')]; [done|].
  unfold f. rewrite Hh', size_app, size_le64, <-app_assoc.
  replace (size h' + 8 - 8) with (size h') by lia.
  rewrite <-(size_le64 npos) at 1. apply slice_mid.
Qed.

Lemma file_prior k b :
  bs !! k = Some b → slice (P k + blknum_offset) 4 f = slice blknum_offset 4 (pack b).
Proof.
  intros Hb. unfold f. rewrite (entries_at _ _ _ _ Hb), <-app_assoc, (app_assoc h).
  replace (P k) with (size (h ++ entries (size h) (take k bs))) by (rewrite size_app, size_entries; done).
  set (a := h ++ _). set (c := le64 _ ++ _). pose proof (pack_length b) as Hl. pose proof (size_nonneg a).
  rewrite <-(slice_slice (size a) (size (pack b))), slice_mid; unfold blknum_offset in *; lia || done.
Qed.

(** The iterator stands before block [k], and its buffer shows the file around it *)
Record iter_at (expected : Z) (k : nat) (it : reverse_iterator) : Prop := {
  ia_version : _version it = v;
  ia_found : _blocks_found it = size bs - Z.of_nat k;
  ia_expected : _blocks_expected it = expected;
  ia_current : _current_position_in_file it = P k - 8;
  ia_range : 0 ≤ _start_of_buffer_position it ∧ _end_of_buffer_position it ≤ size f ∧
             P k ≤ _end_of_buffer_position it ∧
             _end_of_buffer_position it - _start_of_buffer_position it ≤ buf_len;
  ia_length : size (_buffer_ptr it) = buf_len;
  ia_buffer : slice 0 (_end_of_buffer_position it - _start_of_buffer_position it) (_buffer_ptr it) =
              slice (_start_of_buffer_position it) (_end_of_buffer_position it - _start_of_buffer_position it) f }.

Lemma buffer_shows N k it pos n :
  iter_at N k it → 0 ≤ n → _start_of_buffer_position it ≤ pos → pos + n ≤ _end_of_buffer_position it →
  buffer_at (_buffer_ptr it) (pos - _start_of_buffer_position it) n = Done (slice pos n f).
Proof.
  intros Hit Hn Hpos Hend. pose proof (ia_range _ _ _ Hit). pose proof (ia_length _ _ _ Hit). unfold buffer_at. compare_lia.
  f_equal. rewrite <-(Z.add_0_l (pos - _)), <-slice_slice with
    (m := _end_of_buffer_position it - _start_of_buffer_position it) by lia.
  rewrite (ia_buffer _ _ _ Hit), slice_slice by lia. f_equal. lia.
Qed.

(** Refilling the buffer so that it ends at the current position *)
Lemma update_buffer_at N k it :
  _version it = v → _blocks_found it = size bs - Z.of_nat k → _blocks_expected it = N →
  _current_position_in_file it = P k - 8 → size (_buffer_ptr it) = buf_len →
  ∃ it', update_buffer buf_len f it = Done it' ∧ iter_at N k it' ∧
         _start_of_buffer_position it' ≤ P k - 8 ∧ _first_block_num it' = _first_block_num it ∧
         _end_of_buffer_position it' = P k.
Proof.
  intros Hver Hfound Hexp Hcur Hlen. pose proof (P_le k). pose proof (vh_size _ _ _ Hheader). unfold npos, UINT64_MAX in *.
  unfold update_buffer. rewrite Hcur. unfold _position_size, npos, UINT64_MAX. compare_lia.
  replace (P k - 8 + 8) with (P k) by lia. rewrite u64_id by lia.
  set (start := if P k <? buf_len then 0 else P k - buf_len).
  assert (0 ≤ start ≤ P k - 8 ∧ P k - start ≤ buf_len) by (unfold start; destruct (Z.ltb_spec (P k) buf_len); lia).
  compare_lia. unfold read_at. compare_lia. eexists. split; [done|].
  assert (length (slice start (P k - start) f) = Z.to_nat (P k - start)) as Hl.
  { pose proof (size_slice start (P k - start) f ltac:(lia) ltac:(lia) ltac:(lia)). unfold size in *. lia. }
  split; [|cbn; lia]. split; cbn [_version _blocks_found _blocks_expected _current_position_in_file
    _start_of_buffer_position _end_of_buffer_position _buffer_ptr]; try done.
  - lia.
  - unfold size in *. rewrite length_app, length_drop, Hl. lia.
  - unfold slice at 1. change (Z.to_nat 0) with 0%nat. rewrite drop_0, <-Hl. apply take_app_length.
Qed.

Lemma refill_at N k it :
  iter_at N k it →
  ∃ it1, (if P k - 8 <? _start_of_buffer_position it then update_buffer buf_len f it else Done it) = Done it1 ∧
         iter_at N k it1 ∧ _start_of_buffer_position it1 ≤ P k - 8.
Proof.
  intros Hit. destruct (Z.ltb_spec (P k - 8) (_start_of_buffer_position it)); [|by eexists].
  destruct (update_buffer_at N k it) as (it1 & ? & ? & ? & _); try apply Hit. by eexists.
Qed.

(** A step back over a block gives its position *)
Lemma previous_block k b it :
  size bs < 2 ^ 32 → bs !! k = Some b → iter_at (size bs) (S k) it →
  ∃ it', previous buf_len f it = Done (it', P k) ∧ iter_at (size bs) k it'.
Proof.
  intros Hn Hb Hit. pose proof (ia_range _ _ _ Hit). pose proof (P_le k). pose proof (P_le (S k)).
  pose proof (vh_size _ _ _ Hheader). pose proof (pack_length b). pose proof (P_S _ _ Hb) as HP.
  pose proof (lookup_lt_Some _ _ _ Hb). unfold npos, UINT64_MAX, blknum_offset in *.
  unfold previous. rewrite (ia_current _ _ _ Hit), (ia_found _ _ _ Hit), (ia_expected _ _ _ Hit).
  unfold npos, UINT64_MAX. compare_lia. rewrite andb_false_r.
  destruct (refill_at _ _ _ Hit) as (it1 & -> & Hit1 & Hstart).
  cbn [mbind outcome_bind]. rewrite (ia_current _ _ _ Hit1), (ia_found _ _ _ Hit1), (ia_expected _ _ _ Hit1).
  pose proof (ia_range _ _ _ Hit1).
  rewrite (buffer_shows (size bs) (S k) it1) by (done || lia). cbn [mbind outcome_bind].
  rewrite (file_field _ _ Hb), le64_value by (unfold UINT64_MAX; lia). unfold _position_size.
  rewrite u64_id by lia. compare_lia. eexists. split; [done|].
  split; cbn [_version _blocks_found _blocks_expected _current_position_in_file
    _start_of_buffer_position _end_of_buffer_position _buffer_ptr]; try apply Hit1; try done; [|lia].
  rewrite u32_id by (unfold size in *; lia). lia.
Qed.

(** Before the first block the iterator ends *)
Lemma previous_end it :
  size bs < 2 ^ 32 - 1 → (v = 1 → bs ≠ []) → iter_at (size bs) 0 it →
  ∃ it', previous buf_len f it = Done (it', npos).
Proof.
  intros Hn Hv1 Hit. pose proof (ia_range _ _ _ Hit). pose proof (P_le 0). rewrite P_0 in *.
  pose proof (vh_size _ _ _ Hheader). pose proof (size_nonneg bs).
  unfold npos, UINT64_MAX in *. unfold previous.
  rewrite (ia_current _ _ _ Hit), (ia_found _ _ _ Hit), (ia_expected _ _ _ Hit), (ia_version _ _ _ Hit), P_0.
  rewrite Z.sub_0_r, Z.eqb_refl, andb_true_r. unfold npos, UINT64_MAX. compare_lia.
  destruct (Z.eqb_spec v 1) as [Hv|Hv]; [by eexists|].
  destruct (refill_at _ _ _ Hit) as (it1 & Hre & Hit1 & Hstart). rewrite P_0 in Hre, Hstart. rewrite Hre.
  cbn [mbind outcome_bind]. rewrite (ia_current _ _ _ Hit1), (ia_found _ _ _ Hit1), (ia_expected _ _ _ Hit1), P_0.
  pose proof (ia_range _ _ _ Hit1) as Hr. rewrite P_0 in Hr.
  rewrite (buffer_shows (size bs) 0 it1) by (done || lia). cbn [mbind outcome_bind].
  rewrite <-P_0, (file_totem Hv), le64_value by (unfold npos, UINT64_MAX; lia).
  unfold npos, UINT64_MAX. rewrite u32_id by lia. compare_lia. by eexists.
Qed.

(** The version and the first block number *)
Lemma read_version e : read_at e f 0 4 = Ok (le32 v).
Proof.
  pose proof (vh_size _ _ _ Hheader). pose proof (P_le 0). unfold read_at. rewrite P_0 in *. compare_lia.
  unfold f. rewrite slice_app_l by lia. by rewrite (vh_version _ _ _ Hheader).
Qed.

Lemma read_first e : v ≠ 1 → read_at e f 4 4 = Ok (le32 first).
Proof.
  intros Hv. destruct (vh_format _ _ _ Hheader) as [[-> _]|(_ & Hf & _)]; [done|].
  pose proof (vh_size _ _ _ Hheader). pose proof (P_le 0). unfold read_at. rewrite P_0 in *. compare_lia.
  unfold f. rewrite slice_app_l by lia. by rewrite Hf.
Qed.

Lemma version_range : 1 ≤ v ≤ 3.
Proof. destruct (vh_format _ _ _ Hheader) as [[-> _]|[? _]]; lia. Qed.

Lemma version_supported : is_supported_version v = true.
Proof. apply supported_version, version_range. Qed.

Lemma last_number b :
  last bs = Some b → numbered first bs → block_num b = first + size bs - 1.
Proof.
  intros Hb Hnum. rewrite last_lookup in Hb. rewrite (Hnum _ _ Hb). apply lookup_lt_Some in Hb.
  unfold size. lia.
Qed.

Lemma file_last_field :
  slice (size f - 8) 8 f = le64 (match last bs with Some _ => P (pred (length bs)) | None => npos end) ∨ (v = 1 ∧ bs = []).
Proof.
  destruct (last bs) as [b|] eqn:Hb.
  - left. rewrite last_lookup in Hb. pose proof (lookup_lt_Some _ _ _ Hb).
    rewrite <-(file_field _ _ Hb), <-P_length. do 3 f_equal. lia.
  - apply last_None in Hb. destruct (decide (v = 1)); [by right|left].
    rewrite <-file_totem by done. rewrite <-P_length. by rewrite Hb.
Qed.

(** The number before the last block's, from the buffer or from the file *)
Lemma read_prior N k it :
  iter_at N (S k) it → _end_of_buffer_position it = size f → P k + 18 ≤ size f →
  (if _start_of_buffer_position it <=? P k
   then buffer_at (_buffer_ptr it) (u32 (P k - _start_of_buffer_position it) + 14) 4
   else lift (read_at block_log_exception f (u64 (P k + 14)) 4)) = Done (slice (P k + 14) 4 f).
Proof.
  intros Hit Hend Hk. pose proof (ia_range _ _ _ Hit). pose proof (P_le k). pose proof (vh_size _ _ _ Hheader).
  unfold npos, UINT64_MAX in *. destruct (Z.leb_spec (_start_of_buffer_position it) (P k)).
  - rewrite u32_id by lia. rewrite <-(buffer_shows _ _ _ (P k + 14) 4 Hit) by lia. f_equal. lia.
  - rewrite u64_id by lia. unfold read_at. by compare_lia.
Qed.

(** Opening the iterator: it stands after the last block and knows how many there are *)
Lemma iterator_open_at :
  numbered first bs → first + size bs ≤ 2 ^ 32 → (v = 1 → bs ≠ []) →
  ∃ it, iterator_open buf_len f = Done (it, size bs) ∧ (bs ≠ [] → iter_at (size bs) (length bs) it).
Proof.
  intros Hnum Hn Hv1. pose proof (P_le 0) as HP0. rewrite P_0 in HP0. pose proof (vh_size _ _ _ Hheader).
  pose proof (vh_first_range _ _ _ Hheader). pose proof version_range. unfold npos, UINT64_MAX, UINT32_MAX in *.
  unfold iterator_open. rewrite read_version. cbn [lift mbind outcome_bind].
  rewrite le32_value by (unfold UINT32_MAX; lia). rewrite version_supported. cbn [ensure mbind outcome_bind].
  assert ((if v =? 1 then Done (le32 1) else lift (read_at block_log_exception f 4 4)) = Done (le32 first)) as ->.
  { destruct (Z.eqb_spec v 1) as [Hv|Hv]; [|by rewrite (read_first _ Hv)].
    destruct (vh_format _ _ _ Hheader) as [[_ ->]|[? _]]; [done|lia]. }
  cbn [mbind outcome_bind]. rewrite le32_value by (unfold UINT32_MAX; lia). compare_lia.
  unfold _position_size. rewrite u64_id by lia.
  set (it0 := MkIter v first _ _ _ _ _ _).
  destruct (update_buffer_at 0 (length bs) it0) as (it & -> & Hit & Hstart & _ & Hend);
    [done|unfold size; cbn; lia|done|by rewrite P_length|unfold it0, size; cbn; rewrite length_replicate; lia|].
  rewrite P_length in Hstart, Hend. cbn [mbind outcome_bind]. pose proof (ia_range _ _ _ Hit) as Hr.
  rewrite (ia_current _ _ _ Hit), P_length, u32_id by lia.
  rewrite (buffer_shows _ _ _ _ _ Hit) by lia. cbn [mbind outcome_bind].
  destruct file_last_field as [->|[Hv Hbs]]; [|by destruct (Hv1 Hv)].
  destruct (last bs) as [b|] eqn:Hb; cycle 1.
  { apply last_None in Hb. rewrite le64_value, Z.eqb_refl by (unfold npos, UINT64_MAX; lia).
    exists it. by rewrite Hb. }
  pose proof (last_number b Hb Hnum) as Hnb. rewrite last_lookup in Hb. pose proof (lookup_lt_Some _ _ _ Hb).
  set (k := pred (length bs)) in *. assert (S k = length bs) as HS by lia.
  pose proof (P_S _ _ Hb) as HP. rewrite HS, P_length in HP. pose proof (pack_length b). pose proof (P_le k).
  unfold blknum_offset in *. rewrite le64_value by (unfold UINT64_MAX; lia). unfold npos, UINT64_MAX. compare_lia.
  rewrite (read_prior 0 k it) by (rewrite ?HS; done || lia).
  cbn [mbind outcome_bind]. change 14 with blknum_offset. rewrite (file_prior _ _ Hb), pack_prior, Hnb.
  replace (first + size bs - 1 - first + 1) with (size bs) by lia. pose proof (size_nonneg bs). rewrite u32_id by lia.
  eexists. split; [done|]. intros _. split; try apply Hit; try done; cbn; rewrite ?P_length; unfold size; lia.
Qed.

(** ** Reconstructing the index *)

Section index.
Context (max : Z) (Hmax : 1 ≤ max).
Context (Hcount : size bs < 2 ^ 29) (Hv1 : v = 1 → bs ≠ []).

Lemma index_blocks_at fuel k it w :
  (k < fuel)%nat → (k ≤ length bs)%nat → iter_at (size bs) k it → writer_ok max (positions (size h) bs) k w →
  ∃ w', index_blocks buf_len max fuel f it w = Done w' ∧ writer_ok max (positions (size h) bs) 0 w'.
Proof.
  revert k it w. induction fuel as [|fuel IH]; intros k it w Hfuel Hk Hit Hw; [lia|].
  assert (size (positions (size h) bs) = size bs) as Hps by (unfold size; by rewrite length_positions).
  cbn [index_blocks]. destruct k as [|k].
  - destruct (previous_end it) as (it' & ->); [lia|done|done|]. cbn [mbind outcome_bind].
    rewrite Z.eqb_refl. by eexists.
  - destruct (lookup_lt_is_Some_2 bs k) as [b Hb]; [lia|].
    destruct (previous_block k b it) as (it' & -> & Hit'); [lia|done|done|]. cbn [mbind outcome_bind].
    pose proof (P_le k). compare_lia.
    destruct (write_index_at max Hmax (positions (size h) bs) k (P k) w) as (w' & -> & Hw');
      [lia|done|by apply (positions_lookup _ _ _ b)|].
    cbn [mbind outcome_bind]. apply (IH k); [lia|lia|done|done].
Qed.

Lemma construct_index_log :
  numbered first bs → first + size bs ≤ 2 ^ 32 →
  construct_index buf_len max f = Done (positions (size h) bs).
Proof.
  intros Hnum Hn. unfold construct_index.
  destruct (iterator_open_at Hnum Hn Hv1) as (it & -> & Hit). cbn [mbind outcome_bind].
  destruct (decide (bs = [])) as [Hbs|Hne]; [by rewrite Hbs|].
  assert (size bs ≠ 0) by (rewrite <-length_zero_iff_nil in Hne; unfold size; lia). compare_lia.
  assert (size (positions (size h) bs) = size bs) as Hps by (unfold size; by rewrite length_positions).
  destruct (index_blocks_at (S (length f)) (length bs) it (new_writer max (size bs))) as (w & -> & Hw).
  - pose proof (offset_length bs). unfold f. rewrite length_app. pose proof (size_entries (size h) bs).
    unfold size in *. lia.
  - done.
  - by apply Hit.
  - right. by rewrite Hps, length_positions.
  - cbn [mbind outcome_bind]. apply complete_at; [done|lia| |done].
    rewrite <-length_zero_iff_nil, length_positions, length_zero_iff_nil. done.
Qed.

(** ** Opening the files *)

Lemma last_positions : last (positions (size h) bs) = (λ _, P (pred (length bs))) <$> last bs.
Proof.
  destruct (last bs) as [b|] eqn:Hb.
  - rewrite last_lookup in Hb. rewrite last_lookup, length_positions. by rewrite (positions_lookup _ _ _ _ Hb).
  - apply last_None in Hb. by rewrite Hb.
Qed.

(** The position of the last block, or the totem *)
Lemma read_last_position e :
  read_at e f (size f - 8) 8 = Ok (le64 (default npos (last (positions (size h) bs)))) .
Proof.
  pose proof (vh_size _ _ _ Hheader). pose proof (P_le 0). rewrite P_0 in *. unfold read_at. compare_lia.
  destruct file_last_field as [->|[Hv Hbs]]; [|by destruct (Hv1 Hv)].
  rewrite last_positions. by destruct (last bs).
Qed.

Lemma last_position_range : 0 ≤ default npos (last (positions (size h) bs)) ≤ UINT64_MAX.
Proof.
  rewrite last_positions. pose proof (P_le (pred (length bs))). pose proof (size_nonneg h).
  unfold npos, UINT64_MAX in *. destruct (last bs); cbn; lia.
Qed.

Lemma read_head_log : read_head f = Ok (last bs).
Proof.
  unfold read_head. pose proof (vh_size _ _ _ Hheader). pose proof (P_le 0). rewrite P_0 in *.
  pose proof last_position_range as Hr. pose proof last_positions as Hl.
  destruct (Z.leb_spec (size f) 8).
  { destruct (last bs) as [b|] eqn:Hb; [|done]. rewrite last_lookup in Hb. pose proof (P_S _ _ Hb) as HP.
    pose proof (pack_length b). unfold blknum_offset in *. pose proof (P_le (pred (length bs))). pose proof (P_le (S (pred (length bs)))). lia. }
  rewrite read_last_position. cbn [mbind result_bind]. rewrite le64_value by done. rewrite Hl in Hr |- *.
  destruct (last bs) as [b|] eqn:Hb; [|done]. cbn in Hr |- *.
  pose proof (P_le (pred (length bs))). compare_lia.
  rewrite last_lookup in Hb. unfold f, P. by rewrite (read_block_at _ _ _ _ Hb).
Qed.

(** Opening a log finds its blocks, and rebuilds an index whose last position is not that of
    the last block *)
Lemma open_log index :
  numbered first bs → first + size bs ≤ 2 ^ 32 →
  (last index = Some (default npos (last (positions (size h) bs))) → index = positions (size h) bs) →
  open buf_len max f index = Done (MkLog f (positions (size h) bs) (last bs) true v first).
Proof.
  intros Hnum Hn Hindex. pose proof (vh_size _ _ _ Hheader). pose proof (P_le 0). rewrite P_0 in *.
  pose proof version_range. pose proof (vh_first_range _ _ _ Hheader). unfold UINT32_MAX in *.
  unfold open. compare_lia. rewrite read_version. cbn [lift mbind outcome_bind].
  rewrite le32_value by (unfold UINT32_MAX; lia). rewrite version_supported. compare_lia.
  match goal with |- context [if 1 <? v then ?a else ?b] =>
    assert ((if 1 <? v then a else b) = Done first) as -> end.
  { destruct (Z.ltb_spec 1 v).
    - rewrite read_first by lia. cbn [lift mbind outcome_bind]. rewrite le32_value by (unfold UINT32_MAX; lia).
      by compare_lia.
    - destruct (vh_format _ _ _ Hheader) as [[_ ->]|[? _]]; [done|lia]. }
  cbn [mbind outcome_bind]. rewrite read_head_log. cbn [lift mbind outcome_bind].
  pose proof (construct_index_log Hnum Hn) as Hc.
  destruct (last index) as [x|]; [|by rewrite Hc].
  rewrite read_last_position. cbn [lift mbind outcome_bind]. rewrite le64_value by apply last_position_range.
  destruct (Z.ltb_spec (default npos (last (positions (size h) bs))) x); [by rewrite Hc|].
  destruct (Z.ltb_spec x (default npos (last (positions (size h) bs)))); [by rewrite Hc|].
  cbn [mbind outcome_bind]. rewrite Hindex by (f_equal; lia). done.
Qed.

End index.

End iterator.

(** ** Repairing a cut log *)

(** The blocks that fit, each with its position, in a number of bytes *)
Fixpoint fitting (room : Z) (bs : list block) : list block :=
  match bs with
  | [] => []
  | b :: bs => if size (pack b) + 8 <=? room then b :: fitting (room - (size (pack b) + 8)) bs else []
  end.

(** The blocks up to a number *)
Fixpoint up_to (n : Z) (bs : list block) : list block :=
  match bs with
  | [] => []
  | b :: bs => if block_num b =? n then [b] else b :: up_to n bs
  end.

Lemma size_take {A} n (l : list A) : 0 ≤ n ≤ size l → size (take (Z.to_nat n) l) = n.
Proof. intros. unfold size in *. rewrite length_take_le; lia. Qed.

(** A block that is not complete is not recovered *)
Lemma recover_cut_block fuel t room b p bs new :
  0 ≤ room ≤ size (entries p (b :: bs)) → room < size (pack b) + 8 → 0 ≤ p → p + room + 8 < npos →
  (recover_blocks fuel (p + room) t (Some (take (Z.to_nat room) (entries p (b :: bs)))) new p).1 = new.
Proof.
  intros Hroom Hcut Hp Hend. destruct fuel as [|fuel]; [done|]. cbn [recover_blocks].
  destruct (Z.ltb_spec p (p + room)); [|done]. unfold npos, UINT64_MAX in *.
  destruct (decide (room < size (pack b))) as [Hlt|Hge].
  - assert (take (Z.to_nat room) (entries p (b :: bs)) = take (Z.to_nat room) (pack b)) as ->.
    { cbn [entries]. apply take_app_le. unfold size in Hlt. lia. }
    pose proof (stream_unpack_cut b (take (Z.to_nat room) (pack b))) as Hlaw.
    destruct (stream_unpack _) as [[tmp s]|s]; [|done].
    rewrite Hlaw; [|by apply prefix_take|].
    2: { intros Heq%(f_equal size). rewrite size_take in Heq by lia. lia. }
    cbn [sread]. destruct (u64 _ <=? _); cbn [snd fst];
      (rewrite le64_value by (unfold npos, UINT64_MAX; lia)); unfold npos, UINT64_MAX; by compare_lia.
  - assert (∃ rest, take (Z.to_nat room) (entries p (b :: bs)) = pack b ++ rest ∧ size rest = room - size (pack b))
      as (rest & -> & Hrest).
    { cbn [entries] in *. rewrite take_app_ge by (unfold size in *; lia). eexists. split; [done|].
      rewrite !size_app in Hroom. rewrite <-to_nat_size, <-Z2Nat.inj_sub by apply size_nonneg.
      rewrite size_take; [lia|]. rewrite size_app. lia. }
    rewrite stream_unpack_pack. rewrite Hrest.
    pose proof (size_nonneg (pack b)). rewrite u64_id by lia. compare_lia.
    rewrite le64_value by (unfold npos, UINT64_MAX; lia). unfold npos, UINT64_MAX. by compare_lia.
Qed.

Lemma recover_blocks_at fuel t room p bs new :
  (Z.to_nat room < fuel)%nat → 0 ≤ room ≤ size (entries p bs) → p = size new → p + room + 8 < npos →
  (recover_blocks fuel (p + room) t (Some (take (Z.to_nat room) (entries p bs))) new p).1 =
  new ++ entries p (up_to t (fitting room bs)).
Proof.
  revert fuel room p new. induction bs as [|b bs IH]; intros fuel room p new Hfuel Hroom Hp Hend.
  { destruct fuel as [|fuel]; [lia|]. change (size (entries p [])) with 0 in Hroom.
    cbn [recover_blocks fitting up_to entries]. compare_lia. by rewrite app_nil_r. }
  cbn [fitting]. destruct (Z.leb_spec (size (pack b) + 8) room) as [Hfit|Hcut].
  2: { rewrite recover_cut_block; [|done|done|rewrite Hp; apply size_nonneg|done]. cbn. by rewrite app_nil_r. }
  destruct fuel as [|fuel]; [lia|]. cbn [recover_blocks].
  pose proof (size_nonneg (pack b)). pose proof (size_nonneg new). unfold npos, UINT64_MAX in *. compare_lia.
  set (p' := p + size (pack b) + 8). set (room' := room - (size (pack b) + 8)).
  rewrite size_entries_cons in Hroom. fold p' in Hroom.
  assert (take (Z.to_nat room) (entries p (b :: bs)) = pack b ++ le64 p ++ take (Z.to_nat room') (entries p' bs)) as ->.
  { cbn [entries]. fold p'. rewrite take_app_ge by (unfold size in *; lia).
    rewrite take_app_ge by (rewrite length_le64; unfold size in *; lia). rewrite length_le64.
    do 3 f_equal. unfold room', size. lia. }
  assert (room = room' + size (pack b) + 8) as Er by lia. assert (p' = p + size (pack b) + 8) as Ep by done.
  clearbody p' room'.
  rewrite stream_unpack_pack. rewrite !size_app, size_le64, size_take by lia.
  rewrite u64_id by lia. unfold sread. rewrite size_app, size_le64, size_take by lia.
  compare_lia.
  change (Z.to_nat 8) with 8%nat. rewrite <-(length_le64 p), take_app_length, drop_app_length.
  rewrite le64_value by (unfold UINT64_MAX; lia). compare_lia. cbn [up_to].
  destruct (block_num b =? t); cbn [fst entries].
  - by rewrite app_nil_r.
  - replace (size new + (size (pack b) + 8)) with p' by lia. rewrite <-Ep.
    replace (p + room) with (p' + room') by lia.
    rewrite IH; [by rewrite <-!app_assoc|lia|lia|rewrite !size_app, size_le64; lia|unfold npos, UINT64_MAX; lia].
Qed.

Lemma sread_app (l k init : list Z) : sread (size l) init (Some (l ++ k)) = (l, Some k).
Proof.
  unfold sread. rewrite size_app. pose proof (size_nonneg k). compare_lia.
  by rewrite to_nat_size, take_app_length, drop_app_length.
Qed.

Lemma sread_le32 v k init : sread 4 init (Some (le32 v ++ k)) = (le32 v, Some k).
Proof. rewrite <-(size_le32 v) at 1. apply sread_app. Qed.

Lemma sread_le64 v k init : sread 8 init (Some (le64 v ++ k)) = (le64 v, Some k).
Proof. rewrite <-(size_le64 v) at 1. apply sread_app. Qed.

Lemma repair_header_at v g rest :
  2 ≤ v ≤ 3 →
  repair_header (header v 1 (pack_genesis g) ++ rest) = Done (header v 1 (pack_genesis g), Some rest).
Proof.
  intros Hv. unfold repair_header, header. rewrite <-!app_assoc, sread_le32, le32_value by (unfold UINT32_MAX; lia).
  rewrite supported_version by lia. compare_lia. rewrite sread_le32, le32_value by (unfold UINT32_MAX; lia). compare_lia.
  unfold contains_genesis_state. rewrite Z.eqb_refl, orb_true_r, stream_unpack_pack_genesis. cbn [mbind outcome_bind].
  rewrite sread_le64, le64_value, Z.eqb_refl by (unfold npos, UINT64_MAX; lia). cbn [ensure mbind outcome_bind].
  by rewrite <-!app_assoc.
Qed.

(** Whatever the cut, the complete blocks are recovered *)
Lemma repair_log_cut v g bs t cut :
  let h := header v 1 (pack_genesis g) in
  2 ≤ v ≤ 3 → 0 ≤ cut ≤ offset bs → size h + offset bs + 8 < npos →
  ∃ tail, repair_log (take (Z.to_nat (size h + cut)) (h ++ entries (size h) bs)) t =
    Done (h ++ entries (size h) (up_to t (fitting cut bs)), tail).
Proof.
  intros h Hv Hcut Hend. pose proof (size_nonneg h).
  rewrite take_app_ge by (unfold size in *; lia).
  replace (Z.to_nat (size h + cut) - length h)%nat with (Z.to_nat cut) by (unfold size; lia).
  unfold repair_log. rewrite (repair_header_at v g _ Hv : repair_header (h ++ _) = Done (h, _)). cbn [mbind outcome_bind].
  rewrite size_app, size_take by (rewrite size_entries; lia).
  replace (size h + cut - cut) with (size h) by lia.
  destruct (recover_blocks _ _ _ _ _ _) as [new tail] eqn:E. exists tail. do 2 f_equal.
  apply (f_equal fst) in E. cbn [fst] in E. rewrite <-E. apply recover_blocks_at; [|by rewrite size_entries|done|lia].
  rewrite length_app, length_take, <-(to_nat_size (entries _ _)), size_entries. unfold size in *. lia.
Qed.

(** ** A log through appends, restarts and repairs *)

Lemma fitting_prefix room bs : fitting room bs `prefix_of` bs.
Proof.
  revert room. induction bs as [|b bs IH]; intros room; cbn; [done|].
  destruct (_ <=? _); [by apply prefix_cons|apply prefix_nil].
Qed.

Lemma up_to_prefix n bs : up_to n bs `prefix_of` bs.
Proof.
  induction bs as [|b bs IH]; cbn; [done|].
  destruct (_ =? _); apply prefix_cons; [apply prefix_nil|done].
Qed.

Lemma numbered_prefix first bs bs' : bs' `prefix_of` bs → numbered first bs → numbered first bs'.
Proof. intros [k ->] Hnum i b Hb. apply Hnum. by apply lookup_app_l_Some. Qed.

(** Sizes within which positions are 64-bit and the index writer's locations do not wrap *)
Definition within_limits (context : list Z) (bs : list block) : Prop :=
  size (header 3 1 context) + offset bs + 8 < npos ∧ size bs < 2 ^ 29.

Lemma limits_prefix ctx bs bs' : bs' `prefix_of` bs → within_limits ctx bs → within_limits ctx bs'.
Proof.
  intros [k ->] [Hs Hc]. rewrite offset_app in Hs. rewrite size_app in Hc.
  pose proof (offset_nonneg k). pose proof (size_nonneg k). split; lia.
Qed.

(** The node appends a block, restarts with the index file as it finds it, or restarts with
    the log cut at a byte and repaired, as far as a block number *)
Inductive log_op :=
  | Append (b : block)
  | Restart (index : list Z)
  | Repair (cut truncate_at_block : Z).

Section operations.
Context (buf_len max : Z) (Hbuf : 8 ≤ buf_len ≤ 2 ^ 32) (Hmax : 1 ≤ max).
Context (gs : genesis).

Let ctx : list Z := pack_genesis gs.
Let h : file := header 3 1 ctx.

Definition log_exec (l : block_log) (op : log_op) : outcome block_log :=
  match op with
  | Append b => '(l, _) ← lift (append l b); Done l
  | Restart index => open buf_len max (block_file l) index
  | Repair cut t =>
      '(new, _) ← repair_log (take (Z.to_nat cut) (block_file l)) t;
      open buf_len max new []
  end.

Definition spec_exec (bs : list block) (op : log_op) : option (list block) :=
  match op with
  | Append b => if block_num b =? size bs + 1 then Some (bs ++ [b]) else None
  | Restart _ => Some bs
  | Repair cut t => Some (up_to t (fitting (cut - size h) bs))
  end.

(** A restart may find any index, unless it ends like the right one and is not; a cut spares
    the header *)
Definition op_admissible (bs : list block) (op : log_op) : Prop :=
  match op with
  | Append b => within_limits ctx (bs ++ [b])
  | Restart index =>
      last index = Some (default npos (last (positions (size h) bs))) → index = positions (size h) bs
  | Repair cut _ => size h ≤ cut ≤ size h + offset bs
  end.

Fixpoint log_run (l : block_log) (ops : list log_op) : outcome block_log :=
  match ops with
  | [] => Done l
  | op :: ops => l ← log_exec l op; log_run l ops
  end.

Fixpoint spec_run (bs : list block) (ops : list log_op) : option (list block) :=
  match ops with
  | [] => Some bs
  | op :: ops => bs ← spec_exec bs op; spec_run bs ops
  end.

Fixpoint ops_admissible (bs : list block) (ops : list log_op) : Prop :=
  match ops with
  | [] => True
  | op :: ops =>
      op_admissible bs op ∧ match spec_exec bs op with Some bs => ops_admissible bs ops | None => True end
  end.

Definition log_ok (bs : list block) : Prop := numbered 1 bs ∧ within_limits ctx bs.

Lemma open_log_of bs index :
  log_ok bs →
  (last index = Some (default npos (last (positions (size h) bs))) → index = positions (size h) bs) →
  open buf_len max (h ++ entries (size h) bs) index = Done (log_of ctx 1 bs).
Proof.
  intros [Hnum [Hs Hc]] Hindex. pose proof (size_nonneg bs).
  apply (open_log 3 1 h bs buf_len Hbuf); [apply header_valid; unfold UINT32_MAX; lia| |done|done|done|done|lia|done].
  rewrite size_app, size_entries. fold h in Hs. lia.
Qed.

(** One operation keeps the log that of a list of blocks *)
Lemma log_exec_spec bs op :
  log_ok bs → op_admissible bs op →
  match spec_exec bs op with
  | Some bs' => log_ok bs' ∧ log_exec (log_of ctx 1 bs) op = Done (log_of ctx 1 bs')
  | None => log_exec (log_of ctx 1 bs) op = Failed block_log_append_fail
  end.
Proof.
  intros Hok Hadm. pose proof Hok as [Hnum Hlim]. destruct op as [b|index|cut t]; cbn [spec_exec log_exec] in *.
  - pose proof (block_num_range b). destruct Hlim as [_ Hc]. pose proof (size_nonneg bs). unfold UINT32_MAX in *.
    rewrite append_log_of. destruct (Z.eqb_spec (block_num b) (size bs + 1)) as [Hb|Hb].
    + rewrite u32_id by lia. compare_lia. split; [|done]. split; [|done].
      intros i c [Hi|[Hi Hc']]%lookup_app_Some; [by apply Hnum|].
      apply list_lookup_singleton_Some in Hc' as [? <-]. unfold size in Hb. lia.
    + unfold u32. destruct (Z.eqb_spec (size bs) ((block_num b - 1) mod 2 ^ 32)); [|done].
      Z.div_mod_to_equations. lia.
  - split; [done|]. by apply open_log_of.
  - cbn [op_admissible] in Hadm.
    destruct (repair_log_cut 3 gs bs t (cut - size h)) as [tail Ht]; [lia|lia|apply Hlim|].
    fold ctx h in Ht. replace (size h + (cut - size h)) with cut in Ht by lia.
    cbn [log_of block_file]. fold h. rewrite Ht. cbn [mbind outcome_bind].
    assert (up_to t (fitting (cut - size h) bs) `prefix_of` bs) as Hpre
      by (etrans; [apply up_to_prefix|apply fitting_prefix]).
    split; [split; [by eapply numbered_prefix|by eapply limits_prefix]|].
    apply open_log_of; [|done]. split; [by eapply numbered_prefix|by eapply limits_prefix].
Qed.

Lemma log_run_spec bs ops :
  log_ok bs → ops_admissible bs ops →
  match spec_run bs ops with
  | Some bs' => log_ok bs' ∧ log_run (log_of ctx 1 bs) ops = Done (log_of ctx 1 bs')
  | None => log_run (log_of ctx 1 bs) ops = Failed block_log_append_fail
  end.
Proof.
  revert bs. induction ops as [|op ops IH]; intros bs Hok Hadm; [done|].
  destruct Hadm as [Hop Hadm]. pose proof (log_exec_spec bs op Hok Hop) as Hexec.
  cbn [spec_run log_run]. destruct (spec_exec bs op) as [bs'|]; cbn [mbind option_bind].
  - destruct Hexec as [Hok' ->]. by apply IH.
  - by rewrite Hexec.
Qed.


End operations.

(** ** Trimming the front *)

Lemma write_at_mid (a m m' c : list Z) :
  size m = size m' → write_at 0 (a ++ m ++ c) (size a) m' = a ++ m' ++ c.
Proof.
  intros Hm. unfold write_at. rewrite to_nat_size, <-!app_assoc, take_app_length.
  do 2 f_equal. rewrite app_assoc, drop_app_length'; [done|]. rewrite length_app. unfold size in Hm. lia.
Qed.

Lemma size_write_at (f d : list Z) p : 0 ≤ p → p + size d ≤ size f → size (write_at 0 f p d) = size f.
Proof.
  intros Hp Hd. unfold write_at, size in *. rewrite !length_app, length_take, length_drop, length_app, length_replicate. lia.
Qed.

Lemma lookup_write_at (f d : list Z) p i :
  0 ≤ p → p + size d ≤ size f →
  write_at 0 f p d !! i =
  if decide (p ≤ Z.of_nat i < p + size d) then d !! (i - Z.to_nat p)%nat else f !! i.
Proof.
  intros Hp Hd. unfold write_at, size in *. rewrite take_app_le by lia.
  assert (length (take (Z.to_nat p) f) = Z.to_nat p) as Hl by (rewrite length_take_le; lia).
  destruct (decide (Z.of_nat i < p)).
  - rewrite lookup_app_l, lookup_take_lt by lia. by rewrite decide_False by lia.
  - rewrite lookup_app_r, Hl by lia. destruct (decide (p ≤ Z.of_nat i < p + Z.of_nat (length d))).
    + rewrite lookup_app_l by lia. done.
    + rewrite lookup_app_r, lookup_drop by lia. f_equal. lia.
Qed.

Lemma lookup_slice s len (f : list Z) i :
  0 ≤ s → 0 ≤ len → slice s len f !! i = if decide (Z.of_nat i < len) then f !! (Z.to_nat s + i)%nat else None.
Proof.
  intros Hs Hl. unfold slice. destruct (decide (Z.of_nat i < len)).
  - by rewrite lookup_take_lt, lookup_drop by lia.
  - by rewrite lookup_take_ge by lia.
Qed.

(** A write inside a part of a file is a write to the part *)
Lemma slice_write_at s len (f d : list Z) p :
  0 ≤ s ≤ p → p + size d ≤ s + len → s + len ≤ size f →
  slice s len (write_at 0 f p d) = write_at 0 (slice s len f) (p - s) d.
Proof.
  intros Hs Hp Hlen. pose proof (size_nonneg d). apply list_eq. intros i.
  rewrite lookup_slice, !lookup_write_at, lookup_slice by (rewrite ?size_slice by lia; lia).
  destruct (decide (Z.of_nat i < len)); repeat case_decide; try lia || done. f_equal. lia.
Qed.

(** Chunks are cut from the end of the blocks.  The start of chunk [j] is inside the
    position of the [k]-th block: *)
Definition straddles (buf_len : Z) (bs : list block) (j k : nat) : Prop :=
  let r := offset bs - Z.of_nat j * buf_len in
  0 < r ∧ offset (take k bs) - 8 < r < offset (take k bs).

Section copying.
Context (buf_len max : Z) (Hbuf : 8 ≤ buf_len) (Hmax : 1 ≤ max).
(** The blocks kept, in the old file after [a] and in the new one after [h] *)
Context (a h : file) (bs : list block).
Context (Ha : 8 ≤ size a) (Hlimit : size a + offset bs < npos) (Hnew : size h + offset bs < npos).
Context (Hcount : size bs < 2 ^ 29).

Let o : Z := size a.
Let m : Z := size h.
Let f : file := a ++ entries o bs.
Let L : Z := offset bs.
Let Q (k : nat) : Z := offset (take k bs).

(** The blocks of the log when the positions from block [k] on are moved *)
Definition mixed (k : nat) : list Z := entries o (take k bs) ++ entries (m + Q k) (drop k bs).

Lemma Q_range k : 0 ≤ Q k ≤ L.
Proof. split; [apply offset_nonneg|apply offset_take_le]. Qed.

Lemma Q_S k b : bs !! k = Some b → Q (S k) = Q k + size (pack b) + 8.
Proof. intros Hb. unfold Q. rewrite (take_S_r _ _ _ Hb), offset_app, offset_one. lia. Qed.

Lemma Q_0 : Q 0 = 0.
Proof. unfold Q. by rewrite take_0. Qed.

Lemma size_mixed k : size (mixed k) = L.
Proof.
  unfold mixed. rewrite size_app, !size_entries, <-offset_app, take_drop. done.
Qed.

Lemma mixed_all : mixed (length bs) = entries o bs.
Proof. unfold mixed. rewrite take_ge, drop_all by done. apply app_nil_r. Qed.

Lemma mixed_0 : mixed 0 = entries m bs.
Proof. unfold mixed. rewrite take_0, drop_0, Q_0, Z.add_0_r. done. Qed.

(** One position field, before and after it is moved *)
Lemma mixed_field k b :
  bs !! k = Some b →
  slice (Q (S k) - 8) 8 (mixed (S k)) = le64 (o + Q k) ∧
  mixed k = write_at 0 (mixed (S k)) (Q (S k) - 8) (le64 (m + Q k)).
Proof.
  intros Hb. pose proof (Q_S _ _ Hb) as HQ.
  assert (mixed (S k) = (entries o (take k bs) ++ pack b) ++ le64 (o + Q k) ++ entries (m + Q (S k)) (drop (S k) bs)) as ->.
  { unfold mixed. rewrite (take_S_r _ _ _ Hb), entries_app, size_entries. cbn [entries].
    fold (Q k). by rewrite app_nil_r, <-!app_assoc. }
  assert (mixed k = (entries o (take k bs) ++ pack b) ++ le64 (m + Q k) ++ entries (m + Q (S k)) (drop (S k) bs)) as ->.
  { unfold mixed. rewrite (drop_S _ _ _ Hb). cbn [entries]. rewrite <-!app_assoc. do 4 f_equal. lia. }
  replace (Q (S k) - 8) with (size (entries o (take k bs) ++ pack b)) by (rewrite size_app, size_entries; fold (Q k); lia).
  split.
  - rewrite <-(size_le64 (o + Q k)) at 1. apply slice_mid.
  - by rewrite write_at_mid by by rewrite !size_le64.
Qed.

(** From block [k] on all positions are moved *)
Lemma mixed_tail k s len :
  Q k ≤ s → 0 ≤ len → slice s len (mixed k) = slice s len (mixed 0).
Proof.
  intros Hs Hlen. pose proof (Q_range k).
  assert (∀ x, size x = Q k → slice s len (x ++ entries (m + Q k) (drop k bs)) =
                 slice (s - Q k) len (entries (m + Q k) (drop k bs))) as Hx.
  { intros x Hx. unfold slice, size in *. rewrite drop_app_ge by lia. do 2 f_equal. lia. }
  assert (entries m bs = entries m (take k bs) ++ entries (m + Q k) (drop k bs)) as He.
  { rewrite <-(take_drop k bs) at 1. by rewrite entries_app, size_entries. }
  rewrite mixed_0, He. unfold mixed. by rewrite !Hx by apply size_entries.
Qed.

(** Before the field of block [k] no position is moved *)
Lemma mixed_head k s len :
  0 ≤ s → 0 ≤ len → s + len ≤ L → (k = length bs ∨ (k < length bs)%nat ∧ s + len ≤ Q (S k) - 8) →
  slice s len (entries o bs) = slice s len (mixed k).
Proof.
  intros Hs Hlen HL [->|[Hk Hfield]]; [by rewrite mixed_all|].
  destruct (lookup_lt_is_Some_2 bs k Hk) as [b Hb]. rewrite (Q_S _ _ Hb) in Hfield.
  rewrite (entries_at _ _ _ _ Hb). unfold mixed. rewrite (drop_S _ _ _ Hb). cbn [entries].
  rewrite <-!app_assoc, !(app_assoc (entries o _)).
  rewrite (slice_app_l _ _ _ (le64 (o + _) ++ _)), (slice_app_l _ _ _ (le64 (m + _) ++ _))
    by (rewrite ?size_app, ?size_entries; fold (Q k); lia). done.
Qed.

Lemma original_bytes s len :
  0 ≤ s → 0 ≤ len → s + len ≤ L → read_at block_log_exception f (o + s) len = Ok (slice s len (entries o bs)).
Proof.
  intros. unfold read_at, f. rewrite size_app, size_entries. fold o L. pose proof (size_nonneg a).
  compare_lia. unfold slice, o, size. rewrite drop_app_ge by lia. do 3 f_equal. lia.
Qed.

Definition delta : Z := u64 (o - m).

Lemma moved_position k : u64 (o + Q k - delta) = m + Q k.
Proof.
  unfold delta. pose proof (Q_range k). fold o L in Hlimit. fold m L in Hnew. pose proof (size_nonneg h : 0 ≤ m).
  unfold npos, UINT64_MAX, u64 in *.
  rewrite Zminus_mod_idemp_r. replace (o + Q k - (o - m)) with (m + Q k) by lia. apply Z.mod_small. lia.
Qed.

(** One chunk: the positions in it are moved and indexed *)
Lemma move_positions_at s len fuel k buf w :
  0 ≤ s → 0 ≤ len ≤ buf_len → s + len ≤ L → Q k ≤ s + len →
  (k < fuel)%nat → (k ≤ length bs)%nat → size buf = buf_len → slice 0 len buf = slice s len (mixed k) →
  writer_ok max (positions m bs) k w →
  ∃ k' buf' w', move_positions max fuel (o + s) delta buf (o + Q k - 8) w = Done (buf', o + Q k' - 8, w') ∧
    (k' ≤ k)%nat ∧ (k' = k ∨ s ≤ Q (S k') - 8) ∧ Q k' - 8 < s ∧ size buf' = buf_len ∧ slice 0 len buf' = slice s len (mixed k') ∧
    writer_ok max (positions m bs) k' w'.
Proof.
  intros Hs Hlen HsL. revert k buf w. induction fuel as [|fuel IH]; intros k buf w HQ Hfuel Hk Hsize Hbytes Hw; [lia|].
  cbn [move_positions]. destruct (Z.leb_spec (o + s) (o + Q k - 8)) as [Hle|Hgt].
  2: { eexists k, buf, w. split_and!; done || lia. }
  destruct k as [|k]; [rewrite Q_0 in Hle; lia|].
  destruct (lookup_lt_is_Some_2 bs k) as [b Hb]; [lia|].
  destruct (mixed_field k b Hb) as [Hfield Hmoved]. pose proof (Q_range k).
  unfold buffer_at. compare_lia. replace (o + Q (S k) - 8 - (o + s)) with (Q (S k) - 8 - s) by lia.
  assert (slice (Q (S k) - 8 - s) 8 buf = le64 (o + Q k)) as ->.
  { rewrite <-(Z.add_0_l (Q (S k) - 8 - s)), <-(slice_slice 0 len), Hbytes, slice_slice by lia.
    rewrite <-Hfield. f_equal. lia. }
  fold o L in Hlimit. unfold npos, UINT64_MAX in *.
  rewrite le64_value by (unfold UINT64_MAX; lia). rewrite moved_position.
  destruct (write_index_at max Hmax (positions m bs) k (m + Q k) w) as (w' & -> & Hw').
  { unfold size. rewrite length_positions. done. }
  { done. }
  { by apply (positions_lookup _ _ _ b). }
  cbn [mbind outcome_bind]. rewrite u64_id by lia.
  destruct (IH k (write_at 0 buf (Q (S k) - 8 - s) (le64 (m + Q k))) w') as (k' & buf' & v & Hmove & Hk' & Hfirst & Hrest);
    try done || lia.
  - pose proof (Q_S _ _ Hb). pose proof (size_nonneg (pack b)). lia.
  - rewrite size_write_at; rewrite ?size_le64; lia.
  - rewrite slice_write_at by (rewrite ?size_le64; lia). rewrite Z.sub_0_r, Hbytes, Hmoved.
    by rewrite slice_write_at by (rewrite ?size_le64, ?size_mixed; lia).
  - exists k', buf', v. split; [done|]. split; [lia|]. split; [right|done].
    destruct Hfirst as [->|]; [lia|done].
Qed.

(** The bytes from [r] on are in the new file *)
Definition copied (r : Z) (new : file) : Prop :=
  take (length h) new = h ∧ drop (Z.to_nat (m + r)) new = drop (Z.to_nat (m + r)) (h ++ entries m bs) ∧
  (size new = m + L ∨ new = h ∧ r = L).

Lemma copied_chunk s r new :
  0 ≤ s ≤ r → r ≤ L → copied r new →
  copied s (write_at 0 new (m + s) (slice s (r - s) (entries m bs))).
Proof.
  intros Hs Hr (Hh & Hdrop & Hsize). pose proof (size_nonneg h : 0 ≤ m).
  assert (slice s (r - s) (entries m bs) =
          take (Z.to_nat (m + r) - Z.to_nat (m + s)) (drop (Z.to_nat (m + s)) (h ++ entries m bs))) as ->.
  { unfold slice, m, size in *. rewrite drop_app_ge by lia. f_equal; [lia|]. f_equal. lia. }
  assert (size (h ++ entries m bs) = m + L) as HT by (rewrite size_app, size_entries; done).
  pose proof (write_words (h ++ entries m bs) new (Z.to_nat (m + s)) (Z.to_nat (m + r))) as Hw.
  rewrite Z2Nat.id in Hw by lia. destruct Hw as [Hd Hl]; [unfold size in HT; lia|done| |].
  { destruct Hsize as [Hsz|[-> ->]]; [left; unfold size in *; lia|right; unfold m, size in *; lia]. }
  split_and!; [|done|left; unfold size in *; lia].
  unfold write_at. rewrite take_app_le.
  - rewrite take_take, Nat.min_l by (unfold m, size; lia).
    rewrite take_app_le; [done|]. rewrite <-Hh, length_take. lia.
  - rewrite length_take, length_app, length_replicate. unfold m, size. lia.
Qed.

(** One turn of the outer loop *)
Lemma copy_chunk fuel inner r k buf w new :
  0 < r ≤ L → Q k ≤ r → (k = length bs ∨ (k < length bs)%nat ∧ r ≤ Q (S k) - 8) → (k < inner)%nat →
  size buf = buf_len → writer_ok max (positions m bs) k w →
  let s := if buf_len <? r then r - buf_len else 0 in
  ∃ k' buf' w' new',
    copy_chunks buf_len max (S fuel) inner f o m r buf (o + Q k - 8) w new =
      copy_chunks buf_len max fuel inner f o m s buf' (o + Q k' - 8) w' new' ∧
    0 ≤ s < r ∧ (k' ≤ k)%nat ∧ (k' = length bs ∨ (k' < length bs)%nat ∧ s ≤ Q (S k') - 8) ∧ Q k' - 8 < s ∧ size buf' = buf_len ∧
    writer_ok max (positions m bs) k' w' ∧ (Q k' ≤ s → copied r new → copied s new').
Proof.
  intros Hr HQ Hk Hinner Hsize Hw s.
  set (len := if buf_len <? r then buf_len else r).
  assert (s + len = r ∧ 0 ≤ s < r ∧ len ≤ buf_len) as (Hs & Hsr & Hlen)
    by (unfold s, len; destruct (Z.ltb_spec buf_len r); lia).
  cbn [copy_chunks]. fold len. compare_lia. replace (o + r - len) with (o + s) by lia.
  rewrite original_bytes by lia. cbn [lift mbind outcome_bind]. fold delta.
  rewrite (mixed_head k) by (rewrite ?Hs; done || lia).
  assert (size (slice s len (mixed k)) = len) as Hdata by (apply size_slice; rewrite ?size_mixed; lia).
  destruct (move_positions_at s len inner k (slice s len (mixed k) ++ drop (length (slice s len (mixed k))) buf) w)
    as (k' & buf' & w' & -> & Hk' & Hfirst & Hlast & Hsize' & Hbytes & Hw'); try done || lia.
  - unfold size in *. rewrite length_app, length_drop. lia.
  - rewrite <-Hdata at 1. apply (slice_mid []).
  - cbn [mbind outcome_bind]. replace (r - len) with s by lia. replace (m + r - len) with (m + s) by lia.
    assert (k' = length bs ∨ (k' < length bs)%nat ∧ s ≤ Q (S k') - 8) as Hnext.
    { destruct (decide (k' = k)) as [->|Hne]; [destruct Hk; lia|right; destruct Hfirst; lia]. }
    eexists k', buf', w', _. split; [done|]. split_and!; try done || lia.
    intros Hq Hc. rewrite <-(drop_0 buf'). fold (slice 0 len buf').
    change (take (Z.to_nat len) (drop 0 buf')) with (slice 0 len buf').
    rewrite Hbytes, mixed_tail, mixed_0 by lia. replace len with (r - s) by lia. apply copied_chunk; [lia|lia|done].
Qed.

Lemma Q_mono k k' : (k ≤ k')%nat → Q k ≤ Q k'.
Proof.
  intros Hk. unfold Q. replace (take k bs) with (take k (take k' bs)) by (rewrite take_take; f_equal; lia).
  apply offset_take_le.
Qed.

Lemma Q_pos k : (k ≤ length bs)%nat → Q k - 8 < 0 → k = 0%nat.
Proof.
  destruct k as [|k]; [done|]. intros Hk. destruct (lookup_lt_is_Some_2 bs k) as [b Hb]; [lia|].
  rewrite (Q_S _ _ Hb). pose proof (Q_range k). pose proof (pack_length b). unfold blknum_offset in *. lia.
Qed.

Lemma copied_all new : copied 0 new → new = h ++ entries m bs.
Proof.
  intros (Hh & Hd & _). rewrite <-(take_drop (length h) new), Hh. f_equal.
  rewrite Z.add_0_r in Hd. unfold m in Hd at 1 2. rewrite to_nat_size, drop_app_length in Hd. done.
Qed.

(** Without a straddling position, the whole of the blocks is copied *)
Lemma copy_chunks_at fuel inner r k buf w new :
  (∀ j k, ¬ straddles buf_len bs j k) →
  (∃ j : nat, r = L - Z.of_nat j * buf_len) ∨ r = 0 → 0 ≤ r → r < Z.of_nat fuel →
  Q k ≤ r → (k = length bs ∨ (k < length bs)%nat ∧ r ≤ Q (S k) - 8) → (k < inner)%nat →
  size buf = buf_len → writer_ok max (positions m bs) k w → copied r new →
  ∃ w', copy_chunks buf_len max fuel inner f o m r buf (o + Q k - 8) w new = Done (h ++ entries m bs, w') ∧
        writer_ok max (positions m bs) 0 w'.
Proof.
  intros Hal. revert r k buf w new. induction fuel as [|fuel IH];
    intros r k buf w new Hj Hr Hfuel HQ Hk Hinner Hsize Hw Hc; [lia|].
  destruct (decide (r = 0)) as [->|Hr0].
  { cbn [copy_chunks]. compare_lia. apply copied_all in Hc as ->. eexists. split; [done|].
    by rewrite (Q_pos k) in Hw by lia. }
  assert (∃ j : nat, r = L - Z.of_nat j * buf_len) as [j Hrj] by (by destruct Hj).
  assert (r ≤ L) by lia.
  destruct (copy_chunk fuel inner r k buf w new) as
    (k' & buf' & w' & new' & -> & Hs & Hk' & Hnext & Hlast & Hsize' & Hw' & Hcopied); try done || lia.
  set (s := if buf_len <? r then r - buf_len else 0) in *.
  assert ((∃ j : nat, s = L - Z.of_nat j * buf_len) ∨ s = 0) as Hsj.
  { unfold s. destruct (buf_len <? r); [left; exists (S j); lia|by right]. }
  assert (Q k' ≤ s) as HQ'.
  { destruct (decide (s = 0)) as [Hs0|Hs0]; [rewrite (Q_pos k') by lia; rewrite Q_0; lia|].
    destruct Hsj as [[j' Hj']|]; [|done]. specialize (Hal j' k'). unfold straddles in Hal.
    fold L in Hal. fold (Q k') in Hal. lia. }
  apply IH; try done || lia. by apply Hcopied.
Qed.

(** A position that straddles the end of a full chunk is accessed outside the buffer *)
Lemma copy_chunk_straddling fuel inner r k buf w new :
  buf_len ≤ r ≤ L → r < Q k < r + 8 → (0 < inner)%nat → size buf = buf_len →
  copy_chunks buf_len max (S fuel) inner f o m r buf (o + Q k - 8) w new = Undefined.
Proof.
  intros Hr HQ Hinner Hsize. destruct inner as [|inner]; [lia|]. cbn [copy_chunks]. compare_lia.
  set (len := if buf_len <? r then buf_len else r).
  assert (len = buf_len) as -> by (unfold len; destruct (Z.ltb_spec buf_len r); lia).
  replace (o + r - buf_len) with (o + (r - buf_len)) by lia. rewrite original_bytes by lia.
  cbn [lift mbind outcome_bind move_positions]. compare_lia. unfold buffer_at.
  assert (size (slice (r - buf_len) buf_len (entries o bs)) = buf_len) as Hl
    by (apply size_slice; rewrite ?size_entries; fold L; lia).
  rewrite size_app. unfold size at 2. rewrite length_drop. unfold size in Hl, Hsize |- *. by compare_lia.
Qed.

Lemma copy_chunks_straddling n fuel inner j k r buf w new :
  (∀ i k, (i < j + n)%nat → ¬ straddles buf_len bs i k) →
  (∃ k, straddles buf_len bs (j + n) k) → (0 < n)%nat → buf_len ≤ L - Z.of_nat (j + n) * buf_len →
  r = L - Z.of_nat j * buf_len → r < Z.of_nat fuel → (length bs < inner)%nat →
  Q k ≤ r → (k = length bs ∨ (k < length bs)%nat ∧ r ≤ Q (S k) - 8) →
  size buf = buf_len → writer_ok max (positions m bs) k w →
  copy_chunks buf_len max fuel inner f o m r buf (o + Q k - 8) w new = Undefined.
Proof.
  revert fuel j k r buf w new. induction n as [|n IH];
    intros fuel j k r buf w new Hal Hst Hn Hfull Hr Hfuel Hinner HQ Hk Hsize Hw; [lia|].
  destruct fuel as [|fuel]; [lia|].
  destruct (copy_chunk fuel inner r k buf w new) as
    (k' & buf' & w' & new' & -> & Hs & Hk' & Hnext & Hlast & Hsize' & Hw' & _); try done || lia.
  rewrite (proj2 (Z.ltb_lt buf_len r)) in * by lia.
  destruct n as [|n].
  - destruct fuel as [|fuel]; [lia|]. apply copy_chunk_straddling; try done || lia.
    destruct Hst as (k1 & Hpos & Hst). fold (Q k1) L in Hst.
    replace (L - Z.of_nat (j + 1) * buf_len) with (r - buf_len) in * by lia.
    destruct (decide (k1 ≤ k')%nat) as [Hle|Hgt]; [pose proof (Q_mono _ _ Hle); lia|].
    destruct Hnext as [->|[Hk1 Hnext]].
    + assert (Q k1 = Q (length bs)) by (unfold Q; by rewrite !take_ge by lia). lia.
    + pose proof (Q_mono (S k') k1 ltac:(lia)). lia.
  - apply (IH fuel (S j)); try done || lia.
    + intros i k1 Hi. apply Hal. lia.
    + by replace (S j + S n)%nat with (j + S (S n))%nat by lia.
    + specialize (Hal (S j) k' ltac:(lia)). unfold straddles in Hal. fold L in Hal. fold (Q k') in Hal. lia.
Qed.

End copying.

(** What the header says of the chain *)
Definition chain_context (v first : Z) (ctx : list Z) (id : chain_id) : Prop :=
  (contains_genesis_state v first = true ∧ ∃ g, ctx = pack_genesis g ∧ id = compute_chain_id g) ∨
  (contains_genesis_state v first = false ∧ contains_chain_id v first = true ∧ ctx = pack_chain_id id).

Lemma trim_header_at v first ctx id rest :
  2 ≤ v ≤ 3 → 1 ≤ first ≤ UINT32_MAX → chain_context v first ctx id →
  trim_header (header v first ctx ++ rest) = Done (v, first, id, rest).
Proof.
  intros Hv Hfirst Hctx. unfold trim_header, header. rewrite <-!app_assoc. unfold UINT32_MAX in *.
  pose proof (read_at_mid block_log_unsupported_version [] (le32 v)) as Hr.
  cbn [app] in Hr. rewrite (Hr _ 0 4) by (by rewrite ?size_le32). clear Hr. cbn [lift mbind outcome_bind].
  rewrite le32_value by (unfold UINT32_MAX; lia).
  rewrite supported_version by lia. compare_lia. rewrite (read_at_mid _ (le32 v) (le32 first)) by (by rewrite size_le32). cbn [lift mbind outcome_bind].
  rewrite le32_value by (unfold UINT32_MAX; lia).
  assert (drop 8 (le32 v ++ le32 first ++ ctx ++ le64 npos ++ rest) = ctx ++ le64 npos ++ rest) as -> by done.
  assert (read_at block_log_exception (le64 npos ++ rest) 0 8 = Ok (le64 npos)) as Ht
    by (apply (read_at_mid _ []); by rewrite ?size_le64).
  assert (le_value (le64 npos) = npos) as Hn by (apply le64_value; unfold npos, UINT64_MAX; lia).
  destruct Hctx as [(-> & g & -> & ->)|(-> & -> & ->)].
  - rewrite unpack_pack_genesis. cbn [mbind outcome_bind]. rewrite Ht. cbn [lift mbind outcome_bind]. by rewrite Hn.
  - rewrite unpack_pack_chain_id. cbn [mbind outcome_bind]. rewrite Ht. cbn [lift mbind outcome_bind]. by rewrite Hn.
Qed.

Section trimming.
Context (v first : Z) (ctx : list Z) (id : chain_id) (bs : list block).
Context (Hv : 2 ≤ v ≤ 3) (Hfirst : 1 ≤ first ≤ UINT32_MAX) (Hctx : chain_context v first ctx id).
Context (Hnum : numbered first bs) (Hcount : size bs < 2 ^ 29) (Hlast : first + size bs ≤ 2 ^ 32 - 1).

Let h : file := header v first ctx.
Let f : file := h ++ entries (size h) bs.

Context (Hsize : size f + 18 < npos).

Lemma block_pos_at tell k b :
  bs !! k = Some b →
  block_pos f (positions (size h) bs) first (first + size bs - 1) tell (first + Z.of_nat k) =
  Done (size h + offset (take k bs), size h + offset (take k bs) + 18).
Proof.
  intros Hb. pose proof (lookup_lt_Some _ _ _ Hb). unfold block_pos, block_index. unfold npos, UINT64_MAX, UINT32_MAX in *.
  unfold size in Hcount, Hlast. rewrite (u32_id (_ + size bs - 1 + 1)) by (unfold size; lia).
  assert (first + Z.of_nat k < first + size bs) by (unfold size; lia). compare_lia.
  replace (first + Z.of_nat k - first) with (Z.of_nat k) by lia. rewrite u32_id, Nat2Z.id by lia.
  rewrite (positions_lookup _ _ _ _ Hb).
  pose proof (offset_take_le bs k) as Hoff. pose proof (offset_nonneg (take k bs)). pose proof (size_nonneg h).
  assert (size f = size h + offset bs) as Hf by (unfold f; by rewrite size_app, size_entries).
  unfold blknum_offset at 1 2. rewrite u64_id by lia.
  pose proof (file_prior h bs k b Hb) as Hprior. fold f in Hprior. unfold blknum_offset at 1 in Hprior.
  pose proof (offset_take_le bs (S k)) as HS. rewrite (take_S_r _ _ _ Hb), offset_app, offset_one in HS.
  pose proof (pack_length b) as Hl. unfold blknum_offset in Hl.
  unfold read_at. compare_lia. rewrite Hprior, pack_prior, (Hnum _ _ Hb), Z.eqb_refl. cbn [ensure mbind outcome_bind].
  do 2 f_equal. lia.
Qed.

Lemma new_trim_data_at :
  bs ≠ [] →
  new_trim_data f (positions (size h) bs) =
  Done (MkTrim v first (first + size bs - 1) id (size h) (size h + 18)).
Proof.
  intros Hne. unfold new_trim_data.
  rewrite (trim_header_at v first ctx id (entries (size h) bs) Hv Hfirst Hctx : trim_header f = _).
  cbn [mbind outcome_bind].
  replace (size f - size (entries (size h) bs)) with (size h) by (unfold f; rewrite size_app; lia).
  assert (size (positions (size h) bs) = size bs) as -> by (unfold size; by rewrite length_positions).
  unfold UINT32_MAX in *. pose proof (size_nonneg bs). rewrite u32_id by lia.
  assert (0 < length bs)%nat as Hpos0 by (rewrite <-length_zero_iff_nil in Hne; lia).
  destruct (lookup_lt_is_Some_2 bs 0 Hpos0) as [b Hb].
  pose proof (block_pos_at (size h) 0 b Hb) as Hpos. rewrite Z.add_0_r in Hpos. rewrite Hpos. cbn [mbind outcome_bind].
  rewrite take_0. change (offset []) with 0. rewrite Z.add_0_r, Z.eqb_refl. done.
Qed.

(** Trimming at block [k], once the chunks are copied *)
Lemma trim_blocklog_front_at buf_len max k :
  1 ≤ max → 8 ≤ buf_len → (0 < k < length bs)%nat →
  let o := size h + offset (take k bs) in
  let new := header 3 (first + Z.of_nat k) (pack_chain_id id) in
  let kept := drop k bs in
  trim_blocklog_front buf_len max f (positions (size h) bs) (first + Z.of_nat k) =
  '(new, w) ← copy_chunks buf_len max (S (length f)) (S (length kept)) f o (size new) (offset kept)
                (replicate (Z.to_nat buf_len) 0) (o + offset kept - 8) (new_writer max (size kept)) new;
  index ← complete max w;
  Done (Some (new, index)).
Proof.
  intros Hmax Hbuf Hk o new kept. unfold trim_blocklog_front.
  assert (bs ≠ []) as Hne by (rewrite <-length_zero_iff_nil; lia).
  rewrite new_trim_data_at by done. cbn [mbind outcome_bind first_block last_block blk_in_tell td_chain_id].
  assert (first + Z.of_nat k ≤ first + size bs - 1) by (unfold size; lia). compare_lia.
  destruct (lookup_lt_is_Some_2 bs k) as [b Hb]; [lia|]. rewrite (block_pos_at _ _ _ Hb). cbn [mbind outcome_bind].
  fold o. change (le32 max_supported_version ++ _) with new.
  assert (size f = o + offset kept) as Hf.
  { unfold f, o, kept. rewrite size_app, size_entries, <-Z.add_assoc, <-offset_app, take_drop. done. }
  pose proof (size_nonneg h). pose proof (offset_nonneg (take k bs)). pose proof (offset_nonneg kept).
  assert (size h = 16 + size ctx) by apply size_header. pose proof (size_nonneg ctx). unfold npos, UINT64_MAX in *.
  rewrite Hf. replace (o + offset kept - o) with (offset kept) by lia. rewrite !u64_id by lia.
  assert (first + size bs - 1 - (first + Z.of_nat k) + 1 = size kept) as ->
    by (unfold kept, size; rewrite length_drop; lia).
  assert (size kept ≤ size bs) by (unfold kept, size; rewrite length_drop; lia). pose proof (size_nonneg kept).
  rewrite u32_id by lia. by rewrite to_nat_size.
Qed.

Lemma file_around k :
  f = (h ++ entries (size h) (take k bs)) ++ entries (size h + offset (take k bs)) (drop k bs).
Proof. unfold f. by rewrite <-app_assoc, <-size_entries with (p := size h), <-entries_app, take_drop. Qed.

End trimming.

(** A log whose numbers, count and positions are in range, also under the header it gets when
    it is trimmed *)
Record trimmable (v first : Z) (ctx : list Z) (id : chain_id) (bs : list block) : Prop := {
  tr_version : 2 ≤ v ≤ 3;
  tr_first : 1 ≤ first;
  tr_context : chain_context v first ctx id;
  tr_numbered : numbered first bs;
  tr_count : size bs < 2 ^ 29 ∧ first + size bs ≤ 2 ^ 32 - 1;
  tr_size : size (header v first ctx) + offset bs + 18 < npos;
  tr_new_size : size (header 3 first (pack_chain_id id)) + offset bs + 18 < npos }.

Lemma offset_drop_le k bs : offset (drop k bs) ≤ offset bs.
Proof. rewrite <-(take_drop k bs) at 2. rewrite offset_app. pose proof (offset_nonneg (take k bs)). lia. Qed.

Lemma size_drop_le {A} k (l : list A) : size (drop k l) ≤ size l.
Proof. unfold size. rewrite length_drop. lia. Qed.

Lemma numbered_drop first bs k : numbered first bs → numbered (first + Z.of_nat k) (drop k bs).
Proof. intros Hnum i b Hb. rewrite lookup_drop in Hb. rewrite (Hnum _ _ Hb). lia. Qed.

Section trim_results.
Context (v first : Z) (ctx : list Z) (id : chain_id) (bs : list block) (buf_len max : Z) (k : nat).
Context (Htrim : trimmable v first ctx id bs) (Hbuf : 8 ≤ buf_len) (Hmax : 1 ≤ max) (Hk : (0 < k < length bs)%nat).

Let h : file := header v first ctx.
Let kept : list block := drop k bs.
Let a : file := h ++ entries (size h) (take k bs).
Let new : file := header 3 (first + Z.of_nat k) (pack_chain_id id).

Lemma kept_facts :
  h ++ entries (size h) bs = a ++ entries (size a) kept ∧ 8 ≤ size a ∧ size a + offset kept < npos ∧
  size new + offset kept < npos ∧ size kept < 2 ^ 29 ∧ 0 ≤ offset kept ∧ kept ≠ [] ∧
  size (h ++ entries (size h) bs) = size a + offset kept.
Proof.
  destruct Htrim as [? ? ? ? [Hc ?] Hs Hn]. fold h in Hs.
  assert (size a = size h + offset (take k bs)) as Ha by (unfold a; by rewrite size_app, size_entries).
  pose proof (file_around v first ctx bs k) as Hf. fold h in Hf. fold a kept in Hf. rewrite <-Ha in Hf.
  assert (offset (take k bs) + offset kept = offset bs) by (unfold kept; by rewrite <-offset_app, take_drop).
  rewrite size_header in Hn. assert (size new = 16 + size (pack_chain_id id)) by apply size_header.
  pose proof (size_header v first ctx) as Hh. fold h in Hh. pose proof (size_nonneg ctx).
  pose proof (offset_nonneg (take k bs)). pose proof (offset_nonneg kept).
  pose proof (size_drop_le k bs : size kept ≤ size bs).
  split_and!; [done|lia|lia|lia|lia|lia| |rewrite Hf, size_app, size_entries; done].
  unfold kept. rewrite <-length_zero_iff_nil, length_drop. lia.
Qed.

Lemma trim_unfold :
  trim_blocklog_front buf_len max (h ++ entries (size h) bs) (positions (size h) bs) (first + Z.of_nat k) =
  '(new, w) ← copy_chunks buf_len max (S (length (h ++ entries (size h) bs))) (S (length kept)) (a ++ entries (size a) kept)
                (size a) (size new) (offset kept)
                (replicate (Z.to_nat buf_len) 0) (size a + offset kept - 8) (new_writer max (size kept)) new;
  index ← complete max w;
  Done (Some (new, index)).
Proof.
  destruct Htrim as [Hv Hf Hc Hn [Hcnt Hl] Hs Hns]. destruct kept_facts as (Hfile & _). pose proof (size_nonneg bs).
  assert (size a = size h + offset (take k bs)) as Ha by (unfold a; by rewrite size_app, size_entries).
  rewrite (trim_blocklog_front_at v first ctx id bs) by
    (try done; unfold UINT32_MAX; try lia; by rewrite size_app, size_entries).
  fold h kept new. rewrite <-Ha, Hfile. done.
Qed.

Lemma length_kept : take (length kept) kept = kept.
Proof. by apply take_ge. Qed.

Lemma trim_front_aligned :
  (∀ j i, ¬ straddles buf_len kept j i) →
  trim_blocklog_front buf_len max (h ++ entries (size h) bs) (positions (size h) bs) (first + Z.of_nat k) =
  Done (Some (new ++ entries (size new) kept, positions (size new) kept)).
Proof.
  intros Hal. rewrite trim_unfold. destruct kept_facts as (_ & Ha & Hsa & Hsn & Hcount & Hnn & Hne & Hsz).
  pose proof length_kept as Hlen.
  destruct (copy_chunks_at buf_len max Hbuf Hmax a new kept Ha Hsa Hsn Hcount (S (length (h ++ entries (size h) bs)))
    (S (length kept)) (offset kept) (length kept) (replicate (Z.to_nat buf_len) 0) (new_writer max (size kept)) new)
    as (w & Hcopy & Hw); rewrite ?Hlen; try done || lia.
  - left. exists 0%nat. lia.
  - unfold size in Hsz |- *. lia.
  - unfold size. rewrite length_replicate. lia.
  - right. unfold size. by rewrite length_positions.
  - split_and!; [by rewrite take_ge| |by right].
    rewrite !drop_ge; [done|..].
    + rewrite length_app, <-(to_nat_size (entries _ _)), size_entries. unfold size. lia.
    + unfold size in *. lia.
  - rewrite Hlen in Hcopy. rewrite Hcopy. cbn [mbind outcome_bind].
    rewrite (complete_at max Hmax (positions (size new) kept)); [done|unfold size; by rewrite length_positions| |done].
    by rewrite <-length_zero_iff_nil, length_positions, length_zero_iff_nil.
Qed.

Lemma trim_front_straddling j :
  (0 < j)%nat → (∀ i x, (i < j)%nat → ¬ straddles buf_len kept i x) → (∃ x, straddles buf_len kept j x) →
  buf_len ≤ offset kept - Z.of_nat j * buf_len →
  trim_blocklog_front buf_len max (h ++ entries (size h) bs) (positions (size h) bs) (first + Z.of_nat k) = Undefined.
Proof.
  intros Hj Hal Hst Hfull. rewrite trim_unfold. destruct kept_facts as (_ & Ha & Hsa & Hsn & Hcount & Hnn & Hne & Hsz).
  pose proof (copy_chunks_straddling buf_len max Hbuf Hmax a new kept Ha Hsa Hsn Hcount j
    (S (length (h ++ entries (size h) bs))) (S (length kept)) 0 (length kept) (offset kept)
    (replicate (Z.to_nat buf_len) 0) (new_writer max (size kept)) new) as Hcopy.
  cbv beta zeta in Hcopy. rewrite length_kept in Hcopy. rewrite Hcopy; try done || lia.
  - unfold size in Hsz |- *. lia.
  - unfold size. rewrite length_replicate. lia.
  - right. unfold size. by rewrite length_positions.
Qed.

End trim_results.

Lemma trim_front_nothing v first ctx id bs buf_len max n :
  trimmable v first ctx id bs → bs ≠ [] → n ≤ first ∨ first + size bs ≤ n →
  let h := header v first ctx in
  trim_blocklog_front buf_len max (h ++ entries (size h) bs) (positions (size h) bs) n = Done None.
Proof.
  intros [Hv Hf Hc Hn [Hcnt Hl] Hs Hns] Hne Hout h. pose proof (size_nonneg bs). unfold trim_blocklog_front.
  rewrite (new_trim_data_at v first ctx id) by
    (try done; unfold UINT32_MAX; try lia; by rewrite size_app, size_entries).
  cbn [mbind outcome_bind first_block last_block].
  destruct (Z.leb_spec n first); [done|]. by compare_lia.
Qed.

Lemma extract_chain_id_header n id rest :
  1 < n ≤ UINT32_MAX → extract_chain_id (header 3 n (pack_chain_id id) ++ rest) = Done id.
Proof.
  intros Hn. unfold UINT32_MAX in *. unfold extract_chain_id, extract_chain_context, header.
  rewrite <-!app_assoc, sread_le32, le32_value by (unfold UINT32_MAX; lia).
  unfold min_supported_version, max_supported_version. compare_lia.
  rewrite sread_le32, le32_value by (unfold UINT32_MAX; lia). unfold contains_genesis_state, contains_chain_id.
  compare_lia. by rewrite stream_unpack_pack_chain_id.
Qed.

(** The trimmed log reads the blocks that are kept *)
Lemma trimmed_log_reads v first ctx id bs buf_len max k :
  trimmable v first ctx id bs → 8 ≤ buf_len ≤ 2 ^ 32 → 1 ≤ max → (0 < k < length bs)%nat →
  let n := first + Z.of_nat k in
  let l := log_of (pack_chain_id id) n (drop k bs) in
  open buf_len max (block_file l) (index_file l) = Done l ∧ head l = last bs ∧
  (∀ i, read_block_by_num l i = Ok (if n <=? i then bs !! Z.to_nat (i - first) else None)) ∧
  extract_chain_id (block_file l) = Done id.
Proof.
  intros [Hv Hf Hc Hnum [Hcnt Hl] Hs Hns] Hbuf Hmax Hk n l.
  pose proof (numbered_drop first bs k Hnum) as Hnum'. fold n in Hnum'.
  pose proof (offset_drop_le k bs). pose proof (size_drop_le k bs). rewrite size_header in Hns.
  assert (size (drop k bs) + Z.of_nat k = size bs) by (unfold size; rewrite length_drop; lia).
  assert (size (header 3 n (pack_chain_id id)) = 16 + size (pack_chain_id id)) as Hh by apply size_header.
  pose proof (size_nonneg (drop k bs)).
  assert (size (block_file l) < npos) as Hsz by (cbn [l log_of block_file]; rewrite size_app, size_entries; lia).
  assert (1 < n ≤ UINT32_MAX) by (unfold n, UINT32_MAX; lia).
  split_and!.
  - apply (open_log 3 n); try done || lia. apply header_valid; lia.
  - cbn. rewrite !last_lookup, lookup_drop, length_drop. f_equal. lia.
  - intros i. unfold l. rewrite read_block_by_num_log_of by (done || lia || (apply Z.lt_le_incl; exact Hsz)).
    f_equal. destruct (Z.leb_spec n i); [|done]. rewrite lookup_drop. f_equal. lia.
  - by apply extract_chain_id_header.
Qed.

(** Trimming the front of a log.  Where no stored position lies across the boundary of two
    chunks of the copy, [trim_blocklog_front] at block [n] makes the files of a log that
    starts at [n], for the same chain: opening them gives a log that reads the same block by
    each number from [n] on, and none before; and it changes nothing when [n] is not after
    the first block, or is after the last. *)
Theorem trim_blocklog_front_keeps v first ctx id bs buf_len max n :
  trimmable v first ctx id bs → bs ≠ [] → 8 ≤ buf_len ≤ 2 ^ 32 → 1 ≤ max →
  (∀ j i, ¬ straddles buf_len (drop (Z.to_nat (n - first)) bs) j i) →
  let h := header v first ctx in
  if (first <? n) && (n <? first + size bs) then
    ∃ f' index' l,
      trim_blocklog_front buf_len max (h ++ entries (size h) bs) (positions (size h) bs) n = Done (Some (f', index')) ∧
      open buf_len max f' index' = Done l ∧ first_block_num l = n ∧ head l = last bs ∧
      (∀ i, read_block_by_num l i = Ok (if n <=? i then bs !! Z.to_nat (i - first) else None)) ∧
      extract_chain_id f' = Done id
  else trim_blocklog_front buf_len max (h ++ entries (size h) bs) (positions (size h) bs) n = Done None.
Proof.
  intros Ht Hne Hbuf Hmax Hal h. destruct ((first <? n) && (n <? first + size bs)) eqn:Hn.
  2: { apply (trim_front_nothing v first ctx id bs); [done|done|].
       apply andb_false_iff in Hn as [Hn%Z.ltb_ge|Hn%Z.ltb_ge]; [by left|by right]. }
  apply andb_true_iff in Hn as [Hn1%Z.ltb_lt Hn2%Z.ltb_lt].
  set (k := Z.to_nat (n - first)) in *. replace n with (first + Z.of_nat k) by lia.
  assert (0 < k < length bs)%nat as Hk by (unfold size in Hn2; lia).
  set (l := log_of (pack_chain_id id) (first + Z.of_nat k) (drop k bs)).
  exists (block_file l), (index_file l), l.
  split; [by apply (trim_front_aligned v first ctx id bs buf_len max k Ht ltac:(lia) Hmax Hk)|].
  destruct (trimmed_log_reads v first ctx id bs buf_len max k Ht Hbuf Hmax Hk) as (Ho & Hh & Hr & Hid).
  split_and!; done.
Qed.

(** C37: The copy of [trim_blocklog_front] is made in chunks of the buffer's size from the end of
    the log, and a stored position that lies across the lower end of a chunk, with a full
    chunk below it, is read and written outside the buffer. *)
Theorem trim_blocklog_front_overruns v first ctx id bs buf_len max k j :
  trimmable v first ctx id bs → 8 ≤ buf_len → 1 ≤ max → (0 < k < length bs)%nat → (0 < j)%nat →
  (∀ i x, (i < j)%nat → ¬ straddles buf_len (drop k bs) i x) → (∃ x, straddles buf_len (drop k bs) j x) →
  buf_len ≤ offset (drop k bs) - Z.of_nat j * buf_len →
  let h := header v first ctx in
  trim_blocklog_front buf_len max (h ++ entries (size h) bs) (positions (size h) bs) (first + Z.of_nat k) = Undefined.
Proof. intros. by apply (trim_front_straddling v first ctx id bs buf_len max k) with (j := j). Qed.

(** Trimming the end keeps the blocks up to a number *)
Theorem trim_blocklog_end_keeps v first ctx id bs n :
  trimmable v first ctx id bs → bs ≠ [] →
  let h := header v first ctx in
  let k := Z.to_nat (n + 1 - first) in
  trim_blocklog_end (h ++ entries (size h) bs) (positions (size h) bs) n =
  Done (if n <? first then inr 1
        else if first + size bs - 1 <=? n then inr 2
        else inl (h ++ entries (size h) (take k bs), positions (size h) (take k bs))).
Proof.
  intros [Hv Hf Hc Hnum [Hcnt Hl] Hs Hns] Hne h k. pose proof (size_nonneg bs). unfold trim_blocklog_end.
  rewrite (new_trim_data_at v first ctx id) by
    (try done; unfold UINT32_MAX; try lia; by rewrite size_app, size_entries).
  cbn [mbind outcome_bind first_block last_block blk_in_tell].
  destruct (Z.ltb_spec n first); [done|]. destruct (Z.leb_spec (first + size bs - 1) n); [done|].
  destruct (lookup_lt_is_Some_2 bs k) as [b Hb]; [unfold size in *; lia|]. rewrite u32_id by lia.
  replace (n + 1) with (first + Z.of_nat k) by lia.
  rewrite (block_pos_at v first ctx bs) with (b := b) by
    (try done; unfold UINT32_MAX; try lia; by rewrite size_app, size_entries).
  cbn [mbind outcome_bind]. unfold block_index. compare_lia. rewrite u32_id by lia. fold h.
  replace (Z.to_nat (n - first + 1)) with k by lia. do 3 f_equal.
  - rewrite (file_around v first ctx bs k : h ++ entries (size h) bs = _). fold h. rewrite <-size_entries with (p := size h), <-size_app, to_nat_size.
    apply take_app_length.
  - rewrite <-(take_drop k bs) at 1. rewrite positions_app. apply take_app_length'.
    rewrite length_positions, length_take. unfold size in *. lia.
Qed.

End log.

(** ** An instance *)

(** Blocks with a number and a length: 14 bytes, the number of the block before, the number,
    the length and so many bytes *)
Definition sample_reverse (v : Z) : Z := le_value (reverse (le32 v)).

Definition sample_pack (b : Z * nat) : list Z :=
  replicate 14 0 ++ reverse (le32 (u32 (b.1 - 1))) ++ [b.1; Z.of_nat b.2] ++ replicate b.2 7.

Definition sample_unpack (l : list Z) : option ((Z * nat) * list Z) :=
  match l !! 18%nat, l !! 19%nat with
  | Some n, Some k =>
      if Z.of_nat (length l) <? 20 + k then None else Some ((n, Z.to_nat k), drop (20 + Z.to_nat k) l)
  | _, _ => None
  end.

Definition sample_stream_unpack (s : istream) : ((Z * nat) * istream) + istream :=
  match s with
  | Some l => match sample_unpack l with Some (b, r) => inl (b, Some r) | None => inr None end
  | None => inr None
  end.

Definition unpack_word (l : list Z) : option (Z * list Z) :=
  match l with x :: l => Some (x, l) | [] => None end.

Definition stream_unpack_word (s : istream) : option (Z * istream) :=
  match s with Some (x :: l) => Some (x, Some l) | _ => None end.

Lemma sample_pack_length b : length (sample_pack b) = (20 + b.2)%nat.
Proof.
  unfold sample_pack. rewrite !length_app, length_reverse, !length_replicate.
  pose proof (size_le32 (u32 (b.1 - 1))). unfold size in *. cbn [length]. lia.
Qed.

Lemma sample_unpack_pack b rest : sample_unpack (sample_pack b ++ rest) = Some (b, rest).
Proof.
  destruct b as [n k]. unfold sample_unpack.
  change ((sample_pack (n, k) ++ rest) !! 18%nat) with (Some n).
  change ((sample_pack (n, k) ++ rest) !! 19%nat) with (Some (Z.of_nat k)).
  pose proof (sample_pack_length (n, k)) as Hl. cbn [snd] in Hl.
  rewrite length_app, Hl. compare_lia. rewrite Nat2Z.id. do 2 f_equal. by apply drop_app_length'.
Qed.

Lemma sample_unpack_cut b l : l `prefix_of` sample_pack b → l ≠ sample_pack b → sample_unpack l = None.
Proof.
  intros [r Hr] Hne. unfold sample_unpack.
  destruct (l !! 18%nat) as [n|]; [|done]. destruct (l !! 19%nat) as [k|] eqn:Hk; [|done].
  assert (k = Z.of_nat b.2) as ->.
  { apply (lookup_app_l_Some _ r) in Hk. rewrite <-Hr in Hk. destruct b. by injection Hk as <-. }
  pose proof (sample_pack_length b) as Hl. rewrite Hr, length_app in Hl.
  destruct r as [|x r]; [by rewrite app_nil_r in Hr|]. cbn [length] in Hl. by compare_lia.
Qed.

Lemma sample_reverse_value x : 0 ≤ x ≤ UINT32_MAX → sample_reverse (le_value (reverse (le32 x))) = x.
Proof.
  intros Hx. unfold sample_reverse. unfold le32 at 1, le_value at 2. rewrite Z_to_little_endian_to_Z.
  - rewrite reverse_involutive. by apply le32_value.
  - rewrite length_reverse. symmetry. apply size_le32.
  - lia.
  - apply Forall_reverse. by apply Z_to_little_endian_bound.
Qed.

#[global, program] Instance sample_format : LogFormat (Z * nat) Z Z := {
  pack := sample_pack;
  unpack := sample_unpack;
  stream_unpack := sample_stream_unpack;
  block_num b := u32 b.1;
  pack_genesis g := [g];
  unpack_genesis := unpack_word;
  stream_unpack_genesis := stream_unpack_word;
  compute_chain_id g := g;
  pack_chain_id c := [c];
  unpack_chain_id := unpack_word;
  stream_unpack_chain_id := stream_unpack_word;
  endian_reverse_u32 := sample_reverse }.
Next Obligation. apply sample_unpack_pack. Qed.
Next Obligation. intros b rest. unfold sample_stream_unpack. by rewrite sample_unpack_pack. Qed.
Next Obligation. intros b l Hp Hne. unfold sample_stream_unpack. by rewrite (sample_unpack_cut b l). Qed.
Next Obligation. intros b. unfold size. rewrite sample_pack_length. unfold blknum_offset. lia. Qed.
Next Obligation.
  intros b. unfold sample_pack, blknum_offset.
  pose proof (slice_mid (replicate 14 0) (reverse (le32 (u32 (b.1 - 1))))) as Hs.
  assert (size (reverse (le32 (u32 (b.1 - 1)))) = 4) as Hl by (unfold size; rewrite length_reverse; apply size_le32).
  rewrite Hl in Hs. change (size (replicate 14 0)) with 14 in Hs. rewrite Hs.
  pose proof (u32_range (b.1 - 1)). rewrite sample_reverse_value by (unfold UINT32_MAX; lia).
  unfold u32. rewrite Zplus_mod_idemp_l. f_equal. lia.
Qed.
Next Obligation. done. Qed.
Next Obligation. done. Qed.
Next Obligation. done. Qed.
Next Obligation. done. Qed.

(** Three blocks, a restart without the index, a cut inside the third block, repaired, and
    another third block *)
Definition sample_ops : list (log_op (block := Z * nat)) :=
  [Append (1, 3%nat); Append (2, 0%nat); Restart []; Append (3, 5%nat); Repair 86 0; Append (3, 1%nat)].


Definition sample_blocks (n : nat) : list (Z * nat) := (λ i, (Z.of_nat i + 1, 0%nat)) <$> seq 0 n.

Lemma sample_trimmable n :
  (n = 4 ∨ n = 5)%nat → trimmable (block := Z * nat) (genesis := Z) 3 1 [9] (9 : Z) (sample_blocks n).
Proof.
  intros Hn. assert (numbered (genesis := Z) (chain_id := Z) 1 (sample_blocks n)) as Hnum.
  { intros i b Hb. unfold sample_blocks in Hb. rewrite list_lookup_fmap_Some in Hb. destruct Hb as (x & -> & Hx).
    apply lookup_seq in Hx as [-> Hx]. cbn [block_num sample_format fst]. rewrite u32_id by lia. lia. }
  split; [lia|lia| |done|destruct Hn as [-> | ->]; vm_compute; done..].
  left. split; [done|]. by exists 9.
Qed.

Lemma trim_blocklog_front_keeps_witness :
  ∃ f' index' l,
    trim_blocklog_front (block := Z * nat) 28 2 (block_file (log_of [9] 1 (sample_blocks 4)))
      (index_file (log_of [9] 1 (sample_blocks 4))) 2 = Done (Some (f', index')) ∧
    open 28 2 f' index' = Done l ∧ read_block_by_num l 3 = Ok (Some (3, 0%nat)).
Proof.
  destruct (trim_blocklog_front_keeps (block := Z * nat) (genesis := Z) (chain_id := Z) 3 1 [9] 9 (sample_blocks 4) 28 2 2)
    as (f' & index' & l & Htrim & Hopen & _ & _ & Hread & _).
  - apply sample_trimmable. by left.
  - done.
  - lia.
  - lia.
  - intros j i (Hpos & Hin). change (offset (drop (Z.to_nat (2 - 1)) (sample_blocks 4))) with 84 in *.
    destruct i as [|[|[|[|i]]]].
    + change (offset (take 0 (drop (Z.to_nat (2 - 1)) (sample_blocks 4)))) with 0 in Hin. lia.
    + change (offset (take 1 (drop (Z.to_nat (2 - 1)) (sample_blocks 4)))) with 28 in Hin. lia.
    + change (offset (take 2 (drop (Z.to_nat (2 - 1)) (sample_blocks 4)))) with 56 in Hin. lia.
    + change (offset (take 3 (drop (Z.to_nat (2 - 1)) (sample_blocks 4)))) with 84 in Hin. lia.
    + rewrite take_ge in Hin by (change (length (drop (Z.to_nat (2 - 1)) (sample_blocks 4))) with 3%nat; lia). change (offset (drop (Z.to_nat (2 - 1)) (sample_blocks 4))) with 84 in Hin. lia.
  - exists f', index', l. split_and!; [exact Htrim|exact Hopen|exact (Hread 3)].
Defined.

Lemma trim_blocklog_front_overruns_witness :
  trim_blocklog_front (block := Z * nat) 30 2 (block_file (log_of [9] 1 (sample_blocks 5)))
    (index_file (log_of [9] 1 (sample_blocks 5))) 2 = Undefined.
Proof.
  apply (trim_blocklog_front_overruns (block := Z * nat) (genesis := Z) (chain_id := Z) 3 1 [9] 9 (sample_blocks 5) 30 2 1 1).
  - apply sample_trimmable. by right.
  - lia.
  - lia.
  - cbn. lia.
  - lia.
  - intros i x Hi (_ & Hin). assert (i = 0%nat) as -> by lia.
    pose proof (offset_take_le (drop 1 (sample_blocks 5)) x). lia.
  - exists 3%nat. vm_compute. repeat split; reflexivity.
  - vm_compute. discriminate.
Defined.

End BlockLog.
