(* ===== verification/TransactionContext.v ===== *)
(** * Transaction contexts

    [transaction_context.cpp]: the limits a transaction gets from the block, the
    configuration, its own header and the accounts that pay for it, the check of its network
    usage while it runs, the timer that stops it, and the bill at its end, charged to the
    accounts with the operations of ResourceLimits.v and checked against the fees with those
    of TxFee.v.  [platform_timer_posix.cpp]: the timer.  The lists of actors that the
    controller allows or refuses ([check_actor_list] of [controller.cpp]).  Time is in
    microseconds; the clock is an argument of the operations that read it. *)

From S2P Require Import Prelude.
From S2P Require Import Exceptions.
From S2P Require Import Name.
From S2P Require Import Asset.
From S2P Require Import Action.
From S2P Require Import ChainConfig.
From S2P Require Import TxFee.
From S2P Require Import Usage.
From S2P Require Import Database.
From S2P Require Import ResourceLimits.
From S2P Require Import Authority.
From S2P Require Import Permissions.

Local Open Scope Z_scope.

Module TransactionContext.
Import ChainConfig Usage ResourceLimits.

(** ** The timer *)

Definition time_point_maximum : Z := INT64_MAX.
Definition s32 (z : Z) : Z := (z + 2 ^ 31) mod 2 ^ 32 - 2 ^ 31.

(** The flag, and when the operating system will set it *)
Record platform_timer := MkTimer { expired_flag : bool; fires_at : option Z }.

Definition expired (t : platform_timer) (now : Z) : bool :=
  expired_flag t || match fires_at t with Some at_ => at_ <=? now | None => false end.

(** The nanoseconds are an [int]; the operating system refuses a second or more, and disarms
    the timer for zero. *)
Definition timer_start (t : platform_timer) (now tp : Z) : platform_timer :=
  if tp =? time_point_maximum then MkTimer false (fires_at t)
  else
    let x := tp - now in
    if x <=? 0 then MkTimer true (fires_at t)
    else
      let nsec := s32 (s32 x * 1000) in
      if nsec =? 0 then MkTimer false None
      else if (0 <? nsec) && (nsec <? 10 ^ 9) then MkTimer false (Some (now + nsec / 1000))
      else MkTimer true (fires_at t).

Definition timer_stop (t : platform_timer) (now : Z) : platform_timer :=
  if expired t now then t else MkTimer true None.

(** The constructor of [transaction_checktime_timer]; a timer that is not running *)
Definition new_timer : platform_timer := MkTimer false None.

(** ** The context *)

Section context.
Context {key : Type}.

(** What the context reads of the controller; a block summary is the number in a block's
    identifier and the identifier's second word. *)
Record control := MkControl {
  configuration : chain_config;
  is_producing_block : bool;
  skip_trx_checks : bool;
  only_bill_first_authorizer : bool;
  get_greylist_limit : Z;
  resource_greylist : gset Z;
  actor_whitelist : list Z;
  actor_blacklist : list Z;
  block_summary : Z → Z * Z;
  pending_block_time : Z;
  pending_slot : Z;
  config_on_chain : gmap Z ConfigOnChain.config_data_object;
  vote4ramsum : gmap Z Asset.asset }.

Record transaction := MkTrx {
  expiration : Z;
  ref_block_num : Z;
  ref_block_prefix : Z;
  max_net_usage_words : Z;
  max_cpu_usage_ms : Z;
  delay_sec : Z;
  context_free_actions : list Action.action;
  actions : list Action.action;
  transaction_extensions : list (Z * list Z) }.

(** The limits found when the context is initialized *)
Record limits_of := MkLimitsOf {
  net_limit : Z;
  net_limit_due_to_block : bool;
  net_limit_due_to_greylist : bool;
  cpu_limit_due_to_greylist : bool;
  initial_objective_duration_limit : Z;
  objective_duration_limit : Z;
  billing_timer_exception_code : exn }.

(** The timer that bills, and the deadline *)
Record billing := MkBilling {
  _deadline : Z;
  deadline_exception_code : exn;
  pseudo_start : Z;
  billed_time : Z;
  billing_timer_duration_limit : Z;
  transaction_timer : platform_timer }.

Record transaction_context := MkContext {
  start : Z;
  deadline : Z;
  leeway : Z;
  billed_cpu_time_us : Z;
  explicit_billed_cpu_time : bool;
  is_input : bool;
  is_initialized : bool;
  bill_to_accounts : list Z;
  validate_ram_usage : list Z;
  eager_net_limit : Z;
  net_usage : Z;
  lim : limits_of;
  bill : billing;
  fees : TxFee.trx_fee }.

Context (c : control).

(** ** Lists of actors *)

(** A [flat_set] as its sorted list *)
Fixpoint flat_set_insert (x : Z) (l : list Z) : list Z :=
  match l with
  | [] => [x]
  | y :: l => if x <? y then x :: y :: l else if x =? y then y :: l else y :: flat_set_insert x l
  end.

Fixpoint lower_bound (l : list Z) (x : Z) : list Z :=
  match l with
  | [] => []
  | y :: l' => if y <? x then lower_bound l' x else l
  end.

Fixpoint whitelist_loop (actors rest : list Z) : bool :=
  match actors with
  | [] => true
  | actor :: actors =>
      match lower_bound rest actor with
      | [] => false
      | y :: rest => if negb (y =? actor) then false else whitelist_loop actors rest
      end
  end.

Fixpoint blacklist_loop (actors rest : list Z) : bool :=
  match actors with
  | [] => false
  | actor :: actors =>
      match lower_bound rest actor with
      | [] => false
      | y :: rest' => if y =? actor then true else blacklist_loop actors (y :: rest')
      end
  end.

Definition check_actor_list (actors : list Z) : result exn unit :=
  match actors, last actors with
  | first :: _, Some last_actor =>
      match actor_whitelist c, last (actor_whitelist c) with
      | wfirst :: _, Some wlast =>
          assert_that
            (if (wfirst <=? first) && (last_actor <=? wlast) then whitelist_loop actors (actor_whitelist c) else false)
            actor_whitelist_exception
      | _, _ =>
          match actor_blacklist c, last (actor_blacklist c) with
          | bfirst :: _, Some blast =>
              assert_that
                (negb (if (first <=? blast) && (bfirst <=? last_actor)
                       then blacklist_loop actors (actor_blacklist c) else false))
                actor_blacklist_exception
          | _, _ => Ok tt
          end
      end
  | _, _ => Ok tt
  end.

(** ** Checks while the transaction runs *)

Definition check_net_usage (l : limits_of) (eager_net_limit net_usage : Z) : result exn unit :=
  if skip_trx_checks c then Ok tt
  else if eager_net_limit <? net_usage then
    if net_limit_due_to_block l then Throw block_net_usage_exceeded
    else if net_limit_due_to_greylist l then Throw greylist_net_usage_exceeded
    else Throw tx_net_usage_exceeded
  else Ok tt.

Definition set_net_usage (t : transaction_context) (u : Z) : transaction_context :=
  MkContext (start t) (deadline t) (leeway t) (billed_cpu_time_us t) (explicit_billed_cpu_time t) (is_input t)
    (is_initialized t) (bill_to_accounts t) (validate_ram_usage t) (eager_net_limit t) u (lim t) (bill t) (fees t).

Definition add_net_usage (t : transaction_context) (u : Z) : result exn transaction_context :=
  let t := set_net_usage t (u64 (net_usage t + u)) in
  _ ← check_net_usage (lim t) (eager_net_limit t) (net_usage t);
  Ok t.

Definition checktime (t : transaction_context) (now : Z) : result exn unit :=
  if negb (expired (transaction_timer (bill t)) now) then Ok tt
  else
    let code := deadline_exception_code (bill t) in
    if explicit_billed_cpu_time t || bool_decide (code = deadline_exception) then Throw deadline_exception
    else if bool_decide (code = block_cpu_usage_exceeded) then Throw block_cpu_usage_exceeded
    else if bool_decide (code = tx_cpu_usage_exceeded) then
      Throw (if cpu_limit_due_to_greylist (lim t) then greylist_cpu_usage_exceeded else tx_cpu_usage_exceeded)
    else if bool_decide (code = leeway_deadline_exception) then Throw leeway_deadline_exception
    else Throw transaction_exception.

Definition set_bill (t : transaction_context) (b : billing) : transaction_context :=
  MkContext (start t) (deadline t) (leeway t) (billed_cpu_time_us t) (explicit_billed_cpu_time t) (is_input t)
    (is_initialized t) (bill_to_accounts t) (validate_ram_usage t) (eager_net_limit t) (net_usage t) (lim t) b (fees t).

(** The timer is paused when [pseudo_start] is [time_point()] *)
Definition pause_billing_timer (t : transaction_context) (now : Z) : transaction_context :=
  let b := bill t in
  if explicit_billed_cpu_time t || (pseudo_start b =? 0) then t
  else
    set_bill t (MkBilling (_deadline b) deadline_exception 0 (now - pseudo_start b)
                  (billing_timer_duration_limit b) (timer_stop (transaction_timer b) now)).

Definition resume_billing_timer (t : transaction_context) (now : Z) : transaction_context :=
  let b := bill t in
  if explicit_billed_cpu_time t || negb (pseudo_start b =? 0) then t
  else
    let pseudo_start := now - billed_time b in
    let limit := s64 (pseudo_start + billing_timer_duration_limit b) in
    let '(d, code) :=
      if limit <=? deadline t then (limit, billing_timer_exception_code (lim t))
      else (deadline t, deadline_exception) in
    set_bill t (MkBilling d code pseudo_start (billed_time b) (billing_timer_duration_limit b)
                  (timer_start (transaction_timer b) now d)).

Definition validate_cpu_usage_to_bill (l : limits_of) (billed_us : Z) (check_minimum : bool) : result exn unit :=
  if skip_trx_checks c then Ok tt
  else
    _ ← (if check_minimum then assert_that (min_transaction_cpu_usage (configuration c) <=? billed_us) transaction_exception
         else Ok tt);
    assert_that (billed_us <=? objective_duration_limit l)
      (if bool_decide (billing_timer_exception_code l = block_cpu_usage_exceeded) then block_cpu_usage_exceeded
       else if cpu_limit_due_to_greylist l then greylist_cpu_usage_exceeded
       else tx_cpu_usage_exceeded).

(** [update_billed_cpu_time], with the 32-bit value it returns *)
Definition update_billed_cpu_time (t : transaction_context) (now : Z) : Z * Z :=
  let billed :=
    if explicit_billed_cpu_time t then billed_cpu_time_us t
    else Z.max (now - pseudo_start (bill t)) (min_transaction_cpu_usage (configuration c)) in
  (billed, u32 billed).

(** ** What the accounts can pay *)

Definition large_number_no_overflow : Z := INT64_MAX / 2.
Definition maximum_elastic_resource_multiplier : Z := 1000.

Definition bandwidth_step (force_elastic_limits : bool) (m : manager) (acc : Z * Z * bool * bool) (a : Z)
    : result exn (Z * Z * bool * bool) :=
  let '(account_net_limit, account_cpu_limit, greylisted_net, greylisted_cpu) := acc in
  let greylist_limit :=
    if negb force_elastic_limits && is_producing_block c then
      if bool_decide (a ∈ resource_greylist c) then 1 else get_greylist_limit c
    else maximum_elastic_resource_multiplier in
  '(net, net_was_greylisted) ← get_account_net_limit (config_on_chain c) (vote4ramsum c) m a greylist_limit;
  let '(account_net_limit, greylisted_net) :=
    if 0 <=? net then (Z.min account_net_limit net, greylisted_net || net_was_greylisted)
    else (account_net_limit, greylisted_net) in
  '(cpu, cpu_was_greylisted) ← get_account_cpu_limit (config_on_chain c) (vote4ramsum c) m a greylist_limit;
  let '(account_cpu_limit, greylisted_cpu) :=
    if 0 <=? cpu then (Z.min account_cpu_limit cpu, greylisted_cpu || cpu_was_greylisted)
    else (account_cpu_limit, greylisted_cpu) in
  Ok (account_net_limit, account_cpu_limit, greylisted_net, greylisted_cpu).

Definition max_bandwidth_billed_accounts_can_pay (m : manager) (accounts : list Z) (force_elastic_limits : bool)
    : result exn (Z * Z * bool * bool) :=
  foldM (bandwidth_step force_elastic_limits m) (large_number_no_overflow, large_number_no_overflow, false, false) accounts.

(** ** Initialization *)

Definition first_authorizer (trx : transaction) : Z :=
  match actions trx ≫= Action.authorization with
  | u :: _ => Action.actor u
  | [] => 0
  end.

Definition actors_of (acts : list Action.action) : list Z :=
  foldl (λ s u, flat_set_insert (Action.actor u) s) [] (acts ≫= Action.authorization).

(** The limits of the block, the configuration and the header *)
Definition objective_limits (trx : transaction) (m : manager) : limits_of :=
  let cfg := configuration c in
  let net := get_block_net_limit m in
  let cpu := s64 (get_block_cpu_limit m) in
  let '(net, due_to_block) :=
    if max_transaction_net_usage cfg <=? net then (max_transaction_net_usage cfg, false) else (net, true) in
  let '(cpu, code) :=
    if max_transaction_cpu_usage cfg <=? cpu then (max_transaction_cpu_usage cfg, tx_cpu_usage_exceeded)
    else (cpu, block_cpu_usage_exceeded) in
  let specified_net := u64 (max_net_usage_words trx * 8) in
  let '(net, due_to_block) :=
    if (0 <? specified_net) && (specified_net <=? net) then (specified_net, false) else (net, due_to_block) in
  let '(cpu, code) :=
    if (0 <? max_cpu_usage_ms trx) && (max_cpu_usage_ms trx * 1000 <=? cpu)
    then (max_cpu_usage_ms trx * 1000, tx_cpu_usage_exceeded) else (cpu, code) in
  MkLimitsOf net due_to_block false false cpu cpu code.

Definition init (trx : transaction) (t : transaction_context) (m : manager) (initial_net_usage now : Z)
    : result exn (transaction_context * manager) :=
  _ ← assert_that (negb (is_initialized t)) transaction_exception;
  let l := objective_limits trx m in
  _ ← (if 0 <? billed_cpu_time_us t then validate_cpu_usage_to_bill l (billed_cpu_time_us t) false else Ok tt);
  let accounts :=
    if only_bill_first_authorizer c then flat_set_insert (first_authorizer trx) (bill_to_accounts t)
    else foldl (λ s u, flat_set_insert (Action.actor u) s) (bill_to_accounts t) (actions trx ≫= Action.authorization) in
  m ← update_account_usage m accounts (pending_slot c);
  '(account_net_limit, account_cpu_limit, greylisted_net, greylisted_cpu) ←
    max_bandwidth_billed_accounts_can_pay m accounts false;
  let affordable := u64 (account_net_limit + net_usage_leeway (configuration c)) in
  let '(eager, due_to_block) :=
    if affordable <? net_limit l then (affordable, false) else (net_limit l, net_limit_due_to_block l) in
  let dl := s64 (start t + objective_duration_limit l) in
  let '(dl, code) :=
    if s64 (account_cpu_limit + leeway t) <=? dl - start t
    then (s64 (start t + s64 (account_cpu_limit + leeway t)), leeway_deadline_exception)
    else (dl, billing_timer_exception_code l) in
  let duration := dl - start t in
  let l := MkLimitsOf (net_limit l) due_to_block (net_limit_due_to_greylist l || greylisted_net)
             (cpu_limit_due_to_greylist l || greylisted_cpu) (initial_objective_duration_limit l)
             (objective_duration_limit l) code in
  let '(dl, deadline_code) :=
    if explicit_billed_cpu_time t || (deadline t <? dl) then (deadline t, deadline_exception)
    else (dl, code) in
  let b := MkBilling dl deadline_code (pseudo_start (bill t)) (billed_time (bill t)) duration
             (transaction_timer (bill t)) in
  let t := MkContext (start t) (deadline t) (leeway t) (billed_cpu_time_us t) (explicit_billed_cpu_time t) (is_input t)
             (is_initialized t) accounts (validate_ram_usage t) (eager / 8 * 8) (net_usage t) l b (fees t) in
  t ← (if 0 <? initial_net_usage then add_net_usage t initial_net_usage else Ok t);
  _ ← checktime t now;
  let b := bill t in
  let timer := timer_start (transaction_timer b) now
                 (if skip_trx_checks c then time_point_maximum else _deadline b) in
  Ok (MkContext (start t) (deadline t) (leeway t) (billed_cpu_time_us t) (explicit_billed_cpu_time t) (is_input t)
        true (bill_to_accounts t) (validate_ram_usage t) (eager_net_limit t) (net_usage t) (lim t)
        (MkBilling (_deadline b) (deadline_exception_code b) (pseudo_start b) (billed_time b)
           (billing_timer_duration_limit b) timer) (fees t), m).

(** ** The kinds of transactions *)

Definition disallow_transaction_extensions {A} : result exn A :=
  if is_producing_block c then Throw subjective_block_production_exception
  else Throw disallowed_transaction_extensions_bad_block_exception.

Definition transaction_id_net_usage : Z := 32.

(** The network usage of an input transaction: its size, what can be pruned at a discount,
    and that of retiring it when it is delayed *)
Definition input_net_usage (trx : transaction) (unprunable_size prunable_size : Z) : Z :=
  let cfg := configuration c in
  let num := context_free_discount_net_usage_num cfg in
  let den := context_free_discount_net_usage_den cfg in
  let discounted :=
    if (0 <? den) && (num <? den) then u64 (u64 (u64 (prunable_size * num) + den) - 1) / den else prunable_size in
  let initial := u64 (base_per_transaction_net_usage cfg + unprunable_size + discounted) in
  if 0 <? delay_sec trx then u64 (initial + base_per_transaction_net_usage cfg + transaction_id_net_usage) else initial.

Definition validate_expiration (trx : transaction) : result exn unit :=
  _ ← assert_that (pending_block_time c <=? expiration trx * 1000000) expired_tx_exception;
  assert_that (expiration trx * 1000000 <=? pending_block_time c + max_transaction_lifetime (configuration c) * 1000000)
    tx_exp_too_far_exception.

Definition verify_reference_block (trx : transaction) (id : Z * Z) : bool :=
  (ref_block_num trx =? u16 id.1) && (ref_block_prefix trx =? u32 id.2).

Definition validate_tapos (trx : transaction) : result exn unit :=
  assert_that (verify_reference_block trx (block_summary c (u16 (ref_block_num trx)))) invalid_ref_block_exception.

(** The tables that a context reads and changes; recorded transactions with their expiration *)
Record state_db := MkDb {
  rl : manager;
  auth : Permissions.auth_db key;
  accounts : gset Z;
  recorded : gmap Z Z }.

Definition validate_authorization (db : state_db) (u : Action.permission_level) : result exn unit :=
  _ ← assert_that (bool_decide (Action.actor u ∈ accounts db)) transaction_exception;
  p ← Permissions.find_permission (auth db) u;
  match p with Some _ => Ok tt | None => Throw transaction_exception end.

Definition validate_referenced_accounts (db : state_db) (trx : transaction) (enforce_actor_lists : bool) : result exn unit :=
  _ ← foldM (λ _ a,
        _ ← assert_that (bool_decide (Action.account a ∈ accounts db)) transaction_exception;
        assert_that (bool_decide (Action.authorization a = [])) transaction_exception) tt (context_free_actions trx);
  _ ← foldM (λ _ a,
        _ ← assert_that (bool_decide (Action.account a ∈ accounts db)) transaction_exception;
        foldM (λ _ u, validate_authorization db u) tt (Action.authorization a)) tt (actions trx);
  _ ← assert_that (negb (bool_decide (actions trx ≫= Action.authorization = []))) tx_no_auths;
  if enforce_actor_lists then check_actor_list (actors_of (actions trx)) else Ok tt.

Definition set_rl (db : state_db) (m : manager) : state_db := MkDb m (auth db) (accounts db) (recorded db).

Definition record_transaction (db : state_db) (id expire : Z) : result exn state_db :=
  match recorded db !! id with
  | Some _ => Throw tx_duplicate
  | None => Ok (MkDb (rl db) (auth db) (accounts db) (<[id := expire]> (recorded db)))
  end.

Definition init_for_implicit_trx (db : state_db) (trx : transaction) (t : transaction_context) (initial_net_usage now : Z)
    : result exn (transaction_context * state_db) :=
  _ ← (if bool_decide (transaction_extensions trx = []) then Ok tt else disallow_transaction_extensions);
  '(t, m) ← init trx t (rl db) initial_net_usage now;
  Ok (t, set_rl db m).

Definition set_input (t : transaction_context) : transaction_context :=
  MkContext (start t) (deadline t) (leeway t) (billed_cpu_time_us t) (explicit_billed_cpu_time t) true
    (is_initialized t) (bill_to_accounts t) (validate_ram_usage t) (eager_net_limit t) (net_usage t) (lim t) (bill t) (fees t).

Definition init_for_input_trx (db : state_db) (trx : transaction) (id : Z) (t : transaction_context)
    (unprunable_size prunable_size : Z) (enforce_whiteblacklist skip_recording : bool) (now : Z)
    : result exn (transaction_context * state_db) :=
  _ ← (if bool_decide (transaction_extensions trx = []) then Ok tt else disallow_transaction_extensions);
  _ ← (if skip_trx_checks c then Ok tt
       else
         _ ← validate_expiration trx;
         _ ← validate_tapos trx;
         validate_referenced_accounts db trx (enforce_whiteblacklist && is_producing_block c));
  '(t, m) ← init trx (set_input t) (rl db) (input_net_usage trx unprunable_size prunable_size) now;
  let db := set_rl db m in
  db ← (if skip_recording then Ok db else record_transaction db id (expiration trx));
  Ok (t, db).

Definition init_for_deferred_trx (db : state_db) (trx : transaction) (t : transaction_context) (now : Z)
    : result exn (transaction_context * state_db) :=
  _ ← (if negb (expiration trx =? 0) && negb (bool_decide (transaction_extensions trx = []))
       then disallow_transaction_extensions else Ok tt);
  '(t, m) ← init trx t (rl db) 0 now;
  Ok (t, set_rl db m).

(** ** Memory and the bill *)

Definition add_ram_usage (db : state_db) (t : transaction_context) (account ram_delta : Z)
    : result exn (transaction_context * state_db) :=
  m ← add_pending_ram_usage (rl db) account ram_delta;
  let v := if 0 <? ram_delta then flat_set_insert account (validate_ram_usage t) else validate_ram_usage t in
  Ok (MkContext (start t) (deadline t) (leeway t) (billed_cpu_time_us t) (explicit_billed_cpu_time t) (is_input t)
        (is_initialized t) (bill_to_accounts t) v (eager_net_limit t) (net_usage t) (lim t) (bill t) (fees t),
      set_rl db m).

Definition touch_permission (a : Permissions.auth_db key) (u : Action.permission_level) : result exn (Permissions.auth_db key) :=
  '(_, p) ← Permissions.get_permission a u;
  Permissions.update_permission_usage (pending_block_time c) a p.

(** The limits lowered to what the accounts can pay at the end *)
Definition final_limits (l : limits_of) (account_net_limit account_cpu_limit : Z) (greylisted_net greylisted_cpu : bool)
    : limits_of :=
  let '(net, due_to_block) :=
    if u64 account_net_limit <=? net_limit l then (u64 account_net_limit, false)
    else (net_limit l, net_limit_due_to_block l) in
  let '(cpu, code) :=
    if account_cpu_limit <=? objective_duration_limit l then (account_cpu_limit, tx_cpu_usage_exceeded)
    else (objective_duration_limit l, billing_timer_exception_code l) in
  MkLimitsOf net due_to_block (net_limit_due_to_greylist l || greylisted_net)
    (cpu_limit_due_to_greylist l || greylisted_cpu) (initial_objective_duration_limit l) cpu code.

(** The part of [finalize] before the bill *)
Definition finalize_checks (db : state_db) (trx : transaction) (t : transaction_context) (now : Z)
    : result exn (transaction_context * Permissions.auth_db key) :=
  _ ← assert_that (is_initialized t) transaction_exception;
  a ← (if is_input t then foldM touch_permission (auth db) (actions trx ≫= Action.authorization) else Ok (auth db));
  _ ← foldM (λ _ x, verify_account_ram_usage (config_on_chain c) (vote4ramsum c) (rl db) x) tt (validate_ram_usage t);
  '(account_net_limit, account_cpu_limit, greylisted_net, greylisted_cpu) ←
    max_bandwidth_billed_accounts_can_pay (rl db) (bill_to_accounts t) false;
  let l := final_limits (lim t) account_net_limit account_cpu_limit greylisted_net greylisted_cpu in
  let net := u64 (u64 (net_usage t + 7) / 8 * 8) in
  _ ← check_net_usage l (net_limit l) net;
  let billed := (update_billed_cpu_time t now).1 in
  _ ← validate_cpu_usage_to_bill l billed true;
  _ ← TxFee.check_limit_by_contract (fees t) billed net;
  Ok (MkContext (start t) (deadline t) (leeway t) billed (explicit_billed_cpu_time t) (is_input t)
        (is_initialized t) (bill_to_accounts t) (validate_ram_usage t) (net_limit l) net l (bill t) (fees t), a).

Definition bill_usage (db : state_db) (t : transaction_context) : result exn manager :=
  add_transaction_usage (config_on_chain c) (vote4ramsum c) (rl db) (bill_to_accounts t)
    (u64 (billed_cpu_time_us t)) (net_usage t) (pending_slot c).

Definition finalize (db : state_db) (trx : transaction) (t : transaction_context) (now : Z)
    : result exn (transaction_context * state_db) :=
  '(t, a) ← finalize_checks db trx t now;
  m ← bill_usage db t;
  Ok (t, MkDb m a (accounts db) (recorded db)).

(** ** The share of an account *)

Definition window : Z := 28800.

(** The account uses more than its share: of a resource with these weights and capacity *)
Definition over_share (weight total virtual value : Z) : Prop :=
  0 ≤ weight ∧ 0 < total ∧ window * virtual * weight / total < value * window / rate_limiting_precision.

(** Billing what the account can pay does not exceed its share; billing nothing does when the
    account is already over it. *)
Lemma share_after_bill weight total virtual block_max value greylist arl greylisted units e :
  weight < 2 ^ 63 → 0 ≤ total < 2 ^ 64 → 0 ≤ virtual ≤ 1000 * 2 ^ 32 → 0 ≤ block_max ≤ 2 ^ 32 →
  0 ≤ value < 2 ^ 63 → 0 ≤ greylist < 2 ^ 32 →
  account_limit_ex weight total virtual block_max window value greylist = Ok (arl, greylisted) →
  0 ≤ units < 2 ^ 32 → (0 ≤ available arl → units ≤ available arl) →
  check_share weight total virtual window (value + contribution units window) e = Ok tt ↔
  ¬ (units = 0 ∧ over_share weight total virtual value).
Proof.
  intros Hw Ht Hv Hb Hval Hg Hlim Hu Hle. unfold check_share, over_share.
  destruct (Z.leb_spec 0 weight) as [Hw0|Hw0]; cbn [andb]; [|split; [lia|done]].
  destruct (Z.ltb_spec 0 total) as [Ht0|Ht0]; [|split; [lia|done]].
  destruct (account_limit_exact weight total virtual block_max value greylist arl greylisted) as (Hused & Hmax & Havail & _);
    try done || lia.
  unfold window in *. pose proof (contribution_range units 28800 ltac:(lia) ltac:(lia)).
  pose proof (ceil_spec (units * rate_limiting_precision) 28800) as Hc.
  fold (contribution units 28800) in Hc. change rate_limiting_precision with 1000000 in *.
  specialize (Hc ltac:(lia) ltac:(lia)).
  rewrite (u128_id (virtual * 28800)) by lia. rewrite (u128_id (virtual * 28800 * weight)) by nia.
  rewrite u128_id by lia.
  pose proof (ceil_spec (value * 28800) 1000000 ltac:(lia) ltac:(lia)) as Hcv. rewrite <-Hused in Hcv.
  replace (virtual * 28800 * weight) with (28800 * virtual * weight) by lia.
  assert (28800 * Z.min virtual (block_max * greylist) * weight / total ≤ 28800 * virtual * weight / total) as Hmin
    by (apply Z.div_le_mono; nia).
  generalize dependent (28800 * virtual * weight / total). intros M Hmin. rewrite <-Hmax in Hmin.
  rewrite assert_that_Ok, Z.leb_le. destruct (decide (units = 0)) as [->|Hne].
  - assert (contribution 0 28800 = 0) as -> by lia. rewrite Z.add_0_r. lia.
  - split; [lia|]. intros _. specialize (Hle ltac:(lia)).
    enough ((value + contribution units 28800) * 28800 / 1000000 < used arl + units + 1) by lia.
    apply Z.div_lt_upper_bound; lia.
Qed.

(** ** Billing the accounts *)

Record capacity_ok (f : resource_limits_config_object) (s : resource_limits_state_object) : Prop := {
  co_windows : account_cpu_usage_average_window f = window ∧ account_net_usage_average_window f = window;
  co_cpu_max : 0 ≤ max (cpu_limit_parameters f) ≤ 2 ^ 32;
  co_net_max : 0 ≤ max (net_limit_parameters f) ≤ 2 ^ 32;
  co_virtual : 0 ≤ virtual_cpu_limit s ≤ 1000 * 2 ^ 32 ∧ 0 ≤ virtual_net_limit s ≤ 1000 * 2 ^ 32;
  co_totals : 0 ≤ total_cpu_weight s < 2 ^ 64 ∧ 0 ≤ total_net_weight s < 2 ^ 64;
  co_pending : 0 ≤ pending_cpu_usage s ≤ max (cpu_limit_parameters f) ∧
               0 ≤ pending_net_usage s ≤ max (net_limit_parameters f) }.

Definition acc_at (slot : Z) (a : accumulator) : Prop :=
  wf a ∧ last_ordinal a = slot ∧ value_ex a < 2 ^ 63 ∧ consumed a < 2 ^ 63.

Definition usage_at (slot : Z) (u : resource_usage_object) : Prop :=
  acc_at slot (ResourceLimits.net_usage u) ∧ acc_at slot (cpu_usage u).

Definition weights_ok (m : manager) : Prop :=
  ∀ a l, limits m !! a = Some l ∨ pending_limits m !! a = Some l → net_weight l < 2 ^ 63 ∧ cpu_weight l < 2 ^ 63.

Lemma get_account_limits_weights cfg v m a ram net cpu :
  weights_ok m → get_account_limits cfg v m a = Ok (ram, net, cpu) → net < 2 ^ 63 ∧ cpu < 2 ^ 63.
Proof.
  intros Hw. unfold get_account_limits. destruct (pending_limits m !! a) as [l|] eqn:Hp.
  - intros [= <- <- <-]. apply (Hw a). by right.
  - intros Hl. apply bind_Ok in Hl as (l & Hl & [= <- <- <-]). apply get_Ok in Hl. apply (Hw a). by left.
Qed.

(** At the same ordinal nothing decays *)
Lemma added_same a units slot :
  acc_at slot a → 0 ≤ units < 2 ^ 32 → 0 ≤ slot < 2 ^ 32 →
  add a units slot window = (added a units slot window, Ok tt) ∧
  value_ex (added a units slot window) = value_ex a + contribution units window.
Proof.
  intros (Hwf & Hlast & Hval & Hcon) Hu Hs.
  assert (decayed a slot window = value_ex a) as Hd.
  { unfold decayed, window. rewrite Hlast, (proj2 (Z.ltb_lt _ _)), Z.sub_diag, Z.sub_0_r by lia. apply Z.div_mul. lia. }
  split; [|unfold added; cbn [value_ex]; by rewrite Hd].
  pose proof (contribution_range units window ltac:(lia) ltac:(unfold window; lia)) as Hc.
  change rate_limiting_precision with 1000000 in Hc.
  apply add_admissible; [done|lia|done|unfold window; lia|].
  unfold admissible. change rate_limiting_precision with 1000000. split_and!; lia.
Qed.

Definition billed_usage (u : resource_usage_object) (cpu net slot : Z) : resource_usage_object :=
  MkUsage (added (ResourceLimits.net_usage u) net slot window) (added (cpu_usage u) cpu slot window) (ram_usage u).

(** Billing one account: what is stored, and when it is refused *)
Lemma add_account_usage_spec cfg v m a u ram net_w cpu_w cpu net slot :
  capacity_ok (config m) (state m) → usages m !! a = Some u → usage_at slot u → 0 ≤ slot < 2 ^ 32 →
  get_account_limits cfg v m a = Ok (ram, net_w, cpu_w) → 0 ≤ cpu < 2 ^ 32 → 0 ≤ net < 2 ^ 32 →
  add_account_usage cfg v cpu net slot m a =
  (_ ← check_share cpu_w (total_cpu_weight (state m)) (virtual_cpu_limit (state m)) window
         (value_ex (cpu_usage u) + contribution cpu window) tx_cpu_usage_exceeded;
   _ ← check_share net_w (total_net_weight (state m)) (virtual_net_limit (state m)) window
         (value_ex (ResourceLimits.net_usage u) + contribution net window) tx_net_usage_exceeded;
   Ok (set_usages m (<[a := billed_usage u cpu net slot]> (usages m)))).
Proof.
  intros Hcap Hu [Hn Hc] Hs Hlim Hcpu Hnet. destruct (co_windows _ _ Hcap) as [Ew1 Ew2].
  destruct (added_same _ _ _ Hn Hnet Hs) as [En Vn]. destruct (added_same _ _ _ Hc Hcpu Hs) as [Ec Vc].
  unfold add_account_usage. rewrite (proj2 (get_Ok _ _ _) Hu). cbn [mbind result_bind]. rewrite Hlim.
  cbn [mbind result_bind]. rewrite Ew1, Ew2, En, Ec. cbn [modify_usage mbind result_bind]. by rewrite Vn, Vc.
Qed.

(** The account is over its share of the network, or of the processor *)
Definition over_net (m : manager) (a : Z) : Prop :=
  ∃ u ram net cpu, usages m !! a = Some u ∧
    get_account_limits (config_on_chain c) (vote4ramsum c) m a = Ok (ram, net, cpu) ∧
    over_share net (total_net_weight (state m)) (virtual_net_limit (state m)) (value_ex (ResourceLimits.net_usage u)).

Definition over_cpu (m : manager) (a : Z) : Prop :=
  ∃ u ram net cpu, usages m !! a = Some u ∧
    get_account_limits (config_on_chain c) (vote4ramsum c) m a = Ok (ram, net, cpu) ∧
    over_share cpu (total_cpu_weight (state m)) (virtual_cpu_limit (state m)) (value_ex (cpu_usage u)).

(** The account can pay for this much *)
Definition can_pay (m : manager) (cpu net a : Z) : Prop :=
  ∃ greylist arl_net g_net arl_cpu g_cpu,
    0 ≤ greylist < 2 ^ 32 ∧
    get_account_net_limit_ex (config_on_chain c) (vote4ramsum c) m a greylist = Ok (arl_net, g_net) ∧
    (0 ≤ available arl_net → net ≤ available arl_net) ∧
    get_account_cpu_limit_ex (config_on_chain c) (vote4ramsum c) m a greylist = Ok (arl_cpu, g_cpu) ∧
    (0 ≤ available arl_cpu → cpu ≤ available arl_cpu).

Lemma bill_account m a u cpu net slot :
  capacity_ok (config m) (state m) → weights_ok m → 0 ≤ slot < 2 ^ 32 → usages m !! a = Some u → usage_at slot u →
  0 ≤ cpu < 2 ^ 32 → 0 ≤ net < 2 ^ 32 → can_pay m cpu net a →
  (is_ok (add_account_usage (config_on_chain c) (vote4ramsum c) cpu net slot m a) ↔
     ¬ (cpu = 0 ∧ over_cpu m a) ∧ ¬ (net = 0 ∧ over_net m a)) ∧
  ∀ m', add_account_usage (config_on_chain c) (vote4ramsum c) cpu net slot m a = Ok m' →
        m' = set_usages m (<[a := billed_usage u cpu net slot]> (usages m)).
Proof.
  intros Hcap Hw Hs Hu Hat Hcpu Hnet (gl & an & gn & ac & gc & Hgl & Hln & Hpn & Hlc & Hpc).
  unfold get_account_net_limit_ex, get_account_cpu_limit_ex in Hln, Hlc. rewrite (proj2 (get_Ok _ _ _) Hu) in Hln, Hlc.
  cbn [mbind result_bind] in Hln, Hlc.
  destruct (get_account_limits _ _ m a) as [[[ram nw] cw]|] eqn:Hlim; [|done]. cbn [mbind result_bind] in Hln, Hlc.
  destruct (get_account_limits_weights _ _ _ _ _ _ _ Hw Hlim) as [Hnw Hcw].
  rewrite (add_account_usage_spec _ _ _ _ u ram nw cw) by done.
  pose proof Hat as [(Hwn & _ & Hvn & _) (Hwc & _ & Hvc & _)]. destruct (co_windows _ _ Hcap) as [Ew1 Ew2].
  rewrite Ew2 in Hln. rewrite Ew1 in Hlc. destruct Hcap as [_ ? ? [? ?] [? ?] _].
  assert (0 ≤ value_ex (cpu_usage u) < 2 ^ 63) as Rc by (destruct Hwc as (_ & ? & _); lia).
  assert (0 ≤ value_ex (ResourceLimits.net_usage u) < 2 ^ 63) as Rn by (destruct Hwn as (_ & ? & _); lia).
  assert (Hsc := λ H1 H2 H3, share_after_bill _ _ _ _ _ _ _ _ cpu tx_cpu_usage_exceeded Hcw H1 H2 H3 Rc Hgl Hlc Hcpu Hpc).
  assert (Hsn := λ H1 H2 H3, share_after_bill _ _ _ _ _ _ _ _ net tx_net_usage_exceeded Hnw H1 H2 H3 Rn Hgl Hln Hnet Hpn).
  specialize (Hsc ltac:(done) ltac:(done) ltac:(done)). specialize (Hsn ltac:(done) ltac:(done) ltac:(done)).
  assert (over_cpu m a ↔ over_share cw (total_cpu_weight (state m)) (virtual_cpu_limit (state m)) (value_ex (cpu_usage u))) as ->.
  { unfold over_cpu. split; [intros (u' & r & n & p & Hu' & Hl' & Ho); rewrite Hlim in Hl'; by simplify_eq|by eauto 10]. }
  assert (over_net m a ↔ over_share nw (total_net_weight (state m)) (virtual_net_limit (state m)) (value_ex (ResourceLimits.net_usage u))) as ->.
  { unfold over_net. split; [intros (u' & r & n & p & Hu' & Hl' & Ho); rewrite Hlim in Hl'; by simplify_eq|by eauto 10]. }
  rewrite <-Hsc, <-Hsn. clear. split.
  - unfold is_ok. setoid_rewrite bind_Ok. setoid_rewrite bind_Ok. split.
    + by intros (m' & [] & -> & [] & -> & _).
    + intros [-> ->]. by eexists _, tt; split; [|exists tt].
  - intros m' Hok. inv_ok. done.
Qed.

(** Billing an account leaves the others as they are *)
Lemma set_other_usage m a b x cpu net :
  b ≠ a →
  let m' := set_usages m (<[a := x]> (usages m)) in
  (over_cpu m' b ↔ over_cpu m b) ∧ (over_net m' b ↔ over_net m b) ∧ (can_pay m cpu net b → can_pay m' cpu net b).
Proof.
  intros Hne m'. unfold over_cpu, over_net, can_pay, get_account_net_limit_ex, get_account_cpu_limit_ex, get, m'.
  cbn [usages set_usages state config]. by rewrite lookup_insert_ne by done.
Qed.

Lemma bill_accounts l cpu net slot m :
  capacity_ok (config m) (state m) → weights_ok m → 0 ≤ slot < 2 ^ 32 → NoDup l →
  (∀ a, a ∈ l → ∃ u, usages m !! a = Some u ∧ usage_at slot u) → (∀ a, a ∈ l → can_pay m cpu net a) →
  0 ≤ cpu < 2 ^ 32 → 0 ≤ net < 2 ^ 32 →
  (is_ok (foldM (add_account_usage (config_on_chain c) (vote4ramsum c) cpu net slot) m l) ↔
     ¬ (cpu = 0 ∧ ∃ a, a ∈ l ∧ over_cpu m a) ∧ ¬ (net = 0 ∧ ∃ a, a ∈ l ∧ over_net m a)) ∧
  ∀ m', foldM (add_account_usage (config_on_chain c) (vote4ramsum c) cpu net slot) m l = Ok m' →
        state m' = state m ∧ config m' = config m.
Proof.
  intros Hcap Hw Hs Hnd. revert m Hcap Hw. induction Hnd as [|a l Hnotin Hnd IH]; intros m Hcap Hw Hus Hpay Hcpu Hnet.
  { cbn [foldM]. split; [|by intros m' [= <-]]. split; [|by eexists]. intros _.
    split; intros (_ & b & Hb & _); by apply elem_of_nil in Hb. }
  destruct (Hus a) as (u & Hu & Hat); [by left|].
  destruct (bill_account m a u cpu net slot Hcap Hw Hs Hu Hat Hcpu Hnet) as [Hok Hm]; [apply Hpay; by left|].
  cbn [foldM]. destruct (add_account_usage _ _ cpu net slot m a) as [m1|e] eqn:Hadd; cbn [mbind result_bind].
  - specialize (Hm m1 eq_refl) as ->. destruct (proj1 Hok ltac:(by eexists)) as [Hc Hn].
    assert (∀ b, b ∈ l → b ≠ a) as Hne by (intros b Hb ->; done).
    destruct (IH (set_usages m (<[a := billed_usage u cpu net slot]> (usages m)))) as [IHok IHm]; try done.
    + intros b Hb. cbn [usages set_usages]. rewrite lookup_insert_ne by (symmetry; by apply Hne). apply Hus. by right.
    + intros b Hb. apply set_other_usage; [by apply Hne|]. apply Hpay. by right.
    + split; [|exact IHm]. rewrite IHok. setoid_rewrite elem_of_cons. split.
      * intros [H1 H2]. split; intros (H0 & b & [->|Hb] & Ho); [by apply Hc|apply H1|by apply Hn|apply H2];
          (split; [done|]); exists b; (split; [done|]); by apply (set_other_usage m a b _ cpu net (Hne b Hb)).
      * intros [H1 H2]. split; intros (H0 & b & Hb & Ho); [apply H1|apply H2]; (split; [done|]); exists b;
          (split; [by right|]); by apply (set_other_usage m a b (billed_usage u cpu net slot) cpu net (Hne b Hb)).
  - split; [|done]. split; [by intros [? ?]|]. intros [H1 H2]. exfalso.
    enough (is_ok (Throw e : result exn manager)) as [? ?] by done. apply Hok.
    split; intros [H0 Ho]; [apply H1|apply H2]; (split; [done|]); exists a; (split; [by left|done]).
Qed.

(** What the accounts can pay is what each of them can pay *)
Lemma bandwidth_can_pay m l force net cpu gn gc :
  0 ≤ get_greylist_limit c < 2 ^ 32 →
  max_bandwidth_billed_accounts_can_pay m l force = Ok (net, cpu, gn, gc) →
  0 ≤ net ≤ large_number_no_overflow ∧ 0 ≤ cpu ≤ large_number_no_overflow ∧
  ∀ n p a, n ≤ net → p ≤ cpu → a ∈ l → can_pay m p n a.
Proof.
  intros Hgl. unfold max_bandwidth_billed_accounts_can_pay.
  assert (∀ l acc r, foldM (bandwidth_step force m) acc l = Ok r →
    0 ≤ acc.1.1.1 ≤ large_number_no_overflow → 0 ≤ acc.1.1.2 ≤ large_number_no_overflow →
    0 ≤ r.1.1.1 ≤ acc.1.1.1 ∧ 0 ≤ r.1.1.2 ≤ acc.1.1.2 ∧
    ∀ n p a, n ≤ r.1.1.1 → p ≤ r.1.1.2 → a ∈ l → can_pay m p n a) as Hfold.
  { clear l. induction l as [|a l IH]; intros acc r Hr Hn Hc.
    { injection Hr as <-. split_and!; [lia..|]. intros n p a _ _ Ha. by apply elem_of_nil in Ha. }
    cbn [foldM] in Hr. apply bind_Ok in Hr as ([[[n1 c1] gn1] gc1] & Hstep & Hr). destruct acc as [[[n0 c0] gn0] gc0].
    unfold bandwidth_step in Hstep. cbn [fst snd] in *.
    set (gl := if negb force && is_producing_block c then if bool_decide (a ∈ resource_greylist c) then 1 else get_greylist_limit c
               else maximum_elastic_resource_multiplier) in *.
    assert (0 ≤ gl < 2 ^ 32) as Hgl' by (unfold gl, maximum_elastic_resource_multiplier; repeat case_match; lia).
    apply bind_Ok in Hstep as ([an g1] & Hnet & Hstep). unfold get_account_net_limit in Hnet.
    apply bind_Ok in Hnet as ([arln g1'] & Hnet & [= <- <-]).
    assert (∃ n2 b2, (if 0 <=? available arln then (n0 `min` available arln, gn0 || g1') else (n0, gn0)) = (n2, b2) ∧
       0 ≤ n2 ≤ n0 ∧ (0 ≤ available arln → n2 ≤ available arln)) as (n2 & b2 & Heq & Hn2 & Hn2')
      by (destruct (Z.leb_spec 0 (available arln)); eexists _, _; (split; [reflexivity|]); lia).
    rewrite Heq in Hstep. clear Heq. apply bind_Ok in Hstep as ([ac g2] & Hcpu & Hstep). unfold get_account_cpu_limit in Hcpu.
    apply bind_Ok in Hcpu as ([arlc g2'] & Hcpu & [= <- <-]).
    assert (∃ n3 b3, (if 0 <=? available arlc then (c0 `min` available arlc, gc0 || g2') else (c0, gc0)) = (n3, b3) ∧
       0 ≤ n3 ≤ c0 ∧ (0 ≤ available arlc → n3 ≤ available arlc)) as (n3 & b3 & Heq & Hn3 & Hn3')
      by (destruct (Z.leb_spec 0 (available arlc)); eexists _, _; (split; [reflexivity|]); lia).
    rewrite Heq in Hstep. clear Heq. injection Hstep as <- <- <- <-.
    destruct (IH _ _ Hr) as (IHn & IHc & IHp); cbn [fst snd]; [lia|lia|]. cbn [fst snd] in *.
    split_and!; [lia..|]. intros n p b Hnb Hpb [->|Hb]%elem_of_cons; [|by apply IHp].
    exists gl, arln, g1', arlc, g2'. split_and!; try done || lia. }
  intros Hr. assert (0 ≤ large_number_no_overflow) as H0 by (vm_compute; discriminate).
  destruct (Hfold l _ _ Hr) as (Hn & Hc & Hp); [cbn [fst]; lia|cbn [fst snd]; lia|]. cbn [fst snd] in Hn, Hc.
  split_and!; [lia..|]. exact Hp.
Qed.

(** ** A transaction from its initialization to its bill *)

Lemma flat_set_insert_sorted x l : StronglySorted Z.lt l → StronglySorted Z.lt (flat_set_insert x l).
Proof.
  induction 1 as [|y l Hl IH Hy]; cbn [flat_set_insert]; [repeat constructor|].
  destruct (Z.ltb_spec x y) as [Hxy|Hxy].
  - constructor; [by constructor|]. constructor; [done|]. apply (Forall_impl _ _ _ Hy). lia.
  - destruct (Z.eqb_spec x y) as [|Hne]; [by constructor|]. constructor; [done|].
    clear -Hy Hxy Hne. induction l as [|z l IH]; cbn [flat_set_insert]; [repeat constructor; lia|].
    inversion Hy; subst. destruct (x <? z); [by repeat constructor; try lia|]. destruct (x =? z); [done|].
    constructor; [done|]. by apply IH.
Qed.

Lemma sorted_NoDup l : StronglySorted Z.lt l → NoDup l.
Proof.
  induction 1 as [|y l Hl IH Hy]; constructor; [|done]. intros Hin. rewrite Forall_forall in Hy.
  specialize (Hy y Hin). lia.
Qed.

Lemma foldl_insert_sorted (us : list Action.permission_level) l :
  StronglySorted Z.lt l → StronglySorted Z.lt (foldl (λ s u, flat_set_insert (Action.actor u) s) l us).
Proof. revert l. induction us as [|u us IH]; intros l Hl; [done|]. cbn. by apply IH, flat_set_insert_sorted. Qed.

Record config_ok : Prop := {
  ck_net : 0 ≤ max_transaction_net_usage (configuration c) < 2 ^ 32;
  ck_cpu : 0 ≤ max_transaction_cpu_usage (configuration c) < 2 ^ 32;
  ck_min : 0 ≤ min_transaction_cpu_usage (configuration c);
  ck_greylist : 0 ≤ get_greylist_limit c < 2 ^ 32;
  ck_slot : 0 ≤ pending_slot c < 2 ^ 32 }.

Record trx_ok (trx : transaction) : Prop := {
  to_words : 0 ≤ max_net_usage_words trx < 2 ^ 32;
  to_ms : 0 ≤ max_cpu_usage_ms trx < 2 ^ 8 }.

(** The limits are no more than what the block has left, the configuration and the header *)
Record limits_within (trx : transaction) (m : manager) (l : limits_of) : Prop := {
  lw_net_nonneg : 0 ≤ net_limit l;
  lw_net_block : pending_net_usage (state m) + net_limit l ≤ max (net_limit_parameters (config m));
  lw_net_cfg : net_limit l ≤ max_transaction_net_usage (configuration c);
  lw_net_trx : 0 < max_net_usage_words trx → net_limit l ≤ max_net_usage_words trx * 8;
  lw_cpu_block : pending_cpu_usage (state m) + objective_duration_limit l ≤ max (cpu_limit_parameters (config m));
  lw_cpu_cfg : objective_duration_limit l ≤ max_transaction_cpu_usage (configuration c);
  lw_cpu_trx : 0 < max_cpu_usage_ms trx → objective_duration_limit l ≤ max_cpu_usage_ms trx * 1000 }.

Lemma objective_limits_within trx m :
  config_ok → trx_ok trx → capacity_ok (config m) (state m) → limits_within trx m (objective_limits trx m).
Proof.
  intros Hck Htrx [_ Hc Hn _ _ [Hpc Hpn]]. destruct Hck, Htrx. unfold objective_limits.
  unfold get_block_net_limit, get_block_cpu_limit. rewrite !u64_id by lia. rewrite s64_id by lia.
  destruct (Z.leb_spec (max_transaction_net_usage (configuration c)) (max (net_limit_parameters (config m)) - pending_net_usage (state m)));
  destruct (Z.leb_spec (max_transaction_cpu_usage (configuration c)) (max (cpu_limit_parameters (config m)) - pending_cpu_usage (state m)));
  (destruct (_ && _) eqn:E1; [apply andb_true_iff in E1 as [E1%Z.ltb_lt E2%Z.leb_le]|
     apply andb_false_iff in E1 as [E1%Z.ltb_ge|E1%Z.leb_gt]]);
  (destruct ((0 <? max_cpu_usage_ms trx) && _) eqn:E3; [apply andb_true_iff in E3 as [E3%Z.ltb_lt E4%Z.leb_le]|
     apply andb_false_iff in E3 as [E3%Z.ltb_ge|E3%Z.leb_gt]]); split; cbn [net_limit objective_duration_limit]; lia.
Qed.

Definition acc_small (a : accumulator) : Prop := wf a ∧ value_ex a < 2 ^ 63 ∧ consumed a < 2 ^ 63.

Definition usages_small (m : manager) : Prop :=
  ∀ a u, usages m !! a = Some u → acc_small (ResourceLimits.net_usage u) ∧ acc_small (cpu_usage u).

(** Bringing an accumulator to the slot of the block *)
Lemma modify_at a slot a' :
  acc_small a → 0 ≤ slot < 2 ^ 32 → modify_usage (add a 0 slot window) = Ok a' → acc_at slot a'.
Proof.
  intros (Hwf & Hval & Hcon) Hs Hadd.
  destruct (decide (admissible a 0 slot window)) as [Hadm|Hadm].
  - rewrite (add_admissible a 0 slot window) in Hadd by (done || unfold window; lia). injection Hadd as <-.
    pose proof (added_wf a 0 slot window Hwf ltac:(lia) Hs ltac:(unfold window; lia) Hadm) as Hwf'.
    destruct Hadm as (_ & _ & _ & Hle & _).
    pose proof (decayed_range a slot window Hwf ltac:(unfold window; lia) Hle) as Hd.
    split; [done|]. split; [done|]. unfold added. cbn [value_ex consumed].
    assert (contribution 0 window = 0) as -> by done. split; [lia|].
    destruct (slot =? last_ordinal a); [lia|].
    pose proof (ceil_spec (decayed a slot window) rate_limiting_precision ltac:(lia) ltac:(done)) as Hc.
    change rate_limiting_precision with 1000000 in *. lia.
  - destruct (add_inadmissible a 0 slot window Hwf) as [e He]; [lia|done|unfold window; lia|done|].
    rewrite He in Hadd. done.
Qed.

Lemma update_account_usage_at m l slot m' :
  capacity_ok (config m) (state m) → usages_small m → 0 ≤ slot < 2 ^ 32 →
  update_account_usage m l slot = Ok m' →
  config m' = config m ∧ state m' = state m ∧ limits m' = limits m ∧ pending_limits m' = pending_limits m ∧
  ∀ a, a ∈ l → ∃ u, usages m' !! a = Some u ∧ usage_at slot u.
Proof.
  intros Hcap Hsmall Hs. destruct (co_windows _ _ Hcap) as [Ew1 Ew2]. unfold update_account_usage.
  assert (∀ l m1 m2, config m1 = config m → usages_small m1 →
    foldM (λ m a, usage ← get (usages m) a;
      net ← modify_usage (add (ResourceLimits.net_usage usage) 0 slot (account_net_usage_average_window (config m)));
      cpu ← modify_usage (add (cpu_usage usage) 0 slot (account_cpu_usage_average_window (config m)));
      Ok (set_usages m (<[a := MkUsage net cpu (ram_usage usage)]> (usages m)))) m1 l = Ok m2 →
    config m2 = config m1 ∧ state m2 = state m1 ∧ limits m2 = limits m1 ∧ pending_limits m2 = pending_limits m1 ∧
    (∀ a u, usages m1 !! a = Some u → usage_at slot u → ∃ u', usages m2 !! a = Some u' ∧ usage_at slot u') ∧
    ∀ a, a ∈ l → ∃ u, usages m2 !! a = Some u ∧ usage_at slot u) as Hfold.
  2: { intros Hm. destruct (Hfold l m m' eq_refl Hsmall Hm) as (? & ? & ? & ? & _ & ?). done. }
  clear l. induction l as [|a l IH]; intros m1 m2 Hc1 Hs1 Hm.
  { injection Hm as <-. split_and!; try done; [by eauto|]. intros a Ha. by apply elem_of_nil in Ha. }
  cbn [foldM] in Hm. apply bind_Ok in Hm as (m3 & H3 & Hm).
  apply bind_Ok in H3 as (u & Hu & H3). apply get_Ok in Hu. apply bind_Ok in H3 as (n & Hn & H3).
  apply bind_Ok in H3 as (p & Hp & H3). injection H3 as <-. rewrite Hc1, Ew2 in Hn. rewrite Hc1, Ew1 in Hp.
  destruct (Hs1 a u Hu) as [Sn Sp]. apply modify_at in Hn; [|done|done]. apply modify_at in Hp; [|done|done].
  assert (usage_at slot (MkUsage n p (ram_usage u))) as Hat by (split; done).
  assert (usages_small (set_usages m1 (<[a := MkUsage n p (ram_usage u)]> (usages m1)))) as Hs3.
  { intros b v Hv. cbn [usages set_usages] in Hv. apply lookup_insert_Some in Hv as [[_ <-]|[_ Hv]]; [|by eapply Hs1].
    split; split; [apply Hn|split; apply Hn|apply Hp|split; apply Hp]. }
  apply IH in Hm as (E1 & E2 & E3 & E4 & Hkeep & Hin); [|exact Hc1|exact Hs3].
  split_and!; try done.
  - intros b v Hv Hbv. destruct (decide (b = a)) as [->|Hne].
    + apply (Hkeep a _ (lookup_insert_eq _ _ _) Hat).
    + apply (Hkeep b v); [|done]. cbn [usages set_usages]. by rewrite lookup_insert_ne by done.
  - intros b [->|Hb]%elem_of_cons; [|by apply Hin]. apply (Hkeep a _ (lookup_insert_eq _ _ _) Hat).
Qed.

(** While a transaction runs, its actions use the network and memory, make accounts, change
    the limits of accounts, pause and resume the timer, pay fees and change permissions. *)
Definition set_fees (t : transaction_context) (f : TxFee.trx_fee) : transaction_context :=
  MkContext (start t) (deadline t) (leeway t) (billed_cpu_time_us t) (explicit_billed_cpu_time t) (is_input t)
    (is_initialized t) (bill_to_accounts t) (validate_ram_usage t) (eager_net_limit t) (net_usage t) (lim t) (bill t) f.

Inductive run_step : transaction_context * state_db → transaction_context * state_db → Prop :=
  | run_net t db u t' : add_net_usage t u = Ok t' → run_step (t, db) (t', db)
  | run_ram t db account delta t' db' : add_ram_usage db t account delta = Ok (t', db') → run_step (t, db) (t', db')
  | run_pause t db now : run_step (t, db) (pause_billing_timer t now, db)
  | run_resume t db now : run_step (t, db) (resume_billing_timer t now, db)
  | run_limits t db account ram net cpu m b :
      net < 2 ^ 63 → cpu < 2 ^ 63 → set_account_limits (rl db) account ram net cpu = Ok (m, b) →
      run_step (t, db) (t, set_rl db m)
  | run_account t db account m : initialize_account (rl db) account = Ok m → run_step (t, db) (t, set_rl db m)
  | run_fees t db f : run_step (t, db) (set_fees t f, db)
  | run_tables t db a accts : run_step (t, db) (t, MkDb (rl db) a accts (recorded db)).

(** What the bill depends on *)
Record billable (l : limits_of) (accts : list Z) (f : resource_limits_config_object) (s : resource_limits_state_object)
    (x : transaction_context * state_db) : Prop := {
  bi_lim : lim x.1 = l;
  bi_accounts : bill_to_accounts x.1 = accts;
  bi_config : config (rl x.2) = f;
  bi_state : state (rl x.2) = s;
  bi_weights : weights_ok (rl x.2);
  bi_usages : ∀ a, a ∈ accts → ∃ u, usages (rl x.2) !! a = Some u ∧ usage_at (pending_slot c) u }.

Lemma set_account_limits_billable l accts f s t db account ram net cpu m b :
  net < 2 ^ 63 → cpu < 2 ^ 63 → set_account_limits (rl db) account ram net cpu = Ok (m, b) →
  billable l accts f s (t, db) → billable l accts f s (t, set_rl db m).
Proof.
  intros Hn Hc Hset [El Ea Ef Es Hw Hu]. unfold set_account_limits in Hset.
  apply bind_Ok in Hset as (old & _ & [= <- <-]). split; try done. cbn [snd rl set_rl].
  intros a x [Hx|Hx]; [by apply (Hw a); left|]. cbn [pending_limits] in Hx.
  apply lookup_insert_Some in Hx as [[_ <-]|[_ Hx]]; [done|]. apply (Hw a). by right.
Qed.

Lemma initialize_account_billable l accts f s t db account m :
  initialize_account (rl db) account = Ok m → billable l accts f s (t, db) → billable l accts f s (t, set_rl db m).
Proof.
  intros Hinit [El Ea Ef Es Hw Hu]. unfold initialize_account in Hinit.
  apply bind_Ok in Hinit as (ls & Hl & Hinit). apply bind_Ok in Hinit as (us & Hus & [= <-]).
  apply create_Ok in Hl as [_ ->]. apply create_Ok in Hus as [Hnone ->].
  split; try done; cbn [snd rl set_rl].
  - intros a x [Hx|Hx]; cbn [limits pending_limits] in Hx; [|by apply (Hw a); right].
    apply lookup_insert_Some in Hx as [[_ <-]|[_ Hx]]; [done|]. apply (Hw a). by left.
  - intros a Ha. cbn [fst bill_to_accounts] in Hu. destruct (Hu a Ha) as (u & Hua & Hat). exists u. split; [|done].
    cbn [usages snd rl] in *. rewrite lookup_insert_ne; [done|]. intros ->. congruence.
Qed.

Lemma add_ram_billable l accts f s t db account delta t' db' :
  add_ram_usage db t account delta = Ok (t', db') → billable l accts f s (t, db) → billable l accts f s (t', db').
Proof.
  intros Hadd [El Ea Ef Es Hw Hu]. unfold add_ram_usage in Hadd. apply bind_Ok in Hadd as (m & Hm & [= <- <-]).
  unfold add_pending_ram_usage in Hm. destruct (delta =? 0).
  { injection Hm as <-. by split. }
  apply bind_Ok in Hm as (u & Hu0 & Hm). apply get_Ok in Hu0. inv_ok. split; try done.
  intros a Ha. destruct (Hu a Ha) as (v & Hv & Hat). cbn [snd rl set_rl usages set_usages] in *.
  destruct (decide (a = account)) as [->|Hne].
  - rewrite lookup_insert_eq. eexists. split; [done|]. by simplify_eq.
  - rewrite lookup_insert_ne by done. by exists v.
Qed.

Lemma run_step_billable l accts f s x y :
  run_step x y → billable l accts f s x → billable l accts f s y.
Proof.
  intros Hstep Hb. destruct Hstep as [t db u t' Hadd|t db account delta t' db' Hadd|t db now|t db now|
      t db account ram net cpu m b Hn Hc Hset|t db account m Hinit|t db fe|t db a accts'].
  - unfold add_net_usage in Hadd. apply bind_Ok in Hadd as (_u & _ & [= <-]). by destruct Hb.
  - by eapply add_ram_billable.
  - unfold pause_billing_timer. destruct (_ || _); [done|]. destruct Hb. by split.
  - unfold resume_billing_timer. destruct (_ || _); [done|]. destruct (if _ <=? _ then _ else _). destruct Hb. by split.
  - exact (set_account_limits_billable _ _ _ _ _ _ _ _ _ _ _ _ Hn Hc Hset Hb).
  - by eapply initialize_account_billable.
  - destruct Hb. by split.
  - destruct Hb. by split.
Qed.

(** Initialization: the limits are found and the accounts are brought to the slot *)
Lemma init_billable trx t db initial_net_usage now t' m' :
  config_ok → trx_ok trx → capacity_ok (config (rl db)) (state (rl db)) → weights_ok (rl db) → usages_small (rl db) →
  bill_to_accounts t = [] → init trx t (rl db) initial_net_usage now = Ok (t', m') →
  config m' = config (rl db) ∧ state m' = state (rl db) ∧ limits_within trx (rl db) (lim t') ∧ NoDup (bill_to_accounts t') ∧
  billable (lim t') (bill_to_accounts t') (config m') (state m') (t', set_rl db m').
Proof.
  intros Hck Htrx Hcap Hw Hsmall Hempty Hinit. unfold init in Hinit.
  apply bind_Ok in Hinit as (? & _ & Hinit). apply bind_Ok in Hinit as (? & _ & Hinit).
  pose proof (objective_limits_within trx (rl db) Hck Htrx Hcap) as Hl.
  set (l := objective_limits trx (rl db)) in *.
  set (accts := if only_bill_first_authorizer c then _ else _) in *.
  assert (StronglySorted Z.lt accts) as Hsort.
  { unfold accts. rewrite Hempty. destruct (only_bill_first_authorizer c).
    - apply flat_set_insert_sorted. constructor.
    - apply foldl_insert_sorted. constructor. }
  apply bind_Ok in Hinit as (m & Hm & Hinit).
  destruct (update_account_usage_at _ _ _ _ Hcap Hsmall (ck_slot Hck) Hm) as (Ef & Es & El & Ep & Hus).
  apply bind_Ok in Hinit as ([[[net cpu] gn] gc] & _ & Hinit).
  destruct (if u64 _ <? net_limit l then _ else _) as [eager due].
  destruct (if s64 _ <=? _ then _ else _) as [dl code].
  destruct (if explicit_billed_cpu_time t || _ then _ else _) as [dl' dcode].
  apply bind_Ok in Hinit as (t1 & Ht1 & Hinit). apply bind_Ok in Hinit as (? & _ & [= <- <-]).
  set (t0 := MkContext _ _ _ _ _ _ _ _ _ _ _ _ _ _) in Ht1.
  assert (lim t1 = lim t0 ∧ bill_to_accounts t1 = bill_to_accounts t0) as [E1 E2].
  { destruct (0 <? initial_net_usage); [|by injection Ht1 as <-].
    unfold add_net_usage in Ht1. apply bind_Ok in Ht1 as (? & _ & [= <-]). done. }
  cbn [lim bill_to_accounts]. rewrite E1, E2. cbn [t0 lim bill_to_accounts].
  split_and!; try done.
  - destruct Hl. by split.
  - by apply sorted_NoDup.
  - split; try done; cbn [fst snd rl set_rl bill_to_accounts lim]; try done.
    intros a w Hwt. rewrite El, Ep in Hwt. by apply (Hw a).
Qed.

(** The bill is within the limits of the transaction *)
Lemma finalize_checks_within trx m db t now t' a :
  config_ok → skip_trx_checks c = false → limits_within trx m (lim t) →
  finalize_checks db trx t now = Ok (t', a) →
  limits_within trx m (lim t') ∧ bill_to_accounts t' = bill_to_accounts t ∧
  net_usage t' mod 8 = 0 ∧ 0 ≤ net_usage t' ≤ net_limit (lim t') ∧
  min_transaction_cpu_usage (configuration c) ≤ billed_cpu_time_us t' ≤ objective_duration_limit (lim t') ∧
  TxFee.check_limit_by_contract (fees t') (billed_cpu_time_us t') (net_usage t') = Ok tt ∧
  ∀ x, x ∈ bill_to_accounts t' → can_pay (rl db) (billed_cpu_time_us t') (net_usage t') x.
Proof.
  intros Hck Hskip Hl Hf. unfold finalize_checks in Hf.
  set (billed := (update_billed_cpu_time t now).1) in Hf. clearbody billed.
  apply bind_Ok in Hf as (? & _ & Hf). apply bind_Ok in Hf as (a' & _ & Hf). apply bind_Ok in Hf as (? & _ & Hf).
  apply bind_Ok in Hf as ([[[net cpu] gn] gc] & Hband & Hf). apply bind_Ok in Hf as (? & Hnet & Hf).
  apply bind_Ok in Hf as (? & Hcpu & Hf). apply bind_Ok in Hf as ([] & Hfee & [= <- <-]).
  cbn [lim bill_to_accounts net_usage billed_cpu_time_us fees] in *.
  destruct (bandwidth_can_pay _ _ _ _ _ _ _ (ck_greylist Hck) Hband) as (Hn0 & Hc0 & Hpay).
  set (l := final_limits (lim t) net cpu gn gc) in *.
  assert (net_limit l ≤ net_limit (lim t) ∧ net_limit l ≤ net ∧ 0 ≤ net_limit l ∧
          objective_duration_limit l ≤ objective_duration_limit (lim t) ∧ objective_duration_limit l ≤ cpu) as (H1 & H2 & H3 & H4 & H5).
  { pose proof (lw_net_nonneg _ _ _ Hl). assert (large_number_no_overflow < 2 ^ 64) by (vm_compute; done).
    unfold l, final_limits. rewrite (u64_id net) by lia.
    destruct (Z.leb_spec net (net_limit (lim t))), (Z.leb_spec cpu (objective_duration_limit (lim t)));
      cbn [net_limit objective_duration_limit]; lia. }
  unfold check_net_usage in Hnet. rewrite Hskip in Hnet.
  destruct (Z.ltb_spec (net_limit l) (u64 (u64 (net_usage t + 7) / 8 * 8))) as [Hlt|Hge].
  { destruct (net_limit_due_to_block l), (net_limit_due_to_greylist l); done. }
  unfold validate_cpu_usage_to_bill in Hcpu. rewrite Hskip in Hcpu. 
  apply bind_Ok in Hcpu as ([] & Hmin & Hobj). apply assert_that_Ok, Z.leb_le in Hmin, Hobj.
  split; [destruct Hl; split; lia|]. split; [done|]. split.
  { pose proof (u64_range (net_usage t + 7)) as Hr. rewrite u64_id; [apply Z.mod_mul; lia|].
    pose proof (Z.mul_div_le (u64 (net_usage t + 7)) 8 ltac:(lia)). pose proof (Z.div_pos (u64 (net_usage t + 7)) 8 ltac:(lia) ltac:(lia)). lia. }
  pose proof (u64_range (u64 (net_usage t + 7) / 8 * 8)). split; [lia|]. split; [lia|]. split; [done|].
  intros y Hy. apply Hpay; [lia|lia|done].
Qed.

(** The bill of a transaction that passed its checks *)
Lemma bill_usage_spec trx db t :
  config_ok → capacity_ok (config (rl db)) (state (rl db)) → limits_within trx (rl db) (lim t) →
  NoDup (bill_to_accounts t) → billable (lim t) (bill_to_accounts t) (config (rl db)) (state (rl db)) (t, db) →
  0 ≤ net_usage t ≤ net_limit (lim t) → 0 ≤ billed_cpu_time_us t ≤ objective_duration_limit (lim t) →
  (∀ x, x ∈ bill_to_accounts t → can_pay (rl db) (billed_cpu_time_us t) (net_usage t) x) →
  is_ok (bill_usage db t) ↔
  ¬ (billed_cpu_time_us t = 0 ∧ ∃ a, a ∈ bill_to_accounts t ∧ over_cpu (rl db) a) ∧
  ¬ (net_usage t = 0 ∧ ∃ a, a ∈ bill_to_accounts t ∧ over_net (rl db) a).
Proof.
  intros Hck Hcap Hl Hnd Hb Hn Hc Hpay. unfold bill_usage, add_transaction_usage.
  destruct Hl, Hck. rewrite u64_id by lia.
  destruct (bill_accounts (bill_to_accounts t) (billed_cpu_time_us t) (net_usage t) (pending_slot c) (rl db))
    as [Hok Hm]; try done || lia; [apply Hb|apply Hb|].
  rewrite <-Hok. destruct Hcap as [_ ? ? _ _ [? ?]].
  destruct (foldM _ _ _) as [m|e] eqn:Hfold; cbn [mbind result_bind]; [|split; by intros [? ?]].
  destruct (Hm m eq_refl) as [Es Ef]. split; [by eexists|]. intros _. eexists.
  cbn [config set_state]. rewrite Es, Ef, !u64_id by lia. rewrite !(proj2 (Z.leb_le _ _)) by lia. done.
Qed.

(** C21: A transaction from its initialization, through whatever its actions do, to its bill.
    When the checks of [finalize] pass, the network usage is a whole number of words and, like
    the processor time, within what the block has left, the maximum of the configuration, the
    limits in the transaction's header and those its fees bought.  Charging it to the accounts
    then fails in one case only: nothing is billed of a resource of which one of the accounts
    already uses more than its share. *)
Theorem transaction_bill trx t db initial_net_usage now t0 m0 t1 db1 now1 t2 a :
  config_ok → trx_ok trx → skip_trx_checks c = false →
  capacity_ok (config (rl db)) (state (rl db)) → weights_ok (rl db) → usages_small (rl db) → bill_to_accounts t = [] →
  init trx t (rl db) initial_net_usage now = Ok (t0, m0) →
  rtc run_step (t0, set_rl db m0) (t1, db1) →
  finalize_checks db1 trx t1 now1 = Ok (t2, a) →
  (net_usage t2 mod 8 = 0 ∧ 0 ≤ net_usage t2 ≤ max_transaction_net_usage (configuration c) ∧
   (0 < max_net_usage_words trx → net_usage t2 ≤ max_net_usage_words trx * 8) ∧
   pending_net_usage (state (rl db)) + net_usage t2 ≤ max (net_limit_parameters (config (rl db)))) ∧
  (min_transaction_cpu_usage (configuration c) ≤ billed_cpu_time_us t2 ≤ max_transaction_cpu_usage (configuration c) ∧
   (0 < max_cpu_usage_ms trx → billed_cpu_time_us t2 ≤ max_cpu_usage_ms trx * 1000) ∧
   pending_cpu_usage (state (rl db)) + billed_cpu_time_us t2 ≤ max (cpu_limit_parameters (config (rl db)))) ∧
  (TxFee.use_limit_by_contract (fees t2) = true →
   billed_cpu_time_us t2 ≤ TxFee.cpu_limit_by_contract (fees t2) ∧ net_usage t2 ≤ TxFee.net_limit_by_contract (fees t2)) ∧
  (is_ok (finalize db1 trx t1 now1) ↔
     ¬ (billed_cpu_time_us t2 = 0 ∧ ∃ x, x ∈ bill_to_accounts t2 ∧ over_cpu (rl db1) x) ∧
     ¬ (net_usage t2 = 0 ∧ ∃ x, x ∈ bill_to_accounts t2 ∧ over_net (rl db1) x)).
Proof.
  intros Hck Htrx Hskip Hcap Hw Hsmall Hempty Hinit Hrun Hfin.
  destruct (init_billable _ _ _ _ _ _ _ Hck Htrx Hcap Hw Hsmall Hempty Hinit) as (Ef & Es & Hl & Hnd & Hb).
  assert (billable (lim t0) (bill_to_accounts t0) (config m0) (state m0) (t1, db1)) as Hb1.
  { clear -Hb Hrun. induction Hrun as [x|x y z Hxy _ IH]; [done|]. by apply IH, (run_step_billable _ _ _ _ x). }
  destruct Hb1 as [El Ea Ef1 Es1 Hw1 Hu1]. cbn [fst snd] in *.
  assert (limits_within trx (rl db) (lim t1)) as Hl1 by (by rewrite El).
  destruct (finalize_checks_within trx (rl db) db1 t1 now1 t2 a Hck Hskip Hl1 Hfin) as (Hl2 & Ea2 & Hmod & Hnet & Hcpu & Hfee & Hpay).
  pose proof Hl2 as [? ? ? ? ? ? ?]. pose proof (ck_min Hck).
  split; [split_and!; [done|lia|lia|lia|lia]|]. split; [split_and!; [lia|lia|lia|lia]|]. split.
  { intros Huse. unfold TxFee.check_limit_by_contract in Hfee. rewrite Huse in Hfee.
    apply bind_Ok in Hfee as ([] & H1 & H2). apply assert_that_Ok, Z.leb_le in H1, H2. done. }
  rewrite <-(bill_usage_spec trx db1 t2 Hck); try done || lia.
  - unfold finalize. rewrite Hfin. cbn [mbind result_bind]. unfold is_ok.
    destruct (bill_usage db1 t2); cbn [mbind result_bind]; split; by intros [? ?]; eauto.
  - by rewrite Ef1, Es1, Ef, Es.
  - destruct Hl2. split; rewrite ?Ef1, ?Es1, ?Ef, ?Es; done.
  - by rewrite Ea2, Ea.
  - split; try done. cbn [fst snd]. rewrite Ea2, Ea. exact Hu1.
Qed.

(** ** The lists of actors *)

Lemma lower_bound_elem l x z : x ≤ z → z ∈ lower_bound l x ↔ z ∈ l.
Proof.
  intros Hz. induction l as [|y l IH]; [done|]. cbn [lower_bound].
  destruct (Z.ltb_spec y x); [|done]. rewrite IH, elem_of_cons. split; [by right|]. intros [->|?]; [lia|done].
Qed.

Lemma lower_bound_sorted l x : StronglySorted Z.lt l → StronglySorted Z.lt (lower_bound l x).
Proof.
  induction 1 as [|y l Hl IH Hy]; cbn [lower_bound]; [constructor|]. destruct (y <? x); [done|by constructor].
Qed.

Lemma lower_bound_head l x y l' : StronglySorted Z.lt l → lower_bound l x = y :: l' → x ≤ y ∧ Forall (Z.lt y) l'.
Proof.
  induction 1 as [|z l Hl IH Hz]; cbn [lower_bound]; [done|]. destruct (Z.ltb_spec z x); [done|].
  intros [= <- <-]. done.
Qed.

Lemma whitelist_loop_spec actors rest :
  StronglySorted Z.lt actors → StronglySorted Z.lt rest →
  whitelist_loop actors rest = true ↔ ∀ a, a ∈ actors → a ∈ rest.
Proof.
  intros Ha. revert rest. induction Ha as [|x actors Ha IH Hx]; intros rest Hr; cbn [whitelist_loop].
  { split; [|done]. intros _ a Hin. by apply elem_of_nil in Hin. }
  setoid_rewrite elem_of_cons. pose proof (lower_bound_elem rest x) as Helem.
  destruct (lower_bound rest x) as [|y l'] eqn:E.
  { split; [done|]. intros Hall. assert (x ∈ rest) as Hin by auto. apply Helem in Hin; [|lia]. by apply elem_of_nil in Hin. }
  destruct (lower_bound_head _ _ _ _ Hr E) as [Hle Hy].
  pose proof (lower_bound_sorted rest x Hr) as Hs. rewrite E in Hs. inversion Hs as [|?? Hs' _]; subst.
  destruct (Z.eqb_spec y x) as [->|Hne]; cbn [negb].
  - rewrite (IH _ Hs'). rewrite Forall_forall in Hx. split.
    + intros Hall a [->|Hin]; [apply Helem; [lia|]; by left|]. specialize (Hx a Hin).
      apply Helem; [lia|]. right. by apply Hall.
    + intros Hall a Hin. specialize (Hx a Hin). assert (a ∈ x :: l') as Hin' by (apply Helem; [lia|]; auto).
      apply elem_of_cons in Hin' as [->|]; [lia|done].
  - split; [done|]. intros Hall. assert (x ∈ y :: l') as Hin by (apply Helem; [lia|]; auto).
    apply elem_of_cons in Hin as [->|Hin]; [done|]. rewrite Forall_forall in Hy. specialize (Hy x Hin). lia.
Qed.

Lemma blacklist_loop_spec actors rest :
  StronglySorted Z.lt actors → StronglySorted Z.lt rest →
  blacklist_loop actors rest = true ↔ ∃ a, a ∈ actors ∧ a ∈ rest.
Proof.
  intros Ha. revert rest. induction Ha as [|x actors Ha IH Hx]; intros rest Hr; cbn [blacklist_loop].
  { split; [done|]. intros (a & Hin & _). by apply elem_of_nil in Hin. }
  rewrite Forall_forall in Hx. setoid_rewrite elem_of_cons. pose proof (lower_bound_elem rest x) as Helem.
  pose proof (lower_bound_sorted rest x Hr) as Hs.
  destruct (lower_bound rest x) as [|y l'] eqn:E.
  { split; [done|]. intros (a & Hin & Hrest). apply Helem in Hrest; [by apply elem_of_nil in Hrest|].
    destruct Hin as [->|Hin]; [lia|]. specialize (Hx a Hin). lia. }
  destruct (lower_bound_head _ _ _ _ Hr E) as [Hle Hy]. destruct (Z.eqb_spec y x) as [->|Hne].
  - split; [|done]. intros _. exists x. split; [by left|]. apply Helem; [lia|]. by left.
  - rewrite (IH _ Hs). split.
    + intros (a & Hin & Ha'). exists a. split; [by right|]. specialize (Hx a Hin). apply Helem; [lia|done].
    + intros (a & [->|Hin] & Hrest).
      * apply Helem in Hrest; [|lia]. rewrite Forall_forall in Hy.
        apply elem_of_cons in Hrest as [->|Hin]; [done|]. specialize (Hy x Hin). lia.
      * exists a. split; [done|]. specialize (Hx a Hin). apply Helem; [lia|done].
Qed.

Lemma sorted_head_last l first last_ a :
  StronglySorted Z.lt (first :: l) → last (first :: l) = Some last_ → a ∈ first :: l → first ≤ a ≤ last_.
Proof.
  revert first a. induction l as [|y l IH]; intros first a Hs Hl Ha.
  - injection Hl as <-. apply list_elem_of_singleton in Ha as ->. lia.
  - inversion Hs as [|?? Hs' Hall]; subst. rewrite Forall_forall in Hall.
    assert (first < y) by (apply Hall; by left). change (last (y :: l) = Some last_) in Hl.
    apply elem_of_cons in Ha as [->|Ha].
    + specialize (IH y y Hs' Hl ltac:(by left)). lia.
    + specialize (IH y a Hs' Hl Ha). lia.
Qed.

Lemma last_elem (l : list Z) x : last l = Some x → x ∈ l.
Proof. intros Hl. apply last_Some in Hl as [l' ->]. apply elem_of_app. right. by left. Qed.

Lemma whitelist_test x xs lx y ys ly :
  StronglySorted Z.lt (x :: xs) → StronglySorted Z.lt (y :: ys) →
  last (x :: xs) = Some lx → last (y :: ys) = Some ly →
  (if (y <=? x) && (lx <=? ly) then whitelist_loop (x :: xs) (y :: ys) else false) =
  bool_decide (Forall (λ a, a ∈ y :: ys) (x :: xs)).
Proof.
  intros Hx Hy Hlx Hly. pose proof (whitelist_loop_spec _ _ Hx Hy) as Hspec.
  destruct (Z.leb_spec y x), (Z.leb_spec lx ly); cbn [andb].
  1: { destruct (whitelist_loop _ _); symmetry; [apply bool_decide_true|apply bool_decide_false]; rewrite Forall_forall.
       - by apply Hspec.
       - intros Hall. by apply Hspec in Hall. }
  all: symmetry; apply bool_decide_false; rewrite Forall_forall; intros Hall;
    pose proof (sorted_head_last _ _ _ _ Hy Hly (Hall x ltac:(by left)));
    pose proof (sorted_head_last _ _ _ _ Hy Hly (Hall lx (last_elem _ _ Hlx))); lia.
Qed.

Lemma blacklist_test x xs lx y ys ly :
  StronglySorted Z.lt (x :: xs) → StronglySorted Z.lt (y :: ys) →
  last (x :: xs) = Some lx → last (y :: ys) = Some ly →
  negb (if (x <=? ly) && (y <=? lx) then blacklist_loop (x :: xs) (y :: ys) else false) =
  bool_decide (Forall (λ a, a ∉ y :: ys) (x :: xs)).
Proof.
  intros Hx Hy Hlx Hly. pose proof (blacklist_loop_spec _ _ Hx Hy) as Hspec.
  destruct (Z.leb_spec x ly), (Z.leb_spec y lx); cbn [andb negb].
  1: { destruct (blacklist_loop _ _); symmetry; [apply bool_decide_false|apply bool_decide_true]; rewrite Forall_forall.
       - destruct (proj1 Hspec eq_refl) as (a & H1 & H2). intros Hall. by apply (Hall a).
       - intros a H1 H2. discriminate (proj2 Hspec). by exists a. }
  all: symmetry; apply bool_decide_true; rewrite Forall_forall; intros a H1 H2;
    pose proof (sorted_head_last _ _ _ _ Hx Hlx H1); pose proof (sorted_head_last _ _ _ _ Hy Hly H2); lia.
Qed.

(** [check_actor_list] walks the sorted list of actors and a sorted list side by side, after
    a comparison of their ends: that is the test that all actors are on the whitelist, when
    there is one, and otherwise that none is on the blacklist. *)
Theorem check_actor_list_spec actors :
  StronglySorted Z.lt actors → StronglySorted Z.lt (actor_whitelist c) → StronglySorted Z.lt (actor_blacklist c) →
  check_actor_list actors =
  if bool_decide (actors = []) then Ok tt
  else if negb (bool_decide (actor_whitelist c = [])) then
    assert_that (bool_decide (Forall (λ a, a ∈ actor_whitelist c) actors)) actor_whitelist_exception
  else assert_that (bool_decide (Forall (λ a, a ∉ actor_blacklist c) actors)) actor_blacklist_exception.
Proof.
  intros Ha Hw Hb. unfold check_actor_list. destruct actors as [|x xs]; [done|].
  destruct (last (x :: xs)) as [lx|] eqn:Hlx; [|by apply last_None in Hlx].
  rewrite (bool_decide_false (x :: xs = [])) by done. destruct (actor_whitelist c) as [|y ys].
  - rewrite bool_decide_true by done. cbn [negb]. destruct (actor_blacklist c) as [|z zs].
    { rewrite bool_decide_true; [done|]. apply Forall_true. intros a. apply not_elem_of_nil. }
    destruct (last (z :: zs)) as [lz|] eqn:Hlz; [|by apply last_None in Hlz]. by rewrite (blacklist_test _ _ lx _ _ lz).
  - rewrite bool_decide_false by done. cbn [negb].
    destruct (last (y :: ys)) as [ly|] eqn:Hly; [|by apply last_None in Hly]. by rewrite (whitelist_test _ _ lx _ _ ly).
Qed.

(** ** The billing timer *)

Inductive timer_event := Pause (now : Z) | Resume (now : Z).

Definition event_time (e : timer_event) : Z := match e with Pause now | Resume now => now end.

Definition timer_event_step (t : transaction_context) (e : timer_event) : transaction_context :=
  match e with Pause now => pause_billing_timer t now | Resume now => resume_billing_timer t now end.

(** The time a stopwatch shows: since when it runs, and what it had before *)
Definition stopwatch_step (s : option Z * Z) (e : timer_event) : option Z * Z :=
  match e, s with
  | Pause now, (Some since, total) => (None, total + (now - since))
  | Resume now, (None, total) => (Some now, total)
  | _, _ => s
  end.

Fixpoint in_order (last_ : Z) (es : list timer_event) : Prop :=
  match es with [] => True | e :: es => last_ ≤ event_time e ∧ in_order (event_time e) es end.

(** The context agrees with the stopwatch at time [at_] *)
Definition shows (t : transaction_context) (s : option Z * Z) (at_ : Z) : Prop :=
  0 ≤ s.2 ∧
  match s.1 with
  | Some since => since ≤ at_ ∧ s.2 < since ∧ pseudo_start (bill t) = since - s.2
  | None => s.2 < at_ ∧ pseudo_start (bill t) = 0 ∧ billed_time (bill t) = s.2
  end.

Lemma timer_event_shows t s at_ e :
  explicit_billed_cpu_time t = false → shows t s at_ → at_ ≤ event_time e →
  explicit_billed_cpu_time (timer_event_step t e) = false ∧
  shows (timer_event_step t e) (stopwatch_step s e) (event_time e) ∧
  billing_timer_duration_limit (bill (timer_event_step t e)) = billing_timer_duration_limit (bill t) ∧
  deadline (timer_event_step t e) = deadline t.
Proof.
  intros Hex [Hpos Hs] Hle. destruct s as [[since|] total]; cbn [fst snd] in *;
    destruct e as [now|now]; cbn [timer_event_step stopwatch_step event_time] in *.
  - destruct Hs as (H1 & H2 & H3). unfold pause_billing_timer. rewrite Hex, H3.
    rewrite (proj2 (Z.eqb_neq _ _)) by lia. cbn. split_and!; try done. split; cbn; lia.
  - destruct Hs as (H1 & H2 & H3). unfold resume_billing_timer. rewrite Hex, H3.
    rewrite (proj2 (Z.eqb_neq _ _)) by lia. cbn. split_and!; try done. split; cbn; lia.
  - destruct Hs as (H1 & H2 & H3). unfold pause_billing_timer. rewrite Hex, H2. cbn.
    split_and!; try done. split; cbn; lia.
  - destruct Hs as (H1 & H2 & H3). unfold resume_billing_timer. rewrite Hex, H2. cbn [orb negb Z.eqb].
    destruct (if _ <=? _ then _ else _) as [d code]. cbn. split_and!; try done. split; cbn; lia.
Qed.

Lemma timer_events_show es t s at_ :
  explicit_billed_cpu_time t = false → shows t s at_ → in_order at_ es →
  let t' := foldl timer_event_step t es in
  explicit_billed_cpu_time t' = false ∧ (∃ at', at_ ≤ at' ∧ Forall (λ e, event_time e ≤ at') es ∧ shows t' (foldl stopwatch_step s es) at') ∧
  billing_timer_duration_limit (bill t') = billing_timer_duration_limit (bill t) ∧ deadline t' = deadline t.
Proof.
  revert t s at_. induction es as [|e es IH]; intros t s at_ Hex Hs Ho.
  { split_and!; try done. exists at_. split_and!; [lia|by constructor|done]. }
  destruct Ho as [Hle Ho]. destruct (timer_event_shows t s at_ e Hex Hs Hle) as (Hex' & Hs' & Hb & Hd).
  destruct (IH _ _ _ Hex' Hs' Ho) as (IH1 & (at' & IH2 & IH3 & IH4) & IH5 & IH6). cbn [foldl].
  split_and!; [done| |congruence|congruence]. exists at'. split_and!; [lia| |done]. by constructor.
Qed.

(** The time billed is the time the timer ran.  After any sequence of pauses and resumptions,
    the processor time that [update_billed_cpu_time] bills is what a stopwatch paused and
    resumed at the same times shows, or the minimum; and when the timer is then resumed, the
    deadline leaves the transaction the rest of its duration limit, or the caller's deadline. *)
Theorem billing_timer_exact t es now :
  explicit_billed_cpu_time t = false → 0 < start t → pseudo_start (bill t) = start t → in_order (start t) es →
  let '(running, total) := foldl stopwatch_step (Some (start t), 0) es in
  let t' := foldl timer_event_step t es in
  match running with
  | Some since =>
      (update_billed_cpu_time t' now).1 = Z.max (total + (now - since)) (min_transaction_cpu_usage (configuration c))
  | None =>
      let limit := s64 (now - total + billing_timer_duration_limit (bill t)) in
      pseudo_start (bill t') = 0 ∧ billed_time (bill t') = total ∧
      _deadline (bill (resume_billing_timer t' now)) = Z.min limit (deadline t)
  end.
Proof.
  intros Hex Hpos Hps Ho.
  assert (shows t (Some (start t), 0) (start t)) as Hs by (split; cbn; lia).
  destruct (timer_events_show es t _ _ Hex Hs Ho) as (Hex' & (at' & _ & _ & Hs') & Hb & Hd).
  set (t' := foldl timer_event_step t es) in *.
  destruct (foldl stopwatch_step _ es) as [[since|] total]; cbn [shows fst snd] in Hs'.
  - destruct Hs' as (H0 & H1 & H2 & H3). unfold update_billed_cpu_time. rewrite Hex', H3. cbn [fst]. f_equal. cbn [fst snd]. lia.
  - destruct Hs' as (H0 & H1 & H2 & H3). split_and!; [done|done|]. unfold resume_billing_timer.
    rewrite Hex', H2, H3, Hb, Hd. cbn [orb negb Z.eqb snd].
    destruct (Z.leb_spec (s64 (now - total + billing_timer_duration_limit (bill t))) (deadline t)); cbn; lia.
Qed.

End context.

(** ** Examples *)

Definition sample_configuration : chain_config := {|
  max_block_net_usage := 1048576; target_block_net_usage_pct := 1000; max_transaction_net_usage := 524288;
  base_per_transaction_net_usage := 12; net_usage_leeway := 500; context_free_discount_net_usage_num := 20;
  context_free_discount_net_usage_den := 100; max_block_cpu_usage := 1000000; target_block_cpu_usage_pct := 1000;
  max_transaction_cpu_usage := 150000; min_transaction_cpu_usage := 100; max_transaction_lifetime := 3600;
  deferred_trx_expiration_window := 600; max_transaction_delay := 3888000; max_inline_action_size := 4096;
  max_inline_action_depth := 4; max_authority_depth := 6 |}.

Definition sample_control : control :=
  MkControl sample_configuration true false true 1000 ∅ [] [5; 9] (λ _, (0, 0)) 1000000 77 ∅ ∅.

(** An account with a small share of the network that it has used up *)
Definition sample_manager : manager :=
  MkManager {[ 7 := MkLimits 1 (-1) (-1) ]} ∅ {[ 7 := MkUsage (MkAcc 77 5000000000 5000) (MkAcc 77 0 0) 0 ]} default_config
    (MkState empty_accumulator empty_accumulator 0 0 1000000000 0 0 1048576 1000000).

Definition sample_db : state_db (key := unit) :=
  MkDb sample_manager (Permissions.MkAuthDb ∅ 1 ∅ 0 ∅) {[ 7 ]} ∅.

(** A deferred transaction: its network usage was paid when it was scheduled *)
Definition sample_trx : transaction :=
  MkTrx 0 0 0 0 0 0 [] [{| Action.account := 7; Action.name := 1; Action.authorization := [Action.MkLevel 7 1]; Action.data := [] |}] [].

Definition sample_context : transaction_context :=
  MkContext 1000 time_point_maximum 0 0 false false false [] [] 0 0
    (MkLimitsOf 0 true false false 0 0 block_cpu_usage_exceeded)
    (MkBilling time_point_maximum block_cpu_usage_exceeded 1000 0 0 new_timer)
    {| TxFee.fee_payer := 0; TxFee.fee_costed := Asset.core_asset 0; TxFee.max_fee_to_pay := Asset.core_asset 0;
       TxFee.use_limit_by_contract := false; TxFee.cpu_limit_by_contract := 0; TxFee.net_limit_by_contract := 0;
       TxFee.fee_actions := [] |}.

(** The transaction of an account over its share of the network passes the checks and is
    refused when it is billed. *)
Lemma transaction_bill_witness :
  ∃ t0 m0, init sample_control sample_trx sample_context sample_manager 0 1000 = Ok (t0, m0) ∧
    ¬ is_ok (finalize sample_control (set_rl sample_db m0) sample_trx t0 3000).
Proof.
  destruct (init sample_control sample_trx sample_context (rl sample_db) 0 1000) as [[t0 m0]|e] eqn:Hinit.
  2: { assert (is_ok (init sample_control sample_trx sample_context (rl sample_db) 0 1000)) as [x Hx]
         by (eexists; vm_compute; reflexivity). congruence. }
  exists t0, m0. split; [exact Hinit|].
  destruct (finalize_checks sample_control (set_rl sample_db m0) sample_trx t0 3000) as [[t2 a]|e] eqn:Hfin.
  2: { intros [x Hx]. unfold finalize in Hx. rewrite Hfin in Hx. discriminate Hx. }
  assert (config_ok sample_control) as Hck by (split; vm_compute; repeat split; discriminate || reflexivity).
  assert (trx_ok sample_trx) as Htrx by (split; vm_compute; repeat split; discriminate || reflexivity).
  assert (capacity_ok (config (rl sample_db)) (state (rl sample_db))) as Hcap
    by (split; vm_compute; repeat split; discriminate || reflexivity).
  assert (weights_ok (rl sample_db)) as Hw.
  { intros x l [Hl|Hl]; cbn in Hl; [|by rewrite lookup_empty in Hl].
    apply lookup_singleton_Some in Hl as [_ <-]. vm_compute. done. }
  assert (usages_small (rl sample_db)) as Hu.
  { intros x u Hx. cbn in Hx. apply lookup_singleton_Some in Hx as [_ <-]. vm_compute. repeat split; discriminate || reflexivity. }
  destruct (transaction_bill sample_control sample_trx sample_context sample_db 0 1000 t0 m0 t0 (set_rl sample_db m0) 3000 t2 a
    Hck Htrx eq_refl Hcap Hw Hu eq_refl Hinit (rtc_refl _ _) Hfin) as (_ & _ & _ & Hiff).
  rewrite Hiff. intros [_ Hnot]. apply Hnot. clear -Hinit Hfin. vm_compute in Hinit. injection Hinit as <- <-.
  vm_compute in Hfin. injection Hfin as <- <-. split; [reflexivity|]. exists 7. split; [by left|].
  eexists _, _, _, _. split; [vm_compute; reflexivity|]. split; [vm_compute; reflexivity|].
  vm_compute. repeat split; discriminate || reflexivity.
Defined.

Lemma check_actor_list_spec_witness : check_actor_list sample_control [3; 9] = Throw actor_blacklist_exception.
Proof.
  rewrite check_actor_list_spec; [reflexivity|..]; cbn; repeat constructor; lia.
Defined.

Lemma billing_timer_exact_witness :
  (update_billed_cpu_time sample_control (foldl timer_event_step sample_context [Pause 1200; Resume 5000]) 5300).1 = 500.
Proof.
  pose proof (billing_timer_exact sample_control sample_context [Pause 1200; Resume 5000] 5300) as H.
  rewrite H; [reflexivity|reflexivity|cbn; lia|reflexivity|cbn; lia].
Defined.

(** A deadline a second or more ahead is refused by the operating system, and the timer
    reports at once that it has expired. *)
Example timer_far_deadline : expired (timer_start new_timer 0 1000000) 0 = true.
Proof. reflexivity. Qed.

Example timer_near_deadline now : 0 ≤ now → expired (timer_start new_timer 0 999999) now = (999999 <=? now).
Proof. intros Hnow. reflexivity. Qed.

End TransactionContext.
