(* ===== verification/ActionExecution.v ===== *)
(** * Execution of actions

    [apply_context.cpp]: an action runs on its receiver, then on the accounts it notifies,
    and then the inline actions that were sent run in the same way, to a limited depth.
    [transaction_context.cpp]: the list of traces in which every action of a transaction gets
    its ordinal, the fee action that goes before each action, and [exec].  A contract, and
    likewise a native handler, is a [program] over the calls it makes of its host; what it
    does to the tables of the other components is a function on the type of those tables.
    What the host asks of these components is the class [Components]: the authorization
    manager (Permissions.v, Authorization.v), the charge of memory (TransactionContext.v), the
    tables of fees and of the configuration on the chain (TxFee.v, ChainConfig.v). *)

From S2P Require Import Prelude.
From S2P Require Import Exceptions.
From S2P Require Import Name.
From S2P Require Import Asset.
From S2P Require Import Action.
From S2P Require Import ChainConfig.
From S2P Require Import TxFee.
From S2P Require Import TransactionContext.

Local Open Scope Z_scope.

Module ActionExecution.

(** ** Data *)

(** [action_receipt] without the digest of the action *)
Record action_receipt := MkReceipt {
  r_receiver : Z;
  global_sequence : Z;
  recv_sequence : Z;
  auth_sequence : gmap Z Z;
  code_sequence : Z;
  abi_sequence : Z }.

(** [action_trace] without console, times and block *)
Record action_trace := MkTrace {
  t_ordinal : Z;
  creator_action_ordinal : Z;
  closest_unnotified_ancestor_action_ordinal : Z;
  receipt : option action_receipt;
  t_receiver : Z;
  t_act : Action.action;
  t_context_free : bool;
  account_ram_deltas : gmap Z Z }.

(** The fields of [account_metadata_object] used here; [has_code]: [code_hash] is not null *)
Record account_metadata := MkMetadata {
  m_recv_sequence : Z;
  m_auth_sequence : Z;
  m_code_sequence : Z;
  m_abi_sequence : Z;
  has_code : bool;
  is_privileged : bool }.

(** The database: the counter of actions, the accounts, and the other tables.  An account has
    its [account_object] and its [account_metadata_object] created together. *)
Record world (R : Type) := MkWorld {
  global_action_sequence : Z;
  accounts : gmap Z account_metadata;
  tables : R }.
Arguments MkWorld {R} _ _ _.
Arguments global_action_sequence {R} _.
Arguments accounts {R} _.
Arguments tables {R} _.

(** What a contract or a native handler does: the calls of its host that concern the
    execution of actions, the changes of accounts ([newaccount], [setcode], [setabi],
    [set_privileged]), and any other access to the database. *)
Inductive program (R : Type) :=
  | Return
  | Fail (e : exn)
  | Require_recipient (recipient : Z) (k : program R)
  | Execute_inline (a : Action.action) (k : program R)
  | Execute_context_free_inline (a : Action.action) (k : program R)
  | Get_sender (k : Z → program R)
  | Add_ram_usage (account ram_delta : Z) (k : program R)
  | New_account (account : Z) (k : program R)
  | Set_account (account code_seq abi_seq : Z) (code priv : bool) (k : program R)
  | Access (f : world R → result exn R) (k : world R → program R).
Arguments Return {R}.
Arguments Fail {R} e.
Arguments Require_recipient {R} recipient k.
Arguments Execute_inline {R} a k.
Arguments Execute_context_free_inline {R} a k.
Arguments Get_sender {R} k.
Arguments Add_ram_usage {R} account ram_delta k.
Arguments New_account {R} account k.
Arguments Set_account {R} account code_seq abi_seq code priv k.
Arguments Access {R} f k.

(** What the execution of actions asks of the other components; [max_inline_action_depth] is
    a [uint16_t]. *)
Class Components (R : Type) := {
  find_permission : R → Action.permission_level → result exn bool;
  check_authorization : R → Action.action → Action.permission_level → gset Action.permission_level → result exn unit;
  add_pending_ram_usage : R → Z → Z → result exn R;
  schedule_transaction : R → result exn R;
  action_fees : R → TxFee.fee_table;
  config_on_chain : R → gmap Z ConfigOnChain.config_data_object;
  max_inline_action_depth : R → Z;
  max_inline_action_depth_u16 r : max_inline_action_depth r < 2 ^ 16;
  pack_fee_paramter : TxFee.fee_paramter → list Z;
  unpack_name : list Z → result exn Z }.

(** The state of a transaction while it executes *)
Record trx_state (R : Type) := MkState {
  action_traces : list action_trace;
  executed : list action_receipt;
  db : world R;
  fees : TxFee.trx_fee }.
Arguments MkState {R} _ _ _ _.
Arguments action_traces {R} _.
Arguments executed {R} _.
Arguments db {R} _.
Arguments fees {R} _.

Definition set_db {R} (s : trx_state R) (w : world R) : trx_state R :=
  MkState (action_traces s) (executed s) w (fees s).

(** What is read of the controller, of its configuration and of the transaction *)
Record control := MkControl {
  ctl : TransactionContext.control;
  enforce_whiteblacklist : bool;
  skip_auth_check : bool;
  head_block_num : Z;
  forward_setcode : bool;
  ram_restrictions : bool;
  restrict_action_to_self : bool;
  contract_whitelist : gset Z;
  contract_blacklist : gset Z;
  action_blacklist : gset (Z * Z);
  transaction_extensions : list (Z * list Z) }.

(** [act] points into the list of traces; an action there never changes, so it is kept by
    value. *)
Record apply_context := MkContext {
  recurse_depth : Z;
  first_receiver_action_ordinal : Z;
  action_ordinal : Z;
  act : Action.action;
  receiver : Z;
  context_free : bool;
  privileged : bool;
  notified : list (Z * Z);
  inline_actions : list Z;
  cfa_inline_actions : list Z;
  ram_deltas : gmap Z Z }.

Definition set_privileged (x : apply_context) (b : bool) : apply_context :=
  MkContext (recurse_depth x) (first_receiver_action_ordinal x) (action_ordinal x) (act x) (receiver x)
    (context_free x) b (notified x) (inline_actions x) (cfa_inline_actions x) (ram_deltas x).
Definition set_act (x : apply_context) (a : Action.action) : apply_context :=
  MkContext (recurse_depth x) (first_receiver_action_ordinal x) (action_ordinal x) a (receiver x)
    (context_free x) (privileged x) (notified x) (inline_actions x) (cfa_inline_actions x) (ram_deltas x).
Definition set_receiver (x : apply_context) (r o : Z) : apply_context :=
  MkContext (recurse_depth x) (first_receiver_action_ordinal x) o (act x) r
    (context_free x) (privileged x) (notified x) (inline_actions x) (cfa_inline_actions x) (ram_deltas x).
Definition set_ram_deltas (x : apply_context) (d : gmap Z Z) : apply_context :=
  MkContext (recurse_depth x) (first_receiver_action_ordinal x) (action_ordinal x) (act x) (receiver x)
    (context_free x) (privileged x) (notified x) (inline_actions x) (cfa_inline_actions x) d.
(** The lists with entries added at their ends *)
Definition push (x : apply_context) (n : list (Z * Z)) (i cfa : list Z) : apply_context :=
  MkContext (recurse_depth x) (first_receiver_action_ordinal x) (action_ordinal x) (act x) (receiver x)
    (context_free x) (privileged x) (notified x ++ n) (inline_actions x ++ i) (cfa_inline_actions x ++ cfa)
    (ram_deltas x).

Section execution.
Context {R : Type} `{Components R}.
Context (c : control).

(** [find_apply_handler], by receiver, code and name of the action, and the code of a receiver
    as [wasm_interface::apply] runs it; a [wasm_exit] is a [Return]. *)
Context (find_apply_handler : Z → Z → Z → option (world R → Action.action → program R)).
Context (wasm_apply : world R → Z → Action.action → program R).

Implicit Types (s : trx_state R) (x : apply_context) (a : Action.action).

(** ** The traces of a transaction *)

Definition get_action_trace s (ordinal : Z) : result exn action_trace :=
  _ ← assert_that ((0 <? ordinal) && (ordinal <=? Z.of_nat (length (action_traces s)))) transaction_exception;
  match action_traces s !! Z.to_nat (ordinal - 1) with Some t => Ok t | None => Throw transaction_exception end.

(** [transaction_context::schedule_action] of an action *)
Definition schedule_action s a (recv : Z) (cfree : bool) (creator closest : Z) : trx_state R * Z :=
  let new_action_ordinal := Z.of_nat (length (action_traces s)) + 1 in
  (MkState (action_traces s ++ [MkTrace new_action_ordinal creator closest None recv a cfree ∅])
     (executed s) (db s) (fees s), new_action_ordinal).

(** [transaction_context::schedule_action] of the action of another trace *)
Definition schedule_action_of s (ordinal recv : Z) (cfree : bool) (creator closest : Z) : result exn (trx_state R * Z) :=
  provided ← get_action_trace s ordinal;
  Ok (schedule_action s (t_act provided) recv cfree creator closest).

(** [transaction_context::schedule_fee_action]; TxFee.v has all but the trace *)
Definition schedule_fee_action s a (recv : Z) : result exn (trx_state R * Z) :=
  if TxFee.is_need_fee_action (fees s) then
    t ← TxFee.schedule_fee_action unpack_name (action_fees (tables (db s))) (config_on_chain (tables (db s)))
          (head_block_num c) (transaction_extensions c) (fees s) a;
    match last (TxFee.fee_actions t) with
    | Some f =>
        Ok (schedule_action (MkState (action_traces s) (executed s) (db s) t)
              (Action.MkAction (TxFee.fa_account f) (TxFee.fa_name f) [TxFee.fa_authorization f]
                 (pack_fee_paramter (TxFee.fa_data f))) recv false 0 0)
    | None => Throw transaction_exception
    end
  else Ok (s, 0).

(** [apply_context::schedule_action]: [act] is set anew, for the traces may have moved *)
Definition reread_act s x : result exn apply_context :=
  t ← get_action_trace s (action_ordinal x); Ok (set_act x (t_act t)).

(** ** Calls of the host *)

Definition has_recipient x (code : Z) : bool := existsb (λ p, p.1 =? code) (notified x).

Definition require_recipient s x (recipient : Z) : result exn (trx_state R * apply_context) :=
  if negb (has_recipient x recipient) then
    '(s, o) ← schedule_action_of s (action_ordinal x) recipient false (action_ordinal x) (first_receiver_action_ordinal x);
    x ← reread_act s x;
    Ok (s, push x [(recipient, o)] [] [])
  else Ok (s, x).

Definition is_account s (account : Z) : bool := bool_decide (is_Some (accounts (db s) !! account)).

(** The loop of [execute_inline] over the authorizations *)
Definition check_inline_authorization s (enforce inherit : bool) x
    (st : list Z * gset Action.permission_level) (auth : Action.permission_level)
    : result exn (list Z * gset Action.permission_level) :=
  let '(actors, inherited) := st in
  _ ← assert_that (is_account s (Action.actor auth)) action_validate_exception;
  found ← find_permission (tables (db s)) auth;
  _ ← assert_that found action_validate_exception;
  Ok (if enforce then TransactionContext.flat_set_insert (Action.actor auth) actors else actors,
      if inherit && bool_decide (auth ∈ Action.authorization (act x)) then {[auth]} ∪ inherited else inherited).

(** The actions of the system account no contract may send *)
Definition no_call a : bool :=
  ((Action.name a =? Name.N "onfee") || (Action.name a =? Name.N "voteagefee") || (Action.name a =? Name.N "onblock"))
  && (Action.account a =? Config.system_account_name).

(** The action [a] and, before it, its fee action; the ordinals of both *)
Definition schedule_inline s x a (cfree : bool) : result exn (trx_state R * apply_context * list Z) :=
  '(s, os) ← (if TxFee.is_need_fee_action (fees s)
              then '(s, o) ← schedule_fee_action s a Config.system_account_name; Ok (s, [o])
              else Ok (s, []));
  let '(s, o) := schedule_action s a (Action.account a) cfree (action_ordinal x) (first_receiver_action_ordinal x) in
  x ← reread_act s x;
  Ok (s, x, os ++ [o]).

Definition execute_inline s x a : result exn (trx_state R * apply_context) :=
  _ ← assert_that (is_account s (Action.account a)) action_validate_exception;
  _ ← assert_that (negb ((4470000 <? head_block_num c) && no_call a)) action_validate_exception;
  let producing := TransactionContext.is_producing_block (ctl c) in
  let enforce := enforce_whiteblacklist c && producing in
  let send_to_self := Action.account a =? receiver x in
  let inherit := negb (restrict_action_to_self c) && send_to_self
                 && (receiver x =? Action.account (act x)) && producing in
  '(actors, inherited) ← foldM (check_inline_authorization s enforce inherit x) ([], ∅) (Action.authorization a);
  _ ← (if enforce then TransactionContext.check_actor_list (ctl c) actors else Ok tt);
  _ ← (if negb (skip_auth_check c) && negb (privileged x) then
         match check_authorization (tables (db s)) a (Action.MkLevel (receiver x) Config.eosio_code_name) inherited with
         | Ok _ => Ok tt
         | Throw e =>
             if restrict_action_to_self c || negb send_to_self then Throw e
             else if producing then Throw subjective_block_production_exception
             else Ok tt
         end
       else Ok tt);
  '(s, x, os) ← schedule_inline s x a false;
  Ok (s, push x [] os []).

Definition execute_context_free_inline s x a : result exn (trx_state R * apply_context) :=
  _ ← assert_that (is_account s (Action.account a)) action_validate_exception;
  _ ← assert_that (Z.of_nat (length (Action.authorization a)) =? 0) action_validate_exception;
  '(s, x, os) ← schedule_inline s x a true;
  Ok (s, push x [] [] os).

Definition get_sender s x : result exn Z :=
  trace ← get_action_trace s (action_ordinal x);
  if 0 <? creator_action_ordinal trace then
    creator ← get_action_trace s (creator_action_ordinal trace); Ok (t_receiver creator)
  else Ok 0.

(** [add_ram_usage]; the deltas of an account add up to a change of its usage, which
    [add_pending_ram_usage] keeps in range. *)
Definition add_ram_usage s x (account ram_delta : Z) : result exn (trx_state R * apply_context) :=
  r ← add_pending_ram_usage (tables (db s)) account ram_delta;
  Ok (set_db s (MkWorld (global_action_sequence (db s)) (accounts (db s)) r),
      set_ram_deltas x (<[account := default 0 (ram_deltas x !! account) + ram_delta]> (ram_deltas x))).

(** ** Programs *)

Definition get_account s (account : Z) : result exn account_metadata :=
  match accounts (db s) !! account with Some m => Ok m | None => Throw std_exception end.

Definition set_account s (account : Z) (m : account_metadata) : trx_state R :=
  set_db s (MkWorld (global_action_sequence (db s)) (<[account := m]> (accounts (db s))) (tables (db s))).

Fixpoint run (p : program R) s x : result exn (trx_state R * apply_context) :=
  match p with
  | Return => Ok (s, x)
  | Fail e => Throw e
  | Require_recipient r k => '(s, x) ← require_recipient s x r; run k s x
  | Execute_inline a k => '(s, x) ← execute_inline s x a; run k s x
  | Execute_context_free_inline a k => '(s, x) ← execute_context_free_inline s x a; run k s x
  | Get_sender k => sender ← get_sender s x; run (k sender) s x
  | Add_ram_usage account delta k => '(s, x) ← add_ram_usage s x account delta; run k s x
  | New_account account k =>
      _ ← assert_that (negb (is_account s account)) account_name_exists_exception;
      run k (set_account s account (MkMetadata 0 0 0 0 false false)) x
  | Set_account account cs abs code priv k =>
      m ← get_account s account;
      run k (set_account s account (MkMetadata (m_recv_sequence m) (m_auth_sequence m) cs abs code priv)) x
  | Access f k =>
      r ← f (db s);
      let w := MkWorld (global_action_sequence (db s)) (accounts (db s)) r in
      run (k w) (set_db s w) x
  end.

(** ** One receiver of an action *)

Definition check_contract_list (code : Z) : result exn unit :=
  if bool_decide (contract_whitelist c ≠ ∅)
  then assert_that (bool_decide (code ∈ contract_whitelist c)) contract_whitelist_exception
  else if bool_decide (contract_blacklist c ≠ ∅)
  then assert_that (negb (bool_decide (code ∈ contract_blacklist c))) contract_blacklist_exception
  else Ok tt.

Definition check_action_list (code action : Z) : result exn unit :=
  if bool_decide (action_blacklist c ≠ ∅)
  then assert_that (negb (bool_decide ((code, action) ∈ action_blacklist c))) action_blacklist_exception
  else Ok tt.

(** The lists are consulted by a producer only *)
Definition check_lists x : result exn unit :=
  if enforce_whiteblacklist c && TransactionContext.is_producing_block (ctl c) then
    _ ← check_contract_list (receiver x);
    check_action_list (Action.account (act x)) (Action.name (act x))
  else Ok tt.

(** Fee actions run no code *)
Definition is_fee_action a : bool :=
  (Action.account a =? Config.system_account_name)
  && ((Action.name a =? Name.N "onfee") || (Action.name a =? Name.N "voteagefee")).

Definition runs_code (m : account_metadata) x : bool :=
  negb (is_fee_action (act x)) && has_code m
  && (negb ((Action.account (act x) =? Config.system_account_name) && (Action.name (act x) =? Name.N "setcode")
            && (receiver x =? Config.system_account_name))
      || forward_setcode c).

(** The check of one entry of the memory deltas *)
Definition ram_delta_allowed x (p : Z * Z) : bool :=
  if (0 <? p.2) && negb (p.1 =? receiver x)
  then (receiver x =? Action.account (act x)) && Action.has_authorization (Action.authorization (act x)) p.1
  else true.

Definition check_ram_deltas x : result exn unit :=
  if negb (privileged x) && ram_restrictions c
  then assert_that (forallb (ram_delta_allowed x) (map_to_list (ram_deltas x))) unauthorized_ram_usage_increase
  else Ok tt.

Definition next_global_sequence s : trx_state R * Z :=
  let n := u64 (global_action_sequence (db s) + 1) in
  (set_db s (MkWorld n (accounts (db s)) (tables (db s))), n).

Definition next_recv_sequence s (account : Z) : result exn (trx_state R * Z) :=
  m ← get_account s account;
  let n := u64 (m_recv_sequence m + 1) in
  Ok (set_account s account
        (MkMetadata n (m_auth_sequence m) (m_code_sequence m) (m_abi_sequence m) (has_code m) (is_privileged m)), n).

Definition next_auth_sequence s (account : Z) : result exn (trx_state R * Z) :=
  m ← get_account s account;
  let n := u64 (m_auth_sequence m + 1) in
  Ok (set_account s account
        (MkMetadata (m_recv_sequence m) n (m_code_sequence m) (m_abi_sequence m) (has_code m) (is_privileged m)), n).

Definition next_auth_sequences s (auths : list Action.permission_level) : result exn (trx_state R * gmap Z Z) :=
  foldM (λ st auth, '(s', n) ← next_auth_sequence st.1 (Action.actor auth); Ok (s', <[Action.actor auth := n]> st.2))
    (s, ∅) auths.

(** The part of [exec_one] that runs the handler and the code *)
Definition run_receiver s x : result exn (trx_state R * apply_context) :=
  m ← get_account s (receiver x);
  let x := set_privileged x (is_privileged m) in
  '(s, x) ← match find_apply_handler (receiver x) (Action.account (act x)) (Action.name (act x)) with
            | Some native => _ ← check_lists x; run (native (db s) (act x)) s x
            | None => Ok (s, x)
            end;
  m ← get_account s (receiver x);
  '(s, x) ← (if runs_code m x then _ ← check_lists x; run (wasm_apply (db s) (receiver x) (act x)) s x else Ok (s, x));
  _ ← check_ram_deltas x;
  Ok (s, x).

(** The trace gets the receipt and the memory deltas ([finalize_trace]) *)
Definition finish_trace (t : action_trace) (r : action_receipt) (d : gmap Z Z) : action_trace :=
  MkTrace (t_ordinal t) (creator_action_ordinal t) (closest_unnotified_ancestor_action_ordinal t) (Some r)
    (t_receiver t) (t_act t) (t_context_free t) d.

(** The part of [exec_one] after the action has run *)
Definition write_receipt s x : result exn (trx_state R * apply_context) :=
  let '(s, g) := next_global_sequence s in
  '(s, n) ← next_recv_sequence s (receiver x);
  first ← get_account s (Action.account (act x));
  '(s, auths) ← next_auth_sequences s (Action.authorization (act x));
  t ← get_action_trace s (action_ordinal x);
  let r := MkReceipt (receiver x) g n auths (m_code_sequence first) (m_abi_sequence first) in
  Ok (MkState (<[Z.to_nat (action_ordinal x - 1) := finish_trace t r (ram_deltas x)]> (action_traces s))
        (executed s ++ [r]) (db s) (fees s),
      set_ram_deltas x ∅).

Definition exec_one s x : result exn (trx_state R * apply_context) :=
  '(s, x) ← run_receiver s x; write_receipt s x.

(** ** Notifications and inline actions

    [None] is an execution that has run out of fuel: [turns] bounds the receivers of one
    action, [depth] the depth of inline actions. *)

(** The loop of [exec] over the accounts notified, from index [i] on *)
Fixpoint exec_notified (turns : nat) (i : nat) s x : option (result exn (trx_state R * apply_context)) :=
  match turns with
  | O => None
  | S turns =>
      match notified x !! i with
      | None => Some (Ok (s, x))
      | Some (r, o) =>
          match exec_one s (set_receiver x r o) with
          | Ok (s, x) => exec_notified turns (S i) s x
          | Throw e => Some (Throw e)
          end
      end
  end.

(** The context of an action when it is constructed *)
Definition new_context s (ordinal depth : Z) : result exn apply_context :=
  t ← get_action_trace s ordinal;
  Ok (MkContext depth ordinal ordinal (t_act t) (t_receiver t) (t_context_free t) false [] [] [] ∅).

(** Actions one after the other *)
Fixpoint exec_each (f : trx_state R → Z → option (result exn (trx_state R))) s (os : list Z)
    : option (result exn (trx_state R)) :=
  match os with
  | [] => Some (Ok s)
  | o :: os => match f s o with
               | Some (Ok s) => exec_each f s os
               | other => other
               end
  end.

(** The check of [exec] before it runs inline actions *)
Definition check_depth s x : result exn unit :=
  if (0 <? Z.of_nat (length (cfa_inline_actions x))) || (0 <? Z.of_nat (length (inline_actions x)))
  then assert_that (recurse_depth x <? max_inline_action_depth (tables (db s))) transaction_exception
  else Ok tt.

(** [execute_action] with [apply_context::exec] *)
Fixpoint execute_action (turns depth : nat) (recurse : Z) s (ordinal : Z) : option (result exn (trx_state R)) :=
  match depth with
  | O => None
  | S depth =>
      match new_context s ordinal recurse with
      | Throw e => Some (Throw e)
      | Ok x =>
          match exec_one s (push x [(receiver x, ordinal)] [] []) with
          | Throw e => Some (Throw e)
          | Ok (s, x) =>
              match exec_notified turns 1 s x with
              | None => None
              | Some (Throw e) => Some (Throw e)
              | Some (Ok (s, x)) =>
                  match check_depth s x with
                  | Throw e => Some (Throw e)
                  | Ok _ => exec_each (execute_action turns depth (recurse + 1)) s
                              (cfa_inline_actions x ++ inline_actions x)
                  end
              end
          end
      end
  end.

(** One iteration of the loops of [transaction_context::exec] that schedule actions *)
Definition schedule_original (cfree : bool) s a : result exn (trx_state R) :=
  '(s, _) ← schedule_fee_action s a Config.system_account_name;
  Ok (schedule_action s a (Action.account a) cfree 0 0).1.

Definition schedule_originals s (is_initialized apply_context_free : bool) (delay : Z)
    (context_free_actions actions : list Action.action) : result exn (trx_state R) :=
  _ ← assert_that is_initialized transaction_exception;
  s ← (if apply_context_free then foldM (schedule_original true) s context_free_actions else Ok s);
  if delay =? 0 then foldM (schedule_original false) s actions else Ok s.

(** [transaction_context::exec] *)
Definition exec (turns depth : nat) s (is_initialized apply_context_free : bool) (delay : Z)
    (context_free_actions actions : list Action.action) : option (result exn (trx_state R)) :=
  match schedule_originals s is_initialized apply_context_free delay context_free_actions actions with
  | Throw e => Some (Throw e)
  | Ok s =>
      match exec_each (execute_action turns depth 0) s (seqZ 1 (Z.of_nat (length (action_traces s)))) with
      | Some (Ok s) =>
          Some (if negb (delay =? 0) then
                  r ← schedule_transaction (tables (db s));
                  Ok (set_db s (MkWorld (global_action_sequence (db s)) (accounts (db s)) r))
                else Ok s)
      | other => other
      end
  end.
End execution.

(** ** Ordinals of the actions still to run *)

Fixpoint open_from (k : Z) (l : list action_trace) : list Z :=
  match l with
  | [] => []
  | t :: l => (match receipt t with None => [k] | Some _ => [] end) ++ open_from (k + 1) l
  end.

(** The ordinals of the traces without a receipt *)
Definition open {R} (s : trx_state R) : list Z := open_from 1 (action_traces s).

Lemma open_from_app k l l' : open_from k (l ++ l') = open_from k l ++ open_from (k + Z.of_nat (length l)) l'.
Proof.
  revert k. induction l as [|t l IH]; intros k; cbn [open_from app length]; [by rewrite Z.add_0_r|].
  rewrite IH, <- app_assoc, Nat2Z.inj_succ. by replace (k + Z.succ (Z.of_nat (length l))) with (k + 1 + Z.of_nat (length l)) by lia.
Qed.

Lemma open_from_closed k l : open_from k l = [] ↔ Forall (λ t, is_Some (receipt t)) l.
Proof.
  revert k. induction l as [|t l IH]; intros k; cbn [open_from]; [done|].
  rewrite Forall_cons, <- (IH (k + 1)). destruct (receipt t); cbn; [naive_solver eauto|].
  split; [done|]. intros [[? ?] _]. done.
Qed.

Lemma open_from_finish k l i t r d :
  l !! i = Some t → receipt t = None →
  open_from k l ≡ₚ (k + Z.of_nat i) :: open_from k (<[i := finish_trace t r d]> l).
Proof.
  revert k i. induction l as [|t' l IH]; intros k [|i] Hi Hr; try done; cbn in Hi; simplify_eq.
  - cbn [open_from list_insert insert]. cbn. rewrite Hr, Z.add_0_r. done.
  - cbn [open_from list_insert insert]. cbn [insert list_insert open_from].
    rewrite (IH (k + 1) i Hi Hr). rewrite Nat2Z.inj_succ.
    replace (k + Z.succ (Z.of_nat i)) with (k + 1 + Z.of_nat i) by lia.
    change (list_insert i (finish_trace t r d) l) with (<[i := finish_trace t r d]> l).
    by rewrite Permutation_middle.
Qed.

Lemma open_from_elem k l o :
  o ∈ open_from k l → ∃ i t, o = k + Z.of_nat i ∧ l !! i = Some t ∧ receipt t = None.
Proof.
  revert k. induction l as [|t l IH]; intros k; cbn [open_from]; [set_solver|].
  rewrite elem_of_app. intros [Ho|(i & t' & -> & Hi & Hr)%IH].
  - destruct (receipt t) eqn:E; [set_solver|]. apply list_elem_of_singleton in Ho as ->.
    exists 0%nat, t. split_and!; [lia|done|done].
  - exists (S i), t'. split_and!; [lia|done|done].
Qed.

(** New actions, none of them run *)
Lemma open_from_new k l : Forall (λ t, receipt t = None) l → open_from k l = seqZ k (Z.of_nat (length l)).
Proof.
  intros Hl. revert k. induction Hl as [|t l Ht Hl IH]; intros k; [done|].
  cbn [open_from length]. rewrite Ht, IH, (seqZ_cons k) by lia.
  replace (Z.pred (Z.of_nat (S (length l)))) with (Z.of_nat (length l)) by lia. done.
Qed.

(** The receipts of a list of traces when one more action is finished *)
Lemma receipts_finish l i t r d :
  l !! i = Some t → receipt t = None →
  omap receipt (<[i := finish_trace t r d]> l) ≡ₚ r :: omap receipt l.
Proof.
  revert i. induction l as [|t' l IH]; intros [|i] Hi Hr; try done; cbn in Hi; simplify_eq.
  - cbn. rewrite Hr. done.
  - cbn [insert list_insert]. change (list_insert i ?a l) with (<[i := a]> l). cbn [omap list_omap].
    specialize (IH i Hi Hr). destruct (receipt t'); [|done].
    change (a :: omap receipt (<[i := finish_trace t r d]> l) ≡ₚ r :: a :: omap receipt l).
    rewrite IH. constructor.
Qed.

(** ** Numbers given one after the other *)

(** The numbers [l] are given by a 64-bit counter that goes from [n] to [n'] *)
Inductive counts : Z → list Z → Z → Prop :=
  | counts_nil n : counts n [] n
  | counts_cons n l n' : counts (u64 (n + 1)) l n' → counts n (u64 (n + 1) :: l) n'.

Lemma counts_app n l n' l' n'' : counts n l n' → counts n' l' n'' → counts n (l ++ l') n''.
Proof. induction 1; intros ?; cbn; [done|constructor; auto]. Qed.

(** Without overflow, consecutive numbers *)
Lemma counts_seqZ n l n' :
  counts n l n' → 0 ≤ n → n + Z.of_nat (length l) < 2 ^ 64 →
  l = seqZ (n + 1) (Z.of_nat (length l)) ∧ n' = n + Z.of_nat (length l).
Proof.
  induction 1 as [n|n l n' Hc IH]; intros Hn Hlt; cbn [length] in *; [by split; [|lia]|].
  assert (u64 (n + 1) = n + 1) as Hu by (unfold u64; apply Z.mod_small; lia).
  rewrite Hu in *. destruct IH as [Hl Hn']; [lia|lia|]. rewrite seqZ_cons by lia. split; [|lia].
  f_equal. rewrite Hl at 1. f_equal; lia.
Qed.

(** ** What a program changes *)

Definition recv_of {R} (w : world R) (account : Z) : Z := from_option m_recv_sequence 0 (accounts w !! account).

(** The receipts [rs] are numbered by the counters of the database *)
Definition numbered {R} (w w' : world R) (rs : list action_receipt) : Prop :=
  counts (global_action_sequence w) (global_sequence <$> rs) (global_action_sequence w') ∧
  ∀ account, counts (recv_of w account) (recv_sequence <$> filter (λ r, r_receiver r = account) rs) (recv_of w' account).

Lemma numbered_app {R} (w w' w'' : world R) rs rs' :
  numbered w w' rs → numbered w' w'' rs' → numbered w w'' (rs ++ rs').
Proof.
  intros [Hg Hr] [Hg' Hr']. split.
  - rewrite fmap_app. by eapply counts_app.
  - intros account. rewrite filter_app, fmap_app. by eapply counts_app.
Qed.

Lemma numbered_nil {R} (w w' : world R) :
  global_action_sequence w' = global_action_sequence w → (∀ account, recv_of w' account = recv_of w account) →
  numbered w w' [].
Proof. intros Hg Hr. split; [rewrite Hg; constructor|]. intros account. rewrite Hr. constructor. Qed.

(** Each trace has its position as ordinal; its creator and its closest ancestor that is not
    a notification come before it. *)
Definition linked_at (i : nat) (t : action_trace) : Prop :=
  t_ordinal t = Z.of_nat i + 1 ∧
  0 ≤ closest_unnotified_ancestor_action_ordinal t ≤ creator_action_ordinal t ∧
  creator_action_ordinal t < t_ordinal t.
Definition linked (l : list action_trace) : Prop := ∀ i t, l !! i = Some t → linked_at i t.

Lemma linked_snoc l t : linked l → linked_at (length l) t → linked (l ++ [t]).
Proof.
  intros Hl Ht i t'. rewrite lookup_app. destruct (l !! i) eqn:E; [intros [= <-]; by apply Hl|].
  apply lookup_ge_None in E. intros Hi. destruct (i - length l)%nat eqn:Hd; [|by rewrite lookup_nil in Hi || done].
  cbn in Hi. simplify_eq. by replace i with (length l) by lia.
Qed.

(** A context whose ordinals are in the list of traces *)
Definition context_ok (n : nat) (x : apply_context) : Prop :=
  0 < first_receiver_action_ordinal x ≤ action_ordinal x ∧ action_ordinal x ≤ Z.of_nat n.

(** What remains of a context when its program runs *)
Definition same_context (x x' : apply_context) : Prop :=
  recurse_depth x' = recurse_depth x ∧ first_receiver_action_ordinal x' = first_receiver_action_ordinal x ∧
  action_ordinal x' = action_ordinal x ∧ receiver x' = receiver x.

(** A program only adds traces: of actions it asks to run, each once in one of the lists. *)
Definition ran {R} (s : trx_state R) (x : apply_context) (s' : trx_state R) (x' : apply_context) : Prop :=
  same_context x x' ∧ executed s' = executed s ∧ numbered (db s) (db s') [] ∧
  (context_ok (length (action_traces s)) x → linked (action_traces s) → linked (action_traces s')) ∧
  ∃ l n i cfa,
    action_traces s' = action_traces s ++ l ∧ Forall (λ t, receipt t = None) l ∧
    notified x' = notified x ++ n ∧ inline_actions x' = inline_actions x ++ i ∧
    cfa_inline_actions x' = cfa_inline_actions x ++ cfa ∧
    n.*2 ++ cfa ++ i ≡ₚ seqZ (Z.of_nat (length (action_traces s)) + 1) (Z.of_nat (length l)).

Lemma ran_quiet {R} (s s' : trx_state R) x x' :
  same_context x x' → notified x' = notified x → inline_actions x' = inline_actions x →
  cfa_inline_actions x' = cfa_inline_actions x →
  action_traces s' = action_traces s → executed s' = executed s → numbered (db s) (db s') [] →
  ran s x s' x'.
Proof.
  intros Hx Hn Hi Hc Ht He Hw. split_and!; [done|done|done|by rewrite Ht|].
  exists [], [], [], []. rewrite Ht, Hn, Hi, Hc, !app_nil_r. split_and!; try done.
Qed.

Lemma same_context_refl x : same_context x x.
Proof. by split_and!. Qed.

Lemma numbered_refl {R} (w : world R) : numbered w w [].
Proof. by apply numbered_nil. Qed.

Lemma ran_refl {R} (s : trx_state R) x : ran s x s x.
Proof. apply ran_quiet; auto using same_context_refl, numbered_refl. Qed.

Lemma ran_trans {R} (s s' s'' : trx_state R) x x' x'' : ran s x s' x' → ran s' x' s'' x'' → ran s x s'' x''.
Proof.
  intros (Hx & He & Hw & Hl & l & n & i & cfa & Ht & Hf & Hn & Hi & Hc & Hp)
    (Hx' & He' & Hw' & Hl' & l' & n' & i' & cfa' & Ht' & Hf' & Hn' & Hi' & Hc' & Hp').
  split_and!.
  - unfold same_context in *. intuition congruence.
  - congruence.
  - by apply (numbered_app _ (db s') _ [] []).
  - intros Hok Hlinked. apply Hl'; [|by apply Hl]. unfold context_ok, same_context in *.
    rewrite Ht, length_app. destruct Hx as (_ & -> & -> & _). lia.
  - exists (l ++ l'), (n ++ n'), (i ++ i'), (cfa ++ cfa').
    rewrite Ht', Hn', Hi', Hc', Ht, Hn, Hi, Hc, !app_assoc. split_and!; try done; [by apply Forall_app|].
    rewrite fmap_app, length_app, Nat2Z.inj_add, seqZ_app by lia.
    rewrite Ht, length_app in Hp'. rewrite <- Hp.
    replace (Z.of_nat (length (action_traces s)) + 1 + Z.of_nat (length l))
      with (Z.of_nat (length (action_traces s) + length l) + 1) by lia.
    rewrite <- Hp'. solve_Permutation.
Qed.

Section runs.
Context {R : Type} `{Components R}.
Context (c : control).
Context (find_apply_handler : Z → Z → Z → option (world R → Action.action → program R)).
Context (wasm_apply : world R → Z → Action.action → program R).
Implicit Types (s : trx_state R) (x : apply_context).

Lemma get_action_trace_Ok s o t :
  get_action_trace s o = Ok t ↔
  0 < o ≤ Z.of_nat (length (action_traces s)) ∧ action_traces s !! Z.to_nat (o - 1) = Some t.
Proof.
  unfold get_action_trace. split.
  - intros Hg. inv_ok. destruct (action_traces s !! _) eqn:E; simplify_eq. split; [lia|done].
  - intros [Ho Ht]. rewrite Ht. assert ((0 <? o) && (o <=? Z.of_nat (length (action_traces s))) = true) as -> by lia.
    done.
Qed.

Lemma reread_act_Ok s x x' : reread_act s x = Ok x' → ∃ a, x' = set_act x a.
Proof. unfold reread_act. intros Hr. inv_ok. by eexists. Qed.

(** What [schedule_fee_action] adds to the traces *)
Lemma schedule_fee_action_traces s a r s' o :
  schedule_fee_action c s a r = Ok (s', o) →
  executed s' = executed s ∧ db s' = db s ∧
  if TxFee.is_need_fee_action (fees s)
  then o = Z.of_nat (length (action_traces s)) + 1 ∧
       ∃ f, action_traces s' = action_traces s ++ [MkTrace o 0 0 None r f false ∅]
  else o = 0 ∧ s' = s.
Proof.
  unfold schedule_fee_action. destruct (TxFee.is_need_fee_action (fees s)); [|intros [= <- <-]; done].
  intros Hs. inv_ok. destruct (last _); simplify_eq. cbn. split_and!; try done. by eexists.
Qed.

Lemma linked_original l a r b :
  linked l → linked (l ++ [MkTrace (Z.of_nat (length l) + 1) 0 0 None r a b ∅]).
Proof. intros Hl. apply linked_snoc; [done|]. split_and!; cbn; lia. Qed.

Lemma linked_created l x a r b :
  context_ok (length l) x → linked l →
  linked (l ++ [MkTrace (Z.of_nat (length l) + 1) (action_ordinal x) (first_receiver_action_ordinal x) None r a b ∅]).
Proof. intros (Hf & Ho) Hl. apply linked_snoc; [done|]. unfold linked_at; cbn. lia. Qed.

Lemma require_recipient_ran s x r s' x' : require_recipient s x r = Ok (s', x') → ran s x s' x'.
Proof.
  unfold require_recipient, schedule_action_of. destruct (has_recipient x r); cbn [negb].
  { intros [= <- <-]. apply ran_refl. }
  intros Hr. apply bind_Ok in Hr as ([s1 o] & Hs & Hr). apply bind_Ok in Hs as (t & _ & Hs).
  apply bind_Ok in Hr as (x1 & Hx & Hr). unfold schedule_action in Hs. simplify_eq.
  apply reread_act_Ok in Hx as [a ->]. split_and!; try done.
  - apply numbered_refl.
  - intros Hok Hl. by apply linked_created.
  - eexists [_], [_], [], []. cbn. rewrite !app_nil_r. split_and!; try done. by repeat constructor.
Qed.

(** The actions [schedule_inline] adds, with their ordinals *)
Lemma schedule_inline_Ok s x a b s' x' os :
  schedule_inline c s x a b = Ok (s', x', os) →
  (∃ a', x' = set_act x a') ∧ executed s' = executed s ∧ db s' = db s ∧
  (context_ok (length (action_traces s)) x → linked (action_traces s) → linked (action_traces s')) ∧
  ∃ l, action_traces s' = action_traces s ++ l ∧ Forall (λ t, receipt t = None) l ∧
       os = seqZ (Z.of_nat (length (action_traces s)) + 1) (Z.of_nat (length l)).
Proof.
  unfold schedule_inline. intros Hs. apply bind_Ok in Hs as ([s1 os1] & Hf & Hs). cbn in Hs.
  apply bind_Ok in Hs as (x1 & Hx & Hs). simplify_eq. apply reread_act_Ok in Hx as [a' ->].
  destruct (TxFee.is_need_fee_action (fees s)) eqn:En.
  - apply bind_Ok in Hf as ([s2 o] & Hf & Heq). simplify_eq.
    apply schedule_fee_action_traces in Hf as (He & Hd & Hf). rewrite En in Hf. destruct Hf as (-> & f & Ht).
    cbn. rewrite Ht, !length_app; cbn. split_and!; [by eexists|done|done| |].
    + intros Hok Hl. apply linked_original with (a := f) (r := Config.system_account_name) (b := false) in Hl.
      replace (Z.of_nat (length (action_traces s) + 1) + 1)
        with (Z.of_nat (length (action_traces s ++ [MkTrace (Z.of_nat (length (action_traces s)) + 1) 0 0 None
                Config.system_account_name f false ∅])) + 1) by (rewrite length_app; cbn; lia).
      apply linked_created; [|done]. unfold context_ok in *. rewrite length_app. cbn. lia.
    + eexists [_; _]. rewrite <- app_assoc. split_and!; [done|by repeat constructor|].
      cbn [length]. rewrite !seqZ_cons by lia. cbn. repeat f_equal; lia.
  - simplify_eq. cbn. split_and!; [by eexists|done|done|intros; by apply linked_created|].
    eexists [_]. split_and!; [done|by repeat constructor|]. cbn. done.
Qed.

Lemma execute_inline_ran s x a s' x' : execute_inline c s x a = Ok (s', x') → ran s x s' x'.
Proof.
  unfold execute_inline. intros Hr. do 2 (apply bind_Ok in Hr as (? & _ & Hr)).
  apply bind_Ok in Hr as ([? ?] & _ & Hr). do 2 (apply bind_Ok in Hr as (? & _ & Hr)).
  apply bind_Ok in Hr as ([[s1 y] os] & Hs & Hr). simplify_eq.
  apply schedule_inline_Ok in Hs as ((a' & ->) & He & Hd & Hl & ts & Ht & Hf & ->).
  split_and!; try done; [rewrite Hd; apply numbered_refl|].
  exists ts, [], (seqZ (Z.of_nat (length (action_traces s)) + 1) (Z.of_nat (length ts))), []. cbn. rewrite !app_nil_r. split_and!; done.
Qed.

Lemma execute_context_free_inline_ran s x a s' x' : execute_context_free_inline c s x a = Ok (s', x') → ran s x s' x'.
Proof.
  unfold execute_context_free_inline. intros Hr. do 2 (apply bind_Ok in Hr as (? & _ & Hr)).
  apply bind_Ok in Hr as ([[s1 y] os] & Hs & Hr). simplify_eq.
  apply schedule_inline_Ok in Hs as ((a' & ->) & He & Hd & Hl & ts & Ht & Hf & ->).
  split_and!; try done; [rewrite Hd; apply numbered_refl|].
  exists ts, [], [], (seqZ (Z.of_nat (length (action_traces s)) + 1) (Z.of_nat (length ts))). cbn. rewrite !app_nil_r. split_and!; done.
Qed.

Lemma set_account_numbered s account m :
  m_recv_sequence m = recv_of (db s) account → numbered (db s) (db (set_account s account m)) [].
Proof.
  intros Hm. apply numbered_nil; [done|]. intros b. unfold recv_of; cbn.
  destruct (decide (b = account)) as [->|Hne]; [by rewrite lookup_insert_eq|by rewrite lookup_insert_ne].
Qed.

Lemma get_account_Ok s account m : get_account s account = Ok m ↔ accounts (db s) !! account = Some m.
Proof. unfold get_account. destruct (accounts (db s) !! account); split; congruence. Qed.

Lemma run_ran p : ∀ s x s' x', run c p s x = Ok (s', x') → ran s x s' x'.
Proof.
  induction p as [|e|r k IH|a k IH|a k IH|k IH|account d k IH|account k IH|account cs abs code priv k IH|f k IH];
    intros s x s' x' Hr; cbn in Hr.
  - simplify_eq. apply ran_refl.
  - done.
  - apply bind_Ok in Hr as ([s1 x1] & Hc%require_recipient_ran & Hr). by eapply ran_trans, IH.
  - apply bind_Ok in Hr as ([s1 x1] & Hc%execute_inline_ran & Hr). by eapply ran_trans, IH.
  - apply bind_Ok in Hr as ([s1 x1] & Hc%execute_context_free_inline_ran & Hr). by eapply ran_trans, IH.
  - apply bind_Ok in Hr as (n & _ & Hr). by eapply IH.
  - apply bind_Ok in Hr as ([s1 x1] & Hc & Hr). eapply ran_trans, IH, Hr.
    unfold add_ram_usage in Hc. inv_ok. simplify_eq. apply ran_quiet; try done. by apply numbered_nil.
  - apply bind_Ok in Hr as (u & Hn & Hr). eapply ran_trans, IH, Hr. apply ran_quiet; try done.
    apply set_account_numbered. apply assert_that_Ok, negb_true_iff, bool_decide_eq_false in Hn.
    apply eq_None_not_Some in Hn. unfold recv_of. by rewrite Hn.
  - apply bind_Ok in Hr as (m & Hm%get_account_Ok & Hr). eapply ran_trans, IH, Hr. apply ran_quiet; try done.
    apply set_account_numbered. unfold recv_of. by rewrite Hm.
  - apply bind_Ok in Hr as (r & Hf & Hr). eapply ran_trans, IH, Hr. apply ran_quiet; try done. by apply numbered_nil.
Qed.

(** ** One receiver *)

Lemma run_receiver_ran s x s' x' : run_receiver c find_apply_handler wasm_apply s x = Ok (s', x') → ran s x s' x'.
Proof.
  unfold run_receiver. intros Hr. apply bind_Ok in Hr as (m & _ & Hr).
  apply bind_Ok in Hr as ([s1 x1] & Hn & Hr). apply bind_Ok in Hr as (m' & _ & Hr).
  apply bind_Ok in Hr as ([s2 x2] & Hw & Hr). apply bind_Ok in Hr as (u & _ & Hr). simplify_eq.
  apply ran_trans with s (set_privileged x (is_privileged m)); [apply ran_quiet; try done; apply numbered_refl|].
  apply ran_trans with s1 x1.
  - destruct (find_apply_handler _ _ _); [|simplify_eq; apply ran_refl].
    apply bind_Ok in Hn as (u' & _ & Hn). by eapply run_ran.
  - destruct (runs_code c m' x1); [|simplify_eq; apply ran_refl].
    apply bind_Ok in Hw as (u' & _ & Hw). by eapply run_ran.
Qed.

Lemma next_auth_sequences_Ok s auths s' m :
  next_auth_sequences s auths = Ok (s', m) →
  action_traces s' = action_traces s ∧ executed s' = executed s ∧ numbered (db s) (db s') [].
Proof.
  unfold next_auth_sequences. intros Hf.
  apply (foldM_ind (λ st, action_traces st.1 = action_traces s ∧ executed st.1 = executed s ∧ numbered (db s) (db st.1) [])) in Hf;
    [done|split_and!; auto using numbered_refl|].
  intros [s1 m1] auth st' (Ht & He & Hn) _ Hs. apply bind_Ok in Hs as ([s2 n] & Ha & Hs).
  unfold next_auth_sequence in Ha. apply bind_Ok in Ha as (md & Hm%get_account_Ok & Ha). simplify_eq.
  split_and!; [done|done|]. apply (numbered_app _ (db s1) _ [] []); [done|].
  apply set_account_numbered. unfold recv_of. cbn in Hm. by rewrite Hm.
Qed.

Lemma write_receipt_Ok s x s' x' :
  write_receipt s x = Ok (s', x') →
  x' = set_ram_deltas x ∅ ∧
  ∃ t r, get_action_trace s (action_ordinal x) = Ok t ∧ executed s' = executed s ++ [r] ∧
    action_traces s' = <[Z.to_nat (action_ordinal x - 1) := finish_trace t r (ram_deltas x)]> (action_traces s) ∧
    numbered (db s) (db s') [r].
Proof.
  unfold write_receipt, next_global_sequence. cbn [mbind]. intros Hw.
  apply bind_Ok in Hw as ([s1 n] & Hn & Hw). apply bind_Ok in Hw as (first & _ & Hw).
  apply bind_Ok in Hw as ([s2 auths] & Ha & Hw). apply bind_Ok in Hw as (t & Ht & Hw). simplify_eq.
  unfold next_recv_sequence in Hn. apply bind_Ok in Hn as (m & Hm%get_account_Ok & Hn). simplify_eq.
  apply next_auth_sequences_Ok in Ha as (Hts & He & Hnum). cbn in Hts, He. split; [done|].
  exists t, (MkReceipt (receiver x) (u64 (global_action_sequence (db s) + 1)) (u64 (m_recv_sequence m + 1)) auths
               (m_code_sequence first) (m_abi_sequence first)).
  split_and!; cbn; [|by rewrite He|by rewrite Hts|].
  { unfold get_action_trace in *. by rewrite Hts in Ht. }
  eapply (numbered_app _ _ _ [_] []), Hnum. split; [repeat constructor|]. intros account.
  unfold recv_of. cbn [db set_account set_db accounts]. cbn in Hm. destruct (decide (account = receiver x)) as [->|Hne].
  - rewrite lookup_insert_eq, filter_cons_True, filter_nil by done. rewrite Hm. cbn. repeat constructor.
  - rewrite lookup_insert_ne, filter_cons_False, filter_nil by (cbn; congruence). constructor.
Qed.

(** The receipts are those of the traces *)
Definition good s : Prop := linked (action_traces s) ∧ executed s ≡ₚ omap receipt (action_traces s).

(** More receipts, numbered, and no fewer traces *)
Definition advanced s s' : Prop :=
  (length (action_traces s) ≤ length (action_traces s'))%nat ∧
  ∃ rs, executed s' = executed s ++ rs ∧ numbered (db s) (db s') rs.

Lemma advanced_refl s : advanced s s.
Proof. split; [done|]. exists []. rewrite app_nil_r. split; [done|apply numbered_refl]. Qed.

Lemma advanced_trans s s' s'' : advanced s s' → advanced s' s'' → advanced s s''.
Proof.
  intros (Hl & rs & He & Hn) (Hl' & rs' & He' & Hn'). split; [lia|]. exists (rs ++ rs').
  rewrite He', He, app_assoc. split; [done|by eapply numbered_app].
Qed.

(** What is still to run: of the accounts notified from index [i] on, and the inline actions *)
Definition to_run (i : nat) x : list Z := (drop i (notified x)).*2 ++ cfa_inline_actions x ++ inline_actions x.

(** The entries of a context refer to traces after its first one *)
Definition entries_ok (n : nat) x : Prop :=
  Forall (λ p, first_receiver_action_ordinal x ≤ p.2 ≤ Z.of_nat n) (notified x).

Lemma linked_finish l i t r d : linked l → l !! i = Some t → linked (<[i := finish_trace t r d]> l).
Proof.
  intros Hl Hi j t'. destruct (decide (j = i)) as [->|Hne].
  - rewrite list_lookup_insert_eq by (by eapply lookup_lt_Some). intros [= <-]. by apply (Hl i t).
  - rewrite list_lookup_insert_ne by done. apply Hl.
Qed.

Lemma ran_good s x s' x' :
  ran s x s' x' → context_ok (length (action_traces s)) x → good s → good s'.
Proof.
  intros (_ & He & _ & Hl & l & n & i & cfa & Ht & Hf & _) Hok [Hlinked Hp]. split; [by apply Hl|].
  rewrite He, Ht, omap_app, Hp. replace (omap receipt l) with (@nil action_receipt); [by rewrite app_nil_r|].
  clear -Hf. induction Hf as [|t l Hr Hf IH]; [done|]. cbn. by rewrite Hr.
Qed.

Lemma ran_open s x s' x' k rest :
  ran s x s' x' → (k ≤ length (notified x))%nat → open s ≡ₚ to_run k x ++ rest → open s' ≡ₚ to_run k x' ++ rest.
Proof.
  intros (_ & _ & _ & _ & l & n & i & cfa & Ht & Hf & Hn & Hi & Hc & Hp) Hk Ho.
  unfold open, to_run in *. rewrite Ht, open_from_app, (open_from_new _ l Hf), Hn, Hi, Hc.
  rewrite (Z.add_comm 1), <- Hp, Ho, (drop_app_le _ _ _ Hk), fmap_app. solve_Permutation.
Qed.

Lemma ran_entries s x s' x' :
  ran s x s' x' → context_ok (length (action_traces s)) x → entries_ok (length (action_traces s)) x →
  entries_ok (length (action_traces s')) x' ∧ (length (action_traces s) ≤ length (action_traces s'))%nat.
Proof.
  intros ((_ & Hfirst & _) & _ & _ & _ & l & n & i & cfa & Ht & _ & Hn & _ & _ & Hp) Hok Hent.
  unfold entries_ok. rewrite Hfirst, Hn, Ht, length_app. split; [|lia]. apply Forall_app. split.
  - apply (Forall_impl _ _ _ Hent). lia.
  - apply Forall_forall. intros p Hin. assert (p.2 ∈ n.*2 ++ cfa ++ i) as Hin2.
    { apply elem_of_app. left. by apply list_elem_of_fmap_2. }
    rewrite Hp in Hin2. apply elem_of_seqZ in Hin2. unfold context_ok in Hok. lia.
Qed.

(** A context in the midst of [exec]: [todo] is what is open besides the actions of other
    contexts. *)
Definition running (k : nat) (todo rest : list Z) s x : Prop :=
  entries_ok (length (action_traces s)) x ∧ good s ∧ (k ≤ length (notified x))%nat ∧
  0 < first_receiver_action_ordinal x ∧ open s ≡ₚ todo ++ to_run k x ++ rest.

Lemma write_receipt_spec s x s' x' k rest :
  write_receipt s x = Ok (s', x') → running k [action_ordinal x] rest s x →
  running k [] rest s' x' ∧ advanced s s'.
Proof.
  intros Hw (Hent & [Hlinked Hp] & Hk & Hfirst & Ho).
  apply write_receipt_Ok in Hw as (-> & t & r & Hg & He & Ht & Hn).
  apply get_action_trace_Ok in Hg as [Hb Hg].
  assert (receipt t = None) as Hr.
  { assert (action_ordinal x ∈ open s) as Hin by (rewrite Ho; set_solver).
    apply open_from_elem in Hin as (i & t' & Hi & Ht' & Hr). rewrite Hi in Hg.
    replace (Z.to_nat (1 + Z.of_nat i - 1)) with i in Hg by lia. congruence. }
  split; [|split; [by rewrite Ht, length_insert|by exists [r]]].
  unfold running, entries_ok. rewrite Ht, length_insert. split_and!; [done| |done|done|].
  - split; rewrite ?Ht, ?He; [by apply linked_finish|].
    rewrite receipts_finish by done. rewrite Hp. symmetry. apply Permutation_cons_append.
  - apply (Permutation_cons_inv (a := action_ordinal x)). rewrite <- Ho.
    unfold open. rewrite Ht, (open_from_finish 1 _ _ _ r (ram_deltas x) Hg Hr).
    by replace (1 + Z.of_nat (Z.to_nat (action_ordinal x - 1))) with (action_ordinal x) by lia.
Qed.

Lemma exec_one_spec s x s' x' k rest :
  exec_one c find_apply_handler wasm_apply s x = Ok (s', x') →
  context_ok (length (action_traces s)) x → running k [action_ordinal x] rest s x →
  running k [] rest s' x' ∧ advanced s s' ∧ same_context x x'.
Proof.
  intros He Hok (Hent & Hg & Hk & Hfirst & Ho). apply bind_Ok in He as ([s1 x1] & Hr%run_receiver_ran & Hw).
  pose proof Hr as ((Hd & Hf & Ha & Hrec) & Hex & Hnum & _ & l & n & i & cfa & Ht & _ & Hn & _).
  destruct (ran_entries _ _ _ _ Hr Hok Hent) as [Hent1 Hlen].
  assert (open s1 ≡ₚ to_run k x1 ++ action_ordinal x :: rest) as Ho1.
  { apply (ran_open _ _ _ _ _ _ Hr Hk). rewrite Ho. cbn. solve_Permutation. }
  assert (running k [action_ordinal x1] rest s1 x1) as Hrun.
  { split_and!; [done|by eapply ran_good|rewrite Hn, length_app; lia|lia|]. rewrite Ho1, Ha. cbn. solve_Permutation. }
  destruct (write_receipt_spec _ _ _ _ _ _ Hw Hrun) as [Hrun' Hadv].
  split_and!; [done| |].
  - eapply advanced_trans, Hadv. split; [done|]. exists []. by rewrite Hex, app_nil_r.
  - apply write_receipt_Ok in Hw as (-> & _). by split_and!.
Qed.

Lemma exec_notified_spec turns : ∀ i s x s' x' rest,
  exec_notified c find_apply_handler wasm_apply turns i s x = Some (Ok (s', x')) →
  running i [] rest s x →
  good s' ∧ advanced s s' ∧ open s' ≡ₚ cfa_inline_actions x' ++ inline_actions x' ++ rest ∧
  recurse_depth x' = recurse_depth x.
Proof.
  induction turns as [|turns IH]; intros i s x s' x' rest He Hrun; [done|]. cbn in He.
  destruct Hrun as (Hent & Hg & Hk & Hfirst & Ho).
  destruct (notified x !! i) as [[r o]|] eqn:Ei.
  - destruct (exec_one c find_apply_handler wasm_apply s (set_receiver x r o)) as [[s1 x1]|e] eqn:E1; [|done].
    pose proof (proj1 (Forall_lookup _ _) Hent i (r, o) Ei) as Hro. cbn in Hro.
    assert (running (S i) [o] rest s (set_receiver x r o)) as Hrun1.
    { split_and!; [done|done|by apply lookup_lt_Some in Ei|done|]. rewrite Ho. unfold to_run. cbn [notified set_receiver].
      rewrite (drop_S _ (r, o)) by done. done. }
    apply exec_one_spec with (k := S i) (rest := rest) in E1 as (Hrun' & Hadv & Hd & Hf & _);
      [|unfold context_ok; cbn; lia|done].
    destruct (IH _ _ _ _ _ _ He Hrun') as (Hg' & Hadv' & Ho' & Hd').
    split_and!; [done|by eapply advanced_trans|done|]. rewrite Hd', Hd. done.
  - simplify_eq. split_and!; [done|apply advanced_refl| |done]. rewrite Ho. unfold to_run.
    apply lookup_ge_None in Ei. rewrite drop_ge by done. cbn. by rewrite app_assoc.
Qed.

(** Actions that each run to the end *)
Lemma exec_each_spec (f : trx_state R → Z → option (result exn (trx_state R))) os :
  (∀ s o s' rest, f s o = Some (Ok s') → good s → open s ≡ₚ o :: rest →
     good s' ∧ advanced s s' ∧ open s' ≡ₚ rest) →
  ∀ s s' rest, exec_each f s os = Some (Ok s') → good s → open s ≡ₚ os ++ rest →
    good s' ∧ advanced s s' ∧ open s' ≡ₚ rest.
Proof.
  intros Hf. induction os as [|o os IH]; intros s s' rest He Hg Ho; cbn in He.
  - simplify_eq. split_and!; [done|apply advanced_refl|done].
  - destruct (f s o) as [[s1|e]|] eqn:E1; try done.
    destruct (Hf _ _ _ (os ++ rest) E1 Hg Ho) as (Hg1 & Ha1 & Ho1).
    destruct (IH _ _ _ He Hg1 Ho1) as (Hg2 & Ha2 & Ho2). split_and!; [done|by eapply advanced_trans|done].
Qed.

Lemma execute_action_spec turns depth : ∀ recurse s o s' rest,
  execute_action c find_apply_handler wasm_apply turns depth recurse s o = Some (Ok s') →
  good s → open s ≡ₚ o :: rest → good s' ∧ advanced s s' ∧ open s' ≡ₚ rest.
Proof.
  induction depth as [|depth IH]; intros recurse s o s' rest He Hg Ho; [done|]. cbn in He.
  destruct (new_context s o recurse) as [x|] eqn:Ex; [|done]. unfold new_context in Ex.
  apply bind_Ok in Ex as (t & Hb%get_action_trace_Ok & Ex). simplify_eq.
  destruct (exec_one _ _ _ _ _) as [[s1 x1]|] eqn:E1; [|done].
  apply exec_one_spec with (k := 1%nat) (rest := rest) in E1 as (Hrun & Hadv1 & _);
    [|split; cbn; lia|].
  2: { split_and!; [|done|cbn; lia|cbn; lia|by rewrite Ho]. unfold entries_ok. cbn. repeat constructor; cbn; lia. }
  destruct (exec_notified _ _ _ _ _ _ _) as [[[s2 x2]|]|] eqn:E2; try done.
  apply exec_notified_spec with (rest := rest) in E2 as (Hg2 & Hadv2 & Ho2 & _); [|done].
  destruct (check_depth s2 x2) as [|]; [|done]. rewrite app_assoc in Ho2.
  destruct (exec_each_spec _ _ (λ s o s' rest, IH (recurse + 1) s o s' rest) _ _ _ He Hg2 Ho2) as (Hg3 & Hadv3 & Ho3).
  split_and!; [done| |done]. by eapply advanced_trans, advanced_trans.
Qed.

(** ** The original actions *)

Lemma schedule_original_spec b s a s' :
  schedule_original c b s a = Ok s' → good s →
  good s' ∧ executed s' = executed s ∧ db s' = db s ∧
  ∃ l, action_traces s' = action_traces s ++ l ∧ Forall (λ t, receipt t = None) l.
Proof.
  unfold schedule_original. intros Hs [Hl Hp]. apply bind_Ok in Hs as ([s1 o] & Hf & Hs). simplify_eq.
  apply schedule_fee_action_traces in Hf as (He & Hd & Hf). unfold good. cbn. rewrite He.
  destruct (TxFee.is_need_fee_action (fees s)).
  - destruct Hf as (-> & f & ->). split_and!; [| |done|done|].
    + by apply linked_original, linked_original.
    + by rewrite !omap_app, !app_nil_r.
    + eexists [_; _]. by rewrite <- app_assoc; split; [|repeat constructor].
  - destruct Hf as [-> ->]. split_and!; [by apply linked_original|by rewrite omap_app, app_nil_r|done|done|].
    eexists [_]. by split; [|repeat constructor].
Qed.

Lemma schedule_original_list b l : ∀ s s',
  foldM (schedule_original c b) s l = Ok s' → good s →
  good s' ∧ executed s' = executed s ∧ db s' = db s ∧
  ∃ l', action_traces s' = action_traces s ++ l' ∧ Forall (λ t, receipt t = None) l'.
Proof.
  induction l as [|a l IH]; intros s s' Hf Hg; cbn in Hf.
  - simplify_eq. split_and!; try done. exists []. by rewrite app_nil_r.
  - apply bind_Ok in Hf as (s1 & Hs & Hf). apply schedule_original_spec in Hs as (Hg1 & He & Hd & l1 & Ht & Hn); [|done].
    destruct (IH _ _ Hf Hg1) as (Hg2 & He2 & Hd2 & l2 & Ht2 & Hn2). split_and!; [done|congruence|congruence|].
    exists (l1 ++ l2). rewrite Ht2, Ht, app_assoc. split; [done|by apply Forall_app].
Qed.

Lemma schedule_originals_spec s is_init apply_cfa delay cfas acts s' :
  schedule_originals c s is_init apply_cfa delay cfas acts = Ok s' → action_traces s = [] → executed s = [] →
  good s' ∧ executed s' = [] ∧ db s' = db s ∧ open s' = seqZ 1 (Z.of_nat (length (action_traces s'))).
Proof.
  unfold schedule_originals. intros Hs Ht He. apply bind_Ok in Hs as (u & _ & Hs).
  apply bind_Ok in Hs as (s1 & H1 & Hs).
  assert (good s) as Hg by (split; [intros i t; by rewrite Ht|by rewrite He, Ht]).
  assert (good s1 ∧ executed s1 = [] ∧ db s1 = db s ∧ Forall (λ t, receipt t = None) (action_traces s1)) as (Hg1 & He1 & Hd1 & Hn1).
  { destruct apply_cfa; [|simplify_eq; rewrite Ht; split_and!; [done|done|done|constructor]].
    apply schedule_original_list in H1 as (? & ? & ? & l & -> & ?); [|done]. rewrite Ht. split_and!; [done|congruence|done|done]. }
  assert (good s' ∧ executed s' = [] ∧ db s' = db s ∧ Forall (λ t, receipt t = None) (action_traces s')) as (? & ? & ? & ?).
  { destruct (delay =? 0); [|by simplify_eq].
    apply schedule_original_list in Hs as (? & ? & ? & l & -> & ?); [|done]. split_and!; [done|congruence|congruence|].
    by apply Forall_app. }
  split_and!; try done. by apply open_from_new.
Qed.

(** A transaction that has executed *)
Lemma exec_spec turns depth s is_init apply_cfa delay cfas acts s' :
  exec c find_apply_handler wasm_apply turns depth s is_init apply_cfa delay cfas acts = Some (Ok s') →
  action_traces s = [] → executed s = [] →
  good s' ∧ open s' = [] ∧ numbered (db s) (db s') (executed s').
Proof.
  intros Hx Ht He. unfold exec in Hx.
  destruct (schedule_originals _ _ _ _ _ _ _) as [s1|] eqn:E1; [|done].
  apply schedule_originals_spec in E1 as (Hg1 & He1 & Hd1 & Ho1); [|done|done].
  destruct (exec_each _ _ _) as [[s2|]|] eqn:E2; try done.
  assert (open s1 ≡ₚ seqZ 1 (Z.of_nat (length (action_traces s1))) ++ []) as Ho1' by (by rewrite Ho1, app_nil_r).
  destruct (exec_each_spec _ _ (execute_action_spec turns depth 0) _ _ [] E2 Hg1 Ho1') as (Hg2 & (_ & rs & He2 & Hn2) & Ho2).
  apply Permutation_nil_r in Ho2. rewrite He1 in He2. cbn in He2. rewrite Hd1 in Hn2.
  injection Hx as Hx. destruct (negb (delay =? 0)); [|by simplify_eq].
  apply bind_Ok in Hx as (r & _ & Hx). injection Hx as <-. split_and!; [done|done|].
  cbn [executed db set_db]. rewrite He2, <- (app_nil_r rs). eapply numbered_app; [done|]. by apply numbered_nil.
Qed.

(** ** Termination *)

(** The accounts a program may notify are in [U] *)
Fixpoint notifies_within (U : gset Z) (p : program R) : Prop :=
  match p with
  | Return | Fail _ => True
  | Require_recipient r k => r ∈ U ∧ notifies_within U k
  | Execute_inline _ k | Execute_context_free_inline _ k | Add_ram_usage _ _ k | New_account _ k
  | Set_account _ _ _ _ _ k => notifies_within U k
  | Get_sender k => ∀ n, notifies_within U (k n)
  | Access _ k => ∀ w, notifies_within U (k w)
  end.

(** Accounts are notified once each *)
Definition distinct (U : gset Z) x : Prop := NoDup (notified x).*1 ∧ ∀ r, r ∈ (notified x).*1 → r ∈ U.

Lemma distinct_length U x : distinct U x → (length (notified x) ≤ size U)%nat.
Proof.
  intros [Hn Hu]. rewrite <- (length_fmap fst), <- (size_list_to_set (C := gset Z)) by done.
  apply subseteq_size. intros r Hr. apply Hu. by apply elem_of_list_to_set in Hr.
Qed.

Lemma require_recipient_distinct U s x r s' x' :
  require_recipient s x r = Ok (s', x') → r ∈ U → distinct U x → distinct U x'.
Proof.
  unfold require_recipient. destruct (has_recipient x r) eqn:Eh; cbn [negb]; [by intros [= <- <-]|].
  intros Hr Hu [Hn Hd]. apply bind_Ok in Hr as ([s1 o] & _ & Hr). apply bind_Ok in Hr as (x1 & [a ->]%reread_act_Ok & Hr).
  simplify_eq. unfold distinct. cbn [notified push set_act]. rewrite fmap_app. cbn. split.
  - apply NoDup_app. split_and!; [done| |apply NoDup_singleton].
    intros y Hy ->%list_elem_of_singleton. apply list_elem_of_fmap in Hy as ([r' o'] & Hr' & Hin). cbn in Hr'. subst r'.
    unfold has_recipient in Eh. apply not_true_iff_false in Eh. apply Eh, existsb_exists. exists (r, o').
    split; [by apply list_elem_of_In|cbn; lia].
  - intros y. rewrite elem_of_app, list_elem_of_singleton. naive_solver.
Qed.

Lemma execute_inline_notified s x a s' x' : execute_inline c s x a = Ok (s', x') → notified x' = notified x.
Proof.
  unfold execute_inline. intros Hr. do 2 (apply bind_Ok in Hr as (? & _ & Hr)).
  apply bind_Ok in Hr as ([? ?] & _ & Hr). do 2 (apply bind_Ok in Hr as (? & _ & Hr)).
  apply bind_Ok in Hr as ([[s1 y] os] & Hs & Hr). simplify_eq.
  apply schedule_inline_Ok in Hs as ((a' & ->) & _). cbn. by rewrite app_nil_r.
Qed.

Lemma execute_context_free_inline_notified s x a s' x' :
  execute_context_free_inline c s x a = Ok (s', x') → notified x' = notified x.
Proof.
  unfold execute_context_free_inline. intros Hr. do 2 (apply bind_Ok in Hr as (? & _ & Hr)).
  apply bind_Ok in Hr as ([[s1 y] os] & Hs & Hr). simplify_eq.
  apply schedule_inline_Ok in Hs as ((a' & ->) & _). cbn. by rewrite app_nil_r.
Qed.

Lemma run_distinct U p : ∀ s x s' x',
  run c p s x = Ok (s', x') → notifies_within U p → distinct U x → distinct U x'.
Proof.
  induction p as [|e|r k IH|a k IH|a k IH|k IH|account d k IH|account k IH|account cs abs code priv k IH|f k IH];
    intros s x s' x' Hr Hw Hd; cbn in Hr, Hw.
  - by simplify_eq.
  - done.
  - apply bind_Ok in Hr as ([s1 x1] & Hc & Hr). destruct Hw as [Hu Hw].
    by eapply IH, require_recipient_distinct.
  - apply bind_Ok in Hr as ([s1 x1] & Hc%execute_inline_notified & Hr). eapply IH; [done..|]. unfold distinct. by rewrite Hc.
  - apply bind_Ok in Hr as ([s1 x1] & Hc%execute_context_free_inline_notified & Hr).
    eapply IH; [done..|]. unfold distinct. by rewrite Hc.
  - apply bind_Ok in Hr as (n & _ & Hr). by eapply IH.
  - apply bind_Ok in Hr as ([s1 x1] & Hc & Hr). eapply IH; [done..|]. unfold add_ram_usage in Hc. inv_ok. by simplify_eq.
  - apply bind_Ok in Hr as (u & Hn & Hr). by eapply IH.
  - apply bind_Ok in Hr as (m & Hm & Hr). by eapply IH.
  - apply bind_Ok in Hr as (r & Hf & Hr). by eapply IH.
Qed.

(** All programs notify accounts of [U] *)
Definition all_notify_within (U : gset Z) : Prop :=
  (∀ r code name native w a, find_apply_handler r code name = Some native → notifies_within U (native w a)) ∧
  (∀ w r a, notifies_within U (wasm_apply w r a)).

Lemma notifies_within_mono U U' p : U ⊆ U' → notifies_within U p → notifies_within U' p.
Proof. intros HU. induction p; cbn; set_solver. Qed.

Lemma exec_one_distinct U U' s x s' x' :
  all_notify_within U → U ⊆ U' → exec_one c find_apply_handler wasm_apply s x = Ok (s', x') →
  distinct U' x → distinct U' x'.
Proof.
  intros [Hnat Hwasm] HU He Hd. apply bind_Ok in He as ([s1 x1] & Hr & [-> _]%write_receipt_Ok).
  unfold run_receiver in Hr. apply bind_Ok in Hr as (m & _ & Hr).
  apply bind_Ok in Hr as ([s2 x2] & Hn & Hr). apply bind_Ok in Hr as (m' & _ & Hr).
  apply bind_Ok in Hr as ([s3 x3] & Hw & Hr). apply bind_Ok in Hr as (u & _ & Hr). simplify_eq.
  assert (distinct U' x2) as Hd2.
  { destruct (find_apply_handler _ _ _) as [native|] eqn:Ef; [|by simplify_eq].
    apply bind_Ok in Hn as (u' & _ & Hn). eapply run_distinct; [done| |done]. by eapply notifies_within_mono, Hnat. }
  change (distinct U' x1). destruct (runs_code c m' x2); [|by simplify_eq].
  apply bind_Ok in Hw as (u' & _ & Hw). eapply run_distinct; [done| |done]. by eapply notifies_within_mono, Hwasm.
Qed.

Lemma exec_notified_terminates U U' turns : all_notify_within U → U ⊆ U' → ∀ i s x,
  (size U' < turns + i)%nat → (i ≤ length (notified x))%nat → distinct U' x →
  is_Some (exec_notified c find_apply_handler wasm_apply turns i s x).
Proof.
  intros Hall HU. induction turns as [|turns IH]; intros i s x Ht Hi Hd.
  { pose proof (distinct_length _ _ Hd). lia. }
  cbn. destruct (notified x !! i) as [[r o]|] eqn:Ei; [|by eexists].
  destruct (exec_one _ _ _ _ _) as [[s1 x1]|] eqn:E1; [|by eexists].
  apply IH; [lia| |by eapply exec_one_distinct].
  apply bind_Ok in E1 as ([s2 x2] & Hr%run_receiver_ran & [-> _]%write_receipt_Ok).
  destruct Hr as (_ & _ & _ & _ & l & n & j & cfa & _ & _ & Hn & _). cbn. rewrite Hn, length_app. cbn.
  apply lookup_lt_Some in Ei. lia.
Qed.

Lemma exec_each_terminates (f : trx_state R → Z → option (result exn (trx_state R))) os :
  (∀ s o, is_Some (f s o)) → ∀ s, is_Some (exec_each f s os).
Proof.
  intros Hf. induction os as [|o os IH]; intros s; cbn; [by eexists|].
  destruct (Hf s o) as [[s1|] ->]; [apply IH|by eexists].
Qed.

Lemma exec_one_depth s x s' x' :
  exec_one c find_apply_handler wasm_apply s x = Ok (s', x') → recurse_depth x' = recurse_depth x.
Proof. intros He. apply bind_Ok in He as ([s1 x1] & [[Hd _] _]%run_receiver_ran & [-> _]%write_receipt_Ok). done. Qed.

Lemma exec_notified_depth turns : ∀ i s x s' x',
  exec_notified c find_apply_handler wasm_apply turns i s x = Some (Ok (s', x')) → recurse_depth x' = recurse_depth x.
Proof.
  induction turns as [|turns IH]; intros i s x s' x' He; [done|]. cbn in He.
  destruct (notified x !! i) as [[r o]|]; [|by simplify_eq].
  destruct (exec_one _ _ _ _ _) as [[s1 x1]|] eqn:E1; [|done]. by rewrite (IH _ _ _ _ _ He), (exec_one_depth _ _ _ _ E1).
Qed.

(** Inline actions run below the limit only *)
Lemma check_depth_Ok s x : check_depth s x = Ok tt → cfa_inline_actions x ++ inline_actions x = [] ∨ recurse_depth x + 1 < 2 ^ 16.
Proof.
  unfold check_depth. destruct (cfa_inline_actions x), (inline_actions x); cbn -[Z.pow]; [by left|..];
    intros Hc%assert_that_Ok; right; pose proof (max_inline_action_depth_u16 (tables (db s))); lia.
Qed.

Lemma execute_action_terminates U turns depth : all_notify_within U → (size U < turns)%nat →
  ∀ recurse s o, 2 ^ 16 ≤ recurse + Z.of_nat depth → recurse < 2 ^ 16 →
  is_Some (execute_action c find_apply_handler wasm_apply turns depth recurse s o).
Proof.
  intros Hall Ht. induction depth as [|depth IH]; intros recurse s o Hd Hr; [lia|]. cbn [execute_action].
  destruct (new_context s o recurse) as [x|] eqn:Ex; [|by eexists]. unfold new_context in Ex.
  apply bind_Ok in Ex as (t & _ & Ex). simplify_eq.
  destruct (exec_one _ _ _ _ _) as [[s1 x1]|] eqn:E1; [|by eexists].
  set (U' := {[t_receiver t]} ∪ U).
  assert (distinct U' x1) as Hd1.
  { apply (exec_one_distinct U U') in E1; [done|done|set_solver|]. unfold distinct. cbn. split; [apply NoDup_singleton|set_solver]. }
  pose proof E1 as E1'. apply bind_Ok in E1' as ([s0 x0] & Hrun%run_receiver_ran & [-> _]%write_receipt_Ok).
  destruct Hrun as ((Hrec & _) & _ & _ & _ & l & n & j & cfa & _ & _ & Hn & _). cbn in Hn.
  destruct (exec_notified_terminates U U' turns Hall) with (i := 1%nat) (s := s1) (x := set_ram_deltas x0 ∅) as [res Hres];
    [set_solver|unfold U'; rewrite (size_union_alt {[t_receiver t]} U), size_singleton;
       pose proof (subseteq_size (U ∖ {[t_receiver t]}) U ltac:(set_solver)); lia|cbn; rewrite Hn; cbn; lia|done|].
  rewrite Hres. destruct res as [[s2 x2]|]; [|by eexists]. destruct (check_depth s2 x2) as [[]|] eqn:Ec; [|by eexists].
  apply exec_notified_depth in Hres. cbn in Hres, Hrec.
  apply check_depth_Ok in Ec as [->|Hlt]; [by eexists|].
  apply exec_each_terminates. intros s3 o3. apply IH; lia.
Qed.

(** ** Fees *)

(** The fee action [f] has [payer] pay the fee that some state of the tables requires of [a] *)
Definition pays (payer : Z) (a f : Action.action) : Prop :=
  ∃ r fee producer,
    TxFee.get_required_fee_action (action_fees r) a = Ok fee ∧ is_fee_action f = true ∧
    Action.authorization f = [Action.MkLevel payer Config.active_name] ∧
    Action.data f = pack_fee_paramter
      {| TxFee.fp_name := payer; TxFee.fp_fee := fee; TxFee.fp_producer := producer |}.

(** The receivers and actions of the traces *)
Definition keys s : list (Z * Action.action) := (λ t, (t_receiver t, t_act t)) <$> action_traces s.

(** Each action on its own account, other than a fee action, comes right after its fee *)
Definition paid (payer : Z) (l : list (Z * Action.action)) : Prop :=
  ∀ i a, l !! i = Some (Action.account a, a) → is_fee_action a = false →
    ∃ j f, i = S j ∧ l !! j = Some (Config.system_account_name, f) ∧ pays payer a f.

Lemma paid_snoc payer l r a :
  paid payer l →
  (r = Action.account a → is_fee_action a = false →
     ∃ f, last l = Some (Config.system_account_name, f) ∧ pays payer a f) →
  paid payer (l ++ [(r, a)]).
Proof.
  intros Hl Ha i a' Hi Hf. apply lookup_app_Some in Hi as [Hi|[Hge Hi]].
  - destruct (Hl i a' Hi Hf) as (j & f & -> & Hj & Hp). exists j, f. split_and!; [done|by apply lookup_app_l_Some|done].
  - apply list_lookup_singleton_Some in Hi as [Hi Heq]. simplify_eq.
    destruct (Ha eq_refl Hf) as (f & Hlast & Hp). rewrite last_lookup in Hlast.
    pose proof (lookup_lt_Some _ _ _ Hlast). exists (pred (length l)), f.
    split_and!; [lia|by apply lookup_app_l_Some|done].
Qed.

(** A fee is to be paid by [payer] *)
Definition paying (payer : Z) s : Prop :=
  TxFee.fee_payer (fees s) = payer ∧ payer ≠ 0 ∧ paid payer (keys s).

Lemma schedule_fee_action_pays payer s a s' o :
  schedule_fee_action c s a Config.system_account_name = Ok (s', o) → paying payer s →
  paying payer s' ∧ o = Z.of_nat (length (action_traces s)) + 1 ∧
  ∃ f, keys s' = keys s ++ [(Config.system_account_name, f)] ∧ pays payer a f ∧ Action.account f = Config.system_account_name.
Proof.
  intros Hs (Hp & Hne & Hpaid). unfold schedule_fee_action in Hs.
  assert (TxFee.is_need_fee_action (fees s) = true) as Hneed by (unfold TxFee.is_need_fee_action; lia).
  rewrite Hneed in Hs. apply bind_Ok in Hs as (t & Ht & Hs). unfold TxFee.schedule_fee_action in Ht. rewrite Hneed in Ht.
  apply bind_Ok in Ht as (fee & Hfee & Ht). apply bind_Ok in Ht as (f0 & _ & Ht). apply bind_Ok in Ht as (u & _ & Ht).
  apply bind_Ok in Ht as (costed & _ & Ht). apply bind_Ok in Ht as (u' & _ & Ht).
  apply bind_Ok in Ht as (f & Hf & Ht). injection Ht as <-. cbn [TxFee.fee_actions] in Hs. rewrite last_snoc in Hs.
  unfold TxFee.mk_fee_action in Hf. apply bind_Ok in Hf as (bp & _ & Hf). injection Hf as <-. cbn in Hs.
  injection Hs as <- <-.
  match goal with |- context [TxFee.add_limit_by_fee ?F ?C ?T a] =>
    assert (TxFee.fee_payer (TxFee.add_limit_by_fee F C T a) = payer) as Hpay
      by (unfold TxFee.add_limit_by_fee; destruct (F !! _); [repeat case_match|]; cbn; done) end.
  rewrite Hpay.
  match goal with |- context [Action.MkAction ?A ?N ?L ?D] => set (fa := Action.MkAction A N L D) end.
  assert (pays payer a fa) as Hpays.
  { exists (tables (db s)), fee, (default 0 bp). split_and!; [done| |done|done]. unfold is_fee_action, fa. cbn.
    destruct bp; by vm_compute. }
  assert (is_fee_action fa = true) as Hisfee by (by destruct Hpays as (?&?&?&?&?&_)).
  split_and!; [split_and!; [done|done|]|done|].
  - unfold keys. cbn. rewrite fmap_app. apply paid_snoc; [done|]. cbn. intros _. by rewrite Hisfee.
  - exists fa. unfold keys. cbn. by rewrite fmap_app.
Qed.

(** The action of an ordinal is [a] *)
Definition action_at s (o : Z) (a : Action.action) : Prop :=
  0 < o ∧ ∃ r, keys s !! Z.to_nat (o - 1) = Some (r, a).
(** An ordinal of an action on its own account *)
Definition own s (o : Z) : Prop := 0 < o ∧ ∃ a, keys s !! Z.to_nat (o - 1) = Some (Action.account a, a).

Lemma action_at_mono s s' o a : keys s `prefix_of` keys s' → action_at s o a → action_at s' o a.
Proof. intros Hp (Ho & r & Hr). split; [done|]. exists r. by eapply prefix_lookup_Some. Qed.
Lemma own_mono s s' o : keys s `prefix_of` keys s' → own s o → own s' o.
Proof. intros Hp (Ho & a & Hr). split; [done|]. exists a. by eapply prefix_lookup_Some. Qed.

Lemma get_action_trace_at s o t a : get_action_trace s o = Ok t → action_at s o a → t_act t = a.
Proof.
  intros [_ Ht]%get_action_trace_Ok (_ & r & Hr). unfold keys in Hr. rewrite list_lookup_fmap, Ht in Hr. cbn in Hr. congruence.
Qed.

(** The context of an action, with respect to the actions of the traces *)
Definition acts_ok s x : Prop :=
  action_at s (action_ordinal x) (act x) ∧ Action.account (act x) ∈ (notified x).*1 ∧
  Forall (λ p, action_at s p.2 (act x)) (notified x) ∧ Forall (own s) (cfa_inline_actions x ++ inline_actions x).

Lemma acts_ok_mono s s' x : keys s `prefix_of` keys s' → acts_ok s x → acts_ok s' x.
Proof.
  intros Hp (Ha & Hin & Hn & Ho). split_and!; [by eapply action_at_mono|done|..].
  - eapply Forall_impl; [exact Hn|]. intros p. by apply action_at_mono.
  - eapply Forall_impl; [exact Ho|]. intros o. by apply own_mono.
Qed.

(** What a step of a program keeps *)
Definition kept (payer : Z) s x s' x' : Prop :=
  paying payer s' ∧ acts_ok s' x' ∧ keys s `prefix_of` keys s'.

Lemma reread_act_at s x x' : reread_act s x = Ok x' → action_at s (action_ordinal x) (act x) → x' = x.
Proof.
  unfold reread_act. intros Hr Ha. apply bind_Ok in Hr as (t & Ht & Hr). injection Hr as <-.
  rewrite (get_action_trace_at _ _ _ _ Ht Ha). by destruct x.
Qed.

Lemma action_at_snoc s l r a :
  keys s = l ++ [(r, a)] → action_at s (Z.of_nat (length l) + 1) a.
Proof.
  intros Hk. split; [lia|]. exists r. rewrite Hk. replace (Z.to_nat _) with (length l) by lia. by apply list_lookup_middle.
Qed.

Lemma own_snoc s l a : keys s = l ++ [(Action.account a, a)] → own s (Z.of_nat (length l) + 1).
Proof.
  intros Hk. split; [lia|]. exists a. rewrite Hk. replace (Z.to_nat _) with (length l) by lia. by apply list_lookup_middle.
Qed.

Lemma keys_schedule s a r b cr cl : keys (schedule_action s a r b cr cl).1 = keys s ++ [(r, a)].
Proof. unfold keys. cbn. by rewrite fmap_app. Qed.

Lemma length_keys s : length (keys s) = length (action_traces s).
Proof. apply length_fmap. Qed.

Lemma require_recipient_kept payer s x r s' x' :
  require_recipient s x r = Ok (s', x') → paying payer s → acts_ok s x → kept payer s x s' x'.
Proof.
  unfold require_recipient, schedule_action_of. intros Hr Hpay Hacts.
  destruct (has_recipient x r) eqn:Eh; cbn [negb] in Hr; [by simplify_eq|].
  apply bind_Ok in Hr as ([s1 o] & Hs & Hr). apply bind_Ok in Hs as (t & Ht & Hs).
  apply bind_Ok in Hr as (x1 & Hx & Hr). pose proof Hacts as ((Ha & Ha') & Hin & Hn & Ho).
  rewrite (get_action_trace_at _ _ _ _ Ht (conj Ha Ha')) in Hs. injection Hs as <- <-. injection Hr as <- <-.
  set (s1 := (schedule_action s (act x) r false (action_ordinal x) (first_receiver_action_ordinal x)).1) in *.
  change (MkState _ _ _ _) with s1 in Hx |- *.
  assert (keys s1 = keys s ++ [(r, act x)]) as Hk by apply keys_schedule.
  assert (keys s `prefix_of` keys s1) as Hpre by (rewrite Hk; by apply prefix_app_r).
  assert (acts_ok s1 x) as (Ha1 & Hin1 & Hn1 & Ho1) by by eapply acts_ok_mono.
  apply reread_act_at in Hx; [subst x1|done].
  split_and!; [|split_and!; cbn [notified push act action_ordinal cfa_inline_actions inline_actions]|done].
  - destruct Hpay as (Hp & Hne & Hpaid). split_and!; [done|done|]. rewrite Hk. apply paid_snoc; [done|].
    intros -> _. apply not_true_iff_false in Eh. destruct Eh. apply existsb_exists.
    apply list_elem_of_fmap in Hin as ([r' o'] & Heq & Hin). exists (r', o'). cbn in Heq |- *.
    split; [by apply list_elem_of_In|lia].
  - done.
  - rewrite fmap_app. set_solver.
  - apply Forall_app. split; [done|]. constructor; [|constructor].
    pose proof (action_at_snoc _ _ _ _ Hk) as Hnew. rewrite length_keys in Hnew. exact Hnew.
  - by rewrite !app_nil_r.
Qed.

Lemma schedule_inline_kept payer s x a b s' x' os :
  schedule_inline c s x a b = Ok (s', x', os) → paying payer s → acts_ok s x →
  x' = x ∧ paying payer s' ∧ acts_ok s' x ∧ keys s `prefix_of` keys s' ∧ Forall (own s') os.
Proof.
  unfold schedule_inline. intros Hs Hpay Hacts.
  assert (TxFee.is_need_fee_action (fees s) = true) as Hneed by (destruct Hpay; unfold TxFee.is_need_fee_action; lia).
  rewrite Hneed in Hs.
  apply bind_Ok in Hs as ([s1 os1] & Hf & Hs). apply bind_Ok in Hf as ([s2 o] & Hf & Heq). injection Heq as -> <-.
  apply schedule_fee_action_pays with (payer := payer) in Hf as ((Hp1 & Hne1 & Hpaid1) & -> & f & Hk1 & Hpays & Hacc); [|done].
  destruct (schedule_action s1 a _ _ _ _) as [s2 o2] eqn:E2.
  assert (s2 = (schedule_action s1 a (Action.account a) b (action_ordinal x) (first_receiver_action_ordinal x)).1) as Hs2 by by rewrite E2.
  assert (o2 = Z.of_nat (length (action_traces s1)) + 1) as -> by (unfold schedule_action in E2; by simplify_eq).
  assert (fees s2 = fees s1) as Hfees by (unfold schedule_action in E2; by simplify_eq).
  assert (keys s2 = keys s1 ++ [(Action.account a, a)]) as Hk2 by (rewrite Hs2; apply keys_schedule).
  assert (keys s1 `prefix_of` keys s2) as Hpre2 by (rewrite Hk2; by apply prefix_app_r).
  assert (keys s `prefix_of` keys s2) as Hpre by (etrans; [|exact Hpre2]; rewrite Hk1; by apply prefix_app_r).
  assert (acts_ok s2 x) as Hacts2 by by eapply acts_ok_mono.
  apply bind_Ok in Hs as (x1 & Hx & Hs). injection Hs as <- <- <-.
  apply reread_act_at in Hx; [|by destruct Hacts2]. split_and!; try done.
  - split_and!; [by rewrite Hfees|done|]. rewrite Hk2. apply paid_snoc; [done|].
    intros _ _. exists f. by rewrite Hk1, last_snoc.
  - rewrite <- !length_keys. apply Forall_cons. split; [|apply Forall_singleton].
    + apply (own_mono s1); [done|]. eapply own_snoc. by rewrite Hk1, Hacc.
    + apply (own_snoc _ _ _ Hk2).
Qed.

Lemma kept_trans payer s x s' x' s'' x'' : kept payer s x s' x' → kept payer s' x' s'' x'' → kept payer s x s'' x''.
Proof. intros (_ & _ & H1) (? & ? & ?). split_and!; [done|done|by etrans]. Qed.

Lemma execute_inline_kept payer s x a s' x' :
  execute_inline c s x a = Ok (s', x') → paying payer s → acts_ok s x → kept payer s x s' x'.
Proof.
  unfold execute_inline. intros Hr Hp Ha. do 2 (apply bind_Ok in Hr as (? & _ & Hr)).
  apply bind_Ok in Hr as ([? ?] & _ & Hr). do 2 (apply bind_Ok in Hr as (? & _ & Hr)).
  apply bind_Ok in Hr as ([[s1 y] os] & Hs & Hr). injection Hr as <- <-.
  destruct (schedule_inline_kept payer _ _ _ _ _ _ _ Hs Hp Ha) as (-> & Hp1 & (H1 & H2 & H3 & H4) & Hpre & Hos).
  split_and!; [done| |done]. unfold acts_ok. cbn. rewrite !app_nil_r, app_assoc. split_and!; [done|done|done|].
  by apply Forall_app.
Qed.

Lemma execute_context_free_inline_kept payer s x a s' x' :
  execute_context_free_inline c s x a = Ok (s', x') → paying payer s → acts_ok s x → kept payer s x s' x'.
Proof.
  unfold execute_context_free_inline. intros Hr Hp Ha. do 2 (apply bind_Ok in Hr as (? & _ & Hr)).
  apply bind_Ok in Hr as ([[s1 y] os] & Hs & Hr). injection Hr as <- <-.
  destruct (schedule_inline_kept payer _ _ _ _ _ _ _ Hs Hp Ha) as (-> & Hp1 & (H1 & H2 & H3 & H4) & Hpre & Hos).
  split_and!; [done| |done]. unfold acts_ok. cbn. rewrite !app_nil_r. split_and!; [done|done|done|].
  apply Forall_app in H4 as [H4 H5]. rewrite !Forall_app. done.
Qed.

Lemma run_kept payer p : ∀ s x s' x',
  run c p s x = Ok (s', x') → paying payer s → acts_ok s x → kept payer s x s' x'.
Proof.
  assert (∀ s x s1 x1 s' x', kept payer s x s1 x1 → (paying payer s1 → acts_ok s1 x1 → kept payer s1 x1 s' x') →
    kept payer s x s' x') as Hthen.
  { intros s x s1 x1 s' x' Hk Hn. eapply kept_trans; [exact Hk|]. destruct Hk as (? & ? & ?). by apply Hn. }
  induction p as [|e|r k IH|a k IH|a k IH|k IH|account d k IH|account k IH|account cs abs code priv k IH|f k IH];
    intros s x s' x' Hr Hp Ha; cbn in Hr.
  - by simplify_eq.
  - done.
  - apply bind_Ok in Hr as ([s1 x1] & Hc & Hr). eapply Hthen; [by eapply require_recipient_kept|by apply IH].
  - apply bind_Ok in Hr as ([s1 x1] & Hc & Hr). eapply Hthen; [by eapply execute_inline_kept|by apply IH].
  - apply bind_Ok in Hr as ([s1 x1] & Hc & Hr). eapply Hthen; [by eapply execute_context_free_inline_kept|by apply IH].
  - apply bind_Ok in Hr as (n & _ & Hr). by eapply IH.
  - apply bind_Ok in Hr as ([s1 x1] & Hc & Hr). unfold add_ram_usage in Hc. apply bind_Ok in Hc as (r & _ & Hc).
    simplify_eq. exact (IH _ _ _ _ Hr Hp Ha).
  - apply bind_Ok in Hr as (u & Hn & Hr). exact (IH _ _ _ _ Hr Hp Ha).
  - apply bind_Ok in Hr as (m & Hm & Hr). exact (IH _ _ _ _ Hr Hp Ha).
  - apply bind_Ok in Hr as (r & Hf & Hr). exact (IH _ _ _ _ _ Hr Hp Ha).
Qed.

Lemma next_auth_sequences_fees s auths s' m : next_auth_sequences s auths = Ok (s', m) → fees s' = fees s.
Proof.
  unfold next_auth_sequences. intros Hf. apply (foldM_ind (λ st, fees st.1 = fees s)) in Hf; [done|done|].
  intros [s1 m1] auth st' Hs1 _ Hs. apply bind_Ok in Hs as ([s2 n] & Ha & Hs).
  unfold next_auth_sequence in Ha. apply bind_Ok in Ha as (md & _ & Ha). by simplify_eq.
Qed.

Lemma write_receipt_kept payer s x s' x' :
  write_receipt s x = Ok (s', x') → paying payer s → acts_ok s x → kept payer s x s' x'.
Proof.
  intros Hw Hp Ha. assert (fees s' = fees s) as Hfees.
  { unfold write_receipt in Hw. cbn in Hw. apply bind_Ok in Hw as ([s1 n] & Hn & Hw). apply bind_Ok in Hw as (first & _ & Hw).
    apply bind_Ok in Hw as ([s2 auths] & Ha2%next_auth_sequences_fees & Hw). apply bind_Ok in Hw as (t & Ht & Hw).
    unfold next_recv_sequence in Hn. apply bind_Ok in Hn as (m & _ & Hn). by simplify_eq. }
  apply write_receipt_Ok in Hw as (-> & t & r & Hg & _ & Ht & _). apply get_action_trace_Ok in Hg as [_ Hg].
  assert (keys s' = keys s) as Hk.
  { unfold keys. rewrite Ht, list_fmap_insert. apply list_insert_id. by rewrite list_lookup_fmap, Hg. }
  split_and!; [|unfold acts_ok, action_at, own in *; by rewrite Hk|by rewrite Hk].
  unfold paying. by rewrite Hfees, Hk.
Qed.

Lemma exec_one_kept payer s x s' x' :
  exec_one c find_apply_handler wasm_apply s x = Ok (s', x') → paying payer s → acts_ok s x → kept payer s x s' x'.
Proof.
  intros He Hp Ha. apply bind_Ok in He as ([s3 x3] & Hr & Hw).
  unfold run_receiver in Hr. apply bind_Ok in Hr as (m & _ & Hr).
  apply bind_Ok in Hr as ([s1 x1] & Hn & Hr). apply bind_Ok in Hr as (m' & _ & Hr).
  apply bind_Ok in Hr as ([s2 x2] & Hc & Hr). apply bind_Ok in Hr as (u & _ & Hr). simplify_eq.
  assert (kept payer s x s1 x1) as Hk1.
  { destruct (find_apply_handler _ _ _); [|by simplify_eq]. apply bind_Ok in Hn as (u' & _ & Hn).
    exact (run_kept payer _ _ _ _ _ Hn Hp Ha). }
  pose proof Hk1 as (Hp1 & Ha1 & _).
  assert (kept payer s1 x1 s3 x3) as Hk2.
  { destruct (runs_code c m' x1); [|by simplify_eq]. apply bind_Ok in Hc as (u' & _ & Hc). by eapply run_kept. }
  pose proof Hk2 as (Hp2 & Ha2 & _). eapply kept_trans; [exact Hk1|]. eapply kept_trans; [exact Hk2|].
  by eapply write_receipt_kept.
Qed.

Lemma exec_notified_kept payer turns : ∀ i s x s' x',
  exec_notified c find_apply_handler wasm_apply turns i s x = Some (Ok (s', x')) →
  paying payer s → acts_ok s x → kept payer s x s' x'.
Proof.
  induction turns as [|turns IH]; intros i s x s' x' He Hp Ha; [done|]. cbn in He.
  destruct (notified x !! i) as [[r o]|] eqn:Ei; [|by simplify_eq].
  destruct (exec_one _ _ _ _ _) as [[s1 x1]|] eqn:E1; [|done].
  assert (acts_ok s (set_receiver x r o)) as Ha'.
  { destruct Ha as (? & ? & Hn & ?). split_and!; [|done..]. exact (proj1 (Forall_lookup _ _) Hn i (r, o) Ei). }
  pose proof (exec_one_kept payer _ _ _ _ E1 Hp Ha') as Hk. pose proof Hk as (Hp1 & Ha1 & Hpre).
  destruct (IH _ _ _ _ _ He Hp1 Ha1) as (? & ? & ?). split_and!; [done|done|by etrans].
Qed.

Lemma exec_each_kept payer (f : trx_state R → Z → option (result exn (trx_state R))) os :
  (∀ s o s', f s o = Some (Ok s') → paying payer s → own s o → paying payer s' ∧ keys s `prefix_of` keys s') →
  ∀ s s', exec_each f s os = Some (Ok s') → paying payer s → Forall (own s) os →
    paying payer s' ∧ keys s `prefix_of` keys s'.
Proof.
  intros Hf. induction os as [|o os IH]; intros s s' He Hp Ho; cbn in He; [by simplify_eq|].
  destruct (f s o) as [[s1|e]|] eqn:E1; try done. apply Forall_cons in Ho as [Ho Hos].
  destruct (Hf _ _ _ E1 Hp Ho) as [Hp1 Hpre]. destruct (IH _ _ He Hp1) as [Hp2 Hpre2].
  - eapply Forall_impl; [exact Hos|]. intros o'. by apply own_mono.
  - split; [done|by etrans].
Qed.

Lemma execute_action_kept payer turns depth : ∀ recurse s o s',
  execute_action c find_apply_handler wasm_apply turns depth recurse s o = Some (Ok s') →
  paying payer s → own s o → paying payer s' ∧ keys s `prefix_of` keys s'.
Proof.
  induction depth as [|depth IH]; intros recurse s o s' He Hp Ho; [done|]. cbn in He.
  destruct (new_context s o recurse) as [x|] eqn:Ex; [|done]. unfold new_context in Ex.
  apply bind_Ok in Ex as (t & Hb%get_action_trace_Ok & Ex). injection Ex as <-.
  destruct (exec_one _ _ _ _ _) as [[s1 x1]|] eqn:E1; [|done].
  apply exec_one_kept with (payer := payer) in E1 as (Hp1 & Ha1 & Hpre1); [|done|].
  2: { destruct Hb as [Hb Ht]. destruct Ho as (Hpos & a & Hk).
    assert (t_receiver t = Action.account a ∧ t_act t = a) as [Hr Ha].
    { unfold keys in Hk. rewrite list_lookup_fmap, Ht in Hk. cbn in Hk. by injection Hk. }
    assert (action_at s o (t_act t)) as Hat by (split; [done|]; rewrite Ha; by eexists).
    split_and!; cbn; [done|rewrite Hr, Ha; set_solver|by apply Forall_singleton|constructor]. }
  destruct (exec_notified _ _ _ _ _ _ _) as [[[s2 x2]|]|] eqn:E2; try done.
  apply exec_notified_kept with (payer := payer) in E2 as (Hp2 & Ha2 & Hpre2); [|done|done].
  destruct (check_depth s2 x2) as [|]; [|done]. destruct Ha2 as (_ & _ & _ & Hos).
  destruct (exec_each_kept payer _ _ (λ s o s', IH (recurse + 1) s o s') _ _ He Hp2 Hos) as [Hp3 Hpre3].
  split; [done|]. by do 2 (etrans; [eassumption|]).
Qed.

(** The original actions are on their own accounts, their fees before them *)
Lemma schedule_original_paying payer b l : ∀ s s',
  foldM (schedule_original c b) s l = Ok s' → paying payer s → Forall (λ k, k.1 = Action.account k.2) (keys s) →
  paying payer s' ∧ Forall (λ k, k.1 = Action.account k.2) (keys s').
Proof.
  induction l as [|a l IH]; intros s s' Hf Hp Ho; cbn in Hf; [by simplify_eq|].
  apply bind_Ok in Hf as (s1 & Hs & Hf). apply (IH _ _ Hf); clear IH Hf;
    apply bind_Ok in Hs as ([s2 o] & Hs & Heq); injection Heq as <-;
    apply schedule_fee_action_pays with (payer := payer) in Hs as ((Hp1 & Hne1 & Hpaid1) & -> & f & Hk1 & Hpays & Hacc); try done.
  - split_and!; [done|done|]. unfold keys in *. cbn. rewrite fmap_app. apply paid_snoc; [done|].
    intros _ _. exists f. by rewrite Hk1, last_snoc.
  - unfold keys in *. cbn. rewrite fmap_app, Hk1, !Forall_app. repeat constructor; cbn; done.
Qed.

Lemma keys_own s : Forall (λ k, k.1 = Action.account k.2) (keys s) →
  Forall (own s) (seqZ 1 (Z.of_nat (length (action_traces s)))).
Proof.
  intros Hk. apply Forall_forall. intros o Ho%elem_of_seqZ. split; [lia|].
  destruct (lookup_lt_is_Some_2 (keys s) (Z.to_nat (o - 1))) as [[r a] Hr]; [rewrite length_keys; lia|].
  exists a. rewrite Hr. pose proof (proj1 (Forall_lookup _ _) Hk _ _ Hr) as Heq. cbn in Heq. by rewrite Heq.
Qed.

(** C6: a transaction that executes has run every action it scheduled, original, notified,
    inline or fee action, exactly once: every trace has a receipt, the receipts of the
    transaction are those of the traces, each trace carries its position as ordinal and comes
    after its creator, and the receipts have consecutive global sequence numbers, and
    consecutive sequence numbers on each receiver, which the counters of the database end
    with. *)
Theorem every_action_runs turns depth s is_init apply_cfa delay cfas acts s' :
  exec c find_apply_handler wasm_apply turns depth s is_init apply_cfa delay cfas acts = Some (Ok s') →
  action_traces s = [] → executed s = [] →
  let n := Z.of_nat (length (executed s')) in
  0 ≤ global_action_sequence (db s) → global_action_sequence (db s) + n < 2 ^ 64 →
  Forall (λ t, is_Some (receipt t)) (action_traces s') ∧
  executed s' ≡ₚ omap receipt (action_traces s') ∧
  linked (action_traces s') ∧
  global_sequence <$> executed s' = seqZ (global_action_sequence (db s) + 1) n ∧
  global_action_sequence (db s') = global_action_sequence (db s) + n ∧
  ∀ account,
    counts (recv_of (db s) account) (recv_sequence <$> filter (λ r, r_receiver r = account) (executed s'))
      (recv_of (db s') account).
Proof.
  intros Hx Ht He n Hg Hn. destruct (exec_spec _ _ _ _ _ _ _ _ _ Hx Ht He) as ((Hl & Hp) & Ho & Hc & Hr).
  apply counts_seqZ in Hc as [Hs Hs']; [|done|by rewrite length_fmap]. rewrite length_fmap in Hs, Hs'.
  split_and!; [by apply (open_from_closed 1)|done|done|done|done|done].
Qed.

(** C22: where fees are charged by action, every action a transaction has run on its own
    account, original or inline, other than a fee action, is preceded by a fee action in
    which the payer of the transaction pays the fee required of it. *)
Theorem every_action_pays turns depth s is_init apply_cfa delay cfas acts s' payer :
  exec c find_apply_handler wasm_apply turns depth s is_init apply_cfa delay cfas acts = Some (Ok s') →
  action_traces s = [] → TxFee.fee_payer (fees s) = payer → payer ≠ 0 →
  paid payer (keys s').
Proof.
  intros Hx Ht Hpayer Hne. unfold exec in Hx.
  destruct (schedule_originals _ _ _ _ _ _ _) as [s1|] eqn:E1; [|done].
  assert (paying payer s1 ∧ Forall (λ k, k.1 = Action.account k.2) (keys s1)) as [Hp1 Ho1].
  { unfold schedule_originals in E1. apply bind_Ok in E1 as (u & _ & E1). apply bind_Ok in E1 as (s0 & E0 & E1).
    assert (paying payer s ∧ Forall (λ k, k.1 = Action.account k.2) (keys s)) as [Hp Ho].
    { unfold paying, keys. rewrite Ht. split; [split_and!; [done|done|]|constructor]. by intros [|i] a Hi. }
    assert (paying payer s0 ∧ Forall (λ k, k.1 = Action.account k.2) (keys s0)) as [Hp0 Ho0].
    { destruct apply_cfa; [by eapply schedule_original_paying|by simplify_eq]. }
    destruct (delay =? 0); [by eapply schedule_original_paying|by simplify_eq]. }
  destruct (exec_each _ _ _) as [[s2|]|] eqn:E2; try done.
  destruct (exec_each_kept payer _ _ (execute_action_kept payer turns depth 0) _ _ E2 Hp1 (keys_own _ Ho1)) as [(_ & _ & Hpaid) _].
  injection Hx as Hx. destruct (negb (delay =? 0)); [|by simplify_eq].
  apply bind_Ok in Hx as (r & _ & Hx). by injection Hx as <-.
Qed.

(** C24: the execution of a transaction ends, with a result or an exception: an account is
    notified of an action once at most, so that one turn more than there are accounts to
    notify is enough, and inline actions nest less deep than a 16-bit limit. *)
Theorem exec_terminates U turns depth s is_init apply_cfa delay cfas acts :
  all_notify_within U → (size U < turns)%nat → 2 ^ 16 ≤ Z.of_nat depth →
  is_Some (exec c find_apply_handler wasm_apply turns depth s is_init apply_cfa delay cfas acts).
Proof.
  intros Hall Ht Hd. unfold exec. destruct (schedule_originals _ _ _ _ _ _ _) as [s1|]; [|by eexists].
  destruct (exec_each_terminates (execute_action c find_apply_handler wasm_apply turns depth 0)
    (seqZ 1 (Z.of_nat (length (action_traces s1))))) with (s := s1) as [[s2|] ->]; [|by eexists..].
  intros s3 o. apply (execute_action_terminates U); [done|done|lia|lia].
Qed.
End runs.

(** ** An example

    alice's contract notifies bob of its action [play] and sends itself one more. *)

#[local] Instance sample_components : Components TxFee.fee_table := {
  find_permission _ _ := Ok true;
  check_authorization _ _ _ _ := Ok tt;
  add_pending_ram_usage r _ _ := Ok r;
  schedule_transaction r := Ok r;
  action_fees r := r;
  config_on_chain _ := ∅;
  max_inline_action_depth _ := 4;
  max_inline_action_depth_u16 _ := eq_refl;
  pack_fee_paramter p := [TxFee.fp_name p; Asset.amount (TxFee.fp_fee p)];
  unpack_name _ := Ok 0 }.

Definition sample_control : control :=
  MkControl TransactionContext.sample_control true false 5000000 false true true ∅ ∅ ∅ [].

Definition bob : Z := Name.N "bob".
Definition play (data : list Z) : Action.action :=
  Action.MkAction TxFee.alice (Name.N "play") [Action.MkLevel TxFee.alice Config.active_name] data.

Definition sample_code (w : world TxFee.fee_table) (recv : Z) (a : Action.action) : program TxFee.fee_table :=
  if (recv =? TxFee.alice) && bool_decide (Action.data a = [])
  then Require_recipient bob (Execute_inline (play [1]) Return) else Return.

Definition sample_accounts : gmap Z account_metadata :=
  list_to_map ((λ n, (n, MkMetadata 10 20 1 1 true false)) <$> [TxFee.alice; bob; Config.system_account_name]).

Definition sample_state : trx_state TxFee.fee_table :=
  MkState [] [] (MkWorld 100 sample_accounts TxFee.user_fees)
    {| TxFee.fee_payer := TxFee.alice; TxFee.fee_costed := Asset.core_asset 0;
       TxFee.max_fee_to_pay := Asset.core_asset 0; TxFee.use_limit_by_contract := false;
       TxFee.cpu_limit_by_contract := 0; TxFee.net_limit_by_contract := 0; TxFee.fee_actions := [] |}.

Definition sample_exec : option (result exn (trx_state TxFee.fee_table)) :=
  exec sample_control (λ _ _ _, None) sample_code 3 6 sample_state true false 0 [] [play []].

(** The receivers in the order of execution, the ordinals of creators, the global sequence *)
Example sample_exec_runs :
  match sample_exec with
  | Some (Ok s) =>
      r_receiver <$> executed s =
        [Config.system_account_name; TxFee.alice; bob; Config.system_account_name; TxFee.alice] ∧
      creator_action_ordinal <$> action_traces s = [0; 0; 2; 0; 2] ∧
      global_sequence <$> executed s = [101; 102; 103; 104; 105]
  | _ => False
  end.
Proof. vm_compute. done. Qed.

Lemma sample_exec_length : (match sample_exec with Some (Ok s) => length (executed s) | _ => 0 end)%nat = 5%nat.
Proof. vm_compute. reflexivity. Qed.

Lemma every_action_runs_witness :
  match sample_exec with
  | Some (Ok s) => Forall (λ t, is_Some (receipt t)) (action_traces s) ∧ global_sequence <$> executed s = seqZ 101 5
  | _ => False
  end.
Proof.
  pose proof sample_exec_length as Hl. destruct sample_exec as [[s|e]|] eqn:E; [|discriminate Hl..].
  destruct (every_action_runs sample_control (λ _ _ _, None) sample_code 3 6 sample_state true false 0 [] [play []] s E eq_refl eq_refl)
    as (Hr & _ & _ & Hg & _); [by vm_compute|rewrite Hl; by vm_compute|].
  rewrite Hl in Hg. exact (conj Hr Hg).
Defined.

Lemma every_action_pays_witness :
  match sample_exec with Some (Ok s) => paid TxFee.alice (keys s) | _ => False end.
Proof.
  pose proof sample_exec_length as Hl. destruct sample_exec as [[s|e]|] eqn:E; [|discriminate Hl..].
  apply (every_action_pays sample_control (λ _ _ _, None) sample_code 3 6 sample_state true false 0 [] [play []] s TxFee.alice E
    eq_refl eq_refl).
  by vm_compute.
Defined.

Lemma exec_terminates_witness :
  is_Some (exec sample_control (λ _ _ _, None) sample_code 2 (Z.to_nat (2 ^ 16)) sample_state true false 0 [] [play []]).
Proof.
  apply (exec_terminates sample_control (λ _ _ _, None) sample_code {[bob]}).
  - split; [done|]. intros w r a. unfold sample_code. destruct (_ && _); cbn; [|done]. split; [set_solver|done].
  - rewrite size_singleton. lia.
  - rewrite Z2Nat.id; lia.
Defined.
End ActionExecution.
