(* ===== verification/Deferred.v ===== *)
(** * Deferred transactions

    The table of generated transactions ([generated_transaction_object.hpp]) and what fills
    and empties it: a contract that defers, replaces or cancels a transaction
    ([schedule_deferred_transaction] and [cancel_deferred_transaction] of
    [apply_context.cpp]), an input transaction with a delay ([schedule_transaction] of
    [transaction_context.cpp]), and the controller that retires one
    ([remove_scheduled_transaction] of [controller.cpp]); [validate_and_extract_extensions]
    of [transaction.cpp].  The memory of the table is billed to the payers. *)

From S2P Require Import Prelude.
From S2P Require Import Exceptions.
From S2P Require Import Action.
From S2P Require Import ChainConfig.
From S2P Require Import Usage.
From S2P Require Import Database.
From S2P Require Import ResourceLimits.
From S2P Require Import Authority.
From S2P Require Import Permissions.
From S2P Require Import BlockHeader.
From S2P Require Import ProtocolFeatures.
From S2P Require Import FeatureActivation.
From S2P Require Import TransactionContext.

Local Open Scope Z_scope.

Module Deferred.
Import TransactionContext.

(** ** The table *)

(** [generated_transaction_object]; the rows are in the order of their identifiers. *)
Record generated_transaction := MkGto {
  trx_id : Z;
  sender : Z;
  sender_id : Z;
  payer : Z;
  delay_until : Z;
  gto_expiration : Z;
  published : Z;
  packed_trx : list Z }.

(** [config::billable_size_v<generated_transaction_object>] *)
Definition gto_size : Z := Authority.billable_size_v (96 + 4 + 32 * 5).

(** The memory a row is billed for *)
Definition row_size (g : generated_transaction) : Z := gto_size + Z.of_nat (length (packed_trx g)).

Definition find_trx_id (l : list generated_transaction) (id : Z) : option generated_transaction :=
  find (λ g, trx_id g =? id) l.

Definition find_sender (l : list generated_transaction) (s i : Z) : option generated_transaction :=
  find (λ g, (sender g =? s) && (sender_id g =? i)) l.

(** [db.create]: the identifier of the transaction, and the sender with the sender's
    identifier, are unique keys. *)
Definition create_row (l : list generated_transaction) (g : generated_transaction) : result exn (list generated_transaction) :=
  match find_trx_id l (trx_id g), find_sender l (sender g) (sender_id g) with
  | None, None => Ok (l ++ [g])
  | _, _ => Throw std_exception
  end.

(** [db.remove] of a row, which its transaction identifies *)
Definition remove_row (l : list generated_transaction) (g : generated_transaction) : list generated_transaction :=
  filter (λ h, trx_id h ≠ trx_id g) l.

(** ** Extensions of transactions *)

Record deferred_transaction_generation_context := MkGeneration {
  sender_trx_id : Z;
  context_sender_id : Z;
  context_sender : Z }.

(** Packing and hashing of transactions *)
Class TransactionFormat := {
  pack_trx : transaction → list Z;
  pack_trx_size trx : Z.of_nat (length (pack_trx trx)) < 2 ^ 32;
  id_of : transaction → Z;
  transaction_id_to_sender_id : Z → Z;
  pack_generation : deferred_transaction_generation_context → list Z;
  unpack_generation : list Z → result exn deferred_transaction_generation_context }.

Section deferred.
Context {key : Type} `{TransactionFormat}.

(** [deferred_transaction_generation_context::reflector_init], run when one is unpacked *)
Definition reflector_init (g : deferred_transaction_generation_context) : result exn unit :=
  assert_that (negb (context_sender g =? 0)) ill_formed_deferred_transaction_generation_context.

(** The loop of [validate_and_extract_extensions]; the generation context, of type 0, is the
    only extension. *)
Fixpoint extract_loop (exts : list (Z * list Z)) (first : bool) (id_type_lower_bound : Z)
    : result exn (list (Z * deferred_transaction_generation_context)) :=
  match exts with
  | [] => Ok []
  | (id, data) :: rest =>
      _ ← assert_that (id_type_lower_bound <=? id) invalid_transaction_extension;
      _ ← assert_that (id =? 0) invalid_transaction_extension;
      g ← unpack_generation data;
      _ ← reflector_init g;
      _ ← assert_that (first || (id_type_lower_bound <? id)) invalid_transaction_extension;
      l ← extract_loop rest false id;
      Ok ((id, g) :: l)
  end.

Definition validate_and_extract_extensions (trx : transaction) := extract_loop (transaction_extensions trx) true 0.

(** ** Scheduling *)

(** The tables: those of the transaction context, the generated transactions, the memory to
    give back when the replacement of deferred transactions is corrected. *)
Record deferred_db := MkDeferredDb {
  sdb : state_db (key := key);
  gtos : list generated_transaction;
  ram_corrections : list (Z * Z) }.

(** A call of a running action: the transaction context and the memory deltas of the action *)
Record call_state := MkCall {
  tctx : transaction_context;
  ddb : deferred_db;
  deltas : gmap Z Z }.

(** What a call reads: of the controller, its configuration and activated features, of the
    running action, and of the transaction it belongs to *)
Record environment := MkEnv {
  receiver : Z;
  act : Action.action;
  privileged : bool;
  current_trx_id : Z;
  enforce_whiteblacklist : bool;
  sender_bypass_whiteblacklist : gset Z;
  skip_auth_check : bool;
  no_duplicate_deferred_id : bool;
  ram_restrictions : bool;
  restrict_action_to_self : bool;
  replace_deferred : bool;
  all_subjective_mitigations_disabled : bool;
  allow_ram_billing_in_notify : bool;
  head_block_id : Z * Z }.

Context (c : control).
(** [authorization_manager::check_authorization] of actions sent by a contract, with a delay *)
Context (check_authorization : Permissions.auth_db key → list Action.action → Action.permission_level → Z → result exn unit).

Definition set_ddb (s : call_state) (d : deferred_db) : call_state := MkCall (tctx s) d (deltas s).
Definition set_gtos (d : deferred_db) (l : list generated_transaction) : deferred_db :=
  MkDeferredDb (sdb d) l (ram_corrections d).

(** [apply_context::add_ram_usage] *)
Definition call_add_ram_usage (s : call_state) (account ram_delta : Z) : result exn call_state :=
  '(t, db) ← add_ram_usage (sdb (ddb s)) (tctx s) account ram_delta;
  Ok (MkCall t (MkDeferredDb db (gtos (ddb s)) (ram_corrections (ddb s)))
        (<[account := default 0 (deltas s !! account) + ram_delta]> (deltas s))).

Definition sender_avoids_whitelist_blacklist_enforcement (e : environment) (s : Z) : bool :=
  bool_decide (sender_bypass_whiteblacklist e ≠ ∅) && bool_decide (s ∈ sender_bypass_whiteblacklist e).

Definition is_ram_billing_in_notify_allowed (e : environment) : bool :=
  all_subjective_mitigations_disabled e || negb (is_producing_block c) || allow_ram_billing_in_notify e.

(** The transaction as it is stored: with the context of its generation, or with an
    expiration and a reference block that need no check *)
Definition set_header (trx : transaction) (expire num prefix : Z) (exts : list (Z * list Z)) : transaction :=
  MkTrx expire num prefix (max_net_usage_words trx) (max_cpu_usage_ms trx) (delay_sec trx)
    (context_free_actions trx) (actions trx) exts.

Definition generated_header (e : environment) (sid : Z) (trx : transaction) : result exn transaction :=
  if no_duplicate_deferred_id e then
    exts ← validate_and_extract_extensions trx;
    exts' ← match exts with
            | [] => Ok (BlockHeader.emplace_extension (transaction_extensions trx) 0
                          (pack_generation (MkGeneration (current_trx_id e) sid (receiver e))))
            | (_, g) :: rest =>
                _ ← assert_that (bool_decide (rest = [])) invalid_transaction_extension;
                _ ← assert_that (context_sender g =? receiver e) ill_formed_deferred_transaction_generation_context;
                _ ← assert_that (context_sender_id g =? sid) ill_formed_deferred_transaction_generation_context;
                _ ← assert_that (sender_trx_id g =? current_trx_id e) ill_formed_deferred_transaction_generation_context;
                Ok (transaction_extensions trx)
            end;
    Ok (set_header trx 0 0 0 exts')
  else
    Ok (set_header trx (u32 ((pending_block_time c + 999999) / 1000000)) (u16 (head_block_id e).1) (u32 (head_block_id e).2)
          (transaction_extensions trx)).

(** The part of [schedule_deferred_transaction] that checks the payer and the authorization *)
Definition check_deferred (e : environment) (s : call_state) (pay delay : Z) (trx : transaction) : result exn unit :=
  if negb (skip_auth_check e) && negb (privileged e) then
    _ ← (if negb (pay =? receiver e) then
           if ram_restrictions e then
             _ ← assert_that (receiver e =? Action.account (act e)) action_validate_exception;
             assert_that (Action.has_authorization (Action.authorization (act e)) pay) action_validate_exception
           else Action.require_authorization (Action.authorization (act e)) pay
         else Ok tt);
    match check_authorization (auth (sdb (ddb s))) (actions trx) (Action.MkLevel (receiver e) Config.eosio_code_name) delay with
    | Ok _ => Ok tt
    | Throw x =>
        if restrict_action_to_self e || negb (forallb (λ a, Action.account a =? receiver e) (actions trx)) then Throw x
        else if is_producing_block c then Throw subjective_block_production_exception
        else Ok tt
    end
  else Ok tt.

(** The row of a deferred transaction *)
Definition new_gto (id from sid pay delay : Z) (trx : transaction) : generated_transaction :=
  let delay_until := pending_block_time c + delay in
  MkGto id from sid pay delay_until
    (delay_until + ChainConfig.deferred_trx_expiration_window (configuration c) * 1000000) (pending_block_time c) (pack_trx trx).

(** A transaction that replaces the row [g] *)
Definition replace_deferred_transaction (e : environment) (s : call_state) (g : generated_transaction)
    (sid pay delay : Z) (trx : transaction) : result exn call_state :=
  _ ← assert_that (replace_deferred e || negb (is_producing_block c) || all_subjective_mitigations_disabled e)
        subjective_block_production_exception;
  s ← (if replace_deferred e then call_add_ram_usage s (payer g) (- row_size g)
       else Ok (set_ddb s (MkDeferredDb (sdb (ddb s)) (gtos (ddb s))
                  (FeatureActivation.add_to_ram_correction (ram_corrections (ddb s)) (payer g) (row_size g)))));
  let id := if replace_deferred e then id_of trx else trx_id g in
  l ← create_row (remove_row (gtos (ddb s)) g) (new_gto id (receiver e) sid pay delay trx);
  Ok (set_ddb s (set_gtos (ddb s) l)).

Definition schedule_deferred_transaction (e : environment) (s : call_state) (sid pay : Z) (trx : transaction)
    (replace_existing : bool) : result exn call_state :=
  _ ← assert_that (bool_decide (context_free_actions trx = [])) cfa_inside_generated_tx;
  _ ← validate_referenced_accounts c (sdb (ddb s)) trx
        (enforce_whiteblacklist e && is_producing_block c
         && negb (sender_avoids_whitelist_blacklist_enforcement e (receiver e)));
  trx ← generated_header e sid trx;
  t ← add_net_usage c (tctx s)
        (ChainConfig.base_per_transaction_net_usage (configuration c) + transaction_id_net_usage);
  let s := MkCall t (ddb s) (deltas s) in
  let delay := delay_sec trx * 1000000 in
  _ ← check_deferred e s pay delay trx;
  s ← match find_sender (gtos (ddb s)) (receiver e) sid with
      | Some g =>
          _ ← assert_that replace_existing deferred_tx_duplicate;
          replace_deferred_transaction e s g sid pay delay trx
      | None =>
          l ← create_row (gtos (ddb s)) (new_gto (id_of trx) (receiver e) sid pay delay trx);
          Ok (set_ddb s (set_gtos (ddb s) l))
      end;
  _ ← assert_that (ram_restrictions e || is_ram_billing_in_notify_allowed e
                   || (receiver e =? Action.account (act e)) || (receiver e =? pay) || privileged e)
        subjective_block_production_exception;
  call_add_ram_usage s pay (gto_size + u32 (Z.of_nat (length (pack_trx trx)))).

(** [cancel_deferred_transaction]: whether there was one *)
Definition cancel_deferred_transaction (s : call_state) (sid from : Z) : result exn (call_state * bool) :=
  match find_sender (gtos (ddb s)) from sid with
  | Some g =>
      s ← call_add_ram_usage s (payer g) (- row_size g);
      Ok (set_ddb s (set_gtos (ddb s) (remove_row (gtos (ddb s)) g)), true)
  | None => Ok (s, false)
  end.

(** [transaction_context::schedule_transaction] of an input transaction with a delay; with
    the change of memory noted in the trace *)
Definition schedule_transaction (t : transaction_context) (d : deferred_db) (id delay : Z) (trx : transaction)
    : result exn (transaction_context * deferred_db * (Z * Z)) :=
  t ← (if delay_sec trx =? 0
       then add_net_usage c t (ChainConfig.base_per_transaction_net_usage (configuration c) + transaction_id_net_usage)
       else Ok t);
  let g := new_gto id 0 (transaction_id_to_sender_id id) (first_authorizer trx) delay trx in
  l ← create_row (gtos d) g;
  let ram_delta := gto_size + u32 (Z.of_nat (length (pack_trx trx))) in
  '(t, db) ← add_ram_usage (sdb d) t (payer g) ram_delta;
  Ok (t, MkDeferredDb db l (ram_corrections d), (payer g, ram_delta)).

(** [controller_impl::remove_scheduled_transaction] *)
Definition remove_scheduled_transaction (d : deferred_db) (g : generated_transaction) : result exn (deferred_db * Z) :=
  let ram_delta := - row_size g in
  m ← ResourceLimits.add_pending_ram_usage (rl (sdb d)) (payer g) ram_delta;
  Ok (MkDeferredDb (set_rl (sdb d) m) (remove_row (gtos d) g) (ram_corrections d), ram_delta).
End deferred.

(** ** The rows of the table *)

(** The keys are unique *)
Definition unique_keys (l : list generated_transaction) : Prop :=
  NoDup (trx_id <$> l) ∧ NoDup ((λ g, (sender g, sender_id g)) <$> l).

Lemma find_elem {A} (f : A → bool) l x : find f l = Some x → x ∈ l ∧ f x = true.
Proof. intros Hf. apply find_some in Hf as [Hin Hx]. split; [by apply list_elem_of_In|done]. Qed.

Lemma find_none_elem {A} (f : A → bool) l x : find f l = None → x ∈ l → f x = false.
Proof. intros Hf Hx. apply (find_none _ _ Hf). by apply list_elem_of_In. Qed.

Lemma create_row_unique l g l' :
  create_row l g = Ok l' → unique_keys l → l' = l ++ [g] ∧ unique_keys l'.
Proof.
  unfold create_row. destruct (find_trx_id l (trx_id g)) eqn:E1; [done|].
  destruct (find_sender l (sender g) (sender_id g)) eqn:E2; [done|]. intros [= <-] [H1 H2]. split; [done|].
  split; rewrite fmap_app; apply NoDup_app; (split_and!; [done| |apply NoDup_singleton]);
    intros x (h & -> & Hh)%list_elem_of_fmap Heq%list_elem_of_singleton.
  - pose proof (find_none_elem _ _ _ E1 Hh) as Hf. cbn in Hf, Heq. lia.
  - pose proof (find_none_elem _ _ _ E2 Hh) as Hf. cbn in Hf, Heq. injection Heq as Hs Hi. lia.
Qed.

Lemma filter_keep {A} (P : A → Prop) `{∀ x, Decision (P x)} l : Forall P l → filter P l = l.
Proof. induction 1 as [|x l Hx Hl IH]; [done|]. by rewrite filter_cons_True, IH. Qed.

Lemma remove_row_Permutation l g : unique_keys l → g ∈ l → l ≡ₚ g :: remove_row l g.
Proof.
  intros [Hn _] (l1 & l2 & ->)%list_elem_of_split. unfold remove_row.
  rewrite fmap_app, fmap_cons in Hn. apply NoDup_app in Hn as (Hn1 & Hd & [Hg Hn2]%NoDup_cons).
  rewrite filter_app, filter_cons_False by (by intros Hne; apply Hne).
  rewrite !filter_keep; [by rewrite Permutation_middle| |]; apply Forall_forall; intros h Hh Heq.
  - apply Hg. rewrite <- Heq. by apply list_elem_of_fmap_2.
  - apply (Hd (trx_id g)); [rewrite <- Heq; by apply list_elem_of_fmap_2|]. set_solver.
Qed.

Lemma unique_keys_Permutation l l' : l ≡ₚ l' → unique_keys l → unique_keys l'.
Proof. intros Hp. unfold unique_keys. by rewrite Hp. Qed.

Lemma remove_row_unique l g : unique_keys l → g ∈ l → unique_keys (remove_row l g).
Proof.
  intros Hu Hg. pose proof (remove_row_Permutation l g Hu Hg) as Hp. apply (unique_keys_Permutation _ _ Hp) in Hu.
  destruct Hu as [H1 H2]. rewrite !fmap_cons in *. apply NoDup_cons in H1 as [_ H1]. apply NoDup_cons in H2 as [_ H2].
  done.
Qed.

(** ** Memory *)

(** The memory the rows bill to an account *)
Fixpoint held (l : list generated_transaction) (account : Z) : Z :=
  match l with
  | [] => 0
  | g :: l => (if payer g =? account then row_size g else 0) + held l account
  end.

(** The memory to give back to an account *)
Fixpoint corrected (l : list (Z * Z)) (account : Z) : Z :=
  match l with
  | [] => 0
  | (a, n) :: l => (if a =? account then n else 0) + corrected l account
  end.

Definition ram_of (m : ResourceLimits.manager) (account : Z) : Z :=
  from_option ResourceLimits.ram_usage 0 (ResourceLimits.usages m !! account).

#[global] Instance held_Proper : Proper ((≡ₚ) ==> eq ==> eq) held.
Proof.
  intros l l' Hl a ? <-. induction Hl as [|g l l' Hl IH|g h l|l l' l'' H1 IH1 H2 IH2]; cbn [held]; [done| | |congruence].
  - by rewrite IH.
  - lia.
Qed.

Lemma held_app l l' a : held (l ++ l') a = held l a + held l' a.
Proof. induction l as [|g l IH]; cbn [held app]; [lia|rewrite IH; lia]. Qed.

Lemma row_size_pos g : 0 < row_size g.
Proof. unfold row_size, gto_size, Authority.billable_size_v. change (_ / 16 * 16) with 272. lia. Qed.

Lemma held_nonneg l a : 0 ≤ held l a.
Proof. induction l as [|g l IH]; cbn [held]; [lia|]. pose proof (row_size_pos g). case_match; lia. Qed.

Lemma held_elem l g : g ∈ l → row_size g ≤ held l (payer g).
Proof.
  intros (l1 & l2 & ->)%list_elem_of_split. rewrite held_app. cbn [held]. rewrite Z.eqb_refl.
  pose proof (held_nonneg l1 (payer g)). pose proof (held_nonneg l2 (payer g)). lia.
Qed.

Lemma corrected_add l a n b :
  0 ≤ n → Forall (λ p, 0 ≤ p.2) l → corrected l a + n < 2 ^ 64 →
  corrected (FeatureActivation.add_to_ram_correction l a n) b = corrected l b + (if a =? b then n else 0) ∧
  Forall (λ p, 0 ≤ p.2) (FeatureActivation.add_to_ram_correction l a n).
Proof.
  intros Hn. induction l as [|[a' n'] l IH]; intros Hl Hlt; cbn [FeatureActivation.add_to_ram_correction corrected].
  - split; [lia|by repeat constructor].
  - apply Forall_cons in Hl as [Hn' Hl]. cbn in Hn'. cbn [corrected] in Hlt.
    assert (0 ≤ corrected l a) as Hc.
    { clear -Hl. induction Hl as [|[? ?] l Hx Hl IH]; cbn [corrected]; [lia|]. cbn in Hx. case_match; lia. }
    destruct (Z.eqb_spec a' a) as [->|Hne].
    + assert (u64 (n' + n) = n' + n) as -> by (unfold u64; apply Z.mod_small; lia).
      cbn [corrected]. split; [case_match; lia|]. constructor; [cbn; lia|done].
    + destruct IH as [IH1 IH2]; [done|lia|]. cbn [corrected]. split; [rewrite IH1; lia|by constructor].
Qed.

(** A charge of memory changes the usage of its account *)
Lemma add_pending_ram m account delta m' :
  ResourceLimits.add_pending_ram_usage m account delta = Ok m' → delta ≠ 0 → - 2 ^ 63 ≤ delta < 2 ^ 63 →
  (∀ a, 0 ≤ ram_of m a < 2 ^ 64) →
  (∀ a, ram_of m' a = ram_of m a + (if account =? a then delta else 0)) ∧ (∀ a, 0 ≤ ram_of m' a < 2 ^ 64).
Proof.
  intros Ha Hne Hd Hr. destruct (ResourceLimits.usages m !! account) as [u|] eqn:Eu.
  - pose proof (Hr account) as Hu. unfold ram_of in Hu. rewrite Eu in Hu. cbn in Hu.
    rewrite (ResourceLimits.add_pending_ram_usage_exact m account u delta Eu Hu Hd) in Ha.
    case_bool_decide as Hb; [|done]. injection Ha as <-.
    assert (∀ a, ram_of (ResourceLimits.set_usages m (<[account := ResourceLimits.MkUsage (ResourceLimits.net_usage u)
      (ResourceLimits.cpu_usage u) (ResourceLimits.ram_usage u + delta)]> (ResourceLimits.usages m))) a
      = ram_of m a + (if account =? a then delta else 0)) as Heq.
    { intros a. unfold ram_of. cbn. destruct (Z.eqb_spec account a) as [<-|Hna].
      - by rewrite lookup_insert_eq, Eu.
      - rewrite lookup_insert_ne by done. lia. }
    split; [done|]. intros a. rewrite Heq. pose proof (Hr a). unfold ram_of in *.
    destruct (Z.eqb_spec account a) as [<-|]; [rewrite Eu in *; cbn in *; lia|lia].
  - unfold ResourceLimits.add_pending_ram_usage in Ha. destruct (Z.eqb_spec delta 0); [done|].
    apply bind_Ok in Ha as (u & Hu & _). unfold Database.get in Hu. rewrite Eu in Hu. done.
Qed.

Section billed.
Context {key : Type} `{TransactionFormat}.
Context (c : control).
Context (check_authorization : Permissions.auth_db key → list Action.action → Action.permission_level → Z → result exn unit).
Implicit Types (d : deferred_db (key := key)) (s : call_state (key := key)).

Definition ram d (account : Z) : Z := ram_of (rl (sdb d)) account.

(** The keys are unique, and the usage of each account is the memory of its rows, what is to
    be given back to it, and [others], the memory other tables have billed to it. *)
Record billed (others : Z → Z) d : Prop := {
  billed_unique : unique_keys (gtos d);
  billed_packed : Forall (λ g, Z.of_nat (length (packed_trx g)) < 2 ^ 32) (gtos d);
  billed_corrections : Forall (λ p, 0 ≤ p.2) (ram_corrections d);
  billed_others a : 0 ≤ others a;
  billed_range a : 0 ≤ ram d a < 2 ^ 64;
  billed_ram a : ram d a = others a + held (gtos d) a + corrected (ram_corrections d) a }.

Lemma row_size_bound g : Z.of_nat (length (packed_trx g)) < 2 ^ 32 → row_size g < 2 ^ 33.
Proof. unfold row_size, gto_size, Authority.billable_size_v. change ((_ + 16 - 1) / 16 * 16) with 272. lia. Qed.

Lemma corrected_nonneg l a : Forall (λ p, 0 ≤ p.2) l → 0 ≤ corrected l a.
Proof. induction 1 as [|[? ?] l Hx Hl IH]; cbn [corrected]; [lia|]. cbn in Hx. case_match; lia. Qed.

Lemma held_remove l g a :
  unique_keys l → g ∈ l → held l a = (if payer g =? a then row_size g else 0) + held (remove_row l g) a.
Proof. intros Hu Hg. by rewrite (remove_row_Permutation l g Hu Hg) at 1. Qed.

(** The row [g] goes and its memory with it *)
Lemma billed_remove others d g m db' :
  billed others d → g ∈ gtos d → ResourceLimits.add_pending_ram_usage (rl (sdb d)) (payer g) (- row_size g) = Ok m →
  rl db' = m → billed others (MkDeferredDb db' (remove_row (gtos d) g) (ram_corrections d)).
Proof.
  intros [Hu Hp Hc Ho Hr He] Hg Ha Hm. pose proof (row_size_pos g) as Hpos.
  pose proof (row_size_bound g (proj1 (Forall_forall _ _) Hp g Hg)) as Hb.
  apply add_pending_ram in Ha as [Hm1 Hm2]; [|lia|lia|done].
  pose proof (remove_row_Permutation _ _ Hu Hg) as Hperm.
  constructor; cbn [gtos ram_corrections]; try done.
  - by apply remove_row_unique.
  - rewrite Hperm in Hp. by apply Forall_cons in Hp as [_ Hp].
  - intros a. unfold ram; cbn. rewrite Hm. done.
  - intros a. unfold ram; cbn. rewrite Hm, Hm1. specialize (He a). unfold ram in He. rewrite He, (held_remove _ g a Hu Hg).
    case_match; lia.
Qed.

(** Memory charged for a row that has just been created *)
Lemma billed_create others d g l m db' :
  billed others d → create_row (gtos d) g = Ok l → Z.of_nat (length (packed_trx g)) < 2 ^ 32 →
  ResourceLimits.add_pending_ram_usage (rl (sdb d)) (payer g) (row_size g) = Ok m →
  rl db' = m → billed others (MkDeferredDb db' l (ram_corrections d)).
Proof.
  intros [Hu Hp Hc Ho Hr He] Hl Hg Ha Hm. pose proof (row_size_pos g) as Hpos. pose proof (row_size_bound g Hg) as Hb.
  apply add_pending_ram in Ha as [Hm1 Hm2]; [|lia|lia|done]. apply create_row_unique in Hl as [-> Hu']; [|done].
  constructor; cbn [gtos ram_corrections]; try done.
  - apply Forall_app. split; [done|by repeat constructor].
  - intros a. unfold ram; cbn. by rewrite Hm.
  - intros a. unfold ram; cbn. rewrite Hm, Hm1, held_app. specialize (He a). unfold ram in He. rewrite He. cbn [held]. lia.
Qed.

(** A row that goes without its memory, which is noted to be given back *)
Lemma billed_correct others d g :
  billed others d → g ∈ gtos d →
  billed others (MkDeferredDb (sdb d) (remove_row (gtos d) g)
    (FeatureActivation.add_to_ram_correction (ram_corrections d) (payer g) (row_size g))).
Proof.
  intros [Hu Hp Hc Ho Hr He] Hg. pose proof (row_size_pos g) as Hpos.
  pose proof (remove_row_Permutation _ _ Hu Hg) as Hperm.
  assert (corrected (ram_corrections d) (payer g) + row_size g < 2 ^ 64) as Hlt.
  { pose proof (held_elem _ _ Hg). specialize (He (payer g)). specialize (Hr (payer g)). specialize (Ho (payer g)). lia. }
  constructor; cbn [gtos ram_corrections]; try done.
  - by apply remove_row_unique.
  - rewrite Hperm in Hp. by apply Forall_cons in Hp as [_ Hp].
  - by apply (corrected_add _ _ _ (payer g)); [lia|..].
  - intros a. destruct (corrected_add (ram_corrections d) (payer g) (row_size g) a) as [-> _]; [lia|done|done|].
    change (ram {| sdb := sdb d; gtos := remove_row (gtos d) g; ram_corrections := _ |} a) with (ram d a).
    rewrite He, (held_remove _ g a Hu Hg). lia.
Qed.

Lemma call_add_ram_usage_Ok s account delta s' :
  call_add_ram_usage s account delta = Ok s' →
  gtos (ddb s') = gtos (ddb s) ∧ ram_corrections (ddb s') = ram_corrections (ddb s) ∧
  ∃ m, ResourceLimits.add_pending_ram_usage (rl (sdb (ddb s))) account delta = Ok m ∧ rl (sdb (ddb s')) = m.
Proof.
  unfold call_add_ram_usage, add_ram_usage. intros Hc. apply bind_Ok in Hc as ([t db] & Ha & Hc).
  apply bind_Ok in Ha as (m & Hm & Ha). simplify_eq. cbn. split_and!; [done|done|by exists m].
Qed.

Lemma trx_size_row id from sid pay delay trx :
  gto_size + u32 (Z.of_nat (length (pack_trx trx))) = row_size (new_gto c id from sid pay delay trx).
Proof. unfold row_size; cbn. unfold u32. rewrite Z.mod_small; [done|]. pose proof (pack_trx_size trx). lia. Qed.

(** The new row takes the place of the old one, or is added *)
Lemma replace_billed others e s g sid pay delay trx s' :
  replace_deferred_transaction c e s g sid pay delay trx = Ok s' → billed others (ddb s) → g ∈ gtos (ddb s) →
  ∃ d id, billed others d ∧ create_row (gtos d) (new_gto c id (receiver e) sid pay delay trx) = Ok (gtos (ddb s')) ∧
    sdb (ddb s') = sdb d ∧ ram_corrections (ddb s') = ram_corrections d.
Proof.
  unfold replace_deferred_transaction. intros Hr Hb Hg. apply bind_Ok in Hr as (u & _ & Hr).
  apply bind_Ok in Hr as (s1 & Hs1 & Hr). apply bind_Ok in Hr as (l & Hl & Hr). injection Hr as <-.
  exists (MkDeferredDb (sdb (ddb s1)) (remove_row (gtos (ddb s)) g) (ram_corrections (ddb s1))).
  destruct (replace_deferred e).
  - apply call_add_ram_usage_Ok in Hs1 as (Hg1 & Hc1 & m & Ha & Hm). rewrite Hg1 in Hl. eexists.
    split_and!; [|exact Hl|done|done]. rewrite Hc1. by eapply billed_remove.
  - injection Hs1 as <-. eexists. split_and!; [|exact Hl|done|done]. exact (billed_correct others (ddb s) g Hb Hg).
Qed.

(** ** Steps of the table *)

(** What happens to the table and to the memory of accounts: the four operations, a charge
    of another component, and changes of the resource limits that leave the usage alone. *)
Inductive deferred_step : (Z → Z) * deferred_db → (Z → Z) * deferred_db → Prop :=
  | step_schedule_deferred o e s sid pay trx replace s' :
      schedule_deferred_transaction c check_authorization e s sid pay trx replace = Ok s' →
      deferred_step (o, ddb s) (o, ddb s')
  | step_cancel o s sid from s' b :
      cancel_deferred_transaction s sid from = Ok (s', b) → deferred_step (o, ddb s) (o, ddb s')
  | step_schedule_transaction o t d id delay trx t' d' r :
      schedule_transaction c t d id delay trx = Ok (t', d', r) → deferred_step (o, d) (o, d')
  | step_remove o d g d' n :
      g ∈ gtos d → remove_scheduled_transaction d g = Ok (d', n) → deferred_step (o, d) (o, d')
  | step_other o d account delta m :
      ResourceLimits.add_pending_ram_usage (rl (sdb d)) account delta = Ok m →
      - 2 ^ 63 ≤ delta < 2 ^ 63 → delta ≠ 0 → 0 ≤ o account + delta →
      deferred_step (o, d)
        (λ a, o a + (if account =? a then delta else 0), MkDeferredDb (set_rl (sdb d) m) (gtos d) (ram_corrections d))
  | step_limits o d db' :
      (∀ a, ram_of (rl db') a = ram_of (rl (sdb d)) a) →
      deferred_step (o, d) (o, MkDeferredDb db' (gtos d) (ram_corrections d)).

Lemma schedule_deferred_billed others e s sid pay trx replace s' :
  schedule_deferred_transaction c check_authorization e s sid pay trx replace = Ok s' →
  billed others (ddb s) → billed others (ddb s').
Proof.
  unfold schedule_deferred_transaction. intros Hs Hb. do 2 (apply bind_Ok in Hs as (? & _ & Hs)).
  apply bind_Ok in Hs as (trx' & _ & Hs). apply bind_Ok in Hs as (t & _ & Hs). apply bind_Ok in Hs as (? & _ & Hs).
  apply bind_Ok in Hs as (s1 & Hs1 & Hs). apply bind_Ok in Hs as (? & _ & Hs). cbn [ddb gtos] in Hs1.
  assert (∃ d id, billed others d ∧
    create_row (gtos d) (new_gto c id (receiver e) sid pay (delay_sec trx' * 1000000) trx') = Ok (gtos (ddb s1)) ∧
    sdb (ddb s1) = sdb d ∧ ram_corrections (ddb s1) = ram_corrections d) as (d & id & Hd & Hl & Hdb & Hc).
  { destruct (find_sender (gtos (ddb s)) (receiver e) sid) as [g|] eqn:Ef.
    - apply find_elem in Ef as [Hg _]. apply bind_Ok in Hs1 as (? & _ & Hs1). by eapply replace_billed in Hs1.
    - apply bind_Ok in Hs1 as (l & Hl & Hs1). injection Hs1 as <-. by exists (ddb s), (id_of trx'). }
  apply call_add_ram_usage_Ok in Hs as (Hg' & Hc' & m & Ha & Hm).
  rewrite (trx_size_row id (receiver e) sid pay (delay_sec trx' * 1000000) trx') in Ha. rewrite Hdb in Ha.
  pose proof (billed_create others d _ _ m (sdb (ddb s')) Hd Hl (pack_trx_size _) Ha Hm) as Hfin.
  destruct s' as [t' [db' l' r'] ds']. cbn in *. by rewrite Hg', Hc', Hc.
Qed.

Lemma cancel_billed others s sid from s' b :
  cancel_deferred_transaction s sid from = Ok (s', b) → billed others (ddb s) → billed others (ddb s').
Proof.
  unfold cancel_deferred_transaction. intros Hs Hb.
  destruct (find_sender (gtos (ddb s)) from sid) as [g|] eqn:Ef; [|by injection Hs as <- <-].
  apply find_elem in Ef as [Hg _]. apply bind_Ok in Hs as (s1 & Hs1 & Hs). injection Hs as <- <-.
  apply call_add_ram_usage_Ok in Hs1 as (Hg1 & Hc1 & m & Ha & Hm).
  pose proof (billed_remove others (ddb s) g m (sdb (ddb s1)) Hb Hg Ha Hm) as Hfin. cbn. unfold set_gtos.
  by rewrite Hg1, Hc1.
Qed.

Lemma schedule_transaction_billed others t d id delay trx t' d' r :
  schedule_transaction c t d id delay trx = Ok (t', d', r) → billed others d → billed others d'.
Proof.
  unfold schedule_transaction. intros Hs Hb. apply bind_Ok in Hs as (t1 & _ & Hs).
  apply bind_Ok in Hs as (l & Hl & Hs). apply bind_Ok in Hs as ([t2 db] & Ha & Hs). injection Hs as <- <- <-.
  unfold add_ram_usage in Ha. apply bind_Ok in Ha as (m & Ha & Heq). injection Heq as <- <-.
  rewrite (trx_size_row id 0 (transaction_id_to_sender_id id) (first_authorizer trx) delay trx) in Ha.
  eapply (billed_create others d _ l m); [done|exact Hl|apply pack_trx_size|exact Ha|done].
Qed.

Lemma remove_scheduled_billed others d g d' n :
  remove_scheduled_transaction d g = Ok (d', n) → g ∈ gtos d → billed others d → billed others d'.
Proof.
  unfold remove_scheduled_transaction. intros Hs Hg Hb. apply bind_Ok in Hs as (m & Ha & Hs). injection Hs as <- <-.
  by eapply billed_remove.
Qed.

Lemma deferred_step_billed o d o' d' : deferred_step (o, d) (o', d') → billed o d → billed o' d'.
Proof.
  inversion 1 as [? ? ? ? ? ? ? ? Hs|? ? ? ? ? ? Hs|? ? ? ? ? ? ? ? ? Hs|? ? g ? ? Hg Hs|? ? account delta m Ha Hd Hne Ho|? ? db' Hr];
    subst; intros Hb.
  - by eapply schedule_deferred_billed.
  - by eapply cancel_billed.
  - by eapply schedule_transaction_billed.
  - by eapply remove_scheduled_billed.
  - destruct Hb as [Hu Hp Hc Ho' Hr He]. apply add_pending_ram in Ha as [Hm1 Hm2]; [|done|done|done].
    constructor; cbn [gtos ram_corrections]; try done.
    + intros a. specialize (Ho' a). destruct (Z.eqb_spec account a) as [<-|]; lia.
    + intros a. unfold ram; cbn. rewrite Hm1. specialize (He a). unfold ram in He. rewrite He. lia.
  - destruct Hb as [Hu Hp Hc Ho' Hr' He]. constructor; try done; intros a; unfold ram; cbn; rewrite Hr; [apply Hr'|apply He].
Qed.

(** A row can always be retired: its payer has been billed for it *)
Lemma remove_scheduled_succeeds others d g :
  billed others d → g ∈ gtos d →
  ∃ d', remove_scheduled_transaction d g = Ok (d', - row_size g) ∧ gtos d' = remove_row (gtos d) g ∧ g ∉ gtos d'.
Proof.
  intros [Hu Hp Hc Ho Hr He] Hg. pose proof (row_size_pos g) as Hpos.
  pose proof (row_size_bound g (proj1 (Forall_forall _ _) Hp g Hg)) as Hb.
  pose proof (held_elem _ _ Hg) as Hh. pose proof (corrected_nonneg (ram_corrections d) (payer g) Hc) as Hcn.
  specialize (He (payer g)). specialize (Hr (payer g)). specialize (Ho (payer g)).
  unfold ram, ram_of in He, Hr. destruct (ResourceLimits.usages (rl (sdb d)) !! payer g) as [u|] eqn:Eu; cbn in He, Hr; [|lia].
  unfold remove_scheduled_transaction.
  rewrite (ResourceLimits.add_pending_ram_usage_exact _ _ u) by (done || lia).
  rewrite bool_decide_eq_true_2 by lia. 
  assert (g ∉ remove_row (gtos d) g) as Hnot by (unfold remove_row; rewrite list_elem_of_filter; naive_solver).
  eexists. split_and!; [reflexivity|reflexivity|exact Hnot].
Qed.

End billed.

(** ** An example

    The contract of account 7 defers a transaction and replaces it while replacement is not
    yet corrected. *)

#[local] Instance sample_format : TransactionFormat := {
  pack_trx trx := [delay_sec trx];
  pack_trx_size trx := eq_refl;
  id_of trx := 100 + delay_sec trx;
  transaction_id_to_sender_id id := id;
  pack_generation g := [sender_trx_id g; context_sender_id g; context_sender g];
  unpack_generation l := match l with [t; i; s] => Ok (MkGeneration t i s) | _ => Throw std_exception end }.

Definition sample_control : control :=
  MkControl sample_configuration false false true 1000 ∅ [] [] (λ _, (0, 0)) 1000000 77 ∅ ∅.

Definition sample_permission : Permissions.permission_object unit :=
  Permissions.MkPermission 0 0 7 1 0 {| Authority.threshold := 1; Authority.keys := []; Authority.accounts := []; Authority.waits := [] |}.

Definition sample_deferred_db : deferred_db (key := unit) :=
  MkDeferredDb (MkDb sample_manager (Permissions.MkAuthDb {[ 1 := sample_permission ]} 2 ∅ 0 ∅) {[ 7 ]} ∅) [] [].

Definition sample_call : call_state :=
  MkCall (MkContext 1000 time_point_maximum 0 0 false false true [7] [] 10000 0 (lim sample_context) (bill sample_context)
            (fees sample_context)) sample_deferred_db ∅.

Definition delayed (sec : Z) : transaction :=
  MkTrx 0 0 0 0 0 sec [] [{| Action.account := 7; Action.name := 1; Action.authorization := [Action.MkLevel 7 1]; Action.data := [] |}] [].

Definition sample_env : environment :=
  MkEnv 7 {| Action.account := 7; Action.name := 1; Action.authorization := [Action.MkLevel 7 1]; Action.data := [] |}
    false 99 true ∅ false false true false false false false (0, 0).

Definition sample_calls : result exn (call_state (key := unit)) :=
  s ← schedule_deferred_transaction sample_control (λ _ _ _ _, Ok tt) sample_env sample_call 3 7 (delayed 10) false;
  schedule_deferred_transaction sample_control (λ _ _ _ _, Ok tt) sample_env s 3 7 (delayed 20) true.

Example sample_calls_replace :
  match sample_calls with
  | Ok s => (λ g, (trx_id g, packed_trx g)) <$> gtos (ddb s) = [(110, [20])] ∧ ram (ddb s) 7 = 546 ∧
            ram_corrections (ddb s) = [(7, 273)]
  | Throw _ => False
  end.
Proof. vm_compute. done. Qed.

End Deferred.
