(* ===== verification/TransactionPush.v ===== *)
(** * Pushing transactions

    How [controller.cpp] applies a transaction to the pending block: [push_transaction] for
    input and implicit transactions, with the fee transaction of the early chain,
    [push_scheduled_transaction] for deferred ones, with the error handler of the sender
    ([apply_onerror]) and the charge of a failure; receipts, restore points and sessions.
    What a transaction context does (TransactionContext.v, ActionExecution.v, TxFee.v,
    Authorization.v) are the operations of the class [Engine], which change a context and the
    database and may throw half way. *)

From S2P Require Import Prelude.
From S2P Require Import Exceptions.
From S2P Require Import Name.
From S2P Require Import Asset.
From S2P Require Import Action.
From S2P Require Import ChainConfig.
From S2P Require Import TxFee.
From S2P Require Import Usage.
From S2P Require Import Database.
From S2P Require Import ResourceLimits.
From S2P Require Import Permissions.
From S2P Require Import TransactionContext.
From S2P Require Import Deferred.

Local Open Scope Z_scope.

Module TransactionPush.
Import TransactionContext Deferred.

(** ** Receipts and the pending block *)

Inductive status_enum := executed | soft_fail | hard_fail | delayed | expired.

#[global] Instance status_enum_eq_dec : EqDecision status_enum.
Proof. solve_decision. Defined.

Record transaction_receipt := MkReceipt {
  r_trx : Z;
  status : status_enum;
  cpu_usage_us : Z;
  net_usage_words : Z }.

(** The parts of [building_block] that transactions change; [A] are action receipts. *)
Record building_block (A : Type) := MkBlock {
  _pending_trx_metas : list Z;
  _pending_trx_receipts : list transaction_receipt;
  _actions : list A }.
Arguments MkBlock {A} _ _ _.
Arguments _pending_trx_metas {A} _.
Arguments _pending_trx_receipts {A} _.
Arguments _actions {A} _.

(** The parts of [transaction_trace] set by the controller; the receipt of an implicit
    transaction has no identifier, here 0. *)
Record transaction_trace := MkTrace {
  receipt : option transaction_receipt;
  except : option exn;
  account_ram_delta : option (Z * Z);
  failed_dtrx_trace : option exn }.

(** A transaction with its field [fee] *)
Record signed_transaction := MkSigned { trn : transaction; fee : Asset.asset }.

(** [transaction_metadata] *)
Record transaction_metadata := MkMeta {
  m_id : Z;
  signed : signed_transaction;
  implicit : bool;
  unprunable_size : Z;
  prunable_size : Z;
  recovered_keys : list Z;
  signature_cpu_usage : Z }.

(** The arguments of a new transaction context *)
Record context_args := MkArgs {
  a_trx : signed_transaction;
  a_id : Z;
  a_start : Z;
  a_leeway : option Z;
  a_deadline : Z;
  a_explicit_billed_cpu_time : bool;
  a_billed_cpu_time_us : Z;
  a_enforce_whiteblacklist : bool }.

(** ** The operations of other components *)

(** An operation on a context and the database keeps its changes when it throws. *)
Definition M (D T X : Type) : Type := T * D → (T * D) * result exn X.

Definition bindM {D T X Y} (m : M D T X) (k : X → M D T Y) : M D T Y :=
  λ s, let '(s, r) := m s in match r with Ok v => k v s | Throw e => (s, Throw e) end.
Definition liftM {D T X} (f : T → D → result exn X) : M D T X := λ s, (s, f s.1 s.2).
Definition setM {D T} (f : T → T) : M D T unit := λ s, ((f s.1, s.2), Ok tt).

(** An operation leaves a part of the database as it is *)
Definition keeps {D T X Y} (f : D → Y) (m : M D T X) : Prop := ∀ s, f (m s).1.2 = f s.2.

Class Engine (key D T A : Type) := {
  deferred_of : D → deferred_db (key := key);
  set_deferred : D → deferred_db (key := key) → D;
  get_set_deferred d x : deferred_of (set_deferred d x) = x;
  check_chainstatus : D → result exn bool;
  config_on_chain : D → gmap Z ConfigOnChain.config_data_object;
  fee_table : D → TxFee.fee_table;

  new_context : context_args → T;
  init_for_input_trx : Z → Z → bool → M D T unit;
  init_for_implicit_trx : M D T unit;
  init_for_deferred_trx : Z → M D T unit;
  set_enforce_whiteblacklist : bool → T → T;
  set_delay : Z → T → T;
  set_published : Z → T → T;
  check_authorization : list Action.action → list Z → Z → M D T unit;
  make_limit_by_contract : Asset.asset → M D T unit;
  make_fee_act : Asset.asset → M D T unit;
  exec : M D T unit;
  execute_onerror : Action.action → Z → M D T unit;
  finalize : M D T unit;

  billed_cpu_time_us : T → Z;
  net_usage : T → Z;
  executed_actions : T → list A;
  pseudo_start : T → Z;
  update_billed_cpu_time : T → Z;
  initial_objective_duration_limit : T → Z;
  update_account_usage : M D T unit;
  max_cpu_billed_accounts_can_pay : T → D → result exn Z;
  add_transaction_usage : Z → M D T unit;

  unpack_trx : list Z → result exn signed_transaction;
  unpack_asset : list Z → result exn Asset.asset;
  pack_onerror : Z → list Z → list Z;
  pack_fee_paramter : TxFee.fee_paramter → list Z;

  init_input_config u p b : keeps config_on_chain (init_for_input_trx u p b);
  init_implicit_config : keeps config_on_chain init_for_implicit_trx;
  check_authorization_config l k d : keeps config_on_chain (check_authorization l k d);
  make_limit_config f : keeps config_on_chain (make_limit_by_contract f);
  make_fee_config f : keeps config_on_chain (make_fee_act f);
  update_usage_deferred : keeps (λ d, gtos (deferred_of d)) update_account_usage;
  add_usage_deferred cpu : keeps (λ d, gtos (deferred_of d)) (add_transaction_usage cpu) }.

Section push.
Context {key D T A : Type} `{Engine key D T A}.
Implicit Types (d : D) (t : T) (b : building_block A).

(** What is read of the controller and its configuration *)
Record environment := MkEnv {
  ctl : TransactionContext.control;
  skip_db_sessions : bool;
  skip_auth_check : bool;
  block_incomplete : bool;
  speculative : bool;
  head_block_num : Z;
  head_block_id : Z * Z;
  head_producer : Z;
  no_duplicate_deferred_id : bool;
  replay_head_time : option Z;
  subjective_cpu_leeway : option Z;
  sig_cpu_bill_pct : Z;
  sender_bypass_whiteblacklist : gset Z }.

Context (e : environment).

Local Notation "x ↞ m ; k" := (bindM m (λ x, k)) (at level 100, m at next level, k at level 200, right associativity).

Definition pending_time : Z := pending_block_time (ctl e).

(** [is_func_has_open] of [onfee_action] *)
Definition is_onfee_act d : bool :=
  ConfigOnChain.is_func_has_open (config_on_chain d) (head_block_num e) (Name.N "f.onfeeact") 0.

(** ** Checks *)

Definition default_trx_size : Z := 100 * 1024.

Definition check_action d (actions : list Action.action) : result exn unit :=
  chain_status ← check_chainstatus d;
  let trx_size_limit := ConfigOnChain.get_num_config_on_chain (config_on_chain d) (Name.N "res.trxsize") default_trx_size in
  foldM (λ _ a,
    _ ← assert_that (Z.of_nat (length (Action.data a)) <? u64 trx_size_limit) invalid_action_args_exception;
    assert_that (negb chain_status || (Action.name a =? Name.N "setemergency") || (Action.name a =? Name.N "onblock")
                 || (Action.name a =? Name.N "onfee") || (Action.name a =? Name.N "voteagefee"))
      invalid_action_args_exception) tt actions.

Definition failure_is_subjective (x : exn) : bool :=
  existsb (λ y, bool_decide (code x = code y))
    [subjective_block_production_exception; block_net_usage_exceeded; greylist_net_usage_exceeded;
     block_cpu_usage_exceeded; greylist_cpu_usage_exceeded; deadline_exception; leeway_deadline_exception;
     actor_whitelist_exception; actor_blacklist_exception; contract_whitelist_exception; contract_blacklist_exception;
     action_blacklist_exception; key_blacklist_exception; sig_variable_size_limit_exception].

Definition scheduled_failure_is_subjective (x : exn) : bool :=
  bool_decide (code x = code tx_cpu_usage_exceeded) || failure_is_subjective x.

(** Exceptions that make the block bad are thrown on *)
Definition bad_block (x : exn) : bool :=
  is_a x disallowed_transaction_extensions_bad_block_exception || is_a x protocol_feature_bad_block_exception.

(** [get_from_extensions] of the extension [fee_limit]; without one the limit stays 0. *)
Fixpoint get_fee_limit (exts : list (Z * list Z)) : result exn Asset.asset :=
  match exts with
  | [] => Ok (Asset.core_asset 0)
  | (id, data) :: exts => if id =? 1 then unpack_asset data else get_fee_limit exts
  end.

(** ** Receipts *)

Definition push_receipt b (trx : Z) (s : status_enum) (cpu net : Z) : building_block A * transaction_receipt :=
  let r := MkReceipt trx s (u32 cpu) (u32 (net / 8)) in
  (MkBlock (_pending_trx_metas b) (_pending_trx_receipts b ++ [r]) (_actions b), r).

Definition append_meta b (id : Z) : building_block A :=
  MkBlock (_pending_trx_metas b ++ [id]) (_pending_trx_receipts b) (_actions b).
Definition append_actions b (l : list A) : building_block A :=
  MkBlock (_pending_trx_metas b) (_pending_trx_receipts b) (_actions b ++ l).

(** ** Input and implicit transactions *)

(** The time the context starts at, earlier by what the signatures cost *)
Definition start_time (m : transaction_metadata) (now : Z) (explicit_billed : bool) : Z :=
  if explicit_billed then now
  else
    let already := ChainConfig.Config.EOS_PERCENT (signature_cpu_usage m) (sig_cpu_bill_pct e) in
    if now <? already then 0 else now - already.

(** The part of [push_transaction] before the actions run *)
Definition prepare (m : transaction_metadata) : M D T unit :=
  let trx := trn (signed m) in
  _ ↞ (if implicit m then
         _ ↞ init_for_implicit_trx; setM (set_enforce_whiteblacklist false)
       else
         init_for_input_trx (unprunable_size m) (prunable_size m)
           (match replay_head_time e with Some h => expiration trx * 1000000 <=? h | None => false end));
  _ ↞ setM (set_delay (delay_sec trx * 1000000));
  _ ↞ (if negb (skip_auth_check e) && negb (implicit m)
       then check_authorization (actions trx) (recovered_keys m) (delay_sec trx * 1000000)
       else liftM (λ _ _, Ok tt));
  if implicit m then liftM (λ _ _, Ok tt)
  else
    onfee ↞ liftM (λ _ d, Ok (is_onfee_act d));
    if negb onfee then
      fee_ext ↞ liftM (λ _ d,
        fee_required ← TxFee.get_required_fee_transaction (fee_table d) (actions trx);
        enough ← Asset.geb (fee (signed m)) fee_required;
        _ ← assert_that enough transaction_exception;
        Asset.sub (fee (signed m)) fee_required);
      make_limit_by_contract fee_ext
    else
      fee_limit ↞ liftM (λ _ _, get_fee_limit (transaction_extensions trx));
      make_fee_act fee_limit.

(** The execution of the actions and the bill *)
Definition run_actions (explicit_billed : bool) (billed : Z) : M D T unit :=
  _ ↞ liftM (λ _ _, assert_that (negb explicit_billed || negb (billed =? 0)) transaction_exception);
  _ ↞ exec;
  finalize.

(** The database when the session of the context is not squashed *)
Definition undone d d' : D := if skip_db_sessions e then d' else d.

(** A transaction whose execution failed, or was undone *)
Definition failed d (b : building_block A) (d' : D) (x : exn) : (D * building_block A) * result exn transaction_trace :=
  ((undone d d', b), if bad_block x then Throw x else Ok (MkTrace None (Some x) None None)).

(** The receipt, the metadata and the actions of a transaction in the pending block *)
Definition accept (m : transaction_metadata) (st : T * D) (x : option exn) d b
    : (D * building_block A) * result exn transaction_trace :=
  let '(t, d') := st in
  let '(b', r) :=
    if implicit m then (b, MkReceipt 0 executed (u32 (billed_cpu_time_us t)) (u32 (net_usage t / 8)))
    else
      let '(b', r) := push_receipt b (m_id m) (if delay_sec (trn (signed m)) =? 0 then executed else delayed)
                        (billed_cpu_time_us t) (net_usage t) in
      (append_meta b' (m_id m), r) in
  let b' := append_actions b' (executed_actions t) in
  let tr := MkTrace (Some r) x None None in
  if negb (speculative e) && block_incomplete e then ((undone d d', b), Ok tr) else ((d', b'), Ok tr).

(** [push_transaction] but for the fee transaction of the early chain *)
Definition push_prepared (m : transaction_metadata) (now deadline billed : Z) (explicit_billed : bool) d b
    : (D * building_block A) * result exn transaction_trace :=
  let t := new_context (MkArgs (signed m) (m_id m) (start_time m now explicit_billed)
             (if block_incomplete e then subjective_cpu_leeway e else None) deadline explicit_billed billed true) in
  match prepare m (t, d) with
  | ((t, d'), Throw x) => failed d b d' x
  | ((t, d'), Ok _) =>
      match run_actions explicit_billed billed (t, d') with
      | ((t, d''), Throw x) => if is_onfee_act d' then failed d b d'' x else accept m (t, d'') (Some x) d b
      | (st, Ok _) => accept m st None d b
      end
  end.

(** [get_on_fee_transaction] *)
Definition implicit_header (a : Action.action) : transaction :=
  if no_duplicate_deferred_id e then MkTrx 0 0 0 0 0 0 [] [a] []
  else MkTrx (u32 ((pending_time + 999999) / 1000000)) (u16 (head_block_id e).1) (u32 (head_block_id e).2) 0 0 0 [] [a] [].

Definition get_on_fee_transaction (f : Asset.asset) (actor : Z) : signed_transaction :=
  MkSigned (implicit_header (Action.MkAction Config.system_account_name (Name.N "onfee")
              [Action.MkLevel actor Config.active_name]
              (pack_fee_paramter {| TxFee.fp_name := actor; TxFee.fp_fee := f; TxFee.fp_producer := head_producer e |})))
    (Asset.core_asset 0).

(** The metadata of the fee transaction; [id] is the hash of the transaction. *)
Definition on_fee_meta (id : Z) (s : signed_transaction) : transaction_metadata := MkMeta id s true 0 0 [] 0.

Definition default_min_transaction_cpu_usage : Z := 100.

(** The checks of [push_transaction] ahead of its [try] *)
Definition push_checks (m : transaction_metadata) (deadline : Z) d : result exn unit :=
  _ ← assert_that (negb (deadline =? 0)) transaction_exception;
  check_action d (actions (trn (signed m))).

(** [push_transaction]; [None] where [trn.actions[0].authorization[0]] is out of range.  The
    fee transaction has the identifier [onf_id]. *)
Definition push_transaction (m : transaction_metadata) (onf_id now deadline billed : Z) (explicit_billed : bool) d b
    : option ((D * building_block A) * result exn transaction_trace) :=
  match push_checks m deadline d with
  | Throw x => Some ((d, b), Throw x)
  | Ok _ =>
      if negb (implicit m) && negb (is_onfee_act d) then
        match actions (trn (signed m)) with
        | {| Action.authorization := u :: _ |} :: _ =>
            let onf := on_fee_meta onf_id (get_on_fee_transaction (fee (signed m)) (Action.actor u)) in
            Some match push_checks onf time_point_maximum d with
                 | Throw _ => ((d, b), Throw transaction_exception)
                 | Ok _ =>
                     match push_prepared onf now time_point_maximum default_min_transaction_cpu_usage true d b with
                     | ((d, b), Ok {| except := None |}) => push_prepared m now deadline billed explicit_billed d b
                     | (s, _) => (s, Throw transaction_exception)
                     end
                 end
        | _ => None
        end
      else Some (push_prepared m now deadline billed explicit_billed d b)
  end.

(** ** Deferred transactions *)

Definition sender_avoids_whitelist_blacklist_enforcement (s : Z) : bool :=
  bool_decide (sender_bypass_whiteblacklist e ≠ ∅) && bool_decide (s ∈ sender_bypass_whiteblacklist e).

(** The steps of a deferred transaction up to its bill *)
Definition run_scheduled (enforce : bool) (g : generated_transaction) (s : signed_transaction) : M D T unit :=
  let trx := trn s in
  onfee ↞ liftM (λ _ d, Ok (is_onfee_act d));
  _ ↞ liftM (λ _ d, check_action d (actions trx));
  _ ↞ init_for_deferred_trx (published g);
  _ ↞ (if negb onfee then make_limit_by_contract (fee s)
       else
         fee_limit ↞ liftM (λ _ _, get_fee_limit (transaction_extensions trx));
         make_fee_act fee_limit);
  _ ↞ (if enforce && block_incomplete e
       then liftM (λ _ _, check_actor_list (ctl e) (actors_of (actions trx)))
       else liftM (λ _ _, Ok tt));
  _ ↞ exec;
  finalize.

(** The transaction that delivers the action [onerror] to the sender *)
Definition onerror_action (g : generated_transaction) : Action.action :=
  Action.MkAction Config.system_account_name (Name.N "onerror") [Action.MkLevel (sender g) Config.active_name]
    (pack_onerror (sender_id g) (packed_trx g)).

(** [apply_onerror]: the changed database and block with a receipt, or the exception with the
    time to bill.  The context has its own session, since checks are required. *)
Definition apply_onerror (g : generated_transaction) (etrx_id start deadline billed : Z) (explicit_billed enforce : bool) d b
    : result exn ((D * building_block A * transaction_receipt) + (exn * Z)) :=
  let a := onerror_action g in
  let t := new_context (MkArgs (MkSigned (implicit_header a) (Asset.core_asset 0)) etrx_id start None deadline
             explicit_billed billed enforce) in
  match (_ ↞ init_for_implicit_trx;
         _ ↞ setM (set_published (published g));
         _ ↞ execute_onerror a (sender g);
         finalize) (t, d) with
  | ((t, d'), Ok _) =>
      let '(b, r) := push_receipt b (trx_id g) soft_fail (billed_cpu_time_us t) (net_usage t) in
      Ok (inl (d', append_actions b (executed_actions t), r))
  | ((t, _), Throw x) => if bad_block x then Throw x else Ok (inr (x, update_billed_cpu_time t))
  end.

(** The charge of a deferred transaction that failed objectively: what it was billed *)
Definition bill_failure (cpu : Z) (explicit_billed : bool) : M D T Z :=
  cpu ↞ (if explicit_billed then liftM (λ _ _, Ok cpu)
         else
           _ ↞ update_account_usage;
           limit ↞ liftM max_cpu_billed_accounts_can_pay;
           liftM (λ t _, Ok (u32 (Z.min (Z.min cpu limit) (initial_objective_duration_limit t)))));
  _ ↞ add_transaction_usage cpu;
  liftM (λ _ _, Ok cpu).

(** What follows when the execution and the error handler, if any, have failed with [x]: a
    charge and the receipt of a hard failure, or nothing where the failure is subjective *)
Definition conclude_failure (g : generated_transaction) (t : T) (x : exn) (first : option exn) (cpu : Z)
    (explicit_billed : bool) (delta : Z) d (removed : D) b
    : (D * building_block A) * result exn transaction_trace :=
  let subjective := if explicit_billed then failure_is_subjective x else scheduled_failure_is_subjective x in
  if negb subjective then
    match bill_failure cpu explicit_billed (t, removed) with
    | ((_, d'), Throw y) => ((undone d d', b), Throw y)
    | ((_, d'), Ok cpu) =>
        let '(b, r) := push_receipt b (trx_id g) hard_fail cpu 0 in
        ((d', b), Ok (MkTrace (Some r) (Some x) (Some (payer g, delta)) first))
    end
  else ((undone d removed, b), Ok (MkTrace None (Some x) None first)).

(** The part of [push_scheduled_transaction] after the row [g] is removed from [d], which
    leaves [removed] *)
Definition push_removed (g : generated_transaction) (onerr_id now deadline billed : Z) (explicit_billed : bool)
    (delta : Z) d (removed : D) b : (D * building_block A) * result exn transaction_trace :=
  match (_ ← assert_that (delay_until g <=? pending_time) transaction_exception; unpack_trx (packed_trx g)) with
  | Throw x => ((undone d removed, b), Throw x)
  | Ok s =>
      if gto_expiration g <? pending_time then
        let '(b, r) := push_receipt b (trx_id g) expired billed 0 in
        ((removed, b), Ok (MkTrace (Some r) None (Some (payer g, delta)) None))
      else
        let enforce := if sender g =? 0 then true else negb (sender_avoids_whitelist_blacklist_enforcement (sender g)) in
        let t0 := new_context (MkArgs s (trx_id g) now (Some 0) deadline explicit_billed billed enforce) in
        match run_scheduled enforce g s (t0, removed) with
        | ((t, d'), Ok _) =>
            let '(b, r) := push_receipt b (trx_id g) executed (billed_cpu_time_us t) (net_usage t) in
            ((d', append_actions b (executed_actions t)), Ok (MkTrace (Some r) None (Some (payer g, delta)) None))
        | ((t, _), Throw x) =>
            if bad_block x then ((undone d removed, b), Throw x)
            else
              let subjective := if explicit_billed then failure_is_subjective x else scheduled_failure_is_subjective x in
              if negb (sender g =? 0) && negb subjective then
                match apply_onerror g onerr_id (pseudo_start t) deadline billed explicit_billed enforce removed b with
                | Throw y => ((undone d removed, b), Throw y)
                | Ok (inl (d', b, r)) => ((d', b), Ok (MkTrace (Some r) None (Some (payer g, delta)) (Some x)))
                | Ok (inr (y, cpu)) => conclude_failure g t y (Some x) cpu explicit_billed delta d removed b
                end
              else conclude_failure g t x None (update_billed_cpu_time t) explicit_billed delta d removed b
        end
  end.

(** [push_scheduled_transaction] by the identifier of the transaction *)
Definition push_scheduled_transaction (id onerr_id now deadline billed : Z) (explicit_billed : bool) d b
    : (D * building_block A) * result exn transaction_trace :=
  match find_trx_id (gtos (deferred_of d)) id with
  | None => ((d, b), Throw unknown_transaction_exception)
  | Some g =>
      match remove_scheduled_transaction (deferred_of d) g with
      | Throw x => ((d, b), Throw x)
      | Ok (x, delta) => push_removed g onerr_id now deadline billed explicit_billed delta d (set_deferred d x) b
      end
  end.

(** ** The transactions of a block

    The loop of [apply_block] over the receipts of a block. A receipt is for a packed
    transaction, here its metadata, or for the identifier of a deferred one. [other_id] is the
    identifier of the fee or error transaction that pushing it may make, [at_time] the clock. *)
Record block_entry := MkEntry {
  what : transaction_metadata + Z;
  expected : transaction_receipt;
  other_id : Z;
  at_time : Z }.

(** [operator==] of [transaction_receipt_header] *)
Definition same_header (r r' : transaction_receipt) : bool :=
  bool_decide (status r = status r') && (cpu_usage_us r =? cpu_usage_us r') && (net_usage_words r =? net_usage_words r').

Definition push_entry (x : block_entry) d b : option ((D * building_block A) * result exn transaction_trace) :=
  match what x with
  | inl m => push_transaction m (other_id x) (at_time x) time_point_maximum (cpu_usage_us (expected x)) true d b
  | inr id => Some (push_scheduled_transaction id (other_id x) (at_time x) time_point_maximum (cpu_usage_us (expected x)) true d b)
  end.

(** The checks of one receipt after its transaction, with the block before and after *)
Definition check_receipt (x : block_entry) (tr : transaction_trace) d b b' : result exn unit :=
  let can_fail := bool_decide (status (expected x) = hard_fail) && match what x with inr _ => true | inl _ => false end in
  _ ← match except tr with
      | Some y => if negb can_fail && is_onfee_act d then Throw y else Ok tt
      | None => Ok tt
      end;
  _ ← assert_that (0 <? Z.of_nat (length (_pending_trx_receipts b'))) block_validate_exception;
  _ ← assert_that (Z.of_nat (length (_pending_trx_receipts b')) =? Z.of_nat (length (_pending_trx_receipts b)) + 1)
        block_validate_exception;
  match last (_pending_trx_receipts b') with
  | Some r => assert_that (same_header r (expected x)) block_validate_exception
  | None => Throw block_validate_exception
  end.

Fixpoint apply_receipts (l : list block_entry) d b : option ((D * building_block A) * result exn unit) :=
  match l with
  | [] => Some ((d, b), Ok tt)
  | x :: l =>
      match push_entry x d b with
      | None => None
      | Some (s, Throw y) => Some (s, Throw y)
      | Some ((d', b'), Ok tr) =>
          match check_receipt x tr d' b b' with
          | Throw y => Some ((d', b'), Throw y)
          | Ok _ => apply_receipts l d' b'
          end
      end
  end.

(** ** Operations in sequence *)

Lemma keeps_bind {X Y Z'} (f : D → Z') (m : M D T X) (k : X → M D T Y) :
  keeps f m → (∀ x, keeps f (k x)) → keeps f (bindM m k).
Proof.
  intros Hm Hk s. unfold bindM. specialize (Hm s). destruct (m s) as [s1 [x|x]]; cbn in *; [by rewrite Hk|done].
Qed.

Lemma keeps_lift {X Z'} (f : D → Z') (g : T → D → result exn X) : keeps f (liftM g).
Proof. by intros s. Qed.

Lemma keeps_set {Z'} (f : D → Z') (g : T → T) : keeps f (setM g).
Proof. by intros s. Qed.

(** The configuration is as before when the actions start *)
Lemma prepare_config m : keeps config_on_chain (prepare m).
Proof.
  unfold prepare. apply keeps_bind; [|intros _; apply keeps_bind; [apply keeps_set|intros _; apply keeps_bind; [|intros _]]].
  - destruct (implicit m); [apply keeps_bind; [apply init_implicit_config|intros; apply keeps_set]|apply init_input_config].
  - destruct (_ && _); [apply check_authorization_config|apply keeps_lift].
  - destruct (implicit m); [apply keeps_lift|]. apply keeps_bind; [apply keeps_lift|]. intros [|]; cbn [negb];
      (apply keeps_bind; [apply keeps_lift|]); intros ?; [apply make_fee_config|apply make_limit_config].
Qed.

Lemma prepare_onfee m t d st r : prepare m (t, d) = (st, r) → is_onfee_act st.2 = is_onfee_act d.
Proof.
  intros Hp. pose proof (prepare_config m (t, d)) as Hc. rewrite Hp in Hc. cbn in Hc. unfold is_onfee_act. by rewrite Hc.
Qed.

(** ** Input transactions *)

(** A transaction in the pending block *)
Definition added (m : transaction_metadata) (r : transaction_receipt) b b' : Prop :=
  (∃ l, _actions b' = _actions b ++ l) ∧
  if implicit m then _pending_trx_receipts b' = _pending_trx_receipts b ∧ _pending_trx_metas b' = _pending_trx_metas b
  else _pending_trx_receipts b' = _pending_trx_receipts b ++ [r] ∧ _pending_trx_metas b' = _pending_trx_metas b ++ [m_id m] ∧
       r_trx r = m_id m ∧ status r = (if delay_sec (trn (signed m)) =? 0 then executed else delayed).

(** Nothing has changed, or the transaction has been added *)
Definition pushed (m : transaction_metadata) d b d' b' (r : result exn transaction_trace) : Prop :=
  match r with
  | Ok {| receipt := Some r; except := None |} =>
      if negb (speculative e) && block_incomplete e then d' = d ∧ b' = b else added m r b b'
  | _ => d' = d ∧ b' = b
  end.

Lemma failed_pushed m d b d1 x d' b' r :
  skip_db_sessions e = false → failed d b d1 x = ((d', b'), r) → pushed m d b d' b' r.
Proof.
  unfold failed, undone. intros -> [= <- <- <-]. destruct (bad_block x); by cbn.
Qed.

Lemma accept_pushed m st d b d' b' r :
  skip_db_sessions e = false → accept m st None d b = ((d', b'), r) → pushed m d b d' b' r.
Proof.
  intros Hs. unfold accept, undone. destruct st as [t d1]. rewrite Hs.
  destruct (implicit m) eqn:Ei; destruct (negb (speculative e) && block_incomplete e) eqn:Eb; cbn;
    intros Hp; injection Hp as <- <- <-; cbn; rewrite Eb; try done; unfold added; rewrite Ei; cbn; split; by eauto.
Qed.

Lemma push_prepared_pushed m now deadline billed ex d b d' b' r :
  skip_db_sessions e = false → is_onfee_act d = true →
  push_prepared m now deadline billed ex d b = ((d', b'), r) → pushed m d b d' b' r.
Proof.
  intros Hs Ho. unfold push_prepared. destruct (prepare _ _) as [[t1 d1] [[]|x]] eqn:Ep.
  - destruct (run_actions _ _ _) as [[t2 d2] [[]|x]]; [by apply accept_pushed|].
    apply prepare_onfee in Ep. cbn in Ep. rewrite Ep, Ho. by apply failed_pushed.
  - by apply failed_pushed.
Qed.


(** C38: before that, the fee of a transaction is paid by a transaction of its own, pushed
    before the authorization of the transaction is checked.  When the transaction then fails
    in its checks, the fee transaction remains in the database and in the pending block. *)
Theorem early_fee_kept m onf now deadline billed ex d b u us a acts d1 b1 tr (st : T * D) x :
  is_onfee_act d = false → implicit m = false → push_checks m deadline d = Ok tt →
  actions (trn (signed m)) = a :: acts → Action.authorization a = u :: us →
  let fee_trx := on_fee_meta onf (get_on_fee_transaction (fee (signed m)) (Action.actor u)) in
  push_checks fee_trx time_point_maximum d = Ok tt →
  push_prepared fee_trx now time_point_maximum default_min_transaction_cpu_usage true d b = ((d1, b1), Ok tr) →
  except tr = None → skip_db_sessions e = false → bad_block x = false →
  prepare m (new_context (MkArgs (signed m) (m_id m) (start_time m now ex)
               (if block_incomplete e then subjective_cpu_leeway e else None) deadline ex billed true), d1) = (st, Throw x) →
  push_transaction m onf now deadline billed ex d b = Some ((d1, b1), Ok (MkTrace None (Some x) None None)).
Proof.
  intros Ho Hi Hc Ha Hu fee_trx Hc' Hf Hex Hs Hb Hp. unfold push_transaction. rewrite Hc, Hi, Ho, Ha. cbn [negb andb].
  destruct a as [acc nm auths dat]. cbn in Hu. subst auths.
  fold fee_trx. rewrite Hc', Hf. destruct tr as [rc ex' dl fd]. cbn in Hex. subst ex'.
  unfold push_prepared. rewrite Hp. destruct st as [t d2]. unfold failed, undone. by rewrite Hs, Hb.
Qed.

(** ** Deferred transactions *)

Definition subjective (ex : bool) (x : exn) : bool :=
  if ex then failure_is_subjective x else scheduled_failure_is_subjective x.

(** A deferred transaction [g] that is retired from [d] with the receipt [r] *)
Record retired (g : generated_transaction) (ex : bool) d b d' b' (tr : transaction_trace) (r : transaction_receipt) : Prop := {
  retired_trx : r_trx r = trx_id g;
  retired_receipts : _pending_trx_receipts b' = _pending_trx_receipts b ++ [r];
  retired_metas : _pending_trx_metas b' = _pending_trx_metas b;
  retired_actions : ∃ l, _actions b' = _actions b ++ l;
  retired_delta : account_ram_delta tr = Some (payer g, - row_size g);
  retired_ready : delay_until g ≤ pending_time;
  retired_expired : status r = expired ↔ gto_expiration g < pending_time;
  retired_status :
    match status r with
    | executed => except tr = None ∧ failed_dtrx_trace tr = None
    | soft_fail => except tr = None ∧ sender g ≠ 0 ∧ ∃ x, failed_dtrx_trace tr = Some x ∧ subjective ex x = false
    | hard_fail => _actions b' = _actions b ∧ gtos (deferred_of d') = remove_row (gtos (deferred_of d)) g ∧
                   ∃ x, except tr = Some x ∧ subjective ex x = false
    | expired => _actions b' = _actions b ∧ gtos (deferred_of d') = remove_row (gtos (deferred_of d)) g ∧ except tr = None
    | delayed => False
    end }.

Definition scheduled_outcome (g : generated_transaction) (ex : bool) d b d' b' (r : result exn transaction_trace) : Prop :=
  match r with
  | Throw _ => d' = d ∧ b' = b
  | Ok tr =>
      match receipt tr with
      | Some rc => retired g ex d b d' b' tr rc
      | None => d' = d ∧ b' = b ∧ ∃ x, except tr = Some x ∧ subjective ex x = true
      end
  end.

Lemma bill_failure_gtos cpu ex : keeps (λ d, gtos (deferred_of d)) (bill_failure cpu ex).
Proof.
  unfold bill_failure. apply keeps_bind.
  - destruct ex; [apply keeps_lift|]. apply keeps_bind; [apply update_usage_deferred|]. intros _.
    apply keeps_bind; [apply keeps_lift|]. intros ?. apply keeps_lift.
  - intros ?. apply keeps_bind; [apply add_usage_deferred|]. intros _. apply keeps_lift.
Qed.

Lemma conclude_failure_outcome g t x first cpu ex d removed b d' b' r :
  skip_db_sessions e = false → conclude_failure g t x first cpu ex (- row_size g) d removed b = ((d', b'), r) →
  gtos (deferred_of removed) = remove_row (gtos (deferred_of d)) g → delay_until g ≤ pending_time ≤ gto_expiration g →
  scheduled_outcome g ex d b d' b' r.
Proof.
  intros Hs Hc Hr Ht. unfold conclude_failure, undone in Hc. rewrite Hs in Hc. fold (subjective ex x) in Hc.
  destruct (subjective ex x) eqn:Ex; cbn [negb] in Hc.
  - injection Hc as <- <- <-. cbn. by eauto.
  - pose proof (bill_failure_gtos cpu ex (t, removed)) as Hk. cbn in Hk.
    destruct (bill_failure cpu ex (t, removed)) as [[t1 d1] [cpu1|y]]; injection Hc as <- <- <-; [|done].
    cbn in Hk |- *. constructor; cbn; try done; [by exists []; rewrite app_nil_r|lia|split; [done|lia]|].
    split_and!; [done|by rewrite Hk|by eauto].
Qed.

Lemma push_removed_outcome g onerr now deadline billed ex d removed b d' b' r :
  skip_db_sessions e = false →
  push_removed g onerr now deadline billed ex (- row_size g) d removed b = ((d', b'), r) →
  gtos (deferred_of removed) = remove_row (gtos (deferred_of d)) g →
  scheduled_outcome g ex d b d' b' r.
Proof.
  intros Hs Hp Hr. unfold push_removed, undone in Hp. rewrite Hs in Hp.
  destruct (mbind _ _) as [s|x] eqn:Eu; [|by injection Hp as <- <- <-].
  apply bind_Ok in Eu as (u & Hd%assert_that_Ok%Z.leb_le & _).
  destruct (Z.ltb_spec (gto_expiration g) pending_time) as [He|He].
  { injection Hp as <- <- <-. cbn. constructor; cbn; try done; [by exists []; rewrite app_nil_r]. }
  destruct (run_scheduled _ _ _ _) as [[t d1] [[]|x]].
  { injection Hp as <- <- <-. cbn. constructor; cbn; try done; [by eauto|split; [done|lia]]. }
  destruct (bad_block x); [by injection Hp as <- <- <-|]. fold (subjective ex x) in Hp.
  destruct (negb (sender g =? 0) && negb (subjective ex x)) eqn:Ee; [|by eapply conclude_failure_outcome].
  unfold apply_onerror in Hp. destruct (bindM _ _ _) as [[t2 d2] [[]|y]].
  - injection Hp as <- <- <-. cbn. constructor; cbn; try done; [by eauto|split; [done|lia]|].
    apply andb_true_iff in Ee as [E1 E2]. split_and!; [done|lia|]. exists x. split; [done|]. by destruct (subjective ex x).
  - destruct (bad_block y); [by injection Hp as <- <- <-|by eapply conclude_failure_outcome].
Qed.

(** ** The receipts of a block *)

(** At most one receipt is added, for the transaction [id] *)
Definition one_receipt (id : Z) b b' : Prop :=
  _pending_trx_receipts b' = _pending_trx_receipts b ∨
  ∃ r, _pending_trx_receipts b' = _pending_trx_receipts b ++ [r] ∧ r_trx r = id.

Lemma push_prepared_receipts m now deadline billed ex d b d' b' r :
  push_prepared m now deadline billed ex d b = ((d', b'), r) →
  if implicit m then _pending_trx_receipts b' = _pending_trx_receipts b else one_receipt (m_id m) b b'.
Proof.
  unfold push_prepared, failed. intros Hp.
  assert (∀ st x, accept m st x d b = ((d', b'), r) →
    if implicit m then _pending_trx_receipts b' = _pending_trx_receipts b else one_receipt (m_id m) b b') as Hacc.
  { intros [t d1] x. unfold accept, one_receipt.
    destruct (implicit m); destruct (negb _ && _); cbn; intros Ha; injection Ha as <- <- <-; cbn; eauto. }
  destruct (prepare _ _) as [[t1 d1] [[]|x]]; [|injection Hp as <- <- <-; destruct (implicit m); by try left].
  destruct (run_actions _ _ _) as [[t2 d2] [[]|x]]; [by eapply Hacc|].
  destruct (is_onfee_act d1); [injection Hp as <- <- <-; destruct (implicit m); by try left|by eapply Hacc].
Qed.

Lemma push_transaction_receipts m onf now deadline billed ex d b d' b' r :
  push_transaction m onf now deadline billed ex d b = Some ((d', b'), r) → implicit m = false → one_receipt (m_id m) b b'.
Proof.
  unfold push_transaction. intros Hp Hi. destruct (push_checks m deadline d); [|injection Hp as <- <- <-; by left].
  rewrite Hi in Hp. cbn [negb andb] in Hp. destruct (is_onfee_act d); cbn [negb] in Hp.
  { injection Hp as Hp. apply push_prepared_receipts in Hp. by rewrite Hi in Hp. }
  destruct (actions _) as [|[acc nm [|u us] dat] acts]; try done. injection Hp as Hp.
  destruct (push_checks _ _ _); [|injection Hp as <- <- <-; by left].
  destruct (push_prepared (on_fee_meta _ _) _ _ _ _ _ _) as [[d1 b1] r1] eqn:E1.
  apply push_prepared_receipts in E1. cbn [implicit on_fee_meta] in E1.
  destruct r1 as [[rc [y|] dl fd]|y]; try (injection Hp as <- <- <-; by left).
  apply push_prepared_receipts in Hp. rewrite Hi in Hp. unfold one_receipt in *. by rewrite E1 in Hp.
Qed.

Lemma conclude_failure_receipts g t x first cpu ex delta d removed b d' b' r :
  conclude_failure g t x first cpu ex delta d removed b = ((d', b'), r) → one_receipt (trx_id g) b b'.
Proof.
  unfold conclude_failure, one_receipt. intros Hc. destruct (negb _); [|injection Hc as <- <- <-; by left].
  destruct (bill_failure _ _ _) as [[t1 d1] [c1|y]]; injection Hc as <- <- <-; cbn; eauto.
Qed.

Lemma push_scheduled_receipts id onerr now deadline billed ex d b d' b' r :
  push_scheduled_transaction id onerr now deadline billed ex d b = ((d', b'), r) → one_receipt id b b'.
Proof.
  unfold push_scheduled_transaction. intros Hp.
  destruct (find_trx_id _ id) as [g|] eqn:Eg; [|injection Hp as <- <- <-; by left].
  apply find_elem in Eg as [_ <-%Z.eqb_eq].
  destruct (remove_scheduled_transaction _ g) as [[x delta]|y]; [|injection Hp as <- <- <-; by left].
  unfold push_removed in Hp. destruct (mbind _ _) as [s|y]; [|injection Hp as <- <- <-; by left].
  destruct (_ <? _); [injection Hp as <- <- <-; right; by eexists|].
  destruct (run_scheduled _ _ _ _) as [[t d1] [[]|y]]; [injection Hp as <- <- <-; right; by eexists|].
  destruct (bad_block y); [injection Hp as <- <- <-; by left|].
  destruct (negb (_ =? _) && _); [|by eapply conclude_failure_receipts].
  unfold apply_onerror in Hp. destruct (bindM _ _ _) as [[t2 d2] [[]|z]]; [injection Hp as <- <- <-; right; by eexists|].
  destruct (bad_block z); [injection Hp as <- <- <-; by left|by eapply conclude_failure_receipts].
Qed.

Lemma same_header_eq r r' : same_header r r' = true → r_trx r = r_trx r' → r = r'.
Proof.
  destruct r, r'. unfold same_header. cbn. rewrite !andb_true_iff. intros [[Hs Hc] Hn] ->.
  apply bool_decide_eq_true in Hs. f_equal; [done|lia|lia].
Qed.

(** An entry of a block as the block describes it: an input transaction, or the identifier of
    a deferred one *)
Definition entry_ok (x : block_entry) : Prop :=
  match what x with
  | inl m => implicit m = false ∧ r_trx (expected x) = m_id m
  | inr id => r_trx (expected x) = id
  end.

(** C16: a block whose transactions a node has applied gives the node exactly the receipts of
    the block, in their order: every transaction added one receipt, which has the transaction's
    identifier and the status, processor time and words of the receipt in the block. This holds
    before and after fees by action open, and for blocks in which that changes half way. *)
Theorem block_receipts_reproduced l d b d' b' :
  apply_receipts l d b = Some ((d', b'), Ok tt) → Forall entry_ok l →
  _pending_trx_receipts b' = _pending_trx_receipts b ++ (expected <$> l).
Proof.
  revert d b. induction l as [|x l IH]; intros d b Ha Hok; cbn [apply_receipts] in Ha.
  { injection Ha as <- <-. by rewrite app_nil_r. }
  apply Forall_cons in Hok as [Hx Hok]. destruct (push_entry x d b) as [[[d1 b1] [tr|y]]|] eqn:Ep; try done.
  destruct (check_receipt x tr d1 b b1) as [[]|] eqn:Ec; [|done].
  assert (one_receipt (r_trx (expected x)) b b1) as Hone.
  { unfold push_entry, entry_ok in *. destruct (what x) as [m|id].
    - destruct Hx as [Hi ->]. by eapply push_transaction_receipts.
    - rewrite Hx. injection Ep as Ep. by eapply push_scheduled_receipts. }
  unfold check_receipt in Ec. apply bind_Ok in Ec as (u1 & _ & Ec). apply bind_Ok in Ec as (u2 & _ & Ec).
  apply bind_Ok in Ec as (u3 & Hlen%assert_that_Ok%Z.eqb_eq & Ec).
  destruct Hone as [Heq|(r & Heq & Hr)]; rewrite Heq in Hlen, Ec; [lia|].
  rewrite last_snoc in Ec. apply assert_that_Ok in Ec. apply same_header_eq in Ec as ->; [|done].
  rewrite (IH _ _ Ha Hok), Heq, <- app_assoc. done.
Qed.
End push.

(** ** An example

    The database counts the actions that have run; a transaction without keys is not
    authorized, and one of the account 66 fails. *)

Record sample_state := MkSample {
  sample_deferred : deferred_db (key := unit);
  sample_config : gmap Z ConfigOnChain.config_data_object;
  actions_run : Z }.

Definition nothing : M sample_state context_args unit := liftM (λ _ _, Ok tt).

Definition sample_run : M sample_state context_args unit := λ s,
  let '(t, d) := s in
  ((t, MkSample (sample_deferred d) (sample_config d) (actions_run d + 1)),
   if first_authorizer (trn (a_trx t)) =? 66 then Throw eosio_assert_message_exception else Ok tt).

#[local] Instance sample_engine : Engine unit sample_state context_args Z.
Proof.
  refine {|
    deferred_of := sample_deferred;
    set_deferred d x := MkSample x (sample_config d) (actions_run d);
    check_chainstatus _ := Ok false;
    config_on_chain := sample_config;
    fee_table _ := ∅;
    new_context a := a;
    init_for_input_trx _ _ _ := nothing;
    init_for_implicit_trx := nothing;
    init_for_deferred_trx _ := nothing;
    set_enforce_whiteblacklist _ t := t;
    set_delay _ t := t;
    set_published _ t := t;
    check_authorization _ keys _ := liftM (λ _ _, assert_that (negb (bool_decide (keys = []))) unsatisfied_authorization);
    make_limit_by_contract _ := nothing;
    make_fee_act _ := nothing;
    exec := sample_run;
    execute_onerror _ _ := sample_run;
    finalize := nothing;
    billed_cpu_time_us t := a_billed_cpu_time_us t;
    net_usage _ := 128;
    executed_actions t := [a_id t];
    pseudo_start t := a_start t;
    update_billed_cpu_time t := a_billed_cpu_time_us t;
    initial_objective_duration_limit _ := 150000;
    update_account_usage := nothing;
    max_cpu_billed_accounts_can_pay _ _ := Ok 1000;
    add_transaction_usage _ := nothing;
    unpack_trx l := Ok (MkSigned (MkTrx 0 0 0 0 0 0 [] ((λ n, Action.MkAction n 1 [Action.MkLevel n 1] []) <$> l) []) (Asset.core_asset 0));
    unpack_asset _ := Ok (Asset.core_asset 0);
    pack_onerror _ l := l;
    pack_fee_paramter p := [TxFee.fp_name p] |}; try done.
Defined.

Definition sample_block : building_block Z := MkBlock [] [] [].

Definition sample_environment : environment :=
  MkEnv TransactionContext.sample_control false false true true 10 (0, 0) 5 false None None 0 ∅.

(** Fees are charged by action from block 1 on *)
Definition onfee_open : gmap Z ConfigOnChain.config_data_object :=
  {[ Name.N "f.onfeeact" := {| ConfigOnChain.num := 1; ConfigOnChain.key := 0; ConfigOnChain.fee := Asset.core_asset 0 |} ]}.

Definition sample_db (config : gmap Z ConfigOnChain.config_data_object) (l : list generated_transaction) : sample_state :=
  MkSample (MkDeferredDb (TransactionContext.sample_db) l []) config 0.

(** A transaction of account 7 that nobody signed *)
Definition unsigned : transaction_metadata :=
  MkMeta 42 (MkSigned (MkTrx 0 0 0 0 0 0 [] [Action.MkAction 7 1 [Action.MkLevel 7 1] []] []) (Asset.core_asset 0)) false 0 0 [] 0.


(** The fee transaction of account 7 has run although account 7 has not signed. *)
Lemma early_fee_kept_witness :
  ∃ d b, push_transaction sample_environment unsigned 43 5000 time_point_maximum 0 false (sample_db ∅ []) sample_block
         = Some ((d, b), Ok (MkTrace None (Some unsatisfied_authorization) None None)) ∧
         actions_run d = 1 ∧ _actions b = [43].
Proof.
  set (onf := on_fee_meta 43 (get_on_fee_transaction sample_environment (Asset.core_asset 0) 7)).
  exists (MkSample (sample_deferred (sample_db ∅ [])) ∅ 1), (MkBlock [] [] [43]). split_and!; [|reflexivity|reflexivity].
  eapply (early_fee_kept sample_environment unsigned 43 5000 time_point_maximum 0 false (sample_db ∅ []) sample_block
    (Action.MkLevel 7 1) [] (Action.MkAction 7 1 [Action.MkLevel 7 1] []) []); vm_compute; reflexivity.
Defined.

(** A deferred transaction of the account that fails, delayed by its user *)
Definition failing : generated_transaction := MkGto 42 0 42 7 900000 2000000 800000 [66].

Definition with_memory : sample_state :=
  MkSample (MkDeferredDb (TransactionContext.set_rl TransactionContext.sample_db
    (ResourceLimits.set_usages TransactionContext.sample_manager
       {[ 7 := ResourceLimits.MkUsage Usage.empty_accumulator Usage.empty_accumulator 1000 ]})) [failing] []) onfee_open 0.


(** A block with that transaction *)
Lemma block_receipts_reproduced_witness :
  ∃ d b, apply_receipts sample_environment [MkEntry (inr 42) (MkReceipt 42 hard_fail 300 0) 44 5000] with_memory sample_block
         = Some ((d, b), Ok tt) ∧ _pending_trx_receipts b = [MkReceipt 42 hard_fail 300 0].
Proof.
  destruct (apply_receipts sample_environment [MkEntry (inr 42) (MkReceipt 42 hard_fail 300 0) 44 5000] with_memory sample_block)
    as [[[d b] r]|] eqn:E; [|vm_compute in E; discriminate E].
  assert (r = Ok tt) as ->.
  { apply (f_equal (λ o, from_option snd (Throw std_exception) o)) in E. cbn [from_option snd] in E. rewrite <- E. by vm_compute. }
  exists d, b. split; [reflexivity|].
  apply (block_receipts_reproduced sample_environment _ _ _ _ _ E). repeat constructor.
Defined.
End TransactionPush.
