(* ===== verification/AbiSerializer.v ===== *)
(** * The abi serializer

    Models [libraries/chain/abi_serializer.cpp] with [abi_def.hpp]: reading an abi into the
    tables of a serializer, its validation, the resolution of type names, and the conversion
    of values to and from bytes.  Variants, the built-in types and the encoding of sizes are
    code of fc: classes and records with the laws of their documentation.  The limit on the
    depth of recursion is kept: a scope that the code enters is a step of the fuel.  The limit
    on time and the paths of the error messages are left out.

    Theorems: validation ends, and an accepted abi has resolved types, structs whose bases
    end, and no unknown type ([abi_validated]); what the serializer packs it unpacks again, to
    a value with the same bytes, if it may nest twice as deep ([packed_value_unpacks]). *)

From S2P Require Import Prelude.
From S2P Require Import Exceptions.
From stdpp Require Import strings sorting.

Local Open Scope Z_scope.

Module AbiSerializer.

(** ** Abi definitions *)

Notation type_name := string (only parsing).
Notation field_name := string (only parsing).

Record type_def := MkTypeDef { new_type_name : type_name; td_type : type_name }.

Record field_def := MkField { f_name : field_name; f_type : type_name }.

Record struct_def := MkStruct { st_name : type_name; base : type_name; fields : list field_def }.

Record action_def := MkAction { ad_name : Z; ad_type : type_name; ricardian_contract : string }.

Record table_def := MkTable {
  tb_name : Z;
  index_type : type_name;
  key_names : list field_name;
  key_types : list type_name;
  tb_type : type_name }.

Record clause_pair := MkClause { cl_id : string; body : string }.

Record error_message := MkError { error_code : Z; error_msg : string }.

Record variant_def := MkVariant { v_name : type_name; types : list type_name }.

Record abi_def := MkAbi {
  version : string;
  abi_types : list type_def;
  abi_structs : list struct_def;
  abi_actions : list action_def;
  abi_tables : list table_def;
  ricardian_clauses : list clause_pair;
  abi_error_messages : list error_message;
  abi_extensions : list (Z * list Z);
  abi_variants : list variant_def }.

(** ** Strings *)

Definition starts_with (s p : string) : bool := String.prefix p s.

Definition ends_with (s p : string) : bool :=
  let n := String.length s in let m := String.length p in
  Nat.leb m n && String.eqb (String.substring (n - m) m s) p.

(** [type.substr(0, type.size() - n)] *)
Definition drop_last (n : nat) (s : string) : string := String.substring 0 (String.length s - n) s.

Definition is_array (type : type_name) : bool := ends_with type "[]".
Definition is_optional (type : type_name) : bool := ends_with type "?".

Definition fundamental_type (type : type_name) : type_name :=
  if is_array type then drop_last 2 type
  else if is_optional type then drop_last 1 type
  else type.

Definition _remove_bin_extension (type : type_name) : type_name :=
  if ends_with type "$" then drop_last 1 type else type.

Definition is_integer (type : type_name) : bool := starts_with type "uint" || starts_with type "int".

(** ** Names in error messages *)

Definition output_name (str : string) (shorten : bool) (max_length : nat) : string :=
  let min_length := (3 + 2 * 4)%nat in
  let preferred_min_length := (3 + 2 * 6)%nat in
  let max_length := Nat.max max_length min_length in
  if negb shorten || Nat.leb (String.length str) max_length then str
  else
    let tail := if Nat.ltb max_length preferred_min_length then (4 + (max_length - min_length) / 2)%nat else 6%nat in
    String.append (String.substring 0 (max_length - 3 - tail) str)
      (String.append "..." (String.substring (String.length str - tail) tail str)).

Definition maybe_shorten (short_path : bool) (str : string) : string :=
  if short_path then output_name str true 64 else str.

Definition limit_size (str : string) : string := output_name str false 64.

Lemma substring_length n m t : (n + m ≤ String.length t)%nat → String.length (String.substring n m t) = m.
Proof.
  revert n m. induction t as [|c t IH]; intros [|n] [|m] Hl; cbn in *; try lia; try done.
  - f_equal. apply IH. lia.
  - apply IH. lia.
  - apply IH. lia.
Qed.

Lemma append_length t t' : String.length (String.append t t') = (String.length t + String.length t')%nat.
Proof. induction t as [|c t IH]; [done|]. simpl. by f_equal. Qed.

(** A shortened name has exactly the length allowed, which is never less than eleven. *)
Lemma output_name_length str max_length :
  String.length (output_name str true max_length) = Nat.min (String.length str) (Nat.max max_length 11).
Proof.
  unfold output_name. cbn [negb orb]. change (3 + 2 * 4)%nat with 11%nat. change (3 + 2 * 6)%nat with 15%nat.
  destruct (Nat.leb_spec (String.length str) (Nat.max max_length 11)) as [|Hl]; [lia|].
  set (n := Nat.max max_length 11) in *. set (tail := if Nat.ltb n 15 then _ else _).
  assert (tail ≤ n - 3)%nat as Ht.
  { subst tail. destruct (Nat.ltb_spec n 15); [|lia]. pose proof (Nat.Div0.div_le_upper_bound (n - 11) 2 (n - 11)). lia. }
  rewrite !append_length, !substring_length; cbn [String.length]; lia.
Qed.

(** The names in most messages are not limited at all. *)
Lemma limit_size_unlimited str : limit_size str = str.
Proof. done. Qed.

(** ** Values *)

(** [fc::variant] and [fc::mutable_variant_object]: what the serializer uses of them. *)
Class FcVariant (V O : Type) := {
  null : V;
  is_null : V → bool;
  of_array : list V → V;
  get_array : V → option (list V);
  of_string : string → V;
  get_string : V → option string;
  of_object : O → V;
  get_object : V → option O;
  empty_object : O;
  object_set : string → V → O → O;
  object_get : O → string → option V;
  object_size : O → nat;
  as_bytes : V → result exn (list Z);

  is_null_null : is_null null = true;
  is_null_array l : is_null (of_array l) = false;
  is_null_object o : is_null (of_object o) = false;
  get_of_array l : get_array (of_array l) = Some l;
  get_of_string s : get_string (of_string s) = Some s;
  get_of_object o : get_object (of_object o) = Some o;
  object_get_set k v o k' : object_get (object_set k v o) k' = if decide (k = k') then Some v else object_get o k';
  object_size_set k v o : (0 < object_size (object_set k v o))%nat }.

(** [fc::unsigned_int] on a stream *)
Class VarUint := {
  pack_unsigned_int : Z → list Z;
  unpack_unsigned_int : list Z → result exn (Z * list Z);
  pack_unsigned_nonempty n : pack_unsigned_int n ≠ [];
  unpack_pack_unsigned n rest : 0 ≤ n < 2 ^ 32 → unpack_unsigned_int (pack_unsigned_int n ++ rest) = Ok (n, rest) }.

(** A pair of functions of [built_in_types]: the flags say whether the value is an array or
    optional. *)
Record builtin (V : Type) := MkBuiltin {
  unpack_function : list Z → bool → bool → result exn (V * list Z);
  pack_function : V → bool → bool → result exn (list Z) }.
Arguments MkBuiltin {V} _ _.
Arguments unpack_function {V} _ _ _ _.
Arguments pack_function {V} _ _ _ _.

Record abi_serializer (V : Type) := MkSerializer {
  typedefs : gmap string type_name;
  structs : gmap string struct_def;
  actions : gmap Z type_name;
  tables : gmap Z type_name;
  error_messages : gmap Z string;
  variants : gmap string variant_def;
  built_in_types : gmap string (builtin V) }.
Arguments MkSerializer {V} _ _ _ _ _ _ _.
Arguments typedefs {V} _.
Arguments structs {V} _.
Arguments actions {V} _.
Arguments tables {V} _.
Arguments error_messages {V} _.
Arguments variants {V} _.
Arguments built_in_types {V} _.

(** [max_recursion_depth]; a new context can enter one scope less, since [enter_scope] asserts
    that the depth it has reached is smaller. *)
Definition max_recursion_depth : nat := 32.
Definition new_context : nat := max_recursion_depth - 1.

(** The entries of a [std::map] in the order of the keys *)
Definition in_order {A} (m : gmap string A) : list (string * A) :=
  merge_sort (λ x y, Is_true (String.leb x.1 y.1)) (map_to_list m).
Definition in_name_order {A} (m : gmap Z A) : list (Z * A) :=
  merge_sort (λ x y, Is_true (x.1 <=? y.1)) (map_to_list m).

Section serializer.
Context {V O : Type} `{!FcVariant V O, !VarUint}.
Implicit Types (s : abi_serializer V) (type rtype : type_name) (d : nat).

(** ** Types *)

Definition is_builtin_type s type : bool := bool_decide (is_Some (built_in_types s !! type)).

Fixpoint resolve_loop s (i : nat) (t type : type_name) : type_name :=
  match i with
  | 0%nat => type
  | S i => match typedefs s !! t with
           | None => t
           | Some t' => resolve_loop s i t' type
           end
  end.

Definition resolve_type s type : type_name :=
  match typedefs s !! type with
  | Some t => resolve_loop s (size (typedefs s)) t type
  | None => type
  end.

Definition is_struct s type : bool := bool_decide (is_Some (structs s !! resolve_type s type)).

Definition get_struct s type : result exn struct_def :=
  match structs s !! resolve_type s type with
  | Some st => Ok st
  | None => Throw invalid_type_inside_abi
  end.

Fixpoint _is_type s d rtype : result exn bool :=
  match d with
  | 0%nat => Throw abi_recursion_depth_exception
  | S d =>
      let type := fundamental_type rtype in
      if is_builtin_type s type then Ok true
      else match typedefs s !! type with
           | Some t => _is_type s d t
           | None => Ok (bool_decide (is_Some (structs s !! type)) || bool_decide (is_Some (variants s !! type)))
           end
  end.

Definition is_type s type : result exn bool := _is_type s new_context type.

Definition get_action_type s (action : Z) : type_name := default "" (actions s !! action).
Definition get_table_type s (action : Z) : type_name := default "" (tables s !! action).
Definition get_error_message s (code : Z) : option string := error_messages s !! code.

(** ** Validation *)

(** The loop over the definitions of a type; [None] when the fuel is used up *)
Fixpoint typedef_loop s (fuel : nat) (types_seen : list type_name) (t : type_name) : option (result exn unit) :=
  match typedefs s !! t with
  | None => Some (Ok tt)
  | Some t' =>
      match fuel with
      | 0%nat => None
      | S fuel =>
          if bool_decide (t' ∈ types_seen) then Some (Throw abi_circular_def_exception)
          else typedef_loop s fuel (types_seen ++ [t']) t'
      end
  end.

Fixpoint base_loop s (fuel : nat) (types_seen : list type_name) (current : struct_def) : option (result exn unit) :=
  if String.eqb (base current) "" then Some (Ok tt)
  else match fuel with
       | 0%nat => None
       | S fuel =>
           match get_struct s (base current) with
           | Throw x => Some (Throw x)
           | Ok b =>
               if bool_decide (st_name b ∈ types_seen) then Some (Throw abi_circular_def_exception)
               else base_loop s fuel (types_seen ++ [st_name b]) b
           end
       end.

(** Fuel for one step per type; [abi_loops_end] shows that the default is never taken. *)
Definition validate_typedef s (t : string * type_name) : result exn unit :=
  default (Throw std_exception) (typedef_loop s (S (size (typedefs s))) [t.1; t.2] t.2).

Definition known s type : result exn unit :=
  b ← _is_type s new_context type; assert_that b invalid_type_inside_abi.

Definition validate_struct s (x : string * struct_def) : result exn unit :=
  _ ← default (Throw std_exception) (base_loop s (S (size (structs s))) [st_name x.2] x.2);
  foldM (λ _ field, known s (_remove_bin_extension (f_type field))) tt (fields x.2).

Definition validate s : result exn unit :=
  _ ← foldM (λ _ t, validate_typedef s t) tt (in_order (typedefs s));
  _ ← foldM (λ _ t, known s t.2) tt (in_order (typedefs s));
  _ ← foldM (λ _ x, validate_struct s x) tt (in_order (structs s));
  _ ← foldM (λ _ x, foldM (λ _ type, known s type) tt (types x.2)) tt (in_order (variants s));
  _ ← foldM (λ _ a, known s a.2) tt (in_name_order (actions s));
  foldM (λ _ t, known s t.2) tt (in_name_order (tables s)).

Definition add_typedef s (td : type_def) : result exn (abi_serializer V) :=
  b ← _is_type s new_context (new_type_name td);
  _ ← assert_that (negb b) duplicate_abi_type_def_exception;
  Ok (MkSerializer (<[new_type_name td := td_type td]> (typedefs s)) (structs s) (actions s) (tables s)
        (error_messages s) (variants s) (built_in_types s)).

Definition set_abi s (abi : abi_def) : result exn (abi_serializer V) :=
  _ ← assert_that (starts_with (version abi) "eosio::abi/1.") unsupported_abi_version_exception;
  let s := MkSerializer ∅ (foldl (λ m st, <[st_name st := st]> m) ∅ (abi_structs abi)) ∅ ∅ ∅ ∅ (built_in_types s) in
  s ← foldM add_typedef s (abi_types abi);
  let s := MkSerializer (typedefs s) (structs s)
             (foldl (λ m a, <[ad_name a := ad_type a]> m) ∅ (abi_actions abi))
             (foldl (λ m t, <[tb_name t := tb_type t]> m) ∅ (abi_tables abi))
             (foldl (λ m e, <[error_code e := error_msg e]> m) ∅ (abi_error_messages abi))
             (foldl (λ m v, <[v_name v := v]> m) ∅ (abi_variants abi)) (built_in_types s) in
  _ ← assert_that (bool_decide (size (typedefs s) = length (abi_types abi))) duplicate_abi_type_def_exception;
  _ ← assert_that (bool_decide (size (structs s) = length (abi_structs abi))) duplicate_abi_struct_def_exception;
  _ ← assert_that (bool_decide (size (actions s) = length (abi_actions abi))) duplicate_abi_action_def_exception;
  _ ← assert_that (bool_decide (size (tables s) = length (abi_tables abi))) duplicate_abi_table_def_exception;
  _ ← assert_that (bool_decide (size (error_messages s) = length (abi_error_messages abi))) duplicate_abi_err_msg_def_exception;
  _ ← assert_that (bool_decide (size (variants s) = length (abi_variants abi))) duplicate_abi_variant_def_exception;
  _ ← validate s;
  Ok s.

(** ** From bytes to values *)

(** Element after element of an array *)
Fixpoint unpack_array (f : list Z → result exn (V * list Z)) (n : nat) (stream : list Z) : result exn (list V * list Z) :=
  match n with
  | 0%nat => Ok ([], stream)
  | S n =>
      '(v, stream) ← f stream;
      _ ← assert_that (negb (is_null v)) unpack_exception;
      '(vars, stream) ← unpack_array f n stream;
      Ok (v :: vars, stream)
  end.

Fixpoint unpack_fields (f : type_name → list Z → result exn (V * list Z)) (encountered_extension : bool)
    (l : list field_def) (stream : list Z) (obj : O) : result exn (O * list Z) :=
  match l with
  | [] => Ok (obj, stream)
  | field :: l =>
      let extension := ends_with (f_type field) "$" in
      let encountered_extension := encountered_extension || extension in
      match stream with
      | [] =>
          if extension then unpack_fields f encountered_extension l stream obj
          else if encountered_extension then Throw abi_exception
          else Throw unpack_exception
      | _ =>
          '(v, stream) ← f (if extension then _remove_bin_extension (f_type field) else f_type field) stream;
          unpack_fields f encountered_extension l stream (object_set (f_name field) v obj)
      end
  end.

(** [fc::raw::unpack] of a [char] *)
Definition unpack_char (stream : list Z) : result exn (Z * list Z) :=
  match stream with
  | [] => Throw std_exception
  | c :: stream => Ok (c, stream)
  end.

Fixpoint _binary_to_variant s d type (stream : list Z) : result exn (V * list Z) :=
  match d with
  | 0%nat => Throw abi_recursion_depth_exception
  | S d =>
      let rtype := resolve_type s type in
      let ftype := fundamental_type rtype in
      match built_in_types s !! ftype with
      | Some b => rethrow_exceptions unpack_exception (unpack_function b stream (is_array rtype) (is_optional rtype))
      | None =>
          if is_array rtype then
            '(size, stream) ← rethrow_exceptions unpack_exception (unpack_unsigned_int stream);
            '(vars, stream) ← unpack_array (_binary_to_variant s d ftype) (Z.to_nat size) stream;
            Ok (of_array vars, stream)
          else if is_optional rtype then
            '(flag, stream) ← rethrow_exceptions unpack_exception (unpack_char stream);
            if flag =? 0 then Ok (null, stream) else _binary_to_variant s d ftype stream
          else
            match variants s !! rtype with
            | Some vd =>
                '(select, stream) ← rethrow_exceptions unpack_exception (unpack_unsigned_int stream);
                match types vd !! Z.to_nat select with
                | None => Throw unpack_exception
                | Some t =>
                    '(v, stream) ← _binary_to_variant s d t stream;
                    Ok (of_array [of_string t; v], stream)
                end
            | None =>
                '(mvo, stream) ← _binary_to_object s d rtype stream empty_object;
                _ ← assert_that (Nat.ltb 0 (object_size mvo)) unpack_exception;
                Ok (of_object mvo, stream)
            end
      end
  end
with _binary_to_object s d type (stream : list Z) (obj : O) : result exn (O * list Z) :=
  match d with
  | 0%nat => Throw abi_recursion_depth_exception
  | S d =>
      match structs s !! type with
      | None => Throw invalid_type_inside_abi
      | Some st =>
          '(obj, stream) ← (if String.eqb (base st) "" then Ok (obj, stream)
                            else _binary_to_object s d (resolve_type s (base st)) stream obj);
          unpack_fields (λ t, _binary_to_variant s d (resolve_type s t)) false (fields st) stream obj
      end
  end.

Definition binary_to_variant s type (binary : list Z) : result exn V :=
  '(v, _) ← _binary_to_variant s (new_context - 1) type binary; Ok v.

(** ** From values to bytes *)

(** A write to a stream of [cap] bytes, of which [ds] are written *)
Definition write (cap : Z) (ds bs : list Z) : result exn (list Z) :=
  if Z.of_nat (length ds + length bs) <=? cap then Ok (ds ++ bs) else Throw std_exception.

(** The fields of a struct from an object; [f] is given whether extensions stay allowed. *)
Fixpoint pack_fields (f : bool → type_name → V → list Z → result exn (list Z)) (extensions_allowed : bool) (vo : O)
    (disallow_additional_fields : bool) (l : list field_def) (ds : list Z) : result exn (list Z) :=
  match l with
  | [] => Ok ds
  | field :: l =>
      match object_get vo (f_name field) with
      | Some v =>
          if disallow_additional_fields then Throw pack_exception
          else
            ds ← f (extensions_allowed && match l with [] => true | _ => false end) (_remove_bin_extension (f_type field)) v ds;
            pack_fields f extensions_allowed vo disallow_additional_fields l ds
      | None =>
          if ends_with (f_type field) "$" && extensions_allowed then pack_fields f extensions_allowed vo true l ds
          else if disallow_additional_fields then Throw abi_exception
          else Throw pack_exception
      end
  end.

(** The same from the elements of an array *)
Fixpoint pack_elements (f : bool → type_name → V → list Z → result exn (list Z)) (extensions_allowed : bool)
    (l : list field_def) (va : list V) (ds : list Z) : result exn (list Z) :=
  match l with
  | [] => Ok ds
  | field :: l =>
      match va with
      | v :: va =>
          ds ← f (extensions_allowed && match l with [] => true | _ => false end) (_remove_bin_extension (f_type field)) v ds;
          pack_elements f extensions_allowed l va ds
      | [] => if ends_with (f_type field) "$" && extensions_allowed then Ok ds else Throw pack_exception
      end
  end.

Fixpoint find_type (t : type_name) (l : list type_name) : option nat :=
  match l with
  | [] => None
  | t' :: l => if String.eqb t' t then Some 0%nat else S <$> find_type t l
  end.

Fixpoint _variant_to_binary s (cap : Z) d (extensions_allowed : bool) type (var : V) (ds : list Z) : result exn (list Z) :=
  match d with
  | 0%nat => Throw abi_recursion_depth_exception
  | S d =>
      let rtype := resolve_type s type in
      let ftype := fundamental_type rtype in
      match built_in_types s !! ftype with
      | Some b => bs ← pack_function b var (is_array rtype) (is_optional rtype); write cap ds bs
      | None =>
          if is_array rtype then
            match get_array var with
            | None => Throw std_exception
            | Some vars =>
                ds ← write cap ds (pack_unsigned_int (u32 (Z.of_nat (length vars))));
                foldM (λ ds v, _variant_to_binary s cap d false ftype v ds) ds vars
            end
          else if is_optional rtype then
            ds ← write cap ds [if is_null var then 0 else 1];
            if is_null var then Ok ds else _variant_to_binary s cap d extensions_allowed ftype var ds
          else
            match variants s !! rtype with
            | Some vd =>
                match get_array var with
                | Some [v0; v1] =>
                    match get_string v0 with
                    | None => Throw pack_exception
                    | Some t =>
                        match find_type t (types vd) with
                        | None => Throw pack_exception
                        | Some i =>
                            ds ← write cap ds (pack_unsigned_int (u32 (Z.of_nat i)));
                            _variant_to_binary s cap d extensions_allowed t v1 ds
                        end
                    end
                | _ => Throw pack_exception
                end
            | None =>
                match structs s !! rtype with
                | None => Throw invalid_type_inside_abi
                | Some st =>
                    match get_object var, get_array var with
                    | Some vo, _ =>
                        ds ← (if String.eqb (base st) "" then Ok ds
                              else _variant_to_binary s cap d false (resolve_type s (base st)) var ds);
                        pack_fields (_variant_to_binary s cap d) extensions_allowed vo false (fields st) ds
                    | None, Some va =>
                        if String.eqb (base st) "" then pack_elements (_variant_to_binary s cap d) extensions_allowed (fields st) va ds
                        else Throw invalid_type_inside_abi
                    | None, None => Throw pack_exception
                    end
                end
            end
      end
  end.

Definition variant_to_binary s type (var : V) : result exn (list Z) :=
  _is_type s (new_context - 1) type ≫= λ b : bool,
  if b then _variant_to_binary s (1024 * 1024) (new_context - 1) true type var [] else as_bytes var.

(** ** Validation ends *)

(** The steps left to a loop that never meets a name twice *)
Definition unseen {A} (m : gmap string A) (seen : list string) : nat := size (dom m ∖ list_to_set seen).

Lemma unseen_step {A} (m : gmap string A) seen t x :
  m !! t = Some x → t ∉ seen → (unseen m (seen ++ [t]) < unseen m seen)%nat.
Proof. intros Ht%elem_of_dom_2 Hs. apply subset_size. set_solver. Qed.

Lemma typedef_loop_ends s fuel seen t :
  (unseen (typedefs s) seen < fuel)%nat → typedef_loop s fuel seen t ≠ None.
Proof.
  revert seen t. induction fuel as [|fuel IH]; [intros; lia|]. intros seen t Hf. cbn.
  destruct (typedefs s !! t) as [t'|] eqn:Ht; [|done]. case_bool_decide as Hin; [done|].
  destruct (typedefs s !! t') eqn:Ht'.
  - apply IH. pose proof (unseen_step _ seen t' _ Ht' Hin). lia.
  - destruct fuel; cbn; by rewrite Ht'.
Qed.

(** The key of a struct is its name. *)
Definition keyed s : Prop := map_Forall (λ k st, st_name st = k) (structs s).

Lemma get_struct_keyed s type st : keyed s → get_struct s type = Ok st →
  structs s !! st_name st = Some st ∧ resolve_type s type = st_name st.
Proof.
  unfold get_struct. intros Hk Hg. destruct (structs s !! _) as [st'|] eqn:E; [|done].
  injection Hg as ->. by rewrite <- (Hk _ _ E) in E |- *.
Qed.

Lemma base_loop_ends s fuel seen st :
  keyed s → (unseen (structs s) seen < fuel)%nat → base_loop s fuel seen st ≠ None.
Proof.
  intros Hk. revert seen st. induction fuel as [|fuel IH]; [intros; lia|]. intros seen st Hf. cbn.
  destruct (String.eqb _ _); [done|]. destruct (get_struct s (base st)) as [b|] eqn:Eb; [|done].
  case_bool_decide as Hin; [done|]. apply IH.
  apply get_struct_keyed in Eb as [Eb _]; [|done].
  pose proof (unseen_step _ seen (st_name b) _ Eb Hin). lia.
Qed.

Lemma unseen_le {A} (m : gmap string A) seen : (unseen m seen < S (size m))%nat.
Proof. unfold unseen. rewrite <- size_dom. apply Nat.lt_succ_r, subseteq_size. set_solver. Qed.

(** ** What a type is resolved to *)

(** [typedefs_end s n t]: at most [n] definitions lead from [t] to a type that is not defined. *)
Fixpoint typedefs_end s (n : nat) (t : type_name) : Prop :=
  match typedefs s !! t with
  | None => True
  | Some t' => match n with 0%nat => False | S n => typedefs_end s n t' end
  end.

Lemma resolve_loop_end s n t type : typedefs_end s n t → typedefs s !! resolve_loop s (S n) t type = None.
Proof.
  revert t. induction n as [|n IH]; intros t; cbn; destruct (typedefs s !! t) eqn:Ht; try done.
  intros Hn. apply IH in Hn. cbn in Hn. exact Hn.
Qed.

Lemma typedefs_end_mono s n m t : (n ≤ m)%nat → typedefs_end s n t → typedefs_end s m t.
Proof.
  revert m t. induction n as [|n IH]; intros m t Hm; destruct m; cbn; destruct (typedefs s !! t); try done; try lia.
  apply IH. lia.
Qed.

(** The loop of the validation, in which [t] is already among the types seen *)
Lemma typedef_loop_resolved s fuel seen t :
  t ∈ seen → typedef_loop s fuel seen t = Some (Ok tt) → typedefs_end s (unseen (typedefs s) seen + 1) t.
Proof.
  revert seen t. induction fuel as [|fuel IH]; intros seen t Hin; cbn.
  { rewrite Nat.add_comm. cbn. by destruct (typedefs s !! t). }
  rewrite (Nat.add_comm _ 1). cbn. destruct (typedefs s !! t) as [t'|] eqn:Ht; [|done].
  case_bool_decide as Hs; [done|]. intros Hl. destruct (typedefs s !! t') eqn:Ht'.
  - eapply typedefs_end_mono; [|apply (IH (seen ++ [t'])); [set_solver|done]].
    pose proof (unseen_step _ seen t' _ Ht' Hs). lia.
  - destruct (unseen _ _); cbn; by rewrite Ht'.
Qed.

Lemma resolve_type_end s t : (∀ k t', typedefs s !! k = Some t' → validate_typedef s (k, t') = Ok tt) →
  typedefs s !! resolve_type s t = None.
Proof.
  intros Hv. unfold resolve_type. destruct (typedefs s !! t) as [t'|] eqn:Ht; [|done].
  pose proof (Hv _ _ Ht) as Hl. unfold validate_typedef in Hl. cbn [fst snd] in Hl.
  destruct (typedef_loop s _ _ _) as [r|] eqn:El; [|done]. cbn in Hl. subst r.
  destruct (size (typedefs s)) as [|n] eqn:Hn; [by apply map_size_empty_inv in Hn; rewrite Hn in Ht|].
  apply resolve_loop_end. destruct (typedefs s !! t') as [t''|] eqn:Ht'; [|destruct n; cbn; by rewrite Ht'].
  assert (t ≠ t') as Hne.
  { intros <-. rewrite Ht in Ht'. injection Ht' as <-. cbn in El. rewrite Ht in El. by rewrite bool_decide_eq_true_2 in El by set_solver. }
  apply (typedefs_end_mono _ (unseen (typedefs s) [t; t'] + 1)); [|eapply typedef_loop_resolved; [set_solver|done]].
  assert (({[t; t']} : gset string) ⊆ dom (typedefs s)) as Hsub.
  { assert (t ∈ dom (typedefs s) ∧ t' ∈ dom (typedefs s)) by (rewrite !elem_of_dom; eauto). set_solver. }
  assert (size ({[t; t']} : gset string) = 2%nat) as H2 by (by rewrite size_union, !size_singleton by set_solver).
  unfold unseen. cbn [list_to_set]. rewrite union_empty_r_L.
  pose proof (subseteq_size _ _ Hsub) as Hle. rewrite size_difference, size_dom by done. rewrite size_dom in Hle. lia.
Qed.

(** ** An accepted abi *)

(** [derives s b n]: the struct [n] has the base [b]. *)
Definition derives s (b n : type_name) : Prop :=
  ∃ st, structs s !! n = Some st ∧ base st ≠ "" ∧ resolve_type s (base st) = b.

Record abi_wf s : Prop := {
  wf_resolved t : typedefs s !! resolve_type s t = None;
  wf_keyed : keyed s;
  wf_bases b n : derives s b n → is_Some (structs s !! b);
  wf_acyclic n : Acc (derives s) n;
  wf_typedefs k t : typedefs s !! k = Some t → _is_type s new_context t = Ok true;
  wf_fields k st f : structs s !! k = Some st → f ∈ fields st → _is_type s new_context (_remove_bin_extension (f_type f)) = Ok true;
  wf_variants k v t : variants s !! k = Some v → t ∈ types v → _is_type s new_context t = Ok true;
  wf_actions a t : actions s !! a = Some t → _is_type s new_context t = Ok true;
  wf_tables a t : tables s !! a = Some t → _is_type s new_context t = Ok true }.

Lemma in_order_lookup {A} (m : gmap string A) k x : m !! k = Some x → (k, x) ∈ in_order m.
Proof. unfold in_order. rewrite merge_sort_Permutation, elem_of_map_to_list. done. Qed.

Lemma in_name_order_lookup {A} (m : gmap Z A) k x : m !! k = Some x → (k, x) ∈ in_name_order m.
Proof. unfold in_name_order. rewrite merge_sort_Permutation, elem_of_map_to_list. done. Qed.

Lemma foldM_unit {A} (f : A → result exn unit) l u x : foldM (λ _ y, f y) tt l = Ok u → x ∈ l → f x = Ok tt.
Proof.
  induction l as [|y l IH]; [by intros _ ?%not_elem_of_nil|]. cbn. intros [[] [Hy Hl]]%bind_Ok.
  rewrite elem_of_cons. intros [->|Hx]; [done|by apply IH].
Qed.

Lemma known_Ok s t u : known s t = Ok u → _is_type s new_context t = Ok true.
Proof. unfold known. intros (b & Hb & Ha%assert_that_Ok)%bind_Ok. by subst. Qed.

(** A base loop that ends without finding a circle: every chain of bases from here ends. *)
Lemma base_loop_acc s fuel seen st :
  keyed s → structs s !! st_name st = Some st → base_loop s fuel seen st = Some (Ok tt) →
  Acc (derives s) (st_name st) ∧ (base st ≠ "" → is_Some (structs s !! resolve_type s (base st))).
Proof.
  intros Hk. revert seen st. induction fuel as [|fuel IH]; intros seen st Hst Hl; cbn [base_loop] in Hl;
    destruct (String.eqb_spec (base st) "") as [Hb|Hb]; try discriminate Hl.
  1,2: split; [|congruence]; constructor; intros b (st' & Hst' & Hb' & _); congruence.
  destruct (get_struct s (base st)) as [b|] eqn:Eb; [|discriminate Hl]. apply get_struct_keyed in Eb as [Eb Er]; [|exact Hk].
  case_bool_decide; [discriminate Hl|]. apply IH in Hl as [Hacc _]; [|exact Eb]. split; [|rewrite Er; eauto].
  constructor. intros b' (st' & Hst' & _ & <-). rewrite Hst in Hst'. injection Hst' as <-. by rewrite Er.
Qed.

Lemma validate_wf s u : keyed s → validate s = Ok u → abi_wf s.
Proof.
  intros Hk. unfold validate. intros (u1 & H1 & Hv)%bind_Ok. apply bind_Ok in Hv as (u2 & H2 & Hv).
  apply bind_Ok in Hv as (u3 & H3 & Hv). apply bind_Ok in Hv as (u4 & H4 & Hv). apply bind_Ok in Hv as (u5 & H5 & H6).
  assert (∀ k st, structs s !! k = Some st → Acc (derives s) k ∧ (base st ≠ "" → is_Some (structs s !! resolve_type s (base st)))) as Hbases.
  { intros k st Hst. pose proof (Hk _ _ Hst) as <-. pose proof (foldM_unit _ _ _ _ H3 (in_order_lookup _ _ _ Hst)) as Hs.
    unfold validate_struct in Hs. apply bind_Ok in Hs as (u0 & Hs & _). cbn [snd] in Hs.
    destruct (base_loop s _ _ st) as [r|] eqn:El; [|done]. cbn in Hs. subst r. destruct u0.
    by eapply base_loop_acc. }
  split.
  - intros t. apply resolve_type_end. intros k t' Ht.
    exact (foldM_unit _ _ _ _ H1 (in_order_lookup _ _ _ Ht)).
  - done.
  - intros b n (st & Hst & Hb & <-). by apply (Hbases _ _ Hst).
  - intros n. destruct (structs s !! n) as [st|] eqn:Hst; [by apply (Hbases _ _ Hst)|].
    constructor. intros b (st & Hst' & _). by rewrite Hst in Hst'.
  - intros k t Ht. exact (known_Ok _ _ _ (foldM_unit _ _ _ _ H2 (in_order_lookup _ _ _ Ht))).
  - intros k st f Hst Hf. pose proof (foldM_unit _ _ _ _ H3 (in_order_lookup _ _ _ Hst)) as Hs.
    unfold validate_struct in Hs. apply bind_Ok in Hs as (u' & _ & Hs). exact (known_Ok _ _ _ (foldM_unit _ _ _ _ Hs Hf)).
  - intros k v t Hv Ht. pose proof (foldM_unit _ _ _ _ H4 (in_order_lookup _ _ _ Hv)) as Hs.
    exact (known_Ok _ _ _ (foldM_unit _ _ _ _ Hs Ht)).
  - intros a t Ha. exact (known_Ok _ _ _ (foldM_unit _ _ _ _ H5 (in_name_order_lookup _ _ _ Ha))).
  - intros a t Ha. exact (known_Ok _ _ _ (foldM_unit _ _ _ _ H6 (in_name_order_lookup _ _ _ Ha))).
Qed.

(** ** Reading an abi *)

Lemma foldl_keyed (l : list struct_def) (m : gmap string struct_def) :
  map_Forall (λ k st, st_name st = k) m → map_Forall (λ k st, st_name st = k) (foldl (λ m st, <[st_name st := st]> m) m l).
Proof. revert m. induction l as [|st l IH]; intros m Hm; [done|]. apply IH. by apply map_Forall_insert_2. Qed.

(** A map filled from a list with as many entries as the list holds every element of it. *)
Lemma foldl_insert_lookup {A B} (k : A → string) (v : A → B) l (m : gmap string B) :
  size (foldl (λ m x, <[k x := v x]> m) m l) = (size m + length l)%nat →
  (∀ x, x ∈ l → foldl (λ m x, <[k x := v x]> m) m l !! k x = Some (v x)) ∧
  (∀ y, is_Some (m !! y) → foldl (λ m x, <[k x := v x]> m) m l !! y = m !! y).
Proof.
  assert (∀ l (m : gmap string B), size (foldl (λ m x, <[k x := v x]> m) m l) ≤ size m + length l)%nat as Hle.
  { clear. intros l. induction l as [|x l IH]; intros m; cbn; [lia|]. pose proof (IH (<[k x := v x]> m)) as H1.
    assert (size (<[k x := v x]> m) ≤ S (size m))%nat; [|lia]. rewrite map_size_insert. destruct (m !! k x); cbn; lia. }
  revert m. induction l as [|x l IH]; intros m Hs; cbn in *; [split; [by intros ? ?%not_elem_of_nil|done]|].
  pose proof (Hle l (<[k x := v x]> m)) as H1. rewrite map_size_insert in H1.
  destruct (m !! k x) as [y|] eqn:Ex; cbn in H1; [lia|].
  destruct (IH (<[k x := v x]> m)) as [IH1 IH2]; [rewrite map_size_insert, Ex; cbn; lia|]. split.
  - intros z [->|Hz]%elem_of_cons; [|by apply IH1]. by rewrite IH2; rewrite lookup_insert_eq; [|eauto].
  - intros y Hy. rewrite IH2; [|rewrite lookup_insert_is_Some'; tauto]. apply lookup_insert_ne. intros <-. rewrite Ex in Hy. by destruct Hy.
Qed.

Lemma add_typedefs_keep l s s' : foldM add_typedef s l = Ok s' →
  typedefs s' = foldl (λ m td, <[new_type_name td := td_type td]> m) (typedefs s) l ∧
  structs s' = structs s ∧ built_in_types s' = built_in_types s.
Proof.
  revert s. induction l as [|td l IH]; intros s; cbn; [by intros [= <-]|].
  intros (s1 & Ha & Hl)%bind_Ok. apply IH in Hl as (-> & -> & ->). unfold add_typedef in Ha.
  apply bind_Ok in Ha as (b & _ & Ha). apply bind_Ok in Ha as (u & _ & Ha). by injection Ha as <-.
Qed.

(** C31: an abi that the serializer accepts is read completely (every type definition, struct
    and variant of it can be looked up, so none has the name of another) and is well formed:
    every type name resolves to one that is not defined by another, every struct derives from
    a struct and every chain of bases ends, and every type that a definition, field, variant,
    action or table mentions is known.  The loops of the validation always end. *)
Theorem abi_validated s abi s' : set_abi s abi = Ok s' →
  abi_wf s' ∧
  (∀ td, td ∈ abi_types abi → typedefs s' !! new_type_name td = Some (td_type td)) ∧
  (∀ st, st ∈ abi_structs abi → structs s' !! st_name st = Some st) ∧
  (∀ v, v ∈ abi_variants abi → variants s' !! v_name v = Some v) ∧
  (∀ t seen, typedef_loop s' (S (size (typedefs s'))) seen t ≠ None) ∧
  (∀ st seen, base_loop s' (S (size (structs s'))) seen st ≠ None).
Proof.
  unfold set_abi. intros (u1 & _ & Ha)%bind_Ok. apply bind_Ok in Ha as (s1 & H1 & Ha).
  apply add_typedefs_keep in H1 as (Ht & Hs & _). cbn [typedefs structs] in Ht, Hs.
  apply bind_Ok in Ha as (u2 & H2%assert_that_Ok%bool_decide_eq_true & Ha).
  apply bind_Ok in Ha as (u3 & H3%assert_that_Ok%bool_decide_eq_true & Ha).
  do 3 (apply bind_Ok in Ha as (? & _ & Ha)).
  apply bind_Ok in Ha as (u4 & H4%assert_that_Ok%bool_decide_eq_true & Ha).
  apply bind_Ok in Ha as (u5 & Hv & Ha). injection Ha as <-.
  cbn [typedefs structs variants] in H2, H3, H4 |- *.
  assert (keyed (MkSerializer (typedefs s1) (structs s1)
             (foldl (λ m a, <[ad_name a := ad_type a]> m) ∅ (abi_actions abi))
             (foldl (λ m t, <[tb_name t := tb_type t]> m) ∅ (abi_tables abi))
             (foldl (λ m e, <[error_code e := error_msg e]> m) ∅ (abi_error_messages abi))
             (foldl (λ m v, <[v_name v := v]> m) ∅ (abi_variants abi)) (built_in_types s1))) as Hk.
  { unfold keyed. cbn [structs]. rewrite Hs. apply foldl_keyed, map_Forall_empty. }
  split; [by eapply validate_wf|]. split_and!.
  - rewrite Ht in H2 |- *. by apply (foldl_insert_lookup new_type_name td_type).
  - rewrite Hs in H3 |- *. by apply (foldl_insert_lookup st_name id).
  - by apply (foldl_insert_lookup v_name id).
  - intros t seen. apply typedef_loop_ends, unseen_le.
  - intros st seen. apply base_loop_ends; [done|apply unseen_le].
Qed.

(** ** Packing and unpacking again *)

(** The round trip of a built-in type: what it packs it reads back from the front of any
    stream, as a value with the same bytes. *)
Definition builtin_ok (b : builtin V) : Prop :=
  ∀ v a o bs, pack_function b v a o = Ok bs →
    bs ≠ [] ∧ ∃ v', (∀ rest, unpack_function b (bs ++ rest) a o = Ok (v', rest)) ∧ pack_function b v' a o = Ok bs ∧
    (is_null v' = true → is_null v = true ∧ o = true).

(** The names of the fields of a struct, those of its bases first *)
Fixpoint chain_names s (n : nat) (r : type_name) : list field_name :=
  match n, structs s !! r with
  | S n, Some st => (if String.eqb (base st) "" then [] else chain_names s n (resolve_type s (base st))) ++ (f_name <$> fields st)
  | _, _ => []
  end.

(** A name that both directions take for a struct *)
Definition plain_struct s (r : type_name) : bool :=
  negb (is_builtin_type s (fundamental_type r)) && negb (is_array r) && negb (is_optional r) &&
  negb (bool_decide (is_Some (variants s !! r))) && bool_decide (is_Some (structs s !! r)).

(** The types of the list [l] can be read back: they only lead to types of the list; arrays
    have no optional elements, since the code rejects their empty values; structs have a field
    or a base, no extensions, and names of fields that differ. *)
Definition readable_struct s (l : list type_name) (r : type_name) (st : struct_def) : bool :=
  (if String.eqb (base st) "" then negb (bool_decide (fields st = []))
   else let b := resolve_type s (base st) in bool_decide (b ∈ l) && plain_struct s b) &&
  forallb (λ f, negb (ends_with (f_type f) "$") && bool_decide (f_type f ∈ l)) (fields st) &&
  bool_decide (NoDup (chain_names s max_recursion_depth r)).

Definition readable_type s (l : list type_name) (t : type_name) : bool :=
  let r := resolve_type s t in
  let f := fundamental_type r in
  if is_builtin_type s f then true
  else if is_array r then bool_decide (f ∈ l) && negb (is_optional (resolve_type s f))
  else if is_optional r then bool_decide (f ∈ l)
  else match variants s !! r with
       | Some vd => forallb (λ t, bool_decide (t ∈ l)) (types vd) && (Z.of_nat (length (types vd)) <? 2 ^ 32)
       | None => match structs s !! r with
                 | Some st => readable_struct s l r st
                 | None => false
                 end
       end.

Definition readable s (l : list type_name) : bool := forallb (readable_type s l) l.

Lemma write_Ok cap ds bs ds' : write cap ds bs = Ok ds' → ds' = ds ++ bs ∧ Z.of_nat (length ds') ≤ cap.
Proof.
  unfold write. destruct (Z.leb_spec (Z.of_nat (length ds + length bs)) cap) as [Hc|]; [|done]. intros [= <-]. rewrite length_app. done.
Qed.

Lemma resolve_resolved s t : typedefs s !! t = None → resolve_type s t = t.
Proof. unfold resolve_type. by intros ->. Qed.

Section roundtrip.
Context (s : abi_serializer V) (l : list type_name) (cap : Z).
Hypothesis Hwf : abi_wf s.
Hypothesis Hbuiltin : map_Forall (λ _ b, builtin_ok b) (built_in_types s).
Hypothesis Hread : readable s l = true.
Hypothesis Hcap : cap < 2 ^ 32.

Lemma resolve_idem t : resolve_type s (resolve_type s t) = resolve_type s t.
Proof. apply resolve_resolved, (wf_resolved _ Hwf). Qed.

Lemma readable_elem t : t ∈ l → readable_type s l t = true.
Proof. intros Ht. unfold readable in Hread. rewrite forallb_forall in Hread. by apply Hread, list_elem_of_In. Qed.

Lemma b2v_resolve d t stream : _binary_to_variant s d (resolve_type s t) stream = _binary_to_variant s d t stream.
Proof. destruct d; [done|]. cbn. by rewrite resolve_idem. Qed.

(** A value is read back with [2 * d] scopes. *)
Definition reads_back d allow type (v : V) (ds ds' : list Z) : Prop :=
  ∃ bs v', ds' = ds ++ bs ∧ bs ≠ [] ∧ Z.of_nat (length ds') ≤ cap ∧
    (∀ d' rest, (2 * d ≤ d')%nat → _binary_to_variant s d' type (bs ++ rest) = Ok (v', rest)) ∧
    _variant_to_binary s cap d allow type v' ds = Ok ds' ∧
    (is_null v' = true → is_null v = true ∧ is_optional (resolve_type s type) = true).

Definition all_read_back d : Prop :=
  ∀ allow type v ds ds', type ∈ l → _variant_to_binary s cap d allow type v ds = Ok ds' → reads_back d allow type v ds ds'.

Lemma array_reads_back d ftype vars ds ds' :
  all_read_back d → ftype ∈ l → is_optional (resolve_type s ftype) = false →
  foldM (λ ds v, _variant_to_binary s cap d false ftype v ds) ds vars = Ok ds' → Z.of_nat (length ds) ≤ cap →
  ∃ bs vs, ds' = ds ++ bs ∧ (length vars ≤ length bs)%nat ∧ Z.of_nat (length ds') ≤ cap ∧ length vs = length vars ∧
    (∀ d' rest, (2 * d ≤ d')%nat → unpack_array (_binary_to_variant s d' ftype) (length vars) (bs ++ rest) = Ok (vs, rest)) ∧
    foldM (λ ds v, _variant_to_binary s cap d false ftype v ds) ds vs = Ok ds'.
Proof.
  intros IH Hl Hopt. revert ds. induction vars as [|v vars IHv]; intros ds Hf Hds.
  { injection Hf as <-. exists [], []. rewrite app_nil_r. split_and!; try done. }
  cbn [foldM] in Hf. apply bind_Ok in Hf as (ds1 & Hv & Hf).
  destruct (IH _ _ _ _ _ Hl Hv) as (bs1 & v' & -> & Hne & Hc1 & Hu & Hp & Hnull).
  destruct (IHv _ Hf Hc1) as (bs & vs & -> & Hlen & Hc & Hvs & Hus & Hps).
  exists (bs1 ++ bs), (v' :: vs). split_and!.
  - by rewrite app_assoc.
  - rewrite length_app. destruct bs1; [done|]. cbn. lia.
  - done.
  - cbn. by rewrite Hvs.
  - intros d' rest Hd. cbn [length unpack_array]. rewrite <- app_assoc, Hu by done. cbn.
    assert (is_null v' = false) as -> by (destruct (is_null v'); [|done]; destruct Hnull as [_ ?]; [done|congruence]).
    cbn. by rewrite Hus.
  - cbn [foldM]. by rewrite Hp.
Qed.

Definition set_all (kvs : list (string * V)) (obj : O) : O := foldl (λ o kv, object_set kv.1 kv.2 o) obj kvs.

(** The fields of a struct are read back, into any object; the values read have the bytes. *)
Definition fields_read_back d allow (flds : list field_def) (ds ds' : list Z) : Prop :=
  ∃ bs kvs, ds' = ds ++ bs ∧ match flds with [] => bs = [] | _ => bs ≠ [] ∧ Z.of_nat (length ds') ≤ cap end ∧ kvs.*1 = f_name <$> flds ∧
    (∀ d' rest obj, (2 * d ≤ d')%nat →
      unpack_fields (λ t, _binary_to_variant s d' (resolve_type s t)) false flds (bs ++ rest) obj = Ok (set_all kvs obj, rest)) ∧
    (∀ vo, (∀ k v, (k, v) ∈ kvs → object_get vo k = Some v) →
      pack_fields (_variant_to_binary s cap d) allow vo false flds ds = Ok ds').

Lemma fields_read_back_nil d allow ds : fields_read_back d allow [] ds ds.
Proof. exists [], []. rewrite app_nil_r. split_and!; done. Qed.

Lemma fields_read_back_cons d allow field flds v ds ds1 ds' :
  all_read_back d → ends_with (f_type field) "$" = false → f_type field ∈ l →
  _variant_to_binary s cap d (allow && match flds with [] => true | _ => false end) (f_type field) v ds = Ok ds1 →
  fields_read_back d allow flds ds1 ds' → fields_read_back d allow (field :: flds) ds ds'.
Proof.
  intros IH Hext Hl Hv (bs & kvs & -> & Hbs & Hk & Hu & Hp).
  destruct (IH _ _ _ _ _ Hl Hv) as (bs1 & v' & -> & Hne & Hc & Hu1 & Hp1 & _).
  exists (bs1 ++ bs), ((f_name field, v') :: kvs). split_and!.
  - by rewrite app_assoc.
  - by destruct bs1.
  - destruct flds as [|g flds]; [|by apply Hbs]. by rewrite Hbs, app_nil_r.
  - cbn. by rewrite Hk.
  - intros d' rest obj Hd. cbn [unpack_fields]. rewrite Hext. cbn [orb]. rewrite <- app_assoc, b2v_resolve, Hu1 by done.
    destruct (bs1 ++ bs ++ rest) eqn:E; [by destruct bs1|]. cbn. by rewrite Hu.
  - intros vo Hvo. cbn [pack_fields]. rewrite (Hvo (f_name field) v') by left.
    unfold _remove_bin_extension. rewrite Hext, Hp1. cbn. apply Hp. intros k w Hkw. apply Hvo. by right.
Qed.

Lemma readable_field st f r : readable_struct s l r st = true → f ∈ fields st →
  ends_with (f_type f) "$" = false ∧ f_type f ∈ l.
Proof.
  unfold readable_struct. rewrite !andb_true_iff. intros [[_ Hf] _] Hin. rewrite forallb_forall in Hf.
  specialize (Hf f (proj1 (list_elem_of_In _ _) Hin)). rewrite andb_true_iff, negb_true_iff, bool_decide_eq_true in Hf. done.
Qed.

Lemma pack_fields_read_back d allow vo flds ds ds' :
  all_read_back d → (∀ f, f ∈ flds → ends_with (f_type f) "$" = false ∧ f_type f ∈ l) →
  pack_fields (_variant_to_binary s cap d) allow vo false flds ds = Ok ds' → fields_read_back d allow flds ds ds'.
Proof.
  intros IH. revert ds. induction flds as [|f flds IHf]; intros ds Hok; cbn [pack_fields].
  { intros [= <-]. apply fields_read_back_nil. }
  destruct (Hok f) as [Hext Hl]; [by left|]. rewrite Hext.
  destruct (object_get vo (f_name f)) as [v|]; [|done]. intros (ds1 & Hv & Hf)%bind_Ok.
  unfold _remove_bin_extension in Hv. rewrite Hext in Hv.
  eapply fields_read_back_cons; [done..|]. apply IHf; [|done]. intros g Hg. apply Hok. by right.
Qed.

Lemma pack_elements_read_back d allow flds va ds ds' :
  all_read_back d → (∀ f, f ∈ flds → ends_with (f_type f) "$" = false ∧ f_type f ∈ l) →
  pack_elements (_variant_to_binary s cap d) allow flds va ds = Ok ds' → fields_read_back d allow flds ds ds'.
Proof.
  intros IH. revert va ds. induction flds as [|f flds IHf]; intros va ds Hok; cbn [pack_elements].
  { intros [= <-]. apply fields_read_back_nil. }
  destruct (Hok f) as [Hext Hl]; [by left|]. rewrite Hext.
  destruct va as [|v va]; [done|]. intros (ds1 & Hv & Hf)%bind_Ok.
  unfold _remove_bin_extension in Hv. rewrite Hext in Hv.
  eapply fields_read_back_cons; [done..|]. eapply IHf; [|done]. intros g Hg. apply Hok. by right.
Qed.

(** A struct with its bases is read back, into any object. *)
Definition struct_reads_back d allow (r : type_name) (ds ds' : list Z) : Prop :=
  ∃ bs kvs, ds' = ds ++ bs ∧ bs ≠ [] ∧ Z.of_nat (length ds') ≤ cap ∧ kvs ≠ [] ∧
    (∀ n, (d ≤ n)%nat → kvs.*1 = chain_names s n r) ∧
    (∀ d' rest obj, (2 * d ≤ S d')%nat → _binary_to_object s d' r (bs ++ rest) obj = Ok (set_all kvs obj, rest)) ∧
    (∀ vo, (∀ k v, (k, v) ∈ kvs → object_get vo k = Some v) → _variant_to_binary s cap d allow r (of_object vo) ds = Ok ds').

(** What packing a struct does, once its name is known to mean the struct *)
Lemma pack_struct_eq d allow type v ds st :
  plain_struct s (resolve_type s type) = true → structs s !! resolve_type s type = Some st →
  _variant_to_binary s cap (S d) allow type v ds =
    match get_object v, get_array v with
    | Some vo, _ =>
        ds ← (if String.eqb (base st) "" then Ok ds else _variant_to_binary s cap d false (resolve_type s (base st)) v ds);
        pack_fields (_variant_to_binary s cap d) allow vo false (fields st) ds
    | None, Some va =>
        if String.eqb (base st) "" then pack_elements (_variant_to_binary s cap d) allow (fields st) va ds
        else Throw invalid_type_inside_abi
    | None, None => Throw pack_exception
    end.
Proof.
  unfold plain_struct, is_builtin_type. rewrite !andb_true_iff, !negb_true_iff, !bool_decide_eq_false, <- !eq_None_not_Some.
  intros [[[[Hb Ha] Ho] Hv] _] Hst. cbn [_variant_to_binary]. by rewrite Hb, Ha, Ho, Hv, Hst.
Qed.

Lemma plain_struct_lookup r : plain_struct s r = true → is_Some (structs s !! r).
Proof. unfold plain_struct. rewrite !andb_true_iff, bool_decide_eq_true. tauto. Qed.

(** The part of a struct that comes from its base *)
Definition base_read_back d (st : struct_def) (ds ds' : list Z) : Prop :=
  ∃ bs kvs, ds' = ds ++ bs ∧
    (if String.eqb (base st) "" then bs = [] ∧ kvs = [] else bs ≠ [] ∧ Z.of_nat (length ds') ≤ cap ∧ kvs ≠ []) ∧
    (∀ n, (d ≤ n)%nat → kvs.*1 = if String.eqb (base st) "" then [] else chain_names s n (resolve_type s (base st))) ∧
    (∀ d' rest obj, (2 * d ≤ S d')%nat →
      (if String.eqb (base st) "" then Ok (obj, bs ++ rest)
       else _binary_to_object s d' (resolve_type s (base st)) (bs ++ rest) obj) = Ok (set_all kvs obj, rest)) ∧
    (∀ vo, (∀ k v, (k, v) ∈ kvs → object_get vo k = Some v) →
      (if String.eqb (base st) "" then Ok ds
       else _variant_to_binary s cap d false (resolve_type s (base st)) (of_object vo) ds) = Ok ds').

Lemma base_read_back_none d st ds : String.eqb (base st) "" = true → base_read_back d st ds ds.
Proof. intros Hb. exists [], []. rewrite Hb, app_nil_r. split_and!; done. Qed.

Lemma struct_assemble d allow r st ds ds1 ds' :
  plain_struct s r = true → resolve_type s r = r → structs s !! r = Some st →
  (String.eqb (base st) "" = true → fields st ≠ []) →
  base_read_back d st ds ds1 → fields_read_back d allow (fields st) ds1 ds' → struct_reads_back (S d) allow r ds ds'.
Proof.
  intros Hpl Hr Hst Hne (bs1 & kvs1 & -> & Hb & Hn1 & Hu1 & Hp1) (bs2 & kvs2 & -> & Hf & Hn2 & Hu2 & Hp2).
  exists (bs1 ++ bs2), (kvs1 ++ kvs2). split_and!.
  - by rewrite app_assoc.
  - destruct (String.eqb _ _); [|by destruct bs1; [destruct Hb|]].
    destruct Hb as [-> _]. destruct (fields st); [by destruct (Hne eq_refl)|]. by destruct Hf.
  - destruct (fields st); [|by destruct Hf]. subst bs2. rewrite app_nil_r.
    destruct (String.eqb _ _); [by destruct (Hne eq_refl)|]. by destruct Hb as (_ & ? & _).
  - destruct (String.eqb _ _); [|destruct kvs1; [by destruct Hb as (_ & _ & ?)|done]].
    destruct Hb as [_ ->]. destruct (fields st); [by destruct (Hne eq_refl)|]. by destruct kvs2.
  - intros [|n] Hd; [lia|]. cbn [chain_names]. rewrite Hst, fmap_app, Hn2, (Hn1 n) by lia. done.
  - intros [|d'] rest obj Hd; [lia|]. cbn [_binary_to_object]. rewrite Hst, <- app_assoc, Hu1 by lia. cbn.
    rewrite Hu2 by lia. unfold set_all. by rewrite foldl_app.
  - intros vo Hvo. rewrite (pack_struct_eq d allow r _ _ st) by (by rewrite Hr). rewrite get_of_object.
    rewrite Hp1 by (intros k v Hkv; apply Hvo; rewrite elem_of_app; by left). cbn.
    apply Hp2. intros k v Hkv. apply Hvo. rewrite elem_of_app. by right.
Qed.

Definition structs_read_back d : Prop :=
  ∀ allow r st v ds ds', structs s !! r = Some st → plain_struct s r = true → readable_struct s l r st = true →
    _variant_to_binary s cap d allow r v ds = Ok ds' → resolve_type s r = r → struct_reads_back d allow r ds ds'.

Lemma readable_plain t r st : t ∈ l → resolve_type s t = r → plain_struct s r = true → structs s !! r = Some st →
  readable_struct s l r st = true.
Proof.
  intros Ht Hr Hp Hst. apply readable_elem in Ht. unfold readable_type in Ht. rewrite Hr in Ht. unfold plain_struct in Hp.
  rewrite !andb_true_iff, !negb_true_iff in Hp. destruct Hp as [[[[Hb Ha] Ho] Hv] _].
  rewrite Hb, Ha, Ho in Ht. apply bool_decide_eq_false in Hv. rewrite <- eq_None_not_Some in Hv. by rewrite Hv, Hst in Ht.
Qed.

Lemma structs_read_back_S d : all_read_back d → structs_read_back d → structs_read_back (S d).
Proof.
  intros IH IHs allow r st v ds ds' Hst Hpl Hrd Hp Hr. pose proof Hrd as Hrd'. unfold readable_struct in Hrd'.
  rewrite !andb_true_iff in Hrd'. destruct Hrd' as [[Hbase _] _].
  assert (String.eqb (base st) "" = true → fields st ≠ []) as Hne.
  { intros Hb. rewrite Hb in Hbase. by apply negb_true_iff, bool_decide_eq_false in Hbase. }
  rewrite (pack_struct_eq d allow r v ds st) in Hp by (by rewrite Hr).
  destruct (get_object v) as [vo|] eqn:Ho.
  - apply bind_Ok in Hp as (ds1 & Hb & Hf). eapply (struct_assemble d allow r st ds ds1); try done.
    2: { eapply pack_fields_read_back; [done| |done]. intros f. by apply readable_field with r. }
    destruct (String.eqb (base st) "") eqn:Eb; [injection Hb as <-; by apply base_read_back_none|].
    rewrite andb_true_iff, bool_decide_eq_true in Hbase. destruct Hbase as [Hin Hplb].
    destruct (plain_struct_lookup _ Hplb) as [stb Hstb].
    pose proof (readable_plain _ _ stb Hin (resolve_idem _) Hplb Hstb) as Hrb.
    destruct (IHs _ _ _ _ _ _ Hstb Hplb Hrb Hb (resolve_idem _)) as (bs & kvs & -> & Hbs & Hc & Hk & Hn & Hu & Hpk).
    exists bs, kvs. rewrite Eb. split_and!; done.
  - destruct (get_array v) as [va|]; [|done]. destruct (String.eqb (base st) "") eqn:Eb; [|done].
    eapply (struct_assemble d allow r st ds ds); try done; [intros _; by apply Hne|by apply base_read_back_none|].
    eapply pack_elements_read_back; [done| |done]. intros f. by apply readable_field with r.
Qed.

Lemma set_all_ne kvs obj k : k ∉ kvs.*1 → object_get (set_all kvs obj) k = object_get obj k.
Proof.
  revert obj. induction kvs as [|[k' v'] kvs IH]; intros obj Hk; [done|].
  change (set_all ((k', v') :: kvs) obj) with (set_all kvs (object_set k' v' obj)). cbn in Hk. apply not_elem_of_cons in Hk as [Hne Hk].
  rewrite IH by done. rewrite object_get_set. by rewrite decide_False by congruence.
Qed.

Lemma set_all_get kvs obj k v : NoDup kvs.*1 → (k, v) ∈ kvs → object_get (set_all kvs obj) k = Some v.
Proof.
  revert obj. induction kvs as [|[k' v'] kvs IH]; intros obj Hnd Hin; [by apply not_elem_of_nil in Hin|].
  change (set_all ((k', v') :: kvs) obj) with (set_all kvs (object_set k' v' obj)). cbn in Hnd. apply NoDup_cons in Hnd as [Hnin Hnd]. apply elem_of_cons in Hin as [[= -> ->]|Hin]; [|by apply IH].
  rewrite set_all_ne by done. rewrite object_get_set. by rewrite decide_True.
Qed.

Lemma set_all_size kvs obj : kvs ≠ [] → (0 < object_size (set_all kvs obj))%nat.
Proof.
  destruct kvs as [|kv kvs] using rev_ind; [done|]. intros _. unfold set_all. rewrite foldl_app. apply object_size_set.
Qed.

Lemma find_type_lookup t ts i : find_type t ts = Some i → ts !! i = Some t.
Proof.
  revert i. induction ts as [|t' ts IH]; intros i; cbn; [done|]. destruct (String.eqb_spec t' t) as [->|]; [by intros [= <-]|].
  destruct (find_type t ts) as [j|]; [|done]. intros [= <-]. by apply IH.
Qed.

Lemma reads_back_builtin d allow type b v ds ds' :
  built_in_types s !! fundamental_type (resolve_type s type) = Some b →
  _variant_to_binary s cap (S d) allow type v ds = Ok ds' → reads_back (S d) allow type v ds ds'.
Proof.
  intros Hb Hp. pose proof Hp as Hp'. cbn [_variant_to_binary] in Hp. rewrite Hb in Hp.
  apply bind_Ok in Hp as (bs & Hpk & Hw). pose proof (write_Ok _ _ _ _ Hw) as [-> Hc].
  destruct (Hbuiltin _ _ Hb _ _ _ _ Hpk) as (Hne & v' & Hu & Hpk' & Hnull). exists bs, v'. split_and!; try done.
  - intros [|d'] rest Hd; [lia|]. cbn [_binary_to_variant]. by rewrite Hb, Hu.
  - cbn [_variant_to_binary]. by rewrite Hb, Hpk'.
Qed.

Lemma reads_back_array d allow type v ds ds' :
  all_read_back d → type ∈ l → built_in_types s !! fundamental_type (resolve_type s type) = None →
  is_array (resolve_type s type) = true →
  _variant_to_binary s cap (S d) allow type v ds = Ok ds' → reads_back (S d) allow type v ds ds'.
Proof.
  intros IH Hl Hb Ha Hp. cbn [_variant_to_binary] in Hp. rewrite Hb, Ha in Hp.
  destruct (get_array v) as [vars|] eqn:Hv; [|done]. apply bind_Ok in Hp as (ds1 & Hw & Hf).
  pose proof (write_Ok _ _ _ _ Hw) as [-> Hc].
  pose proof (readable_elem _ Hl) as Hr. unfold readable_type, is_builtin_type in Hr.
  rewrite Hb, Ha, bool_decide_eq_false_2, andb_true_iff, bool_decide_eq_true, negb_true_iff in Hr by by intros [? ?].
  destruct Hr as [Hfl Hopt].
  destruct (array_reads_back _ _ _ _ _ IH Hfl Hopt Hf Hc) as (bs & vs & -> & Hlen & Hc' & Hvs & Hu & Hpk).
  assert (0 ≤ Z.of_nat (length vars) < 2 ^ 32) as Hn.
  { rewrite !length_app in Hc'. lia. }
  rewrite u32_id in Hw, Hpk, Hc' |- * by done.
  exists (pack_unsigned_int (Z.of_nat (length vars)) ++ bs), (of_array vs). split_and!.
  - by rewrite app_assoc.
  - intros [Hnil _]%app_eq_nil. by apply pack_unsigned_nonempty in Hnil.
  - done.
  - intros [|d'] rest Hd; [lia|]. cbn [_binary_to_variant]. rewrite Hb, Ha, <- app_assoc, unpack_pack_unsigned by done.
    cbn. rewrite Nat2Z.id, Hu by lia. done.
  - cbn [_variant_to_binary]. rewrite Hb, Ha, get_of_array, Hvs, u32_id, Hw by done. done.
  - by rewrite is_null_array.
Qed.

Lemma reads_back_optional d allow type v ds ds' :
  all_read_back d → type ∈ l → built_in_types s !! fundamental_type (resolve_type s type) = None →
  is_array (resolve_type s type) = false → is_optional (resolve_type s type) = true →
  _variant_to_binary s cap (S d) allow type v ds = Ok ds' → reads_back (S d) allow type v ds ds'.
Proof.
  intros IH Hl Hb Ha Ho Hp. cbn [_variant_to_binary] in Hp. rewrite Hb, Ha, Ho in Hp.
  apply bind_Ok in Hp as (ds1 & Hw & Hf). pose proof (write_Ok _ _ _ _ Hw) as [-> Hc].
  pose proof (readable_elem _ Hl) as Hr. unfold readable_type, is_builtin_type in Hr.
  rewrite Hb, Ha, Ho, bool_decide_eq_false_2, bool_decide_eq_true in Hr by by intros [? ?].
  destruct (is_null v) eqn:Hn.
  - injection Hf as <-. exists [0], null. split_and!; try done.
    + intros [|d'] rest Hd; [lia|]. cbn [_binary_to_variant]. by rewrite Hb, Ha, Ho.
    + cbn [_variant_to_binary]. by rewrite Hb, Ha, Ho, is_null_null, Hw.
  - destruct (IH _ _ _ _ _ Hr Hf) as (bs & v' & -> & Hne & Hc' & Hu & Hpk & Hnull).
    assert (is_null v' = false) as Hn' by (destruct (is_null v'); [destruct (Hnull eq_refl); congruence|done]).
    exists (1 :: bs), v'. split_and!; try done.
    + by rewrite <- app_assoc.
    + intros [|d'] rest Hd; [lia|]. cbn [_binary_to_variant]. rewrite Hb, Ha, Ho. cbn. apply Hu. lia.
    + cbn [_variant_to_binary]. rewrite Hb, Ha, Ho, Hn', Hw. done.
    + by rewrite Hn'.
Qed.

Lemma reads_back_variant d allow type vd v ds ds' :
  all_read_back d → type ∈ l → built_in_types s !! fundamental_type (resolve_type s type) = None →
  is_array (resolve_type s type) = false → is_optional (resolve_type s type) = false →
  variants s !! resolve_type s type = Some vd →
  _variant_to_binary s cap (S d) allow type v ds = Ok ds' → reads_back (S d) allow type v ds ds'.
Proof.
  intros IH Hl Hb Ha Ho Hvd Hp. cbn [_variant_to_binary] in Hp. rewrite Hb, Ha, Ho, Hvd in Hp.
  pose proof (readable_elem _ Hl) as Hr. unfold readable_type, is_builtin_type in Hr.
  rewrite Hb, Ha, Ho, Hvd, bool_decide_eq_false_2, andb_true_iff, Z.ltb_lt, forallb_forall in Hr by by intros [? ?].
  destruct Hr as [Hin Hlen]. destruct (get_array v) as [[|v0 [|v1 [|]]]|]; try done.
  destruct (get_string v0) as [t|]; [|done]. destruct (find_type t (types vd)) as [i|] eqn:Hi; [|done].
  pose proof (find_type_lookup _ _ _ Hi) as Ht.
  assert (t ∈ l) as Htl.
  { eapply bool_decide_eq_true, Hin, list_elem_of_In, list_elem_of_lookup_2, Ht. }
  assert (0 ≤ Z.of_nat i < 2 ^ 32) as Hi32 by (apply lookup_lt_Some in Ht; lia).
  rewrite u32_id in Hp by done. apply bind_Ok in Hp as (ds1 & Hw & Hf). pose proof (write_Ok _ _ _ _ Hw) as [-> Hc].
  destruct (IH _ _ _ _ _ Htl Hf) as (bs & v' & -> & Hne & Hc' & Hu & Hpk & Hnull).
  exists (pack_unsigned_int (Z.of_nat i) ++ bs), (of_array [of_string t; v']). split_and!.
  - by rewrite app_assoc.
  - by intros [_ Hnil]%app_eq_nil.
  - done.
  - intros [|d'] rest Hd; [lia|]. cbn [_binary_to_variant].
    rewrite Hb, Ha, Ho, Hvd, <- app_assoc, unpack_pack_unsigned by done. cbn. rewrite Nat2Z.id, Ht, Hu by lia. done.
  - cbn [_variant_to_binary]. rewrite Hb, Ha, Ho, Hvd, get_of_array, get_of_string, Hi, u32_id, Hw by done. done.
  - by rewrite is_null_array.
Qed.

Lemma reads_back_struct d allow type st v ds ds' :
  (S d ≤ max_recursion_depth)%nat → structs_read_back (S d) → type ∈ l →
  plain_struct s (resolve_type s type) = true → structs s !! resolve_type s type = Some st →
  _variant_to_binary s cap (S d) allow type v ds = Ok ds' → reads_back (S d) allow type v ds ds'.
Proof.
  intros Hd IH Hl Hpl Hst Hp.
  assert (∀ w, _variant_to_binary s cap (S d) allow (resolve_type s type) w ds = _variant_to_binary s cap (S d) allow type w ds) as Heq.
  { intros w. cbn [_variant_to_binary]. by rewrite resolve_idem. }
  pose proof (readable_plain _ _ _ Hl eq_refl Hpl Hst) as Hr. rewrite <- Heq in Hp.
  destruct (IH _ _ _ _ _ _ Hst Hpl Hr Hp (resolve_idem _)) as (bs & kvs & -> & Hne & Hc & Hk & Hn & Hu & Hpk).
  exists bs, (of_object (set_all kvs empty_object)). split_and!; try done.
  - intros [|d'] rest Hd'; [lia|]. unfold plain_struct, is_builtin_type in Hpl.
    rewrite !andb_true_iff, !negb_true_iff, !bool_decide_eq_false, <- !eq_None_not_Some in Hpl. destruct Hpl as [[[[Hb Ha] Ho] Hvd] _].
    cbn [_binary_to_variant]. rewrite Hb, Ha, Ho, Hvd, Hu by lia. cbn -[Nat.ltb].
    pose proof (set_all_size kvs empty_object Hk) as Hs. by rewrite (proj2 (Nat.ltb_lt _ _) Hs).
  - rewrite <- Heq. apply Hpk. intros k w. apply set_all_get. unfold readable_struct in Hr.
    rewrite !andb_true_iff, bool_decide_eq_true in Hr. rewrite (Hn max_recursion_depth) by done. by destruct Hr.
  - by rewrite is_null_object.
Qed.

Lemma all_and_structs_read_back d : (d ≤ max_recursion_depth)%nat → all_read_back d ∧ structs_read_back d.
Proof.
  induction d as [|d IH]; intros Hd; [split; [by intros ????? _|by intros ?????????]|].
  destruct IH as [IH IHs]; [lia|]. pose proof (structs_read_back_S _ IH IHs) as Hs. split; [|done].
  intros allow type v ds ds' Hl Hp.
  destruct (built_in_types s !! fundamental_type (resolve_type s type)) as [b|] eqn:Hb; [by eapply reads_back_builtin|].
  destruct (is_array (resolve_type s type)) eqn:Ha; [by eapply reads_back_array|].
  destruct (is_optional (resolve_type s type)) eqn:Ho; [by eapply reads_back_optional|].
  destruct (variants s !! resolve_type s type) as [vd|] eqn:Hvd; [by eapply reads_back_variant|].
  destruct (structs s !! resolve_type s type) as [st|] eqn:Hst.
  - eapply reads_back_struct; try done. unfold plain_struct, is_builtin_type. rewrite Hb, Ha, Ho, Hvd, Hst. done.
  - cbn [_variant_to_binary] in Hp. by rewrite Hb, Ha, Ho, Hvd, Hst in Hp.
Qed.
End roundtrip.

End serializer.

(** ** Samples *)

Inductive sample_variant :=
  | SNull
  | SNum (z : Z)
  | SStr (t : string)
  | SArr (l : list sample_variant)
  | SObj (l : list (string * sample_variant)).

#[global, program] Instance sample_fc : FcVariant sample_variant (list (string * sample_variant)) := {|
  null := SNull;
  is_null v := match v with SNull => true | _ => false end;
  of_array := SArr;
  get_array v := match v with SArr l => Some l | _ => None end;
  of_string := SStr;
  get_string v := match v with SStr t => Some t | _ => None end;
  of_object := SObj;
  get_object v := match v with SObj o => Some o | _ => None end;
  empty_object := [];
  object_set k v o := (k, v) :: o;
  object_get o k := snd <$> List.find (λ p, String.eqb p.1 k) o;
  object_size := length;
  as_bytes _ := Throw std_exception |}.
Solve Obligations with done.
Next Obligation. intros k v o k'. cbn. destruct (String.eqb_spec k k'); by case_decide. Qed.
Next Obligation. intros. cbn. lia. Qed.

(** Four bytes for a size *)
#[global, program] Instance sample_uint : VarUint := {|
  pack_unsigned_int n := [n mod 256; n / 256 mod 256; n / 65536 mod 256; n / 16777216];
  unpack_unsigned_int bs :=
    match bs with
    | a :: b :: c :: d :: rest => Ok (a + 256 * b + 65536 * c + 16777216 * d, rest)
    | _ => Throw std_exception
    end |}.
Solve Obligations with done.
Next Obligation. intros n rest Hn. cbn. do 2 f_equal. Z.to_euclidean_division_equations. lia. Qed.

(** Numbers of one byte *)
Definition sample_byte : builtin sample_variant := MkBuiltin
  (λ bs a o, match bs, a || o with c :: rest, false => Ok (SNum c, rest) | _, _ => Throw std_exception end)
  (λ v a o, match v, a || o with SNum c, false => Ok [c] | _, _ => Throw std_exception end).

Lemma sample_byte_ok : builtin_ok sample_byte.
Proof.
  intros v a o bs Hp. cbn in *. destruct v; try done. destruct (a || o) eqn:E; [done|]. injection Hp as <-.
  split; [done|]. exists (SNum z). done.
Qed.

Definition sample_abi : abi_def := MkAbi "eosio::abi/1.1"
  [MkTypeDef "count" "uint8"; MkTypeDef "points" "point[]"; MkTypeDef "maybe" "node?"]
  [MkStruct "base" "" [MkField "x" "count"];
   MkStruct "point" "base" [MkField "y" "uint8"];
   MkStruct "node" "" [MkField "value" "uint8"; MkField "next" "node?"];
   MkStruct "shape" "" [MkField "corners" "points"; MkField "list" "node?"; MkField "kind" "kind"]]
  [MkAction 1 "shape" ""] [MkTable 2 "i64" [] [] "point"] [] [] []
  [MkVariant "kind" ["count"; "point"]].

Definition sample_empty : abi_serializer sample_variant := MkSerializer ∅ ∅ ∅ ∅ ∅ ∅ {["uint8" := sample_byte]}.

Definition sample_serializer : abi_serializer sample_variant :=
  match set_abi sample_empty sample_abi with Ok s => s | Throw _ => sample_empty end.

Definition sample_point (x y : Z) : sample_variant := SObj [("y", SNum y); ("x", SNum x)].

Definition sample_shape : sample_variant :=
  SObj [("corners", SArr [sample_point 1 2; sample_point 3 4]); ("list", SNull); ("kind", SArr [SStr "point"; sample_point 5 6])].

(** A list of [n] nodes *)
Fixpoint sample_node (n : nat) : sample_variant :=
  SObj [("value", SNum 7); ("next", match n with 0%nat => SNull | S n => sample_node n end)].

Lemma abi_validated_witness : ∃ s, set_abi sample_empty sample_abi = Ok s ∧ abi_wf s ∧ structs s !! "base" = Some (MkStruct "base" "" [MkField "x" "count"]).
Proof.
  destruct (set_abi sample_empty sample_abi) as [s|x] eqn:E; [|vm_compute in E; discriminate E].
  exists s. destruct (abi_validated _ _ _ E) as (Hwf & _ & Hst & _). split; [reflexivity|]. split; [exact Hwf|].
  apply (Hst (MkStruct "base" "" [MkField "x" "count"])). by left.
Defined.

Lemma sample_serializer_wf : abi_wf sample_serializer.
Proof.
  apply (validate_wf _ tt); [|by vm_compute].
  apply (bool_decide_eq_true (map_Forall (λ k st, st_name st = k) (structs sample_serializer))). by vm_compute.
Qed.


(** A list of twelve nodes can be packed but not unpacked: the reader enters a scope more for
    every struct, and meets the limit first. *)
Lemma deep_value_only_packs :
  let bs := concat (replicate 11 [7; 1]) ++ [7; 0] in
  variant_to_binary sample_serializer "node" (sample_node 11) = Ok bs ∧
  binary_to_variant sample_serializer "node" bs = Throw abi_recursion_depth_exception.
Proof. split; vm_compute; reflexivity. Qed.

(** An array of optional values can be packed but not unpacked. *)
Lemma null_element_only_packs :
  variant_to_binary sample_serializer "maybe[]" (SArr [SNull]) = Ok [1; 0; 0; 0; 0] ∧
  binary_to_variant sample_serializer "maybe[]" [1; 0; 0; 0; 0] = Throw unpack_exception.
Proof. split; vm_compute; reflexivity. Qed.
End AbiSerializer.
