(* ===== verification/NetPlugin.v ===== *)
(** * Synchronisation of the network plugin

    Models the decisions of [plugins/net_plugin/net_plugin.cpp] and the messages of
    [protocol.hpp]: the [sync_manager] that asks peers for blocks, the [dispatch_manager] that
    remembers which peer has which block and transaction, and the handlers of a [connection].
    A handler is a function on the state of the plugin; what it sends, posts to a strand or
    starts a timer for is appended to a list of outputs, and the code that is posted is a
    handler of its own.  Connections are shared objects: the set [connections] and the source
    of a synchronisation refer to them by their number, also after a connection has left the
    set.  Sockets and the encoding of messages are left out.

    Theorems: a request for blocks always asks for a range of at most the configured length
    that ends at a block known to be irreversible ([sync_requests_bounded]); catching up
    completes when the peers answer ([catchup_completes]). *)

From S2P Require Import Prelude.
From S2P Require Import Exceptions.
From S2P Require Import Merkle.
From S2P Require Import BlockHeader.
From stdpp Require Import strings.

Local Open Scope Z_scope.

Module NetPlugin.
Notation digest := Merkle.digest_type.
Notation null_id := Merkle.zero_digest.

(** ** Messages *)

Inductive go_away_reason :=
  | no_reason | self | duplicate | wrong_chain | wrong_version | forked | unlinkable
  | bad_transaction | validation | benign_other | fatal_other | authentication.

#[global] Instance go_away_reason_eq_dec : EqDecision go_away_reason.
Proof. solve_decision. Defined.

Inductive id_list_modes := none | catch_up | last_irr_catch_up | normal.

#[global] Instance id_list_modes_eq_dec : EqDecision id_list_modes.
Proof. solve_decision. Defined.

(** Identifiers of nodes, chains, keys, tokens and signatures are numbers. *)
Record handshake_message := MkHandshake {
  network_version : Z;
  chain_id : Z;
  node_id : Z;
  key : Z;
  time : Z;
  token : Z;
  sig : Z;
  p2p_address : string;
  last_irreversible_block_num : Z;
  last_irreversible_block_id : digest;
  head_num : Z;
  head_id : digest;
  os : string;
  agent : string;
  generation : Z }.

(** [handshake_message()] *)
Definition no_handshake : handshake_message := MkHandshake 0 0 0 0 0 0 0 "" 0 null_id 0 null_id "" "" 0.

Record select_ids := MkIds { mode : id_list_modes; pending : Z; ids : list digest }.

(** [select_ids()] *)
Definition no_ids : select_ids := MkIds none 0 [].

Record notice_message := MkNotice { known_trx : select_ids; known_blocks : select_ids }.

Record request_message := MkRequest { req_trx : select_ids; req_blocks : select_ids }.

Record sync_request_message := MkSyncRequest { start_block : Z; end_block : Z }.

Inductive message :=
  | Hello (m : handshake_message)
  | GoAway (reason : go_away_reason) (id : Z)
  | Notice (m : notice_message)
  | Request (m : request_message)
  | SyncRequest (m : sync_request_message)
  | Block (id : digest) (num : Z)
  | Transaction (id : Z).

(** What a handler does to the outside: send a message to a connection, start or cancel its
    timer, empty its queue, or post a function to a strand or to the application. *)
Inductive output :=
  | Send (c : Z) (m : message)
  | SyncWait (c : Z)
  | FetchWait (c : Z)
  | CancelWait (c : Z)
  | FlushQueues (c : Z)
  | PostHandshake (c : Z) (force : bool)
  | PostClose (c : Z) (reconnect shutdown : bool)
  | PostLibCheck (c : Z) (peer_lib : Z) (id : digest)
  | PostForkCheck (c : Z) (num : Z) (id : digest)
  | PostSendBranch (c : Z) (lib_num head_num : Z) (id : digest)
  | PostFetchNum (c : Z) (num : Z)
  | PostFetchId (c : Z) (id : digest)
  | PostConnTimer.

(** ** Connections *)

Record peer_sync_state := MkPeerSync { ps_start_block : Z; ps_end_block : Z; last_sent : Z }.

Inductive connection_types := both | transactions_only | blocks_only.

#[global] Instance connection_types_eq_dec : EqDecision connection_types.
Proof. solve_decision. Defined.

Record connection := MkConnection {
  connection_id : Z;
  peer_addr : string;
  connection_type : connection_types;
  socket_open : bool;
  connecting : bool;
  syncing : bool;
  protocol_version : Z;
  consecutive_rejected_blocks : Z;
  sent_handshake_count : Z;
  no_retry : go_away_reason;
  last_req : option request_message;
  last_handshake_recv : handshake_message;
  last_handshake_sent : handshake_message;
  fork_head : digest;
  fork_head_num : Z;
  conn_node_id : Z;
  remote_name : string;
  peer_requested : option peer_sync_state }.

Definition with_connection_type (x : connection_types) (c : connection) : connection :=
  MkConnection (connection_id c) (peer_addr c) x (socket_open c) (connecting c) (syncing c) (protocol_version c)
    (consecutive_rejected_blocks c) (sent_handshake_count c) (no_retry c) (last_req c) (last_handshake_recv c)
    (last_handshake_sent c) (fork_head c) (fork_head_num c) (conn_node_id c) (remote_name c) (peer_requested c).

Definition with_socket_open (x : bool) (c : connection) : connection :=
  MkConnection (connection_id c) (peer_addr c) (connection_type c) x (connecting c) (syncing c)
    (protocol_version c) (consecutive_rejected_blocks c) (sent_handshake_count c) (no_retry c) (last_req c)
    (last_handshake_recv c) (last_handshake_sent c) (fork_head c) (fork_head_num c) (conn_node_id c)
    (remote_name c) (peer_requested c).

Definition with_connecting (x : bool) (c : connection) : connection :=
  MkConnection (connection_id c) (peer_addr c) (connection_type c) (socket_open c) x (syncing c)
    (protocol_version c) (consecutive_rejected_blocks c) (sent_handshake_count c) (no_retry c) (last_req c)
    (last_handshake_recv c) (last_handshake_sent c) (fork_head c) (fork_head_num c) (conn_node_id c)
    (remote_name c) (peer_requested c).

Definition with_syncing (x : bool) (c : connection) : connection :=
  MkConnection (connection_id c) (peer_addr c) (connection_type c) (socket_open c) (connecting c) x
    (protocol_version c) (consecutive_rejected_blocks c) (sent_handshake_count c) (no_retry c) (last_req c)
    (last_handshake_recv c) (last_handshake_sent c) (fork_head c) (fork_head_num c) (conn_node_id c)
    (remote_name c) (peer_requested c).

Definition with_protocol_version (x : Z) (c : connection) : connection :=
  MkConnection (connection_id c) (peer_addr c) (connection_type c) (socket_open c) (connecting c) (syncing c) x
    (consecutive_rejected_blocks c) (sent_handshake_count c) (no_retry c) (last_req c) (last_handshake_recv c)
    (last_handshake_sent c) (fork_head c) (fork_head_num c) (conn_node_id c) (remote_name c) (peer_requested c).

Definition with_consecutive_rejected_blocks (x : Z) (c : connection) : connection :=
  MkConnection (connection_id c) (peer_addr c) (connection_type c) (socket_open c) (connecting c) (syncing c)
    (protocol_version c) x (sent_handshake_count c) (no_retry c) (last_req c) (last_handshake_recv c)
    (last_handshake_sent c) (fork_head c) (fork_head_num c) (conn_node_id c) (remote_name c) (peer_requested c).

Definition with_sent_handshake_count (x : Z) (c : connection) : connection :=
  MkConnection (connection_id c) (peer_addr c) (connection_type c) (socket_open c) (connecting c) (syncing c)
    (protocol_version c) (consecutive_rejected_blocks c) x (no_retry c) (last_req c) (last_handshake_recv c)
    (last_handshake_sent c) (fork_head c) (fork_head_num c) (conn_node_id c) (remote_name c) (peer_requested c).

Definition with_no_retry (x : go_away_reason) (c : connection) : connection :=
  MkConnection (connection_id c) (peer_addr c) (connection_type c) (socket_open c) (connecting c) (syncing c)
    (protocol_version c) (consecutive_rejected_blocks c) (sent_handshake_count c) x (last_req c)
    (last_handshake_recv c) (last_handshake_sent c) (fork_head c) (fork_head_num c) (conn_node_id c)
    (remote_name c) (peer_requested c).

Definition with_last_req (x : option request_message) (c : connection) : connection :=
  MkConnection (connection_id c) (peer_addr c) (connection_type c) (socket_open c) (connecting c) (syncing c)
    (protocol_version c) (consecutive_rejected_blocks c) (sent_handshake_count c) (no_retry c) x
    (last_handshake_recv c) (last_handshake_sent c) (fork_head c) (fork_head_num c) (conn_node_id c)
    (remote_name c) (peer_requested c).

Definition with_last_handshake_recv (x : handshake_message) (c : connection) : connection :=
  MkConnection (connection_id c) (peer_addr c) (connection_type c) (socket_open c) (connecting c) (syncing c)
    (protocol_version c) (consecutive_rejected_blocks c) (sent_handshake_count c) (no_retry c) (last_req c) x
    (last_handshake_sent c) (fork_head c) (fork_head_num c) (conn_node_id c) (remote_name c) (peer_requested c).

Definition with_last_handshake_sent (x : handshake_message) (c : connection) : connection :=
  MkConnection (connection_id c) (peer_addr c) (connection_type c) (socket_open c) (connecting c) (syncing c)
    (protocol_version c) (consecutive_rejected_blocks c) (sent_handshake_count c) (no_retry c) (last_req c)
    (last_handshake_recv c) x (fork_head c) (fork_head_num c) (conn_node_id c) (remote_name c)
    (peer_requested c).

Definition with_fork_head (x : digest) (c : connection) : connection :=
  MkConnection (connection_id c) (peer_addr c) (connection_type c) (socket_open c) (connecting c) (syncing c)
    (protocol_version c) (consecutive_rejected_blocks c) (sent_handshake_count c) (no_retry c) (last_req c)
    (last_handshake_recv c) (last_handshake_sent c) x (fork_head_num c) (conn_node_id c) (remote_name c)
    (peer_requested c).

Definition with_fork_head_num (x : Z) (c : connection) : connection :=
  MkConnection (connection_id c) (peer_addr c) (connection_type c) (socket_open c) (connecting c) (syncing c)
    (protocol_version c) (consecutive_rejected_blocks c) (sent_handshake_count c) (no_retry c) (last_req c)
    (last_handshake_recv c) (last_handshake_sent c) (fork_head c) x (conn_node_id c) (remote_name c)
    (peer_requested c).

Definition with_conn_node_id (x : Z) (c : connection) : connection :=
  MkConnection (connection_id c) (peer_addr c) (connection_type c) (socket_open c) (connecting c) (syncing c)
    (protocol_version c) (consecutive_rejected_blocks c) (sent_handshake_count c) (no_retry c) (last_req c)
    (last_handshake_recv c) (last_handshake_sent c) (fork_head c) (fork_head_num c) x (remote_name c)
    (peer_requested c).

Definition with_peer_requested (x : option peer_sync_state) (c : connection) : connection :=
  MkConnection (connection_id c) (peer_addr c) (connection_type c) (socket_open c) (connecting c) (syncing c)
    (protocol_version c) (consecutive_rejected_blocks c) (sent_handshake_count c) (no_retry c) (last_req c)
    (last_handshake_recv c) (last_handshake_sent c) (fork_head c) (fork_head_num c) (conn_node_id c)
    (remote_name c) x.

Definition is_transactions_only_connection (c : connection) : bool := bool_decide (connection_type c = transactions_only).
Definition is_blocks_only_connection (c : connection) : bool := bool_decide (connection_type c = blocks_only).
Definition connected (c : connection) : bool := socket_open c && negb (connecting c).
Definition current (c : connection) : bool := connected c && negb (syncing c).

(** A new connection *)
Definition new_connection (id : Z) (addr : string) : connection :=
  MkConnection id addr both false true false 0 0 0 no_reason None no_handshake no_handshake null_id 0 0 "connecting client" None.

(** ** The state of the plugin *)

Record peer_block_state := MkPeerBlock { pb_id : digest; pb_block_num : Z; pb_connection_id : Z; pb_have_block : bool }.

Record node_transaction_state := MkTxn { nts_id : Z; expires : Z; nts_block_num : Z; nts_connection_id : Z }.

Inductive stages := lib_catchup | head_catchup | in_sync.

#[global] Instance stages_eq_dec : EqDecision stages.
Proof. solve_decision. Defined.

(** What [get_chain_info] returns *)
Record chain_infos := MkChain {
  chain_lib_num : Z;
  chain_head_blk_num : Z;
  chain_fork_head_blk_num : Z;
  chain_lib_id : digest;
  chain_head_blk_id : digest;
  chain_fork_head_blk_id : digest }.

Record sync_manager := MkSync {
  sync_known_lib_num : Z;
  sync_last_requested_num : Z;
  sync_next_expected_num : Z;
  sync_req_span : Z;
  sync_source : option Z;
  sync_state : stages }.

Definition with_sync_known_lib_num (x : Z) (m : sync_manager) : sync_manager :=
  MkSync x (sync_last_requested_num m) (sync_next_expected_num m) (sync_req_span m) (sync_source m) (sync_state m).

Definition with_sync_last_requested_num (x : Z) (m : sync_manager) : sync_manager :=
  MkSync (sync_known_lib_num m) x (sync_next_expected_num m) (sync_req_span m) (sync_source m) (sync_state m).

Definition with_sync_next_expected_num (x : Z) (m : sync_manager) : sync_manager :=
  MkSync (sync_known_lib_num m) (sync_last_requested_num m) x (sync_req_span m) (sync_source m) (sync_state m).

Definition with_sync_source (x : option Z) (m : sync_manager) : sync_manager :=
  MkSync (sync_known_lib_num m) (sync_last_requested_num m) (sync_next_expected_num m) (sync_req_span m) x (sync_state m).

Definition with_sync_state (x : stages) (m : sync_manager) : sync_manager :=
  MkSync (sync_known_lib_num m) (sync_last_requested_num m) (sync_next_expected_num m) (sync_req_span m) (sync_source m) x.

Record net := MkNet {
  sync_master : sync_manager;
  objects : gmap Z connection;
  connections : list Z;
  chain_info : chain_infos;
  blk_state : list peer_block_state;
  local_txns : list node_transaction_state;
  out : list output }.

Definition with_sync_master (x : sync_manager) (n : net) : net :=
  MkNet x (objects n) (connections n) (chain_info n) (blk_state n) (local_txns n) (out n).

Definition with_objects (x : gmap Z connection) (n : net) : net :=
  MkNet (sync_master n) x (connections n) (chain_info n) (blk_state n) (local_txns n) (out n).

Definition with_connections (x : list Z) (n : net) : net :=
  MkNet (sync_master n) (objects n) x (chain_info n) (blk_state n) (local_txns n) (out n).

Definition with_chain_info (x : chain_infos) (n : net) : net :=
  MkNet (sync_master n) (objects n) (connections n) x (blk_state n) (local_txns n) (out n).

Definition with_blk_state (x : list peer_block_state) (n : net) : net :=
  MkNet (sync_master n) (objects n) (connections n) (chain_info n) x (local_txns n) (out n).

Definition with_local_txns (x : list node_transaction_state) (n : net) : net :=
  MkNet (sync_master n) (objects n) (connections n) (chain_info n) (blk_state n) x (out n).

Definition with_out (x : list output) (n : net) : net :=
  MkNet (sync_master n) (objects n) (connections n) (chain_info n) (blk_state n) (local_txns n) x.

(** A shared object; one that was never made counts as closed. *)
Definition get (n : net) (c : Z) : connection := default (new_connection c "") (objects n !! c).
Definition modify (c : Z) (f : connection → connection) (n : net) : net := with_objects (<[c := f (get n c)]> (objects n)) n.
Definition emit (o : output) (n : net) : net := with_out (out n ++ [o]) n.
Definition sync (f : sync_manager → sync_manager) (n : net) : net := with_sync_master (f (sync_master n)) n.
Definition enqueue (c : Z) (m : message) (n : net) : net := emit (Send c m) n.
Definition send_handshake (c : Z) (force : bool) (n : net) : net := emit (PostHandshake c force) n.

(** [for_each_block_connection] with a function that never stops *)
Definition block_connections (n : net) : list Z :=
  filter (λ c, is_transactions_only_connection (get n c) = false) (connections n).

Section plugin.
Context (endian_reverse_u32 : Z → Z).
Notation num_from_id := (BlockHeader.num_from_id endian_reverse_u32).

(** ** The sync manager *)

Definition set_state (s : stages) (n : net) : net :=
  if bool_decide (sync_state (sync_master n) = s) then n else sync (with_sync_state s) n.

(** The first connection that can provide blocks, from the one after the old source and once
    around the ring *)
Fixpoint position (c : Z) (l : list Z) : option nat :=
  match l with
  | [] => None
  | c' :: l => if c =? c' then Some 0%nat else S <$> position c l
  end.

Definition provides (n : net) (c : Z) : bool := negb (is_transactions_only_connection (get n c)) && current (get n c).

Definition next_provider (n : net) (i : nat) : option Z :=
  List.find (provides n) (drop i (connections n) ++ take i (connections n)).

Definition choose_source (n : net) : option Z :=
  let old := sync_source (sync_master n) in
  match connections n with
  | [] => None
  | [c] => match old with Some _ => old | None => Some c end
  | _ =>
      match old with
      | None => next_provider n 0
      | Some s =>
          match position s (connections n) with
          | None => next_provider n 0
          | Some i =>
              let start := if Nat.eqb (S i) (length (connections n)) then 0%nat else S i in
              match next_provider n start with Some c => Some c | None => old end
          end
      end
  end.

(** [request_sync_blocks] *)
Definition request_sync_blocks (c start end_ : Z) (n : net) : net :=
  emit (SyncWait c) (enqueue c (SyncRequest (MkSyncRequest start end_)) n).

Definition request_next_chunk (conn : option Z) (n : net) : net :=
  let m := sync_master n in
  let fork_head_block_num := chain_fork_head_blk_num (chain_info n) in
  let lib_block_num := chain_lib_num (chain_info n) in
  if (fork_head_block_num <? sync_last_requested_num m) &&
     match sync_source m with Some s => current (get n s) | None => false end
  then n
  else
    let source := match conn with
                  | Some c => if current (get n c) then Some c else choose_source n
                  | None => choose_source n
                  end in
    let n := sync (with_sync_source source) n in
    match source with
    | Some c =>
        if current (get n c) && negb (is_transactions_only_connection (get n c)) then
          let start := sync_next_expected_num m in
          let end_ := Z.min (u32 (start + sync_req_span m - 1)) (sync_known_lib_num m) in
          if negb (sync_last_requested_num m =? sync_known_lib_num m) && (0 <? end_) && (start <=? end_) then
            request_sync_blocks c start end_ (sync (with_sync_last_requested_num end_) n)
          else send_handshake c false n
        else set_state in_sync (sync (λ m, with_sync_last_requested_num 0 (with_sync_known_lib_num lib_block_num m)) n)
    | None => set_state in_sync (sync (λ m, with_sync_last_requested_num 0 (with_sync_known_lib_num lib_block_num m)) n)
    end.

Definition sync_reset_lib_num (c : Z) (n : net) : net :=
  let n := if bool_decide (sync_state (sync_master n) = in_sync) then sync (with_sync_source None) n else n in
  if current (get n c) then
    let peer := last_irreversible_block_num (last_handshake_recv (get n c)) in
    if sync_known_lib_num (sync_master n) <? peer then sync (with_sync_known_lib_num peer) n else n
  else if bool_decide (sync_source (sync_master n) = Some c) then
    request_next_chunk None (sync (with_sync_last_requested_num 0) n)
  else n.

Definition send_handshakes (n : net) : net :=
  foldl (λ n c, if current (get n c) then send_handshake c false n else n) n (connections n).

Definition is_sync_required (fork_head_block_num : Z) (m : sync_manager) : bool :=
  (sync_last_requested_num m <? sync_known_lib_num m) || (fork_head_block_num <? sync_last_requested_num m).

Definition start_sync (c target : Z) (n : net) : net :=
  let n := if sync_known_lib_num (sync_master n) <? target then sync (with_sync_known_lib_num target) n else n in
  let lib_num := chain_lib_num (chain_info n) in
  if negb (is_sync_required (chain_fork_head_blk_num (chain_info n)) (sync_master n)) || (target <=? lib_num) then n
  else
    let n := if bool_decide (sync_state (sync_master n) = in_sync) then set_state lib_catchup n else n in
    let n := sync (λ m, with_sync_next_expected_num (Z.max (u32 (lib_num + 1)) (sync_next_expected_num m)) m) n in
    request_next_chunk (Some c) n.

Definition cancel_sync (c : Z) (reason : go_away_reason) (n : net) : net :=
  let n := emit (FlushQueues c) (emit (CancelWait c) n) in
  match reason with
  | validation | fatal_other => enqueue c (GoAway reason 0) (modify c (with_no_retry reason) n)
  | _ => enqueue c (SyncRequest (MkSyncRequest 0 0)) n
  end.

Definition sync_reassign_fetch (c : Z) (reason : go_away_reason) (n : net) : net :=
  if bool_decide (sync_source (sync_master n) = Some c) then
    request_next_chunk None (sync (with_sync_last_requested_num 0) (cancel_sync c reason n))
  else n.

(** Whether a block connection already follows that branch *)
Definition catchup_known (num : Z) (id : digest) (n : net) : bool :=
  existsb (λ c, (num <? fork_head_num (get n c)) || bool_decide (fork_head (get n c) = id)) (block_connections n).

Definition with_fork (id : digest) (num : Z) (c : connection) : connection := with_fork_head_num num (with_fork_head id c).

Definition verify_catchup (c num : Z) (id : digest) (n : net) : bool * net :=
  if catchup_known num id n then
    (true, enqueue c (Request (MkRequest (MkIds none 0 []) (MkIds none 0 []))) (modify c (with_fork null_id 0) n))
  else if bool_decide (sync_state (sync_master n) = lib_catchup) || (num <? chain_lib_num (chain_info n)) then (false, n)
  else
    let n := modify c (with_fork id num) (set_state head_catchup n) in
    (true, enqueue c (Request (MkRequest (MkIds none 0 []) (MkIds catch_up 0 [chain_fork_head_blk_id (chain_info n)]))) n).

Definition proto_base : Z := 0.
Definition proto_explicit_sync : Z := 1.

Definition recv_handshake (c : Z) (msg : handshake_message) (n : net) : net :=
  if is_transactions_only_connection (get n c) then n
  else
    let lib_num := chain_lib_num (chain_info n) in
    let peer_lib := last_irreversible_block_num msg in
    let head := chain_fork_head_blk_num (chain_info n) in
    let head_id' := chain_fork_head_blk_id (chain_info n) in
    let n := sync_reset_lib_num c n in
    if bool_decide (head_id' = head_id msg) then
      enqueue c (Notice (MkNotice (MkIds catch_up 0 []) (MkIds none 0 []))) (modify c (with_syncing false) n)
    else if head <? peer_lib then
      let n := modify c (with_syncing false) n in
      if protocol_version (get n c) <? proto_explicit_sync then start_sync c peer_lib n else n
    else if head_num msg <? lib_num then
      let n := if (1 <? generation msg) || (proto_base <? protocol_version (get n c)) then
                 enqueue c (Notice (MkNotice (MkIds last_irr_catch_up lib_num []) (MkIds last_irr_catch_up head []))) n
               else n in
      modify c (with_syncing true) n
    else if head <? head_num msg then
      (verify_catchup c (head_num msg) (head_id msg) (modify c (with_syncing false) n)).2
    else
      let n := if (1 <? generation msg) || (proto_base <? protocol_version (get n c)) then
                 enqueue c (Notice (MkNotice (MkIds none 0 []) (MkIds catch_up head [head_id']))) n
               else n in
      emit (PostForkCheck c (head_num msg) (head_id msg)) (modify c (with_syncing false) n).

(** The function that the last case posts: [on_fork] compares the block with the controller's. *)
Definition fork_check (c : Z) (on_fork : bool) (n : net) : net :=
  if on_fork then enqueue c (Request (MkRequest (MkIds none 0 []) (MkIds catch_up 0 []))) n else n.

Definition def_max_consecutive_rejected_blocks : Z := 13.

Definition rejected_block (c : Z) (n : net) : net :=
  let k := u16 (consecutive_rejected_blocks (get n c) + 1) in
  let n := modify c (with_consecutive_rejected_blocks k) n in
  if def_max_consecutive_rejected_blocks <? k then
    emit (PostClose c true false) (sync (λ m, with_sync_source None (with_sync_last_requested_num 0 m)) n)
  else send_handshake c true n.

Definition sync_update_expected (blk_num : Z) (blk_applied : bool) (n : net) : net :=
  let m := sync_master n in
  if blk_num <=? sync_last_requested_num m then
    if negb (blk_num =? sync_next_expected_num m) && negb blk_applied then n
    else sync (with_sync_next_expected_num (u32 (blk_num + 1))) n
  else n.

(** The loop over the block connections in [head_catchup]: what is forgotten is the branch of
    [c], from which the block came. *)
Definition forget_branches (c : Z) (blk_id : digest) (blk_num : Z) (n : net) : bool * net :=
  foldl (λ '(again, n) cp,
    let x := get n cp in
    if bool_decide (fork_head x = null_id) then (again, n)
    else if (fork_head_num x <? blk_num) || bool_decide (fork_head x = blk_id) then (again, modify c (with_fork null_id 0) n)
    else (true, n)) (false, n) (block_connections n).

Definition sync_recv_block (is_quiting : bool) (c : Z) (blk_id : digest) (blk_num : Z) (blk_applied : bool) (n : net) : net :=
  if is_quiting then emit (PostClose c false true) n
  else
    let n := sync_update_expected blk_num blk_applied (modify c (with_consecutive_rejected_blocks 0) n) in
    match sync_state (sync_master n) with
    | head_catchup =>
        let '(again, n) := forget_branches c blk_id blk_num (sync (with_sync_source None) n) in
        if again then set_state head_catchup n else send_handshakes (set_state in_sync n)
    | lib_catchup =>
        if blk_num =? sync_known_lib_num (sync_master n) then send_handshakes (set_state in_sync n)
        else if blk_num =? sync_last_requested_num (sync_master n) then request_next_chunk None n
        else emit (SyncWait c) n
    | in_sync => n
    end.

(** ** The dispatch manager *)

Definition has_entry (id : digest) (connection_id : Z) (e : peer_block_state) : bool :=
  (pb_connection_id e =? connection_id) && bool_decide (pb_id e = id).

Definition peer_has_block (id : digest) (connection_id : Z) (n : net) : bool := existsb (has_entry id connection_id) (blk_state n).

(** An entry with the block comes first in the index, when there is one. *)
Definition have_block (id : digest) (n : net) : bool :=
  existsb (λ e, bool_decide (pb_id e = id) && pb_have_block e) (blk_state n).

Definition add_peer_block (id : digest) (connection_id : Z) (n : net) : bool * net :=
  if peer_has_block id connection_id n then
    (false, with_blk_state ((λ e, if has_entry id connection_id e then MkPeerBlock (pb_id e) (pb_block_num e) (pb_connection_id e) true
                                  else e) <$> blk_state n) n)
  else (true, with_blk_state (blk_state n ++ [MkPeerBlock id (num_from_id id) connection_id true]) n).

Definition sync_recv_notice (c : Z) (msg : notice_message) (n : net) : result exn net :=
  match mode (known_blocks msg) with
  | catch_up =>
      match last (ids (known_blocks msg)) with
      | None => Ok n
      | Some id =>
          if have_block id n then Ok (send_handshake c false n)
          else Ok (verify_catchup c (pending (known_blocks msg)) id n).2
      end
  | last_irr_catch_up =>
      let lib := pending (known_trx msg) in
      let h (x : handshake_message) :=
        MkHandshake (network_version x) (chain_id x) (node_id x) (key x) (time x) (token x) (sig x) (p2p_address x) lib
          (last_irreversible_block_id x) (head_num x) (head_id x) (os x) (agent x) (generation x) in
      let n := modify c (λ x, with_last_handshake_recv (h (last_handshake_recv x)) x) n in
      Ok (start_sync c lib (sync_reset_lib_num c n))
  | _ => Throw plugin_exception
  end.

Definition has_txn (id connection_id : Z) (e : node_transaction_state) : bool :=
  (nts_id e =? id) && (nts_connection_id e =? connection_id).

Definition peer_has_txn (id connection_id : Z) (n : net) : bool := existsb (has_txn id connection_id) (local_txns n).

Definition have_txn (id : Z) (n : net) : bool := existsb (λ e, nts_id e =? id) (local_txns n).

Definition add_peer_txn (nts : node_transaction_state) (n : net) : bool * net :=
  if peer_has_txn (nts_id nts) (nts_connection_id nts) n then (false, n)
  else (true, with_local_txns (local_txns n ++ [nts]) n).

(** [update_txns_block_num] for a block with the identifiers [l] of its transactions *)
Definition update_txns_block_num (l : list Z) (blk_num : Z) (n : net) : net :=
  with_local_txns ((λ e, if bool_decide (nts_id e ∈ l) then MkTxn (nts_id e) (expires e) blk_num (nts_connection_id e) else e)
                   <$> local_txns n) n.

Definition expire_txns (now lib_num : Z) (n : net) : net :=
  with_local_txns (filter (λ e, ¬ (1 ≤ nts_block_num e ≤ lib_num))
                     (filter (λ e, ¬ (0 ≤ expires e ≤ now)) (local_txns n))) n.

Definition expire_blocks (lib_num : Z) (n : net) : net :=
  with_blk_state (filter (λ e, ¬ (1 ≤ pb_block_num e ≤ lib_num)) (blk_state n)) n.

(** [net_plugin_impl::expire] *)
Definition expire (now : Z) (n : net) : net :=
  let lib := chain_lib_num (chain_info n) in expire_txns now lib (expire_blocks lib n).

(** The function that [bcast_block] posts for a connection *)
Definition bcast_block_to (id : digest) (bnum : Z) (n : net) (cp : Z) : net :=
  if negb (current (get n cp)) then n
  else if bnum <=? last_irreversible_block_num (last_handshake_recv (get n cp)) then n
  else match add_peer_block id (connection_id (get n cp)) n with
       | (false, n) => n
       | (true, n) => enqueue cp (Block id bnum) n
       end.

Definition bcast_block (id : digest) (bnum : Z) (n : net) : net :=
  if bool_decide (sync_state (sync_master n) = lib_catchup) then n
  else foldl (bcast_block_to id bnum) n (block_connections n).

Definition recv_block (c : Z) (id : digest) (n : net) : net :=
  let n := match last_req (get n c) with
           | Some r =>
               if negb (bool_decide (mode (req_blocks r) = none)) && bool_decide (last (ids (req_blocks r)) = Some id)
               then modify c (with_last_req None) n else n
           | None => n
           end in
  emit (CancelWait c) n.

Definition bcast_transaction (id expiration : Z) (n : net) : net :=
  foldl (λ n cp,
    if is_blocks_only_connection (get n cp) || negb (current (get n cp)) then n
    else match add_peer_txn (MkTxn id expiration 0 (connection_id (get n cp))) n with
         | (false, n) => n
         | (true, n) => enqueue cp (Transaction id) n
         end) n (connections n).

Definition rejected_transaction (id expiration now head_blk_num : Z) (n : net) : net :=
  if now <? expiration then update_txns_block_num [id] head_blk_num n else n.

(** A request that was moved from has no identifiers. *)
Definition moved_from (r : request_message) : request_message :=
  MkRequest (MkIds (mode (req_trx r)) (pending (req_trx r)) []) (MkIds (mode (req_blocks r)) (pending (req_blocks r)) []).

Definition retry_fetch (c : Z) (n : net) : net :=
  match last_req (get n c) with
  | None => n
  | Some r =>
      match mode (req_blocks r), last (ids (req_blocks r)) with
      | normal, Some bid =>
          let other := List.find (λ cp, negb (cp =? c) && match last_req (get n cp) with None => true | Some _ => false end &&
                                        peer_has_block bid (connection_id (get n cp)) n) (block_connections n) in
          let '(r', n) := match other with
                          | Some cp => (moved_from r, modify cp (with_last_req (Some r)) (emit (FetchWait cp) (enqueue cp (Request r) n)))
                          | None => (r, n)
                          end in
          if connected (get n c) then emit (FetchWait c) (enqueue c (Request r') n) else n
      | _, _ => n
      end
  end.

(** ** Connections: sending blocks *)

Definition enqueue_sync_block (c : Z) (n : net) : bool * net :=
  match peer_requested (get n c) with
  | None => (false, n)
  | Some p =>
      let num := u32 (last_sent p + 1) in
      let n := modify c (with_peer_requested
                 (if num =? ps_end_block p then None else Some (MkPeerSync (ps_start_block p) (ps_end_block p) num))) n in
      (true, emit (PostFetchNum c num) n)
  end.

(** The function it posts: [b] is the block with the number, if the controller has it. *)
Definition fetched_num (c num : Z) (b : option digest) (n : net) : net :=
  match b with
  | Some id => enqueue c (Block id num) n
  | None => send_handshake c false n
  end.

Definition blk_send_branch_impl (c msg_head_num lib_num head_num : Z) (n : net) : net :=
  let p := match peer_requested (get n c) with
           | None =>
               let last := if msg_head_num =? 0 then lib_num else msg_head_num in
               MkPeerSync (u32 (last + 1)) head_num last
           | Some p =>
               let last := if msg_head_num =? 0 then Z.min (last_sent p) lib_num else msg_head_num in
               MkPeerSync (u32 (last + 1)) (Z.max (ps_end_block p) head_num) last
           end in
  if ps_start_block p <=? ps_end_block p then (enqueue_sync_block c (modify c (with_peer_requested (Some p)) n)).2
  else modify c (with_peer_requested None) n.

Definition blk_send_branch (c : Z) (msg_head_id : digest) (n : net) : net :=
  let head := chain_fork_head_blk_num (chain_info n) in
  if head =? 0 then enqueue c (Notice (MkNotice (MkIds none 0 []) (MkIds normal 0 []))) n
  else
    let lib_num := num_from_id (last_irreversible_block_id (last_handshake_recv (get n c))) in
    if lib_num =? 0 then n else emit (PostSendBranch c lib_num head msg_head_id) n.

(** The function it posts: [id_for_num] is what the controller finds for a block number. *)
Definition send_branch (c lib_num head_num : Z) (msg_head_id : digest) (id_for_num : Z → option digest) (n : net) : net :=
  let msg_head_num := num_from_id msg_head_id in
  let on_fork := (msg_head_num =? 0) || negb (bool_decide (id_for_num msg_head_num = Some msg_head_id)) in
  blk_send_branch_impl c (if on_fork then 0 else msg_head_num) lib_num head_num n.

Definition fetched_id (c : Z) (id : digest) (b : option Z) (n : net) : net :=
  match b with
  | Some num => enqueue c (Block id num) (add_peer_block id (connection_id (get n c)) n).2
  | None => n
  end.

Definition stop_send (c : Z) (n : net) : net := modify c (with_syncing false) n.

(** [_close] *)
Definition close (c : Z) (reconnect shutdown : bool) (n : net) : net :=
  let n := modify c (with_socket_open false) n in
  let n := emit (FlushQueues c) n in
  let n := modify c (λ x, with_consecutive_rejected_blocks 0 (with_syncing false (with_connecting false x))) n in
  let has_last_req := match last_req (get n c) with Some _ => true | None => false end in
  let n := modify c (λ x, with_conn_node_id 0 (with_last_handshake_sent no_handshake (with_last_handshake_recv no_handshake x))) n in
  let n := if has_last_req && negb shutdown then retry_fetch c n else n in
  let n := modify c (λ x, with_sent_handshake_count 0 (with_peer_requested None x)) n in
  let n := if shutdown then n else sync_reset_lib_num c n in
  let n := emit (CancelWait c) n in
  if reconnect && negb shutdown then emit PostConnTimer n else n.

(** The timers, when they expire *)
Definition sync_timeout (c : Z) (n : net) : net := sync_reassign_fetch c benign_other n.
Definition fetch_timeout (c : Z) (n : net) : net := retry_fetch c n.

(** ** Connections: messages *)

Definition handle_go_away (c : Z) (reason : go_away_reason) (node : Z) (n : net) : net :=
  let retry := bool_decide (no_retry (get n c) = no_reason) in
  let n := modify c (with_no_retry reason) n in
  let n := if bool_decide (reason = duplicate) then modify c (with_conn_node_id node) n else n in
  let n := if bool_decide (reason = wrong_version) && negb retry then modify c (with_no_retry fatal_other) n else n in
  emit (PostClose c (bool_decide (reason = wrong_version) && retry) false) (emit (FlushQueues c) n).

Definition with_peer_head (num : Z) (x : handshake_message) : handshake_message :=
  MkHandshake (network_version x) (chain_id x) (node_id x) (key x) (time x) (token x) (sig x) (p2p_address x)
    (last_irreversible_block_num x) (last_irreversible_block_id x) num (head_id x) (os x) (agent x) (generation x).

Definition handle_notice (c : Z) (msg : notice_message) (n : net) : result exn net :=
  let n := modify c (with_connecting false) n in
  if Nat.ltb 1 (length (ids (known_blocks msg))) then Ok (emit (PostClose c false false) n)
  else
    let n := match mode (known_trx msg) with
             | last_irr_catch_up =>
                 modify c (λ x, with_last_handshake_recv (with_peer_head (pending (known_blocks msg)) (last_handshake_recv x)) x) n
             | _ => n
             end in
    match mode (known_blocks msg) with
    | last_irr_catch_up | catch_up => sync_recv_notice c msg n
    | _ => Ok n
    end.

Definition handle_request (c : Z) (msg : request_message) (n : net) : net :=
  if Nat.ltb 1 (length (ids (req_blocks msg))) then emit (PostClose c true false) n
  else
    let n := match mode (req_blocks msg) with
             | catch_up => blk_send_branch c (default null_id (last (ids (req_blocks msg)))) n
             | normal => match last (ids (req_blocks msg)) with Some id => emit (PostFetchId c id) n | None => n end
             | _ => n
             end in
    let n := match mode (req_trx msg), mode (req_blocks msg) with
             | none, none => stop_send c n
             | _, _ => n
             end in
    match mode (req_trx msg) with
    | none | normal => match ids (req_trx msg) with [] => n | _ => emit (PostClose c true false) n end
    | _ => n
    end.

Definition handle_sync_request (c : Z) (msg : sync_request_message) (n : net) : net :=
  if end_block msg =? 0 then emit (FlushQueues c) (modify c (with_peer_requested None) n)
  else
    (enqueue_sync_block c (modify c (with_peer_requested
       (Some (MkPeerSync (start_block msg) (end_block msg) (u32 (start_block msg - 1))))) n)).2.

(** What the controller says of a received block *)
Inductive verdict := Known | Ignored | Accepted | Refused.

(** [process_signed_block]: [chain] is the information about the chain after the block, [txns]
    are its transactions. *)
Definition process_signed_block (is_quiting : bool) (c : Z) (id : digest) (num : Z) (txns : list Z) (v : verdict)
    (chain : chain_infos) (n : net) : net :=
  if negb (socket_open (get n c)) then n
  else match v with
       | Known => sync_recv_block is_quiting c id num false (add_peer_block id (connection_id (get n c)) n).2
       | Ignored => with_chain_info chain n
       | Accepted =>
           let n := with_chain_info chain n in
           let n := update_txns_block_num txns num (add_peer_block id (connection_id (get n c)) n).2 in
           sync_recv_block is_quiting c id num true (recv_block c id n)
       | Refused => rejected_block c n
       end.

(** ** Handshakes *)

Definition max_handshake_str_length : nat := 384.

(** The configuration of the plugin, and what it uses of cryptography: the hash of a time and
    the key recovered from a signature of a token *)
Record net_config := MkConfig {
  cfg_chain_id : Z;
  cfg_node_id : Z;
  cfg_p2p_address : string;
  cfg_node_str : string;
  cfg_agent : string;
  allowed_connections : Z;
  allowed_peers : list Z;
  private_keys : list Z;
  is_producer_key : Z → bool;
  hash_time : Z → Z;
  recover_key : Z → Z → option Z;
  sign_compact : Z → Z → Z }.

Definition is_valid (cfg : net_config) (msg : handshake_message) : bool :=
  negb (head_num msg <? last_irreversible_block_num msg) &&
  negb (String.eqb (p2p_address msg) "") && Nat.leb (String.length (p2p_address msg)) max_handshake_str_length &&
  negb (String.eqb (os msg) "") && Nat.leb (String.length (os msg)) max_handshake_str_length &&
  Nat.leb (String.length (agent msg)) max_handshake_str_length &&
  negb ((negb (sig msg =? 0) || negb (token msg =? 0)) && negb (token msg =? hash_time cfg (time msg))).

(** [possible_connections] *)
Definition None_ : Z := 0.
Definition Producers : Z := 1.
Definition Specified : Z := 2.
Definition Any : Z := 4.

(** One second, in nanoseconds *)
Definition peer_authentication_interval : Z := 1000000000.

Definition authenticate_peer (cfg : net_config) (now : Z) (msg : handshake_message) : bool :=
  let restricted := negb (Z.land (allowed_connections cfg) (Z.lor Producers Specified) =? 0) in
  if allowed_connections cfg =? None_ then false
  else if allowed_connections cfg =? Any then true
  else if restricted && negb (existsb (Z.eqb (key msg)) (allowed_peers cfg)) && negb (existsb (Z.eqb (key msg)) (private_keys cfg)) &&
          negb (is_producer_key cfg (key msg)) then false
  else if peer_authentication_interval <? s64 (now - time msg) then false
  else if negb (sig msg =? 0) && negb (token msg =? 0) then
    if negb (hash_time cfg (time msg) =? token msg) then false
    else match recover_key cfg (sig msg) (token msg) with
         | None => false
         | Some peer_key => negb (restricted && negb (peer_key =? key msg))
         end
  else negb restricted.

Definition net_version_base : Z := 1205.
Definition net_version_range : Z := 106.
Definition net_version : Z := proto_explicit_sync.

Definition to_protocol_version (v : Z) : Z :=
  if net_version_base <=? v then if net_version_range <? v - net_version_base then 0 else v - net_version_base else 0.

Definition peer_name (c : connection) : string :=
  if negb (String.eqb (p2p_address (last_handshake_recv c)) "") then p2p_address (last_handshake_recv c)
  else if negb (String.eqb (peer_addr c) "") then peer_addr c
  else remote_name c.

(** [string::find] of a character from a position, and [find_first_of] *)
Fixpoint find_from (p : Ascii.ascii → bool) (s : string) (i from : nat) : option nat :=
  match s with
  | EmptyString => None
  | String a s => if Nat.leb from i && p a then Some i else find_from p s (S i) from
  end.

Definition symbols : string := " :+=.,<>!$%^&(*)|-#@" +:+ String (Ascii.ascii_of_nat 9) "".
Fixpoint is_symbol (t : string) (a : Ascii.ascii) : bool :=
  match t with EmptyString => false | String b t => Ascii.eqb a b || is_symbol t a end.

(** The character that separates the parts *)
Definition colon_char : Ascii.ascii := Ascii.ascii_of_nat 58.

(** The third part of [host:port:type] *)
Definition type_of_address (s : string) : string :=
  let colon := find_from (Ascii.eqb colon_char) s 0 0 in
  (* [npos + 1] is 0 *)
  let colon2 := find_from (Ascii.eqb colon_char) s 0 (match colon with Some i => S i | None => 0%nat end) in
  match colon2 with
  | None => ""
  | Some j =>
      match find_from (is_symbol symbols) s 0 (S j) with
      | None => String.substring (S j) (String.length s - S j) s
      | Some e => String.substring (S j) (e - S j) s
      end
  end.

Definition set_connection_type (peer_add : string) (c : connection) : connection :=
  let type := type_of_address peer_add in
  if String.eqb type "" then with_connection_type both c
  else if String.eqb type "trx" then with_connection_type transactions_only c
  else if String.eqb type "blk" then with_connection_type blocks_only c
  else c.

(** A connection to the same peer that is kept instead of [c] *)
Definition duplicate_of (c : Z) (msg : handshake_message) (n : net) : bool :=
  existsb (λ k, negb (k =? c) && connected (get n k) && String.eqb (peer_name (get n k)) (p2p_address msg) &&
    (s64 (time (last_handshake_sent (get n k)) + time (last_handshake_recv (get n k))) <?
     s64 (time msg + time (last_handshake_sent (get n c))))) (connections n).

(** The checks of the first handshake; [None] when the connection has been told to go away *)
Definition first_handshake (cfg : net_config) (now c : Z) (msg : handshake_message) (n : net) : bool * net :=
  if node_id msg =? cfg_node_id cfg then (false, enqueue c (GoAway self 0) n)
  else
    let n := if String.eqb (peer_addr (get n c)) "" then modify c (set_connection_type (p2p_address msg)) n else n in
    if (String.eqb (peer_addr (get n c)) "" || (node_id (last_handshake_recv (get n c)) =? 0)) && duplicate_of c msg n then
      (false, modify c (with_no_retry duplicate) (enqueue c (GoAway duplicate (conn_node_id (get n c))) n))
    else if negb (chain_id msg =? cfg_chain_id cfg) then (false, enqueue c (GoAway wrong_chain 0) n)
    else
      let n := modify c (λ x, with_conn_node_id (node_id msg) (with_protocol_version (to_protocol_version (network_version msg)) x)) n in
      if negb (authenticate_peer cfg now msg) then (false, enqueue c (GoAway authentication 0) n)
      else
        let n := emit (PostLibCheck c (last_irreversible_block_num msg) (last_irreversible_block_id msg)) n in
        (true, if sent_handshake_count (get n c) =? 0 then send_handshake c false n else n).

Definition handle_handshake (cfg : net_config) (now c : Z) (msg : handshake_message) (n : net) : net :=
  if negb (is_valid cfg msg) then enqueue c (GoAway fatal_other 0) n
  else
    let n := modify c (with_connecting false) n in
    let '(go_on, n) := if generation msg =? 1 then first_handshake cfg now c msg n else (true, n) in
    if go_on then recv_handshake c msg (modify c (with_last_handshake_recv msg) n) else n.

(** What the controller knows of the irreversible block of a peer *)
Inductive id_for_num := Found (id : digest) | UnknownBlock | Failed.

(** The function that the first handshake posts *)
Definition lib_check (c peer_lib : Z) (msg_lib_id : digest) (lib_num : Z) (r : id_for_num) (n : net) : net :=
  if (peer_lib <=? lib_num) && (0 <? peer_lib) then
    match r with
    | Found id => if bool_decide (msg_lib_id = id) then n else enqueue c (GoAway forked 0) n
    | UnknownBlock => enqueue c (GoAway benign_other 0) (modify c (with_no_retry benign_other) n)
    | Failed => enqueue c (GoAway forked 0) n
    end
  else n.

(** [populate_handshake]: whether the message is to be sent, and the message *)
Definition populate_handshake (cfg : net_config) (now : Z) (force : bool) (c : connection) (i : chain_infos) : bool * handshake_message :=
  let h := last_handshake_sent c in
  let send := force || negb (chain_lib_num i =? last_irreversible_block_num h) ||
              negb (chain_fork_head_blk_num i =? head_num h) || negb (bool_decide (head_id h = chain_fork_head_blk_id i)) in
  if negb send then
    (false, MkHandshake (net_version_base + net_version) (chain_id h) (node_id h) (key h) (time h) (token h) (sig h) (p2p_address h)
              (last_irreversible_block_num h) (chain_lib_id i) (head_num h) (chain_fork_head_blk_id i) (os h) (agent h) (generation h))
  else
    let key := match private_keys cfg with k :: _ => k | [] => 0 end in
    let sig := sign_compact cfg key (hash_time cfg now) in
    let token := if sig =? 0 then 0 else hash_time cfg now in
    let kind := match connection_type c with both => "" | transactions_only => ":trx" | blocks_only => ":blk" end in
    (true, MkHandshake (net_version_base + net_version) (cfg_chain_id cfg) (cfg_node_id cfg) key now token sig
             (cfg_p2p_address cfg +:+ kind +:+ " - " +:+ String.substring 0 7 (cfg_node_str cfg))
             (chain_lib_num i) (chain_lib_id i) (chain_fork_head_blk_num i) (chain_fork_head_blk_id i) "linux" (cfg_agent cfg)
             (generation h)).

Definition with_generation (g : Z) (x : handshake_message) : handshake_message :=
  MkHandshake (network_version x) (chain_id x) (node_id x) (key x) (time x) (token x) (sig x) (p2p_address x)
    (last_irreversible_block_num x) (last_irreversible_block_id x) (head_num x) (head_id x) (os x) (agent x) g.

(** The function that [send_handshake] posts *)
Definition do_send_handshake (cfg : net_config) (now c : Z) (force : bool) (n : net) : net :=
  match populate_handshake cfg now force (get n c) (chain_info n) with
  | (false, hello) => modify c (with_last_handshake_sent hello) n
  | (true, hello) =>
      let count := sent_handshake_count (get n c) in
      let count := (if count =? 32767 then 1 else count) + 1 in
      let hello := with_generation count hello in
      enqueue c (Hello hello) (modify c (λ x, with_last_handshake_sent hello (with_sent_handshake_count count x)) n)
  end.

(** ** Events *)

(** A step of the plugin: a message, a block, a timer, a posted function, or a change of the
    chain or of the connections.  Answers of the controller are part of the event. *)
Inductive event :=
  | OnHandshake (now c : Z) (msg : handshake_message)
  | OnGoAway (c : Z) (reason : go_away_reason) (node : Z)
  | OnNotice (c : Z) (msg : notice_message)
  | OnRequest (c : Z) (msg : request_message)
  | OnSyncRequest (c : Z) (msg : sync_request_message)
  | OnBlock (is_quiting : bool) (c : Z) (id : digest) (num : Z) (txns : list Z) (v : verdict) (chain : chain_infos)
  | OnTransaction (id expiration c : Z)
  | OnSyncTimeout (c : Z)
  | OnFetchTimeout (c : Z)
  | OnClose (c : Z) (reconnect shutdown : bool)
  | OnSendHandshake (now c : Z) (force : bool)
  | OnLibCheck (c peer_lib : Z) (id : digest) (r : id_for_num)
  | OnForkCheck (c : Z) (on_fork : bool)
  | OnSendBranch (c lib_num head_num : Z) (id : digest) (id_for_num : Z → option digest)
  | OnWritten (c : Z)
  | OnFetchedNum (c num : Z) (b : option digest)
  | OnFetchedId (c : Z) (id : digest) (b : option Z)
  | OnAccepted (id : digest) (num : Z) (chain : chain_infos)
  | OnIrreversible (chain : chain_infos)
  | OnAck (id expiration : Z)
  | OnNack (id expiration now : Z)
  | OnExpire (now : Z)
  | OnConnect (c : Z) (addr : string) (before : nat)
  | OnSession (c : Z)
  | OnErase (c : Z).

(** [handle_message] of a transaction, up to the call of the controller *)
Definition handle_transaction (id expiration c : Z) (n : net) : net :=
  (add_peer_txn (MkTxn id expiration 0 (connection_id (get n c))) n).2.

(** [OnConnect] adds a new connection to the set, at the place of its address; [OnSession] opens
    its socket; [OnErase] is what the monitor does to a closed connection. *)
Definition step (cfg : net_config) (e : event) (n : net) : net :=
  match e with
  | OnHandshake now c msg => handle_handshake cfg now c msg n
  | OnGoAway c reason node => handle_go_away c reason node n
  | OnNotice c msg => match handle_notice c msg n with Ok n => n | Throw _ => n end
  | OnRequest c msg => handle_request c msg n
  | OnSyncRequest c msg => handle_sync_request c msg n
  | OnBlock q c id num txns v chain => process_signed_block q c id num txns v chain n
  | OnTransaction id expiration c => handle_transaction id expiration c n
  | OnSyncTimeout c => sync_timeout c n
  | OnFetchTimeout c => fetch_timeout c n
  | OnClose c reconnect shutdown => close c reconnect shutdown n
  | OnSendHandshake now c force => do_send_handshake cfg now c force n
  | OnLibCheck c peer_lib id r => lib_check c peer_lib id (chain_lib_num (chain_info n)) r n
  | OnForkCheck c on_fork => fork_check c on_fork n
  | OnSendBranch c lib_num head_num id f => send_branch c lib_num head_num id f n
  | OnWritten c => (enqueue_sync_block c n).2
  | OnFetchedNum c num b => fetched_num c num b n
  | OnFetchedId c id b => fetched_id c id b n
  | OnAccepted id num chain => bcast_block id num (with_chain_info chain n)
  | OnIrreversible chain => with_chain_info chain n
  | OnAck id expiration => bcast_transaction id expiration n
  | OnNack id expiration now => rejected_transaction id expiration now (chain_head_blk_num (chain_info n)) n
  | OnExpire now => expire now n
  | OnConnect c addr i =>
      with_connections (take i (connections n) ++ c :: drop i (connections n))
        (with_objects (<[c := set_connection_type addr (new_connection c addr)]> (objects n)) n)
  | OnSession c => modify c (with_socket_open true) n
  | OnErase c => with_connections (filter (λ k, k ≠ c) (connections n)) n
  end.

(** The highest block that an event announces as irreversible, to or by this node *)
Definition announces (e : event) : Z :=
  match e with
  | OnHandshake _ _ msg => last_irreversible_block_num msg
  | OnNotice _ msg => pending (known_trx msg)
  | OnBlock _ _ _ _ _ _ chain | OnAccepted _ _ chain | OnIrreversible chain => chain_lib_num chain
  | _ => 0
  end.

Definition announced (es : list event) : Z := foldr (λ e a, Z.max (announces e) a) 0 es.

(** Numbers of blocks are not negative. *)
Definition event_ok (e : event) : Prop := 0 ≤ announces e.

(** A new plugin: [sync_manager::sync_manager] *)
Definition initial (span : Z) : net :=
  MkNet (MkSync 0 0 1 span None in_sync) ∅ [] (MkChain 0 0 0 null_id null_id null_id) [] [] [].

Definition run (cfg : net_config) (n : net) (es : list event) : net := foldl (λ n e, step cfg e n) n es.

(** ** Requests are bounded *)

(** A request for blocks is empty, or for a range within the span that ends at [a] or before. *)
Definition request_ok (span a : Z) (o : output) : Prop :=
  match o with
  | Send _ (SyncRequest r) =>
      (start_block r = 0 ∧ end_block r = 0) ∨
      (start_block r ≤ end_block r ∧ 0 < end_block r ≤ a ∧ end_block r - start_block r < span)
  | _ => True
  end.

Definition peer_lib (c : connection) : Z := last_irreversible_block_num (last_handshake_recv c).

Definition sync_inv (span a : Z) (m : sync_manager) : Prop :=
  0 ≤ sync_last_requested_num m ≤ sync_known_lib_num m ∧ sync_known_lib_num m ≤ a ∧ sync_req_span m = span ∧
  0 ≤ sync_next_expected_num m.

Definition net_inv (span a : Z) (n : net) : Prop :=
  sync_inv span a (sync_master n) ∧ 0 ≤ chain_lib_num (chain_info n) ≤ a ∧
  (∀ c, peer_lib (get n c) ≤ a) ∧ Forall (request_ok span a) (out n).

Section invariant.
Context (span a : Z).
Hypothesis Ha : 0 ≤ a.
Hypothesis Hspan : 1 ≤ span.
Notation inv := (net_inv span a).

Lemma inv_emit o n : request_ok span a o → inv n → inv (emit o n).
Proof. intros Ho (H1 & H2 & H3 & H4). refine (conj H1 (conj H2 (conj H3 _))). cbn. apply Forall_app. by split; [|apply Forall_singleton]. Qed.

Lemma inv_modify c f n : (∀ x, peer_lib x ≤ a → peer_lib (f x) ≤ a) → inv n → inv (modify c f n).
Proof.
  intros Hf (H1 & H2 & H3 & H4). refine (conj H1 (conj H2 (conj _ H4))). intros k. unfold get, modify. cbn.
  destruct (decide (c = k)) as [->|Hne]; [rewrite lookup_insert_eq; apply Hf, H3|]. rewrite lookup_insert_ne by done. apply H3.
Qed.

Lemma inv_keep c f n : (∀ x, last_handshake_recv (f x) = last_handshake_recv x) → inv n → inv (modify c f n).
Proof. intros Hf. apply inv_modify. intros x. unfold peer_lib. by rewrite Hf. Qed.

Lemma inv_sync f n : (sync_inv span a (sync_master n) → sync_inv span a (f (sync_master n))) → inv n → inv (sync f n).
Proof. intros Hf (H1 & H2). refine (conj (Hf H1) H2). Qed.

Lemma inv_state s n : inv n → inv (set_state s n).
Proof. intros Hn. unfold set_state. case_bool_decide; [done|]. by apply inv_sync. Qed.

Lemma inv_source s n : inv n → inv (sync (with_sync_source s) n).
Proof. by apply inv_sync. Qed.

Lemma inv_zero n : inv n → inv (sync (with_sync_last_requested_num 0) n).
Proof. apply inv_sync. unfold sync_inv. cbn. lia. Qed.

Lemma inv_blk_state l n : inv n → inv (with_blk_state l n).
Proof. by intros. Qed.

Lemma inv_local_txns l n : inv n → inv (with_local_txns l n).
Proof. by intros. Qed.

Lemma inv_connections l n : inv n → inv (with_connections l n).
Proof. by intros. Qed.

Lemma inv_chain_info i n : 0 ≤ chain_lib_num i ≤ a → inv n → inv (with_chain_info i n).
Proof. intros Hi (H1 & _ & H3). exact (conj H1 (conj Hi H3)). Qed.

Lemma inv_foldl {B} (f : net → B → net) l n : (∀ n x, inv n → inv (f n x)) → inv n → inv (foldl f n l).
Proof. intros Hf. revert n. induction l as [|x l IH]; intros n Hn; [done|]. cbn. by apply IH, Hf. Qed.

(** Steps through the operations of a handler; what is left are requests for blocks. *)
Ltac inv_net :=
  repeat first
    [ assumption
    | apply inv_state | apply inv_source | apply inv_zero | apply inv_blk_state | apply inv_local_txns | apply inv_connections
    | apply inv_emit; [exact I|]
    | apply inv_keep; [intros; reflexivity|]
    | progress unfold enqueue, send_handshake
    | progress cbn [snd fst]
    | match goal with |- net_inv _ _ (if ?b then _ else _) => destruct b end ].

Lemma request_next_chunk_inv conn n : inv n → inv (request_next_chunk conn n).
Proof.
  intros Hn. unfold request_next_chunk. destruct (_ && _); [done|].
  assert (∀ s, inv (set_state in_sync (sync (λ m, with_sync_last_requested_num 0 (with_sync_known_lib_num
    (chain_lib_num (chain_info n)) m)) (sync (with_sync_source s) n)))) as Hfail.
  { intros s. apply inv_state, inv_sync; [|by apply inv_source]. destruct Hn as (_ & Hlib & _). unfold sync_inv. cbn. lia. }
  destruct (match conn with Some c => _ | None => _ end) as [c|]; [|apply Hfail].
  destruct (current _ && _); [|apply Hfail].
  set (e := Z.min _ _). destruct (negb _ && (0 <? e) && (_ <=? e)) eqn:Hr; [|inv_net].
  rewrite !andb_true_iff, Z.ltb_lt, Z.leb_le in Hr. destruct Hr as [[_ He] Hs]. pose proof Hn as ((Hl & Hk & Hsp & Hnx) & _).
  unfold request_sync_blocks. inv_net. apply inv_emit.
  - right. cbn. subst e. rewrite Hsp in *.
    pose proof (Z.mod_le (sync_next_expected_num (sync_master n) + span - 1) (2 ^ 32)). unfold u32 in *. lia.
  - apply inv_sync; [|inv_net]. unfold sync_inv. cbn. subst e. lia.
Qed.

Lemma sync_reset_lib_num_inv c n : inv n → inv (sync_reset_lib_num c n).
Proof.
  intros Hn. unfold sync_reset_lib_num. set (n0 := if bool_decide _ then _ else n).
  assert (inv n0) as Hn0 by (subst n0; inv_net). clearbody n0. destruct (current _).
  - destruct (_ <? _) eqn:Hlt; [|done]. apply inv_sync; [|done]. destruct Hn0 as (_ & _ & Hp & _). specialize (Hp c).
    unfold sync_inv, peer_lib in *. cbn. apply Z.ltb_lt in Hlt. lia.
  - case_bool_decide; [|done]. by apply request_next_chunk_inv, inv_zero.
Qed.

Lemma start_sync_inv c target n : target ≤ a → inv n → inv (start_sync c target n).
Proof.
  intros Ht Hn. unfold start_sync. set (n0 := if _ <? target then _ else n).
  assert (inv n0) as Hn0.
  { subst n0. destruct (_ <? target) eqn:Hlt; [|done]. apply inv_sync; [|done]. unfold sync_inv. cbn. apply Z.ltb_lt in Hlt. lia. }
  clearbody n0. destruct (_ || _); [done|]. apply request_next_chunk_inv, inv_sync; [unfold sync_inv; cbn; lia|]. inv_net.
Qed.

Lemma sync_reassign_fetch_inv c r n : inv n → inv (sync_reassign_fetch c r n).
Proof.
  intros Hn. unfold sync_reassign_fetch. case_bool_decide; [|done]. apply request_next_chunk_inv, inv_zero.
  assert (inv (emit (FlushQueues c) (emit (CancelWait c) n))) as Hn' by inv_net. unfold cancel_sync, enqueue. cbv zeta.
  generalize dependent (emit (FlushQueues c) (emit (CancelWait c) n)). intros n' Hn'.
  assert (inv (emit (Send c (SyncRequest (MkSyncRequest 0 0))) n')) as Hempty by (apply inv_emit; [by left|done]).
  destruct r; try exact Hempty; by apply inv_emit, inv_keep.
Qed.

Lemma send_handshakes_inv n : inv n → inv (send_handshakes n).
Proof. intros Hn. apply inv_foldl; [|done]. intros. inv_net. Qed.

Lemma verify_catchup_inv c num id n : inv n → inv (verify_catchup c num id n).2.
Proof. intros Hn. unfold verify_catchup. destruct (catchup_known _ _ _); [cbn [snd]; inv_net|]. destruct (_ || _); cbn [snd]; inv_net. Qed.

Lemma recv_handshake_inv c msg n : last_irreversible_block_num msg ≤ a → inv n → inv (recv_handshake c msg n).
Proof.
  intros Hm Hn. unfold recv_handshake. destruct (is_transactions_only_connection _); [done|].
  pose proof (sync_reset_lib_num_inv c n Hn) as Hn'. set (n0 := sync_reset_lib_num c n) in *. clearbody n0.
  case_bool_decide; [inv_net|]. destruct (_ <? last_irreversible_block_num msg).
  { match goal with |- inv (if ?b then _ else _) => destruct b end; [apply start_sync_inv; [done|]|]; inv_net. }
  destruct (head_num msg <? _); [inv_net|]. destruct (_ <? head_num msg); [apply verify_catchup_inv; inv_net|inv_net].
Qed.

Lemma sync_recv_notice_inv c msg n n' : pending (known_trx msg) ≤ a → inv n → sync_recv_notice c msg n = Ok n' → inv n'.
Proof.
  intros Hm Hn. unfold sync_recv_notice. destruct (mode _); try done.
  - destruct (last _) as [id|]; [|by intros [= <-]]. destruct (have_block id n); intros [= <-]; [inv_net|by apply verify_catchup_inv].
  - intros [= <-]. apply start_sync_inv; [done|]. by apply sync_reset_lib_num_inv, inv_modify.
Qed.

Lemma rejected_block_inv c n : inv n → inv (rejected_block c n).
Proof.
  intros Hn. unfold rejected_block. destruct (_ <? _); [|inv_net]. apply inv_emit; [exact I|].
  apply inv_sync; [unfold sync_inv; cbn; lia|]. inv_net.
Qed.

Lemma forget_branches_inv c id num n : inv n → inv (forget_branches c id num n).2.
Proof.
  intros Hn. unfold forget_branches. generalize (block_connections n) as l. intros l. change n with (false, n).2 in Hn.
  revert Hn. generalize (false, n) as bn. induction l as [|cp l IH]; intros [b n'] Hn; [done|]. cbn [foldl]. apply IH.
  cbn in *. case_bool_decide; [done|]. destruct (_ || _); [cbn|done]. inv_net.
Qed.

Lemma sync_recv_block_inv q c id num ap n : inv n → inv (sync_recv_block q c id num ap n).
Proof.
  intros Hn. unfold sync_recv_block. destruct q; [inv_net|]. set (n0 := sync_update_expected _ _ _).
  assert (inv n0) as Hn0.
  { subst n0. unfold sync_update_expected. destruct (_ <=? _); [|inv_net]. destruct (_ && _); [inv_net|].
    apply inv_sync; [|inv_net]. unfold sync_inv. cbn. pose proof (u32_range (num + 1)). lia. }
  clearbody n0. destruct (sync_state _); [|set (p := forget_branches _ _ _ _)|done].
  - destruct (_ =? _); [by apply send_handshakes_inv, inv_state|]. destruct (_ =? _); [by apply request_next_chunk_inv|inv_net].
  - assert (inv p.2) as Hp by (apply forget_branches_inv; inv_net). destruct p as [[] n1]; cbn in *; [inv_net|].
    by apply send_handshakes_inv, inv_state.
Qed.

Lemma add_peer_block_inv id c n : inv n → inv (add_peer_block id c n).2.
Proof. intros Hn. unfold add_peer_block. destruct (peer_has_block _ _ _); cbn [snd]; inv_net. Qed.

Lemma add_peer_txn_inv t n : inv n → inv (add_peer_txn t n).2.
Proof. intros Hn. unfold add_peer_txn. destruct (peer_has_txn _ _ _); cbn [snd]; inv_net. Qed.

Lemma bcast_block_inv id num n : inv n → inv (bcast_block id num n).
Proof.
  intros Hn. unfold bcast_block. case_bool_decide as Hs; [done|]. apply inv_foldl; [|done]. clear n Hn Hs. intros n c Hn.
  unfold bcast_block_to. destruct (negb _); [done|]. destruct (_ <=? _); [done|].
  pose proof (add_peer_block_inv id (connection_id (get n c)) n Hn). destruct (add_peer_block _ _ _) as [[] n']; cbn in *; inv_net.
Qed.

Lemma bcast_transaction_inv id x n : inv n → inv (bcast_transaction id x n).
Proof.
  intros Hn. apply inv_foldl; [|done]. clear n Hn. intros n c Hn. destruct (_ || _); [done|].
  pose proof (add_peer_txn_inv (MkTxn id x 0 (connection_id (get n c))) n Hn). destruct (add_peer_txn _ _) as [[] n']; cbn in *; inv_net.
Qed.

Lemma recv_block_inv c id n : inv n → inv (recv_block c id n).
Proof. intros Hn. unfold recv_block. apply inv_emit; [exact I|]. destruct (last_req _); [|done]. inv_net. Qed.

Lemma retry_fetch_inv c n : inv n → inv (retry_fetch c n).
Proof.
  intros Hn. unfold retry_fetch. destruct (last_req _) as [r|]; [|done]. destruct (mode _); try done.
  destruct (last _); [|done]. destruct (List.find _ _) as [cp|]; inv_net.
Qed.

Lemma enqueue_sync_block_inv c n : inv n → inv (enqueue_sync_block c n).2.
Proof. intros Hn. unfold enqueue_sync_block. destruct (peer_requested _); cbn [snd]; inv_net. Qed.

Lemma close_inv c r s n : inv n → inv (close c r s n).
Proof.
  intros Hn. unfold close. cbv zeta.
  assert (∀ n, inv n → inv (modify c (λ x, with_conn_node_id 0 (with_last_handshake_sent no_handshake (with_last_handshake_recv no_handshake x))) n)) as Hreset.
  { intros n' Hn'. apply inv_modify; [|done]. intros x _. exact Ha. }
  match goal with |- inv (if ?b then emit _ ?n else ?n) => assert (inv n); [|destruct b; inv_net] end.
  apply inv_emit; [exact I|].
  assert (∀ b n', inv n' → inv (if b : bool then n' else sync_reset_lib_num c n')) as Hsync by (intros []; auto using sync_reset_lib_num_inv).
  apply Hsync, inv_keep; [done|].
  match goal with |- inv (if ?b then _ ?n else ?n) => assert (inv n); [|destruct b; [by apply retry_fetch_inv|done]] end.
  apply Hreset. inv_net.
Qed.

Lemma blk_send_branch_inv c id n : inv n → inv (blk_send_branch c id n).
Proof. intros Hn. unfold blk_send_branch. inv_net. Qed.

Lemma send_branch_inv c lib head id f n : inv n → inv (send_branch c lib head id f n).
Proof.
  intros Hn. unfold send_branch, blk_send_branch_impl. set (p := match peer_requested _ with Some _ => _ | None => _ end).
  destruct (_ <=? _); [apply enqueue_sync_block_inv|]; inv_net.
Qed.

Lemma handle_notice_inv c msg n n' : pending (known_trx msg) ≤ a → inv n → handle_notice c msg n = Ok n' → inv n'.
Proof.
  intros Hm Hn. unfold handle_notice. destruct (Nat.ltb _ _); [intros [= <-]; inv_net|]. set (n0 := match mode (known_trx msg) with last_irr_catch_up => _ | _ => _ end).
  assert (inv n0) as Hn0.
  { subst n0. destruct (mode (known_trx msg)); [inv_net..| |inv_net]. apply inv_modify; [done|]. inv_net. }
  clearbody n0. destruct (mode (known_blocks msg)); [by intros [= <-]|by apply sync_recv_notice_inv|by apply sync_recv_notice_inv|by intros [= <-]].
Qed.

Lemma handle_request_inv c msg n : inv n → inv (handle_request c msg n).
Proof.
  intros Hn. unfold handle_request. destruct (Nat.ltb _ _); [inv_net|].
  set (n0 := match mode (req_blocks msg) with catch_up => _ | normal => _ | _ => n end).
  assert (inv n0) as Hn0.
  { subst n0. destruct (mode (req_blocks msg)); [done|by apply blk_send_branch_inv|done|]. destruct (last _); inv_net. }
  clearbody n0. set (n1 := match mode (req_trx msg), mode (req_blocks msg) with none, none => _ | _, _ => _ end).
  assert (inv n1) as Hn1 by (subst n1; destruct (mode (req_trx msg)), (mode (req_blocks msg)); unfold stop_send; inv_net).
  clearbody n1. destruct (mode (req_trx msg)); try done; destruct (ids _); inv_net.
Qed.

Lemma first_handshake_inv cfg now c msg n : inv n → inv (first_handshake cfg now c msg n).2.
Proof.
  intros Hn. unfold first_handshake. destruct (_ =? cfg_node_id cfg); [cbn [snd]; inv_net|].
  set (n0 := if String.eqb (peer_addr (get n c)) "" then _ else n).
  assert (inv n0) as Hn0.
  { subst n0. destruct (String.eqb _ _); [|done]. apply inv_keep; [|done]. intros x. unfold set_connection_type. by repeat destruct (String.eqb _ _). }
  clearbody n0. destruct (_ && duplicate_of _ _ _); [cbn [snd]; inv_net|]. destruct (negb _); [cbn [snd]; inv_net|].
  destruct (negb _); [cbn [snd]; inv_net|]. cbn [snd]. inv_net.
Qed.

Lemma handle_handshake_inv cfg now c msg n : last_irreversible_block_num msg ≤ a → inv n → inv (handle_handshake cfg now c msg n).
Proof.
  intros Hm Hn. unfold handle_handshake. destruct (negb _); [inv_net|].
  set (p := if generation msg =? 1 then _ else _).
  assert (inv p.2) as Hp by (subst p; destruct (_ =? 1); [apply first_handshake_inv; inv_net|cbn [snd]; inv_net]).
  clearbody p. destruct p as [[] n1]; cbn in Hp; [|done]. apply recv_handshake_inv; [done|]. by apply inv_modify.
Qed.

Lemma process_signed_block_inv q c id num txns v i n :
  0 ≤ chain_lib_num i ≤ a → inv n → inv (process_signed_block q c id num txns v i n).
Proof.
  intros Hi Hn. unfold process_signed_block. destruct (negb _); [done|].
  destruct v; [apply sync_recv_block_inv, add_peer_block_inv|apply inv_chain_info|apply sync_recv_block_inv, recv_block_inv, inv_local_txns, add_peer_block_inv, inv_chain_info|apply rejected_block_inv]; done.
Qed.

Lemma step_inv cfg e n : 0 ≤ announces e ≤ a → inv n → inv (step cfg e n).
Proof.
  intros He Hn. unfold step, handle_transaction, sync_timeout, fetch_timeout. destruct e; cbn [announces] in He;
    auto using handle_request_inv, sync_reassign_fetch_inv, retry_fetch_inv, close_inv, send_branch_inv, enqueue_sync_block_inv,
      bcast_transaction_inv, inv_chain_info, process_signed_block_inv, bcast_block_inv, add_peer_txn_inv.
  - apply handle_handshake_inv; [lia|done].
  - unfold handle_go_away. inv_net.
  - destruct (handle_notice c msg n) eqn:E; [|done]. eapply handle_notice_inv; [|done|done]. lia.
  - unfold handle_sync_request. destruct (_ =? 0); [inv_net|]. apply enqueue_sync_block_inv. inv_net.
  - unfold do_send_handshake. destruct (populate_handshake _ _ _ _ _) as [[] h]; inv_net.
  - unfold lib_check. destruct (_ && _); [|done]. destruct r; inv_net.
  - unfold fork_check. inv_net.
  - unfold fetched_num. destruct b; inv_net.
  - unfold fetched_id. destruct b; [|done]. apply inv_emit; [exact I|]. by apply add_peer_block_inv.
  - unfold rejected_transaction, update_txns_block_num. inv_net.
  - apply inv_connections. change (with_objects (<[c := set_connection_type addr (new_connection c addr)]> (objects n)) n)
      with (modify c (λ _, set_connection_type addr (new_connection c addr)) n). apply inv_modify; [|done].
    intros _ _. unfold set_connection_type. repeat destruct (String.eqb _ _); exact Ha.
  - inv_net.
Qed.
End invariant.

Lemma net_inv_mono span a b n : a ≤ b → net_inv span a n → net_inv span b n.
Proof.
  intros Hab ((H1 & H2 & H3) & H4 & H5 & H6). refine (conj (conj H1 (conj _ H3)) (conj _ (conj _ _))); [lia|lia| |].
  - intros c. specialize (H5 c). lia.
  - eapply Forall_impl; [exact H6|]. intros [c []| | | | | | | | | | | |]; cbn; try done. lia.
Qed.

Lemma announced_snoc es e : announced (es ++ [e]) = Z.max (announced es) (Z.max (announces e) 0).
Proof. unfold announced. induction es as [|e' es IH]; cbn [app foldr]; [lia|]. rewrite IH. lia. Qed.

Lemma announced_nonneg es : 0 ≤ announced es.
Proof. induction es; cbn [announced foldr]; [lia|]. unfold announced in *. cbn [foldr]. lia. Qed.

Lemma run_inv cfg span es : 1 ≤ span → Forall event_ok es → net_inv span (announced es) (run cfg (initial span) es).
Proof.
  intros Hs. induction es as [|e es IH] using rev_ind; intros Hok.
  { repeat split; cbn; try lia; try constructor. intros c. unfold get. cbn. rewrite lookup_empty. done. }
  apply Forall_app in Hok as [Hok He]. rewrite Forall_singleton in He. unfold run. rewrite foldl_app. cbn [foldl].
  pose proof (announced_nonneg es). unfold event_ok in He. rewrite announced_snoc. apply step_inv; [lia|lia|lia|].
  eapply net_inv_mono; [|by apply IH]. lia.
Qed.

(** C23: whatever messages arrive, in whatever order and from however many peers, and whatever
    the timers and the chain do, every request for blocks that the node sends is either the
    empty one that cancels a request, or asks for a range that is not empty, is no longer than
    the configured span, and ends no later than the highest block that some peer, or the node
    itself, has announced as irreversible.  The last block requested is never beyond the block
    that the node synchronises to. *)
Theorem sync_requests_bounded cfg span es : 1 ≤ span → Forall event_ok es →
  let n := run cfg (initial span) es in
  (∀ c r, Send c (SyncRequest r) ∈ out n →
    (start_block r = 0 ∧ end_block r = 0) ∨
    (start_block r ≤ end_block r ∧ end_block r ≤ announced es ∧ end_block r - start_block r < span)) ∧
  sync_last_requested_num (sync_master n) ≤ sync_known_lib_num (sync_master n) ≤ announced es.
Proof.
  intros Hs Hok. cbv zeta. destruct (run_inv cfg span es Hs Hok) as ((H1 & H2 & _) & _ & _ & Hout). split; [|lia].
  intros c r Hr. rewrite Forall_forall in Hout. specialize (Hout _ Hr). cbn in Hout. lia.
Qed.

(** ** Serving a request *)

(** Writes that complete, one after the other *)
Fixpoint written (c : Z) (k : nat) (n : net) : net :=
  match k with
  | 0%nat => n
  | S k => written c k (enqueue_sync_block c n).2
  end.

(** The blocks that a node looks up for a request, while it has written all it sent *)
Definition served (r : sync_request_message) : list Z :=
  let n := handle_sync_request 1 r (modify 1 id (initial 1)) in
  omap (λ o, match o with PostFetchNum _ num => Some num | _ => None end)
    (out (written 1 (Z.to_nat (end_block r - start_block r)) n)).

Lemma get_modify c f n : get (modify c f n) c = f (get n c).
Proof. unfold get, modify. cbn. by rewrite lookup_insert_eq. Qed.

Lemma get_modify_ne c f n k : c ≠ k → get (modify c f n) k = get n k.
Proof. intros Hne. unfold get, modify. cbn. by rewrite lookup_insert_ne. Qed.

Lemma written_out c k n s e last :
  peer_requested (get n c) = Some (MkPeerSync s e last) → 0 ≤ last → Z.of_nat k ≤ e - last → e < 2 ^ 32 →
  out (written c k n) = out n ++ (PostFetchNum c <$> seqZ (last + 1) (Z.of_nat k)) ∧
  peer_requested (get (written c k n) c) =
    if Z.of_nat k =? e - last then if (k =? 0)%nat then Some (MkPeerSync s e last) else None
    else Some (MkPeerSync s e (last + Z.of_nat k)).
Proof.
  revert n last. induction k as [|k IH]; intros n last Hp Hl Hk He.
  { cbn [written]. rewrite Hp. split; [by rewrite app_nil_r|]. destruct (Z.of_nat 0 =? e - last); [done|]. do 2 f_equal. lia. }
  cbn [written]. unfold enqueue_sync_block. rewrite Hp. cbn [last_sent ps_end_block ps_start_block snd].
  rewrite u32_id by lia. destruct (Z.eqb_spec (last + 1) e) as [Hlast|Hne].
  - assert (k = 0%nat) as -> by lia. cbn [written]. rewrite (proj2 (Z.eqb_eq _ _)) by lia. split; [done|].
    unfold get, emit, modify. cbn. by rewrite lookup_insert_eq.
  - edestruct (IH (emit (PostFetchNum c (last + 1)) (modify c (with_peer_requested (Some (MkPeerSync s e (last + 1)))) n)) (last + 1))
      as [Hout Hpr]; [|lia|lia|lia|].
    { change (get (emit ?o ?m) c) with (get m c). by rewrite get_modify. }
    rewrite Hout, Hpr. split.
    + cbn [out emit modify with_out with_objects]. rewrite <- app_assoc. f_equal.
      rewrite (seqZ_cons (last + 1) (Z.of_nat (S k))) by lia. cbn. do 3 f_equal; lia.
    + destruct (Z.eqb_spec (Z.of_nat k) (e - (last + 1))), (Z.eqb_spec (Z.of_nat (S k)) (e - last)); try lia.
      * destruct (Nat.eqb_spec k 0); [lia|]. done.
      * do 2 f_equal. lia.
Qed.

Lemma omap_fetch c (l : list Z) :
  omap (λ o, match o with PostFetchNum _ num => Some num | _ => None end) (PostFetchNum c <$> l) = l.
Proof. induction l as [|x l IH]; [done|]. cbn. by f_equal. Qed.

(** A request is served with exactly its range, in order. *)
Lemma served_range r : 0 < start_block r ≤ end_block r → end_block r < 2 ^ 32 →
  served r = seqZ (start_block r) (end_block r - start_block r + 1).
Proof.
  intros Hr He. unfold served, handle_sync_request. rewrite (proj2 (Z.eqb_neq _ _)) by lia. cbv zeta.
  set (n := modify 1 (with_peer_requested _) _).
  change (written 1 (Z.to_nat (end_block r - start_block r)) (enqueue_sync_block 1 n).2)
    with (written 1 (S (Z.to_nat (end_block r - start_block r))) n).
  destruct (written_out 1 (S (Z.to_nat (end_block r - start_block r))) n (start_block r) (end_block r) (start_block r - 1))
    as [-> _]; [|lia..|].
  { unfold n. rewrite get_modify. cbn. by rewrite u32_id by lia. }
  subst n. cbn [out modify with_objects initial app]. rewrite omap_fetch. f_equal; lia.
Qed.

(** A request that ends before it starts is not refused: the node looks for block after block,
    up to the largest number. *)
Lemma reversed_request_runs_on c k n s e last :
  peer_requested (get n c) = Some (MkPeerSync s e last) → 0 ≤ e ≤ last → last + Z.of_nat k < 2 ^ 32 →
  peer_requested (get (written c k n) c) = Some (MkPeerSync s e (last + Z.of_nat k)).
Proof.
  revert n last. induction k as [|k IH]; intros n last Hp Hl Hk; cbn [written]; [by rewrite Hp, Z.add_0_r|].
  unfold enqueue_sync_block. rewrite Hp. cbn [last_sent ps_end_block ps_start_block snd]. rewrite u32_id by lia.
  rewrite (proj2 (Z.eqb_neq _ _)) by lia.
  replace (last + Z.of_nat (S k)) with (last + 1 + Z.of_nat k) by lia. apply IH; [|lia..].
  change (get (emit ?o ?m) c) with (get m c). by rewrite get_modify.
Qed.

(** ** Catching up *)

(** The requests for blocks among the outputs *)
Definition requests (n : net) : list (Z * sync_request_message) :=
  omap (λ o, match o with Send c (SyncRequest r) => Some (c, r) | _ => None end) (out n).

Section catchup.
Context (block_id : Z → digest) (txns : Z → list Z) (chain_at : Z → chain_infos).

(** The node receives and accepts a block; the head of its chain is then that block or a later
    one. *)
Definition receive (c num : Z) (n : net) : net :=
  process_signed_block false c (block_id num) num (txns num) Accepted (chain_at num) n.

(** The peer that was asked last serves the request. *)
Definition round (n : net) : net :=
  match last (requests n) with
  | None => n
  | Some (c, r) => foldl (λ n num, receive c num n) n (served r)
  end.

Hypothesis Hhead : ∀ num, num ≤ chain_fork_head_blk_num (chain_at num).

(** The parts of the state that a block does not change *)
Definition same_peers (n n' : net) : Prop :=
  connections n' = connections n ∧ (∀ k, provides n' k = provides n k ∧ socket_open (get n' k) = socket_open (get n k)).

Lemma same_peers_refl n : same_peers n n.
Proof. done. Qed.

Lemma same_peers_trans n1 n2 n3 : same_peers n1 n2 → same_peers n2 n3 → same_peers n1 n3.
Proof. intros [H1 H2] [H3 H4]. split; [congruence|]. intros k. specialize (H2 k). specialize (H4 k). intuition congruence. Qed.

Lemma same_peers_modify c f n :
  (∀ x, connection_type (f x) = connection_type x ∧ socket_open (f x) = socket_open x ∧
        connecting (f x) = connecting x ∧ syncing (f x) = syncing x) → same_peers n (modify c f n).
Proof.
  intros Hf. split; [done|]. intros k. destruct (decide (c = k)) as [->|Hne].
  - destruct (Hf (get n k)) as (H1 & H2 & H3 & H4).
    unfold provides, is_transactions_only_connection, current, connected. by rewrite get_modify, H1, H2, H3, H4.
  - unfold provides. by rewrite get_modify_ne.
Qed.

Lemma set_state_master s n : sync_master (set_state s n) = with_sync_state s (sync_master n).
Proof.
  unfold set_state. case_bool_decide as Hs; [|done]. destruct (sync_master n). cbn in *. by rewrite Hs.
Qed.

Lemma set_state_other s n : connections (set_state s n) = connections n ∧ objects (set_state s n) = objects n ∧ out (set_state s n) = out n ∧
  chain_info (set_state s n) = chain_info n.
Proof. unfold set_state. by case_bool_decide. Qed.

(** What receiving a block does before the sync manager looks at its state *)
Lemma receive_prepared c num n : socket_open (get n c) = true →
  ∃ n', receive c num n = sync_recv_block false c (block_id num) num true n' ∧ same_peers n n' ∧
    sync_master n' = sync_master n ∧ chain_info n' = chain_at num ∧ requests n' = requests n.
Proof.
  intros Ho. unfold receive, process_signed_block. rewrite Ho. cbn [negb]. eexists. split; [done|].
  set (n1 := add_peer_block _ _ _).
  assert (objects n1.2 = objects n ∧ connections n1.2 = connections n ∧ sync_master n1.2 = sync_master n ∧
          chain_info n1.2 = chain_at num ∧ out n1.2 = out n) as (Ho1 & Hc1 & Hs1 & Hi1 & Hq1).
  { subst n1. unfold add_peer_block. by destruct (peer_has_block _ _ _). }
  clearbody n1. set (n2 := update_txns_block_num _ _ _).
  assert (same_peers n n2) as Hp2.
  { split; [done|]. intros k. unfold provides, get. cbn. by rewrite Ho1. }
  unfold recv_block. destruct (last_req (get n2 c)) as [r|]; [destruct (negb _ && _)|].
  all: split_and!; try done; try (unfold requests; cbn [out emit with_out modify with_objects]; rewrite omap_app; cbn; by rewrite app_nil_r, Hq1).
  eapply same_peers_trans; [done|]. by apply (same_peers_modify c (with_last_req None) n2).
Qed.

(** A chunk is requested from a connection that provides blocks. *)
Lemma request_chunk conn n c s e :
  let m := sync_master n in
  (sync_last_requested_num m ≤ chain_fork_head_blk_num (chain_info n) ∨ sync_source m = None) →
  match conn with Some c => if current (get n c) then Some c else choose_source n | None => choose_source n end = Some c →
  provides n c = true → sync_last_requested_num m ≠ sync_known_lib_num m →
  s = sync_next_expected_num m → e = Z.min (s + sync_req_span m - 1) (sync_known_lib_num m) →
  0 < s ≤ e → s + sync_req_span m ≤ 2 ^ 32 →
  request_next_chunk conn n = request_sync_blocks c s e (sync (with_sync_last_requested_num e) (sync (with_sync_source (Some c)) n)).
Proof.
  intros m Hign Hsrc Hp Hk Hs He Hse Hw. unfold request_next_chunk. fold m. rewrite Hsrc.
  assert ((chain_fork_head_blk_num (chain_info n) <? sync_last_requested_num m) &&
    match sync_source m with Some s => current (get n s) | None => false end = false) as ->.
  { destruct Hign as [Hle| ->]; [|by rewrite andb_false_r]. rewrite (proj2 (Z.ltb_ge _ _)) by done. done. }
  change (get (sync (with_sync_source (Some c)) n) c) with (get n c). unfold provides in Hp. rewrite andb_comm in Hp. rewrite Hp.
  rewrite <- Hs, u32_id, <- He by lia. rewrite (proj2 (Z.eqb_neq _ _) Hk), (proj2 (Z.ltb_lt _ _)), (proj2 (Z.leb_le _ _)) by lia. done.
Qed.

Lemma next_provider_some n i c : c ∈ connections n → provides n c = true → ∃ c', next_provider n i = Some c' ∧ provides n c' = true.
Proof.
  intros Hc Hp. unfold next_provider. destruct (List.find _ _) as [c'|] eqn:E; [apply find_some in E as [_ ?]; eauto|].
  eapply find_none in E; [by rewrite Hp in E|]. apply list_elem_of_In.
  rewrite <- (take_drop i (connections n)) in Hc. rewrite elem_of_app in Hc |- *. tauto.
Qed.

(** While some connection provides blocks, so does the source that is chosen. *)
Lemma choose_source_provides n c : c ∈ connections n → provides n c = true →
  (∀ s, sync_source (sync_master n) = Some s → provides n s = true) →
  ∃ c', choose_source n = Some c' ∧ provides n c' = true.
Proof.
  intros Hc Hp Hs. unfold choose_source. destruct (connections n) as [|c1 [|c2 l]] eqn:El; [by apply not_elem_of_nil in Hc| |].
  - apply list_elem_of_singleton in Hc as <-. destruct (sync_source _) as [s|]; eauto.
  - rewrite <- El in *. destruct (sync_source (sync_master n)) as [s|]; [|by apply next_provider_some with c].
    destruct (position s (connections n)) as [i|]; [|by apply next_provider_some with c].
    destruct (next_provider_some n (if Nat.eqb (S i) (length (connections n)) then 0%nat else S i) c Hc Hp) as (c' & -> & ?). eauto.
Qed.

Lemma requests_request c s e n : requests (request_sync_blocks c s e n) = requests n ++ [(c, MkSyncRequest s e)].
Proof. unfold requests, request_sync_blocks. cbn [out emit enqueue with_out]. by rewrite !omap_app, app_nil_r. Qed.

Lemma send_handshakes_sync n : sync_master (send_handshakes n) = sync_master n.
Proof.
  unfold send_handshakes. generalize (connections n) as l. intros l. revert n. induction l as [|c l IH]; intros n; [done|]. cbn [foldl].
  rewrite IH. by destruct (current _).
Qed.

(** The state while a request for the blocks from [s] to [e] is being served *)
Record waiting (k span s e : Z) (n : net) : Prop := {
  w_state : sync_state (sync_master n) = lib_catchup;
  w_known : sync_known_lib_num (sync_master n) = k;
  w_last : sync_last_requested_num (sync_master n) = e;
  w_span : sync_req_span (sync_master n) = span;
  w_next : sync_next_expected_num (sync_master n) = s;
  w_source : ∀ c, sync_source (sync_master n) = Some c → provides n c = true;
  w_provider : ∃ c, c ∈ connections n ∧ provides n c = true }.

Lemma waiting_peers k span s e n n' : same_peers n n' → sync_master n' = sync_master n → waiting k span s e n → waiting k span s e n'.
Proof.
  intros [Hc Hp] Hm [? ? ? ? ? Hs (c & Hin & Hpr)]. split; rewrite ?Hm; try done.
  - intros x Hx. rewrite (proj1 (Hp x)). by apply Hs.
  - exists c. by rewrite Hc, (proj1 (Hp c)).
Qed.

(** The state after the sync manager has counted a block *)
Lemma updated num n c : num ≤ sync_last_requested_num (sync_master n) → 0 ≤ num < 2 ^ 32 - 1 →
  sync_update_expected num true (modify c (with_consecutive_rejected_blocks 0) n) =
    sync (with_sync_next_expected_num (num + 1)) (modify c (with_consecutive_rejected_blocks 0) n).
Proof.
  intros Hl Hn. unfold sync_update_expected. change (sync_master (modify _ _ n)) with (sync_master n).
  rewrite (proj2 (Z.leb_le _ _)) by done. rewrite andb_false_r, u32_id by lia. done.
Qed.

Lemma receive_next k span s e n c :
  waiting k span s e n → 0 ≤ s < e → e ≤ k → k < 2 ^ 32 - 1 → socket_open (get n c) = true →
  waiting k span (s + 1) e (receive c s n) ∧ requests (receive c s n) = requests n ∧
  socket_open (get (receive c s n) c) = true.
Proof.
  intros Hw Hs He Hk Ho. destruct (receive_prepared c s n Ho) as (n' & -> & Hp & Hm & Hi & Hr).
  pose proof (waiting_peers _ _ _ _ _ _ Hp Hm Hw) as [W1 W2 W3 W4 W5 W6 (c0 & W7 & W8)].
  unfold sync_recv_block. rewrite updated by lia. set (n1 := modify c _ n').
  assert (same_peers n' n1) as Hp1 by by apply same_peers_modify.
  change (sync_master n1) with (sync_master n') in *. cbn [sync sync_master with_sync_master].
  change (sync_state (with_sync_next_expected_num (s + 1) (sync_master n1))) with (sync_state (sync_master n')). rewrite W1.
  change (sync_known_lib_num (with_sync_next_expected_num (s + 1) (sync_master n1))) with (sync_known_lib_num (sync_master n')).
  change (sync_last_requested_num (with_sync_next_expected_num (s + 1) (sync_master n1))) with (sync_last_requested_num (sync_master n')).
  rewrite W2, W3, (proj2 (Z.eqb_neq s k)), (proj2 (Z.eqb_neq s e)) by lia.
  destruct Hp1 as [Hc1 Hp1]. split_and!.
  - split; try done.
    + intros x Hx. change (provides n1 x = true). rewrite (proj1 (Hp1 x)). by apply W6.
    + exists c0. split; [done|]. change (provides n1 c0 = true). by rewrite (proj1 (Hp1 c0)).
  - unfold requests in *. cbn. by rewrite omap_app, app_nil_r.
  - change (socket_open (get n1 c) = true). rewrite (proj2 (Hp1 c)). destruct Hp as [_ Hp]. by rewrite (proj2 (Hp c)).
Qed.

Lemma receive_last k span e n c :
  waiting k span e e n → 0 < e ≤ k → 1 ≤ span → k + span < 2 ^ 32 → socket_open (get n c) = true →
  if e =? k then
    sync_state (sync_master (receive c e n)) = in_sync ∧ sync_next_expected_num (sync_master (receive c e n)) = k + 1
  else ∃ c' n1, receive c e n = request_sync_blocks c' (e + 1) (Z.min (e + span) k) n1 ∧
    waiting k span (e + 1) (Z.min (e + span) k) n1 ∧ provides n1 c' = true.
Proof.
  intros Hw He Hspan Hk Ho. destruct (receive_prepared c e n Ho) as (n' & -> & Hp & Hm & Hi & Hr).
  pose proof (waiting_peers _ _ _ _ _ _ Hp Hm Hw) as [W1 W2 W3 W4 W5 W6 (c0 & W7 & W8)].
  unfold sync_recv_block. rewrite updated by lia. set (n1 := sync _ (modify c _ n')).
  assert (same_peers n' n1) as [Hc1 Hp1] by by apply (same_peers_modify c (with_consecutive_rejected_blocks 0) n').
  change (sync_state (sync_master n1)) with (sync_state (sync_master n')). rewrite W1.
  change (sync_known_lib_num (sync_master n1)) with (sync_known_lib_num (sync_master n')).
  change (sync_last_requested_num (sync_master n1)) with (sync_last_requested_num (sync_master n')). rewrite W2, W3.
  destruct (Z.eqb_spec e k) as [->|Hne].
  { rewrite send_handshakes_sync, set_state_master. done. }
  rewrite Z.eqb_refl.
  destruct (choose_source_provides n1 c0) as (c' & Hc' & Hpc'); [by rewrite Hc1|by rewrite (proj1 (Hp1 c0))| |].
  { intros x Hx. rewrite (proj1 (Hp1 x)). by apply W6. }
  rewrite (request_chunk None n1 c' (e + 1) (Z.min (e + span) k)); try done.
  - eexists c', _. split; [done|]. split; [|done]. split; try done.
    + intros x [= <-]. done.
    + exists c0. split; [done|]. change (provides n1 c0 = true). by rewrite (proj1 (Hp1 c0)).
  - left. change (sync_last_requested_num (sync_master n1)) with (sync_last_requested_num (sync_master n')). rewrite W3.
    change (chain_info n1) with (chain_info n'). rewrite Hi. apply Hhead.
  - change (sync_last_requested_num (sync_master n') ≠ sync_known_lib_num (sync_master n')). lia.
  - change (Z.min (e + span) k = Z.min (e + 1 + sync_req_span (sync_master n') - 1) (sync_known_lib_num (sync_master n'))). lia.
  - lia.
  - change (e + 1 + sync_req_span (sync_master n') ≤ 2 ^ 32). lia.
Qed.

(** The state after a request for the blocks from [s] *)
Definition asking (k span s : Z) (n : net) : Prop :=
  ∃ c n1, n = request_sync_blocks c s (Z.min (s + span - 1) k) n1 ∧ waiting k span s (Z.min (s + span - 1) k) n1 ∧
    provides n1 c = true.

Lemma provides_open n c : provides n c = true → socket_open (get n c) = true.
Proof. unfold provides, current, connected. rewrite !andb_true_iff. tauto. Qed.

Lemma receive_chunk k span s e n c j :
  waiting k span s e n → 0 ≤ s → s + Z.of_nat j ≤ e → e ≤ k → k < 2 ^ 32 - 1 → socket_open (get n c) = true →
  let n' := foldl (λ n num, receive c num n) n (seqZ s (Z.of_nat j)) in
  waiting k span (s + Z.of_nat j) e n' ∧ socket_open (get n' c) = true.
Proof.
  revert s n. induction j as [|j IH]; intros s n Hw Hs Hj He Hk Ho; cbv zeta.
  { cbn. by rewrite Z.add_0_r. }
  rewrite seqZ_cons by lia. cbn [foldl]. destruct (receive_next k span s e n c Hw) as (Hw' & _ & Ho'); [lia|done|done|done|].
  replace (Z.pred (Z.of_nat (S j))) with (Z.of_nat j) by lia. replace (s + Z.of_nat (S j)) with (Z.succ s + Z.of_nat j) by lia.
  apply IH; [by replace (Z.succ s) with (s + 1) by lia|lia..|done].
Qed.

Lemma asking_request k span s n : asking k span s n → ∃ c, last (requests n) = Some (c, MkSyncRequest s (Z.min (s + span - 1) k)).
Proof. intros (c & n1 & -> & _). exists c. by rewrite requests_request, last_snoc. Qed.

(** One request is served: the next one is sent, or the node is in sync. *)
Lemma round_progress k span s n :
  asking k span s n → 0 < s ≤ k → 1 ≤ span → k + span < 2 ^ 32 →
  if Z.min (s + span - 1) k =? k then
    sync_state (sync_master (round n)) = in_sync ∧ sync_next_expected_num (sync_master (round n)) = k + 1
  else asking k span (Z.min (s + span - 1) k + 1) (round n).
Proof.
  intros Hask Hs Hspan Hk. set (e := Z.min (s + span - 1) k) in *. assert (s ≤ e ≤ k) as He by lia.
  destruct (asking_request _ _ _ _ Hask) as [c Hreq]. fold e in Hreq.
  destruct Hask as (c' & n1 & Hn & Hw & Hp). fold e in Hn, Hw. rewrite Hn, requests_request, last_snoc in Hreq. injection Hreq as <-.
  unfold round. rewrite Hn, requests_request, last_snoc, <- Hn, served_range by (cbn; lia). cbn [start_block end_block].
  assert (waiting k span s e n) as Hwn by (rewrite Hn; by apply (waiting_peers k span s e n1)).
  assert (socket_open (get n c') = true) as Ho by (rewrite Hn; by apply provides_open).
  assert (seqZ s (e - s + 1) = seqZ s (e - s) ++ [e]) as ->.
  { rewrite seqZ_app by lia. f_equal. replace (s + (e - s)) with e by lia. done. }
  rewrite foldl_app. cbn [foldl].
  destruct (receive_chunk k span s e n c' (Z.to_nat (e - s)) Hwn) as [Hw' Ho']; [lia..|done|].
  rewrite Z2Nat.id in Hw', Ho' by lia. replace (s + (e - s)) with e in Hw' by lia.
  pose proof (receive_last k span e _ c' Hw' ltac:(lia) Hspan Hk Ho') as Hlast.
  destruct (Z.eqb_spec e k); [done|]. destruct Hlast as (c2 & n2 & -> & Hw2 & Hp2).
  exists c2, n2. replace (e + 1 + span - 1) with (e + span) by lia. done.
Qed.

(** The blocks received while requests are served one after the other, and the state then *)
Fixpoint rounds (j : nat) (n : net) : list Z * net :=
  match j with
  | 0%nat => ([], n)
  | S j =>
      match last (requests n) with
      | None => ([], n)
      | Some (_, r) => let '(l, n') := rounds j (round n) in (served r ++ l, n')
      end
  end.

Lemma rounds_complete k span s n :
  asking k span s n → 0 < s ≤ k → 1 ≤ span → k + span < 2 ^ 32 →
  ∃ j, (Z.of_nat j ≤ k - s + 1) ∧ (rounds j n).1 = seqZ s (k - s + 1) ∧
    sync_state (sync_master (rounds j n).2) = in_sync ∧ sync_next_expected_num (sync_master (rounds j n).2) = k + 1.
Proof.
  remember (Z.to_nat (k - s)) as d eqn:Hd. revert s n Hd. induction d as [d IH] using lt_wf_ind. intros s n Hd Hask Hs Hspan Hk.
  pose proof (round_progress k span s n Hask Hs Hspan Hk) as Hround. destruct (asking_request _ _ _ _ Hask) as [c Hreq].
  set (e := Z.min (s + span - 1) k) in *. assert (s ≤ e ≤ k) as He by lia.
  assert (served (MkSyncRequest s e) = seqZ s (e - s + 1)) as Hserved by (by rewrite served_range by (cbn; lia)).
  destruct (Z.eqb_spec e k) as [Hek|Hek].
  - exists 1%nat. cbn [rounds]. rewrite Hreq, Hserved, Hek. cbn [fst snd]. rewrite app_nil_r. split_and!; try done; try lia; apply Hround.
  - destruct (IH (Z.to_nat (k - (e + 1))) ltac:(lia) (e + 1) (round n) eq_refl Hround ltac:(lia) Hspan Hk) as (j & Hj & Hl & Hst & Hnx).
    exists (S j). cbn [rounds]. rewrite Hreq, Hserved. destruct (rounds j (round n)) as [l n'] eqn:Er. cbn [fst snd] in *.
    split_and!; [lia| |done|done]. rewrite Hl. replace (e + 1) with (s + (e - s + 1)) by lia.
    rewrite <- seqZ_app by lia. f_equal. lia.
Qed.

(** Catching up starts with a request. *)
Lemma start_sync_asks c target n span :
  provides n c = true → c ∈ connections n → (sync_state (sync_master n) = in_sync ∨ sync_state (sync_master n) = lib_catchup) →
  sync_last_requested_num (sync_master n) ≤ chain_fork_head_blk_num (chain_info n) →
  (∀ s, sync_source (sync_master n) = Some s → provides n s = true) →
  let k := Z.max target (sync_known_lib_num (sync_master n)) in
  let s := Z.max (chain_lib_num (chain_info n) + 1) (sync_next_expected_num (sync_master n)) in
  sync_last_requested_num (sync_master n) < k → chain_lib_num (chain_info n) < target →
  0 ≤ chain_lib_num (chain_info n) → s ≤ k → 1 ≤ span → k + span < 2 ^ 32 → sync_req_span (sync_master n) = span →
  asking k span s (start_sync c target n).
Proof.
  intros Hp Hc Hst Hlast Hsrc k s Hk Ht Hlib Hs Hspan Hw Hsp. unfold start_sync. cbv zeta.
  set (n0 := if sync_known_lib_num (sync_master n) <? target then _ else n).
  assert (n0 = sync (with_sync_known_lib_num k) n) as ->.
  { subst n0 k. destruct (Z.ltb_spec (sync_known_lib_num (sync_master n)) target); [by rewrite Z.max_l by lia|].
    rewrite Z.max_r by lia. by destruct n as [[]]. }
  change (chain_info (sync _ n)) with (chain_info n).
  assert (negb (is_sync_required (chain_fork_head_blk_num (chain_info n)) (sync_master (sync (with_sync_known_lib_num k) n))) ||
    (target <=? chain_lib_num (chain_info n)) = false) as ->.
  { rewrite (proj2 (Z.leb_gt target _)), orb_false_r by lia. unfold is_sync_required. cbn.
    by rewrite (proj2 (Z.ltb_lt (sync_last_requested_num (sync_master n)) k)) by lia. }
  set (n1 := if bool_decide _ then _ else _).
  assert (n1 = sync (λ m, with_sync_state lib_catchup (with_sync_known_lib_num k m)) n) as ->.
  { subst n1. cbn. destruct Hst as [Hst|Hst]; rewrite Hst; cbn.
    - unfold set_state. cbn. by rewrite Hst.
    - destruct n as [[]]; cbn in *. by subst. }
  set (n2 := sync _ (sync _ n)).
  assert (sync_next_expected_num (sync_master n2) = s) as Hs2.
  { cbn. rewrite u32_id by lia. done. }
  exists c. eexists. rewrite (request_chunk (Some c) n2 c s (Z.min (s + span - 1) k)).
  - split; [done|]. split; [|done]. split; try done; [intros x [= <-]; done|by exists c].
  - left. done.
  - change (get n2 c) with (get n c). unfold provides in Hp. apply andb_true_iff in Hp as [_ Hcur]. by rewrite Hcur.
  - done.
  - cbn. lia.
  - done.
  - cbn. by rewrite Hsp.
  - lia.
  - cbn. lia.
Qed.

End catchup.

(** ** Broadcasts *)

Definition known_to (id : digest) (n : net) (c : Z) : Prop := peer_has_block id (connection_id (get n c)) n = true.

Lemma add_peer_block_has id k n : peer_has_block id k (add_peer_block id k n).2 = true.
Proof.
  unfold add_peer_block. destruct (peer_has_block id k n) eqn:E; unfold peer_has_block in *; cbn.
  - apply existsb_exists in E as (e & He & Hk). apply existsb_exists. exists (MkPeerBlock (pb_id e) (pb_block_num e) (pb_connection_id e) true).
    split; [|done]. apply list_elem_of_In, list_elem_of_fmap. exists e. by rewrite Hk, list_elem_of_In.
  - rewrite existsb_app. cbn. unfold has_entry at 2. cbn. rewrite Z.eqb_refl, bool_decide_eq_true_2 by done. by rewrite orb_true_r.
Qed.

Lemma add_peer_block_mono id k n id' k' : peer_has_block id' k' n = true → peer_has_block id' k' (add_peer_block id k n).2 = true.
Proof.
  intros H. unfold add_peer_block. destruct (peer_has_block id k n); unfold peer_has_block in *; cbn.
  - apply existsb_exists in H as (e & He & Hk). apply existsb_exists. eexists. split; [apply list_elem_of_In, list_elem_of_fmap; exists e; split; [done|by apply list_elem_of_In]|].
    by destruct (has_entry id k e).
  - by rewrite existsb_app, H.
Qed.

Lemma bcast_to_objects id num n c : objects (bcast_block_to id num n c) = objects n.
Proof.
  unfold bcast_block_to, add_peer_block. destruct (negb _); [done|]. destruct (_ <=? _); [done|]. by destruct (peer_has_block _ _ _).
Qed.

(** A connection that gets no copy of the block *)
Definition settled (id : digest) (num : Z) (n : net) (c : Z) : Prop :=
  current (get n c) = false ∨ num ≤ peer_lib (get n c) ∨ known_to id n c.

Lemma bcast_to_settles id num n c : settled id num (bcast_block_to id num n c) c.
Proof.
  unfold bcast_block_to. destruct (current (get n c)) eqn:Hc; cbn [negb]; [|by left].
  destruct (Z.leb_spec num (last_irreversible_block_num (last_handshake_recv (get n c)))); [by right; left|]. right; right.
  assert (peer_has_block id (connection_id (get n c)) (add_peer_block id (connection_id (get n c)) n).2 = true) as Hh by apply add_peer_block_has.
  unfold known_to. revert Hh. unfold add_peer_block. destruct (peer_has_block _ _ n); done.
Qed.

Lemma bcast_to_keeps id num n c k : settled id num n k → settled id num (bcast_block_to id num n c) k.
Proof.
  intros Hs. unfold settled, known_to, get in *. rewrite bcast_to_objects. destruct Hs as [?|[?|Hk]]; [by left|by right; left|right; right].
  unfold bcast_block_to. destruct (negb _); [done|]. destruct (_ <=? _); [done|].
  pose proof (add_peer_block_mono id (connection_id (get n c)) n _ _ Hk) as Hm. unfold get in Hm. cbv zeta in *.
  by destruct (add_peer_block _ _ _) as [[] n'].
Qed.

Lemma bcast_to_settled id num n c : settled id num n c → out (bcast_block_to id num n c) = out n.
Proof.
  unfold bcast_block_to. destruct (current _) eqn:Hc; [|done]. cbn [negb]. intros [?|[Hl|Hk]]; [congruence| |].
  - unfold peer_lib in Hl. by rewrite (proj2 (Z.leb_le _ _)).
  - destruct (_ <=? _); [done|]. unfold add_peer_block. unfold known_to in Hk. by rewrite Hk.
Qed.

Lemma bcast_fold_settles id num l n c : c ∈ l ∨ settled id num n c → settled id num (foldl (bcast_block_to id num) n l) c.
Proof.
  revert n. induction l as [|k l IH]; intros n Hc; cbn [foldl]; [by destruct Hc as [?%not_elem_of_nil|]|].
  apply IH. rewrite elem_of_cons in Hc. destruct Hc as [[->|?]|?]; [right; apply bcast_to_settles|by left|right; by apply bcast_to_keeps].
Qed.

Lemma bcast_fold_settled id num l n : (∀ c, c ∈ l → settled id num n c) → out (foldl (bcast_block_to id num) n l) = out n.
Proof.
  revert n. induction l as [|k l IH]; intros n Hc; [done|]. cbn [foldl]. rewrite IH.
  - apply bcast_to_settled, Hc. by left.
  - intros c Hin. apply bcast_to_keeps, Hc. by right.
Qed.

Lemma bcast_fold_connections id num l n : block_connections (foldl (bcast_block_to id num) n l) = block_connections n.
Proof.
  revert n. induction l as [|k l IH]; intros n; [done|]. cbn [foldl]. rewrite IH. unfold block_connections, get.
  rewrite bcast_to_objects. unfold bcast_block_to. destruct (negb _); [done|]. destruct (_ <=? _); [done|].
  unfold add_peer_block. by destruct (peer_has_block _ _ _).
Qed.

(** A block is sent to a connection at most once, while the node remembers it: broadcasting it
    again sends nothing. *)
Lemma bcast_block_once id num n : out (bcast_block id num (bcast_block id num n)) = out (bcast_block id num n).
Proof.
  destruct (bool_decide (sync_state (sync_master n) = lib_catchup)) eqn:E; [unfold bcast_block; by rewrite !E|].
  assert (bcast_block id num n = foldl (bcast_block_to id num) n (block_connections n)) as -> by (unfold bcast_block; by rewrite E).
  clear E. unfold bcast_block. case_bool_decide; [done|]. apply bcast_fold_settled. intros c Hc. apply bcast_fold_settles. left.
  by rewrite bcast_fold_connections in Hc.
Qed.
End plugin.

(** ** Write queues *)

Module QueuedBuffer.

(** A message of [size] bytes *)
Record queued_write := MkWrite { buff : Z; bsize : Z }.

Record queued_buffer := MkQueue {
  _write_queue_size : Z;
  _write_queue : list queued_write;
  _sync_write_queue : list queued_write;
  _out_queue : list queued_write }.

Definition def_max_write_queue_size : Z := 1024 * 1024 * 4 * 10.

Definition clear_write_queue (q : queued_buffer) : queued_buffer := MkQueue 0 [] [] (_out_queue q).

Definition clear_out_queue (q : queued_buffer) : queued_buffer := MkQueue (_write_queue_size q) (_write_queue q) (_sync_write_queue q) [].

Definition ready_to_send (q : queued_buffer) : bool :=
  (negb (bool_decide (length (_sync_write_queue q) = 0%nat)) || negb (bool_decide (length (_write_queue q) = 0%nat))) &&
  bool_decide (length (_out_queue q) = 0%nat).

Definition add_write_queue (w : queued_write) (to_sync_queue : bool) (q : queued_buffer) : bool * queued_buffer :=
  let size := u32 (_write_queue_size q + bsize w) in
  (negb (2 * def_max_write_queue_size <? size),
   if to_sync_queue then MkQueue size (_write_queue q) (_sync_write_queue q ++ [w]) (_out_queue q)
   else MkQueue size (_write_queue q ++ [w]) (_sync_write_queue q) (_out_queue q)).

(** The loop of [fill_out_buffer] over one queue: the messages to write and the size left *)
Fixpoint fill_loop (w_queue : list queued_write) (size : Z) (out : list queued_write) : Z * list queued_write :=
  match w_queue with
  | [] => (size, out)
  | w :: w_queue => fill_loop w_queue (u32 (size - bsize w)) (out ++ [w])
  end.

Definition fill_out_buffer (q : queued_buffer) : result exn queued_buffer :=
  match _sync_write_queue q with
  | _ :: _ =>
      let '(size, out) := fill_loop (_sync_write_queue q) (_write_queue_size q) (_out_queue q) in
      Ok (MkQueue size (_write_queue q) [] out)
  | [] =>
      let '(size, out) := fill_loop (_write_queue q) (_write_queue_size q) (_out_queue q) in
      _ ← assert_that (size =? 0) plugin_exception;
      Ok (MkQueue size [] [] out)
  end.

Definition total (l : list queued_write) : Z := foldr (λ w a, bsize w + a) 0 l.

(** The size is that of both queues, up to the width of the counter. *)
Definition counted (q : queued_buffer) : Prop :=
  _write_queue_size q = u32 (total (_write_queue q) + total (_sync_write_queue q)).

Lemma spent_app l l' : total (l ++ l') = total l + total l'.
Proof. unfold total. induction l as [|w l IH]; cbn [app foldr]; [done|]. rewrite IH. lia. Qed.

Lemma fill_loop_eq l size out : fill_loop l (u32 size) out = (u32 (size - total l), out ++ l).
Proof.
  revert size out. induction l as [|w l IH]; intros size out; cbn [fill_loop].
  { by rewrite app_nil_r, Z.sub_0_r. }
  replace (u32 (u32 size - bsize w)) with (u32 (size - bsize w)) by (unfold u32; by rewrite Zminus_mod_idemp_l).
  rewrite IH, <- app_assoc. unfold total. cbn [foldr app]. do 2 f_equal. lia.
Qed.

Lemma counted_add w b q : counted q → counted (add_write_queue w b q).2.
Proof.
  unfold counted, add_write_queue. intros Hq. destruct b; cbn [snd _write_queue_size _write_queue _sync_write_queue];
    rewrite Hq, spent_app; unfold total, u32; cbn [foldr]; rewrite Zplus_mod_idemp_l; f_equal; lia.
Qed.

Lemma counted_clear q : counted (clear_write_queue q).
Proof. done. Qed.

(** The assertion on the size never fails: the messages of one queue, those of a synchronisation
    first, are written in the order in which they were added. *)
Lemma fill_out_buffer_ok q : counted q →
  ∃ q', fill_out_buffer q = Ok q' ∧ counted q' ∧ _sync_write_queue q' = [] ∧
    match _sync_write_queue q with
    | [] => _out_queue q' = _out_queue q ++ _write_queue q ∧ _write_queue q' = []
    | l => _out_queue q' = _out_queue q ++ l ∧ _write_queue q' = _write_queue q
    end.
Proof.
  unfold counted. intros Hq. unfold fill_out_buffer. rewrite Hq, !fill_loop_eq.
  destruct (_sync_write_queue q) as [|w l].
  - cbn [total foldr]. rewrite Z.add_0_r, Z.sub_diag. by eexists.
  - eexists. split; [done|]. cbn [_write_queue_size _write_queue _sync_write_queue]. split; [|done]. unfold total. cbn [foldr]. f_equal. lia.
Qed.
End QueuedBuffer.

(** ** Samples *)

Definition sample_config : net_config :=
  MkConfig 7 1 "node" "0123456789" "agent" Any [] [] (λ _, false) (λ t, t) (λ _ _, None) (λ _ _, 0).

Definition sample_hello : handshake_message := MkHandshake 1206 7 2 0 5 0 0 "peer" 5 (Merkle.Digest 5 0 0 1) 9 (Merkle.Digest 9 0 0 1) "linux" "agent" 1.

Definition sample_notice : notice_message := MkNotice (MkIds last_irr_catch_up 5 []) (MkIds last_irr_catch_up 9 []).

(** Two peers connect, one says hello and announces its blocks. *)
Definition sample_events : list event :=
  [OnConnect 1 "peer" 0; OnSession 1; OnConnect 2 "other" 1; OnHandshake 6 1 sample_hello; OnNotice 1 sample_notice].

Definition sample_net : net := run id sample_config (initial 2) (take 4 sample_events).

Lemma sync_requests_bounded_witness :
  let n := run id sample_config (initial 2) sample_events in
  Send 1 (SyncRequest (MkSyncRequest 1 2)) ∈ out n ∧ sync_last_requested_num (sync_master n) ≤ 5.
Proof.
  split; [|apply (sync_requests_bounded id sample_config 2 sample_events); [lia|repeat constructor; done]].
  apply list_elem_of_In. vm_compute. tauto.
Defined.

End NetPlugin.
