(* ===== verification/Snapshot.v ===== *)
(** * Snapshots

    Models [snapshot.hpp] and [snapshot.cpp]: the sections and rows of a snapshot, its binary
    form on a stream with the positions that are filled in later, its form as a variant, and
    the writer that only hashes the rows.  What these promise to the code that saves and
    restores a chain is the class [SnapshotFormat]; [ChainSnapshot.v] is that code. *)

From S2P Require Import Prelude.
From S2P Require Import Exceptions.
From S2P Require Import AbiSerializer.

From stdpp Require Import strings.

Local Open Scope Z_scope.

Module Snapshot.
Import AbiSerializer (FcVariant, of_array, get_array, of_string, get_string, of_object, get_object, empty_object,
  object_set, object_get, get_of_array, get_of_string, get_of_object, object_get_set).

Definition current_snapshot_version : Z := 1.
Definition magic_number : Z := 0x30510550.

(** ** Rows

    The type that is read is the one the reader asks for: [kind] is the type of a row. *)
Class SnapshotRows (R K : Type) := { kind : R → K }.

(** [fc::raw::pack] and [fc::raw::unpack]; unpacking returns what is left of the stream. *)
Class PackedRows (R K : Type) `{SnapshotRows R K} := {
  pack : R → list Z;
  unpack : K → list Z → result exn (R * list Z);
  unpack_pack r rest : unpack (kind r) (pack r ++ rest) = Ok (r, rest) }.

(** A section has a name and rows. *)
Notation section R := (string * list R)%type.

(** ** Streams *)

Definition le (n : Z) (v : Z) : list Z := Z_to_little_endian n 8 v.
Definition le_value (l : list Z) : Z := little_endian_to_Z 8 l.
Definition size {A} (l : list A) : Z := Z.of_nat (length l).
Definition bytes_of (s : string) : list Z := (λ a, Z.of_N (Ascii.N_of_ascii a)) <$> String.list_ascii_of_string s.

(** An output stream: its bytes and the position where the next are written, over what is
    there *)
Record ostream := MkOut { out_bytes : list Z; tellp : Z }.

Definition put (bs : list Z) (o : ostream) : ostream :=
  let p := Z.to_nat (tellp o) in
  MkOut (take p (out_bytes o ++ replicate (p - length (out_bytes o)) 0) ++ bs ++ drop (p + length bs) (out_bytes o))
    (tellp o + size bs).
Definition seekp (p : Z) (o : ostream) : ostream := MkOut (out_bytes o) p.

(** An input stream; [failed] is its [failbit], with which every operation does nothing. *)
Record istream := MkIn { in_bytes : list Z; in_pos : Z; failed : bool }.

Definition fail (i : istream) : istream := MkIn (in_bytes i) (in_pos i) true.
Definition tellg (i : istream) : Z := if failed i then -1 else in_pos i.
Definition seekg (p : Z) (i : istream) : istream :=
  if failed i then i else if p <? 0 then fail i else MkIn (in_bytes i) p false.

(** Reading an integer of [n] bytes into a variable that holds 0: when there are fewer they
    are its low bytes, and the stream fails. *)
Definition read (n : Z) (i : istream) : Z * istream :=
  if failed i then (0, i)
  else
    let bs := take (Z.to_nat n) (drop (Z.to_nat (in_pos i)) (in_bytes i)) in
    (le_value bs, if size bs =? n then MkIn (in_bytes i) (in_pos i + n) false else fail i).

(** [get]: a byte, or -1 at the end *)
Definition get (i : istream) : Z * istream :=
  if failed i then (-1, i)
  else match in_bytes i !! Z.to_nat (in_pos i) with
       | Some b => (b, MkIn (in_bytes i) (in_pos i + 1) false)
       | None => (-1, fail i)
       end.

(** ** The binary writer *)

Record ostream_snapshot_writer := MkOsw { osw_snapshot : ostream; osw_header_pos : Z; section_pos : Z; row_count : Z }.

Definition new_ostream_writer (o : ostream) : ostream_snapshot_writer :=
  MkOsw (put (le 4 current_snapshot_version) (put (le 4 magic_number) o)) (tellp o) (-1) 0.

Definition write_start_section (section_name : string) (w : ostream_snapshot_writer) : result exn ostream_snapshot_writer :=
  _ ← assert_that (section_pos w =? -1) snapshot_exception;
  let placeholder := le 8 UINT64_MAX in
  Ok (MkOsw (put [0] (put (bytes_of section_name) (put placeholder (put placeholder (osw_snapshot w)))))
        (osw_header_pos w) (tellp (osw_snapshot w)) 0).

(** The packing of a row writes bytes and may throw on the way. *)
Definition write_row (written : list Z) (error : option exn) (w : ostream_snapshot_writer) :
    ostream_snapshot_writer * option exn :=
  let restore := tellp (osw_snapshot w) in
  let o := put written (osw_snapshot w) in
  match error with
  | Some e => (MkOsw (seekp restore o) (osw_header_pos w) (section_pos w) (row_count w), Some e)
  | None => (MkOsw o (osw_header_pos w) (section_pos w) (u64 (row_count w + 1)), None)
  end.

Definition write_end_section (w : ostream_snapshot_writer) : ostream_snapshot_writer :=
  let restore := tellp (osw_snapshot w) in
  let section_size := u64 (restore - section_pos w - 8) in
  let o := seekp (section_pos w) (osw_snapshot w) in
  let o := put (le 8 (row_count w)) (put (le 8 section_size) o) in
  MkOsw (seekp restore o) (osw_header_pos w) (-1) 0.

Definition finalize (w : ostream_snapshot_writer) : ostream_snapshot_writer :=
  MkOsw (put (le 8 UINT64_MAX) (osw_snapshot w)) (osw_header_pos w) (section_pos w) (row_count w).

(** ** The binary reader *)

Record istream_snapshot_reader := MkIsr { isr_snapshot : istream; header_pos : Z; num_rows : Z; cur_row : Z }.

Definition new_istream_reader (i : istream) : istream_snapshot_reader := MkIsr i (tellg i) 0 0.

(** In [validate] the stream throws when it fails; [None] when the loop does not end.  The
    position of the stream is restored. *)
Definition read_or_throw (n : Z) (i : istream) : result exn (Z * istream) :=
  let '(v, i) := read n i in if failed i then Throw std_exception else Ok (v, i).
Definition seek_or_throw (p : Z) (i : istream) : result exn istream :=
  let i := seekg p i in if failed i then Throw std_exception else Ok i.

Definition validate_section (i : istream) : result exn (bool * istream) :=
  '(section_size, i) ← read_or_throw 8 i;
  if section_size =? UINT64_MAX then Ok (false, i)
  else i ← seek_or_throw (tellg i + s64 section_size) i; Ok (true, i).

Fixpoint validate_sections (fuel : nat) (i : istream) : option (result exn unit) :=
  match fuel with
  | O => None
  | S fuel =>
      match validate_section i with
      | Throw e => Some (Throw e)
      | Ok (false, _) => Some (Ok tt)
      | Ok (true, i) => validate_sections fuel i
      end
  end.

(** The exceptions of the stream are turned into [snapshot_exception]. *)
Definition io_exception {A} (r : result exn A) : result exn A :=
  match r with Throw std_exception => Throw snapshot_exception | _ => r end.

Definition validate (fuel : nat) (r : istream_snapshot_reader) : option (result exn unit) :=
  match ('(totem, i) ← read_or_throw 4 (isr_snapshot r);
         _ ← assert_that (totem =? magic_number) snapshot_exception;
         '(version, i) ← read_or_throw 4 i;
         _ ← assert_that (version =? current_snapshot_version) snapshot_exception;
         Ok i) with
  | Throw e => Some (io_exception (Throw e))
  | Ok i => io_exception <$> validate_sections fuel i
  end.

(** The comparison of a name with the next bytes, which stops at the first that differs; a
    [char] is signed. *)
Definition char (b : Z) : Z := if b <? 128 then b else b - 256.

Fixpoint match_name (name : list Z) (i : istream) : bool * istream :=
  match name with
  | [] => (true, i)
  | c :: name =>
      let '(g, i) := get i in
      if negb (g =? char c) then (false, i) else match_name name i
  end.

(** [match && snapshot.get() == 0]: the name and the zero after it *)
Definition named (name : list Z) (i : istream) : bool * istream :=
  let '(m, i) := match_name name i in
  if m then let '(c, i) := get i in (c =? 0, i) else (false, i).

(** The loop of [has_section] and of [set_section]: the number of rows of the first section
    with the name, with the stream after it; [None] when the loop does not end *)
Fixpoint find_section (fuel : nat) (name : list Z) (next_section_pos : Z) (i : istream) : option (option Z * istream) :=
  match fuel with
  | O => None
  | S fuel =>
      let i := seekg next_section_pos i in
      let '(section_size, i) := read 8 i in
      if section_size =? UINT64_MAX then Some (None, i)
      else
        let next_section_pos := tellg i + s64 section_size in
        let '(row_count, i) := read 8 i in
        let '(m, i) := named name i in
        if m then Some (Some row_count, i) else find_section fuel name next_section_pos i
  end.

Definition header_size : Z := 8.

Definition has_section (fuel : nat) (section_name : string) (r : istream_snapshot_reader) :
    option (bool * istream_snapshot_reader) :=
  match find_section fuel (bytes_of section_name) (header_pos r + header_size) (isr_snapshot r) with
  | None => None
  | Some (found, i) =>
      Some (match found with Some _ => true | None => false end,
            MkIsr (seekg (tellg (isr_snapshot r)) i) (header_pos r) (num_rows r) (cur_row r))
  end.

(** A call that may not return, or run into undefined behaviour, which is [None] *)
Notation run A := (option (result exn A)).

Definition rbind {A B} (m : run A) (f : A → run B) : run B :=
  match m with
  | None => None
  | Some (Throw e) => Some (Throw e)
  | Some (Ok a) => f a
  end.

Definition set_section (fuel : nat) (section_name : string) (r : istream_snapshot_reader) : run istream_snapshot_reader :=
  match find_section fuel (bytes_of section_name) (header_pos r + header_size) (isr_snapshot r) with
  | None => None
  | Some (Some row_count, i) => Some (Ok (MkIsr i (header_pos r) row_count 0))
  | Some (None, _) => Some (Throw snapshot_exception)
  end.

Definition clear_section (r : istream_snapshot_reader) : istream_snapshot_reader :=
  MkIsr (isr_snapshot r) (header_pos r) 0 0.

Definition return_to_header (r : istream_snapshot_reader) : istream_snapshot_reader :=
  clear_section (MkIsr (seekg (header_pos r) (isr_snapshot r)) (header_pos r) (num_rows r) (cur_row r)).

Definition isr_empty (r : istream_snapshot_reader) : bool := num_rows r =? 0.

Section read_row.
Context {R K : Type} `{PackedRows R K}.

(** The row and whether there are more; rows are read one after the other, whatever the
    section holds. *)
Definition read_row (k : K) (r : istream_snapshot_reader) : result exn (R * bool * istream_snapshot_reader) :=
  let i := isr_snapshot r in
  '(row, rest) ← unpack k (drop (Z.to_nat (in_pos i)) (in_bytes i));
  let cur := u64 (cur_row r + 1) in
  Ok (row, cur <? num_rows r,
      MkIsr (MkIn (in_bytes i) (size (in_bytes i) - size rest) (failed i)) (header_pos r) (num_rows r) cur).

(** [write_section] with the rows that the given function adds *)
Definition ostream_write_section (section_name : string) (rows : list R) (w : ostream_snapshot_writer) :
    result exn ostream_snapshot_writer :=
  w ← write_start_section section_name w;
  Ok (write_end_section (foldl (λ w r, (write_row (pack r) None w).1) w rows)).

(** The writer for the integrity hash: the bytes that the encoder is given *)
Definition integrity_hash_write_section (section_name : string) (rows : list R) (enc : list Z) : list Z :=
  foldl (λ enc r, enc ++ pack r) enc rows.
End read_row.

(** ** Snapshots as variants *)

Class VariantUint (V O : Type) `{FcVariant V O} := {
  of_uint : Z → V;
  get_uint : V → option Z;
  as_string : V → result exn string;
  get_of_uint n : get_uint (of_uint n) = Some n;
  as_string_of_string s : as_string (of_string s) = Ok s }.

(** [fc::to_variant] and [fc::from_variant] of rows *)
Class VariantRows (R K V : Type) `{SnapshotRows R K} := {
  to_variant : R → V;
  from_variant : K → V → result exn R;
  from_to_variant r : from_variant (kind r) (to_variant r) = Ok r }.

Section variant.
Context {V O : Type} `{FcVariant V O} `{!VariantUint V O}.

Record variant_snapshot_writer := MkVsw { vsw_snapshot : O; current_section_name : string; current_rows : list V }.

Definition new_variant_writer (snapshot : O) : variant_snapshot_writer :=
  MkVsw (object_set "version" (of_uint current_snapshot_version) (object_set "sections" (of_array []) snapshot)) "" [].

Definition vs_write_start_section (section_name : string) (w : variant_snapshot_writer) : variant_snapshot_writer :=
  MkVsw (vsw_snapshot w) section_name [].

Definition vs_write_row (row : V) (w : variant_snapshot_writer) : variant_snapshot_writer :=
  MkVsw (vsw_snapshot w) (current_section_name w) (current_rows w ++ [row]).

(** Reading a member that is missing throws, and so does a member of another type. *)
Definition member (o : O) (k : string) : result exn V :=
  match object_get o k with Some v => Ok v | None => Throw std_exception end.
Definition array (v : V) : result exn (list V) :=
  match get_array v with Some l => Ok l | None => Throw std_exception end.
Definition object (v : V) : result exn O :=
  match get_object v with Some o => Ok o | None => Throw std_exception end.

Definition vs_write_end_section (w : variant_snapshot_writer) : result exn variant_snapshot_writer :=
  v ← member (vsw_snapshot w) "sections";
  sections ← array v;
  let section := object_set "rows" (of_array (current_rows w)) (object_set "name" (of_string (current_section_name w)) empty_object) in
  Ok (MkVsw (object_set "sections" (of_array (sections ++ [of_object section])) (vsw_snapshot w)) "" []).

Record variant_snapshot_reader := MkVsr { vsr_snapshot : V; cur_section : option O; vs_cur_row : Z }.

Definition new_variant_reader (snapshot : V) : variant_snapshot_reader := MkVsr snapshot None 0.

(** [contains] and a test of the type of the member *)
Definition checked {A} (o : O) (k : string) (get : V → option A) : result exn A :=
  match object_get o k with
  | Some v => match get v with Some a => Ok a | None => Throw snapshot_validation_exception end
  | None => Throw snapshot_validation_exception
  end.

Definition vs_validate_section (section : V) : result exn unit :=
  match get_object section with
  | None => Throw snapshot_validation_exception
  | Some so => _ ← checked so "name" get_string; _ ← checked so "rows" get_array; Ok tt
  end.

Definition vs_validate (r : variant_snapshot_reader) : result exn unit :=
  match get_object (vsr_snapshot r) with
  | None => Throw snapshot_validation_exception
  | Some o =>
      version ← checked o "version" get_uint;
      _ ← assert_that (version =? current_snapshot_version) snapshot_validation_exception;
      section_array ← checked o "sections" get_array;
      foldM (λ _ section, vs_validate_section section) tt section_array
  end.

(** The loop of [has_section] and of [set_section] *)
Fixpoint vs_find_section (section_name : string) (sections : list V) : result exn (option V) :=
  match sections with
  | [] => Ok None
  | section :: sections =>
      so ← object section;
      v ← member so "name";
      name ← as_string v;
      if String.eqb name section_name then Ok (Some section) else vs_find_section section_name sections
  end.

Definition vs_sections (r : variant_snapshot_reader) : result exn (list V) :=
  o ← object (vsr_snapshot r); v ← member o "sections"; array v.

Definition vs_has_section (section_name : string) (r : variant_snapshot_reader) : result exn bool :=
  sections ← vs_sections r;
  found ← vs_find_section section_name sections;
  Ok (match found with Some _ => true | None => false end).

Definition vs_set_section (section_name : string) (r : variant_snapshot_reader) : result exn variant_snapshot_reader :=
  sections ← vs_sections r;
  found ← vs_find_section section_name sections;
  match found with
  | Some section => so ← object section; Ok (MkVsr (vsr_snapshot r) (Some so) (vs_cur_row r))
  | None => Throw snapshot_exception
  end.

Definition vs_clear_section (r : variant_snapshot_reader) : variant_snapshot_reader := MkVsr (vsr_snapshot r) None 0.
Definition vs_return_to_header (r : variant_snapshot_reader) : variant_snapshot_reader := vs_clear_section r.

(** The rows of the section that is set; without one a null pointer is followed. *)
Definition vs_rows (r : variant_snapshot_reader) : run (list V) :=
  match cur_section r with
  | None => None
  | Some so => Some (v ← member so "rows"; array v)
  end.

Definition vs_empty (r : variant_snapshot_reader) : run bool :=
  rbind (vs_rows r) (λ rows, Some (Ok (bool_decide (rows = [])))).

Section rows.
Context {R K : Type} `{SnapshotRows R K} `{!VariantRows R K V}.

Definition vs_read_row (k : K) (r : variant_snapshot_reader) : run (R * bool * variant_snapshot_reader) :=
  rbind (vs_rows r) (λ rows,
    Some (match rows !! Z.to_nat (vs_cur_row r) with
          | None => Throw std_exception
          | Some v =>
              row ← from_variant k v;
              let cur := u64 (vs_cur_row r + 1) in
              Ok (row, cur <? size rows, MkVsr (vsr_snapshot r) (cur_section r) cur)
          end)).

Definition variant_write_section (section_name : string) (rows : list R) (w : variant_snapshot_writer) :
    result exn variant_snapshot_writer :=
  vs_write_end_section (foldl (λ w r, vs_write_row (to_variant r) w) (vs_write_start_section section_name w) rows).
End rows.
End variant.
#[global] Arguments variant_snapshot_writer : clear implicits.
#[global] Arguments variant_snapshot_reader : clear implicits.

(** ** What the writers and readers promise

    [write_section] on a writer, the reading of the finished snapshot, and the laws that tie
    them: [written w l] when the sections [l] have been written, [reads r l] when [r] reads a
    snapshot of them and is in no section, [within r l rows] when it is in a section of which
    [rows] are left. *)
Class SnapshotWriter (R W : Type) := { write_section : string → list R → W → result exn W }.

Class SnapshotReader (R K D : Type) := {
  reader_set_section : string → D → run D;
  reader_clear_section : D → D;
  reader_empty : D → run bool;
  reader_read_row : K → D → run (R * bool * D) }.

(** The rows of the first section with a name *)
Definition rows_of {R} (name : string) (l : list (section R)) : option (list R) :=
  snd <$> head (filter (λ s, s.1 = name) l).

Class SnapshotFormat (R K W D : Type) `{SnapshotRows R K} `{SnapshotWriter R W} `{SnapshotReader R K D} := {
  section_ok : section R → Prop;
  name_ok : string → Prop;
  written : W → list (section R) → Prop;
  finished : W → D;
  reads : D → list (section R) → Prop;
  within : D → list (section R) → list R → Prop;
  write_section_ok w l n rows : written w l → section_ok (n, rows) →
    ∃ w', write_section n rows w = Ok w' ∧ written w' (l ++ [(n, rows)]);
  finished_ok w l : written w l → reads (finished w) l;
  set_section_ok r l n rows : reads r l → name_ok n → rows_of n l = Some rows →
    ∃ r', reader_set_section n r = Some (Ok r') ∧ within r' l rows ∧
      reader_empty r' = Some (Ok (bool_decide (rows = [])));
  set_section_missing r l n : reads r l → name_ok n → rows_of n l = None →
    reader_set_section n r = Some (Throw snapshot_exception);
  read_row_ok r l row rows : within r l (row :: rows) →
    ∃ r', reader_read_row (kind row) r = Some (Ok (row, negb (bool_decide (rows = [])), r')) ∧ within r' l rows;
  clear_section_ok r l rows : within r l rows → reads (reader_clear_section r) l }.

(** ** The binary form *)

Lemma sizes_app {A} (a b : list A) : size (a ++ b) = size a + size b.
Proof. unfold size. rewrite length_app. lia. Qed.
Lemma sizes_nonneg {A} (a : list A) : 0 ≤ size a.
Proof. unfold size. lia. Qed.
Lemma sizes_to_nat {A} (a : list A) : Z.to_nat (size a) = length a.
Proof. unfold size. lia. Qed.
Lemma size_cons {A} (x : A) l : size (x :: l) = 1 + size l.
Proof. unfold size. cbn. lia. Qed.
Lemma size_nil {A} : size (@nil A) = 0.
Proof. done. Qed.
Lemma length_le n v : 0 ≤ n → length (le n v) = Z.to_nat n.
Proof. intros Hn. pose proof (length_Z_to_little_endian n 8 v Hn). unfold le. lia. Qed.
Lemma size_le n v : 0 ≤ n → size (le n v) = n.
Proof. intros Hn. unfold size. rewrite length_le; lia. Qed.
Lemma le_value_le n v : 0 ≤ n → 0 ≤ v < 2 ^ (8 * n) → le_value (le n v) = v.
Proof.
  intros Hn Hv. unfold le_value, le. rewrite little_endian_to_Z_to_little_endian by lia.
  apply Z.mod_small. rewrite Z.mul_comm. lia.
Qed.

Lemma put_at a b bs : put bs (MkOut (a ++ b) (size a)) = MkOut (a ++ bs ++ drop (length bs) b) (size (a ++ bs)).
Proof.
  unfold put. cbn [out_bytes tellp]. rewrite sizes_to_nat, sizes_app.
  replace (length a - length (a ++ b))%nat with 0%nat by (rewrite length_app; lia).
  by rewrite app_nil_r, take_app_length, drop_app_add.
Qed.

Lemma read_at (a c : list Z) n v : 0 ≤ n → 0 ≤ v < 2 ^ (8 * n) →
  read n (MkIn (a ++ le n v ++ c) (size a) false) = (v, MkIn (a ++ le n v ++ c) (size (a ++ le n v)) false).
Proof.
  intros Hn Hv. unfold read. cbn [failed in_pos in_bytes]. rewrite sizes_to_nat, drop_app_length.
  rewrite <-(length_le n v) by done. rewrite take_app_length, le_value_le, size_le by done.
  by rewrite Z.eqb_refl, sizes_app, size_le.
Qed.

Lemma get_at (a c : list Z) b :
  get (MkIn (a ++ b :: c) (size a) false) = (b, MkIn (a ++ b :: c) (size (a ++ [b])) false).
Proof.
  unfold get. cbn [failed in_pos in_bytes]. rewrite sizes_to_nat, list_lookup_middle by done.
  by rewrite sizes_app.
Qed.

Definition name_chars (n : list Z) : Prop := Forall (λ b, 0 < b < 128) n.

(** The comparison finds exactly the name that is stored. *)
Lemma named_at n nm : name_chars n → name_chars nm → ∀ a c,
  let f := a ++ nm ++ 0 :: c in
  ∃ p, named n (MkIn f (size a) false) = (bool_decide (n = nm), MkIn f p false) ∧ (n = nm → p = size (a ++ nm ++ [0])).
Proof.
  intros Hn. revert nm. induction Hn as [|x n Hx Hn IH]; intros nm Hnm a c f; unfold f.
  - unfold named. cbn [match_name]. destruct Hnm as [|b nm Hb Hnm]; cbn [app]; rewrite get_at.
    + by exists (size (a ++ [0])).
    + exists (size (a ++ [b])). rewrite bool_decide_eq_false_2 by done. split; [|done].
      destruct (Z.eqb_spec b 0); [lia|done].
  - destruct Hnm as [|b nm Hb Hnm]; unfold named; cbn [match_name app]; rewrite get_at;
      (assert (char x = x) as -> by (unfold char; destruct (Z.ltb_spec x 128); lia)).
    + exists (size (a ++ [0])). rewrite bool_decide_eq_false_2 by done. split; [|done].
      destruct (Z.eqb_spec 0 x); [lia|done].
    + destruct (Z.eqb_spec b x) as [->|Hne]; cbn [negb].
      * destruct (IH nm Hnm (a ++ [x]) c) as (p & Hp & Hpos). unfold named in Hp.
        rewrite <-!app_assoc in *. cbn [app] in *. exists p. rewrite Hp. split.
        -- f_equal. by apply bool_decide_ext; split; [intros ->|intros [= ->]].
        -- intros [= ->]. by rewrite Hpos.
      * exists (size (a ++ [b])). rewrite bool_decide_eq_false_2 by congruence. split; [done|]. intros [= ? ?]. congruence.
Qed.

Section binary.
Context {R K : Type} `{PackedRows R K}.

Definition section_body (s : section R) : list Z :=
  le 8 (size s.2) ++ bytes_of s.1 ++ [0] ++ concat (pack <$> s.2).
Definition encode_section (s : section R) : list Z := le 8 (size (section_body s)) ++ section_body s.
Definition sections (l : list (section R)) : list Z := concat (encode_section <$> l).
Definition header : list Z := le 4 magic_number ++ le 4 current_snapshot_version.

Definition binary_name_ok (n : string) : Prop := name_chars (bytes_of n).
Definition binary_section_ok (s : section R) : Prop :=
  binary_name_ok s.1 ∧ size (section_body s) < 2 ^ 63 ∧ size s.2 < 2 ^ 64.

Lemma s64_small v : 0 ≤ v < 2 ^ 63 → s64 v = v.
Proof. intros Hv. unfold s64. rewrite Z.mod_small; lia. Qed.

Lemma encode_section_app (s : section R) (a c : list Z) :
  a ++ encode_section s ++ c =
  ((a ++ le 8 (size (section_body s))) ++ le 8 (size s.2)) ++ bytes_of s.1 ++ 0 :: concat (pack <$> s.2) ++ c.
Proof. unfold encode_section, section_body. by rewrite <-!app_assoc. Qed.

(** One round of the search *)
Lemma find_section_cons fuel n s a c i : binary_name_ok n → binary_section_ok s →
  in_bytes i = a ++ encode_section s ++ c → failed i = false →
  ∃ p, let i' := MkIn (in_bytes i) p false in
  find_section (S fuel) (bytes_of n) (size a) i =
    (if decide (bytes_of s.1 = bytes_of n) then Some (Some (size s.2), i')
     else find_section fuel (bytes_of n) (size (a ++ encode_section s)) i') ∧
  (bytes_of s.1 = bytes_of n → p = size (a ++ encode_section s) - size (concat (pack <$> s.2))).
Proof.
  intros Hn (Hnm & Hb & Hr) Hf Hi. pose proof (sizes_nonneg a) as Ha. pose proof (sizes_nonneg (section_body s)) as Hs.
  destruct (named_at (bytes_of n) (bytes_of s.1) Hn Hnm ((a ++ le 8 (size (section_body s))) ++ le 8 (size s.2))
              (concat (pack <$> s.2) ++ c)) as (p & Hp & Hpos).
  cbv zeta in Hp. rewrite <-encode_section_app in Hp.
  exists p. cbn [find_section]. unfold seekg. rewrite Hi. destruct (Z.ltb_spec (size a) 0) as [?|_]; [lia|]. rewrite Hf.
  rewrite encode_section_app. rewrite <-(app_assoc _ (le 8 (size s.2))), <-(app_assoc a).
  rewrite read_at by lia. unfold UINT64_MAX. destruct (Z.eqb_spec (size (section_body s)) (2 ^ 64 - 1)) as [?|_]; [lia|].
  rewrite (app_assoc a), read_at by (pose proof (sizes_nonneg s.2); lia). rewrite (app_assoc _ (le 8 (size s.2))).
  rewrite <-encode_section_app, Hp. cbn [tellg failed in_pos]. rewrite s64_small by lia.
  split.
  - destruct (decide _) as [E|E].
    + by rewrite bool_decide_eq_true_2.
    + rewrite bool_decide_eq_false_2 by congruence. do 2 f_equal.
      unfold tellg; cbn [failed in_pos]. unfold encode_section. rewrite !sizes_app. lia.
  - intros E. rewrite Hpos by done. unfold encode_section, section_body. rewrite !sizes_app. lia.
Qed.

Lemma bytes_of_inj s n : bytes_of s = bytes_of n → s = n.
Proof.
  unfold bytes_of. intros E. rewrite <-(String.string_of_list_ascii_of_string s), <-(String.string_of_list_ascii_of_string n).
  f_equal. apply (list_fmap_eq_inj _ ) in E; [done|].
  intros x y Hxy. apply N2Z.inj in Hxy. rewrite <-(Ascii.ascii_N_embedding x), <-(Ascii.ascii_N_embedding y). by f_equal.
Qed.

Lemma rows_of_cons n (s : section R) l : rows_of n (s :: l) = if decide (s.1 = n) then Some s.2 else rows_of n l.
Proof. unfold rows_of. rewrite filter_cons. by destruct (decide (s.1 = n)). Qed.

(** The search finds the first section with a name, and leaves the stream before its rows. *)
Lemma find_section_spec n l : binary_name_ok n → Forall binary_section_ok l → ∀ fuel a junk i,
  (length l < fuel)%nat → in_bytes i = a ++ sections l ++ le 8 UINT64_MAX ++ junk → failed i = false →
  match rows_of n l with
  | Some rows => ∃ b c, find_section fuel (bytes_of n) (size a) i = Some (Some (size rows), MkIn (in_bytes i) (size b) false) ∧
      in_bytes i = b ++ concat (pack <$> rows) ++ c
  | None => ∃ p, find_section fuel (bytes_of n) (size a) i = Some (None, MkIn (in_bytes i) p false)
  end.
Proof.
  intros Hn Hl. induction Hl as [|s l Hs Hl IH]; intros fuel a junk i Hfuel Hf Hi.
  - cbn in Hf |- *. destruct fuel as [|fuel]; [cbn in Hfuel; lia|]. exists (size (a ++ le 8 UINT64_MAX)). cbn [find_section].
    unfold seekg. rewrite Hi. destruct (Z.ltb_spec (size a) 0) as [?|_]; [pose proof (sizes_nonneg a); lia|].
    rewrite Hf, read_at by (unfold UINT64_MAX; lia). by rewrite Z.eqb_refl.
  - destruct fuel as [|fuel]; [cbn in Hfuel; lia|]. unfold sections in Hf. cbn [fmap list_fmap concat] in Hf.
    rewrite <-app_assoc in Hf. destruct (find_section_cons fuel n s a _ i Hn Hs Hf Hi) as (p & Hp & Hpos).
    rewrite rows_of_cons. cbv zeta in Hp. rewrite Hp. destruct (decide (s.1 = n)) as [E|E].
    + rewrite decide_True by (by rewrite E). rewrite Hpos by (by rewrite E).
      exists (a ++ le 8 (size (section_body s)) ++ le 8 (size s.2) ++ bytes_of s.1 ++ [0]),
        (sections l ++ le 8 UINT64_MAX ++ junk). split.
      * do 4 f_equal. unfold encode_section, section_body. rewrite !sizes_app. lia.
      * rewrite Hf, encode_section_app. by rewrite <-!app_assoc.
    + rewrite decide_False by (by intros ?%bytes_of_inj). cbn [in_bytes].
      apply (IH fuel (a ++ encode_section s) junk (MkIn (in_bytes i) p false)); [cbn in Hfuel; lia| |done].
      cbn [in_bytes]. by rewrite Hf, <-!app_assoc.
Qed.

(** *** Writing *)

Definition binary_written (w : ostream_snapshot_writer) (l : list (section R)) : Prop :=
  Forall binary_section_ok l ∧
  ∃ a junk, w = MkOsw (MkOut (a ++ header ++ sections l ++ junk) (size (a ++ header ++ sections l))) (size a) (-1) 0.

Lemma new_ostream_writer_written a b : binary_written (new_ostream_writer (MkOut (a ++ b) (size a))) [].
Proof.
  split; [constructor|]. exists a, (drop 8 b). unfold new_ostream_writer. rewrite put_at.
  rewrite (app_assoc a), put_at. cbn [tellp]. unfold header, sections. rewrite !length_le, drop_drop by lia.
  cbn [fmap list_fmap concat app]. rewrite !app_nil_r, <-!app_assoc. done.
Qed.

(** The rows of a section, while it is written *)
Lemma write_rows_at a pos n rows : ∀ b junk k, 0 ≤ k → k + size rows < 2 ^ 64 → ∃ junk',
  foldl (λ w r, (write_row (pack r) None w).1) (MkOsw (MkOut (a ++ b ++ junk) (size (a ++ b))) n pos k) rows =
  MkOsw (MkOut (a ++ b ++ concat (pack <$> rows) ++ junk') (size (a ++ b ++ concat (pack <$> rows)))) n pos (k + size rows).
Proof.
  induction rows as [|r rows IH]; intros b junk k Hk Hlt.
  - exists junk. cbn. by rewrite app_nil_r, Z.add_0_r.
  - rewrite size_cons in Hlt. pose proof (sizes_nonneg rows) as Hr. cbn [foldl fmap list_fmap concat].
    destruct (IH (b ++ pack r) (drop (length (pack r)) junk) (k + 1)) as (junk' & Hj); [lia|lia|].
    exists junk'. etrans; [|etrans; [exact Hj|]].
    + f_equal. unfold write_row. cbn [fst osw_snapshot osw_header_pos section_pos row_count].
      rewrite (app_assoc a b), put_at, <-!app_assoc. f_equal. unfold u64. apply Z.mod_small. lia.
    + rewrite size_cons, <-!app_assoc. f_equal. lia.
Qed.

Lemma put_over a old bs c : length old = length bs →
  put bs (MkOut (a ++ old ++ c) (size a)) = MkOut (a ++ bs ++ c) (size (a ++ bs)).
Proof. intros E. by rewrite put_at, <-E, drop_app_length. Qed.

Lemma binary_write_section_ok w l n rows : binary_written w l → binary_section_ok (n, rows) →
  ∃ w', ostream_write_section n rows w = Ok w' ∧ binary_written w' (l ++ [(n, rows)]).
Proof.
  intros (Hl & a & junk & ->) Hs. unfold ostream_write_section, write_start_section. cbn [section_pos].
  cbn [assert_that Z.eqb Pos.eqb mbind result_bind osw_snapshot osw_header_pos tellp].
  set (pre := a ++ header ++ sections l). set (ph := le 8 UINT64_MAX).
  replace (a ++ header ++ sections l ++ junk) with (pre ++ junk) by (unfold pre; by rewrite <-!app_assoc).
  rewrite put_at, (app_assoc pre), put_at, (app_assoc (pre ++ ph)), put_at, (app_assoc ((pre ++ ph) ++ ph)), put_at.
  match goal with |- context [drop (length [0]) ?x] => set (j := drop (length [0]) x) end.
  destruct Hs as (Hn & Hb & Hr). cbn [fst snd] in *.
  destruct (write_rows_at (pre ++ ph ++ ph) (size pre) (size a) rows (bytes_of n ++ [0]) j 0) as (j' & Hj); [lia|lia|].
  rewrite <-!app_assoc in Hj. rewrite <-!app_assoc. cbn [app] in Hj |- *. rewrite Hj.
  eexists. split; [done|]. split; [apply Forall_app; split; [done|]; by apply Forall_singleton|].
  exists a, j'. unfold write_end_section, seekp. cbn [osw_snapshot tellp section_pos row_count osw_header_pos seekp out_bytes].
  assert (u64 (size (pre ++ ph ++ ph ++ bytes_of n ++ 0 :: concat (pack <$> rows)) - size pre - 8) = size (section_body (n, rows))) as ->.
  { assert (size (pre ++ ph ++ ph ++ bytes_of n ++ 0 :: concat (pack <$> rows)) - size pre - 8 = size (section_body (n, rows))) as ->.
    - unfold section_body, ph. cbn [fst snd]. rewrite !sizes_app, !size_cons, size_nil, !size_le by lia. ring.
    - unfold u64. apply Z.mod_small. pose proof (sizes_nonneg (section_body (n, rows))). lia. }
  rewrite put_over by (unfold ph; by rewrite !length_le).
  rewrite (app_assoc pre), put_over by (unfold ph; by rewrite !length_le).
  unfold sections. rewrite fmap_app, concat_app. cbn [fmap list_fmap concat]. fold (sections l).
  unfold pre, encode_section, section_body, ph. cbn [fst snd out_bytes]. rewrite !app_nil_r, <-!app_assoc. cbn [app].
  f_equal. f_equal. rewrite !sizes_app, !size_le by lia. lia.
Qed.

(** *** Reading *)

Definition binary_reads (r : istream_snapshot_reader) (l : list (section R)) : Prop :=
  Forall binary_section_ok l ∧ failed (isr_snapshot r) = false ∧ 0 ≤ in_pos (isr_snapshot r) ∧
  ∃ a junk, in_bytes (isr_snapshot r) = a ++ header ++ sections l ++ le 8 UINT64_MAX ++ junk ∧ header_pos r = size a.

Definition binary_within (r : istream_snapshot_reader) (l : list (section R)) (rows : list R) : Prop :=
  binary_reads r l ∧ 0 ≤ cur_row r ∧ cur_row r + size rows = num_rows r ∧ num_rows r < 2 ^ 64 ∧
  ∃ b c, in_bytes (isr_snapshot r) = b ++ concat (pack <$> rows) ++ c ∧ in_pos (isr_snapshot r) = size b.

(** The stream of a finished snapshot, from its header on *)
Definition binary_finished (w : ostream_snapshot_writer) : istream_snapshot_reader :=
  new_istream_reader (MkIn (out_bytes (osw_snapshot (finalize w))) (osw_header_pos w) false).

Lemma binary_finished_ok w l : binary_written w l → binary_reads (binary_finished w) l.
Proof.
  intros (Hl & a & junk & ->). unfold binary_reads, binary_finished, finalize, new_istream_reader, tellg.
  cbn [isr_snapshot failed in_bytes in_pos header_pos osw_header_pos osw_snapshot]. split_and!; [done|done|apply sizes_nonneg|].
  exists a, (drop 8 junk). split; [|done].
  replace (a ++ header ++ sections l ++ junk) with ((a ++ header ++ sections l) ++ junk) by (by rewrite <-!app_assoc).
  rewrite put_at. cbn [out_bytes]. by rewrite <-!app_assoc.
Qed.

(** Enough rounds for every search: a section has more than 8 bytes. *)
Definition search_fuel (r : istream_snapshot_reader) : nat := S (length (in_bytes (isr_snapshot r))).

Lemma length_sections l : (length l ≤ length (sections l))%nat.
Proof.
  induction l as [|s l IH]; [done|]. unfold sections in *. cbn [fmap list_fmap concat length]. unfold encode_section at 1.
  rewrite !length_app, length_le by lia. lia.
Qed.

Lemma header_sized : size header = header_size.
Proof. unfold header. by rewrite sizes_app, !size_le. Qed.

Lemma section_search_ok n r l : binary_name_ok n → binary_reads r l →
  match rows_of n l with
  | Some rows => ∃ b c,
      find_section (search_fuel r) (bytes_of n) (header_pos r + header_size) (isr_snapshot r) =
        Some (Some (size rows), MkIn (in_bytes (isr_snapshot r)) (size b) false) ∧
      in_bytes (isr_snapshot r) = b ++ concat (pack <$> rows) ++ c
  | None => ∃ p, find_section (search_fuel r) (bytes_of n) (header_pos r + header_size) (isr_snapshot r) =
      Some (None, MkIn (in_bytes (isr_snapshot r)) p false)
  end.
Proof.
  intros Hn (Hl & Hi & _ & a & junk & Hf & ->). rewrite <-header_sized, <-sizes_app.
  apply (find_section_spec n l Hn Hl _ _ junk); [|by rewrite Hf, <-!app_assoc|done].
  unfold search_fuel. rewrite Hf, !length_app. pose proof (length_sections l). lia.
Qed.

#[export] Instance ostream_writer : SnapshotWriter R ostream_snapshot_writer := {| write_section := ostream_write_section |}.
#[export] Instance istream_reader : SnapshotReader R K istream_snapshot_reader := {|
  reader_set_section n r := set_section (search_fuel r) n r;
  reader_clear_section := clear_section;
  reader_empty r := Some (Ok (isr_empty r));
  reader_read_row k r := Some (read_row k r) |}.

Lemma rows_of_ok n l rows : Forall binary_section_ok l → rows_of n l = Some rows → size rows < 2 ^ 64.
Proof.
  induction 1 as [|s l Hs Hl IH]; [done|]. rewrite rows_of_cons. destruct (decide _); [|done]. intros [= <-]. apply Hs.
Qed.

Lemma binary_set_section_ok r l n rows : binary_reads r l → binary_name_ok n → rows_of n l = Some rows →
  ∃ r', set_section (search_fuel r) n r = Some (Ok r') ∧ binary_within r' l rows ∧ isr_empty r' = bool_decide (rows = []).
Proof.
  intros Hr Hn Hrows. pose proof (section_search_ok n r l Hn Hr) as Hs. rewrite Hrows in Hs. destruct Hs as (b & c & Hs & Hf).
  unfold set_section. rewrite Hs. eexists. split; [done|]. split; [|by destruct rows].
  destruct Hr as (Hl & Hi & _ & a & junk & Hb & Ha).
  refine (conj (conj Hl (conj eq_refl (conj (sizes_nonneg b) _))) (conj _ (conj _ (conj _ _)))); cbn.
  - by exists a, junk.
  - done.
  - done.
  - by apply (rows_of_ok n l).
  - by exists b, c.
Qed.

Lemma binary_read_row_ok r l row rows : binary_within r l (row :: rows) →
  ∃ r', read_row (kind row) r = Ok (row, negb (bool_decide (rows = [])), r') ∧ binary_within r' l rows.
Proof.
  intros ((Hl & Hi & Hp & Ha) & Hc & Hn & Hlt & b & c & Hf & Hpos). rewrite size_cons in Hn. pose proof (sizes_nonneg rows) as Hr.
  cbn [fmap list_fmap concat] in Hf. rewrite <-app_assoc in Hf.
  unfold read_row. rewrite Hpos, Hf, sizes_to_nat, drop_app_length, unpack_pack. cbn [mbind result_bind].
  assert (u64 (cur_row r + 1) = cur_row r + 1) as -> by (unfold u64; rewrite Z.mod_small; lia).
  assert (size (b ++ pack row ++ concat (pack <$> rows) ++ c) - size (concat (pack <$> rows) ++ c) = size (b ++ pack row)) as ->
    by (rewrite !sizes_app; lia).
  eexists. split.
  - do 3 f_equal. destruct rows as [|x rows].
    + destruct (Z.ltb_spec (cur_row r + 1) (num_rows r)); [rewrite size_nil in Hn; lia|done].
    + rewrite size_cons in Hn. destruct (Z.ltb_spec (cur_row r + 1) (num_rows r)); [done|pose proof (sizes_nonneg rows); lia].
  - rewrite <-Hf. refine (conj (conj Hl (conj Hi (conj (sizes_nonneg _) Ha))) (conj _ (conj _ (conj Hlt _)))); cbn; [lia|lia|].
    exists (b ++ pack row), c. split; [|done]. by rewrite Hf, <-!app_assoc.
Qed.

#[export] Instance binary_format : SnapshotFormat R K ostream_snapshot_writer istream_snapshot_reader.
Proof.
  refine {| section_ok := binary_section_ok; name_ok := binary_name_ok; written := binary_written;
            finished := binary_finished; reads := binary_reads; within := binary_within |}.
  - apply binary_write_section_ok.
  - apply binary_finished_ok.
  - intros r l n rows Hr Hn Hrows. destruct (binary_set_section_ok r l n rows Hr Hn Hrows) as (r' & Hs & Hw & He).
    exists r'. cbn. by rewrite He.
  - intros r l n Hr Hn Hrows. pose proof (section_search_ok n r l Hn Hr) as Hs. rewrite Hrows in Hs. destruct Hs as (p & Hs).
    cbn. unfold set_section. by rewrite Hs.
  - intros r l row rows Hw. destruct (binary_read_row_ok r l row rows Hw) as (r' & Hr & Hw'). exists r'. cbn. by rewrite Hr.
  - by intros r l rows (Hr & _).
Defined.

(** *** Validation and the search for a section *)

Lemma seek_at (p q : Z) f : 0 ≤ q → seek_or_throw q (MkIn f p false) = Ok (MkIn f q false).
Proof. intros Hq. unfold seek_or_throw, seekg. cbn [failed]. by destruct (Z.ltb_spec q 0); [lia|]. Qed.

Lemma read_or_throw_at (a c : list Z) n v : 0 ≤ n → 0 ≤ v < 2 ^ (8 * n) →
  read_or_throw n (MkIn (a ++ le n v ++ c) (size a) false) = Ok (v, MkIn (a ++ le n v ++ c) (size (a ++ le n v)) false).
Proof. intros Hn Hv. unfold read_or_throw. by rewrite read_at. Qed.

Lemma validate_sections_ok l junk : Forall binary_section_ok l → ∀ fuel a, (length l < fuel)%nat →
  validate_sections fuel (MkIn (a ++ sections l ++ le 8 UINT64_MAX ++ junk) (size a) false) = Some (Ok tt).
Proof.
  induction 1 as [|s l (Hnm & Hb & Hr) Hl IH]; intros fuel a Hfuel; (destruct fuel as [|fuel]; [cbn in Hfuel; lia|]);
    cbn [validate_sections]; unfold validate_section.
  - cbn [sections fmap list_fmap concat app]. rewrite read_or_throw_at by (unfold UINT64_MAX; lia). cbn [mbind result_bind].
    by rewrite Z.eqb_refl.
  - unfold sections. cbn [fmap list_fmap concat]. fold (sections l). unfold encode_section. pose proof (sizes_nonneg (section_body s)) as Hs.
    rewrite <-!app_assoc, read_or_throw_at by lia. cbn [mbind result_bind].
    unfold UINT64_MAX at 1. destruct (Z.eqb_spec (size (section_body s)) (2 ^ 64 - 1)) as [?|_]; [lia|].
    unfold tellg. cbn [failed in_pos]. rewrite s64_small, <-sizes_app, seek_at by first [lia | apply sizes_nonneg].
    cbn [mbind result_bind]. replace (a ++ le 8 (size (section_body s)) ++ section_body s ++ sections l ++ le 8 UINT64_MAX ++ junk)
      with (((a ++ le 8 (size (section_body s))) ++ section_body s) ++ sections l ++ le 8 UINT64_MAX ++ junk) by (by rewrite <-!app_assoc).
    apply IH. cbn in Hfuel. lia.
Qed.

Lemma validate_ok w l : binary_written w l → let r := binary_finished w in validate (search_fuel r) r = Some (Ok tt).
Proof.
  intros Hw. pose proof (binary_finished_ok w l Hw) as (Hl & Hi & _ & a & junk & Hf & Ha).
  cbv zeta. unfold validate. set (r := binary_finished w) in *.
  assert (isr_snapshot r = MkIn (in_bytes (isr_snapshot r)) (size a) false) as Hr.
  { destruct Hw as (_ & a' & j & ->). unfold r, binary_finished, new_istream_reader, tellg in *. cbn in Ha |- *. by rewrite Ha. }
  assert (in_bytes (isr_snapshot r) = a ++ le 4 magic_number ++ le 4 current_snapshot_version ++ sections l ++ le 8 UINT64_MAX ++ junk) as Hf'
    by (rewrite Hf; unfold header; by rewrite <-!app_assoc).
  rewrite Hr, Hf', read_or_throw_at by (unfold magic_number; lia). cbn [mbind result_bind]. rewrite Z.eqb_refl.
  cbn [assert_that mbind result_bind]. rewrite (app_assoc a), read_or_throw_at by (unfold current_snapshot_version; lia).
  cbn [mbind result_bind]. rewrite Z.eqb_refl. cbn [assert_that mbind result_bind].
  rewrite (app_assoc (a ++ _) (le 4 _)), validate_sections_ok; [done|done|].
  unfold search_fuel. rewrite Hf, !length_app. pose proof (length_sections l). lia.
Qed.

Lemma rows_of_None n (l : list (section R)) : rows_of n l = None ↔ n ∉ l.*1.
Proof.
  induction l as [|s l IH]; [split; [intros _; apply not_elem_of_nil|done]|]. rewrite rows_of_cons. cbn [fmap list_fmap].
  rewrite not_elem_of_cons. destruct (decide (s.1 = n)) as [->|]; [naive_solver|]. rewrite IH. naive_solver.
Qed.

Lemma has_section_ok n r l : binary_name_ok n → binary_reads r l →
  has_section (search_fuel r) n r = Some (bool_decide (n ∈ l.*1), r).
Proof.
  intros Hn Hr. pose proof (section_search_ok n r l Hn Hr) as Hs. unfold has_section.
  assert (∀ p, MkIsr (seekg (tellg (isr_snapshot r)) (MkIn (in_bytes (isr_snapshot r)) p false)) (header_pos r) (num_rows r) (cur_row r) = r) as Hback.
  { destruct Hr as (_ & Hi & Hp & _). intros p. unfold tellg, seekg. rewrite Hi. cbn [failed in_bytes].
    destruct (Z.ltb_spec (in_pos (isr_snapshot r)) 0); [lia|]. destruct r as [[f q b] h m k]. cbn in *. by subst. }
  destruct (rows_of n l) as [rows|] eqn:E.
  - destruct Hs as (b & c & -> & _). rewrite Hback, bool_decide_eq_true_2; [done|]. destruct (decide (n ∈ l.*1)) as [|Hni]; [done|].
    apply rows_of_None in Hni. congruence.
  - destruct Hs as (p & ->). apply rows_of_None in E. by rewrite Hback, bool_decide_eq_false_2.
Qed.

(** A row whose packing throws leaves the snapshot as it was up to the position of the
    writer. *)
Lemma failed_row_undone written e w : 0 ≤ tellp (osw_snapshot w) ≤ size (out_bytes (osw_snapshot w)) →
  let '(w', x) := write_row written (Some e) w in
  x = Some e ∧ tellp (osw_snapshot w') = tellp (osw_snapshot w) ∧ section_pos w' = section_pos w ∧ row_count w' = row_count w ∧
  take (Z.to_nat (tellp (osw_snapshot w'))) (out_bytes (osw_snapshot w')) = take (Z.to_nat (tellp (osw_snapshot w))) (out_bytes (osw_snapshot w)).
Proof.
  intros Hp. cbn. split_and!; try done. destruct w as [[f p] h s n]. unfold size in Hp. cbn in Hp |- *.
  replace (Z.to_nat p - length f)%nat with 0%nat by lia. rewrite app_nil_r, take_app_le by (rewrite length_take; lia).
  by rewrite take_take, Nat.min_id.
Qed.
End binary.

(** A section whose size leads back to its own size field is read without end. *)
Lemma size_leads_back_forever (a c : list Z) fuel :
  validate_sections fuel (MkIn (a ++ le 8 (2 ^ 64 - 8) ++ c) (size a) false) = None.
Proof.
  induction fuel as [|fuel IH]; [done|]. cbn [validate_sections]. unfold validate_section.
  rewrite read_or_throw_at by lia. cbn [mbind result_bind].
  change (2 ^ 64 - 8 =? UINT64_MAX) with false. cbv iota. unfold tellg. cbn [failed in_pos].
  rewrite sizes_app, size_le by lia. change (s64 (2 ^ 64 - 8)) with (-8).
  rewrite seek_at by (pose proof (sizes_nonneg a); lia). cbn [mbind result_bind].
  by replace (size a + 8 + -8) with (size a) by lia.
Qed.

(** ** Reading the rows of a section, with any format *)
Section read_rows.
Context {R K W D : Type} `{SnapshotFormat R K W D}.

(** The loop [while (more)] of the code that restores tables: each row is given to [create]. *)
Fixpoint read_each {S} (fuel : nat) (k : K) (create : R → S → result exn S) (more : bool) (r : D) (s : S) : run (S * D) :=
  if more then
    match fuel with
    | O => None
    | S fuel =>
        rbind (reader_read_row k r) (λ '(row, more, r),
        rbind (Some (create row s)) (λ s,
        read_each fuel k create more r s))
    end
  else Some (Ok (s, r)).

(** [read_section] of rows of one type *)
Definition read_section {S} (fuel : nat) (name : string) (k : K) (create : R → S → result exn S) (r : D) (s : S) : run (S * D) :=
  rbind (reader_set_section name r) (λ r,
  rbind (reader_empty r) (λ e,
  rbind (read_each fuel k create (negb e) r s) (λ '(s, r),
  Some (Ok (s, reader_clear_section r))))).

Lemma read_each_ok {S} k (create : R → S → result exn S) l rows : Forall (λ row, kind row = k) rows → ∀ fuel r s,
  within r l rows → (length rows ≤ fuel)%nat →
  match foldM (λ s row, create row s) s rows with
  | Ok s' => ∃ r', read_each fuel k create (negb (bool_decide (rows = []))) r s = Some (Ok (s', r')) ∧ within r' l []
  | Throw e => read_each fuel k create (negb (bool_decide (rows = []))) r s = Some (Throw e)
  end.
Proof.
  induction 1 as [|row rows Hk Hrows IH]; intros fuel r s Hw Hf.
  - cbn. exists r. by destruct fuel.
  - destruct fuel as [|fuel]; [cbn in Hf; lia|]. destruct (read_row_ok r l row rows Hw) as (r' & Hr & Hw').
    cbn [foldM bool_decide negb]. rewrite bool_decide_eq_false_2 by done. cbn [negb read_each].
    rewrite <-Hk, Hr. cbn [rbind]. destruct (create row s) as [s'|e]; [|done]. cbn [mbind result_bind rbind].
    rewrite Hk. apply IH; [done|cbn in Hf; lia].
Qed.

(** A section of a snapshot is read back: its rows, in order, are given to [create]. *)
Lemma read_section_ok {S} fuel n k (create : R → S → result exn S) l rows r s : reads r l → name_ok n → rows_of n l = Some rows →
  Forall (λ row, kind row = k) rows → (length rows ≤ fuel)%nat →
  match foldM (λ s row, create row s) s rows with
  | Ok s' => ∃ r', read_section fuel n k create r s = Some (Ok (s', r')) ∧ reads r' l
  | Throw e => read_section fuel n k create r s = Some (Throw e)
  end.
Proof.
  intros Hr Hn Hrows Hk Hf. destruct (set_section_ok r l n rows Hr Hn Hrows) as (r' & Hs & Hw & He).
  unfold read_section. rewrite Hs. cbn [rbind]. rewrite He. cbn [rbind].
  pose proof (read_each_ok k create l rows Hk fuel r' s Hw Hf) as Hre. destruct (foldM _ s rows) as [s'|e].
  - destruct Hre as (r'' & -> & Hw''). cbn [rbind]. eexists. split; [done|]. by eapply clear_section_ok.
  - by rewrite Hre.
Qed.

Lemma write_sections_ok l : Forall section_ok l → ∀ w l0, written w l0 →
  ∃ w', foldM (λ w s, write_section s.1 s.2 w) w l = Ok w' ∧ written w' (l0 ++ l).
Proof.
  induction 1 as [|[n rows] l Hs Hl IH]; intros w l0 Hw; [exists w; by rewrite app_nil_r|].
  destruct (write_section_ok w l0 n rows Hw Hs) as (w1 & Hw1 & Hwr). cbn [foldM fst snd]. rewrite Hw1. cbn [mbind result_bind].
  destruct (IH w1 _ Hwr) as (w' & Hw' & Hwr'). exists w'. split; [done|]. by rewrite <-app_assoc in Hwr'.
Qed.
End read_rows.

Section binary_roundtrip.
Context {R K : Type} `{PackedRows R K}.

(** C19: what is written as a binary snapshot is read back.  Sections whose names are plain
    text, written at any position of a stream over anything that was there, give a snapshot
    that is accepted by [validate]; [has_section] finds exactly the names that were written,
    and leaves the stream where it was; reading the section of a name delivers the rows of the
    first section with this name, in order, and stops after the last; a name that was not
    written is refused.  The searches always end. *)
Theorem binary_snapshot_reads (l : list (section R)) (a b : list Z) : Forall binary_section_ok l →
  ∃ w, foldM (λ w s, ostream_write_section s.1 s.2 w) (new_ostream_writer (MkOut (a ++ b) (size a))) l = Ok w ∧
  let r := binary_finished w in
  validate (search_fuel r) r = Some (Ok tt) ∧
  ∀ n, binary_name_ok n →
    has_section (search_fuel r) n r = Some (bool_decide (n ∈ l.*1), r) ∧
    match rows_of n l with
    | None => set_section (search_fuel r) n r = Some (Throw snapshot_exception)
    | Some rows => ∀ k, Forall (λ row, kind row = k) rows →
        ∃ r', read_section (length rows) n k (λ row read, Ok (read ++ [row])) r [] = Some (Ok (rows, r'))
    end.
Proof.
  intros Hl. destruct (@write_sections_ok R K _ _ _ _ _ binary_format l Hl _ [] (new_ostream_writer_written a b)) as (w & Hw & Hwr).
  exists w. split; [exact Hw|]. cbv zeta. split; [by apply (validate_ok w l)|]. intros n Hn.
  pose proof (binary_finished_ok w l Hwr) as Hr. split; [by apply has_section_ok|].
  destruct (rows_of n l) as [rows|] eqn:E; [|by apply (@set_section_missing R K _ _ _ _ _ binary_format _ l n)].
  intros k Hk. pose proof (@read_section_ok R K _ _ _ _ _ binary_format _ (length rows) n k (λ row read, Ok (read ++ [row])) l rows _ [] Hr Hn E Hk ltac:(lia)) as Hs.
  assert (∀ acc, foldM (λ s row, Ok (s ++ [row])) acc rows = Ok (E := exn) (acc ++ rows)) as Hfold.
  { clear. induction rows as [|x rows IH]; intros acc; cbn; [by rewrite app_nil_r|]. by rewrite IH, <-app_assoc. }
  rewrite Hfold in Hs. destruct Hs as (r' & Hs & _). by exists r'.
Qed.
End binary_roundtrip.

(** ** The form as a variant *)
Section variant_format.
Context {V O : Type} `{FcVariant V O} `{!VariantUint V O}.
Context {R K : Type} `{SnapshotRows R K} `{!VariantRows R K V}.

Definition section_object (s : section R) : O :=
  object_set "rows" (of_array (to_variant <$> s.2)) (object_set "name" (of_string s.1) empty_object).
Definition section_variants (l : list (section R)) : V := of_array ((λ s, of_object (section_object s)) <$> l).

Definition is_snapshot (o : O) (l : list (section R)) : Prop :=
  object_get o "sections" = Some (section_variants l) ∧ object_get o "version" = Some (of_uint current_snapshot_version) ∧
  Forall (λ s, size s.2 < 2 ^ 64) l.

Definition variant_written (w : variant_snapshot_writer V O) (l : list (section R)) : Prop := is_snapshot (vsw_snapshot w) l.
Definition variant_finished (w : variant_snapshot_writer V O) : variant_snapshot_reader V O := new_variant_reader (of_object (vsw_snapshot w)).
Definition variant_reads (r : variant_snapshot_reader V O) (l : list (section R)) : Prop :=
  vs_cur_row r = 0 ∧ ∃ o, vsr_snapshot r = of_object o ∧ is_snapshot o l.
Definition variant_within (r : variant_snapshot_reader V O) (l : list (section R)) (rows : list R) : Prop :=
  variant_reads (vs_clear_section r) l ∧ ∃ n read, cur_section r = Some (section_object (n, read ++ rows)) ∧
    vs_cur_row r = size read ∧ size (read ++ rows) < 2 ^ 64.

Lemma new_variant_writer_written o : variant_written (new_variant_writer o) [].
Proof. split_and!; [|by cbn; rewrite object_get_set|constructor]. cbn. by rewrite !object_get_set. Qed.

Lemma section_object_name s : object_get (section_object s) "name" = Some (of_string s.1).
Proof. unfold section_object. by rewrite !object_get_set. Qed.
Lemma section_object_rows s : object_get (section_object s) "rows" = Some (of_array (to_variant <$> s.2)).
Proof. unfold section_object. by rewrite !object_get_set. Qed.

Lemma add_rows rows : ∀ (w : variant_snapshot_writer V O),
  foldl (λ w r, vs_write_row (to_variant r) w) w rows =
  MkVsw (vsw_snapshot w) (current_section_name w) (current_rows w ++ (to_variant <$> rows)).
Proof.
  induction rows as [|r rows IH]; intros w; cbn [foldl fmap list_fmap].
  - destruct w. cbn. by rewrite app_nil_r.
  - rewrite IH. cbn. by rewrite <-app_assoc.
Qed.

Lemma variant_write_section_ok w l n rows : variant_written w l → size rows < 2 ^ 64 →
  ∃ w', variant_write_section n rows w = Ok w' ∧ variant_written w' (l ++ [(n, rows)]).
Proof.
  intros (Hs & Hv & Hl) Hr. unfold variant_write_section, vs_write_end_section. rewrite add_rows.
  cbn [vsw_snapshot vs_write_start_section]. unfold member. rewrite Hs. cbn [mbind result_bind].
  unfold array, section_variants. rewrite get_of_array. cbn [mbind result_bind]. eexists. split; [done|].
  unfold variant_written, is_snapshot. cbn [vsw_snapshot]. rewrite !object_get_set. cbn. split_and!; [|done|].
  - f_equal. unfold section_variants. by rewrite fmap_app.
  - apply Forall_app; split; [done|]. by apply Forall_singleton.
Qed.

Lemma vs_sections_ok r l : variant_reads r l → vs_sections r = Ok ((λ s, of_object (section_object s)) <$> l).
Proof.
  intros (_ & o & Hr & Hs & _). unfold vs_sections, object, member, array. rewrite Hr, get_of_object. cbn [mbind result_bind].
  rewrite Hs. cbn [mbind result_bind]. unfold section_variants. by rewrite get_of_array.
Qed.

Lemma vs_find_section_ok n l : ∃ v, vs_find_section n ((λ s, of_object (section_object s)) <$> l) = Ok v ∧
  match rows_of n l with
  | Some rows => v = Some (of_object (section_object (n, rows)))
  | None => v = None
  end.
Proof.
  induction l as [|s l IH]; [by exists None|]. cbn [fmap list_fmap vs_find_section]. unfold object, member.
  rewrite get_of_object. cbn [mbind result_bind]. rewrite section_object_name. cbn [mbind result_bind].
  rewrite as_string_of_string. cbn [mbind result_bind].
  assert (rows_of n (s :: l) = if decide (s.1 = n) then Some s.2 else rows_of n l) as ->
    by (unfold rows_of; rewrite filter_cons; by destruct (decide (s.1 = n))).
  destruct (decide (s.1 = n)) as [<-|Hne].
  - rewrite String.eqb_refl. eexists. split; [done|]. by destruct s.
  - apply String.eqb_neq in Hne. by rewrite Hne.
Qed.

#[export] Instance variant_writer : SnapshotWriter R (variant_snapshot_writer V O) := {| write_section := variant_write_section |}.
#[export] Instance variant_reader : SnapshotReader R K (variant_snapshot_reader V O) := {|
  reader_set_section n r := Some (vs_set_section n r);
  reader_clear_section := vs_clear_section;
  reader_empty := vs_empty;
  reader_read_row := vs_read_row |}.

Lemma rows_of_size n l rows : Forall (λ s : section R, size s.2 < 2 ^ 64) l → rows_of n l = Some rows → size rows < 2 ^ 64.
Proof.
  intros Hl Hr. unfold rows_of in Hr. destruct (head _) as [s|] eqn:E; [|done]. injection Hr as <-.
  rewrite Forall_forall in Hl. apply Hl. apply head_Some_elem_of, list_elem_of_filter in E. naive_solver.
Qed.

Lemma vs_rows_ok r n rows : cur_section r = Some (section_object (n, rows)) → vs_rows r = Some (Ok (to_variant <$> rows)).
Proof.
  intros Hc. unfold vs_rows, member, array. rewrite Hc, section_object_rows. cbn [mbind result_bind]. by rewrite get_of_array.
Qed.

Lemma variant_set_section_ok r l n rows : variant_reads r l → rows_of n l = Some rows →
  ∃ r', vs_set_section n r = Ok r' ∧ variant_within r' l rows ∧ vs_empty r' = Some (Ok (bool_decide (rows = []))).
Proof.
  intros Hr Hrows. unfold vs_set_section. rewrite (vs_sections_ok r l Hr). cbn [mbind result_bind].
  destruct (vs_find_section_ok n l) as (v & -> & Hv). rewrite Hrows in Hv. subst v. cbn [mbind result_bind].
  unfold object. rewrite get_of_object. cbn [mbind result_bind]. eexists. split; [done|].
  destruct Hr as (Hz & o & Hr & Hs). split.
  - split; [split; [done|by exists o]|]. exists n, []. split_and!; [done|done|]. apply (rows_of_size n l); [apply Hs|done].
  - unfold vs_empty. rewrite (vs_rows_ok _ n rows) by done. cbn [rbind]. do 2 f_equal. apply bool_decide_ext.
    split; [apply fmap_nil_inv|by intros ->].
Qed.

Lemma variant_read_row_ok r l row rows : variant_within r l (row :: rows) →
  ∃ r', vs_read_row (kind row) r = Some (Ok (row, negb (bool_decide (rows = [])), r')) ∧ variant_within r' l rows.
Proof.
  intros (Hr & n & read & Hc & Hcur & Hsz). unfold vs_read_row. rewrite (vs_rows_ok _ n (read ++ row :: rows)) by done.
  cbn [rbind]. rewrite Hcur, sizes_to_nat, list_lookup_fmap, list_lookup_middle by done. cbn [fmap option_fmap option_map].
  rewrite from_to_variant. cbn [mbind result_bind]. rewrite sizes_app, size_cons in Hsz.
  pose proof (sizes_nonneg read). pose proof (sizes_nonneg rows).
  assert (u64 (size read + 1) = size (read ++ [row])) as -> by (unfold u64; rewrite sizes_app, Z.mod_small by lia; done).
  eexists. split.
  - do 5 f_equal. unfold size. rewrite length_fmap, !length_app. cbn [length]. destruct rows; cbn [length].
    + rewrite bool_decide_eq_true_2 by done. cbn. apply Z.ltb_ge. lia.
    + rewrite bool_decide_eq_false_2 by done. cbn. apply Z.ltb_lt. lia.
  - split; [done|]. exists n, (read ++ [row]). rewrite <-app_assoc. split_and!; [done|done|]. rewrite !sizes_app, !size_cons, size_nil in *. cbn [app]. rewrite ?sizes_app, ?size_cons. lia.
Qed.

#[export] Instance variant_format : SnapshotFormat R K (variant_snapshot_writer V O) (variant_snapshot_reader V O).
Proof.
  refine {| section_ok s := size s.2 < 2 ^ 64; name_ok _ := True; written := variant_written;
            finished := variant_finished; reads := variant_reads; within := variant_within |}.
  - intros w l n rows. apply variant_write_section_ok.
  - intros w l Hw. split; [done|]. by exists (vsw_snapshot w).
  - intros r l n rows Hr _ Hrows. destruct (variant_set_section_ok r l n rows Hr Hrows) as (r' & Hs & Hw).
    exists r'. cbn. by rewrite Hs.
  - intros r l n Hr _ Hrows. cbn. unfold vs_set_section. rewrite (vs_sections_ok r l Hr). cbn [mbind result_bind].
    destruct (vs_find_section_ok n l) as (v & -> & Hv). rewrite Hrows in Hv. by subst v.
  - intros r l row rows. apply variant_read_row_ok.
  - intros r l rows (Hr & _). exact Hr.
Defined.

(** A snapshot that the writer made is accepted. *)
Lemma vs_validate_ok w l : variant_written w l → vs_validate (variant_finished w) = Ok tt.
Proof.
  intros (Hs & Hv & _). unfold vs_validate, variant_finished, new_variant_reader. cbn [vsr_snapshot]. rewrite get_of_object.
  unfold checked. rewrite Hv, get_of_uint. cbn [mbind result_bind]. rewrite Z.eqb_refl. cbn [assert_that mbind result_bind].
  rewrite Hs. unfold section_variants. rewrite get_of_array. cbn [mbind result_bind]. clear Hs.
  assert (∀ s, vs_validate_section (of_object (section_object s)) = Ok tt) as Hsec.
  { intros s. unfold vs_validate_section. rewrite get_of_object. unfold checked.
    rewrite section_object_name, get_of_string. cbn [mbind result_bind]. by rewrite section_object_rows, get_of_array. }
  induction l as [|s l IH]; [done|]. cbn [fmap list_fmap foldM]. rewrite Hsec. apply IH.
Qed.
End variant_format.

(** Sections of small numbers, written in unary over four bytes that were on the stream *)
Fixpoint unpack_unary (n : nat) (l : list Z) : result exn (nat * list Z) :=
  match l with
  | 1 :: l => unpack_unary (S n) l
  | 0 :: l => Ok (n, l)
  | _ => Throw std_exception
  end.
Lemma unpack_unary_ok n m rest : unpack_unary m (replicate n 1 ++ 0 :: rest) = Ok ((m + n)%nat, rest).
Proof. revert m. induction n as [|n IH]; intros m; cbn; [by rewrite Nat.add_0_r|]. rewrite IH. do 2 f_equal. lia. Qed.
#[local] Instance unary_rows : SnapshotRows nat unit := {| kind _ := tt |}.
#[local] Instance unary_packed : PackedRows nat unit.
Proof.
  refine {| pack n := replicate n 1 ++ [0]; unpack _ := unpack_unary 0 |}.
  intros n rest. rewrite <-app_assoc. apply (unpack_unary_ok n 0 rest).
Defined.

Lemma binary_snapshot_reads_witness :
  let l := [("accounts", [3; 1; 2]%nat); ("acc", []); ("contract", [5]%nat)]%string in
  ∃ w, foldM (λ w s, ostream_write_section s.1 s.2 w) (new_ostream_writer (MkOut [7; 7; 9; 9] 2)) l = Ok w ∧
  validate (search_fuel (binary_finished w)) (binary_finished w) = Some (Ok tt) ∧
  (∃ r, has_section (search_fuel (binary_finished w)) "acco" (binary_finished w) = Some (false, r)) ∧
  (∃ r, read_section 3 "accounts" tt (λ row read, Ok (read ++ [row])) (binary_finished w) [] = Some (Ok ([3; 1; 2]%nat, r))) ∧
  (∃ r, read_section 0 "acc" tt (λ row read, Ok (read ++ [row])) (binary_finished w) [] = Some (Ok ([] : list nat, r))).
Proof.
  intros l.
  assert (Forall binary_section_ok l) as Hl.
  { repeat constructor; cbn; lia. }
  destruct (binary_snapshot_reads l [7; 7] [9; 9] Hl) as (w & Hw & Hv & Hn).
  exists w. split; [exact Hw|]. split; [exact Hv|].
  split; [|split].
  - eexists. apply (proj1 (Hn "acco"%string ltac:(repeat constructor; cbn; lia))).
  - exact (proj2 (Hn "accounts"%string ltac:(repeat constructor; cbn; lia)) tt ltac:(repeat constructor)).
  - exact (proj2 (Hn "acc"%string ltac:(repeat constructor; cbn; lia)) tt ltac:(repeat constructor)).
Defined.
End Snapshot.
