(* ===== verification/ChainSnapshot.v ===== *)
(** * Saving and restoring the state of a chain

    Models what fills a snapshot and is filled from one: the rows of the permission tables
    ([authorization_manager.cpp]), of the protocol state ([protocol_state_object.cpp]) and of
    the global properties ([global_property_object.hpp]), the section of the contract tables
    and the order of the sections ([controller.cpp]), the upgrade of a snapshot of version 2
    ([block_header_state.cpp]) and the integrity hash.  Identifiers of rows are not saved:
    rows are numbered anew when they are created, and references to them are found again.
    The theorems hold for every format of [Snapshot.SnapshotFormat]. *)

From S2P Require Import Prelude.
From S2P Require Import Exceptions.
From S2P Require Import Merkle.
From S2P Require Import ChainConfig.
From S2P Require Import Authority.
From S2P Require Import Database.
From S2P Require Import Permissions.
From S2P Require Import BlockHeader.
From S2P Require Import BlockHeaderState.
From S2P Require Import ForkDatabase.
From S2P Require Import FeatureActivation.
From S2P Require Import ContractTables.
From S2P Require Import AbiSerializer.
From S2P Require Import Snapshot.

Local Open Scope Z_scope.

Module ChainSnapshot.
Import Snapshot (SnapshotRows, kind, PackedRows, pack, unpack, section, run, rbind, SnapshotWriter, write_section, SnapshotReader,
  reader_set_section, reader_clear_section, reader_empty, reader_read_row, rows_of, SnapshotFormat, section_ok, name_ok,
  written, finished, reads, within, write_section_ok, finished_ok, set_section_ok, set_section_missing, read_row_ok,
  clear_section_ok, read_each, read_section, read_section_ok, write_sections_ok).

(** ** Walking over a table *)

(** [index_utils::walk]: the rows in the order of their identifiers *)
Definition by_id {A} : relation (Z * A) := λ x y, x.1 ≤ y.1.
#[global] Instance by_id_dec {A} (x y : Z * A) : Decision (by_id x y).
Proof. unfold by_id. apply _. Defined.
#[global] Instance by_id_trans {A} : Transitive (@by_id A).
Proof. intros x y z. unfold by_id. lia. Qed.
#[global] Instance by_id_total {A} : Total (@by_id A).
Proof. intros x y. unfold by_id. lia. Qed.
Definition walk {A} (m : gmap Z A) : list (Z * A) := merge_sort by_id (map_to_list m).

Lemma sorted_lookup {A} (R : relation A) l j k x y : StronglySorted R l → l !! j = Some x → l !! k = Some y → (j < k)%nat → R x y.
Proof.
  intros Hs. revert j k. induction Hs as [|a l Hs IH Ha]; intros j k Hj Hk Hlt; [done|]. destruct k as [|k]; [lia|]. cbn in Hk.
  destruct j as [|j].
  - cbn in Hj. injection Hj as ->. rewrite Forall_forall in Ha. by eapply Ha, list_elem_of_lookup_2.
  - eapply (IH j k); [done|done|lia].
Qed.

Section walk.
Context {A : Type}.
Implicit Types (m : gmap Z A) (l : list A).

Lemma elem_of_walk m i a : (i, a) ∈ walk m ↔ m !! i = Some a.
Proof. unfold walk. rewrite merge_sort_Permutation. apply elem_of_map_to_list. Qed.

Lemma walk_NoDup m : NoDup (walk m).*1.
Proof. unfold walk. rewrite merge_sort_Permutation. apply NoDup_fst_map_to_list. Qed.

Lemma walk_sorted m : StronglySorted (λ x y, x.1 < y.1) (walk m).
Proof.
  pose proof (StronglySorted_merge_sort by_id (map_to_list m)) as Hs. fold (walk m) in Hs.
  pose proof (walk_NoDup m) as Hnd. induction Hs as [|x l Hs IH Hx]; [constructor|].
  cbn in Hnd. apply NoDup_cons in Hnd as [Hni Hnd]. constructor; [by apply IH|].
  rewrite Forall_forall in Hx |- *. intros y Hy. specialize (Hx y Hy). unfold by_id in Hx.
  assert (x.1 ≠ y.1); [|lia]. intros E. apply Hni. rewrite E. by apply list_elem_of_fmap_2.
Qed.

(** The list is the only one that is sorted and holds the rows. *)
Lemma walk_unique m (l : list (Z * A)) : StronglySorted (λ x y, x.1 < y.1) l → (∀ i a, (i, a) ∈ l ↔ m !! i = Some a) → walk m = l.
Proof.
  intros Hl Hm. apply (StronglySorted_unique_strong (λ x y : Z * A, x.1 < y.1)).
  - intros x y _ _ H1 H2. lia.
  - apply walk_sorted.
  - done.
  - apply NoDup_Permutation.
    + eapply NoDup_fmap_1, walk_NoDup.
    + clear Hm. induction Hl as [|x l Hl IH Hx]; constructor; [|done]. intros Hin. rewrite Forall_forall in Hx. specialize (Hx _ Hin). lia.
    + intros [i a]. by rewrite elem_of_walk, Hm.
Qed.

Lemma lookup_seq l i : (map_seqZ 0 l : gmap Z A) !! i = if i <? 0 then None else l !! Z.to_nat i.
Proof.
  destruct (Z.ltb_spec i 0).
  - apply lookup_map_seqZ_None. lia.
  - rewrite lookup_map_seqZ. rewrite option_guard_True by lia. by rewrite Z.sub_0_r.
Qed.

Lemma walk_seq l : walk (map_seqZ 0 l) = imap (λ i a, (Z.of_nat i, a)) l.
Proof.
  apply walk_unique.
  - assert (∀ k, StronglySorted (λ x y : Z * A, x.1 < y.1) (imap (λ i a, (Z.of_nat (i + k), a)) l)) as Hs.
    { induction l as [|a l IH]; intros k; [constructor|]. rewrite imap_cons. constructor.
      - specialize (IH (S k)). erewrite imap_ext; [exact IH|]. intros i x _. cbn. do 2 f_equal. lia.
      - apply Forall_forall. intros [j x] Hx. apply elem_of_lookup_imap_1 in Hx as (i & y & E & _). injection E as -> ->. cbn. lia. }
    specialize (Hs 0%nat). erewrite imap_ext; [exact Hs|]. intros i x _. cbn. by rewrite Nat.add_0_r.
  - intros i a. rewrite lookup_seq. split.
    + intros Hx. apply elem_of_lookup_imap_1 in Hx as (j & y & [= -> ->] & Hy). destruct (Z.ltb_spec (Z.of_nat j) 0); [lia|]. by rewrite Nat2Z.id.
    + destruct (Z.ltb_spec i 0); [done|]. intros Hl. replace i with (Z.of_nat (Z.to_nat i)) by lia.
      by apply (elem_of_lookup_imap_2 (λ i a, (Z.of_nat i, a))).
Qed.

Lemma seq_snoc l a : (map_seqZ 0 (l ++ [a]) : gmap Z A) = <[Z.of_nat (length l) := a]> (map_seqZ 0 l).
Proof. rewrite map_seqZ_snoc. by rewrite Z.add_0_l. Qed.
End walk.

(** ** Permissions *)

Record snapshot_permission_object (key : Type) := MkSnapshotPermission {
  sp_parent : Z;
  sp_owner : Z;
  sp_name : Z;
  sp_last_updated : Z;
  sp_last_used : Z;
  sp_auth : Authority.authority key }.
#[global] Arguments MkSnapshotPermission {_} _ _ _ _ _ _.
#[global] Arguments sp_parent {_} _.
#[global] Arguments sp_owner {_} _.
#[global] Arguments sp_name {_} _.
#[global] Arguments sp_last_updated {_} _.
#[global] Arguments sp_last_used {_} _.
#[global] Arguments sp_auth {_} _.

Section permissions.
Import Permissions.
Context {key : Type} `{PublicKey key}.

(** [to_snapshot_row]: the parent and the usage object are looked up. *)
Definition to_snapshot_row (db : auth_db key) (value : permission_object key) : result exn (snapshot_permission_object key) :=
  p ← get (permissions db) (parent value);
  last_used ← get (permission_usages db) (usage_id value);
  Ok (MkSnapshotPermission (name p) (owner value) (name value) (last_updated value) last_used (auth value)).

(** The row of the reserved permission has to be empty. *)
Definition check_reserved (row : snapshot_permission_object key) : result exn unit :=
  _ ← assert_that (sp_parent row =? 0) snapshot_exception;
  _ ← assert_that (sp_name row =? 0) snapshot_exception;
  _ ← assert_that (sp_owner row =? 0) snapshot_exception;
  _ ← assert_that (bool_decide (Authority.accounts (sp_auth row) = [])) snapshot_exception;
  _ ← assert_that (bool_decide (Authority.keys (sp_auth row) = [])) snapshot_exception;
  _ ← assert_that (bool_decide (Authority.waits (sp_auth row) = [])) snapshot_exception;
  _ ← assert_that (Authority.threshold (sp_auth row) =? 0) snapshot_exception;
  assert_that (sp_last_updated row =? 0) snapshot_exception.

(** The parent: 0 for the reserved permission and for one without a named parent *)
Definition parent_from_row (db : auth_db key) (id : Z) (row : snapshot_permission_object key) : result exn Z :=
  if id =? 0 then _ ← check_reserved row; Ok 0
  else if negb (sp_parent row =? 0) then
    match find_by_owner db (sp_owner row) (sp_parent row) with
    | None => Throw std_exception
    | Some (pid, _) => _ ← assert_that (negb (pid =? 0)) snapshot_exception; Ok pid
    end
  else Ok 0.

(** [from_snapshot_row], within the creation of the permission with the next identifier *)
Definition create_from_row (row : snapshot_permission_object key) (db : auth_db key) : result exn (auth_db key) :=
  let id := next_permission db in
  parent_id ← parent_from_row db id row;
  '(usages, next, usage) ←
    (if negb (id =? 0) then
       u ← create (permission_usages db) (next_usage db) (sp_last_used row);
       Ok (u, next_usage db + 1, next_usage db)
     else Ok (permission_usages db, next_usage db, 0));
  _ ← assert_that (match find_by_owner db (sp_owner row) (sp_name row) with None => true | Some _ => false end) std_exception;
  perms ← create (permissions db) id
            (MkPermission usage parent_id (sp_owner row) (sp_name row) (sp_last_updated row) (sp_auth row));
  Ok (MkAuthDb perms (id + 1) usages next (links db)).

(** Links are kept as they are; the map does not hold their identifiers. *)
Definition create_link (row : Z * Z * Z * Z) (db : auth_db key) : result exn (auth_db key) :=
  l ← create (links db) row.1 row.2;
  Ok (set_links db l).

(** The rows that [authorization_manager::add_to_snapshot] adds *)
Definition permission_rows (db : auth_db key) : result exn (list (snapshot_permission_object key)) :=
  foldM (λ rows x, row ← to_snapshot_row db x.2; Ok (rows ++ [row])) [] (walk (permissions db)).
Definition link_rows (db : auth_db key) : list (Z * Z * Z * Z) := map_to_list (links db).

(** The tables before [read_from_snapshot] *)
Definition empty_auth_db : auth_db key := MkAuthDb ∅ 0 ∅ 0 ∅.

(** *** What is restored *)

Definition permission_list (db : auth_db key) : list (Z * permission_object key) := walk (permissions db).

(** The position of a permission, which is its new identifier *)
Definition position (l : list (Z * permission_object key)) (i : Z) : Z :=
  default 0 ((λ x, Z.of_nat x.1) <$> list_find (λ x, x.1 = i) l).

Definition renumbered (l : list (Z * permission_object key)) (x : Z * permission_object key) : permission_object key :=
  MkPermission (Z.max 0 (position l x.1 - 1)) (position l (parent x.2)) (owner x.2) (name x.2) (last_updated x.2) (auth x.2).

Definition last_used (db : auth_db key) (p : permission_object key) : Z := default 0 (permission_usages db !! usage_id p).

Definition row_of (db : auth_db key) (x : Z * permission_object key) : snapshot_permission_object key :=
  MkSnapshotPermission (default 0 (name <$> permissions db !! parent x.2)) (owner x.2) (name x.2) (last_updated x.2)
    (last_used db x.2) (auth x.2).

(** The tables after the first permissions [done] of [l] have been created *)
Definition restored_part (db : auth_db key) (l done : list (Z * permission_object key)) : auth_db key :=
  MkAuthDb (map_seqZ 0 (renumbered l <$> done)) (Z.of_nat (length done))
    (map_seqZ 0 (last_used db ∘ snd <$> tail done)) (Z.of_nat (length (tail done))) ∅.

Context (db : auth_db key) (Hwf : wf db).
Let l := permission_list db.

Lemma permission_list_elem i p : (i, p) ∈ l ↔ permissions db !! i = Some p.
Proof. apply elem_of_walk. Qed.

Lemma permission_list_sorted : StronglySorted (λ x y, x.1 < y.1) l.
Proof. apply walk_sorted. Qed.

Lemma permission_list_head : ∃ l', l = (0, reserved) :: l'.
Proof.
  pose proof permission_list_sorted as Hs.
  assert ((0, reserved) ∈ l) as Hin by (apply permission_list_elem, (wf_reserved _ Hwf)).
  destruct l as [|[i p] l'] eqn:El; [by apply elem_of_nil in Hin|]. apply elem_of_cons in Hin as [E|Hin]; [exists l'; by rewrite E|].
  apply StronglySorted_inv in Hs as [_ Hx]. rewrite Forall_forall in Hx. specialize (Hx _ Hin). cbn in Hx.
  assert ((i, p) ∈ l) as Hi by (rewrite El; left). apply permission_list_elem in Hi. pose proof (wf_range _ Hwf _ _ Hi). lia.
Qed.

Lemma position_lookup k i p : l !! k = Some (i, p) → position l i = Z.of_nat k.
Proof.
  intros Hk. unfold position. rewrite (proj2 (list_find_Some (λ x : Z * _, x.1 = i) l k (i, p))); [done|].
  split_and!; [done|done|]. intros j [i' p'] Hj Hlt E. cbn in E. subst i'.
  assert (j = k); [|lia]. eapply (NoDup_lookup l.*1 j k i); [apply walk_NoDup|by rewrite list_lookup_fmap, Hj|by rewrite list_lookup_fmap, Hk].
Qed.

Lemma lookup_of i p : permissions db !! i = Some p → ∃ k, l !! k = Some (i, p) ∧ position l i = Z.of_nat k.
Proof.
  intros Hp. apply permission_list_elem, list_elem_of_lookup in Hp as [k Hk]. exists k. split; [done|]. by eapply position_lookup.
Qed.

(** Earlier permissions of the list have smaller identifiers. *)
Lemma lookup_lt j k x y : l !! j = Some x → l !! k = Some y → x.1 < y.1 → (j < k)%nat.
Proof.
  intros Hj Hk Hlt. destruct (decide (j < k)%nat) as [|Hge]; [done|]. exfalso.
  destruct (decide (j = k)) as [->|Hne]; [simplify_eq; lia|].
  pose proof permission_list_sorted as Hs.
  pose proof (sorted_lookup _ _ k j y x Hs Hk Hj ltac:(lia)). cbn in *. lia.
Qed.

Lemma lookup_zero k p : l !! k = Some (0, p) → k = 0%nat.
Proof.
  destruct permission_list_head as [l' El]. intros Hk. destruct k as [|k]; [done|]. exfalso.
  pose proof (lookup_lt 0 (S k)). pose proof permission_list_sorted as Hs. rewrite El in Hs, Hk.
  apply StronglySorted_inv in Hs as [_ Hx]. rewrite Forall_forall in Hx. cbn in Hk. specialize (Hx _ (list_elem_of_lookup_2 _ _ _ Hk)). cbn in Hx. lia.
Qed.

(** *** Every row can be written *)

Context (Hzero : is_Some (permission_usages db !! 0)).

Lemma to_snapshot_row_ok x : x ∈ l → to_snapshot_row db x.2 = Ok (row_of db x).
Proof.
  destruct x as [i p]. intros Hp%permission_list_elem. cbn [snd].
  assert (∃ q, permissions db !! parent p = Some q) as [q Hq].
  { destruct (decide (i = 0)) as [->|Hi].
    - rewrite (wf_reserved _ Hwf) in Hp. injection Hp as <-. exists reserved. apply (wf_reserved _ Hwf).
    - destruct (wf_parent _ Hwf i p Hp Hi) as (_ & q & Hq & _). by exists q. }
  assert (∃ u, permission_usages db !! usage_id p = Some u) as [u Hu].
  { destruct (decide (i = 0)) as [->|Hi].
    - rewrite (wf_reserved _ Hwf) in Hp. injection Hp as <-. exact Hzero.
    - exact (wf_usage _ Hwf i p Hp Hi). }
  unfold to_snapshot_row, row_of, last_used. rewrite (proj2 (get_Ok _ _ _) Hq). cbn [mbind result_bind].
  rewrite (proj2 (get_Ok _ _ _) Hu). cbn [mbind result_bind]. cbn [snd]. by rewrite Hq, Hu.
Qed.

Lemma permission_rows_ok : permission_rows db = Ok (row_of db <$> l).
Proof.
  unfold permission_rows.
  assert (∀ l', (∀ x, x ∈ l' → to_snapshot_row db x.2 = Ok (row_of db x)) → ∀ acc,
    foldM (λ rows x, row ← to_snapshot_row db x.2; Ok (rows ++ [row])) acc l' = Ok (acc ++ (row_of db <$> l'))) as Hgen.
  { induction l' as [|x l' IH]; intros Hx acc; [by rewrite app_nil_r|]. cbn [foldM fmap list_fmap].
    rewrite Hx by left. cbn [mbind result_bind]. rewrite IH by (intros y Hy; apply Hx; by right). by rewrite <-app_assoc. }
  apply (Hgen l to_snapshot_row_ok []).
Qed.

(** *** Rows are read in order *)

Lemma restored_lookup done rest k : l = done ++ rest → (k < length done)%nat →
  permissions (restored_part db l done) !! Z.of_nat k = renumbered l <$> l !! k.
Proof.
  intros El Hk. unfold restored_part. cbn [permissions]. rewrite lookup_seq. destruct (Z.ltb_spec (Z.of_nat k) 0); [lia|].
  rewrite Nat2Z.id, list_lookup_fmap. f_equal. by rewrite El, lookup_app_l.
Qed.

Lemma restored_lookup_inv done rest i q : l = done ++ rest → permissions (restored_part db l done) !! i = Some q →
  ∃ k x, i = Z.of_nat k ∧ (k < length done)%nat ∧ l !! k = Some x ∧ q = renumbered l x.
Proof.
  intros El. unfold restored_part. cbn [permissions]. rewrite lookup_seq. destruct (Z.ltb_spec i 0) as [|Hi]; [done|].
  rewrite list_lookup_fmap. destruct (done !! Z.to_nat i) as [x|] eqn:E; [|done]. intros [= <-].
  exists (Z.to_nat i), x. split_and!; [lia|by eapply lookup_lt_Some| |done]. rewrite El. by apply lookup_app_l_Some.
Qed.

(** A permission is found by its owner and name when it was created. *)
Lemma restored_find done rest k i p : l = done ++ rest → (k < length done)%nat → l !! k = Some (i, p) →
  find_by_owner (restored_part db l done) (owner p) (name p) = Some (Z.of_nat k, renumbered l (i, p)).
Proof.
  intros El Hk Hl. pose proof (restored_lookup done rest k El Hk) as Hr. rewrite Hl in Hr. cbn in Hr.
  destruct (find_by_owner _ _ _) as [[j q]|] eqn:Hf; [|by exfalso; eapply (find_by_owner_None _ _ _ _ _ Hf Hr)].
  apply find_by_owner_Some in Hf as (Hq & Ho & Hn). destruct (restored_lookup_inv done rest j q El Hq) as (k' & [i' p'] & -> & Hk' & Hl' & ->).
  cbn in Ho, Hn. assert (i' = i) as ->.
  { apply (wf_unique _ Hwf i' i p' p); [..|done|done]; apply permission_list_elem; by eapply list_elem_of_lookup_2. }
  assert (k' = k) as ->. { pose proof (position_lookup _ _ _ Hl'). pose proof (position_lookup _ _ _ Hl). lia. }
  congruence.
Qed.

Lemma restored_fresh done rest i p : l = done ++ (i, p) :: rest →
  find_by_owner (restored_part db l done) (owner p) (name p) = None.
Proof.
  intros El. destruct (find_by_owner _ _ _) as [[j q]|] eqn:Hf; [|done]. exfalso.
  apply find_by_owner_Some in Hf as (Hq & Ho & Hn). destruct (restored_lookup_inv done _ j q El Hq) as (k' & [i' p'] & -> & Hk' & Hl' & ->).
  assert (l !! length done = Some (i, p)) as Hl by (by rewrite El, list_lookup_middle).
  assert (i' = i) as ->.
  { apply (wf_unique _ Hwf i' i p' p); [..|done|done]; apply permission_list_elem; by eapply list_elem_of_lookup_2. }
  pose proof (position_lookup _ _ _ Hl'). pose proof (position_lookup _ _ _ Hl). lia.
Qed.

(** The parent is found among the permissions that are there. *)
Lemma parent_restored done rest i p : l = done ++ (i, p) :: rest →
  parent_from_row (restored_part db l done) (Z.of_nat (length done)) (row_of db (i, p)) = Ok (position l (parent p)).
Proof.
  intros El. assert (l !! length done = Some (i, p)) as Hl by (by rewrite El, list_lookup_middle).
  assert (permissions db !! i = Some p) as Hp by (apply permission_list_elem; by eapply list_elem_of_lookup_2).
  unfold parent_from_row. destruct (Z.eqb_spec (Z.of_nat (length done)) 0) as [E|E].
  - assert (length done = 0%nat) as E0 by lia. rewrite E0 in Hl. destruct permission_list_head as [l' El'].
    rewrite El' in Hl. injection Hl as <- <-. unfold check_reserved, row_of. cbn [fst snd parent reserved]. rewrite Hp. cbn.
    f_equal. symmetry. rewrite El'. done.
  - assert (i ≠ 0) as Hi. { intros ->. apply lookup_zero in Hl. lia. }
    destruct (wf_parent _ Hwf i p Hp Hi) as (Hlt & q & Hq & Hown). unfold row_of. cbn [sp_parent sp_owner snd]. rewrite Hq. change (default 0 (name <$> Some q)) with (name q).
    destruct (lookup_of _ _ Hq) as (k & Hk & Hpos). destruct Hown as [H0|Hown].
    + rewrite H0 in *. rewrite (wf_reserved _ Hwf) in Hq. injection Hq as <-. cbn. rewrite Hpos. apply lookup_zero in Hk as ->. done.
    + destruct (Z.eqb_spec (name q) 0) as [Hn|Hn]; cbn [negb].
      * destruct (decide (parent p = 0)) as [H0|H0]; [|by destruct (wf_named _ Hwf _ _ Hq H0)].
        rewrite H0 in *. rewrite Hpos. by apply lookup_zero in Hk as ->.
      * assert (k < length done)%nat as Hkd by (apply (lookup_lt k (length done) (parent p, q) (i, p)); [done|done|cbn; lia]).
        rewrite <-Hown, (restored_find done _ k (parent p) q El Hkd Hk).
        destruct (Z.eqb_spec (Z.of_nat k) 0) as [Hk0|Hk0]; [|by cbn; rewrite Hpos].
        assert (k = 0%nat) as -> by lia. destruct permission_list_head as [l' El']. rewrite El' in Hk. by injection Hk as <- <-.
Qed.

Lemma create_seq {A} (xs : list A) a : create (map_seqZ 0 xs : gmap Z A) (Z.of_nat (length xs)) a = Ok (map_seqZ 0 (xs ++ [a])).
Proof.
  apply create_Ok. split; [|apply seq_snoc]. rewrite lookup_seq. destruct (Z.ltb_spec (Z.of_nat (length xs)) 0); [done|].
  rewrite Nat2Z.id. by apply lookup_ge_None.
Qed.

Lemma create_seq_nil {A} (a : A) : create (map_seqZ 0 (@nil A) : gmap Z A) 0 a = Ok (map_seqZ 0 [a]).
Proof. exact (create_seq [] a). Qed.

Lemma create_from_row_ok done rest i p : l = done ++ (i, p) :: rest →
  create_from_row (row_of db (i, p)) (restored_part db l done) = Ok (restored_part db l (done ++ [(i, p)])).
Proof.
  intros El. assert (l !! length done = Some (i, p)) as Hl by (by rewrite El, list_lookup_middle).
  pose proof (position_lookup _ _ _ Hl) as Hpos. pose proof (parent_restored done rest i p El) as Hpar.
  pose proof (restored_fresh done rest i p El) as Hfresh.
  unfold create_from_row. cbn [next_permission restored_part permission_usages next_usage permissions links].
  fold (restored_part db l done). rewrite Hpar. cbn [mbind result_bind].
  assert (∀ xs : list (Z * permission_object key), Z.of_nat (length xs) = Z.of_nat (length (renumbered l <$> xs))) as Hlen
    by (intros xs; by rewrite length_fmap).
  destruct done as [|d done].
  - change (Z.of_nat (length [])) with 0 in *. change (negb (0 =? 0)) with false. cbn [mbind result_bind]. cbn [row_of sp_owner sp_name snd]. rewrite Hfresh. cbn [assert_that mbind result_bind].
    change (renumbered l <$> []) with (@nil (permission_object key)).
    rewrite create_seq_nil. cbn [mbind result_bind]. unfold restored_part. cbn [app fmap list_fmap length tail]. do 2 f_equal.
    cbn in Hpos. unfold renumbered. cbn [fst snd]. by rewrite Hpos.
  - destruct (Z.eqb_spec (Z.of_nat (length (d :: done))) 0) as [E|_]; [cbn in E; lia|]. cbn [negb].
    cbn [tail]. rewrite <-(length_fmap (last_used db ∘ snd) done). rewrite create_seq. cbn [mbind result_bind].
    cbn [row_of sp_owner sp_name snd]. rewrite Hfresh. cbn [assert_that mbind result_bind].
    rewrite (Hlen (d :: done)), create_seq. cbn [mbind result_bind]. unfold restored_part. rewrite !length_fmap, fmap_app.
    do 2 f_equal; [|rewrite length_app; cbn [length]; lia|cbn [tail app]; by rewrite fmap_app|cbn [tail app]; rewrite length_app; cbn [length]; lia].
    cbn [fmap list_fmap app]. do 4 f_equal. unfold renumbered. cbn [fst snd sp_last_updated sp_auth row_of]. rewrite Hpos. f_equal. cbn [length]. lia.
Qed.

(** Reading all rows restores every permission under its new number. *)
Lemma permissions_read done rest : l = done ++ rest →
  foldM (λ db row, create_from_row row db) (restored_part db l done) (row_of db <$> rest) = Ok (restored_part db l l).
Proof.
  revert done. induction rest as [|[i p] rest IH]; intros done El; cbn [fmap list_fmap foldM].
  - rewrite app_nil_r in El. by rewrite <-El.
  - rewrite (create_from_row_ok done rest i p El). cbn [mbind result_bind]. apply IH. by rewrite <-app_assoc.
Qed.

Definition restored : auth_db key := restored_part db l l.

Lemma restored_lookup_all i p : permissions db !! i = Some p → permissions restored !! position l i = Some (renumbered l (i, p)).
Proof.
  intros Hp. destruct (lookup_of i p Hp) as (k & Hk & ->). unfold restored.
  rewrite (restored_lookup l [] k); [by rewrite Hk|by rewrite app_nil_r|by eapply lookup_lt_Some].
Qed.

Lemma restored_lookup_all_inv j q : permissions restored !! j = Some q →
  ∃ i p, permissions db !! i = Some p ∧ j = position l i ∧ q = renumbered l (i, p).
Proof.
  intros Hq. destruct (restored_lookup_inv l [] j q) as (k & [i p] & -> & Hk & Hl & ->); [by rewrite app_nil_r|done|].
  exists i, p. split_and!; [|by rewrite (position_lookup _ _ _ Hl)|done]. apply permission_list_elem. by eapply list_elem_of_lookup_2.
Qed.

(** The new numbers keep the order. *)
Lemma position_lt i j p q : permissions db !! i = Some p → permissions db !! j = Some q → i < j → position l i < position l j.
Proof.
  intros Hp Hq Hlt. destruct (lookup_of i p Hp) as (k & Hk & ->), (lookup_of j q Hq) as (k' & Hk' & ->).
  assert (k < k')%nat; [|lia]. by eapply lookup_lt.
Qed.

Lemma position_inj i j p q : permissions db !! i = Some p → permissions db !! j = Some q → position l i = position l j → i = j.
Proof.
  intros Hp Hq E. destruct (Z.lt_trichotomy i j) as [Hlt|[->|Hlt]]; [|done|].
  - pose proof (position_lt i j p q Hp Hq Hlt). lia.
  - pose proof (position_lt j i q p Hq Hp Hlt). lia.
Qed.

Lemma position_zero : position l 0 = 0.
Proof. destruct permission_list_head as [l' El]. by rewrite El. Qed.

Lemma position_pos i p : permissions db !! i = Some p → i ≠ 0 → 0 < position l i.
Proof.
  intros Hp Hi. rewrite <-position_zero. apply (position_lt 0 i reserved p); [apply (wf_reserved _ Hwf)|done|].
  pose proof (wf_range _ Hwf i p Hp). lia.
Qed.

(** The usage object of a permission holds when it was last used. *)
Lemma restored_usage i p : permissions db !! i = Some p → i ≠ 0 →
  permission_usages restored !! usage_id (renumbered l (i, p)) = Some (last_used db p).
Proof.
  intros Hp Hi. pose proof (position_pos i p Hp Hi) as Hpos. destruct (lookup_of i p Hp) as (k & Hk & E).
  cbn [usage_id renumbered fst]. unfold restored, restored_part. cbn [permission_usages]. rewrite lookup_seq, E in *.
  destruct k as [|k]; [lia|]. destruct (Z.ltb_spec (Z.max 0 (Z.of_nat (S k) - 1)) 0); [lia|].
  replace (Z.to_nat (Z.max 0 (Z.of_nat (S k) - 1))) with k by lia.
  rewrite list_lookup_fmap, lookup_tail, Hk. done.
Qed.

Lemma parent_present i p : permissions db !! i = Some p → ∃ q, permissions db !! parent p = Some q ∧ (i ≠ 0 → parent p < i).
Proof.
  intros Hp. destruct (decide (i = 0)) as [->|Hi].
  - rewrite (wf_reserved _ Hwf) in Hp. injection Hp as <-. exists reserved. split; [apply (wf_reserved _ Hwf)|done].
  - destruct (wf_parent _ Hwf i p Hp Hi) as (Hlt & q & Hq & _). exists q. split; [done|lia].
Qed.

Lemma position_range i p : permissions db !! i = Some p → 0 ≤ position l i < Z.of_nat (length l).
Proof. intros Hp. destruct (lookup_of i p Hp) as (k & Hk & ->). apply lookup_lt_Some in Hk. lia. Qed.

Lemma restored_wf : wf restored.
Proof.
  split.
  - pose proof (restored_lookup_all 0 reserved (wf_reserved _ Hwf)) as E. unfold renumbered in E.
    change (parent (0, reserved).2) with 0 in E. change ((0, reserved : permission_object key).1) with 0 in E.
    rewrite position_zero in E. rewrite E. done.
  - intros j q Hq. apply restored_lookup_all_inv in Hq as (i & p & Hp & -> & ->). exact (position_range i p Hp).
  - intros j q Hq Hj. apply restored_lookup_all_inv in Hq as (i & p & Hp & -> & ->). cbn.
    apply (wf_named _ Hwf i p Hp). intros ->. by rewrite position_zero in Hj.
  - intros j q Hq Hj. apply restored_lookup_all_inv in Hq as (i & p & Hp & -> & ->). cbn [parent renumbered snd].
    assert (i ≠ 0) as Hi by (intros ->; by rewrite position_zero in Hj).
    destruct (wf_parent _ Hwf i p Hp Hi) as (Hlt & q & Hq & Hown). split.
    + pose proof (position_range _ _ Hq). pose proof (position_lt _ _ _ _ Hq Hp ltac:(lia)). lia.
    + eexists. split; [by apply restored_lookup_all|]. cbn. destruct Hown as [->|Hown]; [left; apply position_zero|by right].
  - intros j j' q q' Hq Hq' Ho Hn. apply restored_lookup_all_inv in Hq as (i & p & Hp & -> & ->), Hq' as (i' & p' & Hp' & -> & ->).
    cbn in Ho, Hn. by rewrite (wf_unique _ Hwf i i' p p' Hp Hp' Ho Hn).
  - intros j q Hq Hj. apply restored_lookup_all_inv in Hq as (i & p & Hp & -> & ->).
    rewrite restored_usage; [done|done|]. intros ->. by rewrite position_zero in Hj.
  - intros j j' q q' Hq Hq' Hj Hj' E. apply restored_lookup_all_inv in Hq as (i & p & Hp & -> & ->), Hq' as (i' & p' & Hp' & -> & ->).
    cbn [usage_id renumbered fst] in E. pose proof (position_range i p Hp). pose proof (position_range i' p' Hp'). lia.
  - intros u t Hu. unfold restored, restored_part in Hu |- *. cbn [permission_usages next_usage] in *. rewrite lookup_seq in Hu.
    destruct (Z.ltb_spec u 0); [done|]. apply lookup_lt_Some in Hu. rewrite length_fmap in Hu. lia.
  - unfold restored, restored_part. cbn [next_permission next_usage]. destruct permission_list_head as [l' El]. rewrite El. cbn. lia.
Qed.

(** The hierarchy is the same. *)
Lemma restored_ancestors i j p q : permissions db !! i = Some p → permissions db !! j = Some q →
  rtc (parent_of restored) (position l j) (position l i) ↔ rtc (parent_of db) j i.
Proof.
  intros Hp Hq. split.
  - intros Hr. remember (position l j) as a eqn:Ea. remember (position l i) as b eqn:Eb. revert j q Hq Ea.
    induction Hr as [a|a b c (pa & Hpa & Ha & ->) Hr IH]; intros j q Hq Ea.
    + assert (j = i) as ->; [|done]. eapply (position_inj j i); [done..|]. congruence.
    + subst a. rewrite (restored_lookup_all j q Hq) in Hpa. injection Hpa as <-.
      destruct (parent_present j q Hq) as (r & Hrr & _). eapply rtc_l; [|by apply (IH Eb (parent q) r)].
      exists q. split_and!; [done| |done]. intros ->. by rewrite position_zero in Ha.
  - intros Hr. revert q Hq. induction Hr as [|j k c (q' & Hq' & Hj & ->) Hr IH]; intros q Hq; [done|].
    assert (q' = q) as -> by congruence. destruct (parent_present j q Hq) as (r & Hrr & _). eapply rtc_l; [|by apply (IH Hp r)].
    exists (renumbered l (j, q)). split_and!; [by apply restored_lookup_all| |done]. pose proof (position_pos j q Hq Hj). lia.
Qed.

(** [satisfies] gives the same answers. *)
Lemma restored_satisfies i j p q : permissions db !! i = Some p → permissions db !! j = Some q →
  satisfies restored (position l i, renumbered l (i, p)) (position l j, renumbered l (j, q)) = satisfies db (i, p) (j, q).
Proof.
  intros Hp Hq. destruct (satisfies_spec db i p j q Hwf Hp Hq) as (b & -> & Hb).
  destruct (satisfies_spec restored _ _ _ _ restored_wf (restored_lookup_all i p Hp) (restored_lookup_all j q Hq)) as (b' & -> & Hb').
  rewrite (restored_ancestors i j p q Hp Hq) in Hb'. cbn [owner renumbered snd] in Hb'. f_equal.
  apply eq_bool_prop_intro. rewrite !Is_true_true. by rewrite Hb, Hb'.
Qed.

(** *** A second snapshot is the same *)

(** The first permission after the reserved one has the first usage object. *)
Context (Hfirst : ∃ i p, l !! 1%nat = Some (i, p) ∧ usage_id p = 0).

Lemma restored_row i p : permissions db !! i = Some p → row_of restored (position l i, renumbered l (i, p)) = row_of db (i, p).
Proof.
  intros Hp. destruct (parent_present i p Hp) as (q & Hq & _). unfold row_of. cbn [snd owner name last_updated auth renumbered parent].
  rewrite (restored_lookup_all _ _ Hq), Hq. cbn [fmap option_fmap option_map from_option]. f_equal. unfold last_used.
  destruct (decide (i = 0)) as [->|Hi]; [|by rewrite restored_usage].
  rewrite (wf_reserved _ Hwf) in Hp. injection Hp as <-. cbn [usage_id renumbered fst]. rewrite position_zero.
  change (usage_id reserved) with 0. change (Z.max 0 (0 - 1)) with 0.
  destruct Hfirst as (i & p & Hl & Hu). pose proof (position_lookup _ _ _ Hl) as Hpos.
  assert (permissions db !! i = Some p) as Hp by (apply permission_list_elem; by eapply list_elem_of_lookup_2).
  assert (i ≠ 0) as Hi by (intros ->; by apply lookup_zero in Hl).
  pose proof (restored_usage i p Hp Hi) as E. cbn [usage_id renumbered fst] in E. rewrite Hpos in E.
  change (Z.max 0 (Z.of_nat 1 - 1)) with 0 in E. rewrite E. unfold last_used. by rewrite Hu.
Qed.

Lemma restored_list : permission_list restored = (λ x, (position l x.1, renumbered l x)) <$> l.
Proof.
  unfold permission_list, restored, restored_part. cbn [permissions]. rewrite walk_seq. apply list_eq. intros k.
  rewrite list_lookup_imap, !list_lookup_fmap. destruct (l !! k) as [[i p]|] eqn:Hk; [|done]. cbn.
  by rewrite (position_lookup _ _ _ Hk).
Qed.
End permissions.

(** The rows of the restored tables *)
Lemma restored_rows {key} `{PublicKey key} (db : Permissions.auth_db key) : Permissions.wf db → is_Some (Permissions.permission_usages db !! 0) →
  (∃ i p, permission_list db !! 1%nat = Some (i, p) ∧ Permissions.usage_id p = 0) →
  permission_rows (restored db) = permission_rows db.
Proof.
  intros Hwf Hz Hf. rewrite (permission_rows_ok db Hwf Hz), (permission_rows_ok (restored db) (restored_wf db Hwf)).
  - f_equal. change (walk (Permissions.permissions (restored db))) with (permission_list (restored db)).
    rewrite restored_list by done. rewrite <-list_fmap_compose. apply list_fmap_ext. intros k [i p] Hk. cbn.
    apply restored_row; [done|done|]. apply (permission_list_elem db). by eapply list_elem_of_lookup_2.
  - destruct Hf as (i & p & Hl & Hu).
    assert (Permissions.permissions db !! i = Some p) as Hp by (apply (permission_list_elem db); by eapply list_elem_of_lookup_2).
    assert (i ≠ 0) as Hi by (intros ->; by apply (lookup_zero db Hwf) in Hl).
    pose proof (restored_usage db Hwf i p Hp Hi) as E. unfold renumbered in E. cbn [Permissions.usage_id fst] in E.
    rewrite (position_lookup db _ _ _ Hl) in E. eexists. exact E.
Qed.

(** ** The rows of a chain *)

(** [legacy::snapshot_block_header_state_v2] *)
Record legacy_schedule_info (key : Type) := MkLegacyScheduleInfo {
  ls_schedule_lib_num : Z;
  ls_schedule_hash : digest;
  ls_schedule : ProducerSchedule.producer_schedule_type key }.
Record snapshot_block_header_state_v2 (key signature : Type) := MkHeaderStateV2 {
  v2_block_num : Z;
  v2_dpos_proposed_irreversible_blocknum : Z;
  v2_dpos_irreversible_blocknum : Z;
  v2_active_schedule : ProducerSchedule.producer_schedule_type key;
  v2_blockroot_merkle : Merkle.incremental_merkle;
  v2_producer_to_last_produced : gmap Z Z;
  v2_producer_to_last_implied_irb : gmap Z Z;
  v2_block_signing_key : key;
  v2_confirm_count : list Z;
  v2_id : digest;
  v2_header : BlockHeader.signed_block_header key signature;
  v2_pending_schedule : legacy_schedule_info key;
  v2_activated_protocol_features : gset digest }.
#[global] Arguments ls_schedule_lib_num {_} _.
#[global] Arguments ls_schedule_hash {_} _.
#[global] Arguments ls_schedule {_} _.
#[global] Arguments v2_block_num {_ _} _.
#[global] Arguments v2_dpos_proposed_irreversible_blocknum {_ _} _.
#[global] Arguments v2_dpos_irreversible_blocknum {_ _} _.
#[global] Arguments v2_active_schedule {_ _} _.
#[global] Arguments v2_blockroot_merkle {_ _} _.
#[global] Arguments v2_producer_to_last_produced {_ _} _.
#[global] Arguments v2_producer_to_last_implied_irb {_ _} _.
#[global] Arguments v2_block_signing_key {_ _} _.
#[global] Arguments v2_confirm_count {_ _} _.
#[global] Arguments v2_id {_ _} _.
#[global] Arguments v2_header {_ _} _.
#[global] Arguments v2_pending_schedule {_ _} _.
#[global] Arguments v2_activated_protocol_features {_ _} _.

(** The reflected members of [block_header_state]: its extensions are not among them. *)
Record header_state_row (key signature : Type) := MkHeaderStateRow {
  hs_common : BlockHeaderState.block_header_state_common key;
  hs_id : digest;
  hs_header : BlockHeader.signed_block_header key signature;
  hs_pending_schedule : BlockHeaderState.schedule_info key;
  hs_activated_protocol_features : gset digest;
  hs_additional_signatures : list signature }.
#[global] Arguments MkHeaderStateRow {_ _} _ _ _ _ _ _.
#[global] Arguments hs_common {_ _} _.
#[global] Arguments hs_id {_ _} _.
#[global] Arguments hs_header {_ _} _.
#[global] Arguments hs_pending_schedule {_ _} _.
#[global] Arguments hs_activated_protocol_features {_ _} _.
#[global] Arguments hs_additional_signatures {_ _} _.

Record global_property_object (key : Type) := MkGlobalProperty {
  proposed_schedule_block_num : option Z;
  proposed_schedule : ProducerSchedule.producer_authority_schedule key;
  configuration : ChainConfig.chain_config;
  chain_id : digest }.
#[global] Arguments MkGlobalProperty {_} _ _ _ _.
#[global] Arguments proposed_schedule_block_num {_} _.
#[global] Arguments proposed_schedule {_} _.
#[global] Arguments configuration {_} _.
#[global] Arguments chain_id {_} _.

(** [legacy::snapshot_global_property_object_v2] *)
Record snapshot_global_property_object_v2 (key : Type) := MkGlobalPropertyV2 {
  v2_proposed_schedule_block_num : option Z;
  v2_proposed_schedule : ProducerSchedule.producer_schedule_type key;
  v2_configuration : ChainConfig.chain_config }.
#[global] Arguments v2_proposed_schedule_block_num {_} _.
#[global] Arguments v2_proposed_schedule {_} _.
#[global] Arguments v2_configuration {_} _.

Record snapshot_protocol_state_object := MkSnapshotProtocolState {
  sps_activated : list (digest * Z);
  sps_preactivated : list digest;
  sps_whitelisted_intrinsics : gset string;
  sps_num_supported_key_types : Z }.

(** The tables of [controller_index_set] and of [resource_index_set] whose rows are saved as
    they are *)
Inductive plain_index :=
  | account_index | account_metadata_index | account_ram_correction_index | dynamic_global_property_multi_index
  | block_summary_multi_index | transaction_multi_index | generated_transaction_multi_index | code_index
  | action_fee_object_index | config_data_object_index
  | resource_limits_index | resource_usage_index | resource_limits_state_index | resource_limits_config_index.

#[global] Instance plain_index_eq_dec : EqDecision plain_index.
Proof. solve_decision. Defined.

(** The reflected members of a row of a contract table *)
Record table_data := MkData { d_primary_key : Z; d_payer : Z; d_data : ContractTables.row_data }.

Section rows.
Context {key signature Obj genesis : Type}.

Inductive snapshot_row :=
  | HeaderRow (version : Z)
  | BlockStateRow (b : header_state_row key signature)
  | LegacyBlockStateRow (b : snapshot_block_header_state_v2 key signature)
  | GenesisRow (g : genesis)
  | GlobalPropertyRow (g : global_property_object key)
  | LegacyGlobalPropertyRow (g : snapshot_global_property_object_v2 key)
  | ProtocolStateRow (p : snapshot_protocol_state_object)
  | ObjectRow (i : plain_index) (o : Obj)
  | TableIdRow (t : ContractTables.table_id_object)
  | SizeRow (n : Z)
  | DataRow (r : table_data)
  | PermissionRow (p : snapshot_permission_object key)
  | LinkRow (x : Z * Z * Z * Z).

Inductive row_type :=
  | chain_snapshot_header | block_header_state_t | block_header_state_v2_t | genesis_state_t
  | global_property_t | global_property_v2_t | protocol_state_t | object_t (i : plain_index)
  | table_id_t | unsigned_int_t | contract_row_t (k : ContractTables.object_kind) | permission_t | permission_link_t.

Definition type_of (r : snapshot_row) : row_type :=
  match r with
  | HeaderRow _ => chain_snapshot_header
  | BlockStateRow _ => block_header_state_t
  | LegacyBlockStateRow _ => block_header_state_v2_t
  | GenesisRow _ => genesis_state_t
  | GlobalPropertyRow _ => global_property_t
  | LegacyGlobalPropertyRow _ => global_property_v2_t
  | ProtocolStateRow _ => protocol_state_t
  | ObjectRow i _ => object_t i
  | TableIdRow _ => table_id_t
  | SizeRow _ => unsigned_int_t
  | DataRow r => contract_row_t (ContractTables.data_kind (d_data r))
  | PermissionRow _ => permission_t
  | LinkRow _ => permission_link_t
  end.
End rows.
#[global] Arguments snapshot_row : clear implicits.

(** ** Contract tables *)
Section contract_tables.
Import ContractTables (object_kind, key_value_object, index64_object, index128_object, index256_object, index_double_object,
  index_long_double_object, row, MkRow, t_id, primary_key, payer, data, row_kind, data_kind, table_id_object, code, scope, table).
Context {key signature Obj genesis : Type}.
Notation row_t := (snapshot_row key signature Obj genesis).
Notation type := row_type.

(** [contract_database_index_set] *)
Definition contract_indices : list object_kind :=
  [key_value_object; index64_object; index128_object; index256_object; index_double_object; index_long_double_object].

(** The tables with the rows of all kinds, each with an identifier *)
Record table_db := MkTableDb {
  td_tables : gmap Z table_id_object;
  td_next_table : Z;
  td_rows : gmap Z row;
  td_next_row : Z }.

Definition empty_table_db : table_db := MkTableDb ∅ 0 ∅ 0.

(** The index of the rows by table and primary key: those of a table *)
Definition by_primary : relation table_data := λ x y, d_primary_key x ≤ d_primary_key y.
#[global] Instance by_primary_dec x y : Decision (by_primary x y).
Proof. unfold by_primary. apply _. Defined.

Definition data_of (r : row) : table_data := MkData (primary_key r) (payer r) (data r).
Definition of_table (k : object_kind) (tid : Z) (r : row) : Prop := row_kind r = k ∧ t_id r = tid.
#[global] Instance of_table_dec k tid r : Decision (of_table k tid r).
Proof. unfold of_table. apply _. Defined.
Definition walk_range (k : object_kind) (tid : Z) (m : gmap Z row) : list table_data :=
  merge_sort by_primary (data_of <$> filter (of_table k tid) (map_to_list m).*2).

(** A table: its row, then for each kind the number of rows and the rows *)
Definition index_rows (rs : list table_data) : list row_t := SizeRow (u32 (Z.of_nat (length rs))) :: (DataRow <$> rs).
Definition table_rows (x : table_id_object * list (list table_data)) : list row_t :=
  TableIdRow x.1 :: concat (index_rows <$> x.2).

(** What the tables hold, apart from identifiers *)
Definition content (db : table_db) : list (table_id_object * list (list table_data)) :=
  (λ x, (x.2, (λ k, walk_range k x.1 (td_rows db)) <$> contract_indices)) <$> walk (td_tables db).

Definition contract_table_rows (db : table_db) : list row_t := concat (table_rows <$> content db).

(** [create], which refuses a second row with the same unique key *)
Definition same_table (t t' : table_id_object) : Prop := code t = code t' ∧ scope t = scope t' ∧ table t = table t'.
#[global] Instance same_table_dec t t' : Decision (same_table t t').
Proof. unfold same_table. apply _. Defined.
Definition same_row (r r' : row) : Prop := row_kind r = row_kind r' ∧ t_id r = t_id r' ∧ primary_key r = primary_key r'.
#[global] Instance same_row_dec r r' : Decision (same_row r r').
Proof. unfold same_row. apply _. Defined.

Definition create_table (t : table_id_object) (db : table_db) : result exn (Z * table_db) :=
  _ ← assert_that (bool_decide (map_Forall (λ _ t', ¬ same_table t t') (td_tables db))) std_exception;
  Ok (td_next_table db, MkTableDb (<[td_next_table db := t]> (td_tables db)) (td_next_table db + 1) (td_rows db) (td_next_row db)).

Definition create_row (tid : Z) (d : table_data) (db : table_db) : result exn table_db :=
  let r := MkRow tid (d_primary_key d) (d_payer d) (d_data d) in
  _ ← assert_that (bool_decide (map_Forall (λ _ r', ¬ same_row r r') (td_rows db))) std_exception;
  Ok (MkTableDb (td_tables db) (td_next_table db) (<[td_next_row db := r]> (td_rows db)) (td_next_row db + 1)).

Section read.
Context {D : Type} `{SnapshotReader row_t type D}.

(** [None] for a row of another type than the one asked for, which the types rule out *)
Fixpoint read_data (n : nat) (k : object_kind) (tid : Z) (more : bool) (r : D) (db : table_db) : run (bool * D * table_db) :=
  match n with
  | O => Some (Ok (more, r, db))
  | S n =>
      rbind (reader_read_row (contract_row_t k) r) (λ '(row, more, r),
      match row with
      | DataRow d => rbind (Some (create_row tid d db)) (λ db, read_data n k tid more r db)
      | _ => None
      end)
  end.

Fixpoint read_indices (ks : list object_kind) (tid : Z) (more : bool) (r : D) (db : table_db) : run (bool * D * table_db) :=
  match ks with
  | [] => Some (Ok (more, r, db))
  | k :: ks =>
      rbind (reader_read_row unsigned_int_t r) (λ '(row, more, r),
      match row with
      | SizeRow n =>
          rbind (read_data (Z.to_nat n) k tid more r db) (λ '(more, r, db), read_indices ks tid more r db)
      | _ => None
      end)
  end.

Fixpoint read_tables (fuel : nat) (more : bool) (r : D) (db : table_db) : run (D * table_db) :=
  if more then
    match fuel with
    | O => None
    | S fuel =>
        rbind (reader_read_row table_id_t r) (λ '(row, more, r),
        match row with
        | TableIdRow t =>
            rbind (Some (create_table t db)) (λ '(tid, db),
            rbind (read_indices contract_indices tid more r db) (λ '(more, r, db),
            read_tables fuel more r db))
        | _ => None
        end)
    end
  else Some (Ok (r, db)).

Definition read_contract_tables_from_snapshot (fuel : nat) (r : D) (db : table_db) : run (D * table_db) :=
  rbind (reader_set_section "contract_tables" r) (λ r,
  rbind (reader_empty r) (λ e,
  rbind (read_tables fuel (negb e) r db) (λ '(r, db),
  Some (Ok (reader_clear_section r, db))))).
End read.

Definition add_contract_tables_to_snapshot {W} `{SnapshotWriter row_t W} (db : table_db) (w : W) : result exn W :=
  write_section "contract_tables" (contract_table_rows db) w.

(** *** What is restored *)

Notation table_contents := (list (table_id_object * list (list table_data))).

Definition row_in (tid : Z) (d : table_data) : row := MkRow tid (d_primary_key d) (d_payer d) (d_data d).
Definition rows_in (tid : Z) (ks : list (list table_data)) : list row := row_in tid <$> concat ks.
Fixpoint all_rows_from (tid : Z) (c : table_contents) : list row :=
  match c with
  | [] => []
  | x :: c => rows_in tid x.2 ++ all_rows_from (tid + 1) c
  end.
Definition all_rows (c : table_contents) : list row := all_rows_from 0 c.

Definition tables_of (c : table_contents) (extra : list row) : table_db :=
  MkTableDb (map_seqZ 0 c.*1) (Z.of_nat (length c)) (map_seqZ 0 (all_rows c ++ extra)) (Z.of_nat (length (all_rows c ++ extra))).

(** Contents as a database has them: no two tables with the same name; in a table the rows of
    a kind are in the order of distinct primary keys, and few enough to be counted *)
Definition index_ok (k : object_kind) (rs : list table_data) : Prop :=
  Forall (λ d, data_kind (d_data d) = k) rs ∧ StronglySorted (λ x y, d_primary_key x < d_primary_key y) rs ∧
  Z.of_nat (length rs) < 2 ^ 32.
Definition contents_ok (c : table_contents) : Prop :=
  (∀ i j x y, c !! i = Some x → c !! j = Some y → same_table x.1 y.1 → i = j) ∧
  Forall (λ x, Forall2 index_ok contract_indices x.2) c.

Lemma all_rows_from_app tid c c' : all_rows_from tid (c ++ c') = all_rows_from tid c ++ all_rows_from (tid + Z.of_nat (length c)) c'.
Proof.
  revert tid. induction c as [|x c IH]; intros tid; cbn [all_rows_from app length].
  - f_equal. lia.
  - rewrite IH, <-app_assoc. do 3 f_equal. lia.
Qed.

Lemma all_rows_range tid c r : r ∈ all_rows_from tid c → tid ≤ t_id r < tid + Z.of_nat (length c).
Proof.
  revert tid. induction c as [|x c IH]; intros tid Hr; cbn [all_rows_from length] in *; [by apply elem_of_nil in Hr|].
  apply elem_of_app in Hr as [Hr|Hr].
  - unfold rows_in in Hr. apply list_elem_of_fmap in Hr as (d & -> & _). cbn. lia.
  - specialize (IH _ Hr). lia.
Qed.

Lemma contract_indices_NoDup : NoDup contract_indices.
Proof. unfold contract_indices. repeat constructor; set_solver. Qed.

Section reading.
Context {W D : Type} `{SnapshotFormat row_t type W D}.
(** The type that the reader asks for is the type of the row. *)
Context (Hkind : ∀ r : row_t, kind r = type_of r) (l : list (section row_t)).

Notation more_of rows := (negb (bool_decide (rows = []))).

Lemma read_row_typed r row rows t : within r l (row :: rows) → type_of row = t →
  ∃ r', reader_read_row t r = Some (Ok (row, more_of rows, r')) ∧ within r' l rows.
Proof. intros Hw <-. rewrite <-Hkind. by apply read_row_ok. Qed.

Lemma create_row_ok tid d tb nt xs : (∀ x, x ∈ xs → ¬ same_row (row_in tid d) x) →
  create_row tid d (MkTableDb tb nt (map_seqZ 0 xs) (Z.of_nat (length xs))) =
  Ok (MkTableDb tb nt (map_seqZ 0 (xs ++ [row_in tid d])) (Z.of_nat (length (xs ++ [row_in tid d])))).
Proof.
  intros Hx. unfold create_row. cbn [td_rows td_next_row td_tables td_next_table]. rewrite bool_decide_eq_true_2.
  - cbn [assert_that mbind result_bind]. rewrite seq_snoc, length_app. cbn [length]. do 2 f_equal. lia.
  - intros i x Hi. rewrite lookup_seq in Hi. destruct (i <? 0); [done|]. apply list_elem_of_lookup_2 in Hi. by apply Hx.
Qed.

Lemma read_data_ok k tid rs rest : Forall (λ d, data_kind (d_data d) = k) rs → StronglySorted (λ x y, d_primary_key x < d_primary_key y) rs →
  ∀ r xs tb nt, within r l ((DataRow <$> rs) ++ rest) → (∀ x d, x ∈ xs → d ∈ rs → ¬ same_row (row_in tid d) x) →
  ∃ r', read_data (length rs) k tid (more_of ((DataRow <$> rs) ++ rest)) r (MkTableDb tb nt (map_seqZ 0 xs) (Z.of_nat (length xs))) =
    Some (Ok (more_of rest, r', MkTableDb tb nt (map_seqZ 0 (xs ++ (row_in tid <$> rs))) (Z.of_nat (length (xs ++ (row_in tid <$> rs)))))) ∧
  within r' l rest.
Proof.
  induction rs as [|d rs IH]; intros Hk Hs r xs tb nt Hw Hx.
  - cbn in *. exists r. by rewrite app_nil_r.
  - apply Forall_cons in Hk as [Hk Hks]. apply StronglySorted_inv in Hs as [Hs Hd]. cbn [fmap list_fmap app] in Hw.
    destruct (read_row_typed r _ _ (contract_row_t k) Hw) as (r1 & Hr1 & Hw1); [by cbn; rewrite Hk|].
    cbn [length read_data]. rewrite Hr1. cbn [rbind]. rewrite create_row_ok by (intros x Hin; apply Hx; [done|left]). cbn [rbind].
    destruct (IH Hks Hs r1 (xs ++ [row_in tid d]) tb nt Hw1) as (r' & Hr' & Hw').
    { intros x d' [Hin|Hin]%elem_of_app Hd'; [by apply Hx; [|right]|]. apply list_elem_of_singleton in Hin as ->.
      intros (_ & _ & E). cbn in E. rewrite Forall_forall in Hd. specialize (Hd d' Hd'). lia. }
    exists r'. rewrite Hr'. by rewrite <-app_assoc.
Qed.

Lemma read_indices_ok ks rss : NoDup ks → Forall2 index_ok ks rss → ∀ rest r xs tid tb nt,
  within r l (concat (index_rows <$> rss) ++ rest) → (∀ x, x ∈ xs → t_id x = tid → row_kind x ∉ ks) →
  ∃ r', read_indices ks tid (more_of (concat (index_rows <$> rss) ++ rest)) r (MkTableDb tb nt (map_seqZ 0 xs) (Z.of_nat (length xs))) =
    Some (Ok (more_of rest, r', MkTableDb tb nt (map_seqZ 0 (xs ++ rows_in tid rss)) (Z.of_nat (length (xs ++ rows_in tid rss))))) ∧
  within r' l rest.
Proof.
  intros Hnd Hok. induction Hok as [|k rs ks rss (Hk & Hs & Hlen) Hok IH]; intros rest r xs tid tb nt Hw Hx.
  - cbn in *. exists r. by rewrite app_nil_r.
  - apply NoDup_cons in Hnd as [Hni Hnd]. cbn [fmap list_fmap concat] in Hw. unfold index_rows at 1 in Hw. cbn [app] in Hw. rewrite <-app_assoc in Hw.
    destruct (read_row_typed r _ _ unsigned_int_t Hw) as (r1 & Hr1 & Hw1); [done|].
    cbn [read_indices]. rewrite Hr1. cbn [rbind].
    assert (Z.to_nat (u32 (Z.of_nat (length rs))) = length rs) as -> by (unfold u32; rewrite Z.mod_small; lia).
    destruct (read_data_ok k tid rs _ Hk Hs r1 xs tb nt Hw1) as (r2 & Hr2 & Hw2).
    { intros x d Hin Hd (E & Et & _). apply (Hx x Hin); [done|]. cbn in E. rewrite <-E. unfold row_kind. cbn [data row_in].
      rewrite Forall_forall in Hk. rewrite (Hk d Hd). left. }
    rewrite Hr2. cbn [rbind]. destruct (IH Hnd rest r2 (xs ++ (row_in tid <$> rs)) tid tb nt Hw2) as (r' & Hr' & Hw').
    { intros x [Hin|Hin]%elem_of_app Et; [intros Hks; apply (Hx x Hin Et); by right|].
      apply list_elem_of_fmap in Hin as (d & -> & Hd). unfold row_kind. cbn [data row_in]. rewrite Forall_forall in Hk. by rewrite (Hk d Hd). }
    exists r'. rewrite Hr'. unfold rows_in. cbn [concat]. by rewrite fmap_app, <-!app_assoc.
Qed.

Lemma create_table_ok (c : table_contents) x : (∀ i y, c !! i = Some y → ¬ same_table x y.1) → ∀ rs n,
  create_table x (MkTableDb (map_seqZ 0 c.*1) (Z.of_nat (length c)) rs n) =
  Ok (Z.of_nat (length c), MkTableDb (<[Z.of_nat (length c) := x]> (map_seqZ 0 c.*1)) (Z.of_nat (length c) + 1) rs n).
Proof.
  intros Hc rs n. unfold create_table. cbn [td_rows td_next_row td_tables td_next_table]. rewrite bool_decide_eq_true_2; [done|].
  intros i t Hi. rewrite lookup_seq in Hi. destruct (i <? 0); [done|]. rewrite list_lookup_fmap in Hi.
  destruct (c !! Z.to_nat i) as [y|] eqn:E; [|done]. injection Hi as <-. exact (Hc _ _ E).
Qed.

Lemma read_tables_ok rest : ∀ done r fuel, contents_ok (done ++ rest) → within r l (concat (table_rows <$> rest)) → (length rest ≤ fuel)%nat →
  ∃ r', read_tables fuel (more_of (concat (table_rows <$> rest))) r (tables_of done []) = Some (Ok (r', tables_of (done ++ rest) [])) ∧ within r' l [].
Proof.
  induction rest as [|x rest IH]; intros done r fuel Hok Hw Hf.
  - cbn in Hw |- *. exists r. rewrite app_nil_r. by destruct fuel.
  - destruct fuel as [|fuel]; [cbn in Hf; lia|]. cbn [fmap list_fmap concat] in Hw |- *. unfold table_rows at 1 in Hw. cbn [app] in Hw.
    destruct (read_row_typed r _ _ table_id_t Hw) as (r1 & Hr1 & Hw1); [done|].
    rewrite bool_decide_eq_false_2 by done. cbn [negb read_tables]. rewrite Hr1. cbn [rbind]. unfold tables_of at 1.
    rewrite create_table_ok. 2:{ intros i y Hi Hsame. pose proof (lookup_lt_Some _ _ _ Hi). destruct Hok as [Hok _].
      assert (length done = i); [|lia]. eapply (Hok (length done) i x y); [by rewrite list_lookup_middle|by apply lookup_app_l_Some|done]. }
    cbn [rbind]. rewrite app_nil_r. destruct Hok as [Hok Hall]. pose proof (proj1 (Forall_app _ _ _) Hall) as [_ Hx].
    apply Forall_cons in Hx as [Hx _].
    destruct (read_indices_ok contract_indices x.2 contract_indices_NoDup Hx _ r1 (all_rows done) (Z.of_nat (length done))
      (<[Z.of_nat (length done) := x.1]> (map_seqZ 0 done.*1)) (Z.of_nat (length done) + 1) Hw1) as (r2 & Hr2 & Hw2).
    { intros y Hy E. apply (all_rows_range 0 done) in Hy. lia. }
    rewrite Hr2. cbn [rbind]. assert (MkTableDb (<[Z.of_nat (length done) := x.1]> (map_seqZ 0 done.*1)) (Z.of_nat (length done) + 1)
        (map_seqZ 0 (all_rows done ++ rows_in (Z.of_nat (length done)) x.2))
        (Z.of_nat (length (all_rows done ++ rows_in (Z.of_nat (length done)) x.2))) = tables_of (done ++ [x]) []) as ->.
    { assert (all_rows (done ++ [x]) = all_rows done ++ rows_in (Z.of_nat (length done)) x.2) as Hrows
        by (unfold all_rows; rewrite all_rows_from_app; cbn [all_rows_from]; by rewrite app_nil_r, Z.add_0_l).
      unfold tables_of. rewrite app_nil_r, Hrows. f_equal; [rewrite fmap_app; cbn [fmap list_fmap]; by rewrite seq_snoc, length_fmap|rewrite length_app; cbn [length]; lia]. }
    destruct (IH (done ++ [x]) r2 fuel) as (r' & Hr' & Hw'); [split; rewrite <-app_assoc; done|done|cbn in Hf; lia|].
    exists r'. rewrite Hr'. by rewrite <-app_assoc.
Qed.
End reading.

(** *** The contents of the restored tables *)

#[global] Instance by_primary_trans : Transitive by_primary.
Proof. intros x y z. unfold by_primary. lia. Qed.
#[global] Instance by_primary_total : Total by_primary.
Proof. intros x y. unfold by_primary. lia. Qed.

Lemma map_to_list_seq {A} (xs : list A) : (map_to_list (map_seqZ 0 xs : gmap Z A)).*2 ≡ₚ xs.
Proof.
  rewrite <-(merge_sort_Permutation by_id (map_to_list (map_seqZ 0 xs : gmap Z A))). fold (walk (map_seqZ 0 xs : gmap Z A)).
  rewrite walk_seq. apply reflexive_eq. apply list_eq. intros i. rewrite list_lookup_fmap, list_lookup_imap. by destruct (xs !! i).
Qed.

(** In a strictly sorted list the primary key determines the row. *)
Lemma sorted_primary rs x y : StronglySorted (λ x y, d_primary_key x < d_primary_key y) rs → x ∈ rs → y ∈ rs →
  d_primary_key x = d_primary_key y → x = y.
Proof.
  intros Hs. induction Hs as [|z rs Hs IH Hz]; intros Hx Hy E; [by apply elem_of_nil in Hx|]. rewrite Forall_forall in Hz.
  apply elem_of_cons in Hx as [->|Hx], Hy as [->|Hy]; [done| | |by apply IH].
  - specialize (Hz _ Hy). lia.
  - specialize (Hz _ Hx). lia.
Qed.

Lemma strictly_sorted rs : StronglySorted (λ x y, d_primary_key x < d_primary_key y) rs → StronglySorted by_primary rs.
Proof.
  induction 1 as [|z rs Hs IH Hz]; constructor; [done|]. eapply Forall_impl; [exact Hz|]. intros d. unfold by_primary. lia.
Qed.

Lemma walk_range_sorted k tid m rs : StronglySorted (λ x y, d_primary_key x < d_primary_key y) rs →
  data_of <$> filter (of_table k tid) (map_to_list m).*2 ≡ₚ rs → walk_range k tid m = rs.
Proof.
  intros Hs Hp. unfold walk_range. apply (StronglySorted_unique_strong by_primary).
  - intros x y Hx Hy H1 H2. rewrite merge_sort_Permutation, Hp in Hx. apply (sorted_primary rs); [done..|]. unfold by_primary in *. lia.
  - exact (StronglySorted_merge_sort by_primary _).
  - by apply strictly_sorted.
  - by rewrite merge_sort_Permutation.
Qed.

Lemma data_of_row_in tid (rs : list table_data) : data_of <$> (row_in tid <$> rs) = rs.
Proof. rewrite <-list_fmap_compose. apply list_eq. intros i. rewrite list_lookup_fmap. by destruct (rs !! i) as [[]|]. Qed.

Lemma rows_in_index tid ks rss : NoDup ks → Forall2 index_ok ks rss → ∀ j k rs, ks !! j = Some k → rss !! j = Some rs →
  filter (of_table k tid) (rows_in tid rss) = row_in tid <$> rs.
Proof.
  intros Hnd Hok. unfold rows_in. induction Hok as [|k0 rs0 ks rss (Hk & _) Hok IH]; intros j k rs Hj Hr; [done|].
  apply NoDup_cons in Hnd as [Hni Hnd]. cbn [concat]. rewrite fmap_app, filter_app. rewrite Forall_forall in Hk. destruct j as [|j].
  - injection Hj as <-. injection Hr as <-. rewrite (filter_all _ (row_in tid <$> rs0)), filter_none; [by rewrite app_nil_r|..].
    + intros x Hx (Ek & _). apply list_elem_of_fmap in Hx as (d & -> & Hd). apply list_elem_of_In, in_concat in Hd as (rs & Hrs%list_elem_of_In & Hd%list_elem_of_In).
      apply list_elem_of_lookup in Hrs as [i Hi]. destruct (Forall2_lookup_r _ _ _ _ _ Hok Hi) as (k' & Hk' & Hall & _).
      rewrite Forall_forall in Hall. apply Hni. rewrite <-Ek. change (row_kind (row_in tid d)) with (data_kind (d_data d)). rewrite (Hall d Hd).
      by eapply list_elem_of_lookup_2.
    + intros x Hx. apply list_elem_of_fmap in Hx as (d & -> & Hd). split; [by apply Hk|done].
  - cbn in Hj, Hr. rewrite (IH Hnd j k rs Hj Hr), (filter_none _ (row_in tid <$> rs0)); [done|].
    intros x Hx (Ek & _). apply list_elem_of_fmap in Hx as (d & -> & Hd). apply Hni. rewrite <-(Hk d Hd). change (data_kind (d_data d)) with (row_kind (row_in tid d)).
    rewrite Ek. by eapply list_elem_of_lookup_2.
Qed.

Lemma all_rows_index c : Forall (λ x, Forall2 index_ok contract_indices x.2) c → ∀ t0 i x j k rs,
  c !! i = Some x → contract_indices !! j = Some k → x.2 !! j = Some rs →
  filter (of_table k (t0 + Z.of_nat i)) (all_rows_from t0 c) = row_in (t0 + Z.of_nat i) <$> rs.
Proof.
  induction 1 as [|y c Hy Hc IH]; intros t0 i x j k rs Hi Hj Hr; [done|]. cbn [all_rows_from]. rewrite filter_app. destruct i as [|i].
  - injection Hi as ->. replace (t0 + Z.of_nat 0) with t0 by lia.
    rewrite (rows_in_index t0 _ _ contract_indices_NoDup Hy j k rs Hj Hr), filter_none; [by rewrite app_nil_r|].
    intros r Hr' (_ & E). apply all_rows_range in Hr'. lia.
  - rewrite (filter_none _ (rows_in t0 y.2)). 2:{ intros r Hr' (_ & E). unfold rows_in in Hr'. apply list_elem_of_fmap in Hr' as (d & -> & _). cbn in E. lia. }
    replace (t0 + Z.of_nat (S i)) with (t0 + 1 + Z.of_nat i) by lia. cbn [app]. by eapply IH.
Qed.

Lemma content_tables_of c : contents_ok c → content (tables_of c []) = c.
Proof.
  intros [_ Hok]. unfold content, tables_of. cbn [td_tables td_rows]. rewrite app_nil_r, walk_seq. apply list_eq. intros i.
  rewrite list_lookup_fmap, list_lookup_imap, list_lookup_fmap. destruct (c !! i) as [[t rss]|] eqn:Hi; [|done]. cbn. do 2 f_equal.
  pose proof Hok as Hx. rewrite Forall_forall in Hx. specialize (Hx _ (list_elem_of_lookup_2 _ _ _ Hi)). cbn in Hx.
  change [walk_range key_value_object ?a ?b; walk_range index64_object ?a ?b; walk_range index128_object ?a ?b;
    walk_range index256_object ?a ?b; walk_range index_double_object ?a ?b; walk_range index_long_double_object ?a ?b]
    with ((λ k, walk_range k a b) <$> contract_indices).
  apply list_eq. intros j. rewrite list_lookup_fmap. destruct (contract_indices !! j) as [k|] eqn:Hj.
  - destruct (Forall2_lookup_l _ _ _ _ _ Hx Hj) as (rs & Hr & _ & Hs & _). rewrite Hr. cbn. f_equal.
    apply walk_range_sorted; [done|]. rewrite map_to_list_seq.
    pose proof (all_rows_index c Hok 0 i _ j k rs Hi Hj Hr) as E. rewrite Z.add_0_l in E. unfold all_rows. by rewrite E, data_of_row_in.
  - destruct (rss !! j) as [rs|] eqn:Hr; [|done]. destruct (Forall2_lookup_r _ _ _ _ _ Hx Hr) as (k & Hk & _). congruence.
Qed.

(** The contents of tables with unique keys *)
Definition table_db_ok (db : table_db) : Prop :=
  (∀ i j t t', td_tables db !! i = Some t → td_tables db !! j = Some t' → same_table t t' → i = j) ∧
  (∀ i j r r', td_rows db !! i = Some r → td_rows db !! j = Some r' → same_row r r' → i = j) ∧
  (∀ k tid, Z.of_nat (length (walk_range k tid (td_rows db))) < 2 ^ 32).

Lemma elem_of_walk_range k tid m d : d ∈ walk_range k tid m ↔ ∃ i r, m !! i = Some r ∧ of_table k tid r ∧ d = data_of r.
Proof.
  unfold walk_range. rewrite merge_sort_Permutation, list_elem_of_fmap. split.
  - intros (r & -> & Hr). apply list_elem_of_filter in Hr as [Hk Hr]. apply list_elem_of_fmap in Hr as ([i r'] & -> & Hr).
    apply elem_of_map_to_list in Hr. by exists i, r'.
  - intros (i & r & Hr & Hk & ->). exists r. split; [done|]. apply list_elem_of_filter. split; [done|].
    apply list_elem_of_fmap. exists (i, r). split; [done|]. by apply elem_of_map_to_list.
Qed.

Lemma walk_range_strict db k tid : table_db_ok db → StronglySorted (λ x y, d_primary_key x < d_primary_key y) (walk_range k tid (td_rows db)).
Proof.
  intros (_ & Hrows & _). set (rs := walk_range k tid (td_rows db)).
  assert (StronglySorted by_primary rs) as Hs by exact (StronglySorted_merge_sort by_primary _).
  assert (NoDup (d_primary_key <$> rs)) as Hnd.
  { unfold rs, walk_range. rewrite merge_sort_Permutation, <-list_fmap_compose.
    assert (∀ xs : list (Z * row), NoDup xs.*1 → (∀ x, x ∈ xs → td_rows db !! x.1 = Some x.2) →
      NoDup ((d_primary_key ∘ data_of) <$> filter (of_table k tid) xs.*2)) as Hgen.
    { induction xs as [|[i r] xs IH]; intros Hn Hin; [constructor|]. cbn [fmap list_fmap snd] in *. apply NoDup_cons in Hn as [Hni Hn].
      rewrite filter_cons. destruct (decide (of_table k tid r)) as [[Hk Ht]|]; [|apply IH; [done|intros x Hx; apply Hin; by right]].
      cbn. constructor; [|apply IH; [done|intros x Hx; apply Hin; by right]].
      intros Hd. apply list_elem_of_fmap in Hd as (r' & E & Hr'). apply list_elem_of_filter in Hr' as [[Hk' Ht'] Hr'].
      apply list_elem_of_fmap in Hr' as ([j r''] & -> & Hr'). apply Hni. cbn in *.
      assert (i = j) as ->; [|by apply (list_elem_of_fmap_2 fst _ (j, r''))].
      apply (Hrows i j r r''); [by apply (Hin (i, r)); left|by apply (Hin (j, r'')); right|]. by split; [congruence|split; [congruence|]]. }
    apply Hgen; [apply NoDup_fst_map_to_list|]. intros [i r] Hx. by apply elem_of_map_to_list in Hx. }
  clearbody rs. induction Hs as [|d rs Hs IH Hd]; [constructor|]. cbn in Hnd. apply NoDup_cons in Hnd as [Hni Hnd].
  constructor; [by apply IH|]. rewrite Forall_forall in Hd |- *. intros d' Hd'. specialize (Hd d' Hd'). unfold by_primary in Hd.
  assert (d_primary_key d ≠ d_primary_key d'); [|lia]. intros E. apply Hni. rewrite E. by apply list_elem_of_fmap_2.
Qed.

Lemma content_ok db : table_db_ok db → contents_ok (content db).
Proof.
  intros Hok. pose proof Hok as (Ht & _ & Hlen). split.
  - unfold content. intros i j x y. rewrite !list_lookup_fmap.
    destruct (walk (td_tables db) !! i) as [[ti t]|] eqn:Hi; [|done]. destruct (walk (td_tables db) !! j) as [[tj t']|] eqn:Hj; [|done].
    intros [= <-] [= <-] Hs. cbn in Hs.
    assert (ti = tj) as -> by (eapply (Ht ti tj t t'); [apply elem_of_walk; by eapply list_elem_of_lookup_2..|done]).
    eapply (NoDup_lookup (walk (td_tables db)).*1); [apply walk_NoDup|by rewrite list_lookup_fmap, Hi|by rewrite list_lookup_fmap, Hj].
  - apply Forall_forall. intros x Hx. unfold content in Hx. apply list_elem_of_fmap in Hx as (y & -> & _). cbn [snd].
    apply Forall2_fmap_r, Forall_Forall2_diag, Forall_forall. intros k _. split_and!; [|by apply walk_range_strict|apply Hlen].
    apply Forall_forall. intros d Hd. apply elem_of_walk_range in Hd as (i & r & _ & [<- _] & ->). done.
Qed.

(** The section of the contract tables, read back into an empty database *)
Lemma read_contract_tables_ok {W D} `{SnapshotFormat row_t type W D} (Hkind : ∀ r : row_t, kind r = type_of r)
    (l : list (section row_t)) r db fuel : name_ok "contract_tables" → reads r l → rows_of "contract_tables" l = Some (contract_table_rows db) →
  table_db_ok db → (length (content db) ≤ fuel)%nat →
  ∃ r', read_contract_tables_from_snapshot fuel r empty_table_db = Some (Ok (r', tables_of (content db) [])) ∧ reads r' l.
Proof.
  intros Hn Hr Hrows Hok Hf. destruct (set_section_ok r l _ _ Hr Hn Hrows) as (r1 & Hs & Hw & He).
  unfold read_contract_tables_from_snapshot. rewrite Hs. cbn [rbind]. rewrite He. cbn [rbind].
  destruct (read_tables_ok Hkind l (content db) [] r1 fuel (content_ok db Hok) Hw Hf) as (r2 & Hr2 & Hw2).
  change (tables_of [] []) with empty_table_db in Hr2. unfold contract_table_rows. rewrite Hr2. cbn [rbind].
  eexists. split; [done|]. by eapply clear_section_ok.
Qed.
End contract_tables.

(** ** The chain *)

(** [convert] of the rows *)
Definition header_row {key signature} (b : BlockHeaderState.block_header_state key signature) : header_state_row key signature :=
  MkHeaderStateRow (BlockHeaderState.common b) (BlockHeaderState.bhs_id b) (BlockHeaderState.bhs_header b)
    (BlockHeaderState.pending_schedule b) (BlockHeaderState.activated_protocol_features b) (BlockHeaderState.additional_signatures b).

(** Unpacking leaves the extensions, which are not reflected, empty. *)
Definition of_header_row {key signature} (b : header_state_row key signature) : BlockHeaderState.block_header_state key signature :=
  BlockHeaderState.MkBhs (hs_common b) (hs_id b) (hs_header b) (hs_pending_schedule b) (hs_activated_protocol_features b)
    (hs_additional_signatures b) [].

(** [block_header_state( legacy::snapshot_block_header_state_v2&& )] *)
Definition upgrade_block_header_state {key signature} (s : snapshot_block_header_state_v2 key signature) :
    BlockHeaderState.block_header_state key signature :=
  BlockHeaderState.MkBhs
    (BlockHeaderState.MkCommon (v2_block_num s) (v2_dpos_proposed_irreversible_blocknum s) (v2_dpos_irreversible_blocknum s)
       (ProducerSchedule.upgrade (v2_active_schedule s)) (v2_blockroot_merkle s) (v2_producer_to_last_produced s)
       (v2_producer_to_last_implied_irb s)
       (ProducerSchedule.MkBsa 1 [Authority.MkKw (v2_block_signing_key s) 1]) (v2_confirm_count s))
    (v2_id s) (v2_header s)
    (BlockHeaderState.MkScheduleInfo (ls_schedule_lib_num (v2_pending_schedule s)) (ls_schedule_hash (v2_pending_schedule s))
       (ProducerSchedule.upgrade (ls_schedule (v2_pending_schedule s))))
    (v2_activated_protocol_features s) [] [].

(** [global_property_object::initalize_from] *)
Definition initalize_from {key} (legacy : snapshot_global_property_object_v2 key) (chain_id_val : digest) : global_property_object key :=
  MkGlobalProperty (v2_proposed_schedule_block_num legacy) (ProducerSchedule.upgrade (v2_proposed_schedule legacy))
    (v2_configuration legacy) chain_id_val.

Definition protocol_state_row (p : FeatureActivation.protocol_state_object) : snapshot_protocol_state_object :=
  MkSnapshotProtocolState (FeatureActivation.ps_activated p) (FeatureActivation.ps_preactivated p)
    (WhitelistedIntrinsics.convert_intrinsic_whitelist_to_set (FeatureActivation.whitelisted_intrinsics p))
    (FeatureActivation.num_supported_key_types p).

(** [std::clamp( version, minimum_version, maximum_version ) == version] for the legacy rows *)
Definition is_v2 (version : Z) : bool := Z.min (Z.max version 0) 2 =? version.

(** [controller_index_set] and [resource_index_set] *)
Inductive controller_index := Plain (i : plain_index) | GlobalProperty | ProtocolState | TableId | DatabaseHeader.

#[global] Instance controller_index_eq_dec : EqDecision controller_index.
Proof. solve_decision. Defined.

Definition controller_index_set : list controller_index :=
  [Plain account_index; Plain account_metadata_index; Plain account_ram_correction_index; GlobalProperty; ProtocolState;
   Plain dynamic_global_property_multi_index; Plain block_summary_multi_index; Plain transaction_multi_index;
   Plain generated_transaction_multi_index; TableId; Plain code_index; Plain action_fee_object_index;
   Plain config_data_object_index; DatabaseHeader].
Definition resource_index_set : list plain_index :=
  [resource_limits_index; resource_usage_index; resource_limits_state_index; resource_limits_config_index].

(** [snapshot_section_traits::section_name]: the names of the types of the rows *)
Definition section_name (i : plain_index) : string :=
  match i with
  | account_index => "eosio::chain::account_object"
  | account_metadata_index => "eosio::chain::account_metadata_object"
  | account_ram_correction_index => "eosio::chain::account_ram_correction_object"
  | dynamic_global_property_multi_index => "eosio::chain::dynamic_global_property_object"
  | block_summary_multi_index => "eosio::chain::block_summary_object"
  | transaction_multi_index => "eosio::chain::transaction_object"
  | generated_transaction_multi_index => "eosio::chain::generated_transaction_object"
  | code_index => "eosio::chain::code_object"
  | action_fee_object_index => "eosio::chain::action_fee_object"
  | config_data_object_index => "eosio::chain::config_data_object"
  | resource_limits_index => "eosio::chain::resource_limits::resource_limits_object"
  | resource_usage_index => "eosio::chain::resource_limits::resource_usage_object"
  | resource_limits_state_index => "eosio::chain::resource_limits::resource_limits_state_object"
  | resource_limits_config_index => "eosio::chain::resource_limits::resource_limits_config_object"
  end.
Definition header_section : string := "eosio::chain::chain_snapshot_header".
Definition block_state_section : string := "eosio::chain::block_state".
Definition genesis_section : string := "eosio::chain::genesis_state".
Definition global_property_section : string := "eosio::chain::global_property_object".
Definition protocol_state_section : string := "eosio::chain::protocol_state_object".
Definition permission_section : string := "eosio::chain::permission_object".
Definition permission_link_section : string := "eosio::chain::permission_link_object".

Section chain.
Context {key signature Obj genesis : Type} `{PublicKey key}.
(** The hash that orders the whitelist, the unique keys of the plain tables, and the hash of a
    genesis state *)
Context (hash_string : string → Z) (conflict : plain_index → Obj → Obj → bool) (compute_chain_id : genesis → digest).
Notation row_t := (snapshot_row key signature Obj genesis).
Notation bhs := (BlockHeaderState.block_header_state key signature).

Record chain_state := MkChain {
  fork_db : ForkDatabase.fork_database key signature;
  objects : plain_index → list Obj;
  global_properties : list (global_property_object key);
  protocol_states : list FeatureActivation.protocol_state_object;
  contract_tables : table_db;
  authorization : Permissions.auth_db key;
  revision : Z;
  database_headers : Z }.

Definition set_objects (f : plain_index → list Obj) (c : chain_state) : chain_state :=
  MkChain (fork_db c) f (global_properties c) (protocol_states c) (contract_tables c) (authorization c) (revision c) (database_headers c).
Definition set_globals (l : list (global_property_object key)) (c : chain_state) : chain_state :=
  MkChain (fork_db c) (objects c) l (protocol_states c) (contract_tables c) (authorization c) (revision c) (database_headers c).
Definition set_protocol (l : list FeatureActivation.protocol_state_object) (c : chain_state) : chain_state :=
  MkChain (fork_db c) (objects c) (global_properties c) l (contract_tables c) (authorization c) (revision c) (database_headers c).
Definition set_tables (t : table_db) (c : chain_state) : chain_state :=
  MkChain (fork_db c) (objects c) (global_properties c) (protocol_states c) t (authorization c) (revision c) (database_headers c).
Definition set_authorization (a : Permissions.auth_db key) (c : chain_state) : chain_state :=
  MkChain (fork_db c) (objects c) (global_properties c) (protocol_states c) (contract_tables c) a (revision c) (database_headers c).
Definition set_fork_db (f : ForkDatabase.fork_database key signature) (c : chain_state) : chain_state :=
  MkChain f (objects c) (global_properties c) (protocol_states c) (contract_tables c) (authorization c) (revision c) (database_headers c).

(** *** Writing *)
Section write.
Context {W : Type} `{SnapshotWriter row_t W}.

Definition add_index (c : chain_state) (i : controller_index) (w : W) : result exn W :=
  match i with
  | TableId | DatabaseHeader => Ok w
  | Plain i => write_section (section_name i) (ObjectRow i <$> objects c i) w
  | GlobalProperty => write_section global_property_section (GlobalPropertyRow <$> global_properties c) w
  | ProtocolState => write_section protocol_state_section (ProtocolStateRow ∘ protocol_state_row <$> protocol_states c) w
  end.

(** [authorization_manager::add_to_snapshot]; the usage objects are part of the permissions. *)
Definition add_authorization (db : Permissions.auth_db key) (w : W) : result exn W :=
  rows ← permission_rows db;
  w ← write_section permission_section (PermissionRow <$> rows) w;
  write_section permission_link_section (LinkRow <$> link_rows db) w.

Definition add_resource_limits (c : chain_state) (w : W) : result exn W :=
  foldM (λ w i, write_section (section_name i) (ObjectRow i <$> objects c i) w) w resource_index_set.

(** A chain without a head is not started. *)
Definition add_to_snapshot (c : chain_state) (w : W) : result exn W :=
  w ← write_section header_section [HeaderRow 3] w;
  w ← match ForkDatabase.head (fork_db c) with
      | Some h => write_section block_state_section [BlockStateRow (header_row h)] w
      | None => Throw std_exception
      end;
  w ← foldM (λ w i, add_index c i w) w controller_index_set;
  w ← add_contract_tables_to_snapshot (contract_tables c) w;
  w ← add_authorization (authorization c) w;
  add_resource_limits c w.
End write.

(** [calculate_integrity_hash], up to the hash of the bytes *)
#[local] Instance integrity_hash_writer `{PackedRows row_t row_type} : SnapshotWriter row_t (list Z) :=
  {| write_section n rows enc := Ok (Snapshot.integrity_hash_write_section n rows enc) |}.
Definition integrity_bytes `{PackedRows row_t row_type} (c : chain_state) : result exn (list Z) := add_to_snapshot c ([] : list Z).

(** *** Reading *)
Section read.
Context {D : Type} `{SnapshotReader row_t row_type D}.

(** A section of which the first row is read *)
Definition read_one (name : string) (t : row_type) (r : D) : run (row_t * D) :=
  rbind (reader_set_section name r) (λ r,
  rbind (reader_read_row t r) (λ '(row, _, r),
  Some (Ok (row, reader_clear_section r)))).

(** [chain_snapshot_header::validate] *)
Definition validate_header (version : Z) : result exn unit :=
  assert_that ((2 <=? version) && (version <=? 3)) snapshot_validation_exception.

(** The creation of a row of a plain table, which refuses a key that is taken *)
Definition create_plain (i : plain_index) (row : row_t) (f : plain_index → list Obj) : result exn (plain_index → list Obj) :=
  match row with
  | ObjectRow _ o =>
      _ ← assert_that (forallb (λ o', negb (conflict i o' o)) (f i)) std_exception;
      Ok (λ j, if decide (j = i) then f i ++ [o] else f j)
  | _ => Throw std_exception
  end.

Definition read_plain (fuel : nat) (i : plain_index) (r : D) (c : chain_state) : run (chain_state * D) :=
  rbind (read_section fuel (section_name i) (object_t i) (create_plain i) r (objects c)) (λ '(f, r),
  Some (Ok (set_objects f c, r))).

Definition create_global (row : row_t) (l : list (global_property_object key)) : result exn (list (global_property_object key)) :=
  match row with GlobalPropertyRow g => Ok (l ++ [g]) | _ => Throw std_exception end.

(** [snapshot_row_traits<protocol_state_object>::from_snapshot_row] *)
Definition create_protocol_state (row : row_t) (l : list FeatureActivation.protocol_state_object) :
    result exn (list FeatureActivation.protocol_state_object) :=
  match row with
  | ProtocolStateRow p =>
      Ok (l ++ [FeatureActivation.MkProtocolState (sps_activated p) (sps_preactivated p)
                  (WhitelistedIntrinsics.reset_intrinsic_whitelist hash_string (sps_whitelisted_intrinsics p))
                  (sps_num_supported_key_types p)])
  | _ => Throw std_exception
  end.

(** The upgrade of the global properties of version 2: their chain id is that of the genesis
    state in the snapshot. *)
Definition read_legacy_global (r : D) (c : chain_state) : run (chain_state * D) :=
  rbind (read_one genesis_section genesis_state_t r) (λ '(g, r),
  rbind (read_one global_property_section global_property_v2_t r) (λ '(p, r),
  match g, p with
  | GenesisRow g, LegacyGlobalPropertyRow p =>
      Some (Ok (set_globals (global_properties c ++ [initalize_from p (compute_chain_id g)]) c, r))
  | _, _ => None
  end)).

Definition read_index (fuel : nat) (version : Z) (i : controller_index) (r : D) (c : chain_state) : run (chain_state * D) :=
  match i with
  | TableId | DatabaseHeader => Some (Ok (c, r))
  | Plain i => read_plain fuel i r c
  | GlobalProperty =>
      if is_v2 version then read_legacy_global r c
      else rbind (read_section fuel global_property_section global_property_t create_global r (global_properties c)) (λ '(l, r),
           Some (Ok (set_globals l c, r)))
  | ProtocolState =>
      rbind (read_section fuel protocol_state_section protocol_state_t create_protocol_state r (protocol_states c)) (λ '(l, r),
      Some (Ok (set_protocol l c, r)))
  end.

Fixpoint read_each_index {I} (f : I → D → chain_state → run (chain_state * D)) (l : list I) (r : D) (c : chain_state) :
    run (chain_state * D) :=
  match l with
  | [] => Some (Ok (c, r))
  | i :: l => rbind (f i r c) (λ '(c, r), read_each_index f l r c)
  end.

(** [authorization_manager::read_from_snapshot] *)
Definition read_authorization (fuel : nat) (r : D) (c : chain_state) : run (chain_state * D) :=
  rbind (read_section fuel permission_section permission_t
           (λ row db, match row with PermissionRow p => create_from_row p db | _ => Throw std_exception end) r (authorization c)) (λ '(db, r),
  rbind (read_section fuel permission_link_section permission_link_t
           (λ row db, match row with LinkRow x => create_link x db | _ => Throw std_exception end) r db) (λ '(db, r),
  Some (Ok (set_authorization db c, r)))).

(** The header state of the head, of either version *)
Definition read_head (version : Z) (r : D) : run (bhs * D) :=
  if is_v2 version then
    rbind (read_one block_state_section block_header_state_v2_t r) (λ '(row, r),
    match row with LegacyBlockStateRow b => Some (Ok (upgrade_block_header_state b, r)) | _ => None end)
  else
    rbind (read_one block_state_section block_header_state_t r) (λ '(row, r),
    match row with BlockStateRow b => Some (Ok (of_header_row b, r)) | _ => None end).

(** [fuel] bounds the loops over the rows of a section; the state is that of a new database. *)
Definition read_from_snapshot (fuel : nat) (my_chain_id : digest) (blog_start blog_end : Z) (r : D) (c : chain_state) :
    run (chain_state * D) :=
  rbind (reader_set_section header_section r) (λ r,
  rbind (reader_read_row chain_snapshot_header r) (λ '(row, _, r),
  match row with
  | HeaderRow version =>
      rbind (Some (validate_header version)) (λ _,
      let r := reader_clear_section r in
      rbind (read_head version r) (λ '(head_header_state, r),
      let snapshot_head_block := BlockHeaderState.block_num (BlockHeaderState.common head_header_state) in
      rbind (Some (assert_that ((blog_start <=? u32 (snapshot_head_block + 1)) && (snapshot_head_block <=? blog_end))
                     block_log_exception)) (λ _,
      let c := set_fork_db (ForkDatabase.reset head_header_state) c in
      rbind (read_each_index (read_index fuel version) controller_index_set r c) (λ '(c, r),
      rbind (read_contract_tables_from_snapshot fuel r (contract_tables c)) (λ '(r, t),
      rbind (read_authorization fuel r (set_tables t c)) (λ '(c, r),
      rbind (read_each_index (read_plain fuel) resource_index_set r c) (λ '(c, r),
      let c := MkChain (fork_db c) (objects c) (global_properties c) (protocol_states c) (contract_tables c) (authorization c)
                 snapshot_head_block (database_headers c + 1) in
      match global_properties c with
      | [] => Some (Throw std_exception)
      | gpo :: _ =>
          rbind (Some (assert_that (bool_decide (chain_id gpo = my_chain_id)) chain_id_type_exception)) (λ _, Some (Ok (c, r)))
      end)))))))
  | _ => None
  end)).
End read.

Definition empty_chain : chain_state :=
  MkChain (ForkDatabase.MkFork ∅ None None) (λ _, []) [] [] empty_table_db empty_auth_db 0 0.

(** *** What is written *)

Definition index_section (c : chain_state) (i : controller_index) : option (section row_t) :=
  match i with
  | TableId | DatabaseHeader => None
  | Plain i => Some (section_name i, ObjectRow i <$> objects c i)
  | GlobalProperty => Some (global_property_section, GlobalPropertyRow <$> global_properties c)
  | ProtocolState => Some (protocol_state_section, ProtocolStateRow ∘ protocol_state_row <$> protocol_states c)
  end.

Definition sections_of (c : chain_state) (h : bhs) (rows : list (snapshot_permission_object key)) : list (section row_t) :=
  [(header_section, [HeaderRow 3]); (block_state_section, [BlockStateRow (header_row h)])] ++
  omap (index_section c) controller_index_set ++
  [("contract_tables", contract_table_rows (contract_tables c)); (permission_section, PermissionRow <$> rows);
   (permission_link_section, LinkRow <$> link_rows (authorization c))] ++
  ((λ i, (section_name i, ObjectRow i <$> objects c i)) <$> resource_index_set).

Lemma foldM_app' {A B} (f : A → B → result exn A) l l' : ∀ a, foldM f a (l ++ l') = (a ← foldM f a l; foldM f a l').
Proof. induction l as [|x l IH]; intros a; cbn; [done|]. destruct (f a x); cbn; [apply IH|done]. Qed.

Lemma add_indices_eq {W} `{SnapshotWriter row_t W} c l : ∀ w : W,
  foldM (λ w i, add_index c i w) w l = foldM (λ w s, write_section s.1 s.2 w) w (omap (index_section c) l).
Proof.
  induction l as [|i l IH]; intros w; [done|]. cbn [foldM omap list_omap]. destruct i; cbn [add_index index_section foldM fst snd mbind result_bind]; try (by rewrite IH).
  - destruct (write_section _ _ w); cbn; [apply IH|done].
  - destruct (write_section _ _ w); cbn; [apply IH|done].
  - destruct (write_section _ _ w); cbn; [apply IH|done].
Qed.

Lemma add_to_snapshot_eq {W} `{SnapshotWriter row_t W} c h rows (w : W) : ForkDatabase.head (fork_db c) = Some h →
  permission_rows (authorization c) = Ok rows →
  add_to_snapshot c w = foldM (λ w s, write_section s.1 s.2 w) w (sections_of c h rows).
Proof.
  intros Hh Hr. unfold add_to_snapshot, sections_of. cbn [foldM fst snd app].
  destruct (write_section header_section [HeaderRow 3] w) as [w1|e]; [|done]. cbn [mbind result_bind]. rewrite Hh.
  destruct (write_section block_state_section _ w1) as [w2|e]; [|done]. cbn [mbind result_bind]. rewrite add_indices_eq, foldM_app'.
  destruct (foldM _ w2 _) as [w3|e]; [|done]. cbn [mbind result_bind foldM fst snd]. unfold add_contract_tables_to_snapshot, add_authorization. rewrite Hr. cbn [mbind result_bind].
  destruct (write_section "contract_tables" _ w3) as [w4|e]; [|done]. cbn [mbind result_bind].
  destruct (write_section permission_section _ w4) as [w5|e]; [|done]. cbn [mbind result_bind].
  destruct (write_section permission_link_section _ w5) as [w6|e]; [|done]. cbn [mbind result_bind].
  unfold add_resource_limits, resource_index_set. cbn [fmap list_fmap foldM fst snd]. done.
Qed.

(** *** What is read *)

Definition restored_protocol_state (p : FeatureActivation.protocol_state_object) : FeatureActivation.protocol_state_object :=
  FeatureActivation.MkProtocolState (FeatureActivation.ps_activated p) (FeatureActivation.ps_preactivated p)
    (WhitelistedIntrinsics.reset_intrinsic_whitelist hash_string
       (WhitelistedIntrinsics.convert_intrinsic_whitelist_to_set (FeatureActivation.whitelisted_intrinsics p)))
    (FeatureActivation.num_supported_key_types p).

(** No row of a plain table conflicts with one before it. *)
Definition no_conflicts (i : plain_index) (os : list Obj) : Prop :=
  ∀ before o after, os = before ++ o :: after → forallb (λ o', negb (conflict i o' o)) before = true.

(** A chain that can be saved: a head, tables with unique keys, permissions as the chain
    creates them, of which the first has the first usage object *)
Record chain_ok (c : chain_state) (h : bhs) : Prop := {
  ok_head : ForkDatabase.head (fork_db c) = Some h;
  ok_objects i : no_conflicts i (objects c i);
  ok_globals : ∃ g gs, global_properties c = g :: gs;
  ok_tables : table_db_ok (contract_tables c);
  ok_permissions : Permissions.wf (authorization c);
  ok_first_usage : is_Some (Permissions.permission_usages (authorization c) !! 0) ∧
    ∃ i p, permission_list (authorization c) !! 1%nat = Some (i, p) ∧ Permissions.usage_id p = 0 }.

(** The length of the longest section *)
Definition enough_fuel (fuel : nat) (l : list (section row_t)) : Prop := Forall (λ s, (length s.2 ≤ fuel)%nat) l.

Section restore.
Context {W D : Type} `{SnapshotFormat row_t row_type W D}.
Context (Hkind : ∀ r : row_t, kind r = type_of r).
Context (c : chain_state) (h : bhs) (Hok : chain_ok c h) (prs : list (snapshot_permission_object key)).
Let l := sections_of c h prs.
Context (Hnames : Forall (λ s, name_ok s.1) l) (fuel : nat) (Hfuel : enough_fuel fuel l).

Lemma rows_of_elem n rows : rows_of n l = Some rows → (n, rows) ∈ l.
Proof.
  unfold rows_of. destruct (head (filter _ l)) as [s|] eqn:E; [|done]. intros [= <-].
  apply head_Some_elem_of, list_elem_of_filter in E as [<- E]. by destruct s.
Qed.

Lemma named_section n rows : rows_of n l = Some rows → name_ok n ∧ (length rows ≤ fuel)%nat.
Proof.
  intros Hr. apply rows_of_elem in Hr. unfold enough_fuel in Hfuel. rewrite Forall_forall in Hnames, Hfuel.
  split; [exact (Hnames _ Hr)|exact (Hfuel _ Hr)].
Qed.

Lemma read_section_typed {S} n t (create : row_t → S → result exn S) rows r s s' : reads r l → rows_of n l = Some rows →
  (∀ row, row ∈ rows → type_of row = t) → foldM (λ s row, create row s) s rows = Ok s' →
  ∃ r', read_section fuel n t create r s = Some (Ok (s', r')) ∧ reads r' l.
Proof.
  intros Hr Hrows Ht Hf. destruct (named_section n rows Hrows) as [Hn Hlen].
  pose proof (read_section_ok fuel n t create l rows r s Hr Hn Hrows) as Hs. rewrite Hf in Hs. apply Hs; [|done].
  apply Forall_forall. intros row Hrow. rewrite Hkind. by apply Ht.
Qed.

Lemma read_one_ok n t row rows r : reads r l → rows_of n l = Some (row :: rows) → type_of row = t →
  ∃ r', read_one n t r = Some (Ok (row, r')) ∧ reads r' l.
Proof.
  intros Hr Hrows <-. destruct (named_section n _ Hrows) as [Hn _]. destruct (set_section_ok r l n _ Hr Hn Hrows) as (r1 & Hs & Hw & _).
  unfold read_one. rewrite Hs. cbn [rbind]. rewrite <-Hkind. destruct (read_row_ok r1 l row rows Hw) as (r2 & Hr2 & Hw2).
  rewrite Hr2. cbn [rbind]. eexists. split; [done|]. by eapply clear_section_ok.
Qed.

Lemma create_plain_all i os f : no_conflicts i os → f i = [] →
  ∃ f', foldM (λ f row, create_plain i row f) f (ObjectRow i <$> os) = Ok f' ∧ ∀ j, f' j = if decide (j = i) then os else f j.
Proof.
  intros Hnc Hf.
  assert (∀ after before f, os = before ++ after → f i = before →
    ∃ f', foldM (λ f row, create_plain i row f) f (ObjectRow i <$> after) = Ok f' ∧ ∀ j, f' j = if decide (j = i) then os else f j) as Hgen.
  { clear f Hf. induction after as [|o after IH]; intros before f E Hf.
    - exists f. split; [done|]. intros j. destruct (decide (j = i)) as [->|]; [|done]. by rewrite Hf, E, app_nil_r.
    - cbn [fmap list_fmap foldM create_plain]. rewrite Hf, (Hnc before o after E). cbn [assert_that mbind result_bind].
      destruct (IH (before ++ [o]) (λ j, if decide (j = i) then before ++ [o] else f j)) as (f' & Hf' & Hj); [by rewrite <-app_assoc|by rewrite decide_True|].
      exists f'. split; [exact Hf'|]. intros j. rewrite Hj. by destruct (decide (j = i)). }
  by apply (Hgen os [] f).
Qed.

(** The state after the tables [done] have been read *)
Record progress (base : chain_state) (done : list controller_index) (s : chain_state) : Prop := {
  pr_rest : fork_db s = fork_db base ∧ contract_tables s = contract_tables base ∧ authorization s = authorization base ∧
    revision s = revision base ∧ database_headers s = database_headers base;
  pr_objects j : objects s j = if decide (Plain j ∈ done) then objects c j else objects base j;
  pr_globals : global_properties s = if decide (GlobalProperty ∈ done) then global_properties c else global_properties base;
  pr_protocol : protocol_states s = if decide (ProtocolState ∈ done) then restored_protocol_state <$> protocol_states c else protocol_states base }.

Lemma progress_set_objects base done s i f : progress base done s → (∀ j, f j = if decide (j = i) then objects c i else objects s j) →
  progress base (done ++ [Plain i]) (set_objects f s).
Proof.
  intros [Hr Ho Hg Hp] Hf. split; cbn; [done| |rewrite Hg|rewrite Hp].
  - intros j. rewrite Hf, Ho. destruct (decide (j = i)) as [->|Hne]; [by rewrite decide_True by set_solver|].
    by destruct (decide (Plain j ∈ done)), (decide (Plain j ∈ done ++ [Plain i])); set_solver.
  - by destruct (decide (GlobalProperty ∈ done)), (decide (GlobalProperty ∈ done ++ [Plain i])); set_solver.
  - by destruct (decide (ProtocolState ∈ done)), (decide (ProtocolState ∈ done ++ [Plain i])); set_solver.
Qed.

Lemma read_plain_progress base done s i r : progress base done s → reads r l → objects base i = [] → Plain i ∉ done →
  rows_of (section_name i) l = Some (ObjectRow i <$> objects c i) →
  ∃ s' r', read_plain fuel i r s = Some (Ok (s', r')) ∧ reads r' l ∧ progress base (done ++ [Plain i]) s'.
Proof.
  intros Hpr Hr Hb Hni Hrows.
  assert (objects s i = []) as Hs by (rewrite (pr_objects _ _ _ Hpr); by rewrite decide_False).
  destruct (create_plain_all i (objects c i) (objects s) (ok_objects _ _ Hok i) Hs) as (f & Hf & Hj).
  destruct (read_section_typed (section_name i) (object_t i) (create_plain i) _ r (objects s) f Hr Hrows) as (r' & Hrd & Hr').
  - intros row Hrow. by apply list_elem_of_fmap in Hrow as (o & -> & _).
  - exact Hf.
  - unfold read_plain. rewrite Hrd. cbn [rbind]. exists (set_objects f s), r'. split; [done|]. split; [done|].
    apply (progress_set_objects base done s i f Hpr). intros j. rewrite Hj. by destruct (decide (j = i)).
Qed.

Lemma create_all {A} (create : row_t → list A → result exn (list A)) {B} (g : B → row_t) (f : B → A) bs :
  (∀ x s, create (g x) s = Ok (s ++ [f x])) → ∀ s, foldM (λ s row, create row s) s (g <$> bs) = Ok (s ++ (f <$> bs)).
Proof.
  intros Hc. induction bs as [|x bs IH]; intros s; cbn [fmap list_fmap foldM]; [by rewrite app_nil_r|].
  rewrite Hc. cbn [mbind result_bind]. by rewrite IH, <-app_assoc.
Qed.

Definition index_base_empty (base : chain_state) (i : controller_index) : Prop :=
  match i with
  | Plain i => objects base i = []
  | GlobalProperty => global_properties base = []
  | ProtocolState => protocol_states base = []
  | _ => True
  end.

Lemma progress_step base done s s' i : progress base done s →
  (fork_db s' = fork_db s ∧ contract_tables s' = contract_tables s ∧ authorization s' = authorization s ∧ revision s' = revision s ∧
   database_headers s' = database_headers s) →
  (∀ j, objects s' j = objects s j) → (∀ j, i ≠ Plain j) →
  global_properties s' = (if decide (i = GlobalProperty) then global_properties c else global_properties s) →
  protocol_states s' = (if decide (i = ProtocolState) then restored_protocol_state <$> protocol_states c else protocol_states s) →
  progress base (done ++ [i]) s'.
Proof.
  intros [Hr Ho Hg Hp] (E1 & E2 & E3 & E4 & E5) Hob Hi Hgl Hps. split.
  - by rewrite E1, E2, E3, E4, E5.
  - intros j. rewrite Hob, Ho. specialize (Hi j). by destruct (decide (Plain j ∈ done)), (decide (Plain j ∈ done ++ [i])); set_solver.
  - rewrite Hgl, Hg. by destruct (decide (i = GlobalProperty)), (decide (GlobalProperty ∈ done)), (decide (GlobalProperty ∈ done ++ [i])); set_solver.
  - rewrite Hps, Hp. by destruct (decide (i = ProtocolState)), (decide (ProtocolState ∈ done)), (decide (ProtocolState ∈ done ++ [i])); set_solver.
Qed.

Lemma read_index_progress base done s i r : progress base done s → reads r l → index_base_empty base i → i ∉ done →
  (∀ sec, index_section c i = Some sec → rows_of sec.1 l = Some sec.2) →
  ∃ s' r', read_index fuel 3 i r s = Some (Ok (s', r')) ∧ reads r' l ∧ progress base (done ++ [i]) s'.
Proof.
  intros Hpr Hr Hb Hni Hrows. destruct i as [i| | | |]; cbn [read_index index_base_empty index_section] in *.
  - apply read_plain_progress; [done|done|done|done|]. exact (Hrows _ eq_refl).
  - specialize (Hrows _ eq_refl). cbn [fst snd] in Hrows. change (is_v2 3) with false. cbv iota.
    assert (global_properties s = []) as Hs by (rewrite (pr_globals _ _ _ Hpr), decide_False by done; exact Hb).
    destruct (read_section_typed global_property_section global_property_t create_global _ r (global_properties s) (global_properties c) Hr Hrows) as (r' & Hrd & Hr').
    + intros row Hrow. by apply list_elem_of_fmap in Hrow as (o & -> & _).
    + rewrite Hs, (create_all create_global GlobalPropertyRow id) by done. by rewrite list_fmap_id.
    + rewrite Hrd. cbn [rbind]. do 2 eexists. split; [done|]. split; [done|]. by apply (progress_step base done s).
  - specialize (Hrows _ eq_refl). cbn [fst snd] in Hrows.
    assert (protocol_states s = []) as Hs by (rewrite (pr_protocol _ _ _ Hpr), decide_False by done; exact Hb).
    destruct (read_section_typed protocol_state_section protocol_state_t create_protocol_state _ r (protocol_states s)
                (restored_protocol_state <$> protocol_states c) Hr Hrows) as (r' & Hrd & Hr').
    + intros row Hrow. by apply list_elem_of_fmap in Hrow as (o & -> & _).
    + rewrite Hs, (create_all create_protocol_state _ restored_protocol_state) by done. done.
    + rewrite Hrd. cbn [rbind]. do 2 eexists. split; [done|]. split; [done|]. by apply (progress_step base done s).
  - do 2 eexists. split; [done|]. split; [done|]. by apply (progress_step base done s).
  - do 2 eexists. split; [done|]. split; [done|]. by apply (progress_step base done s).
Qed.

Lemma read_indices_progress {I} (f : I → D → chain_state → run (chain_state * D)) (g : I → controller_index) base ixs :
  (∀ done s i r, i ∈ ixs → progress base done s → reads r l → g i ∉ done →
     ∃ s' r', f i r s = Some (Ok (s', r')) ∧ reads r' l ∧ progress base (done ++ [g i]) s') →
  ∀ done s r, progress base done s → reads r l → NoDup (done ++ (g <$> ixs)) →
  ∃ s' r', read_each_index f ixs r s = Some (Ok (s', r')) ∧ reads r' l ∧ progress base (done ++ (g <$> ixs)) s'.
Proof.
  induction ixs as [|i ixs IH]; intros Hf done s r Hpr Hr Hnd.
  - exists s, r. by rewrite app_nil_r.
  - cbn [fmap list_fmap] in Hnd |- *. assert (g i ∉ done) as Hni.
    { apply NoDup_app in Hnd as (_ & Hnd & _). intros Hin. apply (Hnd _ Hin). left. }
    destruct (Hf done s i r) as (s1 & r1 & E1 & Hr1 & Hp1); [left|done..|]. cbn [read_each_index]. rewrite E1. cbn [rbind].
    destruct (IH ltac:(intros ???? Hin; apply Hf; by right) (done ++ [g i]) s1 r1 Hp1 Hr1) as (s' & r' & E & Hr' & Hp').
    { by rewrite <-app_assoc. }
    exists s', r'. by rewrite <-app_assoc in Hp'.
Qed.

Lemma section_of_index i : i ∈ controller_index_set → ∀ sec, index_section c i = Some sec → rows_of sec.1 l = Some sec.2.
Proof.
  intros Hi. unfold controller_index_set in Hi.
  repeat (apply elem_of_cons in Hi as [->|Hi]; [intros sec Hsec; try discriminate Hsec; injection Hsec as <-; reflexivity|]).
  by apply elem_of_nil in Hi.
Qed.

Lemma section_of_resource i : i ∈ resource_index_set → rows_of (section_name i) l = Some (ObjectRow i <$> objects c i).
Proof.
  intros Hi. unfold resource_index_set in Hi.
  repeat (apply elem_of_cons in Hi as [->|Hi]; [reflexivity|]). by apply elem_of_nil in Hi.
Qed.

(** *** Authorization *)

Lemma foldM_fmap {A B S} (f : S → B → result exn S) (g : A → B) xs : ∀ s, foldM f s (g <$> xs) = foldM (λ s x, f s (g x)) s xs.
Proof. induction xs as [|x xs IH]; intros s; cbn; [done|]. destruct (f s (g x)); cbn; [apply IH|done]. Qed.

Lemma create_links (db : Permissions.auth_db key) xs : NoDup xs.*1 → Permissions.links db = ∅ →
  foldM (λ db x, create_link x db) db xs = Ok (Permissions.set_links db (list_to_map xs)).
Proof.
  intros Hnd Hl.
  assert (∀ rest done, xs = done ++ rest →
    foldM (λ db x, create_link x db) (Permissions.set_links db (list_to_map done)) rest = Ok (Permissions.set_links db (list_to_map xs))) as Hgen.
  { induction rest as [|[k v] rest IH]; intros done E; [by rewrite app_nil_r in E; subst|]. cbn [foldM].
    assert (k ∉ done.*1) as Hk. { rewrite E, fmap_app in Hnd. apply NoDup_app in Hnd as (_ & Hnd & _). intros Hin. apply (Hnd _ Hin). left. }
    assert ((list_to_map done : gmap (Z * Z * Z) Z) !! k = None) as Hnone by by apply not_elem_of_list_to_map_1.
    assert (create_link (k, v) (Permissions.set_links db (list_to_map done)) = Ok (Permissions.set_links db (list_to_map (done ++ [(k, v)])))) as ->.
    { unfold create_link, create. cbn [Permissions.links Permissions.set_links fst snd]. rewrite Hnone. cbn [mbind result_bind].
      by rewrite (list_to_map_snoc done k v Hk). }
    cbn [mbind result_bind]. apply IH. by rewrite <-app_assoc. }
  specialize (Hgen xs [] eq_refl). cbn in Hgen. rewrite <-Hl in Hgen. by destruct db.
Qed.

Context (Hprs : permission_rows (authorization c) = Ok prs).

Lemma permission_rows_are : prs = row_of (authorization c) <$> permission_list (authorization c).
Proof.
  pose proof (permission_rows_ok (authorization c) (ok_permissions _ _ Hok) (proj1 (ok_first_usage _ _ Hok))) as E.
  rewrite Hprs in E. by injection E.
Qed.

Definition restored_auth : Permissions.auth_db key := Permissions.set_links (restored (authorization c)) (Permissions.links (authorization c)).

Lemma read_authorization_ok s r : reads r l → authorization s = empty_auth_db →
  ∃ r', read_authorization fuel r s = Some (Ok (set_authorization restored_auth s, r')) ∧ reads r' l.
Proof.
  intros Hr Hs. unfold read_authorization. rewrite Hs.
  match goal with |- context [read_section fuel permission_section permission_t ?f] => set (cp := f) end.
  match goal with |- context [read_section fuel permission_link_section permission_link_t ?f] => set (cl := f) end.
  destruct (read_section_typed permission_section permission_t cp (PermissionRow <$> prs) r empty_auth_db (restored (authorization c)) Hr eq_refl) as (r1 & E1 & Hr1).
  { intros row Hrow. by apply list_elem_of_fmap in Hrow as (o & -> & _). }
  { rewrite foldM_fmap, permission_rows_are.
    exact (permissions_read (authorization c) (ok_permissions _ _ Hok) [] (permission_list (authorization c)) eq_refl). }
  rewrite E1. cbn [rbind].
  destruct (read_section_typed permission_link_section permission_link_t cl (LinkRow <$> link_rows (authorization c)) r1 (restored (authorization c)) restored_auth Hr1 eq_refl) as (r2 & E2 & Hr2).
  { intros row Hrow. by apply list_elem_of_fmap in Hrow as (o & -> & _). }
  { rewrite foldM_fmap. unfold link_rows, restored_auth. unfold cl. rewrite create_links; [|apply NoDup_fst_map_to_list|done].
    by rewrite list_to_map_to_list. }
  rewrite E2. cbn [rbind]. by exists r2.
Qed.

(** *** The whole chain *)

Definition restored_head : bhs := of_header_row (header_row h).

Lemma length_content db : (length (content db) ≤ length (contract_table_rows (key := key) (signature := signature) (Obj := Obj) (genesis := genesis) db))%nat.
Proof.
  unfold contract_table_rows. induction (content db) as [|x xs IH]; [done|]. cbn [fmap list_fmap concat length].
  rewrite length_app. unfold table_rows at 1. cbn [length]. lia.
Qed.

Lemma progress_empty s : progress s [] s.
Proof. split; [done|..]; intros; by rewrite decide_False by set_solver. Qed.

Lemma read_controller_ok base r : reads r l → (∀ i, index_base_empty base i) →
  ∃ s r', read_each_index (read_index fuel 3) controller_index_set r base = Some (Ok (s, r')) ∧ reads r' l ∧ progress base controller_index_set s.
Proof.
  intros Hr Hb.
  destruct (read_indices_progress (read_index fuel 3) id base controller_index_set) with (done := @nil controller_index) (s := base) (r := r)
    as (s & r' & E & Hr' & Hp); [|apply progress_empty|done| |].
  - intros done s i r0 Hi Hp Hr0 Hni. by apply read_index_progress; [done|done|done|done|apply section_of_index].
  - rewrite list_fmap_id. by apply (bool_decide_unpack _).
  - exists s, r'. by rewrite list_fmap_id in Hp.
Qed.

Lemma read_resources_ok base r : reads r l → (∀ i, i ∈ resource_index_set → objects base i = []) →
  ∃ s r', read_each_index (read_plain fuel) resource_index_set r base = Some (Ok (s, r')) ∧ reads r' l ∧ progress base (Plain <$> resource_index_set) s.
Proof.
  intros Hr Hb. apply (read_indices_progress (read_plain fuel) Plain base resource_index_set) with (done := @nil controller_index); [|apply progress_empty|done|].
  - intros done s i r0 Hi Hp Hr0 Hni. by apply read_plain_progress; [done|done|apply Hb|done|apply section_of_resource].
  - by apply (bool_decide_unpack _).
Qed.

(** Every plain table belongs to the controller or to the resource limits. *)
Lemma plain_index_cases i : (Plain i ∈ controller_index_set ∧ i ∉ resource_index_set) ∨ (Plain i ∉ controller_index_set ∧ i ∈ resource_index_set).
Proof. destruct i; (left; split; by apply (bool_decide_unpack _)) || (right; split; by apply (bool_decide_unpack _)). Qed.

Lemma not_plain i : (∀ j, i ≠ Plain j) → i ∉ Plain <$> resource_index_set.
Proof. intros Hi Hin. apply list_elem_of_fmap in Hin as (j & -> & _). by apply (Hi j). Qed.

(** Both together restore the tables. *)
Lemma progress_complete base s base' s' : progress base controller_index_set s → (∀ i, index_base_empty base i) →
  objects base' = objects s → global_properties base' = global_properties s → protocol_states base' = protocol_states s →
  progress base' (Plain <$> resource_index_set) s' →
  (∀ i, objects s' i = objects c i) ∧ global_properties s' = global_properties c ∧ protocol_states s' = restored_protocol_state <$> protocol_states c.
Proof.
  intros [_ Ho Hg Hp] Hb Eo Eg Ep [_ Ho' Hg' Hp']. split_and!.
  - intros i. rewrite Ho', Eo, Ho. destruct (plain_index_cases i) as [[Hc Hnr]|[Hnc Hr]].
    + rewrite decide_False, decide_True; [done|done|]. intros Hin. apply list_elem_of_fmap in Hin as (j & [= ->] & Hj). done.
    + rewrite decide_True; [done|]. by apply list_elem_of_fmap_2.
  - rewrite Hg', decide_False, Eg, Hg by (by apply not_plain). done.
  - rewrite Hp', decide_False, Ep, Hp by (by apply not_plain). done.
Qed.

Lemma read_from_snapshot_ok my_chain_id blog_start blog_end r :
  let n := BlockHeaderState.block_num (BlockHeaderState.common h) in
  reads r l → blog_start ≤ u32 (n + 1) → n ≤ blog_end → chain_id <$> head (global_properties c) = Some my_chain_id →
  ∃ s r', read_from_snapshot fuel my_chain_id blog_start blog_end r empty_chain = Some (Ok (s, r')) ∧
    fork_db s = ForkDatabase.reset restored_head ∧ (∀ i, objects s i = objects c i) ∧ global_properties s = global_properties c ∧
    protocol_states s = restored_protocol_state <$> protocol_states c ∧ contract_tables s = tables_of (content (contract_tables c)) [] ∧
    authorization s = restored_auth ∧ revision s = n ∧ database_headers s = 1.
Proof.
  intros n Hr Hstart Hend Hid.
  assert (rows_of header_section l = Some [HeaderRow 3]) as Hh by done. destruct (named_section _ _ Hh) as [Hn _].
  destruct (set_section_ok r l _ _ Hr Hn Hh) as (r1 & E1 & Hw1 & _). destruct (read_row_ok r1 l _ _ Hw1) as (r2 & E2 & Hw2).
  rewrite Hkind in E2. cbn [type_of] in E2. unfold read_from_snapshot. rewrite E1. cbn [rbind]. rewrite E2. cbn [rbind].
  pose proof (clear_section_ok _ _ _ Hw2) as Hr2.
  destruct (read_one_ok block_state_section block_header_state_t (BlockStateRow (header_row h)) [] _ Hr2 eq_refl eq_refl) as (r3 & E3 & Hr3).
  change (validate_header 3) with (Ok (E := exn) tt). cbn [rbind]. unfold read_head. change (is_v2 3) with false. cbv iota. rewrite E3. cbn [rbind].
  change (BlockHeaderState.block_num (BlockHeaderState.common (of_header_row (header_row h)))) with n.
  rewrite (proj2 (Z.leb_le _ _) Hstart), (proj2 (Z.leb_le _ _) Hend). cbn [andb assert_that rbind].
  match goal with |- context [read_each_index _ controller_index_set r3 ?b] => set (base := b) end.
  assert (∀ i, index_base_empty base i) as Hbase by (by intros []).
  destruct (read_controller_ok base r3 Hr3 Hbase) as (s4 & r4 & E4 & Hr4 & Hp4).
  rewrite E4. cbn [rbind]. destruct (pr_rest _ _ _ Hp4) as (F4 & T4 & A4 & R4 & D4). rewrite T4.
  assert (rows_of "contract_tables" l = Some (contract_table_rows (contract_tables c))) as Ht by done. destruct (named_section _ _ Ht) as [Hnt Hlt].
  destruct (read_contract_tables_ok Hkind l r4 (contract_tables c) fuel Hnt Hr4 Ht (ok_tables _ _ Hok)) as (r5 & E5 & Hr5).
  { pose proof (length_content (contract_tables c)). lia. }
  change (contract_tables base) with empty_table_db. rewrite E5. cbn [rbind].
  destruct (read_authorization_ok (set_tables (tables_of (content (contract_tables c)) []) s4) r5 Hr5) as (r6 & E6 & Hr6); [exact A4|].
  rewrite E6. cbn [rbind].
  match goal with |- context [read_each_index _ resource_index_set r6 ?b] => set (base' := b) end.
  destruct (read_resources_ok base' r6 Hr6) as (s7 & r7 & E7 & Hr7 & Hp7).
  { intros i Hi. change (objects base' i) with (objects s4 i). rewrite (pr_objects _ _ _ Hp4).
    destruct (plain_index_cases i) as [[_ ?]|[? _]]; [done|]. by rewrite decide_False. }
  destruct (progress_complete base s4 base' s7 Hp4 Hbase eq_refl eq_refl eq_refl Hp7) as (O7 & G7 & P7).
  destruct (pr_rest _ _ _ Hp7) as (F7 & T7 & A7 & R7 & D7).
  rewrite E7. cbn [rbind global_properties]. rewrite G7. destruct (global_properties c) as [|g gs] eqn:Eg; [done|]. injection Hid as Hid.
  rewrite bool_decide_eq_true_2 by done. cbn [assert_that rbind]. do 2 eexists. split; [done|].
  cbn [fork_db objects global_properties protocol_states contract_tables authorization revision database_headers].
  rewrite F7, T7, A7, D7. change (fork_db base') with (fork_db s4). change (database_headers base') with (database_headers s4). by rewrite F4, D4.
Qed.
End restore.

Lemma protocol_state_row_restored p : protocol_state_row (restored_protocol_state p) = protocol_state_row p.
Proof.
  unfold protocol_state_row, restored_protocol_state. cbn. f_equal. apply WhitelistedIntrinsics.reset_ok.
Qed.

(** The sections only depend on what is restored. *)
Lemma sections_of_restored c c' h rows : (∀ i, objects c' i = objects c i) → global_properties c' = global_properties c →
  protocol_states c' = restored_protocol_state <$> protocol_states c → content (contract_tables c') = content (contract_tables c) →
  Permissions.links (authorization c') = Permissions.links (authorization c) →
  sections_of c' (restored_head h) rows = sections_of c h rows.
Proof.
  intros Ho Hg Hp Ht Hl. unfold sections_of, contract_table_rows, link_rows. rewrite Ht, Hl. cbn [controller_index_set omap list_omap index_section resource_index_set fmap list_fmap].
  rewrite !Ho, Hg, Hp, <-list_fmap_compose.
  replace (((ProtocolStateRow ∘ protocol_state_row) ∘ restored_protocol_state) <$> protocol_states c)
    with ((ProtocolStateRow ∘ protocol_state_row <$> protocol_states c) : list row_t); [done|].
  apply list_fmap_ext. intros i p _. cbn. by rewrite protocol_state_row_restored.
Qed.

(** Links play no part in [satisfies]. *)
Lemma satisfies_links (db : Permissions.auth_db key) x a b : Permissions.satisfies (Permissions.set_links db x) a b = Permissions.satisfies db a b.
Proof.
  unfold Permissions.satisfies. assert (∀ i fuel q, Permissions.walk_parents (Permissions.set_links db x) i fuel q = Permissions.walk_parents db i fuel q) as E.
  { intros i. induction fuel as [|fuel IH]; intros q; [done|]. cbn [Permissions.walk_parents Permissions.set_links Permissions.permissions].
    destruct (i =? Permissions.parent q), (Permissions.parent q =? 0); try done. destruct (Permissions.permissions db !! Permissions.parent q); [apply IH|done]. }
  cbn [Permissions.set_links Permissions.permissions Permissions.next_permission].
  destruct (Permissions.permissions db !! Permissions.parent b.2); [|done]. by rewrite <-E.
Qed.

(** C12: a chain that is saved to a snapshot, in any of its formats, is restored from it.  The
    snapshot can be written; reading it on a new database, with a block log that reaches its
    head and the right chain id, succeeds.  The head block is the one saved, apart from the
    extensions of its header, which are not saved.  All tables have their rows, the contract
    tables the rows of every index in order; permissions, though numbered anew and with their
    parents found by name, satisfy each other as before and keep their links.  A second
    snapshot, and so the integrity hash, is the same. *)
Theorem snapshot_restores_chain {W D} `{SnapshotFormat row_t row_type W D} (c : chain_state) (h : bhs) my_chain_id blog_start blog_end (w0 : W) fuel :
  (∀ r : row_t, kind r = type_of r) → chain_ok c h →
  let db := authorization c in
  let l := sections_of c h (row_of db <$> permission_list db) in
  let n := BlockHeaderState.block_num (BlockHeaderState.common h) in
  Forall (section_ok (W := W) (D := D)) l → Forall (λ s, name_ok (W := W) (D := D) s.1) l → enough_fuel fuel l → written (D := D) w0 [] →
  blog_start ≤ u32 (n + 1) → n ≤ blog_end → chain_id <$> head (global_properties c) = Some my_chain_id →
  ∃ (w : W) c' (r' : D), add_to_snapshot c w0 = Ok w ∧
    read_from_snapshot fuel my_chain_id blog_start blog_end (finished w) empty_chain = Some (Ok (c', r')) ∧
    ForkDatabase.head (fork_db c') = Some (restored_head h) ∧ header_row (restored_head h) = header_row h ∧ revision c' = n ∧
    (∀ i, objects c' i = objects c i) ∧ global_properties c' = global_properties c ∧
    content (contract_tables c') = content (contract_tables c) ∧
    Permissions.wf (authorization c') ∧ Permissions.links (authorization c') = Permissions.links db ∧
    (∀ i p j q, Permissions.permissions db !! i = Some p → Permissions.permissions db !! j = Some q →
       let pos := position (permission_list db) in
       let new := renumbered (permission_list db) in
       Permissions.permissions (authorization c') !! pos i = Some (new (i, p)) ∧
       Permissions.satisfies (authorization c') (pos i, new (i, p)) (pos j, new (j, q)) = Permissions.satisfies db (i, p) (j, q)) ∧
    ∀ (W' : Type) (writer : SnapshotWriter row_t W') (w' : W'), add_to_snapshot c' w' = add_to_snapshot c w'.
Proof.
  intros Hkind Hok db l n Hsec Hnames Hfuel Hw0 Hstart Hend Hid.
  pose proof (permission_rows_ok db (ok_permissions _ _ Hok) (proj1 (ok_first_usage _ _ Hok))) as Hprs.
  destruct (write_sections_ok l Hsec w0 [] Hw0) as (w & Hw & Hwr). pose proof (finished_ok w l Hwr) as Hr.
  destruct (read_from_snapshot_ok Hkind c h Hok _ Hnames fuel Hfuel Hprs my_chain_id blog_start blog_end (finished w) Hr Hstart Hend Hid)
    as (c' & r' & Hread & Hf & Ho & Hg & Hp & Ht & Ha & Hrev & _).
  assert (content (contract_tables c') = content (contract_tables c)) as Hct
    by (rewrite Ht; apply content_tables_of, content_ok, (ok_tables _ _ Hok)).
  assert (permission_rows (authorization c') = permission_rows db) as Hrows.
  { rewrite Ha. apply (restored_rows db); [apply (ok_permissions _ _ Hok)|apply (ok_first_usage _ _ Hok)..]. }
  exists w, c', r'. rewrite (add_to_snapshot_eq c h _ w0 (ok_head _ _ Hok) Hprs). split_and!; try done.
  - by rewrite Hf.
  - rewrite Ha. destruct (restored_wf db (ok_permissions _ _ Hok)); by split.
  - by rewrite Ha.
  - intros i p j q Hi Hj. cbv zeta. rewrite Ha. split; [by apply (restored_lookup_all db)|].
    unfold restored_auth. rewrite satisfies_links. by apply restored_satisfies; [apply (ok_permissions _ _ Hok)|..].
  - intros W' HW w'. rewrite (add_to_snapshot_eq c h _ w' (ok_head _ _ Hok) Hprs).
    rewrite (add_to_snapshot_eq c' (restored_head h) (row_of db <$> permission_list db) w'); [|by rewrite Hf|by rewrite Hrows].
    rewrite sections_of_restored with (c := c); [done|done..|]. by rewrite Ha.
Qed.
End chain.

(** ** A small chain

    Saved as a variant in which rows are leaves *)
Section sample.
Import AbiSerializer (FcVariant).
Notation row_t := (snapshot_row Z Z Z Z).

Inductive json := JNull | JRow (r : row_t) | JInt (n : Z) | JString (s : string) | JArray (l : list json) | JObject (o : list (string * json)).

#[local] Instance json_variant : FcVariant json (list (string * json)).
Proof.
  refine {|
    AbiSerializer.null := JNull;
    AbiSerializer.is_null v := match v with JNull => true | _ => false end;
    AbiSerializer.of_array := JArray;
    AbiSerializer.get_array v := match v with JArray l => Some l | _ => None end;
    AbiSerializer.of_string := JString;
    AbiSerializer.get_string v := match v with JString s => Some s | _ => None end;
    AbiSerializer.of_object := JObject;
    AbiSerializer.get_object v := match v with JObject o => Some o | _ => None end;
    AbiSerializer.empty_object := [];
    AbiSerializer.object_set k v o := (k, v) :: o;
    AbiSerializer.object_get o k := option_map (λ x, x.2.2) (list_find (λ x, x.1 = k) o);
    AbiSerializer.object_size := length;
    AbiSerializer.as_bytes _ := Throw std_exception |}; try done.
  - intros k v o k'. cbn. destruct (decide (k = k')); [done|]. by destruct (list_find _ o).
  - intros. cbn. lia.
Defined.

#[local] Instance json_uint : Snapshot.VariantUint json (list (string * json)).
Proof.
  refine {| Snapshot.of_uint := JInt; Snapshot.get_uint v := match v with JInt n => Some n | _ => None end;
            Snapshot.as_string v := match v with JString s => Ok s | _ => Throw std_exception end |}; done.
Defined.
#[local] Instance sample_rows : SnapshotRows row_t row_type := {| kind := type_of |}.
#[local] Instance sample_variant_rows : Snapshot.VariantRows row_t row_type json.
Proof.
  refine {| Snapshot.to_variant := JRow; Snapshot.from_variant _ v := match v with JRow r => Ok r | _ => Throw std_exception end |}; done.
Defined.

#[local] Existing Instance Snapshot.variant_writer.
#[local] Existing Instance Snapshot.variant_reader.
#[local] Existing Instance Snapshot.variant_format.

Definition sample_head : BlockHeaderState.block_header_state Z Z :=
  BlockHeaderState.MkBhs
    (BlockHeaderState.MkCommon 7 5 4 (ProducerSchedule.MkSchedule 1 []) Merkle.empty_merkle {[ 9 := 7 ]} ∅ (ProducerSchedule.MkBsa 1 []) [1; 2])
    (Merkle.Digest 7 0 0 1) (BlockHeader.MkSigned (BlockHeader.MkHeader 100 9 0 Merkle.zero_digest Merkle.zero_digest Merkle.zero_digest 1 None []) 3)
    (BlockHeaderState.MkScheduleInfo 0 Merkle.zero_digest (ProducerSchedule.MkSchedule 0 [])) ∅ []
    [(1, BlockHeader.producer_schedule_change_extension (ProducerSchedule.MkSchedule 2 []))].

(** A table with two rows and a secondary index, whose identifiers have gaps *)
Definition sample_tables : table_db :=
  MkTableDb {[ 4 := ContractTables.MkTable 1 2 3 7 3 ]} 5
    (<[2 := ContractTables.MkRow 4 20 7 (ContractTables.Value [1; 2])]>
    (<[5 := ContractTables.MkRow 4 10 7 (ContractTables.Value [])]>
     {[ 9 := ContractTables.MkRow 4 20 7 (ContractTables.Key64 77) ]})) 10.

Definition sample_chain : chain_state :=
  MkChain (ForkDatabase.MkFork ∅ (Some sample_head) (Some sample_head))
    (λ i, match i with account_index => [11; 12] | resource_usage_index => [5] | _ => [] end)
    [MkGlobalProperty None (ProducerSchedule.MkSchedule 1 []) ChainConfig.default_config (Merkle.Digest 8 8 8 8)]
    [FeatureActivation.MkProtocolState [] [] [(3, "abc"%string)] 2] sample_tables Permissions.sample_db 7 1.

Lemma sample_chain_ok : chain_ok (λ _ a b, Z.eqb a b) sample_chain sample_head.
Proof.
  split.
  - done.
  - intros i before o after E. destruct before as [|a [|b before]]; [done|..]; destruct i; cbn in E; try discriminate E.
    + injection E as <- <- _. done.
    + injection E as _ _ E. by destruct before.
  - by do 2 eexists.
  - unfold table_db_ok, sample_chain. cbn [contract_tables td_tables td_rows sample_tables]. split_and!.
    + intros i j t t' Hi Hj _. apply lookup_singleton_Some in Hi as [<- _], Hj as [<- _]. done.
    + intros i j r r' Hi Hj.
      repeat (apply lookup_insert_Some in Hi as [[<- <-]|[_ Hi]]; [|]); try (apply lookup_singleton_Some in Hi as [<- <-]);
      repeat (apply lookup_insert_Some in Hj as [[<- <-]|[_ Hj]]; [|]); try (apply lookup_singleton_Some in Hj as [<- <-]); by intros (? & ? & ?).
    + intros k tid. unfold walk_range. rewrite (Permutation_length (merge_sort_Permutation _ _)), length_fmap.
      pose proof (length_filter (of_table k tid) (map_to_list (td_rows sample_tables)).*2) as Hlen. rewrite length_fmap, length_map_to_list in Hlen.
      assert (size (td_rows sample_tables) = 3%nat) as E by (vm_compute; reflexivity). cbn [td_rows sample_tables] in *. lia.
  - apply Permissions.sample_db_wf.
  - split; [by eexists|]. exists 1. eexists. split; [vm_compute; reflexivity|done].
Qed.

Lemma snapshot_restores_chain_witness :
  ∃ (w : Snapshot.variant_snapshot_writer json (list (string * json))) (c' : chain_state (key := Z) (signature := Z) (Obj := Z)) (r' : Snapshot.variant_snapshot_reader json (list (string * json))),
    add_to_snapshot (genesis := Z) sample_chain (Snapshot.new_variant_writer []) = Ok w ∧
    read_from_snapshot (λ s, Z.of_nat (String.length s)) (λ _ a b, Z.eqb a b) (λ _ : Z, Merkle.zero_digest) 20 (Merkle.Digest 8 8 8 8) 8 UINT32_MAX
      (Snapshot.variant_finished w) empty_chain = Some (Ok (c', r')) ∧
    revision c' = 7 ∧ objects c' account_index = [11; 12] ∧ content (contract_tables c') = content sample_tables.
Proof.
  assert (Forall (λ s : section row_t, length s.2 ≤ 20)%nat
    (sections_of sample_chain sample_head (row_of Permissions.sample_db <$> permission_list Permissions.sample_db))) as Hlen
    by (apply (bool_decide_unpack _); vm_compute; exact I).
  assert (∀ r : row_t, kind r = type_of r) as Hkind by done.
  destruct (snapshot_restores_chain (λ s, Z.of_nat (String.length s)) (λ _ a b, Z.eqb a b) (λ _ : Z, Merkle.zero_digest) sample_chain sample_head
    (Merkle.Digest 8 8 8 8) 8 UINT32_MAX (Snapshot.new_variant_writer []) 20 Hkind sample_chain_ok)
    as (w & c' & r' & Hw & Hr & _ & _ & Hrev & Ho & _ & Hc & _).
  - eapply Forall_impl; [exact Hlen|]. intros s Hs. change (Snapshot.size s.2 < 2 ^ 64). unfold Snapshot.size. cbv beta in Hs. lia.
  - apply Forall_forall. by intros.
  - exact Hlen.
  - apply Snapshot.new_variant_writer_written.
  - vm_compute. discriminate.
  - vm_compute. discriminate.
  - reflexivity.
  - exists w, c', r'. split; [exact Hw|]. split; [exact Hr|]. split; [exact Hrev|]. split; [exact (Ho account_index)|exact Hc].
Defined.
End sample.
End ChainSnapshot.
