(* ===== verification/ForkFile.v ===== *)
(** * The file of the fork database

    When a node stops, [fork_database::close] writes the tree of reversible blocks to
    [fork_db.dat]; when it starts, [fork_database::open] reads the file and removes it
    ([fork_database.cpp]).  Blocks are written so that each comes after the one it is
    built on, which [open] relies on.  Packing is that of fc, the class [ForkFileFormat];
    the extensions of a header are not packed, [open] extracts them again. *)

From S2P Require Import Prelude.
From S2P Require Import Exceptions.
From S2P Require Import Merkle.
From S2P Require Import Authority.
From S2P Require Import BlockHeader.
From S2P Require Import BlockHeaderState.
From S2P Require Import ForkDatabase.

Local Open Scope Z_scope.

Module ForkFile.
Import ProducerSchedule BlockHeader BlockHeaderState ForkDatabase.

Definition magic_number : Z := 0x30510FDB.
Definition min_supported_version : Z := 1.
Definition max_supported_version : Z := 1.

(** A header state without the member that [FC_REFLECT_DERIVED] leaves out *)
Definition set_header_exts {key signature} (e : list (Z * block_header_extension key))
    (s : block_header_state key signature) : block_header_state key signature :=
  MkBhs (common s) (bhs_id s) (bhs_header s) (pending_schedule s) (activated_protocol_features s)
    (additional_signatures s) e.
Definition reflected {key signature} (s : block_header_state key signature) : block_header_state key signature :=
  set_header_exts [] s.

(** [fc::raw::pack] and [fc::raw::unpack] of what the file holds, a sequence of bytes *)
Class ForkFileFormat (key signature byte : Type) := {
  pack_uint32 : Z → list byte;
  unpack_uint32 : list byte → result exn (Z * list byte);
  pack_unsigned_int : Z → list byte;
  unpack_unsigned_int : list byte → result exn (Z * list byte);
  pack_id : digest → list byte;
  unpack_id : list byte → result exn (digest * list byte);
  pack_header_state : block_header_state key signature → list byte;
  unpack_header_state : list byte → result exn (block_header_state key signature * list byte);
  pack_block : block_state key signature → list byte;
  unpack_block : list byte → result exn (block_state key signature * list byte);
  unpack_pack_uint32 n rest : 0 ≤ n < 2 ^ 32 → unpack_uint32 (pack_uint32 n ++ rest) = Ok (n, rest);
  unpack_pack_unsigned_int n rest : 0 ≤ n < 2 ^ 32 → unpack_unsigned_int (pack_unsigned_int n ++ rest) = Ok (n, rest);
  unpack_pack_id d rest : unpack_id (pack_id d ++ rest) = Ok (d, rest);
  unpack_pack_header_state s rest : unpack_header_state (pack_header_state s ++ rest) = Ok (reflected s, rest);
  unpack_pack_block b rest :
    unpack_block (pack_block b ++ rest) = Ok (MkBlock (reflected (state b)) (validated b), rest) }.

Section file.
Context {key signature byte : Type} `{PublicKey key, !ForkFileFormat key signature byte}.
Context (unpack_activation : list Z → result exn (list digest)).
Context (unpack_schedule : list Z → result exn (producer_authority_schedule key)).
Context (validator : Z → gset digest → list digest → result exn unit).

Notation bhs := (block_header_state key signature).
Notation block_state := (block_state key signature).
Notation fork_database := (fork_database key signature).
Notation index_type := (gmap digest block_state).

(** ** Writing *)

(** The blocks in the order of [by_lib_block_num] *)
Definition by_lib_block_num (i : index_type) : list block_state :=
  merge_sort (λ a b, Is_true (negb (before b a))) (map_to_list i).*2.

(** The loop of [close], with what is left of the validated and of the other blocks *)
Fixpoint write_order (validated_itr : list block_state) : list block_state → list block_state :=
  fix unvalidated_loop (unvalidated_itr : list block_state) : list block_state :=
    match validated_itr, unvalidated_itr with
    | [], us => us
    | vs, [] => vs
    | v :: vs, u :: us =>
        if first_preferred (state v) (state u) then u :: unvalidated_loop us else v :: write_order vs unvalidated_itr
    end.

Definition blocks_to_write (i : index_type) : list block_state :=
  let indx := by_lib_block_num i in
  write_order (reverse (filter (λ b, validated b = true) indx)) (reverse (filter (λ b, validated b = false) indx)).

(** The file that is there after [close], and the database *)
Definition close (f : fork_database) (dat : option (list byte)) : option (list byte) * fork_database :=
  match root f with
  | None => (dat, f)
  | Some r =>
      (Some (pack_uint32 magic_number ++ pack_uint32 max_supported_version ++ pack_header_state r ++
             pack_unsigned_int (u32 (Z.of_nat (size (index f)))) ++
             concat (pack_block <$> blocks_to_write (index f)) ++
             (if head f is Some h then pack_id (bhs_id h) else [])),
       MkFork ∅ (root f) (head f))
  end.

(** ** Reading *)

Fixpoint load_blocks (n : nat) (f : fork_database) (ds : list byte) : result exn (fork_database * list byte) :=
  match n with
  | O => Ok (f, ds)
  | S n =>
      '(s, ds) ← unpack_block ds;
      exts ← validate_and_extract_header_extensions unpack_activation unpack_schedule (header (bhs_header (state s)));
      f ← add_impl f (MkBlock (set_header_exts exts (state s)) (validated s)) false true validator;
      load_blocks n f ds
  end.

(** [my->head], given by its identifier *)
Definition find_head (f : fork_database) (r : bhs) (head_id : digest) : result exn bhs :=
  if decide (bhs_id r = head_id) then Ok r
  else if get_block f head_id is Some b then Ok (state b) else Throw fork_database_exception.

(** The check that no other block should be the head *)
Definition check_head (f : fork_database) (r h : bhs) : result exn unit :=
  let other_is_better := assert_that (bool_decide (bhs_id h = bhs_id r)) fork_database_exception in
  match begin (index f) with
  | None => other_is_better
  | Some candidate =>
      if validated candidate
      then assert_that (negb (first_preferred (state candidate) h)) fork_database_exception
      else other_is_better
  end.

Definition read_content (content : list byte) : result exn fork_database :=
  '(totem, ds) ← unpack_uint32 content;
  _ ← assert_that (totem =? magic_number) fork_database_exception;
  '(version, ds) ← unpack_uint32 ds;
  _ ← assert_that ((min_supported_version <=? version) && (version <=? max_supported_version)) fork_database_exception;
  '(r, ds) ← unpack_header_state ds;
  '(n, ds) ← unpack_unsigned_int ds;
  '(f, ds) ← load_blocks (Z.to_nat n) (reset r) ds;
  '(head_id, ds) ← unpack_id ds;
  h ← find_head f r head_id;
  _ ← check_head f r h;
  Ok (MkFork (index f) (Some r) (Some h)).

(** The file that is left, and the database *)
Definition open (f : fork_database) (dat : option (list byte)) : option (list byte) * result exn fork_database :=
  match dat with
  | None => (None, Ok f)
  | Some content =>
      match read_content content with
      | Ok f => (None, Ok f)
      | Throw e => (Some content, Throw e)
      end
  end.

(** ** The order of the blocks in the file *)

(** [x] may come before [y]. *)
Definition ascending (x y : block_state) : Prop := first_preferred (state x) (state y) = false.

#[local] Instance ascending_trans : Transitive ascending.
Proof. intros x y z. unfold ascending. rewrite !first_preferred_false. lia. Qed.

#[local] Instance ascending_total : Total ascending.
Proof. intros x y. unfold ascending. rewrite !first_preferred_false. lia. Qed.

#[local] Instance ascending_dec : RelDecision ascending.
Proof. intros x y. unfold ascending. apply _. Defined.

#[local] Instance not_better_transitive : Transitive (not_better (key:=key) (signature:=signature)).
Proof. intros x y z. apply not_better_trans. Qed.

Lemma sha256_less_asym a b : sha256_less a b = true → sha256_less b a = false.
Proof.
  unfold sha256_less. rewrite <-not_true_iff_false, !orb_true_iff, !andb_true_iff, !Z.ltb_lt, !Z.eqb_eq,
    !orb_true_iff, !andb_true_iff, !Z.ltb_lt, !Z.eqb_eq, !orb_true_iff, !andb_true_iff, !Z.ltb_lt, !Z.eqb_eq. lia.
Qed.

Lemma before_asym (a b : block_state) : before a b = true → before b a = false.
Proof.
  unfold before. rewrite <-(not_true_iff_false (_ || _)), !orb_true_iff, !andb_true_iff, !orb_true_iff, !andb_true_iff,
    !Z.eqb_eq, !first_preferred_true, !negb_true_iff, !eqb_true_iff.
  pose proof (sha256_less_asym (bhs_id (state a)) (bhs_id (state b))).
  intros Hab Hba. destruct (validated a), (validated b); intuition (congruence || lia).
Qed.

Lemma by_lib_block_num_perm i : by_lib_block_num i ≡ₚ (map_to_list i).*2.
Proof. apply merge_sort_Permutation. Qed.

Lemma by_lib_block_num_sorted i : StronglySorted not_better (by_lib_block_num i).
Proof.
  apply Sorted_StronglySorted; [exact not_better_transitive|]. unfold by_lib_block_num.
  set (R := λ a b : block_state, Is_true (negb (before b a))).
  assert (Total R) as HR.
  { intros a b. unfold R. destruct (before b a) eqn:E; [right; by rewrite (before_asym _ _ E)|by left]. }
  pose proof (Sorted_merge_sort R (map_to_list i).*2) as Hs. revert Hs. generalize (merge_sort R (map_to_list i).*2). intros l Hs.
  induction Hs as [|a l Hs IH Hd]; constructor; [done|]. destruct Hd as [|b l Hab]; constructor.
  pose proof (before_not_better b a) as Hb. unfold R in Hab. by destruct (before b a).
Qed.

Lemma reverse_sorted {A} (R : A → A → Prop) (l : list A) : StronglySorted R l → StronglySorted (flip R) (reverse l).
Proof.
  induction 1 as [|a l Hl IH Ha]; [constructor|]. rewrite reverse_cons. apply StronglySorted_app_2; [|done|by repeat constructor].
  intros x y Hx Hy. rewrite elem_of_reverse in Hx. apply list_elem_of_singleton in Hy as ->. rewrite Forall_forall in Ha. exact (Ha x Hx).
Qed.

Lemma part_ascending (v : bool) i : StronglySorted ascending (reverse (filter (λ b, validated b = v) (by_lib_block_num i))).
Proof.
  pose proof (filter_sorted _ (λ b, validated b = v) _ (by_lib_block_num_sorted i)) as Hs. apply reverse_sorted in Hs.
  assert (Forall (λ b, validated b = v) (reverse (filter (λ b, validated b = v) (by_lib_block_num i)))) as Hv.
  { apply Forall_forall. intros b Hb. rewrite elem_of_reverse, list_elem_of_filter in Hb. tauto. }
  revert Hs Hv. generalize (reverse (filter (λ b, validated b = v) (by_lib_block_num i))). intros l Hs.
  induction Hs as [|a l Hl IH Ha]; [constructor|]. intros [Hva Hvl]%Forall_cons. constructor; [by apply IH|].
  rewrite Forall_forall in Ha, Hvl |- *. intros b Hb. destruct (Ha b Hb) as [_ Hab]. apply Hab. by rewrite Hva, (Hvl b Hb).
Qed.

(** The loop merges the two parts. *)
Lemma write_order_merge vs : ∀ us, write_order vs us = list_merge ascending vs us.
Proof.
  induction vs as [|v vs IH]; intros us; [by destruct us|]. induction us as [|u us IHu]; [done|].
  rewrite list_merge_cons. cbn [write_order]. case_decide as Hd.
  - unfold ascending in Hd. rewrite Hd. f_equal. apply IH.
  - unfold ascending in Hd. rewrite (not_false_is_true _ Hd). f_equal. exact IHu.
Qed.

Lemma blocks_to_write_sorted i : StronglySorted ascending (blocks_to_write i).
Proof.
  unfold blocks_to_write. rewrite write_order_merge. apply Sorted_StronglySorted; [exact ascending_trans|].
  apply Sorted_list_merge; [apply _|apply StronglySorted_Sorted, part_ascending..].
Qed.

Lemma blocks_to_write_perm i : blocks_to_write i ≡ₚ (map_to_list i).*2.
Proof.
  unfold blocks_to_write. rewrite write_order_merge, merge_Permutation, !reverse_Permutation, <-(by_lib_block_num_perm i).
  induction (by_lib_block_num i) as [|b l IH]; [done|]. rewrite !filter_cons. destruct (validated b) eqn:E.
  - rewrite decide_True, decide_False by done. cbn. by rewrite IH.
  - rewrite decide_False, decide_True by done. by rewrite <-Permutation_middle, IH.
Qed.

(** A block comes after the one it is built on. *)
Lemma parent_first i l1 b l2 p : blocks_to_write i = l1 ++ b :: l2 → p ∈ blocks_to_write i → num (state p) < num (state b) →
  lib (state p) ≤ lib (state b) → p ∈ l1.
Proof.
  intros E Hp Hn Hl. pose proof (blocks_to_write_sorted i) as Hs. rewrite E in Hs, Hp. apply elem_of_app in Hp as [?|Hp]; [done|].
  exfalso. apply StronglySorted_app_1_r, StronglySorted_cons in Hs as [Hs _]. rewrite Forall_forall in Hs.
  apply elem_of_cons in Hp as [->|Hp]; [lia|]. specialize (Hs p Hp). unfold ascending in Hs. apply first_preferred_false in Hs. lia.
Qed.

(** ** What is written is read back *)

Context (num_of : digest → Z).

(** The features that a block activates pass the check of [add]. *)
Definition activation_ok (p b : bhs) : Prop :=
  rethrow_exceptions fork_database_exception
    (match find_extension (header_exts b) activation_id with
     | Some (protocol_feature_activation l) =>
         validator (timestamp (header (bhs_header b))) (activated_protocol_features p) l
     | Some (producer_schedule_change_extension _) => Throw std_exception
     | None => Ok tt
     end) = Ok tt.

(** The extensions of each block are those of its header, and the features it activates are
    still accepted. *)
Record restorable (f : fork_database) (r : bhs) : Prop := {
  rs_size : Z.of_nat (size (index f)) < 2 ^ 32;
  rs_exts id b : index f !! id = Some b →
    validate_and_extract_header_extensions unpack_activation unpack_schedule (header (bhs_header (state b))) =
    Ok (header_exts (state b));
  rs_features id b p : index f !! id = Some b → get_block_header f r (prev (state b)) = Some p →
    activation_ok p (state b) }.

(** A database that holds the blocks of a list *)
Definition holds (l : list block_state) (i : index_type) : Prop :=
  ∀ id b, i !! id = Some b ↔ b ∈ l ∧ bhs_id (state b) = id.

Lemma restore_exts (s : bhs) : set_header_exts (header_exts s) (reflected s) = s.
Proof. by destruct s. Qed.

Section written.
Context (f : fork_database) (r h : bhs) (Hwf : wf num_of f r h) (Hrs : restorable f r).
(** Irreversible numbers do not fall along the tree. *)
Context (Hlib : ∀ id b p, index f !! id = Some b → index f !! prev (state b) = Some p → lib (state p) ≤ lib (state b)).

Lemma written_elem b : b ∈ blocks_to_write (index f) ↔ index f !! bhs_id (state b) = Some b.
Proof.
  rewrite blocks_to_write_perm, list_elem_of_fmap. split.
  - intros ([id b'] & -> & Hb%elem_of_map_to_list). cbn. by rewrite (wf_id _ _ _ _ Hwf _ _ Hb).
  - intros Hb. exists (bhs_id (state b), b). by rewrite elem_of_map_to_list.
Qed.

Lemma written_holds : holds (blocks_to_write (index f)) (index f).
Proof.
  intros id b. rewrite written_elem. split; [|by intros [Hb <-]].
  intros Hb. by rewrite (wf_id _ _ _ _ Hwf _ _ Hb).
Qed.

Lemma written_NoDup : NoDup (blocks_to_write (index f)).
Proof.
  rewrite blocks_to_write_perm. apply (NoDup_fmap_1 (λ b, bhs_id (state b))). rewrite <-list_fmap_compose.
  replace (((λ b, bhs_id (state b)) ∘ snd) <$> map_to_list (index f)) with (map_to_list (index f)).*1; [apply NoDup_fst_map_to_list|].
  apply list_fmap_ext. intros k [id b] Hk. cbn. apply list_elem_of_lookup_2, elem_of_map_to_list in Hk.
  by rewrite (wf_id _ _ _ _ Hwf _ _ Hk).
Qed.

(** One block of the file *)
Lemma add_written l1 b l2 f1 : blocks_to_write (index f) = l1 ++ b :: l2 → root f1 = Some (reflected r) → holds l1 (index f1) →
  ∃ f2, add_impl f1 b false true validator = Ok f2 ∧ root f2 = Some (reflected r) ∧ holds (l1 ++ [b]) (index f2).
Proof.
  intros E Hroot Hh. assert (b ∈ blocks_to_write (index f)) as Hb by (rewrite E, elem_of_app, elem_of_cons; tauto).
  apply written_elem in Hb.
  assert (∃ p, get_block_header f1 (reflected r) (prev (state b)) = Some p ∧ activation_ok p (state b)) as (p & Hp & Hact).
  { unfold get_block_header. cbn [bhs_id reflected set_header_exts]. destruct (decide (bhs_id r = prev (state b))) as [Er|Er].
    - exists (reflected r). split; [done|]. apply (rs_features _ _ Hrs _ _ r Hb). unfold get_block_header. by rewrite decide_True.
    - destruct (wf_linked _ _ _ _ Hwf _ _ Hb) as [?|[p Hp]]; [by destruct Er|]. exists (state p).
      assert (p ∈ l1) as Hpl.
      { apply (parent_first _ _ _ _ _ E); [apply written_elem; by rewrite (wf_id _ _ _ _ Hwf _ _ Hp)| |by apply (Hlib _ _ _ Hb)].
        destruct (wf_numbered _ _ _ _ Hwf _ _ Hb) as [[_ Hn] _], (wf_numbered _ _ _ _ Hwf _ _ Hp) as [[Hn' _] _].
        rewrite (wf_id _ _ _ _ Hwf _ _ Hp) in Hn'. lia. }
      pose proof (wf_id _ _ _ _ Hwf _ _ Hp) as Eid. unfold get_block. rewrite (proj2 (Hh (prev (state b)) p) (conj Hpl Eid)). split; [done|].
      apply (rs_features _ _ Hrs _ _ _ Hb). unfold get_block_header, get_block. by rewrite decide_False, Hp. }
  unfold add_impl. rewrite Hroot, Hp, Hact. cbn [mbind result_bind].
  destruct (index f1 !! bhs_id (state b)) as [b'|] eqn:Hb'.
  { exfalso. apply Hh in Hb' as [Hb' Eid]. assert (b' = b) as ->.
    { assert (b' ∈ blocks_to_write (index f)) as Hw by (rewrite E, elem_of_app; tauto). apply written_elem in Hw. congruence. }
    pose proof written_NoDup as Hnd. rewrite E in Hnd. apply NoDup_app in Hnd as (_ & Hnd & _). apply (Hnd b Hb'). by left. }
  eexists. split; [done|]. split; [done|]. intros id c. cbn [index]. rewrite elem_of_app, list_elem_of_singleton, lookup_insert_Some, (Hh id c).
  split; [intros [[<- <-]|[_ [? ?]]]; tauto|]. intros [[Hc| ->] <-]; [right|by left]. split; [|done].
  intros Eid. assert (index f1 !! bhs_id (state c) = Some c) as Hc' by (by apply Hh). congruence.
Qed.

Lemma load_written l2 : ∀ l1 f1 rest, blocks_to_write (index f) = l1 ++ l2 → root f1 = Some (reflected r) → holds l1 (index f1) →
  ∃ f2, load_blocks (length l2) f1 (concat (pack_block <$> l2) ++ rest) = Ok (f2, rest) ∧ index f2 = index f.
Proof.
  induction l2 as [|b l2 IH]; intros l1 f1 rest E Hroot Hh; cbn [length load_blocks fmap list_fmap concat app].
  - exists f1. split; [done|]. rewrite app_nil_r in E. subst l1. apply map_eq. intros id. apply option_eq. intros b.
    by rewrite (Hh id b), (written_holds id b).
  - destruct (add_written _ _ _ _ E Hroot Hh) as (f2 & Ha & Hroot2 & Hh2).
    assert (b ∈ blocks_to_write (index f)) as Hb by (rewrite E, elem_of_app, elem_of_cons; tauto). apply written_elem in Hb.
    rewrite <-app_assoc, unpack_pack_block. cbn [mbind result_bind state validated reflected set_header_exts bhs_header].
    rewrite (rs_exts _ _ Hrs _ _ Hb). cbn [mbind result_bind]. rewrite restore_exts.
    replace (MkBlock (state b) (validated b)) with b by (by destruct b). rewrite Ha. cbn [mbind result_bind].
    apply (IH (l1 ++ [b])); [by rewrite <-app_assoc|done|done].
Qed.

(** The head is found and accepted. *)
Lemma head_found f2 : index f2 = index f →
  ∃ h', find_head f2 (reflected r) (bhs_id h) = Ok h' ∧ check_head f2 (reflected r) h' = Ok tt ∧
    h' = if decide (bhs_id h = bhs_id r) then reflected r else h.
Proof.
  intros Ei. unfold find_head. cbn [bhs_id reflected set_header_exts]. pose proof (wf_head_in _ _ _ _ Hwf) as Hin.
  pose proof (begin_spec (index f2)) as Hbeg. unfold check_head. rewrite Ei in *.
  assert (∀ c, index f !! bhs_id (state c) = Some c → validated c = true → first_preferred (state c) h = false) as Hbest.
  { intros c. apply (wf_best _ _ _ _ Hwf). }
  destruct (decide (bhs_id r = bhs_id h)) as [E|E].
  - assert (h = r) as ->.
    { destruct Hin as [->|Hin]; [done|]. pose proof (wf_root_out _ _ _ _ Hwf). congruence. }
    exists (reflected r). split; [done|]. split; [|by rewrite decide_True].
    destruct (begin (index f)) as [c|]; [|by rewrite bool_decide_true]. destruct Hbeg as [[id Hc] _].
    destruct (validated c) eqn:Hv; [|by rewrite bool_decide_true]. specialize (Hbest c). rewrite (wf_id _ _ _ _ Hwf _ _ Hc) in Hbest.
    specialize (Hbest Hc Hv). assert (first_preferred (state c) (reflected r) = first_preferred (state c) r) as -> by done. by rewrite Hbest.
  - destruct Hin as [->|Hin]; [done|]. exists h. unfold get_block. rewrite Ei, Hin. split; [done|]. split; [|by rewrite decide_False].
    destruct (begin (index f)) as [c|]; [|by rewrite Hbeg in Hin]. destruct Hbeg as [[id Hc] Hmin].
    destruct (validated c) eqn:Hv.
    + pose proof (wf_best _ _ _ _ Hwf _ _ Hc Hv) as ->. done.
    + exfalso. destruct (Hmin _ _ Hin) as [Hvh _]. specialize (Hvh eq_refl). congruence.
Qed.

Lemma reopened f0 dat : open f0 (close f dat).1 =
  (None, Ok (MkFork (index f) (Some (reflected r)) (Some (if decide (bhs_id h = bhs_id r) then reflected r else h)))).
Proof.
  unfold close. rewrite (wf_root _ _ _ _ Hwf), (wf_head _ _ _ _ Hwf). cbn [fst open]. unfold read_content.
  rewrite unpack_pack_uint32 by (unfold magic_number; lia). cbn [mbind result_bind]. cbn [assert_that]. rewrite Z.eqb_refl. cbn [assert_that mbind result_bind].
  rewrite unpack_pack_uint32 by (unfold max_supported_version; lia). cbn [mbind result_bind].
  change (_ && _) with true. cbn [assert_that mbind result_bind].
  rewrite unpack_pack_header_state. cbn [mbind result_bind].
  pose proof (rs_size _ _ Hrs) as Hsz. rewrite unpack_pack_unsigned_int by (apply u32_range). cbn [mbind result_bind].
  rewrite u32_id by lia.
  assert (Z.to_nat (Z.of_nat (size (index f))) = length (blocks_to_write (index f))) as ->.
  { rewrite Nat2Z.id, blocks_to_write_perm, length_fmap, length_map_to_list. done. }
  destruct (load_written (blocks_to_write (index f)) [] (reset (reflected r)) (pack_id (bhs_id h))) as (f2 & -> & Ei); [done|done| |].
  { intros id b. cbn. rewrite lookup_empty, elem_of_nil. split; [done|tauto]. }
  cbn [mbind result_bind]. rewrite <-(app_nil_r (pack_id _)), unpack_pack_id. cbn [mbind result_bind].
  destruct (head_found f2 Ei) as (h' & -> & Hck & ->). cbn [mbind result_bind]. rewrite Hck. cbn [mbind result_bind]. by rewrite Ei.
Qed.
End written.

End file.

(** A format that keeps the values, to run the definitions *)
Inductive token (key signature : Type) :=
  | number_token (n : Z) | id_token (d : digest)
  | header_token (s : block_header_state key signature) | block_token (b : block_state key signature).
Arguments number_token {key signature}. Arguments id_token {key signature}.
Arguments header_token {key signature}. Arguments block_token {key signature}.

Definition unpack_number {key signature} (ds : list (token key signature)) : result exn (Z * list (token key signature)) :=
  match ds with number_token n :: ds => Ok (n, ds) | _ => Throw std_exception end.

#[global, program] Instance token_format key signature : ForkFileFormat key signature (token key signature) := {
  pack_uint32 n := [number_token n];
  unpack_uint32 := unpack_number;
  pack_unsigned_int n := [number_token n];
  unpack_unsigned_int := unpack_number;
  pack_id d := [id_token d];
  unpack_id ds := match ds with id_token d :: ds => Ok (d, ds) | _ => Throw std_exception end;
  pack_header_state s := [header_token (reflected s)];
  unpack_header_state ds := match ds with header_token s :: ds => Ok (s, ds) | _ => Throw std_exception end;
  pack_block b := [block_token (MkBlock (reflected (state b)) (validated b))];
  unpack_block ds := match ds with block_token b :: ds => Ok (b, ds) | _ => Throw std_exception end }.
Solve Obligations with done.

End ForkFile.
