(* ===== verification/Startup.v ===== *)
(** * Starting the controller

    Models how [controller.cpp] starts a node: from a snapshot, from a genesis state, or from
    the state that a previous run left ([startup], [init]), with the replay of the blocks of
    the log and of the reversible blocks ([replay], [replay_push_block]).  The state of the
    controller and what applies blocks are those of [ForkSwitch].  The contents of the
    database are abstract; the class [StateTables] is what [init] reads and writes of them.
    The manager of protocol features, signals and the cache of web assembly are left out. *)

From S2P Require Import Prelude.
From S2P Require Import Exceptions.
From S2P Require Import Timestamp.
From S2P Require Import Merkle.
From S2P Require Import Authority.
From S2P Require Import BlockHeader.
From S2P Require Import BlockHeaderState.
From S2P Require Import ForkDatabase.
From S2P Require Import ForkSwitch.
From S2P Require Import ForkFile.

Local Open Scope Z_scope.

Module Startup.
Import ProducerSchedule BlockHeader BlockHeaderState ForkDatabase ForkSwitch.

(** [chainbase::database::set_revision], which throws when there are undo sessions *)
Class RevisionDatabase (D S : Type) `{UndoDatabase D S} := {
  set_revision : Z → D → D;
  set_revision_contents n d : contents (set_revision n d) = contents d;
  set_revision_undo n d : undo_states (set_revision n d) = undo_states d;
  set_revision_revision n d : revision (set_revision n d) = n }.

(** The version in the [database_header_object], the chain in the [global_property_object],
    and [initialize_database] *)
Class StateTables (S : Type) := {
  header_version : S → option Z;
  set_header_version : Z → S → S;
  state_chain_id : S → digest;
  initialize_database : S → S }.

(** [database_header_object] *)
Definition current_version : Z := 2.
Definition minimum_version : Z := 2.
Definition validate_version (version : Z) : result exn unit :=
  assert_that (Z.max minimum_version (Z.min version current_version) =? version) bad_database_version_exception.

(** ** The genesis block *)

(** The parts of [genesis_state] that make up the first block *)
Record genesis_state (key : Type) := MkGenesis {
  initial_timestamp : Z;
  initial_producer_list : list (producer_key key);
  compute_chain_id : digest }.
Arguments MkGenesis {key}. Arguments initial_timestamp {key}.
Arguments initial_producer_list {key}. Arguments compute_chain_id {key}.

Section genesis.
Context {key signature : Type}.
Context (digest_of : block_header key → digest) (endian_reverse_u32 : Z → Z).
Context (hash_schedule : producer_schedule_type key → digest) (no_signature : signature).

(** The first lines of [initialize_blockchain_state]; the producers are those of the
    configuration, [conf.genesis]. *)
Definition genesis_head (conf_genesis genesis : genesis_state key) : block_header_state key signature :=
  let initial_schedule := MkLegacySchedule 0 (initial_producer_list conf_genesis) in
  let header := MkHeader (Timestamp.set_time_point (initial_timestamp genesis)) 0 1 Merkle.zero_digest Merkle.zero_digest
    (compute_chain_id genesis) 0 None [] in
  MkBhs (MkCommon (BlockHeader.block_num endian_reverse_u32 header) 0 0 (upgrade initial_schedule)
           Merkle.empty_merkle ∅ ∅ (MkBsa 0 []) [])
    (BlockHeader.id digest_of endian_reverse_u32 header) (MkSigned header no_signature)
    (MkScheduleInfo 0 (hash_schedule initial_schedule) (upgrade initial_schedule)) ∅ [] [].
End genesis.

Section startup.
Context {key signature D S : Type} `{PublicKey key} `{RevisionDatabase D S, !StateTables S}.

Notation bhs := (block_header_state key signature).
Notation controller := (controller (key:=key) (signature:=signature) (D:=D)).
Notation M := (M (key:=key) (signature:=signature) (D:=D)).

(** As in [ForkSwitch]; [abandoned] is what a failed execution leaves in the database when
    no session undoes it. *)
Context (execute : S → bhs → bhs → block_status → result exn S).
Context (abandoned : S → bhs → bhs → S).
Context (read_mode : db_read_mode).
(** [conf.disable_replay_opts], and the identifier of the chain the node is configured for *)
Context (disable_replay_opts : bool) (chain_id : digest).
(** The constructor of [block_state]: the state of the block of a given state on another
    head *)
Context (block_state_of : bhs → bhs → result exn bhs).
(** [validate_db_available_size] and [validate_reversible_available_size], and whether the
    node is asked to stop *)
Context (validate_available_size : controller → result exn unit) (shutdown : controller → bool).

Definition set_replay_head_time (t : option Z) (c : controller) : controller :=
  MkController (db c) (reversible_blocks c) (blog c) (first_block_num c) (pending c) (chain_head c) (fork_db c) t.
Definition set_log (l : list bhs) (first : Z) (c : controller) : controller :=
  MkController (db c) (reversible_blocks c) l first (pending c) (chain_head c) (fork_db c) (replay_head_time c).

Definition revise (n : Z) : M unit :=
  u ← read (λ c, undo_states (db c));
  _ ← ensure (match u with [] => true | _ => false end) std_exception;
  update (λ c, set_db (set_revision n (db c)) c).

(** ** Replaying blocks *)

(** [skip_db_sessions( block_status::irreversible )]; no transaction is being checked. *)
Definition skip_db_sessions : bool := negb disable_replay_opts.

(** [apply_block] with the status [irreversible].  Without a session a failed block is not
    undone; [commit_block] only ends the pending block, since [replay_head_time] is set. *)
Definition apply_irreversible (b : bhs) : M unit :=
  if skip_db_sessions then
    p ← read pending;
    _ ← ensure (bool_decide (p = None)) block_validate_exception;
    c ← ask;
    match execute (contents (db c)) (chain_head c) b irreversible with
    | Ok x => update (set_db (modify x (db c)))
    | Throw e =>
        _ ← update (set_db (modify (abandoned (contents (db c)) (chain_head c) b) (db c)));
        throw e
    end
  else apply_block execute read_mode b irreversible.

Definition replay_push_block (b : bhs) (s : block_status) : M unit :=
  c ← ask;
  _ ← lift (validate_available_size c);
  _ ← ensure (bool_decide (pending c = None)) block_validate_exception;
  _ ← ensure (match s with irreversible | validated_block => true | _ => false end) block_validate_exception;
  bsp ← lift (block_state_of (chain_head c) b);
  match s with
  | irreversible =>
      _ ← apply_irreversible bsp;
      _ ← update (set_chain_head bsp);
      if skip_db_sessions then mret tt else update (λ c, set_db (commit (num bsp) (db c)) c)
  | _ =>
      _ ← on_fork (λ fork, Some (add fork (MkBlock bsp false) true));
      _ ← ensure (bool_decide (read_mode ≠ IRREVERSIBLE)) block_validate_exception;
      maybe_switch_forks execute read_mode bsp s
  end.

(** [blog.read_block_by_num] *)
Definition read_block_by_num (n : Z) : M (option bhs) :=
  b ← read (λ c, if first_block_num c <=? n then blog c !! Z.to_nat (n - first_block_num c) else None);
  match b with
  | None => mret None
  | Some b => _ ← ensure (num b =? n) reversible_blocks_exception; mret (Some b)
  end.

(** The loop over the log: it ends after the last block, or when the node is asked to stop
    at a multiple of 500 blocks. *)
Fixpoint replay_log (fuel : nat) : M unit :=
  match fuel with
  | O => undefined
  | Datatypes.S fuel =>
      h ← read chain_head;
      next ← read_block_by_num (u32 (num h + 1));
      match next with
      | None => mret tt
      | Some b =>
          _ ← replay_push_block b irreversible;
          stop ← read (λ c, (num b mod 500 =? 0) && shutdown c);
          if (stop : bool) then mret tt else replay_log fuel
      end
  end.

(** The root of the fork database becomes the last irreversible block. *)
Definition advance_fork_root : M unit :=
  c ← ask;
  match pending_head (fork_db c), root (fork_db c) with
  | Some (Some ph), Some r =>
      let head := chain_head c in
      if (num ph <? num head) || (num head <? num r) then update (set_fork_db (reset head))
      else if num head =? num r then mret tt
      else
        match search_on_branch (fork_db c) (bhs_id ph) (num head) with
        | None => undefined
        | Some None => throw fork_database_exception
        | Some (Some new_root) => _ ← fork_mark_valid new_root; fork_advance_root (bhs_id new_root)
        end
  | _, _ => undefined
  end.

(** The loop over the reversible blocks *)
Fixpoint replay_reversible (fuel : nat) : M unit :=
  match fuel with
  | O => undefined
  | Datatypes.S fuel =>
      obj ← read (λ c, reversible_blocks c !! u32 (num (chain_head c) + 1));
      match obj with
      | None => mret tt
      | Some b => _ ← replay_push_block b validated_block; replay_reversible fuel
      end
  end.

(** The blocks of the log; a full database stops the replay with the exception that is
    returned. *)
Definition replay_irreversible : M (option exn) :=
  n ← read (λ c, length (blog c));
  except ← catch (_ ← replay_log (Datatypes.S n); mret None)
    (λ e, if is_a e database_guard_exception then mret (Some e) else throw e);
  _ ← advance_fork_root;
  _ ← (if skip_db_sessions then h ← read chain_head; revise (num h) else mret tt);
  mret except.

Definition replay : M unit :=
  c ← ask;
  match last (blog c) with
  | None => undefined
  | Some blog_head =>
      _ ← update (set_replay_head_time (Some (Timestamp.to_time_point (timestamp (header (bhs_header blog_head))))));
      let start_block_num := u32 (num (chain_head c) + 1) in
      except ← (if start_block_num <=? num blog_head then replay_irreversible else mret None);
      c ← ask;
      _ ← (if bool_decide (except = None) && negb (shutdown c)
           then replay_reversible (Datatypes.S (size (reversible_blocks c))) else mret tt);
      _ ← update (set_replay_head_time None);
      match except with Some e => throw e | None => mret tt end
  end.

(** ** Initialization *)

(** [blog.reset( chain_id, first_block_num )] *)
Definition reset_log (first : Z) : M unit :=
  _ ← ensure (1 <? first) block_log_exception;
  update (set_log [] first).

(** [validate_db_version], the check of the chain, and the upgrade of the version *)
Definition validate_state : M unit :=
  c ← ask;
  match header_version (contents (db c)) with
  | None => throw bad_database_version_exception
  | Some v =>
      _ ← lift (validate_version v);
      _ ← ensure (bool_decide (state_chain_id (contents (db c)) = chain_id)) chain_id_type_exception;
      if v =? current_version then mret tt
      else update (λ c, set_db (modify (set_header_version current_version (contents (db c))) (db c)) c)
  end.

(** Pending changes are undone.  [undo] without a session changes nothing, so that the loop
    does not end when the sessions do not suffice. *)
Fixpoint undo_to (fuel : nat) (n : Z) : M unit :=
  ahead ← read (λ c, n <? revision (db c));
  if (ahead : bool) then
    match fuel with
    | O => undefined
    | Datatypes.S fuel => _ ← update (λ c, set_db (undo (db c)) c); undo_to fuel n
    end
  else mret tt.

(** The numbers of the first and the last reversible block *)
Definition first_number (m : gmap Z bhs) : option Z :=
  foldr (λ k acc, Some (from_option (Z.min k) k acc)) None (map_to_list m).*1.
Definition last_number (m : gmap Z bhs) : option Z :=
  foldr (λ k acc, Some (from_option (Z.max k) k acc)) None (map_to_list m).*1.

(** The checks of the reversible blocks against the best block of the fork database *)
Definition check_pending_head (lib_num last_block_num : Z) : M unit :=
  c ← ask;
  match pending_head (fork_db c) with
  | Some (Some ph) =>
      match last_number (reversible_blocks c) with
      | None => mret tt
      | Some l =>
          if (lib_num <? num ph) && (num ph <=? last_block_num) then
            match reversible_blocks c !! num ph with
            | None => throw reversible_blocks_exception
            | Some b => ensure (bool_decide (bhs_id b = bhs_id ph)) reversible_blocks_exception
            end
          else if last_block_num <? num ph then
            match search_on_branch (fork_db c) (bhs_id ph) last_block_num, reversible_blocks c !! l with
            | Some (Some b), Some rb => ensure (bool_decide (bhs_id rb = bhs_id b)) reversible_blocks_exception
            | Some None, _ => throw fc_assert_exception
            | _, _ => undefined
            end
          else mret tt
      end
  | _ => undefined
  end.

(** The reversible blocks are cleaned up; the number of the last block that is stored is
    returned. *)
Definition prepare_reversible (lib_num : Z) : M Z :=
  if decide (read_mode = IRREVERSIBLE) then _ ← update (set_reversible ∅); mret lib_num
  else
    _ ← trim_reversible lib_num;
    first ← read (λ c, first_number (reversible_blocks c));
    _ ← ensure (match first with None => true | Some n => n =? u32 (lib_num + 1) end) reversible_blocks_exception;
    last_block_num ← read (λ c, default lib_num (last_number (reversible_blocks c)));
    h ← read chain_head;
    _ ← ensure (num h <=? last_block_num) reversible_blocks_exception;
    _ ← check_pending_head lib_num last_block_num;
    mret last_block_num.

(** The loop that applies the best branch of the fork database *)
Fixpoint apply_best_branch (fuel : nat) : M unit :=
  c ← ask;
  match pending_head (fork_db c), head (fork_db c) with
  | Some (Some ph), Some h =>
      if decide (bhs_id ph = bhs_id h) then mret tt
      else
        match fuel with
        | O => undefined
        | Datatypes.S fuel => _ ← maybe_switch_forks execute read_mode ph complete; apply_best_branch fuel
        end
  | _, _ => undefined
  end.

(** The end of [init]: the read mode may have changed from irreversible. *)
Definition leave_irreversible_mode : M unit :=
  c ← ask;
  if decide (read_mode = IRREVERSIBLE) then mret tt
  else
    match pending_head (fork_db c), head (fork_db c), root (fork_db c) with
    | Some (Some ph), Some h, Some r =>
        if bool_decide (bhs_id ph ≠ bhs_id h) && bool_decide (bhs_id h = bhs_id r)
        then apply_best_branch (size (index (fork_db c))) else mret tt
    | _, _, _ => undefined
    end.

Definition lib_number (c : controller) : option Z :=
  match last (blog c) with
  | Some b => Some (num b)
  | None => num <$> root (fork_db c)
  end.

Definition init : M unit :=
  n ← read lib_number;
  match n with
  | None => undefined
  | Some lib_num =>
      _ ← validate_state;
      c ← ask;
      _ ← ensure (num (chain_head c) <=? revision (db c)) fork_database_exception;
      _ ← undo_to (length (undo_states (db c))) (num (chain_head c));
      last_block_num ← prepare_reversible lib_num;
      h ← read chain_head;
      _ ← (if num h <? last_block_num then replay else mret tt);
      stop ← read shutdown;
      if (stop : bool) then mret tt else leave_irreversible_mode
  end.

(** The fork database of a node that no longer keeps reversible blocks *)
Definition roll_back_forks : M unit :=
  c ← ask;
  match head (fork_db c), root (fork_db c) with
  | Some h, Some r =>
      if bool_decide (read_mode = IRREVERSIBLE) && bool_decide (bhs_id h ≠ bhs_id r)
      then update (set_fork_db (rollback_head_to_root (fork_db c))) else mret tt
  | _, _ => undefined
  end.

(** [startup( shutdown )]: from the state of an earlier run *)
Definition startup_existing : M unit :=
  c ← ask;
  _ ← ensure (1 <=? revision (db c)) database_exception;
  match head (fork_db c), root (fork_db c) with
  | None, _ => throw fork_database_exception
  | Some _, None => undefined
  | Some _, Some r =>
      let lib_num := num r in
      _ ← match last (blog c) with
          | Some b => ensure ((first_block_num c <=? lib_num) && (lib_num <=? num b)) block_log_exception
          | None => if first_block_num c =? u32 (lib_num + 1) then mret tt else reset_log (u32 (lib_num + 1))
          end;
      _ ← roll_back_forks;
      h ← read (λ c, head (fork_db c));
      match h with
      | None => undefined
      | Some h => _ ← update (set_chain_head h); init
      end
  end.

(** [startup( shutdown, genesis )]: from the first block, which is given *)
Definition startup_genesis (genesis_chain_id : digest) (genesis_block : bhs) : M unit :=
  c ← ask;
  _ ← ensure (revision (db c) <? 1) database_exception;
  _ ← ensure (bool_decide (genesis_chain_id = chain_id)) chain_id_type_exception;
  _ ← (if head (fork_db c) is Some _ then roll_back_forks else mret tt);
  _ ← update (set_chain_head genesis_block);
  _ ← revise (num genesis_block);
  _ ← update (λ c, set_db (modify (initialize_database (contents (db c))) (db c)) c);
  f ← read (λ c, head (fork_db c));
  _ ← match f with Some _ => mret tt | None => update (set_fork_db (reset genesis_block)) end;
  _ ← match last (blog c) with
      | Some _ => ensure (first_block_num c =? 1) block_log_exception
      | None => update (set_log [genesis_block] 1)
      end;
  init.

(** [startup( shutdown, snapshot )]: [snapshot] is the head and the contents that the
    snapshot holds, when it is valid. *)
Definition read_from_snapshot (snapshot : result exn (bhs * S)) (blog_start blog_end : Z) : M unit :=
  '(h, s) ← lift snapshot;
  _ ← ensure ((blog_start <=? u32 (num h + 1)) && (num h <=? blog_end)) block_log_exception;
  _ ← update (λ c, set_chain_head h (set_fork_db (reset h) c));
  _ ← update (λ c, set_db (modify s (db c)) c);
  revise (num h).

Definition startup_snapshot (snapshot : result exn (bhs * S)) : M unit :=
  c ← ask;
  _ ← match last (blog c) with
      | Some b => read_from_snapshot snapshot (first_block_num c) (num b)
      | None =>
          _ ← read_from_snapshot snapshot 0 UINT32_MAX;
          h ← read chain_head;
          _ ← ensure (0 <? num h) snapshot_exception;
          reset_log (u32 (num h + 1))
      end;
  init.

(** ** The rows of the reversible blocks *)

Context (num_of : digest → Z).

(** The fold of a choice that is best for [R] *)
Lemma fold_best (R : Z → Z → Prop) `{!PreOrder R} (f : Z → Z → Z) (m : gmap Z bhs) :
  (∀ a b, (f a b = a ∨ f a b = b) ∧ R (f a b) a ∧ R (f a b) b) →
  match foldr (λ k acc, Some (from_option (f k) k acc)) None (map_to_list m).*1 with
  | None => m = ∅
  | Some n => is_Some (m !! n) ∧ ∀ k, is_Some (m !! k) → R n k
  end.
Proof.
  intros Hf. assert (∀ k, is_Some (m !! k) ↔ k ∈ (map_to_list m).*1) as Hk.
  { intros k. rewrite list_elem_of_fmap. split.
    - intros [b Hb]. exists (k, b). by rewrite elem_of_map_to_list.
    - intros ([k' b] & -> & Hb%elem_of_map_to_list). by exists b. }
  destruct (foldr _ _ _) as [n|] eqn:E.
  - setoid_rewrite Hk. clear Hk. revert n E. generalize (map_to_list m).*1. intros l. induction l as [|k l IH]; [done|]. cbn.
    intros n [= <-]. destruct (foldr _ None l) as [n|] eqn:El; cbn.
    + destruct (IH n eq_refl) as [Hn Hmin]. destruct (Hf k n) as (He & Hfk & Hfn). split; [destruct He as [->| ->]; [by left|by right]|].
      intros j [->|Hj]%elem_of_cons; [done|]. etrans; [exact Hfn|by apply Hmin].
    + destruct l; [|done]. split; [by left|]. by intros j ->%list_elem_of_singleton.
  - destruct (map_to_list m).*1 as [|k l] eqn:El; [|done]. apply fmap_nil_inv in El. by apply map_to_list_empty_iff.
Qed.

Lemma first_number_spec (m : gmap Z bhs) : match first_number m with
  | None => m = ∅
  | Some n => is_Some (m !! n) ∧ ∀ k, is_Some (m !! k) → n ≤ k
  end.
Proof. apply (fold_best Z.le). intros a b. lia. Qed.

Lemma last_number_spec (m : gmap Z bhs) : match last_number m with
  | None => m = ∅
  | Some n => is_Some (m !! n) ∧ ∀ k, is_Some (m !! k) → k ≤ n
  end.
Proof. apply (fold_best (flip Z.le)). intros a b. unfold flip. lia. Qed.

(** A root that has a number of 32 bits *)
Definition numbered_root (r : bhs) : Prop := num_of (bhs_id r) = num r ∧ 0 ≤ num r.

Lemma linked_num (r : bhs) l : numbered_root r → linked num_of r l →
  num (top r l) = num r + Z.of_nat (length l) ∧ num_of (bhs_id (top r l)) = num (top r l).
Proof.
  intros [Hr H0r]. induction l as [|b l IH]; cbn [linked top length]; [split; [lia|done]|].
  intros (Hp & [Hb Hn] & _ & Hl). destruct (IH Hl) as [E1 E2]. split; [|done]. rewrite Hn, Hp, E2, E1. lia.
Qed.

Lemma linked_elem (r : bhs) l b : numbered_root r → linked num_of r l → b ∈ l → num r < num b ≤ num (top r l).
Proof.
  intros Hr Hl Hb. apply list_elem_of_split in Hb as (l1 & l2 & ->). pose proof (linked_num _ _ Hr Hl) as [E _].
  apply linked_app in Hl as [Hl1 Hl2]. pose proof (linked_num _ _ Hr Hl2) as [E2 _]. cbn [top length] in E2.
  rewrite top_app in *. cbn [top] in *. rewrite length_app in E. cbn in E. lia.
Qed.

Lemma linked_lib (r : bhs) l b : linked num_of r l → b ∈ l → lib r ≤ lib b ≤ lib (top r l).
Proof.
  intros Hl Hb. apply list_elem_of_split in Hb as (l1 & l2 & ->).
  assert (∀ (r : bhs) l, linked num_of r l → lib r ≤ lib (top r l)) as Hmono.
  { clear. intros r l. induction l as [|b l IH]; cbn; [lia|]. intros (_ & _ & Hb & Hl). specialize (IH Hl). lia. }
  apply linked_app in Hl as [Hl1 Hl2]. apply Hmono in Hl1, Hl2. rewrite top_app. cbn [top] in *. lia.
Qed.

Definition rows (c : controller) (l : list bhs) : Prop :=
  ∀ n b, reversible_blocks c !! n = Some b ↔ b ∈ l ∧ num b = n.

(** The rows of a chain over the root *)
Section chain_rows.
Context (c : controller) (r : bhs) (l : list bhs).
Context (Hr : numbered_root r) (Hl : linked num_of r l) (Hrows : rows c l) (Hmax : num (top r l) < UINT32_MAX).

Lemma row_range n : is_Some (reversible_blocks c !! n) → num r < n ≤ num (top r l).
Proof. intros [b [Hb <-]%Hrows]. by eapply linked_elem. Qed.

Lemma rows_trimmed : filter (λ p, num r < p.1) (reversible_blocks c) = reversible_blocks c.
Proof. apply map_filter_id. intros n b Hb. cbn. eapply row_range. by eexists. Qed.

Lemma rows_first : match first_number (reversible_blocks c) with None => true | Some n => n =? u32 (num r + 1) end = true.
Proof.
  pose proof (first_number_spec (reversible_blocks c)) as Hf. destruct (first_number _) as [n|]; [|done].
  destruct Hf as [Hn Hmin]. pose proof (row_range n Hn). destruct Hr as [_ H0r]. unfold UINT32_MAX in Hmax.
  rewrite u32_id by lia. apply Z.eqb_eq. destruct l as [|b l0 _] eqn:El using rev_ind; [cbn in *; lia|].
  assert (is_Some (reversible_blocks c !! num b)) as Hb.
  { exists b. apply Hrows. split; [|done]. apply elem_of_app. right. by left. }
  apply Hmin in Hb. apply linked_app in Hl as [_ Hl2]. pose proof (linked_num _ _ Hr Hl2) as [E _]. cbn in E. lia.
Qed.

Lemma rows_last : default (num r) (last_number (reversible_blocks c)) = num (top r l).
Proof.
  pose proof (last_number_spec (reversible_blocks c)) as Hf. pose proof row_range as Hrange.
  destruct (last_number _) as [n|]; cbn [from_option]; unfold Datatypes.id.
  - destruct Hf as [Hn Hmaxn]. pose proof (Hrange n Hn). destruct l as [|b l0]; cbn in *; [lia|].
    specialize (Hmaxn (num b)). cut (num b ≤ n); [lia|]. apply Hmaxn. exists b. apply Hrows. split; [by left|done].
  - destruct l as [|b l0]; [done|]. exfalso. assert (reversible_blocks c !! num b = Some b) as Hb by (apply Hrows; split; [by left|done]).
    by rewrite Hf in Hb.
Qed.

Lemma rows_none : last_number (reversible_blocks c) = None ↔ l = [].
Proof.
  clear Hmax. pose proof (last_number_spec (reversible_blocks c)) as Hf. pose proof row_range as Hrange. destruct (last_number _) as [n|].
  - split; [done|]. intros ->. destruct Hf as [Hn _]. apply Hrange in Hn. cbn in Hn. lia.
  - split; [|done]. intros _. destruct l as [|b l0]; [done|]. exfalso.
    assert (reversible_blocks c !! num b = Some b) as Hb by (apply Hrows; split; [by left|done]). by rewrite Hf in Hb.
Qed.

Lemma prepare_reversible_eval : read_mode ≠ IRREVERSIBLE → num (chain_head c) ≤ num (top r l) →
  prepare_reversible (num r) c = (_ ← check_pending_head (num r) (num (top r l)); mret (num (top r l))) c.
Proof.
  intros Hmode Hh. unfold prepare_reversible. rewrite decide_False by done. unfold trim_reversible.
  cbv [mbind M_bind update read]. rewrite rows_trimmed.
  replace (set_reversible (reversible_blocks c) c) with c by (by destruct c).
  unfold ensure. rewrite rows_first. cbv [mret M_ret]. rewrite rows_last. cbv beta.
  rewrite (proj2 (Z.leb_le _ _)) by done. done.
Qed.
End chain_rows.

(** ** The steps of [init] *)

Context (Hmode : read_mode ≠ IRREVERSIBLE).

(** The tables are those of this chain and of this version. *)
Definition state_ok (s : S) : Prop := header_version s = Some current_version ∧ state_chain_id s = chain_id.

Lemma validate_state_eval c : state_ok (contents (db c)) → validate_state c = Some (c, Ok tt).
Proof.
  intros [Hv Hc]. unfold validate_state. cbv [mbind M_bind ask]. rewrite Hv. cbv [lift]. cbn. unfold ensure.
  rewrite bool_decide_true by done. done.
Qed.

(** What [init] does after the database is back at the head *)
Definition init_rest (r : bhs) (l : list bhs) : M unit :=
  _ ← check_pending_head (num r) (num (top r l));
  h ← read chain_head;
  _ ← (if num h <? num (top r l) then replay else mret tt);
  stop ← read shutdown;
  if (stop : bool) then mret tt else leave_irreversible_mode.

Lemma init_eval c c1 r l : lib_number c = Some (num r) → state_ok (contents (db c)) → num (chain_head c) ≤ revision (db c) →
  undo_to (length (undo_states (db c))) (num (chain_head c)) c = Some (c1, Ok tt) → chain_head c1 = chain_head c →
  numbered_root r → linked num_of r l → rows c1 l → num (top r l) < UINT32_MAX → num (chain_head c) ≤ num (top r l) →
  init c = init_rest r l c1.
Proof.
  intros Hlib Hst Hrev Hundo Eh Hr Hl Hrows Hmax Hh. unfold init. cbv [mbind M_bind read]. rewrite Hlib, validate_state_eval by done.
  cbv [ask]. unfold ensure. rewrite (proj2 (Z.leb_le _ _)) by done. cbv [mret M_ret]. rewrite Hundo.
  rewrite (prepare_reversible_eval c1 r l) by (done || congruence). unfold init_rest. cbv [mbind M_bind read].
  destruct (check_pending_head (num r) (num (top r l)) c1) as [[c2 [[]|e]]|]; done.
Qed.

(** Nothing is to be undone, or the session of a pending block is. *)
Lemma undo_to_eval c : pending c = None → revision (db c) = num (chain_head c) →
  undo_to (length (undo_states (db c))) (num (chain_head c)) c = Some (c, Ok tt).
Proof.
  intros _ Hr. assert (num (chain_head c) <? revision (db c) = false) as E by (apply Z.ltb_ge; lia).
  destruct (length (undo_states (db c))); cbn [undo_to]; cbv [mbind M_bind read]; by rewrite E.
Qed.

Lemma undo_session_eval c s u : undo_states (db c) = s :: u → revision (db c) = num (chain_head c) + 1 →
  undo_to (length (undo_states (db c))) (num (chain_head c)) c = Some (set_db (undo (db c)) c, Ok tt).
Proof.
  intros Hu Hr. rewrite Hu. cbn [length undo_to]. cbv [mbind M_bind read update].
  assert (num (chain_head c) <? revision (db c) = true) as -> by (apply Z.ltb_lt; lia).
  assert (num (chain_head c) <? revision (undo (db c)) = false) as E by (rewrite (undo_revision _ _ _ Hu); apply Z.ltb_ge; lia).
  destruct (length u); cbn [undo_to]; cbv [mbind M_bind read]; cbn [db set_db]; by rewrite E.
Qed.

(** The best block is the head when no block is preferred to it. *)
Lemma pending_head_is_head (f : fork_database key signature) h : head f = Some h →
  (∀ id s, index f !! id = Some s → first_preferred (state s) h = false) → pending_head f = Some (Some h).
Proof.
  intros Hh Hbest. unfold pending_head. pose proof (lower_bound_false_spec (index f)) as Hlb.
  destruct (lower_bound_false (index f)) as [b|]; rewrite Hh; [|done]. destruct Hlb as [[id Hb] _].
  cbn. by rewrite (Hbest _ _ Hb).
Qed.

Lemma stay_in_mode c h : head (fork_db c) = Some h → pending_head (fork_db c) = Some (Some h) → is_Some (root (fork_db c)) →
  leave_irreversible_mode c = Some (c, Ok tt).
Proof.
  intros Hh Hp [r Hr]. unfold leave_irreversible_mode. cbv [mbind M_bind ask]. rewrite decide_False, Hp, Hh, Hr by done.
  rewrite (bool_decide_false (bhs_id h ≠ bhs_id h)) by tauto. done.
Qed.

(** ** Restarting a node *)

Section restart.
(** The extensions of the head are not used by the blocks built on it. *)
Context (Hexts : ∀ s p b st, execute s (ForkFile.reflected p) b st = execute s p b st).

Notation reflected := ForkFile.reflected.

Lemma chain_reflected (i : gmap digest (block_state key signature)) r l : chain i (reflected r) l ↔ chain i r l.
Proof. induction l as [|b l IH]; [done|]. cbn [chain]. rewrite IH. by destruct l. Qed.

Lemma follows_reflected r base l cur u : follows execute (reflected r) base l cur u ↔ follows execute r base l cur u.
Proof.
  revert cur u. induction l as [|b l IH]; intros cur [|s u]; cbn [follows]; try done. rewrite IH. destruct l; cbn [top]; [by rewrite Hexts|done].
Qed.

Lemma linked_reflected (r : bhs) l : linked num_of (reflected r) l ↔ linked num_of r l.
Proof. induction l as [|b l IH]; [done|]. cbn [linked]. rewrite IH. by destruct l. Qed.

Lemma top_num_reflected (r : bhs) l : num (top (reflected r) l) = num (top r l) ∧ bhs_id (top (reflected r) l) = bhs_id (top r l) ∧
  lib (top (reflected r) l) = lib (top r l).
Proof. by destruct l. Qed.

Lemma tree_reflected (f f' : fork_database key signature) r base : index f' = index f → tree execute f r base → tree execute f' (reflected r) base.
Proof.
  intros Ei [Htl Htv]. split; intros b l; rewrite Ei, chain_reflected; intros Hc.
  - destruct (top_num_reflected r l) as (_ & _ & ->). by apply Htl.
  - intros Hb. destruct (Htv b l Hc Hb) as [Hv (cur & u & Hf)]. split; [done|]. exists cur, u. by apply follows_reflected.
Qed.

(** The head of the fork database as it is read back *)
Definition reread (r h : bhs) : bhs := if decide (bhs_id h = bhs_id r) then reflected r else h.

Lemma wf_reread (f : fork_database key signature) r h : wf num_of f r h → wf num_of (MkFork (index f) (Some (reflected r)) (Some (reread r h))) (reflected r) (reread r h).
Proof.
  intros Hwf. assert (bhs_id h = bhs_id r → h = r) as Hid.
  { intros E. destruct (wf_head_in _ _ _ _ Hwf) as [->|Hh]; [done|]. rewrite E, (wf_root_out _ _ _ _ Hwf) in Hh. done. }
  split; cbn [index root head]; try done.
  - apply (wf_root_num _ _ _ _ Hwf).
  - apply (wf_id _ _ _ _ Hwf).
  - apply (wf_numbered _ _ _ _ Hwf).
  - apply (wf_linked _ _ _ _ Hwf).
  - unfold reread. case_decide as E; [by left|]. right. destruct (wf_head_in _ _ _ _ Hwf) as [->|Hh]; done.
  - intros id b Hb Hv. pose proof (wf_best _ _ _ _ Hwf _ _ Hb Hv) as Hbest. unfold reread. case_decide as E; [|done].
    by rewrite (Hid E) in Hbest.
Qed.

Lemma reread_top (f : fork_database key signature) r h l : wf num_of f r h → chain (index f) r l → h = top r l ↔ reread r h = top (reflected r) l.
Proof.
  intros Hwf Hc. unfold reread. destruct l as [|b l]; cbn [top].
  - split; [intros ->; by rewrite decide_True|]. case_decide as E; [|by intros ->].
    intros _. destruct (wf_head_in _ _ _ _ Hwf) as [->|Hh]; [done|]. rewrite E, (wf_root_out _ _ _ _ Hwf) in Hh. done.
  - destruct Hc as ([v Hb] & _). split.
    + intros ->. rewrite decide_False; [done|]. intros E. by rewrite E, (wf_root_out _ _ _ _ Hwf) in Hb.
    + case_decide as E; [|done]. intros Eb. rewrite <-Eb in Hb. cbn in Hb. by rewrite (wf_root_out _ _ _ _ Hwf) in Hb.
Qed.

(** A node that starts with the files of the controller [c] and the fork database that was
    read; the head is not set yet. *)
Definition restarted (c : controller) (f : fork_database key signature) (h : bhs) : controller :=
  MkController (db c) (reversible_blocks c) (blog c) (first_block_num c) None h f None.

(** The controller is in sync after its fork database was written and read back. *)
Lemma reread_in_sync c r base l hf h : in_sync execute num_of c r base l → wf num_of (fork_db c) r hf → h = top (reflected r) l →
  in_sync execute num_of (restarted c (MkFork (index (fork_db c)) (Some (reflected r)) (Some (reread r hf))) h) (reflected r) base l.
Proof.
  intros [[hf0 [Hs Hv Ht _]] [Hn Hlast] Hroot Hbest] Hwf ->. pose proof (wf_reread _ _ _ Hwf) as Hwf'. destruct Hs as [Hp _ Hc Hh Hf Hrev Hrows Hlive].
  destruct (top_num_reflected r l) as (En & Eid & El).
  split; [exists (reread r hf)|split; done|done|].
  - split; [|done|by apply (tree_reflected (fork_db c))|done]. split; cbn; try done; [by eexists|by apply chain_reflected|by apply follows_reflected|].
    by rewrite Hrev, Hh, En.
  - intros id s Hid. cbn in *. specialize (Hbest id s Hid). rewrite Hh in Hbest. revert Hbest. rewrite !first_preferred_false, En, El. done.
Qed.

(** [startup] up to [init] *)
Lemma startup_existing_eval c f r h h0 : root f = Some r → head f = Some h → 1 ≤ revision (db c) → log_ok c r → 0 ≤ num r < UINT32_MAX →
  startup_existing (restarted c f h0) = init (restarted c f h).
Proof.
  intros Hr Hh Hrev [Hn Hlast] Hmax. unfold UINT32_MAX in Hmax. unfold startup_existing. cbv [mbind M_bind ask].
  cbn [db restarted fork_db blog first_block_num]. unfold ensure.
  rewrite (proj2 (Z.leb_le _ _)) by done. cbv [mret M_ret]. rewrite Hh, Hr.
  assert (∀ c1 : controller, match last (blog c) with
    | Some b => if (first_block_num c <=? num r) && (num r <=? num b) then mret tt else throw block_log_exception
    | None => if first_block_num c =? u32 (num r + 1) then mret tt else reset_log (u32 (num r + 1))
    end c1 = Some (c1, Ok tt)) as Hlog.
  { intros c1. destruct (last (blog c)) as [b|] eqn:El.
    - destruct (Hlast b eq_refl) as [_ Eb]. destruct (blog c) as [|b0 m]; [done|]. cbn [length] in Hn.
      rewrite (proj2 (Z.leb_le (first_block_num c) _)), (proj2 (Z.leb_le (num r) _)) by lia. done.
    - apply last_None in El. rewrite El in Hn. cbn in Hn. rewrite u32_id by lia. rewrite (proj2 (Z.eqb_eq _ _)) by lia. done. }
  cbv [mret M_ret] in Hlog. rewrite Hlog. unfold roll_back_forks. cbv [mbind M_bind ask]. cbn [fork_db restarted]. rewrite Hh, Hr.
  rewrite (bool_decide_false (read_mode = IRREVERSIBLE)) by done. cbn [andb]. cbv [read update mret M_ret]. cbn [fork_db restarted]. by rewrite Hh.
Qed.

Lemma check_pending_head_eval (c : controller) (r h : bhs) (l : list bhs) : pending_head (fork_db c) = Some (Some h) →
  numbered_root r → linked num_of r l → rows c l → num h = num (top r l) →
  check_pending_head (num r) (num (top r l)) c =
    Some (c, if decide (l = [] ∨ bhs_id (top r l) = bhs_id h) then Ok tt else Throw reversible_blocks_exception).
Proof.
  intros Hp Hr Hl Hrows En. unfold check_pending_head. cbv [mbind M_bind ask]. rewrite Hp.
  destruct (last_number (reversible_blocks c)) as [n|] eqn:El.
  - assert (l ≠ []) as Hne by (intros E; apply (proj2 (rows_none c r l Hr Hl Hrows)) in E; congruence).
    destruct l as [|b l]; [done|]. cbn [top] in *. pose proof (linked_elem _ _ b Hr Hl ltac:(by left)) as [Hlt _].
    rewrite En, (proj2 (Z.ltb_lt _ _)), (proj2 (Z.leb_le _ _)) by lia. cbn [andb].
    assert (reversible_blocks c !! num b = Some b) as -> by (apply Hrows; split; [by left|done]). unfold ensure.
    destruct (decide (bhs_id b = bhs_id h)) as [E|E].
    + rewrite bool_decide_true, decide_True by tauto. done.
    + rewrite bool_decide_false, decide_False by naive_solver. done.
  - apply (rows_none c r l Hr Hl Hrows) in El. subst l. rewrite decide_True by tauto. done.
Qed.

(** The head that is read back has the rank of the head, and is the best block. *)
Lemma reread_rank f r h : wf num_of f r h → num (reread r h) = num h ∧ lib (reread r h) = lib h ∧ bhs_id (reread r h) = bhs_id h.
Proof.
  intros Hwf. unfold reread. case_decide as E; [|done]. destruct (wf_head_in _ _ _ _ Hwf) as [->|Hin]; [done|].
  by rewrite E, (wf_root_out _ _ _ _ Hwf) in Hin.
Qed.

(** A controller whose pending block may still be open *)
Section stopped.
Context (c : controller) (r hf : bhs) (base : S) (l : list bhs).
Context (Hsy : synced execute num_of c r base l) (Hwf : wf num_of (fork_db c) r hf).

Let f' := MkFork (index (fork_db c)) (Some (reflected r)) (Some (reread r hf)).

Lemma aborted_parts : fork_db (aborted c) = fork_db c ∧ blog (aborted c) = blog c ∧ first_block_num (aborted c) = first_block_num c.
Proof. unfold aborted. by destruct (pending c). Qed.

Lemma stopped_at : at_chain execute num_of (aborted c) r base l hf.
Proof.
  destruct (sy_sync _ _ _ _ _ _ Hsy) as [[hf0 Ha] _ _ _]. pose proof (wf_head _ _ _ _ (ac_wf _ _ _ _ _ _ _ Ha)) as E.
  destruct aborted_parts as [Ef _]. rewrite Ef, (wf_head _ _ _ _ Hwf) in E. by injection E as ->.
Qed.

Lemma stopped_chain : chain (index (fork_db c)) r l ∧ linked num_of r l ∧ numbered_root r.
Proof.
  pose proof stopped_at as [Hs _ Ht _]. destruct aborted_parts as [Ef _]. pose proof (st_chain _ _ _ _ _ _ Hs) as Hc. rewrite Ef in Hc, Ht.
  split_and!; [done|by eapply chain_linked|apply (wf_root_num _ _ _ _ Hwf)].
Qed.

Lemma stopped_rank : lib hf = lib (top r l) ∧ num hf = num (top r l) ∧
  ∀ id s, index (fork_db c) !! id = Some s → first_preferred (state s) (reread r hf) = false.
Proof.
  pose proof stopped_at as Ha. destruct (sy_sync _ _ _ _ _ _ Hsy) as [_ _ _ Hbest]. destruct aborted_parts as [Ef _].
  rewrite (st_head _ _ _ _ _ _ (ac_settled _ _ _ _ _ _ _ Ha)), Ef in Hbest.
  destruct (same_rank _ _ _ _ _ _ _ Ha) as [Elib Enum]; [by rewrite Ef; intros id s Hid _; apply (Hbest id)|].
  split_and!; [done|done|]. intros id s Hid. specialize (Hbest id s Hid). destruct (reread_rank _ _ _ Hwf) as (En & El & _).
  revert Hbest. rewrite !first_preferred_false, En, El, Elib, Enum. done.
Qed.

(** The session of a pending block is undone. *)
Lemma stopped_undo : undo_to (length (undo_states (db c))) (num (reread r hf)) (restarted c f' (reread r hf)) =
    Some (restarted (aborted c) f' (reread r hf), Ok tt) ∧ num (reread r hf) ≤ revision (db c).
Proof.
  pose proof (st_revision _ _ _ _ _ _ (ac_settled _ _ _ _ _ _ _ stopped_at)) as Hrv.
  rewrite (st_head _ _ _ _ _ _ (ac_settled _ _ _ _ _ _ _ stopped_at)) in Hrv. destruct stopped_rank as (_ & En & _).
  destruct (reread_rank _ _ _ Hwf) as (En' & _). unfold aborted in *. destruct (pending c) eqn:Hp.
  - destruct (sy_session _ _ _ _ _ _ Hsy) as (s & u & Hu); [by rewrite Hp|]. cbn in Hrv. rewrite (undo_revision _ _ _ Hu) in Hrv.
    split; [|lia]. apply (undo_session_eval (restarted c f' (reread r hf)) s u Hu). cbn. lia.
  - split; [|lia]. apply (undo_to_eval (restarted c f' (reread r hf))); [done|]. cbn. lia.
Qed.

Lemma restart_eval h0 : state_ok (contents (db c)) → 1 ≤ num r → num (top r l) < UINT32_MAX →
  startup_existing (restarted c f' h0) = init_rest (reflected r) l (restarted (aborted c) f' (reread r hf)).
Proof.
  intros Hst H1r Hmax. destruct stopped_undo as [Hu Hle], stopped_rank as (_ & En & _), stopped_chain as (_ & Hl & Hr).
  destruct (reread_rank _ _ _ Hwf) as (En' & _), (top_num_reflected r l) as (Et & _), aborted_parts as (_ & Eb & Ef).
  pose proof (linked_num _ _ Hr Hl) as [Enum _]. destruct (sy_sync _ _ _ _ _ _ Hsy) as [_ [L1 L2] _ _]. rewrite Eb, Ef in *.
  rewrite (startup_existing_eval c f' (reflected r) (reread r hf)); [|done|done|lia|by split|change (num (reflected r)) with (num r); lia].
  apply (init_eval (restarted c f' (reread r hf)) (restarted (aborted c) f' (reread r hf))); try done.
  - unfold lib_number. cbn. destruct (last (blog c)) as [b|]; [|done]. by destruct (L2 b eq_refl) as [_ ->].
  - by apply linked_reflected.
  - intros n b. apply (st_reversible _ _ _ _ _ _ (ac_settled _ _ _ _ _ _ _ stopped_at)).
  - by rewrite Et.
  - cbn. rewrite Et, En', En. lia.
Qed.

(** The node resumes, unless the head of the fork database is another block than its own. *)
Lemma restart_spec h0 : state_ok (contents (db c)) → 1 ≤ num r → num (top r l) < UINT32_MAX →
  if decide (bhs_id hf = bhs_id (top r l)) then
    startup_existing (restarted c f' h0) = Some (restarted (aborted c) f' (top (reflected r) l), Ok tt) ∧
    in_sync execute num_of (restarted (aborted c) f' (top (reflected r) l)) (reflected r) base l
  else ∃ c', startup_existing (restarted c f' h0) = Some (c', Throw reversible_blocks_exception).
Proof.
  intros Hst H1r Hmax. rewrite restart_eval by done. destruct stopped_rank as (_ & En & Hbest), stopped_chain as (Hc & Hl & Hr).
  destruct (reread_rank _ _ _ Hwf) as (En' & _ & Eid), (top_num_reflected r l) as (Et & Eidt & _), aborted_parts as [Ef _].
  unfold init_rest. cbv [mbind M_bind].
  rewrite (check_pending_head_eval (restarted (aborted c) f' (reread r hf)) (reflected r) (reread r hf) l);
    [|by apply pending_head_is_head|done|by apply linked_reflected
     |intros n b; apply (st_reversible _ _ _ _ _ _ (ac_settled _ _ _ _ _ _ _ stopped_at))|by rewrite Et, En'].
  rewrite Eidt, Eid. case_decide as E.
  - rewrite decide_True by (by right). cbv [read]. cbn [chain_head restarted]. rewrite Et, En', En, Z.ltb_irrefl. cbv [mret M_ret].
    assert (reread r hf = top (reflected r) l) as Etop.
    { apply (proj1 (reread_top (fork_db c) r hf l Hwf Hc)). destruct (wf_head_in _ _ _ _ Hwf) as [->|Hin]; destruct l as [|b m]; cbn in *; try done.
      - destruct Hc as ([v Hb] & _). by rewrite <-E, (wf_root_out _ _ _ _ Hwf) in Hb.
      - by rewrite E, (wf_root_out _ _ _ _ Hwf) in Hin.
      - destruct Hc as ([v Hb] & _). rewrite E, Hb in Hin. by injection Hin as ->. }
    split.
    + rewrite <-Etop. destruct (shutdown _); [done|]. apply (stay_in_mode _ (reread r hf)); [done|by apply pending_head_is_head|by eexists].
    + unfold f'. rewrite <-Ef. apply reread_in_sync; [apply (sy_sync _ _ _ _ _ _ Hsy)|by rewrite Ef|done].
  - rewrite decide_False; [by eexists|]. intros [->|E2]; [|by destruct E].
    cbn in *. destruct (wf_head_in _ _ _ _ Hwf) as [->|Hin]; [done|]. apply (wf_numbered _ _ _ _ Hwf) in Hin. cbn in Hin. lia.
Qed.
End stopped.

Section files.
Context {byte : Type} `{!ForkFile.ForkFileFormat key signature byte}.
Context (unpack_activation : list Z → result exn (list digest)).
Context (unpack_schedule : list Z → result exn (producer_authority_schedule key)).
Context (validator : Z → gset digest → list digest → result exn unit).

(** A valid block is trusted when it is applied again. *)
Context (Hval : ∀ s p b x, execute s p b complete = Ok x → execute s p b validated_block = Ok x).

(** The fork database of a node that starts *)
Definition no_fork_db : fork_database key signature := MkFork ∅ None None.

Lemma tree_lib (f : fork_database key signature) r hf base id b p : wf num_of f r hf → tree execute f r base → index f !! id = Some b →
  index f !! prev (state b) = Some p → lib (state p) ≤ lib (state b).
Proof.
  intros Hwf Ht Hb Hp. destruct (block_chain _ _ _ _ Hwf _ _ Hb) as [l Hc]. pose proof (tr_lib _ _ _ _ Ht _ _ Hc) as Hl.
  destruct Hc as (_ & Eprev & Hc). rewrite Eprev in Hp. destruct l as [|a l]; cbn in *; [by rewrite (wf_root_out _ _ _ _ Hwf) in Hp|].
  destruct Hc as ([v Ha] & _). rewrite Ha in Hp. by injection Hp as <-.
Qed.

End files.
End restart.

(** ** A fork database with one branch *)

Definition line_index (l : list bhs) : gmap digest (block_state key signature) :=
  list_to_map ((λ b, (bhs_id b, MkBlock b true)) <$> l).
Definition line (r : bhs) (l : list bhs) : fork_database key signature := MkFork (line_index l) (Some r) (Some (top r l)).

Lemma line_lookup_inv l id s : line_index l !! id = Some s → ∃ b, b ∈ l ∧ s = MkBlock b true ∧ bhs_id b = id.
Proof.
  intros Hs. apply elem_of_list_to_map_2, list_elem_of_fmap in Hs as (b & [= -> ->] & Hb). by exists b.
Qed.

Lemma line_next (r : bhs) l b : numbered_root r → linked num_of r (b :: l) → line_index l !! bhs_id b = None ∧ bhs_id b ≠ bhs_id r.
Proof.
  intros Hr Hl. pose proof (linked_num _ _ Hr Hl) as [E1 E2]. cbn [top length] in E1, E2. pose proof Hl as (_ & _ & _ & Hl').
  pose proof (linked_num _ _ Hr Hl') as [E3 _]. split.
  - apply eq_None_not_Some. intros [s Hs]. apply line_lookup_inv in Hs as (a & Ha & _ & E).
    pose proof (linked_elem _ _ a Hr Hl' Ha). apply list_elem_of_split in Ha as (l1 & l2 & ->).
    apply linked_app in Hl' as [_ Hl']. pose proof (linked_num _ _ Hr Hl') as [_ E4]. cbn [top] in E4. rewrite E in E4. lia.
  - intros E. destruct Hr as [Hr _]. rewrite E in E2. lia.
Qed.

Lemma line_lookup (r : bhs) l b : numbered_root r → linked num_of r l → b ∈ l → line_index l !! bhs_id b = Some (MkBlock b true).
Proof.
  intros Hr. induction l as [|a l IH]; intros Hl Hb; [by apply elem_of_nil in Hb|].
  change (line_index (a :: l)) with (<[bhs_id a := MkBlock a true]> (line_index l)). destruct (line_next _ _ _ Hr Hl) as [Hn _].
  apply elem_of_cons in Hb as [->|Hb]; [by rewrite lookup_insert_eq|]. destruct Hl as (_ & _ & _ & Hl). specialize (IH Hl Hb).
  rewrite lookup_insert_ne; [done|]. congruence.
Qed.

Lemma line_chain (r : bhs) l l1 l2 : numbered_root r → linked num_of r l → l = l1 ++ l2 → chain (line_index l) r l2.
Proof.
  intros Hr Hl. revert l1. induction l2 as [|b l2 IH]; intros l1 E; [done|]. split_and!.
  - exists true. apply (line_lookup r); [done|done|]. rewrite E, elem_of_app, elem_of_cons. tauto.
  - rewrite E in Hl. apply linked_app in Hl as [_ (Hp & _)]. done.
  - apply (IH (l1 ++ [b])). by rewrite <-app_assoc.
Qed.

Lemma line_wf (r : bhs) l : numbered_root r → linked num_of r l → wf num_of (line r l) r (top r l).
Proof.
  intros Hr Hl. split; cbn [line index root head]; try done.
  - by intros id s (b & _ & -> & E)%line_lookup_inv.
  - intros id s (b & Hb & -> & E)%line_lookup_inv. cbn [state]. split; [|by eapply linked_elem].
    apply list_elem_of_split in Hb as (l1 & l2 & ->). apply linked_app in Hl as [_ (_ & Hw & _)]. done.
  - intros id s (b & Hb & -> & E)%line_lookup_inv. cbn [state]. pose proof Hb as (l1 & l2 & ->)%list_elem_of_split.
    pose proof Hl as [_ (Hp & _)]%linked_app. rewrite Hp. destruct l2 as [|a l2]; [by left|]. right. cbn [top].
    exists (MkBlock a true). apply (line_lookup r); [done|done|]. rewrite elem_of_app, !elem_of_cons. tauto.
  - destruct l as [|b l]; [by left|]. right. cbn [top]. apply (line_lookup r); [done|done|by left].
  - intros id s (b & Hb & -> & E)%line_lookup_inv _. cbn [state]. apply first_preferred_false.
    pose proof (linked_elem _ _ _ Hr Hl Hb). pose proof (linked_lib _ _ _ Hl Hb). lia.
Qed.

(** All of its blocks execute. *)
Lemma line_tree (r : bhs) base l cur u : numbered_root r → linked num_of r l → follows execute r base l cur u → tree execute (line r l) r base.
Proof.
  intros Hr Hl Hf. pose proof (line_wf _ _ Hr Hl) as Hwf.
  assert (∀ b m, chain (line_index l) r (b :: m) → ∃ l1, l = l1 ++ b :: m) as Hpart.
  { intros b m Hc. pose proof Hc as ([v Hb] & _). apply line_lookup_inv in Hb as (b0 & Hb & [= -> ->] & _).
    apply list_elem_of_split in Hb as (l1 & l2 & E). exists l1. rewrite E. f_equal.
    symmetry. apply (chain_unique _ _ _ _ Hwf); [done|by apply (line_chain r l l1)|done]. }
  split; cbn [line index].
  - intros b m [l1 ->]%Hpart. apply linked_app in Hl as [_ (_ & _ & Hb & _)]. done.
  - intros b m [l1 E]%Hpart _. split.
    + apply Forall_forall. intros a Ha. apply (line_lookup r); [done|done|]. rewrite E, elem_of_app, elem_of_cons. tauto.
    + rewrite E in Hf. apply follows_app in Hf as (mid & u1 & u2 & _ & _ & Hf & _). by exists mid, u2.
Qed.

(** ** Replaying a chain *)

Section replaying.
(** A block executes only on the head that its state was made from; an irreversible block is
    trusted; the files have room, and the node is not asked to stop. *)
Context (Hmade : ∀ s p b st x, execute s p b st = Ok x → block_state_of p b = Ok b).
Context (Hirr : ∀ s p b x, execute s p b validated_block = Ok x → execute s p b irreversible = Ok x).
Context (Hsize : ∀ c, validate_available_size c = Ok tt) (Hrunning : ∀ c, shutdown c = false).

(** While a replay is going on, no reversible block is recorded. *)
Lemma apply_block_replaying (c : controller) b s x t : pending c = None → revision (db c) = num (chain_head c) →
  replay_head_time c = Some t → execute (contents (db c)) (chain_head c) b s = Ok x →
  apply_block execute read_mode b s c = Some (set_db (modify x (start_undo_session (db c))) c, Ok tt).
Proof.
  intros Hp Hr Ht Hx. unfold apply_block. cbv [catch mbind M_bind]. rewrite start_block_eval by done.
  cbv [ask lift update]. cbn [db set_db set_pending chain_head]. rewrite start_contents, Hx.
  unfold commit_block_then, catch, mbind, M_bind, read, update. cbn. rewrite decide_False by (rewrite Ht; by intros [? _]).
  cbn. destruct c. cbn in *. by subst.
Qed.

(** A block of the log: the database follows, without sessions. *)
Lemma replay_irreversible_block (c : controller) b x t : pending c = None → replay_head_time c = Some t → undo_states (db c) = [] →
  (skip_db_sessions = false → revision (db c) = num (chain_head c)) → num b = num (chain_head c) + 1 →
  execute (contents (db c)) (chain_head c) b validated_block = Ok x →
  ∃ d, replay_push_block b irreversible c = Some (set_chain_head b (set_db d c), Ok tt) ∧ contents d = x ∧ undo_states d = [] ∧
    (skip_db_sessions = false → revision d = num b).
Proof.
  intros Hp Ht Hu Hrev Hn Hx. pose proof (Hirr _ _ _ _ Hx) as Hx'.
  unfold replay_push_block. cbv [mbind M_bind ask lift]. rewrite Hsize. unfold ensure. rewrite bool_decide_true by done.
  cbv [mret M_ret]. rewrite (Hmade _ _ _ _ _ Hx). unfold apply_irreversible. destruct skip_db_sessions.
  - cbv [mbind M_bind read ask update]. rewrite Hp. unfold ensure. rewrite bool_decide_true by done. cbv [mret M_ret]. rewrite Hx'.
    exists (modify x (db c)). rewrite modify_contents, modify_undo, Hu. done.
  - specialize (Hrev eq_refl). rewrite (apply_block_replaying c b irreversible x t) by done. cbv [update].
    exists (commit (num b) (modify x (start_undo_session (db c)))). split; [reflexivity|]. rewrite commit_contents, commit_undo, commit_revision.
    rewrite modify_contents, modify_undo, modify_revision, start_revision, Hrev. split_and!; [done| |lia].
    replace (Z.to_nat _) with 0%nat by lia. done.
Qed.

(** The rest of the log from the head on *)
Record log_ahead (c : controller) (h0 : bhs) (l : list bhs) : Prop := {
  la_log : ∃ pre, blog c = pre ++ rev l ∧ first_block_num c + Z.of_nat (length pre) = num h0 + 1;
  la_root : numbered_root h0;
  la_linked : linked num_of h0 l;
  la_max : num (top h0 l) < UINT32_MAX }.

Lemma read_next_block (c : controller) h0 l1 l2 : log_ahead c h0 (l1 ++ l2) →
  read_block_by_num (u32 (num (top h0 l2) + 1)) c = Some (c, Ok (last l1)).
Proof.
  intros [(pre & Eb & Ef) Hr Hl Hmax]. apply linked_app in Hl as Hl12. destruct Hl12 as [Hl1 Hl2].
  pose proof (linked_num _ _ Hr Hl) as [En _]. pose proof (linked_num _ _ Hr Hl2) as [En2 Eid2]. rewrite length_app in En.
  pose proof Hr as [_ H0h]. unfold UINT32_MAX in Hmax. rewrite u32_id by lia. unfold read_block_by_num. cbv [mbind M_bind read].
  rewrite (proj2 (Z.leb_le _ _)) by lia. rewrite Eb, rev_app_distr, app_assoc, lookup_app_r; rewrite length_app, length_rev; [|lia].
  replace (_ - _)%nat with 0%nat by lia. rewrite <-head_lookup.
  destruct l1 as [|b l1 _] using rev_ind; [done|]. rewrite rev_unit, last_snoc. cbn [hd_error head].
  apply linked_app in Hl1 as [_ (Hp & [_ Hb] & _)]. cbn [top] in Hp. rewrite Hp, Eid2 in Hb.
  unfold ensure. rewrite (proj2 (Z.eqb_eq _ _)) by lia. done.
Qed.

Lemma replay_log_spec h0 s0 base t : ∀ l1 l2 (c : controller) u fuel, log_ahead c h0 (l1 ++ l2) → follows execute h0 s0 (l1 ++ l2) base u →
  pending c = None → replay_head_time c = Some t → undo_states (db c) = [] → chain_head c = top h0 l2 →
  (skip_db_sessions = false → revision (db c) = num (chain_head c)) → (∃ u2, follows execute h0 s0 l2 (contents (db c)) u2) →
  (length l1 < fuel)%nat →
  ∃ d, replay_log fuel c = Some (set_chain_head (top h0 (l1 ++ l2)) (set_db d c), Ok tt) ∧ contents d = base ∧ undo_states d = [] ∧
    (skip_db_sessions = false → revision d = num (top h0 (l1 ++ l2))).
Proof.
  induction l1 as [|b l1 IH] using rev_ind; intros l2 c u fuel Hla Hf Hp Ht Hu Hh Hrev [u2 Hf2] Hfuel; (destruct fuel as [|fuel]; [lia|]);
    cbn [replay_log]; cbv [mbind M_bind read]; rewrite Hh, (read_next_block _ _ _ _ Hla).
  - cbn [last app]. exists (db c). split; [|by destruct (follows_det _ _ _ _ _ _ _ _ Hf Hf2); split_and!; [|done|rewrite <-Hh]].
    cbn in Hla |- *. rewrite <-Hh. by destruct c.
  - rewrite last_snoc, <-app_assoc in *. cbn [app] in *. pose proof Hf as (mid & u1 & u3 & _ & _ & Hf3 & _)%follows_app.
    destruct u3 as [|s3 u3]; [done|]. destruct Hf3 as [Hx Hf3]. destruct (follows_det _ _ _ _ _ _ _ _ Hf3 Hf2) as [-> ->].
    pose proof (la_linked _ _ _ Hla) as [_ Hl]%linked_app. pose proof (linked_num _ _ (la_root _ _ _ Hla) Hl) as [N1 _].
    pose proof Hl as (_ & _ & _ & Hl2). pose proof (linked_num _ _ (la_root _ _ _ Hla) Hl2) as [N2 _]. cbn [top length] in N1.
    destruct (replay_irreversible_block c b mid t) as (d & -> & Ec & Eu & Er); [done..|rewrite Hh; lia|by rewrite Hh|].
    rewrite Hrunning, andb_false_r. rewrite length_app in Hfuel. cbn in Hfuel.
    destruct (IH (b :: l2) (set_chain_head b (set_db d c)) u fuel) as (d' & E & ? & ? & ?); [|done|done|done|done|done|done| |lia|].
    + destruct Hla. by split.
    + cbn. rewrite Ec. exists (contents (db c) :: u2). done.
    + exists d'. split_and!; [|done..]. rewrite E. by destruct c.
Qed.

(** The next block enters the fork database and becomes its head. *)
Lemma line_add (r : bhs) l b : numbered_root r → linked num_of r (b :: l) →
  ∃ f hf, add (line r l) (MkBlock b false) true = Ok f ∧ index f = <[bhs_id b := MkBlock b false]> (line_index l) ∧
    wf num_of f r hf ∧ first_preferred b hf = true.
Proof.
  intros Hr Hl. pose proof Hl as (Hp & Hw & Hlib & Hl'). pose proof (line_wf _ _ Hr Hl') as Hwf. destruct (line_next _ _ _ Hr Hl) as [Hn Hid].
  assert (∃ p, get_block_header (line r l) r (prev b) = Some p) as [p Hpb].
  { rewrite Hp. unfold get_block_header, get_block. destruct l as [|a m]; cbn [top]; [rewrite decide_True by done; by eexists|].
    case_decide; [by eexists|]. cbn [line index]. rewrite (line_lookup r (a :: m)) by (done || by left). by eexists. }
  assert (∃ f, add (line r l) (MkBlock b false) true = Ok f ∧ index f = <[bhs_id b := MkBlock b false]> (line_index l)) as (f & Ha & Ei).
  { unfold add, add_impl. cbn [root line]. cbn [state]. rewrite Hpb. cbn [mbind result_bind index line]. rewrite Hn. by eexists. }
  destruct (add_impl_wf num_of _ _ _ (MkBlock b false) _ _ _ _ Hwf Hw Ha) as [hf Hwf']. exists f, hf. split_and!; [done..|].
  pose proof (linked_num _ _ Hr Hl) as [N1 _]. pose proof (linked_num _ _ Hr Hl') as [N2 _]. cbn [top length] in N1.
  apply first_preferred_true. destruct (wf_head_in _ _ _ _ Hwf') as [->|Hh].
  - pose proof (linked_lib _ _ b Hl ltac:(by left)). lia.
  - rewrite Ei in Hh. apply lookup_insert_Some in Hh as [[_ [=]]|[_ Hh]]. apply line_lookup_inv in Hh as (a & Ha' & [= ->] & _).
    pose proof (linked_elem _ _ _ Hr Hl' Ha'). pose proof (linked_lib _ _ _ Hl' Ha'). lia.
Qed.

Lemma line_mark (c : controller) (r : bhs) l b hf : index (fork_db c) = <[bhs_id b := MkBlock b false]> (line_index l) →
  wf num_of (fork_db c) r hf → first_preferred b hf = true →
  fork_mark_valid b c = Some (set_fork_db (line r (b :: l)) c, Ok tt).
Proof.
  intros Ei Hwf Hpref. assert (index (fork_db c) !! bhs_id b = Some (MkBlock b false)) as Hb by (by rewrite Ei, lookup_insert_eq).
  destruct (mark_valid_spec _ _ _ _ _ _ Hwf Hb) as (f & Hm & Ef & Hwf'). rewrite Hpref in Hwf'.
  rewrite (fork_mark_valid_eval _ _ _ _ _ _ _ Hwf Hb Hm). do 3 f_equal. destruct f as [i o h]. cbn in Ef.
  pose proof (wf_root _ _ _ _ Hwf') as Er. pose proof (wf_head _ _ _ _ Hwf') as Eh. cbn in Er, Eh. subst. unfold line. f_equal.
  rewrite Ei. apply insert_insert_eq.
Qed.

(** The controller while the reversible blocks are replayed: the blocks [l] over [r] are
    applied. *)
Record rebuilding (c : controller) (r : bhs) (base : S) (l : list bhs) (t : Z) : Prop := {
  rb_pending : pending c = None;
  rb_time : replay_head_time c = Some t;
  rb_head : chain_head c = top r l;
  rb_fork : fork_db c = line r l;
  rb_follows : follows execute r base l (contents (db c)) (undo_states (db c));
  rb_revision : revision (db c) = num (chain_head c);
  rb_log : log_ok c r }.

Lemma no_new_irreversible (c : controller) (r h : bhs) : root (fork_db c) = Some r → head (fork_db c) = Some h → log_ok c r → lib h ≤ num r →
  log_irreversible execute read_mode c = Some (c, Ok tt).
Proof.
  intros Hr Hh [Hn Hlast] Hlib. unfold log_irreversible. cbv [mbind M_bind ask]. rewrite Hr, Hh, decide_False by done. unfold ensure.
  destruct (last (blog c)) as [b|] eqn:El.
  - destruct (Hlast b eq_refl) as [E1 E2]. rewrite bool_decide_true by done. cbv [mret M_ret]. by rewrite (proj2 (Z.leb_le _ _)) by lia.
  - apply last_None in El. rewrite El in Hn. cbn in Hn. rewrite (proj2 (Z.eqb_eq _ _)) by lia. cbv [mret M_ret].
    by rewrite (proj2 (Z.leb_le _ _)) by lia.
Qed.

Lemma replay_reversible_block (c : controller) (r : bhs) base l b t x : rebuilding c r base l t → numbered_root r → linked num_of r (b :: l) →
  lib b ≤ num r → execute (contents (db c)) (chain_head c) b validated_block = Ok x →
  ∃ c', replay_push_block b validated_block c = Some (c', Ok tt) ∧ rebuilding c' r base (b :: l) t ∧ contents (db c') = x ∧
    reversible_blocks c' = reversible_blocks c ∧ blog c' = blog c ∧ first_block_num c' = first_block_num c.
Proof.
  intros [Hp Ht Hh Hf Hfo Hrev Hlog] Hr Hl Hlib Hx. destruct (line_add _ _ _ Hr Hl) as (f & hf & Ha & Ei & Hwf & Hpref).
  exists (set_chain_head b (set_fork_db (line r (b :: l)) (set_db (modify x (start_undo_session (db c))) c))). split.
  - unfold replay_push_block. cbv [mbind M_bind ask lift]. rewrite Hsize. unfold ensure. rewrite bool_decide_true by done.
    cbv [mret M_ret]. rewrite (Hmade _ _ _ _ _ Hx). unfold on_fork. rewrite Hf, Ha. rewrite bool_decide_true by done.
    unfold maybe_switch_forks. cbv [catch mbind M_bind read]. cbn [chain_head set_fork_db].
    rewrite decide_True by (rewrite Hh; apply Hl). unfold apply_and_mark. cbv [mbind M_bind].
    rewrite (apply_block_replaying _ b validated_block x t); [|done..].
    rewrite (line_mark _ r l b hf); [|done..]. cbv [update].
    apply (no_new_irreversible _ r b); [done|done| |done]. destruct Hlog. by split.
  - pose proof (linked_num _ _ Hr Hl) as [N1 _]. pose proof Hl as (_ & _ & _ & Hl'). pose proof (linked_num _ _ Hr Hl') as [N2 _]. cbn [top length] in N1.
    split; [|cbn; by rewrite modify_contents]. split; cbn; try done.
    + rewrite modify_contents, modify_undo, start_undo, <-Hh. done.
    + rewrite modify_revision, start_revision, Hrev, Hh. lia.
    + destruct Hlog. by split.
Qed.

Lemma replay_reversible_spec (r : bhs) base cur t : ∀ l1 l2 (c : controller) u fuel, rebuilding c r base l2 t → numbered_root r →
  linked num_of r (l1 ++ l2) → lib (top r (l1 ++ l2)) ≤ num r → num (top r (l1 ++ l2)) < UINT32_MAX → rows c (l1 ++ l2) →
  follows execute r base (l1 ++ l2) cur u → (length l1 < fuel)%nat →
  ∃ c', replay_reversible fuel c = Some (c', Ok tt) ∧ rebuilding c' r base (l1 ++ l2) t ∧
    reversible_blocks c' = reversible_blocks c ∧ blog c' = blog c ∧ first_block_num c' = first_block_num c.
Proof.
  induction l1 as [|b l1 IH] using rev_ind; intros l2 c u fuel Hb Hr Hl Hlib Hmax Hrows Hf Hfuel; (destruct fuel as [|fuel]; [lia|]);
    cbn [replay_reversible]; cbv [mbind M_bind read]; rewrite (rb_head _ _ _ _ _ Hb).
  - exists c. split; [|done]. cbn [app] in *. destruct (reversible_blocks c !! _) as [b|] eqn:E; [|done]. exfalso.
    apply Hrows in E as [Hin E]. pose proof (linked_elem _ _ _ Hr Hl Hin). destruct Hr as [_ H0r]. unfold UINT32_MAX in Hmax.
    rewrite u32_id in E by lia. lia.
  - rewrite <-app_assoc in *. cbn [app] in *. pose proof Hl as [_ Hl2]%linked_app. pose proof (linked_num _ _ Hr Hl2) as [N1 _].
    pose proof Hl2 as (_ & _ & _ & Hl3). pose proof (linked_num _ _ Hr Hl3) as [N2 _]. cbn [top length] in N1.
    assert (b ∈ l1 ++ b :: l2) as Hin by (rewrite elem_of_app, elem_of_cons; tauto).
    pose proof (linked_elem _ _ _ Hr Hl Hin) as Hnb. pose proof (linked_lib _ _ _ Hl Hin) as Hlb. pose proof Hr as [_ H0r].
    assert (reversible_blocks c !! u32 (num (top r l2) + 1) = Some b) as ->.
    { apply Hrows. unfold UINT32_MAX in Hmax. rewrite u32_id by lia. split; [done|lia]. }
    pose proof Hf as (mid & u1 & [|s3 u3] & _ & _ & Hf3 & _)%follows_app; [done|]. destruct Hf3 as [Hx Hf3].
    destruct (follows_det _ _ _ _ _ _ _ _ Hf3 (rb_follows _ _ _ _ _ Hb)) as [-> ->].
    destruct (replay_reversible_block c r base l2 b t mid Hb Hr Hl2) as (c1 & -> & Hb1 & Ec & E1 & E2 & E3); [lia|by rewrite (rb_head _ _ _ _ _ Hb)|].
    rewrite length_app in Hfuel. cbn in Hfuel.
    destruct (IH (b :: l2) c1 u fuel) as (c' & E & ? & ? & ? & ?); [done|done|done|done|done|by intros n a; rewrite E1|done|lia|].
    exists c'. split_and!; [done|done|congruence..].
Qed.

Lemma rows_size (c : controller) (r : bhs) l : numbered_root r → linked num_of r l → rows c l → (length l ≤ size (reversible_blocks c))%nat.
Proof.
  intros Hr Hl Hrows. rewrite <-(length_map_to_list (reversible_blocks c)), <-(length_fmap fst), <-(length_fmap num).
  apply submseteq_length, NoDup_submseteq.
  - clear Hrows. induction l as [|b l IH]; [constructor|]. pose proof Hl as (_ & _ & _ & Hl'). constructor; [|by apply IH].
    intros (a & E & Ha)%list_elem_of_fmap. pose proof (linked_elem _ _ _ Hr Hl' Ha). pose proof (linked_num _ _ Hr Hl) as [N1 _].
    pose proof (linked_num _ _ Hr Hl') as [N2 _]. cbn [top length] in N1. lia.
  - intros n (b & -> & Hb)%list_elem_of_fmap. apply list_elem_of_fmap. exists (num b, b). split; [done|].
    apply elem_of_map_to_list, Hrows. done.
Qed.

(** The state of a controller that starts at the block [h0] of the chain, with contents [s0]:
    the log goes on with the blocks [logged], the reversible blocks are [l]. *)
Record starting (c : controller) (h0 : bhs) (s0 : S) (logged : list bhs) (base : S) (l : list bhs) (cur : S) : Prop := {
  sg_pending : pending c = None;
  sg_live : replay_head_time c = None;
  sg_head : chain_head c = h0;
  sg_fork : fork_db c = reset h0;
  sg_contents : contents (db c) = s0;
  sg_undo : undo_states (db c) = [];
  sg_revision : revision (db c) = num h0;
  sg_log : log_ahead c h0 logged;
  sg_end : log_ok c (top h0 logged);
  sg_rows : rows c l;
  sg_linked : linked num_of (top h0 logged) l;
  sg_lib : lib (top (top h0 logged) l) ≤ num (top h0 logged);
  sg_max : num (top (top h0 logged) l) < UINT32_MAX;
  sg_root : prev (top h0 logged) ≠ bhs_id (top h0 logged);
  sg_logged : ∃ u, follows execute h0 s0 logged base u;
  sg_chain : ∃ u, follows execute (top h0 logged) base l cur u }.

Lemma log_root c h0 logged : log_ahead c h0 logged → numbered_root (top h0 logged) ∧ num h0 ≤ num (top h0 logged) ∧
  (num h0 < num (top h0 logged) ↔ logged ≠ []).
Proof.
  intros [_ Hr Hl _]. pose proof (linked_num _ _ Hr Hl) as [E1 E2]. pose proof Hr as [_ H0r].
  split_and!; [split; [done|lia]|lia|]. destruct logged; cbn [length] in E1; [split; [lia|done]|split; [done|lia]].
Qed.

(** The parts are in step after the replay. *)
Lemma rebuilt_in_sync c (r : bhs) base l t cur : rebuilding c r base l t → numbered_root r → linked num_of r l → rows c l → prev r ≠ bhs_id r →
  (∃ u, follows execute r base l cur u) →
  in_sync execute num_of (set_replay_head_time None c) r base l ∧ contents (db c) = cur.
Proof.
  intros [Hp Ht Hh Hf Hfo Hrev Hlog] Hr Hl Hrows Hroot [u Hu]. pose proof (line_wf _ _ Hr Hl) as Hwf.
  split; [|by destruct (follows_det _ _ _ _ _ _ _ _ Hu Hfo)]. split; [exists (top r l)|by destruct Hlog|done|].
  - split; cbn [set_replay_head_time fork_db]; rewrite ?Hf; [| |by eapply line_tree|done].
    + split; cbn; rewrite ?Hf; try done; [by eexists|by apply (line_chain r l [])].
    + apply Forall_forall. intros b Hb. by apply (line_lookup r).
  - cbn. rewrite Hf, Hh. intros id s (b & Hb & -> & E)%line_lookup_inv. cbn [state]. apply first_preferred_false.
    pose proof (linked_elem _ _ _ Hr Hl Hb). pose proof (linked_lib _ _ _ Hl Hb). lia.
Qed.

(** The blocks of the log *)
Lemma replay_irreversible_spec c h0 s0 logged base t : log_ahead c h0 logged → log_ok c (top h0 logged) → logged ≠ [] →
  pending c = None → replay_head_time c = Some t → chain_head c = h0 → fork_db c = reset h0 → contents (db c) = s0 → undo_states (db c) = [] →
  revision (db c) = num h0 → (∃ u, follows execute h0 s0 logged base u) →
  ∃ c', replay_irreversible c = Some (c', Ok None) ∧ rebuilding c' (top h0 logged) base [] t ∧
    reversible_blocks c' = reversible_blocks c ∧ blog c' = blog c ∧ first_block_num c' = first_block_num c.
Proof.
  intros Hla Hlog Hne Hp Ht Hh Hf Hc Hu Hrev [u Hfo]. destruct (log_root _ _ _ Hla) as (_ & _ & Hlt). pose proof Hlog as [L1 L2].
  pose proof (la_log _ _ _ Hla) as (pre & Eb & _).
  destruct (replay_log_spec h0 s0 base t logged [] c u (Datatypes.S (length (blog c)))) as (d & E & Ec & Eu & Er);
    rewrite ?app_nil_r; try done; [by rewrite Hh|by rewrite Hc; exists []|by rewrite Eb, length_app, length_rev; lia|].
  rewrite app_nil_r in E, Er. unfold replay_irreversible. cbv [catch mbind M_bind read mret M_ret]. rewrite E.
  unfold advance_fork_root. cbv [mbind M_bind ask update]. cbn [fork_db set_chain_head set_db chain_head]. rewrite Hf. cbn [root reset].
  assert (pending_head (reset h0) = Some (Some h0)) as -> by done. rewrite (proj2 (Z.ltb_lt _ _)) by tauto. cbn [orb].
  destruct skip_db_sessions.
  - cbv [read]. unfold revise. cbv [mbind M_bind read ensure update]. cbn [db set_fork_db set_chain_head set_db]. rewrite Eu. cbv [mret M_ret].
    eexists. split; [reflexivity|]. split; [|done].
    split; cbn; try done; [by rewrite set_revision_contents, set_revision_undo, Eu|by rewrite set_revision_revision].
  - eexists. split; [reflexivity|]. split; [|done]. split; cbn; try done; [by rewrite Eu|by apply Er].
Qed.

Lemma replay_spec c h0 s0 logged base l cur : starting c h0 s0 logged base l cur → num h0 < num (top (top h0 logged) l) → blog c ≠ [] →
  ∃ c', replay c = Some (c', Ok tt) ∧ in_sync execute num_of c' (top h0 logged) base l ∧ fork_db c' = line (top h0 logged) l ∧
    contents (db c') = cur ∧ chain_head c' = top (top h0 logged) l ∧ reversible_blocks c' = reversible_blocks c ∧ blog c' = blog c.
Proof.
  intros [Hp Hlive Hh Hf Hc Hu Hrev Hla Hlog Hrows Hl Hlib Hmax Hroot Hlogged Hchain] Hlt Hne.
  destruct (log_root _ _ _ Hla) as (Hr & Hle & Hlt'). set (r := top h0 logged) in *. destruct Hchain as [ul Hchain].
  destruct (last (blog c)) as [bh|] eqn:El; [|by apply last_None in El]. pose proof Hlog as [L1 L2]. destruct (L2 bh El) as [_ Ebh].
  unfold replay. cbv [mbind M_bind ask]. rewrite El. cbv [update]. set (t := Timestamp.to_time_point _).
  pose proof (linked_num _ _ Hr Hl) as [Nr _]. pose proof Hr as [_ H0r]. pose proof (la_root _ _ _ Hla) as [_ H0h]. unfold UINT32_MAX in Hmax.
  assert (∃ c1, (if u32 (num (chain_head c) + 1) <=? num bh then replay_irreversible else mret None) (set_replay_head_time (Some t) c) =
      Some (c1, Ok None) ∧ rebuilding c1 r base [] t ∧
      reversible_blocks c1 = reversible_blocks c ∧ blog c1 = blog c ∧ first_block_num c1 = first_block_num c) as (c1 & -> & Hb1 & E1 & E2 & E3).
  { rewrite Hh, Ebh, u32_id by lia. destruct (Z.leb_spec (num h0 + 1) (num r)) as [Hc1|Hc1].
    - apply (replay_irreversible_spec (set_replay_head_time (Some t) c) h0 s0 logged base t); try done; [by destruct Hla|by apply Hlt'; lia].
    - destruct logged as [|b logged]; [|exfalso; cut (num h0 < num r); [lia|by apply Hlt']]. eexists. split; [reflexivity|]. split; [|done].
      destruct Hlogged as [u Hlogged]. destruct u; [|done]. cbn in Hlogged. subst base. split; cbn; try done; [by rewrite Hu|by rewrite Hrev, Hh]. }
  cbn [bool_decide andb]. rewrite (bool_decide_true (None = None)), Hrunning by done. cbn [negb andb].
  destruct (replay_reversible_spec r base cur t l [] c1 ul (Datatypes.S (size (reversible_blocks c1)))) as (c2 & -> & Hb2 & F1 & F2 & F3);
    rewrite ?app_nil_r; try done.
  { by intros n b; rewrite E1. }
  { apply Nat.lt_succ_r. rewrite E1. by apply (rows_size c r). }
  rewrite app_nil_r in Hb2. destruct (rebuilt_in_sync c2 r base l t cur) as [Hi Ecur]; try done; [by intros n b; rewrite F1, E1|by eexists|].
  eexists. split; [reflexivity|]. split_and!; [done|apply (rb_fork _ _ _ _ _ Hb2)|done|apply (rb_head _ _ _ _ _ Hb2)|cbn; congruence..].
Qed.

(** Initialization brings the node to the end of its chain. *)
Lemma init_spec c h0 s0 logged base l cur : starting c h0 s0 logged base l cur → state_ok s0 → blog c ≠ [] ∨ l = [] →
  ∃ c', init c = Some (c', Ok tt) ∧ in_sync execute num_of c' (top h0 logged) base l ∧
    contents (db c') = cur ∧ chain_head c' = top (top h0 logged) l ∧ reversible_blocks c' = reversible_blocks c ∧ blog c' = blog c.
Proof.
  intros Hsg Hst Hne. pose proof Hsg as [Hp Hlive Hh Hf Hc Hu Hrev Hla Hlog Hrows Hl Hlib Hmax Hroot Hlogged Hchain].
  destruct (log_root _ _ _ Hla) as (Hr & Hle & Hlt'). pose proof (linked_num _ _ Hr Hl) as [Nr _].
  rewrite (init_eval c c (top h0 logged) l); try done;
    [| |by rewrite Hc|by rewrite Hh, Hrev|by apply undo_to_eval; rewrite ?Hh|rewrite Hh; lia].
  2:{ unfold lib_number. destruct Hlog as [L1 L2]. destruct (last (blog c)) as [b|] eqn:El; [by destruct (L2 b eq_refl) as [_ ->]|].
      apply last_None in El. destruct (la_log _ _ _ Hla) as (pre & Eb & _). rewrite El in Eb. symmetry in Eb. apply app_eq_nil in Eb as [_ Eb].
      apply (f_equal length) in Eb. rewrite length_rev in Eb. destruct logged; [|done]. cbn. by rewrite Hf. }
  unfold init_rest. cbv [mbind M_bind].
  assert (check_pending_head (num (top h0 logged)) (num (top (top h0 logged) l)) c = Some (c, Ok tt)) as ->.
  { unfold check_pending_head. cbv [mbind M_bind ask]. rewrite Hf. assert (pending_head (reset h0) = Some (Some h0)) as -> by done.
    destruct (last_number _); [|done]. rewrite (proj2 (Z.ltb_ge (num (top h0 logged)) _)) by lia. cbn [andb].
    by rewrite (proj2 (Z.ltb_ge (num (top (top h0 logged) l)) _)) by lia. }
  cbv [read]. rewrite Hh. destruct (Z.ltb_spec (num h0) (num (top (top h0 logged) l))) as [Hlt|Hge].
  - destruct (replay_spec _ _ _ _ _ _ _ Hsg Hlt) as (c' & -> & Hi & Ef & ? & ? & ? & ?).
    { destruct Hne as [?| ->]; [done|]. cbn in Hlt. intros Eb. destruct (la_log _ _ _ Hla) as (pre & E & _). rewrite Eb in E. symmetry in E.
      apply app_eq_nil in E as [_ E]. apply (f_equal length) in E. rewrite length_rev in E. apply Hlt' in Hlt. by destruct logged. }
    rewrite Hrunning. exists c'. split_and!; try done. pose proof (line_wf _ _ Hr Hl) as Hwf.
    apply (stay_in_mode _ (top (top h0 logged) l)); rewrite Ef; [done| |by eexists]. apply pending_head_is_head; [done|].
    rewrite <-Ef. destruct Hi as [_ _ _ Hbest]. intros id s Hs. specialize (Hbest id s Hs). congruence.
  - destruct l as [|b l]; [|cbn [length] in Nr; lia]. cbn [top length] in *. destruct logged as [|b logged]; [|exfalso; cut (num h0 < num (top h0 (b :: logged))); [lia|by apply Hlt']].
    destruct Hlogged as [u Hlogged]. destruct u; [|done]. cbn in Hlogged. subst base. destruct Hchain as [u Hchain]. destruct u; [|done]. cbn in Hchain. subst cur. cbn [top] in *.
    cbv [mret M_ret]. rewrite Hrunning. exists c. split_and!; try done.
    + apply (stay_in_mode _ h0); rewrite Hf; [done|done|by eexists].
    + assert (rebuilding (set_replay_head_time (Some 0) c) h0 s0 [] 0) as Hb.
      { split; cbn; try done; [by rewrite Hu|by rewrite Hrev, Hh|by destruct Hlog]. }
      destruct (rebuilt_in_sync _ h0 s0 [] 0 s0 Hb) as [Hi _]; try done; [by exists []|]. replace c with (set_replay_head_time None (set_replay_head_time (Some 0) c)); [done|].
      destruct c. cbn in *. by subst.
Qed.

(** A node that starts with a new database, the log and the reversible blocks of [c] *)
Definition renewed (c : controller) (d : D) (h : bhs) : controller :=
  MkController d (reversible_blocks c) (blog c) (first_block_num c) None h no_fork_db None.

(** The chain of a controller that has run from the first block *)
Lemma chain_of_run c0 g c r : (∀ s p b x, execute s p b complete = Ok x → execute s p b validated_block = Ok x) →
  fresh num_of c0 g → blog c0 = [g] → num g = 1 → rtc (controller_step execute read_mode num_of) c0 c → root (fork_db c) = Some r →
  ∃ logged base l, r = top g logged ∧ chain_head c = top r l ∧ blog c = g :: rev logged ∧ first_block_num c = 1 ∧ log_ok c r ∧
    numbered_root g ∧ linked num_of g logged ∧ linked num_of r l ∧ rows c l ∧ prev r ≠ bhs_id r ∧
    (∃ u, follows execute g (contents (db c0)) logged base u) ∧ ∃ u, follows execute r base l (contents (db (aborted c))) u.
Proof.
  intros Hval Hf Hb0 Hg Hrun Hroot. pose proof (fr_num _ _ _ Hf) as Hng.
  destruct (run_reached execute read_mode num_of Hmode Hval _ _ _ Hf Hrun) as (base & l & logged & u & Hsy & Eb & Hfo & Hl).
  pose proof (synced_root _ _ _ _ _ _ Hsy) as Hr. rewrite Hroot in Hr. injection Hr as Er. rewrite <-Er in Hsy.
  destruct (sy_sync _ _ _ _ _ _ Hsy) as [[hf Ha] Hlog Hpr _]. destruct (aborted_parts c) as (Ef & Eb' & Efi).
  pose proof (ac_wf _ _ _ _ _ _ _ Ha) as Hwf. rewrite Ef in Hwf. destruct (stopped_chain c r hf base l Hsy Hwf) as (_ & Hlr & _).
  pose proof (ac_settled _ _ _ _ _ _ _ Ha) as Hs. pose proof Hlog as [L1 L2]. rewrite Eb' in L1, L2. rewrite Efi in L1. rewrite Hb0 in Eb. cbn [app] in Eb.
  pose proof (linked_num _ _ Hng Hl) as [N _].
  assert (chain_head c = top r l) as Eh by (rewrite <-(st_head _ _ _ _ _ _ Hs); unfold aborted; by destruct (pending c)).
  exists logged, base, l. split_and!; try done; [| |by exists u|eexists; apply (st_follows _ _ _ _ _ _ Hs)].
  - rewrite Eb in L1. cbn [length] in L1. rewrite length_rev in L1. rewrite Er in L1. lia.
  - intros n b. rewrite <-(st_reversible _ _ _ _ _ _ Hs). unfold aborted. by destruct (pending c).
Qed.

Lemma startup_genesis_eval c d g h0 : undo_states d = [] → revision d < 1 → last (blog c) ≠ None → first_block_num c = 1 →
  startup_genesis chain_id g (renewed c d h0) =
  init (set_fork_db (reset g) (renewed c (modify (initialize_database (contents d)) (set_revision (num g) d)) g)).
Proof.
  intros Hu Hr Hb Hf. unfold startup_genesis. cbv [mbind M_bind ask update]. cbn [db renewed fork_db head no_fork_db blog first_block_num].
  unfold ensure. rewrite (proj2 (Z.ltb_lt _ _)), bool_decide_true by done. cbv [mret M_ret]. unfold revise.
  cbv [mbind M_bind read update]. cbn [db set_chain_head renewed]. rewrite Hu. unfold ensure. cbv [mret M_ret].
  cbn [db set_db fork_db head set_chain_head renewed no_fork_db]. destruct (last (blog c)); [|done].
  rewrite Hf, Z.eqb_refl. cbv [mret M_ret]. rewrite set_revision_contents. done.
Qed.


(** *** From a snapshot *)

Section snapshot.
Context (Hexts : ∀ s p b st, execute s (ForkFile.reflected p) b st = execute s p b st).
Context (Hval : ∀ s p b x, execute s p b complete = Ok x → execute s p b validated_block = Ok x).

Notation reflected := ForkFile.reflected.

Lemma startup_snapshot_eval c d h s b h0 : undo_states d = [] → last (blog c) = Some b → first_block_num c = 1 → 0 ≤ num h < UINT32_MAX →
  num h ≤ num b →
  startup_snapshot (Ok (h, s)) (renewed c d h0) = init (set_fork_db (reset h) (renewed c (set_revision (num h) (modify s d)) h)).
Proof.
  intros Hu Hb Hf Hh Hle. unfold UINT32_MAX in Hh. unfold startup_snapshot. cbv [mbind M_bind ask]. cbn [blog renewed first_block_num]. rewrite Hb, Hf.
  unfold read_from_snapshot. cbv [mbind M_bind lift]. rewrite u32_id by lia. unfold ensure.
  rewrite (proj2 (Z.leb_le 1 _)), (proj2 (Z.leb_le (num h) _)) by lia. cbn [andb]. cbv [mret M_ret update]. unfold revise.
  cbv [mbind M_bind read update]. cbn [db set_db set_chain_head set_fork_db renewed]. rewrite modify_undo, Hu. done.
Qed.

(** What holds over a block holds over it without its extensions. *)
Lemma top_reflected (h : bhs) l : top (reflected h) l = top h l ∨ l = [] ∧ top (reflected h) l = reflected (top h l).
Proof. destruct l; [by right|by left]. Qed.

Lemma reflected_root (h : bhs) m l base cur u : linked num_of (top h m) l → follows execute (top h m) base l cur u →
  bhs_id (top (reflected h) m) = bhs_id (top h m) ∧ num (top (reflected h) m) = num (top h m) ∧ prev (top (reflected h) m) = prev (top h m) ∧
  linked num_of (top (reflected h) m) l ∧ follows execute (top (reflected h) m) base l cur u ∧
  bhs_id (top (top (reflected h) m) l) = bhs_id (top (top h m) l) ∧ num (top (top (reflected h) m) l) = num (top (top h m) l) ∧
  lib (top (top (reflected h) m) l) = lib (top (top h m) l).
Proof.
  intros Hl Hf. destruct (top_reflected h m) as [->|[_ ->]]; [done|]. destruct (top_num_reflected (top h m) l) as (? & ? & ?).
  split_and!; try done; [by apply linked_reflected|by apply (follows_reflected Hexts)].
Qed.

End snapshot.
End replaying.
End startup.

(** ** Witnesses *)

#[export, program] Instance stack_revision_database S : RevisionDatabase (state_stack S) S := {
  set_revision n d := MkStack (stack_contents d) (stack_undo d) n }.
Solve Obligations with done.

(** The contents are the identifiers of the blocks that were applied. *)
#[export] Instance sample_tables : StateTables (list digest) := {
  header_version _ := Some current_version;
  set_header_version _ s := s;
  state_chain_id _ := Merkle.zero_digest;
  initialize_database _ := [sample_id 1 0] }.

(** A block executes on the block it is built on. *)
Definition start_execute (s : list digest) (p b : block_header_state Z Z) (st : block_status) : result exn (list digest) :=
  if decide (prev b = bhs_id p) then sample_execute s p b st else Throw unlinkable_block_exception.
Definition sample_state_of (p b : block_header_state Z Z) : result exn (block_header_state Z Z) :=
  if decide (prev b = bhs_id p) then Ok b else Throw unlinkable_block_exception.

Definition first_block : block_header_state Z Z := sample_block 1 0 0 1.
Definition start_controller : sample_controller := MkController (MkStack [sample_id 1 0] [] 1) ∅ [first_block] 1 None first_block (reset first_block) None.

Notation start_step := (controller_step start_execute SPECULATIVE Merkle.word0).

Fixpoint start_pushes (c : sample_controller) (l : list (block_header_state Z Z)) : option sample_controller :=
  match l with
  | [] => Some c
  | b :: l =>
      if sample_ok (fork_db c) b then
        match push_block start_execute SPECULATIVE b c with Some (c, _) => start_pushes c l | None => None end
      else None
  end.

Lemma start_pushes_steps l : ∀ c c', start_pushes c l = Some c' → rtc start_step c c'.
Proof.
  induction l as [|b l IH]; intros c c' Hr; cbn in Hr; [by injection Hr as ->|].
  destruct (sample_ok (fork_db c) b) eqn:Hok; [|done]. destruct (push_block _ _ b c) as [[c1 res]|] eqn:Hp; [|done].
  eapply rtc_l; [|by apply IH]. destruct (root (fork_db c)) as [r|] eqn:Hroot; [|unfold sample_ok in Hok; by rewrite Hroot in Hok].
  eapply step_push; [done|by apply sample_ok_spec|done].
Qed.

Lemma start_fresh : fresh Merkle.word0 start_controller first_block.
Proof.
  split; try reflexivity; [split; [reflexivity|intros b [= <-]; split; reflexivity]|split; [reflexivity|cbn; unfold num; cbn; lia]|discriminate].
Qed.

Definition ran (l : list (block_header_state Z Z)) : sample_controller := default start_controller (start_pushes start_controller l).

Lemma ran_steps l : rtc start_step start_controller (ran l).
Proof. unfold ran. destruct (start_pushes _ l) as [c|] eqn:E; cbn; [by eapply start_pushes_steps|apply rtc_refl]. Qed.

(** Blocks 2, 3 and 4, the last of which makes block 2 irreversible *)
Definition stopped : sample_controller := ran [sample_block 2 0 0 1; sample_block 3 0 0 1; sample_block 4 0 0 2].

Lemma stopped_root : root (fork_db stopped) = Some (sample_block 2 0 0 1).
Proof. vm_compute. reflexivity. Qed.
Lemma stopped_head : head (fork_db stopped) = Some (sample_block 4 0 0 2) ∧ chain_head stopped = sample_block 4 0 0 2.
Proof. vm_compute. split; reflexivity. Qed.

Notation no_activation := (λ _ : list Z, @Throw exn (list digest) std_exception).
Notation no_schedule := (λ _ : list Z, @Throw exn (ProducerSchedule.producer_authority_schedule Z) std_exception).
Notation accepts := (λ (_ : Z) (_ : gset digest) (_ : list digest), @Ok exn unit tt).
Notation has_room := (λ _ : sample_controller, @Ok exn unit tt).
Notation keeps_running := (λ _ : sample_controller, false).

Lemma exts_unused s (p b : block_header_state Z Z) st : start_execute s (ForkFile.reflected p) b st = start_execute s p b st.
Proof. reflexivity. Qed.
Lemma start_val s (p b : block_header_state Z Z) x : start_execute s p b complete = Ok x → start_execute s p b validated_block = Ok x.
Proof. done. Qed.
Lemma start_irr s (p b : block_header_state Z Z) x : start_execute s p b validated_block = Ok x → start_execute s p b irreversible = Ok x.
Proof. done. Qed.
Lemma start_made s (p b : block_header_state Z Z) st x : start_execute s p b st = Ok x → sample_state_of p b = Ok b.
Proof. unfold start_execute, sample_state_of. by case_decide. Qed.

(** No block has extensions. *)
Definition plain (f : fork_database Z Z) : bool :=
  forallb (λ p, match header_extensions (header (bhs_header (state p.2))), header_exts (state p.2) with [], [] => true | _, _ => false end)
    (map_to_list (index f)).

Lemma plain_restorable f r : plain f = true → Z.of_nat (size (index f)) < 2 ^ 32 → ForkFile.restorable no_activation no_schedule accepts f r.
Proof.
  intros Hc Hn. assert (∀ id b, index f !! id = Some b → header_extensions (header (bhs_header (state b))) = [] ∧ header_exts (state b) = []) as Hb.
  { intros id b Hb. unfold plain in Hc. rewrite forallb_forall in Hc. specialize (Hc (id, b)).
    rewrite <-list_elem_of_In, elem_of_map_to_list in Hc. specialize (Hc Hb). cbn in Hc.
    by destruct (header_extensions _), (header_exts _). }
  split; [done|..].
  - intros id b Hid. destruct (Hb id b Hid) as [E1 E2]. unfold validate_and_extract_header_extensions. by rewrite E1, E2.
  - intros id b p Hid _. destruct (Hb id b Hid) as [_ E]. unfold ForkFile.activation_ok. by rewrite E.
Qed.

Lemma stopped_restorable : ForkFile.restorable no_activation no_schedule accepts (fork_db stopped) (sample_block 2 0 0 1).
Proof. apply plain_restorable; vm_compute; reflexivity. Qed.




(** *** Nodes that do not start *)

(** A fork with an invalid block 4 is tried and given up: its block 3 stays validated beside
    the head.  When an invalid block 4 arrives on the head, the fork database makes the
    block 3 with the smaller identifier its head, and the new block fails before the node
    could follow. *)
Definition two_heads : sample_controller :=
  ran [sample_block 2 0 0 1; sample_block 3 1 0 1; sample_block 3 0 0 1; sample_block 4 9 0 1; sample_block 4 9 1 1].

Lemma two_heads_differ : bhs_id (chain_head two_heads) = sample_id 3 1 ∧ (bhs_id <$> head (fork_db two_heads)) = Some (sample_id 3 0).
Proof. vm_compute. split; reflexivity. Qed.

(** The node can go on, but it refuses to start again. *)
Lemma restart_refused :
  match startup_existing start_execute (λ s _ _, s) SPECULATIVE false Merkle.zero_digest sample_state_of has_room keeps_running
    (restarted two_heads (fork_db two_heads) first_block) with
  | Some (_, Throw e) => e = reversible_blocks_exception
  | _ => False
  end.
Proof. vm_compute. reflexivity. Qed.

(** A snapshot without a log, and a reversible block that follows it: [replay] uses the head
    of the empty log. *)
Lemma snapshot_without_log_crashes :
  startup_snapshot start_execute (λ s _ _, s) SPECULATIVE false Merkle.zero_digest sample_state_of has_room keeps_running
    (Ok (sample_block 2 0 0 1, [sample_id 2 0; sample_id 1 0]))
    (MkController (MkStack [] [] 0) {[3 := sample_block 3 0 0 1]} [] 1 None first_block no_fork_db None) = None.
Proof. vm_compute. reflexivity. Qed.

(** A database that is ahead of the head without an undo session: [init] does not end. *)
Lemma undo_never_ends :
  startup_existing start_execute (λ s _ _, s) SPECULATIVE false Merkle.zero_digest sample_state_of has_room keeps_running
    (MkController (MkStack [] [] 3) ∅ [first_block] 1 None first_block (reset first_block) None) = None.
Proof. vm_compute. reflexivity. Qed.

(** The producers of the first block are those of the configuration, and not those of the
    genesis state; the identifier of the block does not show the difference. *)
Lemma genesis_producers_from_configuration {key signature : Type} digest_of reverse hash_schedule (sig : signature) (conf1 conf2 g : genesis_state key) :
  let b1 := genesis_head digest_of reverse hash_schedule sig conf1 g in
  let b2 := genesis_head digest_of reverse hash_schedule sig conf2 g in
  bhs_id b1 = bhs_id b2 ∧ bhs_header b1 = bhs_header b2 ∧
  ProducerSchedule.producers (active_schedule (common b1)) = map (λ p, MkProducer (pk_producer_name p) (MkBsa 1 [Authority.MkKw (block_signing_key p) 1])) (initial_producer_list conf1).
Proof. done. Qed.

End Startup.
